(* ===== verification/_CoqProject ===== *)
-Q . S2P
Prelude.v
Decimal.v
Containers.v
Model.v
OrderBook.v
Quantum.v
Matching.v
Fixtures.v
Sweep.v
Slice.v
Priority.v
Engine.v
EngineInv.v
EngineSafety.v
EngineTheorems.v
Sharded.v
Errors.v
Fee.v
MarketRules.v
Database.v
Ledger.v
LedgerInv.v
LedgerSpec.v
LedgerTheorems.v
Sha256.v
OrderLedger.v
Queries.v
Settlement.v
TradePlan.v
Store.v
SettlementProofs.v
SettlementBatch.v
SettlementBatchProofs.v
Idempotency.v
HoldCoordinator.v
OrderService.v
Transfers.v
TransferInv.v
LockedFunds.v
OrderProofs.v
HoldBatchProofs.v
TransferProofs.v
FailureStores.v
Services.v
TransferLive.v
ServiceFixtures.v
HoldQueue.v
Dispatcher.v
DispatcherInv.v
DispatcherProofs.v
Processing.v
FailureProofs.v
ProcessingProofs.v
TerminalProofs.v
RetryWorker.v
RetryProofs.v
ProcessingFixtures.v
Outbox.v
OutboxProofs.v
ReplayProofs.v
Reconciliation.v
ReconciliationProofs.v
CancelWorker.v
CancelProofs.v
CancelTheorems.v
Recovery.v
RecoveryProofs.v
HttpApi.v
HttpProofs.v
WebSocket.v
WebSocketProofs.v
Tokens.v
Accounts.v
TokenProofs.v
AccountsProofs.v
Router.v
RouterProofs.v
Configuration.v
ConfigurationProofs.v
