(* ===== verification/Prelude.v ===== *)
(** * Go-exchange back end: verification library

    ** The program

    The repository is the back end of a spot exchange for coins against KRW.
    A request to place an order passes through the order service, which checks
    it against the market rules, stores it, moves what it may cost from the
    user's available account to the locked one, and hands it to the matching
    engine.  One goroutine per shard owns the order books, matches orders by
    price and time, and reports trades, completed market orders and cancelled
    orders on a channel.  An outbox writer commits these events to the database
    before anybody acts on them; a pipeline of workers then settles the trades
    (journals, fills, average prices), completes or cancels orders and releases
    what is left of their holds.  Steps that fail are stored and retried; at
    start-up the pending events are replayed and the open orders reloaded.
    Deposits and withdrawals go through requests that an external processor
    confirms by callbacks or polls.  All money is kept in a double-entry ledger.

    ** How it is modelled

    Pure Go functions are Rocq functions.  The engine is explicit state passing
    with a result type for panics and blocking sends ([Matching], [Engine]);
    what other goroutines do between two of its steps is a list of actions, so
    its theorems hold under every interleaving at these points.  The services
    run in a small monad over a database with tables, sequences and a schedule
    of faults ([Database]): every statement and every commit may fail, and the
    acknowledgement of a commit may be lost.  Go's (value, error) is [result];
    errors are values ([Errors]).  Decimals ([Decimal]) and the engine's
    containers ([Containers]) are third-party packages: interfaces (type
    classes) with laws from their documentation, and an implementation that
    shows the laws can hold and makes every definition executable.

    ** Files and sources (under src/internal unless said otherwise)

    - [Prelude]: results, record updates, hint databases, sums over lists and maps.
    - [Decimal], [Containers]: shopspring/decimal, google/btree, gammazero/deque.
    - [Model]: model/order.go, model/trade.go, matching/order.go.
    - [OrderBook], [Quantum], [Matching], [Engine], [Sharded]: matching/*.go.
    - [Sweep], [Slice], [Priority]: theorems on the match loops.
    - [EngineInv], [EngineSafety], [EngineTheorems]: the scheduler's invariant.
    - [Fixtures]: concrete books and engines for the witnesses.
    - [Errors], [Fee], [MarketRules]: service/errors.go, fee.go,
      market_rules_registry.go, order_policy.go.
    - [Database]: the tables (model/*.go) and PostgreSQL as the services see it.
    - [Ledger]: service/ledger_service.go, repository/account_repository.go,
      journal_repository.go; its proofs in [LedgerInv], [LedgerSpec],
      [LedgerTheorems].
    - [Sha256], [Idempotency]: crypto/sha256, service/order_fingerprint.go,
      repository/order_idempotency_repository.go.
    - [OrderLedger], [Queries]: service/order_ledger.go, repository/order_repository.go,
      trade_repository.go.
    - [Settlement]: service/settlement_service.go; proofs in [TradePlan], [Store],
      [SettlementProofs].  [SettlementBatch]: service/settlement_batch.go; proofs in
      [SettlementBatchProofs].
    - [HoldCoordinator], [OrderService]: service/hold_coordinator.go, settlement_transient.go,
      order_service.go, dev_wallet_service.go; proofs in [LockedFunds], [OrderProofs],
      [HoldBatchProofs].  [HoldQueue]: the coordinator's goroutine, model and proofs.
    - [Transfers]: service/transfer_service.go, transfer_status_poller.go,
      fake_transfer_processor.go, repository/transfer_repository.go; proofs in
      [TransferInv], [TransferProofs], [TransferLive].
    - [Services]: all of the above together; [ServiceFixtures]: concrete histories of
      orders, transfers and batches.
    - [FailureStores]: service/failed_*_service.go, repository/failed_*_repository.go;
      proofs in [FailureProofs].
    - [Dispatcher]: cmd/settlement_pipeline.go, cmd/settlement_dependency.go (under src);
      proofs in [DispatcherInv], [DispatcherProofs].
    - [Processing]: what a worker does with committed events, cmd/main.go (under src);
      proofs in [ProcessingProofs], [TerminalProofs]; runs in [ProcessingFixtures].
    - [RetryWorker]: service/settlement_retry_worker.go; proofs in [RetryProofs].
    - [Outbox]: service/outbox_writer.go, outbox_replayer.go,
      repository/trade_outbox_repository.go; proofs in [OutboxProofs], [ReplayProofs].
    - [Reconciliation]: service/reconciliation_worker.go and the two repositories it
      queries; proofs in [ReconciliationProofs].
    - [CancelWorker]: service/cancel_command_worker.go, repository/cancel_command_repository.go;
      proofs in [CancelProofs], [CancelTheorems].
    - [Recovery]: service/matching_bootstrap_service.go, stale_market_order_finalizer.go,
      cmd/cancel_command_lifecycle.go (under src); proofs in [RecoveryProofs].
    - [HttpApi]: httpapi/response.go, handler/order_handler.go, transfer_handler.go,
      dev_handler.go; proofs in [HttpProofs].
    - [WebSocket]: ws/hub.go, ws/handler.go; proofs in [WebSocketProofs].
    - [Tokens], [Accounts]: auth/token.go, service/auth_service.go,
      repository/user_repository.go; proofs in [TokenProofs], [AccountsProofs].
    - [Router]: middleware/*.go, handler/auth_handler.go, market_handler.go,
      orderbook_handler.go, cmd/router.go (under src); proofs in [RouterProofs].
    - [Configuration]: config/*.go (under src); proofs in [ConfigurationProofs].

    ** What the theorems show

    - Order book and matching: every tree operation does what it does to the
      priority list; a sweep conserves quantities, respects price and time, never
      trades a user with itself, ends, and does not depend on how it is cut into
      slices.
    - Engine: no panic and no blocking send on the event channel under any
      interleaving; books stay well formed and uncrossed; event numbers grow; every
      order that is taken is eventually processed.
    - Ledger: journals balance, balances are the sums of postings, retries record
      once, key reuse is detected, reversals cancel.
    - Settlement: atomic, exactly once under any faults, and possible whenever the
      trade is covered; a batch leaves what its trades leave one after the other.
    - Orders: what a request reports is what happened, in whatever batch of the hold
      coordinator it is held; locked funds are exactly what open orders and pending
      withdrawals need (signed: a market buy that spent more than its budget counts
      negatively).  The coordinator hands out orders it has stored, each once, and those
      are all it creates unless the acknowledgement of a commit is lost: then an order
      can be held and never submitted ([lost_batch_is_never_submitted]).  It answers
      every accepted request, in order, within a bounded number of its steps, and has
      answered all when it returns.
    - Transfers: money moves once, and a submitted transfer can be closed as long as no
      open market buy of the user has spent more than its budget ([budgets_kept]).
    - Budgets: the amount a market buy may spend in the engine is rounded and can cost
      more than what is held for it.  [full_budget_trade_refused] ([Services]) shows that
      the trade spending the last of it is refused when the user has no other hold; when
      there is one it settles and breaks [budgets_kept], so that other trades and
      withdrawals are refused ([overdrawn_hold_refused], [overdrawn_withdrawal_stuck]).
    - Services: all of this in every state reachable from an empty database.
    - Pipeline: the end of an order is handed out only after the trades before it are
      done; a batch that is taken is settled or recorded as failed; messages leave in
      order; the dispatcher stops, except in the case [shutdown_can_hang] shows.
    - Failures and retries: no record is dropped, a retried trade is the recorded one,
      an order with an open failure is not ended; [old_failures_starve_new]
      ([RetryProofs]) shows what the limit of a page costs.
    - Outbox: events that fit one INSERT and name PENDING commands are committed before
      they are forwarded, and the replay accounts for every pending row;
      [lost_commit_stops_writer] shows that a lost acknowledgement stops the writer.
    - Cancel commands: each is tried until it ends, and is closed only when its order is
      cancelled or was closed in the database.  Nothing is assumed of the commands and
      orders the worker finds at its start, nor of when settlement closes an order.
    - Reconciliation: a check reports exactly the violations there are, on any number of
      pages, if one INSERT can carry them (16,383), and none otherwise.
    - Recovery: the bootstrap loads what the database holds of the open orders, the
      finalizer accounts for stale market orders; [restart_undoes_cancellation] shows a
      cancellation that a restart undoes.
    - HTTP interface: answers agree with the database and the engine; without a valid
      token nothing but accounts changes.
    - Accounts and tokens: one account per address, a registered user logs in, a token
      is read back as its user until it expires and is accepted only with its MAC.
    - Websockets: the hub never panics; a registered client gets what was published for
      it, in order.
    - Configuration: strict settings are exact, and the engine takes the
      limits read from them if and only if they fit its channels; environment files do not override the
      environment, the check of a database session accepts what was configured.

    ** Parameters

    Code outside the repository is a type class with its documented laws, and an
    instance in the examples of the file: decimals, trees and deques; bcrypt and mail
    addresses ([Passwords]); reading JSON ([TokenJSON], [PayloadJSON]); the token bucket
    of golang.org/x/time/rate ([RateLib]); durations and CIDRs ([ConfigLib]); what
    PostgreSQL shows of a setting ([ShowLib]); the text of an error ([ErrorTexts]).
    SHA-256, HMAC and base64 are written out.

    ** Bounds and fuel

    The match loops take fuel; [Sweep] proves that the number of resting orders
    plus one is enough.  The outbox writer retries without end: its fuel is the number of
    attempts, and one more than the faults to come is enough.  The replay and the
    reconciliation read pages: one more than the number of rows is enough.  Go's [int]
    is a 64-bit integer with wrap-around where the source worries about it ([Quantum],
    [Configuration]).  A statement of PostgreSQL carries 65,535 parameters; the model
    counts them for the INSERTs of the outbox and of the violations, and has no limit for
    the other statements, whose batches are small by default.  Identifiers are [N] and
    instants [Z] nanoseconds.  Everything else
    recurses structurally.

    ** Not modelled

    Transactions run one after the other, so row locks have no effect beyond that;
    isolation anomalies and deadlocks appear only as statements that fail.  Text is
    ordered by bytes.  Column lengths are checked for transfers only, created_at and
    updated_at columns are left out, and so is the trigger that checks at commit
    that a withdrawal has its hold.  Decoding and encoding JSON and HTTP is gin's;
    frames, pings and deadlines are the websocket package's.  Metrics and the monitor
    that feeds a gauge, logs, tickers, the start of the process (opening pools, starting
    goroutines and servers), migrations, the price feed and the helpers of the tests only
    connect or observe what is modelled here. *)
From stdpp Require Export base list gmap strings fin_maps sorting pretty.
From stdpp Require Import numbers.
From Stdlib Require Export ZArith QArith Lqa Qround Qabs.
From Stdlib Require Import Lia.

Open Scope Z_scope.

Declare Scope go_scope.
Delimit Scope go_scope with go.

(** ** Results: a Go pair (value, error) *)

Inductive result (E A : Type) : Type :=
| Ok (a : A)
| Err (e : E).
Arguments Ok {E A} a.
Arguments Err {E A} e.

(** [x ← m; k] is Go's [x, err := m; if err != nil { return err }; k]. *)
#[export] Instance result_bind {E} : MBind (result E) := fun A B f m =>
  match m with Ok a => f a | Err e => Err e end.
#[export] Instance result_ret {E} : MRet (result E) := fun A a => Ok a.

Definition is_ok {E A} (r : result E A) : bool :=
  match r with Ok _ => true | Err _ => false end.

(** ** Tactics of the development *)

(** Destruct the scrutinee of the innermost [match]/[if] of the goal or of a
    hypothesis, remembering the equation. *)
Ltac case_scrut t :=
  lazymatch t with
  | context [match ?u with _ => _ end] => case_scrut u
  | _ => let E := fresh "E" in destruct t eqn:E
  end.
Ltac case_goal := match goal with |- context [match ?t with _ => _ end] => case_scrut t end.
Ltac case_hyp H := match type of H with context [match ?t with _ => _ end] => case_scrut t end.
(** Clear a chain of early returns: every branch of [H] that cannot produce the
    stated result is discharged. *)
Ltac inv_ok H := repeat (case_hyp H; simplify_eq/=).
Ltac bool_to_prop :=
  repeat match goal with
  | H : (_ && _) = true |- _ => apply andb_true_iff in H; destruct H
  | H : (_ || _) = false |- _ => apply orb_false_iff in H; destruct H
  | H : negb _ = true |- _ => apply negb_true_iff in H
  | H : negb _ = false |- _ => apply negb_false_iff in H
  | H : (_ <? _)%Z = true |- _ => apply Z.ltb_lt in H
  | H : (_ <? _)%Z = false |- _ => apply Z.ltb_ge in H
  | H : (_ <=? _)%Z = true |- _ => apply Z.leb_le in H
  | H : (_ <=? _)%Z = false |- _ => apply Z.leb_gt in H
  | H : (_ =? _)%Z = true |- _ => apply Z.eqb_eq in H
  | H : (_ =? _)%Z = false |- _ => apply Z.eqb_neq in H
  end.

(** ** Record update

    [r <| field := v |>].  A record gets it from a [Settable] instance that
    lists its fields; the setter of a field is found by replacing the field in
    that list. *)

Class Settable (R : Type) := eta_fields : R -> R.
Class Setter {R T : Type} (proj : R -> T) := set_field : (T -> T) -> R -> R.
Arguments set_field {R T} proj {_} _ _.

Ltac derive_setter :=
  lazymatch goal with |- @Setter ?R ?T ?proj =>
    let inst := constr:(_ : Settable R) in
    unfold Setter; let f := fresh "f" in let r := fresh "r" in intros f r;
    let b := eval hnf in (@eta_fields R inst r) in
    let b := eval pattern (proj r) in b in
    lazymatch b with ?G _ => let t := eval cbv beta in (G (f (proj r))) in exact t end
  end.
#[export] Hint Extern 0 (Setter _) => derive_setter : typeclass_instances.

Definition const_to {T} (v _old : T) : T := v.
Arguments const_to {T} v _old /.
Notation "r <| proj := v |>" := (set_field proj (const_to v) r)
  (at level 8, left associativity, format "r  <| proj  :=  v |>") : go_scope.
Open Scope go_scope.

(** ** Lists *)

(** Remove the element at an index. *)
Definition remove_nth {A} (i : nat) (l : list A) : list A := take i l ++ drop (S i) l.

Lemma remove_nth_cons_0 {A} (x : A) l : remove_nth 0 (x :: l) = l.
Proof. unfold remove_nth. cbn. by rewrite drop_0. Qed.

Lemma remove_nth_cons_S {A} (x : A) l i : remove_nth (S i) (x :: l) = x :: remove_nth i l.
Proof. done. Qed.

Lemma remove_nth_elem {A} (x : A) i (l : list A) : x ∈ remove_nth i l -> x ∈ l.
Proof.
  unfold remove_nth. rewrite elem_of_app. intros [H|H].
  - eapply elem_of_subseteq; [|exact H]. apply subseteq_take.
  - eapply elem_of_subseteq; [|exact H]. apply subseteq_drop.
Qed.

Lemma remove_nth_perm {A} (x : A) i (l : list A) :
  l !! i = Some x -> l ≡ₚ x :: remove_nth i l.
Proof.
  intros H. unfold remove_nth. rewrite <- (take_drop_middle l i x H) at 1.
  by rewrite Permutation_middle.
Qed.

Lemma insert_perm {A} (x y : A) i (l : list A) :
  l !! i = Some x -> <[i:=y]> l ≡ₚ y :: remove_nth i l.
Proof.
  intros H. assert (Hi : (i < length l)%nat) by by eapply lookup_lt_Some.
  rewrite insert_take_drop by done. unfold remove_nth. by rewrite Permutation_middle.
Qed.

Lemma Forall_remove_nth {A} (P : A -> Prop) i (l : list A) :
  Forall P l -> Forall P (remove_nth i l).
Proof.
  intros H. apply Forall_app. split; [by apply Forall_take | by apply Forall_drop].
Qed.

Lemma length_remove_nth {A} i (l : list A) x :
  l !! i = Some x -> length l = S (length (remove_nth i l)).
Proof. intros H%remove_nth_perm%Permutation_length. done. Qed.

Lemma filter_none {A} (P : A -> Prop) `{DP : !forall x, Decision (P x)} (l : list A) :
  (forall x, x ∈ l -> ~ P x) -> filter P l = [].
Proof.
  induction l as [|x l IH]; intros Hn; [done|]. rewrite filter_cons. case_decide as Hx.
  - destruct (Hn x); [by left | done].
  - apply IH. intros y Hy. apply Hn. by right.
Qed.

Lemma NoDup_map_inj {A B} (f : A -> B) (l : list A) x y : NoDup (map f l) -> x ∈ l -> y ∈ l -> f x = f y -> x = y.
Proof.
  intros Hnd Hx Hy E. apply list_elem_of_lookup in Hx as [i Hi], Hy as [j Hj].
  assert (i = j) as ->; [|congruence]. apply (NoDup_lookup _ i j (f x) Hnd); rewrite list_lookup_fmap.
  - by rewrite Hi.
  - by rewrite Hj, E.
Qed.

Lemma NoDup_map_filter {A B} (f : A -> B) (P : A -> Prop) `{DP : !forall x, Decision (P x)} (l : list A) :
  NoDup (map f l) -> NoDup (map f (filter P l)).
Proof.
  induction l as [|x l IH]; [done|]. cbn [map]. rewrite list.NoDup_cons. intros [Hx Hl].
  rewrite filter_cons. case_decide; [|by apply IH]. cbn [map]. apply list.NoDup_cons. split; [|by apply IH].
  intros Hin. apply Hx. apply list_elem_of_fmap in Hin as (y & -> & Hy).
  apply list_elem_of_filter in Hy as [_ Hy]. by apply (list_elem_of_fmap_2 f).
Qed.

(** ** Orders *)

(** Compare the first components, and the second ones when the first are equal. *)
Definition lex_le {A B} (RA : relation A) (RB : relation B) : relation (A * B) := fun x y =>
  (x.1 <> y.1 /\ RA x.1 y.1) \/ (x.1 = y.1 /\ RB x.2 y.2).

#[export] Instance lex_le_dec {A B} `{EqDecision A} (RA : relation A) (RB : relation B)
  `{!RelDecision RA, !RelDecision RB} : RelDecision (lex_le RA RB).
Proof. intros x y. unfold lex_le. apply _. Defined.

#[export] Instance lex_le_order {A B} (RA : relation A) (RB : relation B)
  `{HA : !base.PartialOrder RA, HB : !base.PartialOrder RB} : base.PartialOrder (lex_le RA RB).
Proof.
  repeat split.
  - intros x. by right.
  - intros x y z [[Hn H1]|[He H1]] [[Hn' H2]|[He' H2]].
    + left. split; [|by etrans]. intros E. apply Hn. rewrite <- E in H2. by apply (anti_symm RA).
    + left. by rewrite <- He'.
    + left. by rewrite He.
    + right. split; [congruence | by etrans].
  - intros [x1 x2] [y1 y2] [[Hn H1]|[He H1]] [[Hn' H2]|[He' H2]]; cbn in *; subst; try done.
    + by destruct (Hn (anti_symm RA _ _ H1 H2)).
    + f_equal. by apply (anti_symm RB).
Qed.

#[export] Instance lex_le_total {A B} `{EqDecision A} (RA : relation A) (RB : relation B)
  `{!Total RA, !Total RB} : Total (lex_le RA RB).
Proof.
  intros x y. unfold lex_le. destruct (decide (x.1 = y.1)) as [E|E].
  - destruct (total RB x.2 y.2); auto.
  - destruct (total RA x.1 y.1); auto.
Qed.

(** ** Finite sums of rationals *)

Definition Qsum (l : list Q) : Q := foldr Qplus 0%Q l.

Lemma Qsum_nil : Qsum [] = 0%Q.
Proof. done. Qed.
Lemma Qsum_cons q l : Qsum (q :: l) = (q + Qsum l)%Q.
Proof. done. Qed.

Lemma Qsum_app l k : (Qsum (l ++ k) == Qsum l + Qsum k)%Q.
Proof.
  induction l as [|x l IH]; simpl app; rewrite ?Qsum_nil, ?Qsum_cons, ?IH; lra.
Qed.

#[export] Instance Qsum_perm : Proper ((≡ₚ) ==> Qeq) Qsum.
Proof.
  intros l k H. induction H; rewrite ?Qsum_cons; lra.
Qed.

Lemma Qsum_nonneg l : Forall (fun q => 0 <= q)%Q l -> (0 <= Qsum l)%Q.
Proof. induction 1; rewrite ?Qsum_nil, ?Qsum_cons; lra. Qed.

Create HintDb exchange.

(** ** Sums over the rows of a table *)

Section MapSum.
Local Open Scope Q_scope.

Definition map_sum {A} (f : A -> Q) (m : gmap N A) : Q := Qsum (map (fun p => f p.2) (map_to_list m)).

Lemma Qsum_map_perm {A} (l k : list A) (f : A -> Q) : l ≡ₚ k -> Qsum (map f l) == Qsum (map f k).
Proof. intros H. by rewrite H. Qed.

Lemma map_sum_new {A} (f : A -> Q) m id o : m !! id = None -> map_sum f (<[id := o]> m) == map_sum f m + f o.
Proof.
  intros Hn. unfold map_sum. rewrite (Qsum_map_perm _ _ _ (map_to_list_insert m id o Hn)). cbn [map snd]. rewrite Qsum_cons. lra.
Qed.
Lemma map_sum_delete {A} (f : A -> Q) m id o : m !! id = Some o -> map_sum f m == map_sum f (delete id m) + f o.
Proof.
  intros Ho. rewrite <- (insert_delete_id m id o Ho) at 1. apply map_sum_new. apply lookup_delete_eq.
Qed.
Lemma map_sum_update {A} (f : A -> Q) m id o o' : m !! id = Some o -> map_sum f (<[id := o']> m) == map_sum f m - f o + f o'.
Proof.
  intros Ho. rewrite <- insert_delete_eq, map_sum_new by apply lookup_delete_eq. rewrite (map_sum_delete f m id o Ho). lra.
Qed.
Lemma map_sum_ext {A} (f g : A -> Q) m : (forall o, f o == g o) -> map_sum f m == map_sum g m.
Proof.
  intros H. unfold map_sum. induction (map_to_list m) as [|p l IH]; [done|]. cbn [map]. rewrite !Qsum_cons, IH, (H p.2). done.
Qed.
Lemma suffix_elem_of {A} (l l' : list A) x : l `suffix_of` l' -> x ∈ l -> x ∈ l'.
Proof. intros [k ->] Hx. apply elem_of_app. by right. Qed.

Lemma map_sum_none {A} (f : A -> Q) m : map_Forall (fun _ o => f o == 0) m -> map_sum f m == 0.
Proof.
  intros H. apply map_Forall_to_list in H. unfold map_sum. induction H as [|[i o] l Ho _ IH]; cbn [map]; rewrite ?Qsum_cons, ?Qsum_nil; [done|]. cbn in *. lra.
Qed.
Lemma map_sum_nonneg {A} (f : A -> Q) m : map_Forall (fun _ o => 0 <= f o) m -> 0 <= map_sum f m.
Proof.
  intros H. apply Qsum_nonneg, Forall_map. apply map_Forall_to_list in H. refine (Forall_impl _ _ H). by intros [id o].
Qed.
Lemma map_sum_ge {A} (f : A -> Q) m id o : map_Forall (fun _ o => 0 <= f o) m -> m !! id = Some o -> f o <= map_sum f m.
Proof.
  intros H Ho. rewrite (map_sum_delete f m id o Ho). assert (0 <= map_sum f (delete id m)); [|lra].
  apply map_sum_nonneg. by apply map_Forall_delete.
Qed.
End MapSum.
