(* ===== verification/Decimal.v ===== *)
(** * [github.com/shopspring/decimal], as an interface

    The package is a dependency of the program and not part of it, so the
    development takes it as a parameter: [DecimalLib] lists the operations the
    code calls (under the package's names) and [DecimalLaws] states the
    documented behaviour the theorems rely on, through the rational value
    [dval] of a decimal.  [FixedPoint] at the end of the file is a concrete
    implementation; it shows that the laws can hold and lets every definition
    built on the interface be evaluated. *)
From S2P Require Import Prelude.
From Stdlib Require Import Lia Ascii.

(** ** The operations *)

Class DecimalLib := {
  decimal : Type;
  Zero : decimal;
  Add : decimal -> decimal -> decimal;
  Sub : decimal -> decimal -> decimal;
  Mul : decimal -> decimal -> decimal;
  Neg : decimal -> decimal;
  Cmp : decimal -> decimal -> comparison;
  (* The three divisions panic on a zero divisor: [None]. *)
  Div : decimal -> decimal -> option decimal;
  QuoRem : decimal -> decimal -> Z -> option (decimal * decimal);
  Mod : decimal -> decimal -> option decimal;
  DString : decimal -> string;
  NewFromInt : Z -> decimal;
  NewFromString : string -> option decimal
}.

(** [decimal.DivisionPrecision]'s default. *)
Definition DivisionPrecision : Z := 16.

Section Derived.
Context {DL : DecimalLib}.

Definition LessThan (a b : decimal) : bool :=
  match Cmp a b with Lt => true | _ => false end.
Definition LessThanOrEqual (a b : decimal) : bool :=
  match Cmp a b with Gt => false | _ => true end.
Definition GreaterThan (a b : decimal) : bool :=
  match Cmp a b with Gt => true | _ => false end.
Definition GreaterThanOrEqual (a b : decimal) : bool :=
  match Cmp a b with Lt => false | _ => true end.
Definition Equal (a b : decimal) : bool :=
  match Cmp a b with Eq => true | _ => false end.
Definition IsZero (a : decimal) : bool := Equal a Zero.
Definition IsPositive (a : decimal) : bool := GreaterThan a Zero.
Definition IsNegative (a : decimal) : bool := LessThan a Zero.
(* [decimal.Min(first, rest...)]: the first smallest argument. *)
Definition Min (a b : decimal) : decimal := if LessThan b a then b else a.
End Derived.

(** ** Decimal literals: the strings [NewFromString] is given as constants *)

Definition digit_value (c : ascii) : option Z :=
  let n := Z.of_N (N_of_ascii c) in
  if (48 <=? n) && (n <=? 57) then Some (n - 48) else None.

(** Mantissa and number of fractional digits of "123.45". *)
Fixpoint literal_digits (s : string) (acc : Z) (frac : option nat) : option (Z * nat) :=
  match s with
  | EmptyString => Some (acc, default O frac)
  | String c s' =>
      if Ascii.eqb c "."
      then match frac with None => literal_digits s' acc (Some O) | Some _ => None end
      else match digit_value c with
           | Some d => literal_digits s' (10 * acc + d) (S <$> frac)
           | None => None
           end
  end.

Definition literal_parts (s : string) : option (Z * nat) :=
  match s with
  | String c _ => match digit_value c with
                  | Some _ => literal_digits s 0 None
                  | None => None
                  end
  | EmptyString => None
  end.

Fixpoint pow10 (k : nat) : positive :=
  match k with O => 1 | S k' => 10 * pow10 k' end%positive.

Definition scaled (c : Z) (k : nat) : Q := c # pow10 k.

Definition literal_value (s : string) : option Q :=
  '(c, k) ← literal_parts s; Some (scaled c k).

(** [10 ^ -p], the unit of the last place at precision [p]. *)
Definition ulp (p : Z) : Q := (1 # Z.to_pos (10 ^ p))%Q.

Lemma ulp_pos p : (0 < ulp p)%Q.
Proof. done. Qed.

(** ** The laws *)

Class DecimalLaws (DL : DecimalLib) := {
  dval : decimal -> Q;
  dval_Zero : (dval Zero == 0)%Q;
  dval_Add a b : (dval (Add a b) == dval a + dval b)%Q;
  dval_Sub a b : (dval (Sub a b) == dval a - dval b)%Q;
  dval_Mul a b : (dval (Mul a b) == dval a * dval b)%Q;
  dval_Neg a : (dval (Neg a) == - dval a)%Q;
  dval_NewFromInt n : (dval (NewFromInt n) == inject_Z n)%Q;
  Cmp_dval a b : Cmp a b = (dval a ?= dval b)%Q;
  (* QuoRem(d2, precision): d = d2*q + r, q an integer multiple of
     10^-precision, and 0 <= r < |d2| * 10^-precision when d >= 0. *)
  QuoRem_dval a b p : (~ dval b == 0)%Q -> 0 <= p ->
    exists q r k, QuoRem a b p = Some (q, r) /\
      (dval q == inject_Z k * ulp p)%Q /\
      (dval a == dval b * dval q + dval r)%Q /\
      (0 <= dval a -> 0 <= dval r /\ dval r < Qabs (dval b) * ulp p)%Q;
  QuoRem_zero a b p : (dval b == 0)%Q -> QuoRem a b p = None;
  (* Div rounds to DivisionPrecision digits after the point. *)
  Div_dval a b : (~ dval b == 0)%Q ->
    exists q, Div a b = Some q /\
      (Qabs (dval q - dval a / dval b) <= (1 # 2) * ulp DivisionPrecision)%Q;
  Div_zero a b : (dval b == 0)%Q -> Div a b = None;
  Mod_dval a b : (~ dval b == 0)%Q ->
    exists r k, Mod a b = Some r /\
      (dval a == dval b * inject_Z k + dval r)%Q /\ (Qabs (dval r) < Qabs (dval b))%Q;
  Mod_zero a b : (dval b == 0)%Q -> Mod a b = None;
  NewFromString_literal s q : literal_value s = Some q ->
    exists d, NewFromString s = Some d /\ (dval d == q)%Q;
  (* String() trims trailing zeros: equal numbers, and only those, print alike. *)
  DString_dval a b : DString a = DString b <-> (dval a == dval b)%Q
}.

(** ** Comparisons, as propositions on values *)

Section Compare.
Context {DL : DecimalLib} {DLaws : DecimalLaws DL}.
Implicit Types a b : decimal.
Local Open Scope Q_scope.

Lemma LessThan_true a b : LessThan a b = true <-> dval a < dval b.
Proof.
  unfold LessThan. rewrite Cmp_dval, Qlt_alt.
  destruct (dval a ?= dval b)%Q; naive_solver.
Qed.
Lemma LessThan_false a b : LessThan a b = false <-> dval b <= dval a.
Proof.
  rewrite <- not_true_iff_false, LessThan_true. split; [apply Qnot_lt_le | apply Qle_not_lt].
Qed.
Lemma GreaterThan_LessThan a b : GreaterThan a b = LessThan b a.
Proof.
  unfold GreaterThan, LessThan. rewrite !Cmp_dval, <- (Qcompare_antisym (dval a)).
  by destruct (dval a ?= dval b)%Q.
Qed.
Lemma GreaterThan_true a b : GreaterThan a b = true <-> dval b < dval a.
Proof. by rewrite GreaterThan_LessThan, LessThan_true. Qed.
Lemma GreaterThan_false a b : GreaterThan a b = false <-> dval a <= dval b.
Proof. by rewrite GreaterThan_LessThan, LessThan_false. Qed.
Lemma LessThanOrEqual_negb a b : LessThanOrEqual a b = negb (GreaterThan a b).
Proof. unfold LessThanOrEqual, GreaterThan. by destruct (Cmp a b). Qed.
Lemma GreaterThanOrEqual_negb a b : GreaterThanOrEqual a b = negb (LessThan a b).
Proof. unfold GreaterThanOrEqual, LessThan. by destruct (Cmp a b). Qed.
Lemma LessThanOrEqual_true a b : LessThanOrEqual a b = true <-> dval a <= dval b.
Proof. by rewrite LessThanOrEqual_negb, negb_true_iff, GreaterThan_false. Qed.
Lemma LessThanOrEqual_false a b : LessThanOrEqual a b = false <-> dval b < dval a.
Proof. by rewrite LessThanOrEqual_negb, negb_false_iff, GreaterThan_true. Qed.
Lemma GreaterThanOrEqual_true a b : GreaterThanOrEqual a b = true <-> dval b <= dval a.
Proof. by rewrite GreaterThanOrEqual_negb, negb_true_iff, LessThan_false. Qed.
Lemma GreaterThanOrEqual_false a b : GreaterThanOrEqual a b = false <-> dval a < dval b.
Proof. by rewrite GreaterThanOrEqual_negb, negb_false_iff, LessThan_true. Qed.
Lemma Equal_true a b : Equal a b = true <-> dval a == dval b.
Proof.
  unfold Equal. rewrite Cmp_dval, Qeq_alt. destruct (dval a ?= dval b)%Q; naive_solver.
Qed.
Lemma Equal_false a b : Equal a b = false <-> ~ dval a == dval b.
Proof. by rewrite <- not_true_iff_false, Equal_true. Qed.
Lemma IsZero_true a : IsZero a = true <-> dval a == 0.
Proof. unfold IsZero. by rewrite Equal_true, dval_Zero. Qed.
Lemma IsZero_false a : IsZero a = false <-> ~ dval a == 0.
Proof. by rewrite <- not_true_iff_false, IsZero_true. Qed.
Lemma IsPositive_true a : IsPositive a = true <-> 0 < dval a.
Proof. unfold IsPositive. by rewrite GreaterThan_true, dval_Zero. Qed.
Lemma IsPositive_false a : IsPositive a = false <-> dval a <= 0.
Proof. unfold IsPositive. by rewrite GreaterThan_false, dval_Zero. Qed.
Lemma IsNegative_true a : IsNegative a = true <-> dval a < 0.
Proof. unfold IsNegative. by rewrite LessThan_true, dval_Zero. Qed.
Lemma IsNegative_false a : IsNegative a = false <-> 0 <= dval a.
Proof. unfold IsNegative. by rewrite LessThan_false, dval_Zero. Qed.

(** [Min] returns one of its arguments and is below both. *)
Lemma Min_cases a b :
  (Min a b = a /\ dval a <= dval b) \/ (Min a b = b /\ dval b < dval a).
Proof.
  unfold Min. destruct (LessThan b a) eqn:E.
  - right. by apply LessThan_true in E.
  - left. by apply LessThan_false in E.
Qed.

(** Rounding of [Div] stays within half a unit of the last place. *)
Lemma Div_bounds a b : (0 < dval b)%Q ->
  exists q, Div a b = Some q /\
    (dval q * dval b <= dval a + (1 # 2) * ulp DivisionPrecision * dval b)%Q /\
    (dval a - (1 # 2) * ulp DivisionPrecision * dval b <= dval q * dval b)%Q.
Proof.
  intros Hb. destruct (Div_dval a b) as (q & Hq & Hr); [lra|].
  exists q. split; [done|]. apply Qabs_Qle_condition in Hr as [H1 H2].
  assert (Hm : dval a / dval b * dval b == dval a) by (field; lra).
  set (u := (1 # 2) * ulp DivisionPrecision) in *.
  assert ((dval q - dval a / dval b) * dval b <= u * dval b) by (apply Qmult_le_compat_r; lra).
  assert (- u * dval b <= (dval q - dval a / dval b) * dval b) by (apply Qmult_le_compat_r; lra).
  split; lra.
Qed.
End Compare.

Create Rewrite HintDb dval.
#[export] Hint Rewrite @dval_Zero @dval_Add @dval_Sub @dval_Mul @dval_Neg @dval_NewFromInt : dval.

(** Turn every decimal comparison of the context into an inequality on values. *)
Ltac dec_prop :=
  repeat match goal with
  | H : context [negb (LessThan _ _)] |- _ => rewrite <- GreaterThanOrEqual_negb in H
  | H : context [negb (GreaterThan _ _)] |- _ => rewrite <- LessThanOrEqual_negb in H
  | H : LessThan _ _ = true |- _ => apply LessThan_true in H
  | H : LessThan _ _ = false |- _ => apply LessThan_false in H
  | H : GreaterThan _ _ = true |- _ => apply GreaterThan_true in H
  | H : GreaterThan _ _ = false |- _ => apply GreaterThan_false in H
  | H : LessThanOrEqual _ _ = true |- _ => apply LessThanOrEqual_true in H
  | H : LessThanOrEqual _ _ = false |- _ => apply LessThanOrEqual_false in H
  | H : GreaterThanOrEqual _ _ = true |- _ => apply GreaterThanOrEqual_true in H
  | H : GreaterThanOrEqual _ _ = false |- _ => apply GreaterThanOrEqual_false in H
  | H : Equal _ _ = true |- _ => apply Equal_true in H
  | H : Equal _ _ = false |- _ => apply Equal_false in H
  | H : IsZero _ = true |- _ => apply IsZero_true in H
  | H : IsZero _ = false |- _ => apply IsZero_false in H
  | H : IsPositive _ = true |- _ => apply IsPositive_true in H
  | H : IsPositive _ = false |- _ => apply IsPositive_false in H
  | H : IsNegative _ = true |- _ => apply IsNegative_true in H
  | H : IsNegative _ = false |- _ => apply IsNegative_false in H
  end.
Ltac dval_norm := repeat (progress autorewrite with dval in * ).
(** Linear arithmetic over decimal values. *)
Ltac dlra := dec_prop; dval_norm; lra.

(** ** A concrete implementation: mantissa and number of fractional digits *)

Module FixedPoint.
Record fixdec := Fix { coef : Z; scale : nat }.

Definition fval (a : fixdec) : Q := scaled (coef a) (scale a).
Definition p10 (k : nat) : Z := Z.pos (pow10 k).

Definition fadd (a b : fixdec) : fixdec :=
  Fix (coef a * p10 (scale b) + coef b * p10 (scale a)) (scale a + scale b).
Definition fneg (a : fixdec) : fixdec := Fix (- coef a) (scale a).
Definition fsub (a b : fixdec) : fixdec := fadd a (fneg b).
Definition fmul (a b : fixdec) : fixdec := Fix (coef a * coef b) (scale a + scale b).

(** Drop trailing zeros of the fraction. *)
Fixpoint strip (c : Z) (k : nat) : fixdec :=
  match k with
  | O => Fix c O
  | S k' => if c mod 10 =? 0 then strip (c / 10) k' else Fix c k
  end.
Definition norm (a : fixdec) : fixdec := strip (coef a) (scale a).

(** Numerator and denominator of [a / b * 10 ^ p]. *)
Definition qnum (a b : fixdec) (p : Z) : Z := coef a * p10 (scale b) * 10 ^ p.
Definition qden (a b : fixdec) : Z := coef b * p10 (scale a).

Definition fquorem (a b : fixdec) (p : Z) : option (fixdec * fixdec) :=
  if coef b =? 0 then None
  else let q := Fix (Z.quot (qnum a b p) (qden a b)) (Z.to_nat p) in
       Some (q, norm (fsub a (fmul b q))).
(** Nearest integer to [n / d], halves away from zero. *)
Definition round_quot (n d : Z) : Z :=
  Z.sgn n * Z.sgn d * ((2 * Z.abs n + Z.abs d) / (2 * Z.abs d)).
Definition fdiv (a b : fixdec) : option fixdec :=
  if coef b =? 0 then None
  else Some (norm (Fix (round_quot (qnum a b DivisionPrecision) (qden a b)) 16)).
Definition fmod (a b : fixdec) : option fixdec := snd <$> fquorem a b 0.

(** Decimal digits: exactly [k] of them, and as many as the number needs. *)
Definition digit_char (d : Z) : ascii := ascii_of_N (Z.to_N (48 + d)).
Fixpoint fixed_digits (k : nat) (n : Z) : string :=
  match k with
  | O => ""
  | S k' => String (digit_char (n / p10 k')) (fixed_digits k' (n mod p10 k'))
  end.
Fixpoint num_digits (fuel : nat) (n : Z) : nat :=
  match fuel with
  | O => 1%nat
  | S f => if n <? 10 then 1%nat else S (num_digits f (n / 10))
  end.
Definition int_digits (n : Z) : string := fixed_digits (num_digits (Z.to_nat (Z.log2 n)) n) n.
Definition fstring (a : fixdec) : string :=
  let '(Fix c k) := norm a in
  let unsigned := (int_digits (Z.abs c / p10 k) +:+
    if Nat.eqb k 0 then "" else String "." (fixed_digits k (Z.abs c mod p10 k)))%string in
  if c <? 0 then String "-" unsigned else unsigned.
Definition fparse (s : string) : option fixdec :=
  match s with
  | String "-" s' => '(c, k) ← literal_parts s'; Some (Fix (- c) k)
  | _ => '(c, k) ← literal_parts s; Some (Fix c k)
  end.

#[export] Instance fixedDecimal : DecimalLib := {|
  decimal := fixdec;
  Zero := Fix 0 0;
  Add a b := norm (fadd a b);
  Sub a b := norm (fsub a b);
  Mul a b := norm (fmul a b);
  Neg := fneg;
  Cmp a b := (fval a ?= fval b)%Q;
  Div := fdiv;
  QuoRem := fquorem;
  Mod := fmod;
  DString := fstring;
  NewFromInt n := Fix n 0;
  NewFromString := fparse
|}.

(** *** The implementation satisfies the laws *)

Lemma pow10_add i j : pow10 (i + j) = (pow10 i * pow10 j)%positive.
Proof. induction i as [|i IH]; [done|]. cbn [pow10 Nat.add]. rewrite IH. lia. Qed.
Lemma p10_add i j : p10 (i + j) = p10 i * p10 j.
Proof. unfold p10. by rewrite pow10_add. Qed.
Lemma p10_pos k : 0 < p10 k.
Proof. done. Qed.
Lemma p10_pow k : p10 k = 10 ^ Z.of_nat k.
Proof.
  unfold p10. induction k as [|k IH]; [done|]. rewrite Nat2Z.inj_succ, Z.pow_succ_r by lia.
  rewrite <- IH. cbn [pow10]. lia.
Qed.

(** Equality of values is equality of cross products. *)
Lemma fval_eq a b : (fval a == fval b)%Q <-> coef a * p10 (scale b) = coef b * p10 (scale a).
Proof. done. Qed.
Lemma fval_make a : (fval a == inject_Z (coef a) / inject_Z (p10 (scale a)))%Q.
Proof. unfold fval, scaled, p10. by rewrite Qmake_Qdiv. Qed.

Lemma strip_fval k c : (fval (strip c k) == scaled c k)%Q.
Proof.
  revert c. induction k as [|k IH]; intros c; [done|]. cbn [strip].
  destruct (c mod 10 =? 0) eqn:E; [|done]. rewrite IH. apply Z.eqb_eq in E.
  unfold scaled, Qeq. cbn [Qnum Qden pow10].
  pose proof (Z.div_mod c 10 ltac:(lia)). rewrite Pos2Z.inj_mul. nia.
Qed.
Lemma norm_fval a : (fval (norm a) == fval a)%Q.
Proof. apply strip_fval. Qed.

Lemma fadd_fval a b : (fval (fadd a b) == fval a + fval b)%Q.
Proof.
  unfold fval, scaled, Qeq, Qplus, fadd. cbn [Qnum Qden coef scale].
  by rewrite pow10_add.
Qed.
Lemma fneg_fval a : (fval (fneg a) == - fval a)%Q.
Proof. done. Qed.
Lemma fsub_fval a b : (fval (fsub a b) == fval a - fval b)%Q.
Proof. unfold fsub. by rewrite fadd_fval, fneg_fval. Qed.
Lemma fmul_fval a b : (fval (fmul a b) == fval a * fval b)%Q.
Proof.
  unfold fval, scaled, Qeq, Qmult, fmul. cbn [Qnum Qden coef scale]. by rewrite pow10_add.
Qed.

Lemma coef_zero b : (fval b == 0)%Q <-> coef b = 0.
Proof. unfold Qeq, fval, scaled. cbn. lia. Qed.

Lemma fval_ratio a b p : coef b <> 0 -> 0 <= p ->
  (fval a / fval b == inject_Z (qnum a b p) / inject_Z (qden a b) * ulp p)%Q.
Proof.
  intros Hb Hp. rewrite !fval_make. unfold ulp, qnum, qden.
  rewrite (Qmake_Qdiv 1), Z2Pos.id by (apply Z.pow_pos_nonneg; lia).
  rewrite !inject_Z_mult. field.
  assert (Hne : forall z, z <> 0 -> ~ (inject_Z z == 0)%Q).
  { intros z Hz H. apply Hz. unfold Qeq, inject_Z in H. cbn in H. lia. }
  repeat split; apply Hne; try done; apply Z.pow_nonzero; lia.
Qed.

Lemma fix_ulp k p : 0 <= p -> (fval (Fix k (Z.to_nat p)) == inject_Z k * ulp p)%Q.
Proof.
  intros Hp. rewrite fval_make. cbn [coef scale]. rewrite p10_pow, Z2Nat.id by done.
  unfold ulp. rewrite (Qmake_Qdiv 1), Z2Pos.id by (apply Z.pow_pos_nonneg; lia).
  field. intros H. assert (10 ^ p = 0) by (unfold Qeq, inject_Z in H; cbn in H; lia).
  assert (0 < 10 ^ p) by (apply Z.pow_pos_nonneg; lia). lia.
Qed.

Lemma inject_Z_nonzero z : z <> 0 -> ~ (inject_Z z == 0)%Q.
Proof. intros Hz H. apply Hz. unfold Qeq, inject_Z in H. cbn in H. lia. Qed.

(** The remainder, over the common denominator. *)
Lemma remainder_fval a b p k : 0 <= p ->
  (fval a - fval b * (inject_Z k * ulp p)
   == inject_Z (qnum a b p - k * qden a b)
      / (inject_Z (p10 (scale a)) * inject_Z (p10 (scale b))) * ulp p)%Q.
Proof.
  intros Hp. rewrite !fval_make. unfold ulp, qnum, qden.
  assert (HT : 0 < 10 ^ p) by (apply Z.pow_pos_nonneg; lia).
  rewrite (Qmake_Qdiv 1), Z2Pos.id by done.
  unfold Z.sub. rewrite inject_Z_plus, inject_Z_opp, !inject_Z_mult. field.
  repeat split; apply inject_Z_nonzero; try done; lia.
Qed.

Lemma qden_nonzero a b : coef b <> 0 -> qden a b <> 0.
Proof. unfold qden. pose proof (p10_pos (scale a)). nia. Qed.

Lemma qden_abs a b :
  (inject_Z (Z.abs (qden a b)) / (inject_Z (p10 (scale a)) * inject_Z (p10 (scale b)))
   == Qabs (fval b))%Q.
Proof.
  unfold qden. rewrite Z.abs_mul, (Z.abs_eq (p10 _)) by (pose proof (p10_pos (scale a)); lia).
  rewrite inject_Z_mult.
  assert (Hb : (Qabs (fval b) == inject_Z (Z.abs (coef b)) / inject_Z (p10 (scale b)))%Q).
  { unfold fval, scaled, Qabs. by rewrite Qmake_Qdiv. }
  rewrite Hb. field. split; by apply inject_Z_nonzero.
Qed.

Lemma fquorem_spec a b p : (~ fval b == 0)%Q -> 0 <= p ->
  exists q r k, fquorem a b p = Some (q, r) /\
    (fval q == inject_Z k * ulp p)%Q /\
    (fval a == fval b * fval q + fval r)%Q /\
    (0 <= fval a -> 0 <= fval r /\ fval r < Qabs (fval b) * ulp p)%Q.
Proof.
  rewrite coef_zero. intros Hb Hp. unfold fquorem. rewrite (proj2 (Z.eqb_neq _ _) Hb).
  set (n := qnum a b p). set (d := qden a b). set (k := Z.quot n d).
  eexists _, _, k. split; [done|]. rewrite fix_ulp by done. split; [done|].
  rewrite norm_fval, fsub_fval, fmul_fval, fix_ulp by done. split; [lra|]. intros Ha.
  rewrite remainder_fval by done. fold n d.
  assert (Hd : d <> 0) by by apply qden_nonzero.
  assert (Hn : 0 <= n).
  { unfold n, qnum. unfold Qle, fval, scaled in Ha. cbn in Ha.
    pose proof (p10_pos (scale b)). assert (0 < 10 ^ p) by (apply Z.pow_pos_nonneg; lia). nia. }
  pose proof (Z.quot_rem' n d) as Hqr. fold k in Hqr.
  assert (Hrem : 0 <= n - k * d < Z.abs d).
  { pose proof (Z.rem_bound_pos (n) (Z.abs d) Hn ltac:(lia)) as H.
    rewrite Z.rem_abs_r in H by done. lia. }
  rewrite <- (qden_abs a b). fold d. pose proof (ulp_pos p) as Hu.
  assert (HP : (0 < / (inject_Z (p10 (scale a)) * inject_Z (p10 (scale b))))%Q).
  { apply Qinv_lt_0_compat. rewrite <- inject_Z_mult.
    replace 0%Q with (inject_Z 0) by done. rewrite <- Zlt_Qlt. done. }
  assert (H1 : (0 <= inject_Z (n - k * d))%Q) by (replace 0%Q with (inject_Z 0) by done; rewrite <- Zle_Qle; lia).
  assert (H2 : (inject_Z (n - k * d) < inject_Z (Z.abs d))%Q) by (rewrite <- Zlt_Qlt; lia).
  unfold Qdiv. split.
  - repeat apply Qmult_le_0_compat; lra.
  - apply Qmult_lt_r; [done|]. by apply Qmult_lt_r.
Qed.

Lemma round_quot_spec n d : d <> 0 -> 2 * Z.abs (round_quot n d * d - n) <= Z.abs d.
Proof.
  intros Hd. unfold round_quot.
  pose proof (Z.div_mod (2 * Z.abs n + Z.abs d) (2 * Z.abs d) ltac:(lia)) as H.
  pose proof (Z.mod_pos_bound (2 * Z.abs n + Z.abs d) (2 * Z.abs d) ltac:(lia)) as H'.
  set (k := (2 * Z.abs n + Z.abs d) / (2 * Z.abs d)) in *.
  assert (Hsd : Z.sgn d * d = Z.abs d) by (symmetry; rewrite Z.mul_comm; apply Z.sgn_abs || lia).
  replace (Z.sgn n * Z.sgn d * k * d - n) with (Z.sgn n * (k * (Z.sgn d * d) - Z.abs n)).
  2: { rewrite Z.mul_sub_distr_l, <- (Z.abs_sgn n) at 1. rewrite (Z.mul_comm (Z.sgn n) (Z.abs n)). lia. }
  rewrite Hsd, Z.abs_mul. destruct (Z.eq_dec n 0) as [->|Hn]; [cbn; lia|].
  replace (Z.abs (Z.sgn n)) with 1 by (destruct n; done). lia.
Qed.

Lemma fdiv_spec a b : (~ fval b == 0)%Q ->
  exists q, fdiv a b = Some q /\
    (Qabs (fval q - fval a / fval b) <= (1 # 2) * ulp DivisionPrecision)%Q.
Proof.
  rewrite coef_zero. intros Hb. unfold fdiv. rewrite (proj2 (Z.eqb_neq _ _) Hb).
  eexists. split; [done|]. rewrite norm_fval.
  set (n := qnum a b DivisionPrecision). set (d := qden a b).
  assert (Hd : d <> 0) by by apply qden_nonzero.
  change 16%nat with (Z.to_nat DivisionPrecision). rewrite fix_ulp by done.
  pose proof (round_quot_spec n d Hd) as Hr. set (k := round_quot n d) in *.
  rewrite (fval_ratio _ _ DivisionPrecision) by done. fold n d.
  set (u := ulp DivisionPrecision).
  assert (Hu : (0 < u)%Q) by apply ulp_pos.
  assert (Hdiff : (inject_Z k * u - inject_Z n / inject_Z d * u
                   == (inject_Z (k * d - n) / inject_Z d) * u)%Q).
  { unfold Z.sub. rewrite inject_Z_plus, inject_Z_opp, inject_Z_mult. field.
    by apply inject_Z_nonzero. }
  rewrite Hdiff.
  rewrite Qabs_Qmult, (Qabs_pos u) by lra. apply Qmult_le_compat_r; [|lra].
  unfold Qdiv. rewrite Qabs_Qmult, Qabs_Qinv. apply Qle_shift_div_r.
  - unfold Qabs, inject_Z, Qlt. cbn. lia.
  - unfold Qabs, inject_Z, Qle. cbn. lia.
Qed.

Lemma Qabs_lt_1_mod a b : (~ fval b == 0)%Q ->
  exists r k, fmod a b = Some r /\
    (fval a == fval b * inject_Z k + fval r)%Q /\ (Qabs (fval r) < Qabs (fval b))%Q.
Proof.
  rewrite coef_zero. intros Hb. unfold fmod, fquorem. rewrite (proj2 (Z.eqb_neq _ _) Hb).
  cbn [fmap option_fmap option_map snd].
  set (n := qnum a b 0). set (d := qden a b). set (k := Z.quot n d).
  eexists _, k. split; [done|].
  assert (Hk : (fval (Fix k 0) == inject_Z k)%Q) by (unfold fval, scaled, Qeq, inject_Z; cbn; lia).
  change (Z.to_nat 0) with O. rewrite norm_fval, fsub_fval, fmul_fval, Hk. split; [lra|].
  assert (Hd : d <> 0) by by apply qden_nonzero.
  pose proof (Z.quot_rem' n d) as Hqr. fold k in Hqr.
  assert (Hrem : Z.abs (n - k * d) < Z.abs d).
  { pose proof (Z.rem_bound_abs n d Hd). lia. }
  assert (Hk1 : (inject_Z k == inject_Z k * ulp 0)%Q) by (change (ulp 0) with 1%Q; lra).
  rewrite Hk1, remainder_fval by done. fold n d. rewrite <- (qden_abs a b). fold d.
  rewrite Qabs_Qmult. change (Qabs (ulp 0)) with 1%Q. rewrite Qmult_1_r.
  unfold Qdiv. rewrite Qabs_Qmult.
  assert (HP : (0 < / (inject_Z (p10 (scale a)) * inject_Z (p10 (scale b))))%Q).
  { apply Qinv_lt_0_compat. rewrite <- inject_Z_mult.
    replace 0%Q with (inject_Z 0) by done. rewrite <- Zlt_Qlt. done. }
  rewrite (Qabs_pos (/ _)) by lra. apply Qmult_lt_r; [done|].
  unfold Qabs, inject_Z, Qlt. cbn. lia.
Qed.

Lemma fparse_literal s q : literal_value s = Some q ->
  exists d, fparse s = Some d /\ (fval d == q)%Q.
Proof.
  unfold literal_value, fparse. intros H.
  destruct (literal_parts s) as [[c k]|] eqn:E; simplify_eq/=.
  destruct s as [|ch s]; [done|].
  assert (Hd : Ascii.eqb ch "-" = false).
  { destruct (Ascii.eqb_spec ch "-") as [->|]; [|done]. done. }
  exists (Fix c k). split; [|done].
  destruct ch as [[] [] [] [] [] [] [] []]; cbn in Hd; try done; by rewrite E.
Qed.

(** *** Printing is canonical and parses back *)

Lemma string_app_nil (s : string) : (s +:+ "")%string = s.
Proof. induction s as [|c s IH]; [done|]. change (String c (s +:+ "") = String c s)%string. by rewrite IH. Qed.

Lemma digit_char_value d : 0 <= d < 10 -> digit_value (digit_char d) = Some d.
Proof.
  intros Hd. unfold digit_value, digit_char. rewrite N_ascii_embedding by lia.
  rewrite Z2N.id by lia. replace (48 + d - 48) with d by lia.
  by rewrite (proj2 (Z.leb_le 48 (48 + d))), (proj2 (Z.leb_le (48 + d) 57)) by lia.
Qed.

Lemma digit_char_not_dot d : 0 <= d < 10 -> Ascii.eqb (digit_char d) "." = false.
Proof.
  intros Hd. destruct (Ascii.eqb_spec (digit_char d) "."); [|done].
  pose proof (digit_char_value d Hd) as H. by rewrite e in H.
Qed.

Lemma literal_digits_fixed k : forall n acc frac s, 0 <= n < p10 k ->
  literal_digits (fixed_digits k n +:+ s) acc frac
  = literal_digits s (acc * p10 k + n) ((fun j => k + j)%nat <$> frac).
Proof.
  induction k as [|k IH]; intros n acc frac s Hn.
  - unfold p10 in *. cbn in *. replace (acc * 1 + n) with acc by lia.
    f_equal. by destruct frac.
  - pose proof (p10_pos k) as Hp.
    assert (E : p10 (S k) = 10 * p10 k) by (unfold p10; cbn [pow10]; lia).
    assert (Hd : 0 <= n / p10 k < 10).
    { split; [apply Z.div_pos; lia | apply Z.div_lt_upper_bound; lia]. }
    change (fixed_digits (S k) n +:+ s)
      with (String (digit_char (n / p10 k)) (fixed_digits k (n mod p10 k) +:+ s)).
    cbn [literal_digits]. rewrite digit_char_not_dot, digit_char_value by done.
    rewrite IH by (apply Z.mod_pos_bound; lia). f_equal.
    + pose proof (Z.div_mod n (p10 k) ltac:(lia)). rewrite E. lia.
    + destruct frac as [j|]; cbn; [f_equal; lia | done].
Qed.

Lemma num_digits_bound fuel : forall n, 0 <= n < 2 ^ (Z.of_nat fuel + 1) -> n < p10 (num_digits fuel n).
Proof.
  induction fuel as [|f IH]; intros n Hn; cbn [num_digits].
  - unfold p10. cbn. cbn in Hn. lia.
  - destruct (n <? 10) eqn:E; bool_to_prop; [unfold p10; cbn; lia|].
    assert (Hp : p10 (S (num_digits f (n / 10))) = 10 * p10 (num_digits f (n / 10))) by (unfold p10; cbn [pow10]; lia).
    assert (Hlt : n / 10 < p10 (num_digits f (n / 10))).
    { apply IH. split; [apply Z.div_pos; lia|]. apply Z.div_lt_upper_bound; [lia|].
      replace (Z.of_nat (S f) + 1) with (Z.succ (Z.of_nat f + 1)) in Hn by lia.
      rewrite Z.pow_succ_r in Hn by lia. lia. }
    rewrite Hp. pose proof (Z.div_mod n 10 ltac:(lia)). pose proof (Z.mod_pos_bound n 10 ltac:(lia)). lia.
Qed.

Lemma int_digits_bound n : 0 <= n -> n < p10 (num_digits (Z.to_nat (Z.log2 n)) n).
Proof.
  intros Hn. apply num_digits_bound. split; [done|].
  pose proof (Z.log2_nonneg n). rewrite Z2Nat.id by done.
  destruct (Z.eq_dec n 0) as [->|]; [done|].
  pose proof (Z.log2_spec n ltac:(lia)). replace (Z.log2 n + 1) with (Z.succ (Z.log2 n)) by lia. lia.
Qed.

Lemma fparse_unsigned c k : 0 <= c ->
  literal_digits (int_digits (c / p10 k) +:+
    if Nat.eqb k 0 then "" else String "." (fixed_digits k (c mod p10 k))) 0 None = Some (c, k).
Proof.
  intros Hc. pose proof (p10_pos k) as Hp.
  assert (Hi : 0 <= c / p10 k) by (apply Z.div_pos; lia).
  unfold int_digits. rewrite literal_digits_fixed by (split; [done | by apply int_digits_bound]).
  rewrite Z.mul_0_l, Z.add_0_l. change ((_ <$> None) : option nat) with (@None nat).
  destruct k as [|k]; cbn [Nat.eqb].
  - cbn. by rewrite Z.div_1_r.
  - change (literal_digits (fixed_digits (S k) (c mod p10 (S k))) (c / p10 (S k)) (Some O) = Some (c, S k)).
    rewrite <- (string_app_nil (fixed_digits _ _)).
    rewrite literal_digits_fixed by (apply Z.mod_pos_bound; lia).
    cbn. f_equal. f_equal; [|lia]. pose proof (Z.div_mod c (p10 (S k)) ltac:(lia)). lia.
Qed.

Lemma num_digits_S fuel n : num_digits fuel n = S (pred (num_digits fuel n)).
Proof. destruct fuel; cbn; [done | by destruct (n <? 10)]. Qed.

Lemma int_digits_head n : 0 <= n -> exists d s, int_digits n = String (digit_char d) s /\ 0 <= d < 10.
Proof.
  intros Hn. pose proof (int_digits_bound n Hn) as Hb. unfold int_digits.
  destruct (num_digits _ n) as [|j] eqn:E; [by rewrite num_digits_S in E|].
  eexists _, _. split; [reflexivity|]. pose proof (p10_pos j).
  assert (p10 (S j) = 10 * p10 j) by (unfold p10; cbn [pow10]; lia).
  split; [apply Z.div_pos; lia | apply Z.div_lt_upper_bound; lia].
Qed.

Lemma literal_parts_unsigned c k : 0 <= c ->
  literal_parts (int_digits (c / p10 k) +:+
    if Nat.eqb k 0 then "" else String "." (fixed_digits k (c mod p10 k))) = Some (c, k).
Proof.
  intros Hc. pose proof (p10_pos k) as Hp. pose proof (fparse_unsigned c k Hc) as H.
  destruct (int_digits_head (c / p10 k)) as (d & s & E & Hd); [apply Z.div_pos; lia|].
  rewrite E in H |- *. cbn [String.append literal_parts].
  change (String (digit_char d) s +:+ ?x)%string with (String (digit_char d) (s +:+ x))%string in *.
  cbn [literal_parts]. by rewrite digit_char_value.
Qed.

Lemma fparse_plain (s : string) c k : literal_parts s = Some (c, k) -> fparse s = Some (Fix c k).
Proof.
  intros H. unfold fparse. destruct s as [|ch s]; [done|].
  destruct (Ascii.eqb_spec ch "-") as [->|Hne]; [done|].
  destruct ch as [[] [] [] [] [] [] [] []]; rewrite ?H; try done; by destruct Hne.
Qed.

Lemma fparse_fstring a : fparse (fstring a) = Some (norm a).
Proof.
  unfold fstring. destruct (norm a) as [c k]. destruct (c <? 0) eqn:E; bool_to_prop.
  - cbn [fparse]. rewrite literal_parts_unsigned by lia. cbn. f_equal. f_equal. lia.
  - replace (Z.abs c) with c by lia. apply fparse_plain. by apply literal_parts_unsigned.
Qed.

Lemma strip_canonical k : forall c, scale (strip c k) = O \/ coef (strip c k) mod 10 <> 0.
Proof.
  induction k as [|k IH]; intros c; cbn [strip]; [by left|].
  destruct (c mod 10 =? 0) eqn:E; [apply IH|]. bool_to_prop. by right.
Qed.

Lemma canonical_le a b : (fval a == fval b)%Q -> (scale a <= scale b)%nat ->
  scale b = O \/ coef b mod 10 <> 0 -> a = b.
Proof.
  rewrite fval_eq. intros H Hs Hc. destruct a as [c k], b as [c' k']; cbn [coef scale] in *.
  replace k' with (k' - k + k)%nat in H by lia. rewrite p10_add in H.
  pose proof (p10_pos k). assert (Hd : c * p10 (k' - k) = c') by nia.
  destruct (k' - k)%nat as [|j] eqn:E.
  - replace k' with k by lia. unfold p10 in Hd. cbn in Hd. f_equal. lia.
  - exfalso. destruct Hc as [Hc|Hc]; [lia|]. apply Hc. rewrite <- Hd.
    assert (E' : p10 (S j) = p10 j * 10) by (unfold p10; cbn [pow10]; lia).
    rewrite E', Z.mul_assoc. by rewrite Z.mod_mul.
Qed.

Lemma norm_canonical a b : (fval a == fval b)%Q -> norm a = norm b.
Proof.
  intros H. assert (Hn : (fval (norm a) == fval (norm b))%Q) by (by rewrite !norm_fval).
  destruct (Nat.le_ge_cases (scale (norm a)) (scale (norm b))).
  - apply canonical_le; [done | done | apply strip_canonical].
  - symmetry. apply canonical_le; [by symmetry | done | apply strip_canonical].
Qed.

Lemma fstring_iff a b : fstring a = fstring b <-> (fval a == fval b)%Q.
Proof.
  split; intros H.
  - rewrite <- (norm_fval a), <- (norm_fval b).
    assert (Hab : Some (norm a) = Some (norm b)) by (rewrite <- !fparse_fstring; by rewrite H).
    injection Hab as ->. reflexivity.
  - unfold fstring. by rewrite (norm_canonical a b H).
Qed.

#[export] Instance fixedDecimalLaws : DecimalLaws fixedDecimal.
Proof.
  refine {| dval := (fval : @decimal fixedDecimal -> Q) |}.
  - done.
  - intros a b. etransitivity; [apply norm_fval | apply fadd_fval].
  - intros a b. etransitivity; [apply norm_fval | apply fsub_fval].
  - intros a b. etransitivity; [apply norm_fval | apply fmul_fval].
  - apply fneg_fval.
  - intros n. unfold fval, scaled, Qeq, inject_Z. cbn. lia.
  - done.
  - apply fquorem_spec.
  - intros a b p Hb%coef_zero. cbn. unfold fquorem. by rewrite Hb.
  - apply fdiv_spec.
  - intros a b Hb%coef_zero. cbn. unfold fdiv. by rewrite Hb.
  - apply Qabs_lt_1_mod.
  - intros a b Hb%coef_zero. cbn. unfold fmod, fquorem. by rewrite Hb.
  - apply fparse_literal.
  - apply fstring_iff.
Defined.
End FixedPoint.
