(* ===== verification/Containers.v ===== *)
(** * [google/btree] and [gammazero/deque], as interfaces

    Both packages are dependencies of the order book.  [ContainerLib] lists the
    operations internal/matching calls; [ContainerLaws] states their documented
    behaviour through the list of a deque's elements and the ascending list of a
    tree's items.  [ListContainers] implements both on plain lists. *)
From S2P Require Import Prelude.
From Stdlib Require Import Lia.

(** ** Ordered insertion, the reference for [ReplaceOrInsert] *)

Section Ordered.
Context {A : Type} (less : A -> A -> bool).

(** Two items are equal for the tree when neither is less than the other. *)
Definition same_key (x y : A) : bool := negb (less x y) && negb (less y x).

Fixpoint ordered_insert (x : A) (l : list A) : list A :=
  match l with
  | [] => [x]
  | y :: l' => if less x y then x :: y :: l'
               else if less y x then y :: ordered_insert x l'
               else x :: l'
  end.

Definition ordered_delete (k : A) (l : list A) : list A :=
  List.filter (fun y => negb (same_key y k)) l.

(** A strict weak order, what btree requires of its [less]. *)
Record weak_order : Prop := {
  wo_irrefl x : less x x = false;
  wo_trans x y z : less x y = true -> less y z = true -> less x z = true;
  wo_cotrans x y z : less x z = true -> less x y = true \/ less y z = true
}.

Definition ascending (l : list A) : Prop := StronglySorted (fun x y => less x y = true) l.

Context (WO : weak_order).

Lemma same_key_refl x : same_key x x = true.
Proof. unfold same_key. by rewrite wo_irrefl. Qed.
Lemma same_key_sym x y : same_key x y = same_key y x.
Proof. unfold same_key. apply andb_comm. Qed.
Lemma same_key_less_l x y z : same_key x y = true -> less x z = less y z.
Proof.
  unfold same_key. intros H. bool_to_prop. apply eq_true_iff_eq. split; intros Hl.
  - destruct (wo_cotrans WO x y z Hl); congruence.
  - destruct (wo_cotrans WO y x z Hl); congruence.
Qed.
Lemma same_key_less_r x y z : same_key x y = true -> less z x = less z y.
Proof.
  unfold same_key. intros H. bool_to_prop. apply eq_true_iff_eq. split; intros Hl.
  - destruct (wo_cotrans WO z y x Hl); congruence.
  - destruct (wo_cotrans WO z x y Hl); congruence.
Qed.
Lemma less_not_same x y : less x y = true -> same_key x y = false.
Proof. unfold same_key. by intros ->. Qed.
Lemma less_asym x y : less x y = true -> less y x = false.
Proof.
  intros H. destruct (less y x) eqn:E; [|done].
  pose proof (wo_trans WO _ _ _ H E). by rewrite (wo_irrefl WO) in *.
Qed.

Lemma ordered_insert_elem x l y : y ∈ ordered_insert x l -> y = x \/ y ∈ l.
Proof.
  induction l as [|z l IH]; cbn; [set_solver|]. repeat case_match; set_solver.
Qed.
Lemma ordered_insert_in x l : x ∈ ordered_insert x l.
Proof. induction l as [|z l IH]; cbn; [set_solver|]. repeat case_match; set_solver. Qed.

Lemma ordered_insert_ascending x l : ascending l -> ascending (ordered_insert x l).
Proof.
  unfold ascending. induction 1 as [|y l Hl IH Hy]; cbn; [repeat constructor|].
  destruct (less x y) eqn:E1; [|destruct (less y x) eqn:E2].
  - constructor; [by constructor|]. constructor; [done|].
    eapply Forall_impl; [exact Hy|]. intros z Hz. by eapply (wo_trans WO).
  - constructor; [done|]. apply Forall_forall. intros z [->|Hz]%ordered_insert_elem; [done|].
    by eapply Forall_forall in Hy.
  - constructor; [done|]. eapply Forall_impl; [exact Hy|]. intros z Hz.
    rewrite (same_key_less_l x y z); [done|]. unfold same_key. by rewrite E1, E2.
Qed.
Lemma ordered_delete_ascending k l : ascending l -> ascending (ordered_delete k l).
Proof.
  unfold ascending, ordered_delete. induction 1 as [|y l Hl IH Hy]; cbn; [constructor|].
  case_match; [|done]. constructor; [done|]. apply Forall_forall. intros z Hz.
  apply list_elem_of_In, filter_In in Hz as [Hz _]. eapply Forall_forall in Hy; [done|].
  by apply list_elem_of_In.
Qed.

(** *** Replacing or deleting the item found by a key *)

Lemma ascending_app_inv l1 x l2 : ascending (l1 ++ x :: l2) ->
  Forall (fun y => less y x = true) l1 /\ Forall (fun y => less x y = true) l2.
Proof.
  unfold ascending. induction l1 as [|y l1 IH]; cbn; intros H.
  - apply StronglySorted_inv in H as [_ H]. split; [constructor | done].
  - apply StronglySorted_inv in H as [H Hy]. destruct (IH H) as [H1 H2]. split; [|done].
    constructor; [|done]. apply Forall_app in Hy as [_ Hy]. by inversion Hy.
Qed.

Lemma ordered_insert_replace l1 x l2 y : ascending (l1 ++ x :: l2) -> same_key y x = true ->
  ordered_insert y (l1 ++ x :: l2) = l1 ++ y :: l2.
Proof.
  intros H HK. destruct (ascending_app_inv _ _ _ H) as [H1 _]. clear H.
  induction H1 as [|z l1 Hz _ IH]; cbn.
  - unfold same_key in HK. bool_to_prop. by rewrite H, H0.
  - assert (E : less z y = true) by by rewrite (same_key_less_r _ _ _ HK).
    by rewrite (less_asym _ _ E), E, IH.
Qed.

Lemma ordered_delete_at l1 x l2 k : ascending (l1 ++ x :: l2) -> same_key k x = true ->
  ordered_delete k (l1 ++ x :: l2) = l1 ++ l2.
Proof.
  intros H HK. destruct (ascending_app_inv _ _ _ H) as [H1 H2]. clear H.
  unfold ordered_delete. rewrite List.filter_app. cbn. rewrite (same_key_sym x), HK. cbn.
  assert (Hid : forall l, Forall (fun y => same_key y x = false) l ->
      List.filter (fun y => negb (same_key y k)) l = l).
  { induction 1 as [|z l Hz _ IH]; cbn; [done|].
    assert (E : same_key z k = false).
    { unfold same_key in *. rewrite (same_key_less_r _ _ _ HK), (same_key_less_l _ _ _ HK). done. }
    by rewrite E, IH. }
  rewrite !Hid; [done| |].
  - eapply Forall_impl; [exact H2|]. intros z Hz. rewrite same_key_sym. by apply less_not_same.
  - eapply Forall_impl; [exact H1|]. intros z Hz. by apply less_not_same.
Qed.

(** A key absent from an ascending list splits it. *)
Lemma ordered_insert_split x l : ascending l -> (forall y, y ∈ l -> same_key y x = false) ->
  exists l1 l2, l = l1 ++ l2 /\ ordered_insert x l = l1 ++ x :: l2.
Proof.
  intros H. induction H as [|y l Hl IH Hy]; intros Hno; cbn; [by exists [], []|].
  destruct (less x y) eqn:E1; [by exists [], (y :: l)|].
  destruct (less y x) eqn:E2.
  - destruct IH as (l1 & l2 & -> & ->); [set_solver|]. by exists (y :: l1), l2.
  - specialize (Hno y ltac:(set_solver)). unfold same_key in Hno. by rewrite E1, E2 in Hno.
Qed.
End Ordered.

(** ** The operations *)

Class ContainerLib := {
  (* deque.Deque[T]; At and Remove panic out of range: None *)
  Deque : Type -> Type;
  dqEmpty {A} : Deque A;
  dqLen {A} : Deque A -> Z;
  dqAt {A} : Deque A -> Z -> option A;
  dqSet {A} : Deque A -> Z -> A -> Deque A;
  dqPushBack {A} : Deque A -> A -> Deque A;
  dqRemove {A} : Deque A -> Z -> Deque A;
  (* btree.BTreeG[T] *)
  BTree : Type -> Type;
  btNewG {A} : Z -> (A -> A -> bool) -> BTree A;
  btGet {A} : BTree A -> A -> option A;
  btReplaceOrInsert {A} : BTree A -> A -> BTree A;
  btDelete {A} : BTree A -> A -> BTree A;
  (* the items in the order the iterator is called on them *)
  btAscend {A} : BTree A -> list A;
  btDescend {A} : BTree A -> list A
}.

Class ContainerLaws (CL : ContainerLib) := {
  dqList {A} : Deque A -> list A;
  dqList_empty {A} : dqList (@dqEmpty _ A) = [];
  dqLen_list {A} (d : Deque A) : dqLen d = Z.of_nat (length (dqList d));
  dqAt_list {A} (d : Deque A) i : 0 <= i -> dqAt d i = dqList d !! Z.to_nat i;
  dqSet_list {A} (d : Deque A) i x : 0 <= i < dqLen d ->
    dqList (dqSet d i x) = <[Z.to_nat i := x]> (dqList d);
  dqPushBack_list {A} (d : Deque A) x : dqList (dqPushBack d x) = dqList d ++ [x];
  dqRemove_list {A} (d : Deque A) i : 0 <= i < dqLen d ->
    dqList (dqRemove d i) = remove_nth (Z.to_nat i) (dqList d);
  (* a tree created with [less] *)
  btFor {A} : (A -> A -> bool) -> BTree A -> Prop;
  btNewG_for {A} deg (less : A -> A -> bool) : weak_order less ->
    btFor less (btNewG deg less) /\ btAscend (btNewG deg less) = [];
  bt_ascending {A} (less : A -> A -> bool) t : btFor less t -> ascending less (btAscend t);
  btGet_find {A} (less : A -> A -> bool) t k : btFor less t ->
    btGet t k = List.find (fun y => same_key less y k) (btAscend t);
  btReplaceOrInsert_list {A} (less : A -> A -> bool) t x : btFor less t ->
    btFor less (btReplaceOrInsert t x) /\
    btAscend (btReplaceOrInsert t x) = ordered_insert less x (btAscend t);
  btDelete_list {A} (less : A -> A -> bool) t k : btFor less t ->
    btFor less (btDelete t k) /\ btAscend (btDelete t k) = ordered_delete less k (btAscend t);
  btDescend_rev {A} (t : BTree A) : btDescend t = rev (btAscend t)
}.

(** ** An implementation on lists *)

Module ListContainers.
(** A tree remembers the order it was created with. *)
Record ltree (A : Type) := LTree { lless : A -> A -> bool; litems : list A }.
Arguments LTree {A}. Arguments lless {A}. Arguments litems {A}.

#[export] Instance listContainers : ContainerLib := {|
  Deque := list;
  dqEmpty A := [];
  dqLen A d := Z.of_nat (length d);
  dqAt A d i := if i <? 0 then None else d !! Z.to_nat i;
  dqSet A d i x := if i <? 0 then d else <[Z.to_nat i := x]> d;
  dqPushBack A d x := d ++ [x];
  dqRemove A d i := if i <? 0 then d else remove_nth (Z.to_nat i) d;
  BTree := ltree;
  btNewG A deg less := LTree less [];
  btGet A t k := List.find (fun y => same_key (lless t) y k) (litems t);
  btReplaceOrInsert A t x := LTree (lless t) (ordered_insert (lless t) x (litems t));
  btDelete A t k := LTree (lless t) (ordered_delete (lless t) k (litems t));
  btAscend A t := litems t;
  btDescend A t := rev (litems t)
|}.

#[export] Instance listContainersLaws : ContainerLaws listContainers.
Proof.
  refine {|
    dqList A := (fun d => d : list A);
    btFor A less t := lless t = less /\ weak_order less /\ ascending less (litems t)
  |}; cbn; try done.
  - intros A d i Hi. by rewrite (proj2 (Z.ltb_ge _ _)).
  - intros A d i x Hi. by rewrite (proj2 (Z.ltb_ge _ _)) by lia.
  - intros A d i Hi. by rewrite (proj2 (Z.ltb_ge _ _)) by lia.
  - intros A deg less WO. split; [|done]. split; [done|]. split; [done | constructor].
  - intros A less t (_ & _ & H). done.
  - intros A less t k (-> & _ & H). done.
  - intros A less t x (-> & WO & H). split; [|done]. split; [done|]. split; [done | by apply ordered_insert_ascending].
  - intros A less t k (-> & WO & H). split; [|done]. split; [done|]. split; [done | by apply ordered_delete_ascending].
Defined.
End ListContainers.
