(* ===== verification/Model.v ===== *)
(** * Data types of [internal/model] and [matching.Order]

    Go's string-typed enumerations become inductive types; since a Go string
    type admits any string, each has an [...Other] constructor for the values
    the source's [default] branches handle.  [uint] identifiers are [N], [int]
    values [Z], instants are [Z] nanoseconds with 0 for the zero [time.Time]. *)
From S2P Require Import Prelude Decimal.

Inductive OrderSide := OrderSideBuy | OrderSideSell | OrderSideOther (s : string).
#[export] Instance OrderSide_eq_dec : EqDecision OrderSide.
Proof. solve_decision. Defined.

Inductive OrderType := OrderTypeLimit | OrderTypeMarket | OrderTypeOther (s : string).
#[export] Instance OrderType_eq_dec : EqDecision OrderType.
Proof. solve_decision. Defined.

Inductive OrderStatus :=
| OrderStatusPending | OrderStatusPartial | OrderStatusFilled
| OrderStatusCancelled | OrderStatusRejected | OrderStatusOther (s : string).
#[export] Instance OrderStatus_eq_dec : EqDecision OrderStatus.
Proof. solve_decision. Defined.

(** [string(side)] and [string(orderType)]. *)
Definition OrderSide_string (s : OrderSide) : string :=
  match s with
  | OrderSideBuy => "BUY" | OrderSideSell => "SELL" | OrderSideOther x => x
  end.
Definition OrderType_string (t : OrderType) : string :=
  match t with
  | OrderTypeLimit => "LIMIT" | OrderTypeMarket => "MARKET" | OrderTypeOther x => x
  end.

Section Records.
Context {DL : DecimalLib}.

(** [matching.Order] *)
Record Order := mkOrder {
  o_ID : N;
  o_UserID : N;
  o_Amount : decimal;
  o_QuoteAmount : decimal;
  o_CoinSymbol : string;
  o_Side : OrderSide;
  o_FilledAmount : decimal;
  o_FilledQuoteAmount : decimal;
  o_CreatedAt : Z;
  o_EnqueuedAt : Z;
  o_OrderType : OrderType;
  o_Price : decimal
}.

Definition with_fill (o : Order) (amount filled : decimal) : Order :=
  mkOrder (o_ID o) (o_UserID o) amount (o_QuoteAmount o) (o_CoinSymbol o) (o_Side o)
    filled (o_FilledQuoteAmount o) (o_CreatedAt o) (o_EnqueuedAt o) (o_OrderType o) (o_Price o).

Definition with_quote (o : Order) (quote filledQuote : decimal) : Order :=
  mkOrder (o_ID o) (o_UserID o) (o_Amount o) quote (o_CoinSymbol o) (o_Side o)
    (o_FilledAmount o) filledQuote (o_CreatedAt o) (o_EnqueuedAt o) (o_OrderType o) (o_Price o).

(** [model.Trade] *)
Record Trade := mkTrade {
  t_ID : N;
  t_IdempotencyKey : string;
  t_EngineSequence : Z;
  t_EngineEventID : string;
  t_CoinSymbol : string;
  t_Price : decimal;
  t_Quantity : decimal;
  t_FeeRate : decimal;
  t_BuyerFee : decimal;
  t_BuyerFeeAsset : string;
  t_SellerFee : decimal;
  t_SellerFeeAsset : string;
  t_TradedAt : Z;
  t_BuyOrderID : N;
  t_SellOrderID : N
}.

(** [model.Order], the row of the orders table *)
Record OrderRow := mkOrderRow {
  r_ID : N;
  r_UserID : N;
  r_Amount : decimal;
  r_QuoteAmount : decimal;
  r_CoinSymbol : string;
  r_Side : OrderSide;
  r_Status : OrderStatus;
  r_FilledAmount : decimal;
  r_FilledQuoteAmount : decimal;
  r_CreatedAt : Z;
  r_OrderType : OrderType;
  r_Price : decimal
}.
End Records.
