(* ===== verification/OrderBook.v ===== *)
(** * The order book (internal/matching/orderbook.go and the searches of engine.go)

    A book is two price trees whose levels hold a deque of orders.  Seen from
    the matching loops it is two priority lists: [asks] in ascending price,
    [bids] in descending price, first come first served within a price.  The
    theorems of this file relate every tree operation to these lists. *)
From S2P Require Import Prelude Decimal Containers Model.
From Stdlib Require Import Lia.

Section Book.
Context {DL : DecimalLib} {CL : ContainerLib}.

(** ** Data *)

(** The tree stores pointers to levels; changing a level's deque through such
    a pointer is [btReplaceOrInsert] of the updated level, whose price does
    not change.  Likewise the deque stores pointers to orders and changing an
    order through one is [dqSet]. *)
Record PriceLevel := mkLevel {
  pl_Price : decimal;
  pl_Orders : Deque Order
}.

Record OrderBook := mkBook {
  BuyOrders : BTree PriceLevel;
  SellOrders : BTree PriceLevel
}.

Definition level_less (a b : PriceLevel) : bool := LessThan (pl_Price a) (pl_Price b).

Definition NewOrderBook : OrderBook :=
  {| BuyOrders := btNewG 32 level_less; SellOrders := btNewG 32 level_less |}.

Definition level_key (price : decimal) : PriceLevel := mkLevel price dqEmpty.

(** [for i := 0; i < d.Len(); i++ { if p(d.At(i)) { ... } }] *)
Fixpoint index_from (d : Deque Order) (p : Order -> bool) (i : Z) (n : nat) : option Z :=
  match n with
  | O => None
  | S n' => match dqAt d i with
            | Some o => if p o then Some i else index_from d p (i + 1) n'
            | None => None
            end
  end.
Definition index_of (d : Deque Order) (p : Order -> bool) : option Z :=
  index_from d p 0 (Z.to_nat (dqLen d)).

(** One side of [AddOrder]. *)
Definition tree_add (t : BTree PriceLevel) (order : Order) : BTree PriceLevel :=
  match btGet t (level_key (o_Price order)) with
  | Some existing =>
      btReplaceOrInsert t (mkLevel (pl_Price existing) (dqPushBack (pl_Orders existing) order))
  | None => btReplaceOrInsert t (mkLevel (o_Price order) (dqPushBack dqEmpty order))
  end.

Definition AddOrder (ob : OrderBook) (order : Order) : OrderBook :=
  if bool_decide (o_Side order = OrderSideBuy)
  then {| BuyOrders := tree_add (BuyOrders ob) order; SellOrders := SellOrders ob |}
  else {| BuyOrders := BuyOrders ob; SellOrders := tree_add (SellOrders ob) order |}.

(** [existing.Orders] changed to [d] in place, the level deleted once empty. *)
Definition tree_put (t : BTree PriceLevel) (level : PriceLevel) (d : Deque Order) : BTree PriceLevel :=
  if dqLen d =? 0 then btDelete t level
  else btReplaceOrInsert t (mkLevel (pl_Price level) d).

(** One side of [RemoveOrder]. *)
Definition tree_remove (t : BTree PriceLevel) (order : Order) : BTree PriceLevel * bool :=
  match btGet t (level_key (o_Price order)) with
  | Some existing =>
      match index_of (pl_Orders existing) (fun o => (o_ID o =? o_ID order)%N) with
      | Some i => (tree_put t existing (dqRemove (pl_Orders existing) i), true)
      | None => (t, false)
      end
  | None => (t, false)
  end.

Definition RemoveOrder (ob : option OrderBook) (order : option Order) : option OrderBook * bool :=
  match ob, order with
  | Some ob, Some order =>
      if bool_decide (o_Side order = OrderSideBuy)
      then let '(t, removed) := tree_remove (BuyOrders ob) order in
           (Some {| BuyOrders := t; SellOrders := SellOrders ob |}, removed)
      else let '(t, removed) := tree_remove (SellOrders ob) order in
           (Some {| BuyOrders := BuyOrders ob; SellOrders := t |}, removed)
  | _, _ => (ob, false)
  end.

(** ** The searches of engine.go *)

Definition isSelfTrade (incoming resting : Order) : bool :=
  negb (o_UserID incoming =? 0)%N && negb (o_UserID resting =? 0)%N &&
  (o_UserID incoming =? o_UserID resting)%N.

Definition firstNonSelfOrderIndex (level : PriceLevel) (incoming : Order) : Z :=
  match index_of (pl_Orders level) (fun o => negb (isSelfTrade incoming o)) with
  | Some i => i
  | None => -1
  end.

(** The callback passed to [Ascend]/[Descend], run over the visited levels:
    [stop] is the price test that ends the iteration. *)
Fixpoint scan (stop : PriceLevel -> bool) (incoming : Order) (levels : list PriceLevel)
  : option (PriceLevel * Z) :=
  match levels with
  | [] => None
  | level :: rest =>
      if stop level then None
      else let index := firstNonSelfOrderIndex level incoming in
           if 0 <=? index then Some (level, index) else scan stop incoming rest
  end.

Definition bestMatchableSellOrder (book : OrderBook) (incoming : Order) :=
  scan (fun level => LessThan (o_Price incoming) (pl_Price level)) incoming
       (btAscend (SellOrders book)).
Definition bestMarketSellOrder (book : OrderBook) (incoming : Order) :=
  scan (fun _ => false) incoming (btAscend (SellOrders book)).
Definition bestMatchableBuyOrder (book : OrderBook) (incoming : Order) :=
  scan (fun level => LessThan (pl_Price level) (o_Price incoming)) incoming
       (btDescend (BuyOrders book)).
Definition bestMarketBuyOrder (book : OrderBook) (incoming : Order) :=
  scan (fun _ => false) incoming (btDescend (BuyOrders book)).

(** The part of a match loop that changes the resting order found at
    [index] of [level]: store it back, remove it once its amount is used up,
    delete the level once empty. *)
Definition put_resting (t : BTree PriceLevel) (level : PriceLevel) (index : Z) (resting : Order)
  : BTree PriceLevel :=
  let d := dqSet (pl_Orders level) index resting in
  let d := if negb (GreaterThan (o_Amount resting) Zero) then dqRemove d index else d in
  tree_put t level d.

Definition put_sell (book : OrderBook) (level : PriceLevel) (index : Z) (resting : Order) :=
  {| BuyOrders := BuyOrders book; SellOrders := put_resting (SellOrders book) level index resting |}.
Definition put_buy (book : OrderBook) (level : PriceLevel) (index : Z) (resting : Order) :=
  {| BuyOrders := put_resting (BuyOrders book) level index resting; SellOrders := SellOrders book |}.
End Book.

(** ** The book as two priority lists *)

Section Views.
Context {DL : DecimalLib} {CL : ContainerLib} {DLaws : DecimalLaws DL} {CLaws : ContainerLaws CL}.

Definition level_orders (l : PriceLevel) : list Order := dqList (pl_Orders l).
Definition flat (ls : list PriceLevel) : list Order := concat (map level_orders ls).

(** Sells from the best (lowest) price, buys from the best (highest). *)
Definition asks (b : OrderBook) : list Order := flat (btAscend (SellOrders b)).
Definition bids (b : OrderBook) : list Order := flat (btDescend (BuyOrders b)).

(** *** The invariant of a side *)

Definition resting_ok (isBuy : bool) (price : decimal) (o : Order) : Prop :=
  (dval (o_Price o) == dval price)%Q /\ (0 < dval (o_Amount o))%Q /\
  bool_decide (o_Side o = OrderSideBuy) = isBuy.

Definition level_ok (isBuy : bool) (l : PriceLevel) : Prop :=
  level_orders l <> [] /\ Forall (resting_ok isBuy (pl_Price l)) (level_orders l).

Definition tree_ok (isBuy : bool) (t : BTree PriceLevel) : Prop :=
  btFor level_less t /\ Forall (level_ok isBuy) (btAscend t).

(** Well-formed book: trees ordered by price, no empty level, every order at
    its own price, on its own side, with something left to trade. *)
Definition book_ok (b : OrderBook) : Prop :=
  tree_ok true (BuyOrders b) /\ tree_ok false (SellOrders b).

Lemma level_less_weak : weak_order (level_less (DL := DL) (CL := CL)).
Proof.
  unfold level_less. split.
  - intros x. apply LessThan_false. lra.
  - intros x y z. rewrite !LessThan_true. lra.
  - intros x y z. rewrite !LessThan_true. intros H.
    destruct (Qlt_le_dec (dval (pl_Price x)) (dval (pl_Price y))); [by left | right; lra].
Qed.

Lemma same_level_price (a b : PriceLevel) :
  same_key level_less a b = true <-> (dval (pl_Price a) == dval (pl_Price b))%Q.
Proof.
  unfold same_key, level_less. rewrite andb_true_iff, !negb_true_iff, !LessThan_false. lra.
Qed.

Lemma NewOrderBook_ok : book_ok NewOrderBook.
Proof.
  destruct (btNewG_for 32 _ level_less_weak) as [H1 H2].
  split; (split; [done|]); cbn; by rewrite H2.
Qed.

(** *** Searching a deque *)

Lemma index_from_spec d p i n : 0 <= i -> i + Z.of_nat n = dqLen d ->
  match index_from d p i n with
  | Some j => i <= j < dqLen d /\
      exists o, dqList d !! Z.to_nat j = Some o /\ p o = true /\
        forall k, i <= k < j -> forall x, dqList d !! Z.to_nat k = Some x -> p x = false
  | None => forall k, i <= k < dqLen d -> forall x, dqList d !! Z.to_nat k = Some x -> p x = false
  end.
Proof.
  revert i. induction n as [|n IH]; intros i Hi Hlen; cbn; [intros; lia|].
  rewrite dqAt_list by done.
  assert (is_Some (dqList d !! Z.to_nat i)) as [o Ho].
  { apply lookup_lt_is_Some. rewrite dqLen_list in Hlen. lia. }
  rewrite Ho. destruct (p o) eqn:Ep.
  - split; [lia|]. exists o. repeat split; try done. intros k Hk. lia.
  - specialize (IH (i + 1) ltac:(lia) ltac:(lia)).
    assert (Hstep : forall k x, k = i -> dqList d !! Z.to_nat k = Some x -> p x = false) by naive_solver.
    destruct (index_from d p (i + 1) n) as [j|].
    + destruct IH as (Hj & o' & Ho' & Hp & Hmin). split; [lia|]. exists o'.
      repeat split; try done. intros k Hk x Hx.
      destruct (decide (k = i)); [by eapply Hstep|]. eapply Hmin; [|done]. lia.
    + intros k Hk x Hx. destruct (decide (k = i)); [by eapply Hstep|]. eapply IH; [|done]. lia.
Qed.

(** [index_of] finds the first element satisfying the test. *)
Lemma index_of_Some d p i : index_of d p = Some i ->
  0 <= i < dqLen d /\
  exists l1 o l2, dqList d = l1 ++ o :: l2 /\ Z.to_nat i = length l1 /\ p o = true /\
    Forall (fun x => p x = false) l1.
Proof.
  unfold index_of. intros H.
  pose proof (index_from_spec d p 0 (Z.to_nat (dqLen d)) ltac:(lia)) as HS.
  rewrite H in HS. destruct HS as (Hr & o & Ho & Hp & Hmin); [rewrite dqLen_list; lia|].
  split; [done|]. exists (take (Z.to_nat i) (dqList d)), o, (drop (S (Z.to_nat i)) (dqList d)).
  split; [symmetry; by apply take_drop_middle|].
  rewrite dqLen_list in Hr. rewrite length_take. repeat split; [lia|done|].
  apply Forall_forall. intros x Hx. apply list_elem_of_lookup in Hx as [k Hk].
  apply lookup_take_Some in Hk as [Hk Hlt].
  apply (Hmin (Z.of_nat k)); [lia|]. by rewrite Nat2Z.id.
Qed.
Lemma index_of_None d p : index_of d p = None -> Forall (fun x => p x = false) (dqList d).
Proof.
  unfold index_of. intros H.
  pose proof (index_from_spec d p 0 (Z.to_nat (dqLen d)) ltac:(lia)) as HS.
  rewrite H in HS. apply Forall_forall. intros x Hx.
  apply list_elem_of_lookup in Hx as [k Hk].
  eapply (HS ltac:(rewrite dqLen_list; lia) (Z.of_nat k)); [|by rewrite Nat2Z.id].
  rewrite dqLen_list. apply lookup_lt_Some in Hk. lia.
Qed.

(** *** Updating a level of a tree *)

Lemma flat_app ls ks : flat (ls ++ ks) = flat ls ++ flat ks.
Proof. unfold flat. by rewrite map_app, concat_app. Qed.
Lemma flat_cons l ls : flat (l :: ls) = level_orders l ++ flat ls.
Proof. done. Qed.

Lemma flat_ok isBuy ls : Forall (level_ok isBuy) ls ->
  Forall (fun o => 0 < dval (o_Amount o) /\ bool_decide (o_Side o = OrderSideBuy) = isBuy)%Q (flat ls).
Proof.
  intros H. apply Forall_forall. intros o Ho. unfold flat in Ho.
  apply list_elem_of_In, in_concat in Ho as (os & Hos & Ho).
  apply in_map_iff in Hos as (l & <- & Hl). apply list_elem_of_In in Ho, Hl.
  eapply Forall_forall in H as [_ H]; [|exact Hl].
  eapply Forall_forall in H; [|exact Ho]. by destruct H as (_ & ? & ?).
Qed.

Lemma btGet_split isBuy t price lv : tree_ok isBuy t ->
  btGet t (level_key price) = Some lv ->
  (dval (pl_Price lv) == dval price)%Q /\ exists L1 L2, btAscend t = L1 ++ lv :: L2.
Proof.
  intros [Hbt _] H. rewrite (btGet_find level_less) in H by done.
  apply find_some in H as [Hin Hk]. apply same_level_price in Hk. split; [done|].
  by apply list_elem_of_split, list_elem_of_In.
Qed.

Lemma tree_put_ok isBuy t L1 lv L2 d : tree_ok isBuy t -> btAscend t = L1 ++ lv :: L2 ->
  Forall (resting_ok isBuy (pl_Price lv)) (dqList d) ->
  tree_ok isBuy (tree_put t lv d) /\
  flat (btAscend (tree_put t lv d)) = flat L1 ++ dqList d ++ flat L2 /\
  flat (btDescend (tree_put t lv d)) = flat (rev L2) ++ dqList d ++ flat (rev L1).
Proof.
  intros [Hbt HL] HA Hd. pose proof (bt_ascending _ _ Hbt) as Hasc. rewrite HA in *.
  rewrite Forall_app, Forall_cons in HL. destruct HL as (HL1 & _ & HL2).
  unfold tree_put. rewrite dqLen_list. destruct (dqList d) as [|o os] eqn:Ed.
  - change (Z.of_nat (length (@nil Order)) =? 0) with true. cbn iota.
    destruct (btDelete_list _ t lv Hbt) as [Hbt' HA']. rewrite HA in HA'.
    rewrite (ordered_delete_at _ level_less_weak) in HA' by (done || apply same_key_refl, level_less_weak).
    rewrite btDescend_rev, HA'. split; [by split; [|rewrite HA'; apply Forall_app]|].
    by rewrite rev_app_distr, !flat_app.
  - replace (Z.of_nat (length (o :: os)) =? 0) with false by done.
    set (lv' := mkLevel (pl_Price lv) d).
    destruct (btReplaceOrInsert_list _ t lv' Hbt) as [Hbt' HA']. rewrite HA in HA'.
    rewrite (ordered_insert_replace _ level_less_weak) in HA' by (done || by apply same_level_price).
    rewrite btDescend_rev, HA'.
    assert (Hlv : level_orders lv' = o :: os) by exact Ed.
    split; [split; [done|]|].
    + rewrite HA'. apply Forall_app. split; [done|]. constructor; [|done].
      split; rewrite Hlv; done.
    + rewrite rev_app_distr. cbn [rev]. rewrite !flat_app, !flat_cons, Hlv.
      rewrite <- !app_assoc. done.
Qed.

(** *** AddOrder keeps price-time priority *)

Lemma tree_add_spec isBuy t o : tree_ok isBuy t ->
  (0 < dval (o_Amount o))%Q -> bool_decide (o_Side o = OrderSideBuy) = isBuy ->
  tree_ok isBuy (tree_add t o) /\
  exists L1 M L2, btAscend t = L1 ++ M ++ L2 /\
    flat (btAscend (tree_add t o)) = flat L1 ++ (flat M ++ [o]) ++ flat L2 /\
    flat (btDescend (tree_add t o)) = flat (rev L2) ++ (flat M ++ [o]) ++ flat (rev L1) /\
    rev M = M /\
    Forall (fun l => dval (pl_Price l) == dval (o_Price o))%Q M /\
    Forall (fun l => dval (pl_Price l) < dval (o_Price o))%Q L1 /\
    Forall (fun l => dval (o_Price o) < dval (pl_Price l))%Q L2.
Proof.
  intros Hok Ho Hs. pose proof Hok as [Hbt HL]. pose proof (bt_ascending _ _ Hbt) as Hasc.
  unfold tree_add. destruct (btGet t (level_key (o_Price o))) as [lv|] eqn:EG.
  - destruct (btGet_split _ _ _ _ Hok EG) as (Hp & L1 & L2 & HA).
    set (d := dqPushBack (pl_Orders lv) o).
    assert (Hd : dqList d = level_orders lv ++ [o]) by apply dqPushBack_list.
    assert (Hput : btReplaceOrInsert t (mkLevel (pl_Price lv) d) = tree_put t lv d).
    { unfold tree_put. rewrite dqLen_list, Hd, length_app. cbn.
      by rewrite (proj2 (Z.eqb_neq _ 0)) by lia. }
    rewrite Hput. destruct (tree_put_ok isBuy t L1 lv L2 d Hok HA) as (Hok' & HA' & HD').
    { rewrite Hd, HA in *. apply Forall_app in HL as [_ HL]. apply Forall_cons in HL as [[_ HL] _].
      apply Forall_app. split; [done|]. constructor; [|done]. split; [|done]. by rewrite Hp. }
    split; [done|]. exists L1, [lv], L2. rewrite HA in Hasc.
    destruct (ascending_app_inv _ _ _ _ Hasc) as [H1 H2].
    rewrite HA', HD', Hd. unfold flat at 2 5. cbn. rewrite app_nil_r.
    split; [done|]. split; [done|]. split; [done|]. split; [done|]. split; [by constructor|].
    split; eapply Forall_impl; try done; intros l Hl; apply LessThan_true in Hl; lra.
  - set (lv := mkLevel (o_Price o) (dqPushBack dqEmpty o)).
    assert (Hlv : level_orders lv = [o]).
    { unfold level_orders, lv. cbn. by rewrite dqPushBack_list, dqList_empty. }
    destruct (btReplaceOrInsert_list _ t lv Hbt) as [Hbt' HA'].
    rewrite (btGet_find level_less) in EG by done.
    assert (Hno : forall y, y ∈ btAscend t -> same_key level_less y lv = false).
    { intros y Hy. apply list_elem_of_In in Hy. by apply (find_none _ _ EG) in Hy. }
    destruct (ordered_insert_split level_less level_less_weak lv (btAscend t) Hasc Hno) as (L1 & L2 & HA & HI).
    rewrite HI in HA'. pose proof (bt_ascending _ _ Hbt') as Hasc'. rewrite HA' in Hasc'.
    destruct (ascending_app_inv _ _ _ _ Hasc') as [H1 H2]. split.
    + split; [done|]. rewrite HA', HA in *. apply Forall_app in HL as [? ?]. apply Forall_app.
      split; [done|]. constructor; [|done]. split; rewrite Hlv; [done|].
      by constructor; [split|].
    + exists L1, [], L2. split; [done|]. rewrite btDescend_rev, HA'.
      rewrite rev_app_distr. cbn [rev]. rewrite !flat_app, !flat_cons, Hlv, <- !app_assoc.
      split; [done|]. split; [done|]. split; [done|]. split; [done|].
      split; eapply Forall_impl; try done; intros l Hl; by apply LessThan_true in Hl.
Qed.

(** *** The abstract book and its operations *)

Record abook := mkAbook { a_asks : list Order; a_bids : list Order }.
Definition abs (b : OrderBook) : abook := mkAbook (asks b) (bids b).

(** Queue an order behind everything at least as good as it. *)
Fixpoint enqueue (worse : Order -> bool) (o : Order) (l : list Order) : list Order :=
  match l with
  | [] => [o]
  | x :: l' => if worse x then o :: x :: l' else x :: enqueue worse o l'
  end.

Definition spec_AddOrder (b : abook) (o : Order) : abook :=
  if bool_decide (o_Side o = OrderSideBuy)
  then mkAbook (a_asks b) (enqueue (fun x => LessThan (o_Price x) (o_Price o)) o (a_bids b))
  else mkAbook (enqueue (fun x => LessThan (o_Price o) (o_Price x)) o (a_asks b)) (a_bids b).

Fixpoint remove_first (p : Order -> bool) (l : list Order) : list Order * bool :=
  match l with
  | [] => ([], false)
  | x :: l' => if p x then (l', true) else let '(r, b) := remove_first p l' in (x :: r, b)
  end.

Definition same_order (o x : Order) : bool :=
  Equal (o_Price x) (o_Price o) && (o_ID x =? o_ID o)%N.

Definition spec_RemoveOrder (b : abook) (o : Order) : abook * bool :=
  if bool_decide (o_Side o = OrderSideBuy)
  then let '(l, r) := remove_first (same_order o) (a_bids b) in (mkAbook (a_asks b) l, r)
  else let '(l, r) := remove_first (same_order o) (a_asks b) in (mkAbook l (a_bids b), r).

Lemma enqueue_split worse o l1 l2 :
  Forall (fun x => worse x = false) l1 -> Forall (fun x => worse x = true) l2 ->
  enqueue worse o (l1 ++ l2) = l1 ++ o :: l2.
Proof.
  intros H1 H2. induction H1 as [|x l1 Hx _ IH]; cbn.
  - destruct H2 as [|x l2 Hx]; cbn; [done | by rewrite Hx].
  - by rewrite Hx, IH.
Qed.

Lemma remove_first_split p x l1 l2 :
  Forall (fun y => p y = false) l1 -> p x = true -> remove_first p (l1 ++ x :: l2) = (l1 ++ l2, true).
Proof. intros H Hx. induction H as [|y l1 Hy _ IH]; cbn; [by rewrite Hx | by rewrite Hy, IH]. Qed.
Lemma remove_first_mid p A l1 x l2 B :
  Forall (fun y => p y = false) A -> Forall (fun y => p y = false) l1 -> p x = true ->
  remove_first p (A ++ (l1 ++ x :: l2) ++ B) = (A ++ (l1 ++ l2) ++ B, true).
Proof.
  intros HA H1 Hx. replace (A ++ (l1 ++ x :: l2) ++ B) with ((A ++ l1) ++ x :: l2 ++ B)
    by by rewrite <- !app_assoc.
  rewrite remove_first_split by (done || by apply Forall_app). by rewrite <- !app_assoc.
Qed.
Lemma remove_first_none p l : Forall (fun y => p y = false) l -> remove_first p l = (l, false).
Proof. induction 1 as [|y l Hy _ IH]; cbn; [done | by rewrite Hy, IH]. Qed.

(** Orders of a well-formed level are at the level's price. *)
Lemma flat_price isBuy ls (P : Q -> Prop) : (forall q r, (q == r)%Q -> P q -> P r) ->
  Forall (level_ok isBuy) ls -> Forall (fun l => P (dval (pl_Price l))) ls ->
  Forall (fun o => P (dval (o_Price o))) (flat ls).
Proof.
  intros HP Hok H. induction Hok as [|l ls [_ Hl] Hls IH]; [constructor|].
  apply Forall_cons in H as [Hp H]. rewrite flat_cons. apply Forall_app. split; [|by apply IH].
  eapply Forall_impl; [exact Hl|]. intros o (Hq & _). eapply HP; [|exact Hp]. by symmetry.
Qed.

Lemma tree_levels_ok isBuy t L1 M L2 : tree_ok isBuy t -> btAscend t = L1 ++ M ++ L2 ->
  Forall (level_ok isBuy) L1 /\ Forall (level_ok isBuy) M /\ Forall (level_ok isBuy) L2.
Proof. intros [_ H] E. rewrite E, !Forall_app in H. tauto. Qed.

Lemma flat_price_lt isBuy ls q : Forall (level_ok isBuy) ls ->
  Forall (fun l => dval (pl_Price l) < q)%Q ls -> Forall (fun o => dval (o_Price o) < q)%Q (flat ls).
Proof. apply (flat_price isBuy ls (fun r => r < q)%Q). intros; lra. Qed.
Lemma flat_price_gt isBuy ls q : Forall (level_ok isBuy) ls ->
  Forall (fun l => q < dval (pl_Price l))%Q ls -> Forall (fun o => q < dval (o_Price o))%Q (flat ls).
Proof. apply (flat_price isBuy ls (fun r => q < r)%Q). intros; lra. Qed.
Lemma flat_price_eq isBuy ls q : Forall (level_ok isBuy) ls ->
  Forall (fun l => dval (pl_Price l) == q)%Q ls -> Forall (fun o => dval (o_Price o) == q)%Q (flat ls).
Proof. apply (flat_price isBuy ls (fun r => r == q)%Q). intros; lra. Qed.

Lemma AddOrder_abs b o : book_ok b -> (0 < dval (o_Amount o))%Q ->
  book_ok (AddOrder b o) /\ abs (AddOrder b o) = spec_AddOrder (abs b) o.
Proof.
  intros [HB HS] Ha. unfold AddOrder, spec_AddOrder, abs, asks, bids.
  destruct (bool_decide (o_Side o = OrderSideBuy)) eqn:Es; cbn [a_asks a_bids BuyOrders SellOrders].
  - destruct (tree_add_spec true _ o HB Ha Es) as (HB' & L1 & M & L2 & HA & _ & HD & HM & Hm & H1 & H2).
    split; [by split|]. f_equal. rewrite HD, btDescend_rev, HA, !rev_app_distr, !flat_app, HM.
    destruct (tree_levels_ok _ _ _ _ _ HB HA) as (K1 & KM & K2).
    rewrite ?(app_assoc (flat (rev L2)) (flat M) (flat (rev L1))), (enqueue_split _ o (flat (rev L2) ++ flat M)).
    + by rewrite <- !app_assoc.
    + apply Forall_app. split.
      * eapply Forall_impl; [by apply (flat_price_gt true (rev L2)); apply Forall_rev|].
        intros x Hx. apply LessThan_false. cbn in Hx. lra.
      * eapply Forall_impl; [by apply (flat_price_eq true M)|].
        intros x Hx. apply LessThan_false. cbn in Hx. lra.
    + eapply Forall_impl; [by apply (flat_price_lt true (rev L1)); apply Forall_rev|].
      intros x Hx. apply LessThan_true. cbn in Hx. lra.
  - destruct (tree_add_spec false _ o HS Ha Es) as (HS' & L1 & M & L2 & HA & HD & _ & HM & Hm & H1 & H2).
    split; [by split|]. f_equal. rewrite HD, HA, !flat_app.
    destruct (tree_levels_ok _ _ _ _ _ HS HA) as (K1 & KM & K2).
    rewrite (app_assoc (flat L1) (flat M) (flat L2)), (enqueue_split _ o (flat L1 ++ flat M)).
    + by rewrite <- !app_assoc.
    + apply Forall_app. split.
      * eapply Forall_impl; [by apply (flat_price_lt false L1)|].
        intros x Hx. apply LessThan_false. cbn in Hx. lra.
      * eapply Forall_impl; [by apply (flat_price_eq false M)|].
        intros x Hx. apply LessThan_false. cbn in Hx. lra.
    + eapply Forall_impl; [by apply (flat_price_gt false L2)|].
      intros x Hx. apply LessThan_true. cbn in Hx. lra.
Qed.

(** *** RemoveOrder removes exactly the order named *)

Lemma same_order_other_price o x : (~ dval (o_Price x) == dval (o_Price o))%Q -> same_order o x = false.
Proof. intros H. unfold same_order. by rewrite (proj2 (Equal_false _ _) H). Qed.

Lemma other_price isBuy ls o : Forall (level_ok isBuy) ls ->
  Forall (fun l => ~ dval (pl_Price l) == dval (o_Price o))%Q ls ->
  Forall (fun x => same_order o x = false) (flat ls).
Proof.
  intros H1 H2. eapply Forall_impl; [|intros x; apply same_order_other_price].
  apply (flat_price isBuy ls (fun r => ~ r == dval (o_Price o))%Q); try done. intros q r Hq H Hr.
  apply H. by rewrite Hq.
Qed.

Lemma ascending_price_split L1 lv L2 : ascending level_less (L1 ++ lv :: L2) ->
  Forall (fun l => dval (pl_Price l) < dval (pl_Price lv))%Q L1 /\
  Forall (fun l => dval (pl_Price lv) < dval (pl_Price l))%Q L2.
Proof.
  intros H. destruct (ascending_app_inv _ _ _ _ H) as [H1 H2].
  split; eapply Forall_impl; try done; intros l Hl; by apply LessThan_true in Hl.
Qed.

Lemma remove_at (d : Deque Order) i l1 x l2 : dqList d = l1 ++ x :: l2 -> Z.to_nat i = length l1 ->
  0 <= i < dqLen d -> dqList (dqRemove d i) = l1 ++ l2.
Proof.
  intros Hd Hi Hr. rewrite dqRemove_list, Hd, Hi by done. unfold remove_nth.
  rewrite take_app_length, drop_app_ge by lia.
  by replace (S (length l1) - length l1)%nat with 1%nat by lia.
Qed.

Lemma tree_remove_spec isBuy t o : tree_ok isBuy t ->
  let '(t', removed) := tree_remove t o in
  tree_ok isBuy t' /\
  (flat (btAscend t'), removed) = remove_first (same_order o) (flat (btAscend t)) /\
  (flat (btDescend t'), removed) = remove_first (same_order o) (flat (btDescend t)).
Proof.
  intros Hok. pose proof Hok as [Hbt HL]. unfold tree_remove.
  destruct (btGet t (level_key (o_Price o))) as [lv|] eqn:EG.
  - destruct (btGet_split _ _ _ _ Hok EG) as (Hp & L1 & L2 & HA).
    pose proof (bt_ascending _ _ Hbt) as Hasc. rewrite HA in Hasc, HL.
    destruct (ascending_price_split _ _ _ Hasc) as [P1 P2].
    apply Forall_app in HL as [HL1 HL]. apply Forall_cons in HL as [Hlv HL2].
    assert (N1 : Forall (fun x => same_order o x = false) (flat L1)).
    { apply (other_price isBuy); [done|]. eapply Forall_impl; [exact P1|]. intros l Hl. cbn in Hl. lra. }
    assert (N2 : Forall (fun x => same_order o x = false) (flat L2)).
    { apply (other_price isBuy); [done|]. eapply Forall_impl; [exact P2|]. intros l Hl. cbn in Hl. lra. }
    assert (N2' : Forall (fun x => same_order o x = false) (flat (rev L2))).
    { apply (other_price isBuy); [by apply Forall_rev|]. apply Forall_rev.
      eapply Forall_impl; [exact P2|]. intros l Hl. cbn in Hl. lra. }
    assert (N1' : Forall (fun x => same_order o x = false) (flat (rev L1))).
    { apply (other_price isBuy); [by apply Forall_rev|]. apply Forall_rev.
      eapply Forall_impl; [exact P1|]. intros l Hl. cbn in Hl. lra. }
    assert (Hso : forall x, x ∈ level_orders lv -> same_order o x = (o_ID x =? o_ID o)%N).
    { intros x Hx. destruct Hlv as [_ Hlv]. eapply Forall_forall in Hlv as (Hq & _); [|exact Hx].
      unfold same_order. rewrite (proj2 (Equal_true _ _)); [done|]. lra. }
    rewrite btDescend_rev, HA, rev_app_distr. cbn [rev]. rewrite !flat_app, !flat_cons.
    destruct (index_of _ _) as [i|] eqn:EI.
    + destruct (index_of_Some _ _ _ EI) as (Hr & l1 & x & l2 & Hd & Hi & Hx & Hl1).
      pose proof (remove_at _ _ _ _ _ Hd Hi Hr) as Hd'.
      destruct (tree_put_ok isBuy t L1 lv L2 (dqRemove (pl_Orders lv) i) Hok HA) as (Hok' & HA' & HD').
      { rewrite Hd'. destruct Hlv as [_ Hlv]. unfold level_orders in Hlv. rewrite Hd in Hlv.
        rewrite Forall_app, Forall_cons in Hlv. apply Forall_app. tauto. }
      fold (level_orders lv) in Hd. rewrite Hd in Hso |- *.
      assert (M1 : Forall (fun y => same_order o y = false) l1).
      { apply Forall_forall. intros y Hy. rewrite Hso by set_solver. by eapply Forall_forall in Hl1. }
      assert (Mx : same_order o x = true) by (rewrite Hso by set_solver; done).
      split; [done|]. rewrite HA', HD', Hd'. split.
      * by rewrite remove_first_mid.
      * change (flat []) with (@nil Order). rewrite app_nil_r, <- (app_assoc (flat (rev L2))).
        by rewrite remove_first_mid.
    + pose proof (index_of_None _ _ EI) as Hn. fold (level_orders lv) in Hn.
      assert (M : Forall (fun y => same_order o y = false) (level_orders lv)).
      { apply Forall_forall. intros y Hy. rewrite Hso by done. by eapply Forall_forall in Hn. }
      change (flat []) with (@nil Order). rewrite app_nil_r.
      rewrite btDescend_rev, HA, rev_app_distr. cbn [rev]. rewrite !flat_app, !flat_cons.
      change (flat []) with (@nil Order). rewrite app_nil_r, !remove_first_none; [done| |].
      all: repeat (apply Forall_app; split); done.
  - rewrite (btGet_find level_less) in EG by done.
    assert (HN : Forall (fun l => ~ dval (pl_Price l) == dval (o_Price o))%Q (btAscend t)).
    { apply Forall_forall. intros l Hl Hq. apply list_elem_of_In in Hl.
      apply (find_none _ _ EG) in Hl. apply not_true_iff_false in Hl. apply Hl.
      by apply same_level_price. }
    split; [done|]. rewrite btDescend_rev, !remove_first_none; [done| |].
    + apply (other_price isBuy); by apply Forall_rev.
    + by apply (other_price isBuy).
Qed.

Lemma RemoveOrder_abs b o : book_ok b ->
  exists b' removed, RemoveOrder (Some b) (Some o) = (Some b', removed) /\ book_ok b' /\
    (abs b', removed) = spec_RemoveOrder (abs b) o.
Proof.
  intros [HB HS]. unfold RemoveOrder, spec_RemoveOrder, abs, asks, bids.
  destruct (bool_decide (o_Side o = OrderSideBuy)); cbn [a_asks a_bids].
  - pose proof (tree_remove_spec true _ o HB) as H. destruct (tree_remove (BuyOrders b) o) as [t r].
    destruct H as (Hok & _ & HD). eexists _, r. split; [done|]. split; [by split|]. by rewrite <- HD.
  - pose proof (tree_remove_spec false _ o HS) as H. destruct (tree_remove (SellOrders b) o) as [t r].
    destruct H as (Hok & HA & _). eexists _, r. split; [done|]. split; [by split|]. by rewrite <- HA.
Qed.

(** *** The searches find the first order of the queue that is not the
    incoming user's own *)

Lemma scan_Some stop inc ls lv i : scan stop inc ls = Some (lv, i) ->
  exists L1 L2 l1 x l2, ls = L1 ++ lv :: L2 /\ stop lv = false /\
    level_orders lv = l1 ++ x :: l2 /\ Z.to_nat i = length l1 /\ 0 <= i < dqLen (pl_Orders lv) /\
    isSelfTrade inc x = false /\ Forall (fun y => isSelfTrade inc y = true) (flat L1 ++ l1).
Proof.
  induction ls as [|l ls IH]; cbn; [done|]. destruct (stop l) eqn:Es; [done|].
  unfold firstNonSelfOrderIndex. destruct (index_of _ _) as [j|] eqn:EI.
  - destruct (index_of_Some _ _ _ EI) as (Hr & l1 & x & l2 & Hd & Hj & Hx & Hl1).
    rewrite (proj2 (Z.leb_le 0 j)) by lia. intros [= <- <-].
    exists [], ls, l1, x, l2. repeat (split; [done|]). apply negb_true_iff in Hx. split; [done|].
    cbn. eapply Forall_impl; [exact Hl1|]. intros y Hy. by apply negb_false_iff in Hy.
  - pose proof (index_of_None _ _ EI) as Hn. cbn. intros H.
    destruct (IH H) as (L1 & L2 & l1 & x & l2 & -> & H1 & H2 & H3 & H4 & H5 & H6).
    exists (l :: L1), L2, l1, x, l2. repeat (split; [done|]).
    rewrite flat_cons, <- app_assoc. apply Forall_app. split; [|done].
    eapply Forall_impl; [exact Hn|]. intros y Hy. by apply negb_false_iff in Hy.
Qed.

Lemma scan_None stop inc ls : scan stop inc ls = None ->
  exists L1 L2, ls = L1 ++ L2 /\ Forall (fun y => isSelfTrade inc y = true) (flat L1) /\
    match L2 with [] => True | l :: _ => stop l = true end.
Proof.
  induction ls as [|l ls IH]; cbn; [intros _; by exists [], []|].
  destruct (stop l) eqn:Es; [intros _; by exists [], (l :: ls)|].
  unfold firstNonSelfOrderIndex. destruct (index_of _ _) as [j|] eqn:EI.
  - destruct (index_of_Some _ _ _ EI) as (Hr & _). by rewrite (proj2 (Z.leb_le 0 j)) by lia.
  - pose proof (index_of_None _ _ EI) as Hn. cbn. intros H.
    destruct (IH H) as (L1 & L2 & -> & H1 & H2). exists (l :: L1), L2. split; [done|]. split; [|done].
    rewrite flat_cons. apply Forall_app. split; [|done].
    eapply Forall_impl; [exact Hn|]. intros y Hy. by apply negb_false_iff in Hy.
Qed.

Definition keep (x : Order) : list Order := if GreaterThan (o_Amount x) Zero then [x] else [].

Lemma put_resting_spec isBuy t lv i L1 L2 l1 x l2 x' :
  tree_ok isBuy t -> btAscend t = L1 ++ lv :: L2 -> level_orders lv = l1 ++ x :: l2 ->
  Z.to_nat i = length l1 -> 0 <= i < dqLen (pl_Orders lv) ->
  o_Side x' = o_Side x -> o_Price x' = o_Price x ->
  tree_ok isBuy (put_resting t lv i x') /\
  flat (btAscend (put_resting t lv i x')) = flat L1 ++ (l1 ++ keep x' ++ l2) ++ flat L2 /\
  flat (btDescend (put_resting t lv i x')) = flat (rev L2) ++ (l1 ++ keep x' ++ l2) ++ flat (rev L1).
Proof.
  intros Hok HA Hl Hi Hr Hs Hp. unfold put_resting.
  set (d := dqSet (pl_Orders lv) i x').
  assert (Hd : dqList d = l1 ++ x' :: l2).
  { unfold d. rewrite dqSet_list by done. fold (level_orders lv). rewrite Hl, Hi.
    rewrite insert_app_r_alt, Nat.sub_diag by lia. done. }
  assert (Hrd : 0 <= i < dqLen d).
  { rewrite !dqLen_list in *. fold (level_orders lv) in Hr. rewrite Hl in Hr. rewrite Hd.
    rewrite length_app in *. cbn in *. lia. }
  pose proof Hok as [_ HL]. rewrite HA, Forall_app, Forall_cons in HL.
  destruct HL as (_ & [_ Hlv] & _). rewrite Hl, Forall_app, Forall_cons in Hlv.
  destruct Hlv as (F1 & (Fp & Fa & Fs) & F2).
  set (d' := if negb (GreaterThan (o_Amount x') Zero) then dqRemove d i else d).
  assert (Hd' : dqList d' = l1 ++ keep x' ++ l2).
  { unfold d', keep. destruct (GreaterThan (o_Amount x') Zero); cbn; [done|].
    by apply (remove_at _ _ _ x'). }
  rewrite <- Hd'. apply tree_put_ok; [done|done|]. rewrite Hd'.
  apply Forall_app. split; [done|]. apply Forall_app. split; [|done].
  unfold keep. destruct (GreaterThan (o_Amount x') Zero) eqn:E; [|done]. constructor; [|done].
  unfold resting_ok. rewrite Hp, Hs. split; [done|]. split; [|done].
  apply GreaterThan_true in E. by rewrite dval_Zero in E.
Qed.

(** What a successful search of a side gives a match loop: the order [x] it
    will trade with, at its place in the queue, and what storing its update
    [x'] does to the book. *)
Definition found (b : OrderBook) (inc : Order) (put : Order -> OrderBook)
  (queue other : OrderBook -> list Order) (lv : PriceLevel) (i : Z) (x : Order) : Prop :=
  dqAt (pl_Orders lv) i = Some x /\
  (dval (pl_Price lv) == dval (o_Price x))%Q /\ (0 < dval (o_Amount x))%Q /\
  isSelfTrade inc x = false /\
  exists l1 l2, queue b = l1 ++ x :: l2 /\ Forall (fun y => isSelfTrade inc y = true) l1 /\
    forall x', o_Side x' = o_Side x -> o_Price x' = o_Price x ->
      book_ok (put x') /\ queue (put x') = l1 ++ keep x' ++ l2 /\ other (put x') = other b.

Lemma found_at isBuy t lv i L1 L2 l1 x l2 : tree_ok isBuy t -> btAscend t = L1 ++ lv :: L2 ->
  level_orders lv = l1 ++ x :: l2 -> Z.to_nat i = length l1 -> 0 <= i ->
  dqAt (pl_Orders lv) i = Some x /\ (dval (pl_Price lv) == dval (o_Price x))%Q /\
  (0 < dval (o_Amount x))%Q.
Proof.
  intros [_ HL] HA Hl Hi Hr. rewrite HA, Forall_app, Forall_cons in HL.
  destruct HL as (_ & [_ Hlv] & _). rewrite Hl, Forall_app, Forall_cons in Hlv.
  destruct Hlv as (_ & (Fp & Fa & _) & _).
  rewrite dqAt_list by done. fold (level_orders lv). rewrite Hl, Hi, list_lookup_middle by done.
  split; [done|]. split; [by symmetry | done].
Qed.

Lemma search_sell_Some b inc stop lv i : book_ok b ->
  scan stop inc (btAscend (SellOrders b)) = Some (lv, i) ->
  stop lv = false /\ exists x, found b inc (put_sell b lv i) asks bids lv i x.
Proof.
  intros [HB HS] H.
  destruct (scan_Some _ _ _ _ _ H) as (L1 & L2 & l1 & x & l2 & HA & Hst & Hl & Hi & Hr & Hx & HF).
  split; [done|]. exists x. destruct (found_at _ _ _ _ _ _ _ _ _ HS HA Hl Hi ltac:(lia)) as (? & ? & ?).
  repeat (split; [done|]). exists (flat L1 ++ l1), (l2 ++ flat L2). unfold asks.
  rewrite HA, flat_app, flat_cons, Hl, <- !app_assoc. repeat (split; [done|]). intros x' Hs Hp.
  destruct (put_resting_spec false _ lv i L1 L2 l1 x l2 x' HS HA Hl Hi Hr Hs Hp) as (Hok & HA' & _).
  cbn. rewrite HA', <- !app_assoc. split; [by split | done].
Qed.

Lemma search_buy_Some b inc stop lv i : book_ok b ->
  scan stop inc (btDescend (BuyOrders b)) = Some (lv, i) ->
  stop lv = false /\ exists x, found b inc (put_buy b lv i) bids asks lv i x.
Proof.
  intros [HB HS] H.
  destruct (scan_Some _ _ _ _ _ H) as (L1 & L2 & l1 & x & l2 & HA & Hst & Hl & Hi & Hr & Hx & HF).
  assert (HA2 : btAscend (BuyOrders b) = rev L2 ++ lv :: rev L1).
  { rewrite <- (rev_involutive (btAscend (BuyOrders b))), <- btDescend_rev, HA, rev_app_distr. cbn.
    by rewrite <- app_assoc. }
  split; [done|]. exists x. destruct (found_at _ _ _ _ _ _ _ _ _ HB HA2 Hl Hi ltac:(lia)) as (? & ? & ?).
  repeat (split; [done|]). exists (flat L1 ++ l1), (l2 ++ flat L2). unfold bids.
  rewrite HA, flat_app, flat_cons, Hl, <- !app_assoc. repeat (split; [done|]). intros x' Hs Hp.
  destruct (put_resting_spec true _ lv i _ _ l1 x l2 x' HB HA2 Hl Hi Hr Hs Hp) as (Hok & _ & HD').
  cbn. rewrite HD', !rev_involutive, <- !app_assoc. split; [by split | done].
Qed.

(** Nothing found: everything within the price limit is the user's own. *)
Lemma search_sell_None b inc : book_ok b -> bestMatchableSellOrder b inc = None ->
  Forall (fun y => dval (o_Price inc) < dval (o_Price y) \/ isSelfTrade inc y = true)%Q (asks b).
Proof.
  intros [_ [Hbt HL]] H. pose proof (bt_ascending _ _ Hbt) as Hasc.
  destruct (scan_None _ _ _ H) as (L1 & L2 & HA & HF & Hst). unfold asks. rewrite HA in *.
  rewrite flat_app. apply Forall_app. split; [eapply Forall_impl; [exact HF|]; by right|].
  destruct L2 as [|l L2]; [constructor|]. apply LessThan_true in Hst.
  destruct (ascending_price_split _ _ _ Hasc) as [_ P2]. apply Forall_app in HL as [_ HL].
  eapply Forall_impl; [apply (flat_price_gt false (l :: L2) (dval (o_Price inc))); [done|]|by left].
  constructor; [done|]. eapply Forall_impl; [exact P2|]. intros k Hk. cbn in Hk |- *. lra.
Qed.

Lemma search_buy_None b inc : book_ok b -> bestMatchableBuyOrder b inc = None ->
  Forall (fun y => dval (o_Price y) < dval (o_Price inc) \/ isSelfTrade inc y = true)%Q (bids b).
Proof.
  intros [[Hbt HL] _] H. pose proof (bt_ascending _ _ Hbt) as Hasc.
  destruct (scan_None _ _ _ H) as (L1 & L2 & HA & HF & Hst). unfold bids. rewrite HA.
  rewrite flat_app. apply Forall_app. split; [eapply Forall_impl; [exact HF|]; by right|].
  destruct L2 as [|l L2]; [constructor|]. apply LessThan_true in Hst.
  assert (HA2 : btAscend (BuyOrders b) = rev L2 ++ l :: rev L1).
  { rewrite <- (rev_involutive (btAscend (BuyOrders b))), <- btDescend_rev, HA, rev_app_distr. cbn.
    by rewrite <- app_assoc. }
  rewrite HA2 in *. destruct (ascending_price_split _ _ _ Hasc) as [P1 _].
  rewrite Forall_app, Forall_cons in HL. destruct HL as (HL1 & Hl & _).
  eapply Forall_impl; [apply (flat_price_lt true (l :: L2) (dval (o_Price inc)))|by left].
  - constructor; [done|]. apply Forall_rev in HL1. by rewrite rev_involutive in HL1.
  - constructor; [done|]. apply Forall_rev in P1. rewrite rev_involutive in P1.
    eapply Forall_impl; [exact P1|]. intros k Hk. cbn in Hk |- *. lra.
Qed.

Lemma search_market_None inc ls : scan (fun _ => false) inc ls = None ->
  Forall (fun y => isSelfTrade inc y = true) (flat ls).
Proof.
  intros H. destruct (scan_None _ _ _ H) as (L1 & [|l L2] & -> & HF & Hst); [|done].
  by rewrite app_nil_r.
Qed.
End Views.
