(* ===== verification/Quantum.v ===== *)
(** * The scheduler's quantum (internal/matching/quantum_config.go)

    Go's [int] is 64 bits wide here, with wrap-around written out where the
    source worries about it. *)
From S2P Require Import Prelude.
From Stdlib Require Import Lia.

(** Two's-complement wrap-around of a 64-bit [int]. *)
Definition wrap64 (z : Z) : Z := (z + 2 ^ 63) mod 2 ^ 64 - 2 ^ 63.
Definition int64 (z : Z) : Prop := - 2 ^ 63 <= z < 2 ^ 63.

Lemma wrap64_id z : int64 z -> wrap64 z = z.
Proof. unfold int64, wrap64. intros. rewrite Z.mod_small; lia. Qed.

Definition defaultMaxMatchesPerTurn : Z := 128.
Definition defaultMaxConsecutiveCancels : Z := 8.

Record QuantumConfig := mkQuantum { MaxMatchesPerTurn : Z; MaxConsecutiveCancels : Z }.

Definition ExpectedSlices (trades maxMatchesPerTurn : Z) : Z :=
  if (maxMatchesPerTurn <=? 0) || (trades <=? maxMatchesPerTurn) then 1
  else let slices := Z.quot trades maxMatchesPerTurn in
       if negb (Z.rem trades maxMatchesPerTurn =? 0) then slices + 1 else slices.

Definition ExpectedYields (trades maxMatchesPerTurn : Z) : Z :=
  ExpectedSlices trades maxMatchesPerTurn - 1.

Inductive quantum_err :=
| ErrMaxMatches (got : Z)
| ErrMaxCancels (got : Z)
| ErrCapacityTooSmall (capacity : Z)
| ErrNoRoomForSlice (cancels capacity : Z)
| ErrSliceExceedsCapacity (matches available : Z).

Definition Validate (c : QuantumConfig) : result quantum_err unit :=
  if MaxMatchesPerTurn c <? 1 then Err (ErrMaxMatches (MaxMatchesPerTurn c))
  else if MaxConsecutiveCancels c <? 1 then Err (ErrMaxCancels (MaxConsecutiveCancels c))
  else Ok tt.

Definition validateExecutionCapacity (executionCapacity maxMatchesPerTurn maxConsecutiveCancels : Z)
  : result quantum_err unit :=
  if executionCapacity <? 2 then Err (ErrCapacityTooSmall executionCapacity)
  else if wrap64 (executionCapacity - 2) <? maxConsecutiveCancels
       then Err (ErrNoRoomForSlice maxConsecutiveCancels executionCapacity)
  else let available := wrap64 (wrap64 (executionCapacity - 1) - maxConsecutiveCancels) in
       if available <? maxMatchesPerTurn then Err (ErrSliceExceedsCapacity maxMatchesPerTurn available)
       else Ok tt.

(** The check the comment of [validateExecutionCapacity] rules out: adding the
    two limits first. *)
Definition naive_capacity_check (executionCapacity maxMatchesPerTurn maxConsecutiveCancels : Z) : bool :=
  wrap64 (wrap64 (maxMatchesPerTurn + 1) + maxConsecutiveCancels) <=? executionCapacity.

Lemma validateExecutionCapacity_spec capacity c : int64 capacity ->
  int64 (MaxMatchesPerTurn c) -> int64 (MaxConsecutiveCancels c) -> Validate c = Ok tt ->
  validateExecutionCapacity capacity (MaxMatchesPerTurn c) (MaxConsecutiveCancels c) = Ok tt <->
  MaxMatchesPerTurn c + 1 + MaxConsecutiveCancels c <= capacity.
Proof.
  destruct c as [m k]. cbn. unfold Validate, validateExecutionCapacity, int64. cbn.
  intros Hc Hm Hk HV. inv_ok HV. bool_to_prop.
  destruct (capacity <? 2) eqn:E1; bool_to_prop; [split; [done|lia]|].
  rewrite (wrap64_id (capacity - 2)), (wrap64_id (capacity - 1)) by (unfold int64; lia).
  destruct (capacity - 2 <? k) eqn:E2; bool_to_prop; [split; [done|lia]|].
  rewrite wrap64_id by (unfold int64; lia).
  destruct (capacity - 1 - k <? m) eqn:E3; bool_to_prop; split; (done || lia).
Qed.

Lemma Validate_Ok c : Validate c = Ok tt -> 1 <= MaxMatchesPerTurn c /\ 1 <= MaxConsecutiveCancels c.
Proof. unfold Validate. intros H. inv_ok H. bool_to_prop. lia. Qed.

(** For quantum values accepted by [Validate], the capacity check accepts
    exactly the channels that hold a whole slice, its completion event and the
    reserved cancellations, with no wrap-around for any 64-bit values; a check
    that adds the two limits first would accept a quantum no channel holds. *)
Theorem validateExecutionCapacity_iff capacity c : int64 capacity ->
  int64 (MaxMatchesPerTurn c) -> int64 (MaxConsecutiveCancels c) -> Validate c = Ok tt ->
  (validateExecutionCapacity capacity (MaxMatchesPerTurn c) (MaxConsecutiveCancels c) = Ok tt <->
   MaxMatchesPerTurn c + 1 + MaxConsecutiveCancels c <= capacity) /\
  exists m k, Validate (mkQuantum m k) = Ok tt /\ int64 m /\ int64 k /\
    naive_capacity_check 1024 m k = true /\ validateExecutionCapacity 1024 m k <> Ok tt.
Proof.
  intros H1 H2 H3 H4. split; [by apply validateExecutionCapacity_spec|].
  exists (2 ^ 63 - 2), 8. repeat split; cbn; try lia; done.
Qed.

Lemma validateExecutionCapacity_witness :
  validateExecutionCapacity 1024 128 8 = Ok tt <-> 128 + 1 + 8 <= 1024.
Proof.
  apply (validateExecutionCapacity_iff 1024 (mkQuantum 128 8)); unfold int64; cbn; try lia; reflexivity.
Defined.

(** [ExpectedSlices] is the number of non-empty runs of at most
    [maxMatchesPerTurn] trades: the ceiling of the quotient, 1 when unlimited. *)
Lemma ExpectedSlices_ceiling trades m : 0 < m -> 0 < trades ->
  let n := ExpectedSlices trades m in (n - 1) * m < trades <= n * m.
Proof.
  intros Hm Ht. unfold ExpectedSlices.
  rewrite (proj2 (Z.leb_gt m 0)) by lia. cbn [orb].
  destruct (trades <=? m) eqn:E; bool_to_prop; [cbn zeta; lia|].
  pose proof (Z.quot_rem' trades m). pose proof (Z.rem_bound_pos trades m ltac:(lia) ltac:(lia)).
  cbn zeta. destruct (Z.rem trades m =? 0) eqn:E2; cbn [negb]; bool_to_prop; nia.
Qed.
