(* ===== verification/Matching.v ===== *)
(** * Sweeps: the match loops and the events they emit (internal/matching/engine.go)

    An incoming order sweeps the opposite side of its book.  Each iteration
    finds a resting order, computes the quantity traded, updates both orders
    and emits a trade.  The computation of an iteration ([...Fill]) is kept
    apart from the emission, which the four loops share, so that what a sweep
    trades can be stated independently of the channel it is reported on. *)
From S2P Require Import Prelude Decimal Containers Model OrderBook.
From Stdlib Require Import Lia.

(** ** Outcomes: a Go call may return, panic or block; [OutOfFuel] is ours *)

Inductive outcome (A : Type) : Type :=
| Ret (a : A)
| Panicked
| Blocked
| OutOfFuel.
Arguments Ret {A} a. Arguments Panicked {A}. Arguments Blocked {A}. Arguments OutOfFuel {A}.

#[export] Instance outcome_bind : MBind outcome := fun A B f m =>
  match m with Ret a => f a | Panicked => Panicked | Blocked => Blocked | OutOfFuel => OutOfFuel end.
#[export] Instance outcome_ret : MRet outcome := fun A a => Ret a.

(** ** Buffered channels *)

Record chan (A : Type) := mkChan { ch_buf : list A; ch_cap : Z }.
Arguments mkChan {A}. Arguments ch_buf {A}. Arguments ch_cap {A}.

Definition ch_len {A} (c : chan A) : Z := Z.of_nat (length (ch_buf c)).
Definition make_chan {A} (cap : Z) : chan A := mkChan [] cap.
(** A send that is ready: there is room in the buffer. *)
Definition ch_send {A} (c : chan A) (x : A) : option (chan A) :=
  if ch_len c <? ch_cap c then Some (mkChan (ch_buf c ++ [x]) (ch_cap c)) else None.
Definition ch_recv {A} (c : chan A) : option (A * chan A) :=
  match ch_buf c with [] => None | x :: l => Some (x, mkChan l (ch_cap c)) end.
(** [select { case c <- x: default: }] *)
Definition ch_offer {A} (c : chan A) (x : A) : chan A := default c (ch_send c x).

Inductive EmitKind := EmitTrade | EmitMarketDone | EmitCancelled.

(** Calls of the [EngineObservers] callbacks and of [MatchLatencyObserver];
    their durations are readings of the clock and are left out. *)
Inductive observation :=
| ObsTurn | ObsSlice (trades : Z) | ObsOrderAdmitted | ObsOrderDone (trades : Z) | ObsCancel
| ObsEmitBlock (kind : EmitKind) | ObsYield | ObsParkStarted | ObsParkDuration
| ObsCancelBackpressured | ObsShutdownLatched | ObsMatchLatency.

Section Matching.
Context {DL : DecimalLib} {CL : ContainerLib}.

(** ** Events *)

Record MarketOrderDone := mkDone {
  d_OrderID : N; d_CoinSymbol : string; d_Side : OrderSide;
  d_FilledAmount : decimal; d_FilledQuoteAmount : decimal;
  d_RemainingAmount : decimal; d_RemainingQuoteAmount : decimal
}.

Record OrderCancelled := mkCancelled {
  c_CommandID : N; c_OrderID : N; c_CoinSymbol : string; c_Side : OrderSide;
  c_EngineEventID : string
}.

Inductive ExecutionEvent :=
| EvTrade (t : Trade)
| EvMarketOrderDone (d : MarketOrderDone)
| EvOrderCancelled (c : OrderCancelled).

(** ** The part of the engine an emission touches *)

Record emitter := mkEmitter {
  engineID : string;
  freshID : string;                        (* what newEngineID() would return *)
  tradeSeq : Z;
  now : Z;                                 (* what time.Now() returns *)
  TradeCh : chan Trade;
  ExecutionCh : option (chan ExecutionEvent);  (* None: a nil channel *)
  reservationActive : bool;
  reservationRemaining : Z;
  observed : list observation
}.

Definition with_exec (es : emitter) (c : chan ExecutionEvent) (remaining : Z) (o : observation) : emitter :=
  mkEmitter (engineID es) (freshID es) (tradeSeq es) (now es) (TradeCh es) (Some c)
    (reservationActive es) remaining (observed es ++ [o]).
Definition with_tradeCh (es : emitter) (c : chan Trade) : emitter :=
  mkEmitter (engineID es) (freshID es) (tradeSeq es) (now es) c (ExecutionCh es)
    (reservationActive es) (reservationRemaining es) (observed es).
Definition with_reservation (es : emitter) (active : bool) (remaining : Z) : emitter :=
  mkEmitter (engineID es) (freshID es) (tradeSeq es) (now es) (TradeCh es) (ExecutionCh es)
    active remaining (observed es).
Definition with_seq (es : emitter) (id : string) (seq : Z) : emitter :=
  mkEmitter id (freshID es) seq (now es) (TradeCh es) (ExecutionCh es)
    (reservationActive es) (reservationRemaining es) (observed es).
Definition observe (es : emitter) (o : observation) : emitter :=
  mkEmitter (engineID es) (freshID es) (tradeSeq es) (now es) (TradeCh es) (ExecutionCh es)
    (reservationActive es) (reservationRemaining es) (observed es ++ [o]).

Definition beginReservation (budget : Z) (es : emitter) : emitter := with_reservation es true budget.
Definition endReservation (es : emitter) : emitter := with_reservation es false 0.

Definition sendExecution (kind : EmitKind) (event : ExecutionEvent) (es : emitter) : outcome emitter :=
  if reservationActive es then
    if reservationRemaining es <=? 0 then Panicked
    else match c ← ExecutionCh es; ch_send c event with
         | Some c => Ret (with_exec es c (reservationRemaining es - 1) (ObsEmitBlock kind))
         | None => Panicked
         end
  else match c ← ExecutionCh es; ch_send c event with
       | Some c => Ret (with_exec es c (reservationRemaining es) (ObsEmitBlock kind))
       | None => Blocked
       end.

Definition event_id (id : string) (seq : Z) : string := (id +:+ "-" +:+ pretty seq)%string.

Definition nextTradeEvent (es : emitter) : Z * string * emitter :=
  let id := if String.eqb (engineID es) "" then freshID es else engineID es in
  let seq := tradeSeq es + 1 in
  (seq, event_id id seq, with_seq es id seq).

Definition newTrade (coinSymbol : string) (price quantity : decimal) (buyOrderID sellOrderID : N)
  (es : emitter) : Trade * emitter :=
  let '(sequence, eventID, es) := nextTradeEvent es in
  (mkTrade 0 "" sequence eventID coinSymbol price quantity Zero Zero "" Zero "" (now es)
     buyOrderID sellOrderID, es).

Definition emitTrade (trade : Trade) (es : emitter) : outcome emitter :=
  let es := with_tradeCh es (ch_offer (TradeCh es) trade) in
  match ExecutionCh es with
  | Some _ => sendExecution EmitTrade (EvTrade trade) es
  | None => Ret es
  end.

Definition emitMarketOrderDone (order : Order) (es : emitter) : outcome emitter :=
  match ExecutionCh es with
  | None => Ret es
  | Some _ => sendExecution EmitMarketDone
      (EvMarketOrderDone (mkDone (o_ID order) (o_CoinSymbol order) (o_Side order)
         (o_FilledAmount order) (o_FilledQuoteAmount order) (o_Amount order) (o_QuoteAmount order))) es
  end.

(** ** One iteration of each loop *)

(** What an iteration decided: nothing more to trade, or one trade with the
    book and the incoming order after it. *)
Record fill := mkFill {
  f_price : decimal; f_quantity : decimal; f_buyID : N; f_sellID : N;
  f_book : OrderBook; f_order : Order
}.

(** The amounts of a resting order after [qty] of it traded. *)
Definition take_from (resting : Order) (qty : decimal) : Order :=
  with_fill resting (Sub (o_Amount resting) qty) (Add (o_FilledAmount resting) qty).

Definition matchBuyFill (book : OrderBook) (order : Order) : outcome (option fill) :=
  match bestMatchableSellOrder book order with
  | None => Ret None
  | Some (sellLevel, orderIndex) =>
      match dqAt (pl_Orders sellLevel) orderIndex with
      | None => Panicked
      | Some sellOrder =>
          let tradeQty := Min (o_Amount order) (o_Amount sellOrder) in
          if negb (GreaterThan tradeQty Zero) then Ret None
          else
            let order' := with_fill order (Sub (o_Amount order) tradeQty)
                            (Add (o_FilledAmount order) tradeQty) in
            let book' := put_sell book sellLevel orderIndex (take_from sellOrder tradeQty) in
            Ret (Some (mkFill (pl_Price sellLevel) tradeQty (o_ID order) (o_ID sellOrder) book' order'))
      end
  end.

Definition matchSellFill (book : OrderBook) (order : Order) : outcome (option fill) :=
  match bestMatchableBuyOrder book order with
  | None => Ret None
  | Some (buyLevel, orderIndex) =>
      match dqAt (pl_Orders buyLevel) orderIndex with
      | None => Panicked
      | Some buyOrder =>
          let tradeQty := Min (o_Amount order) (o_Amount buyOrder) in
          if negb (GreaterThan tradeQty Zero) then Ret None
          else
            let order' := with_fill order (Sub (o_Amount order) tradeQty)
                            (Add (o_FilledAmount order) tradeQty) in
            let book' := put_buy book buyLevel orderIndex (take_from buyOrder tradeQty) in
            Ret (Some (mkFill (pl_Price buyLevel) tradeQty (o_ID buyOrder) (o_ID order) book' order'))
      end
  end.

Definition matchMarketBuyFill (book : OrderBook) (order : Order) : outcome (option fill) :=
  match bestMarketSellOrder book order with
  | None => Ret None
  | Some (sellLevel, orderIndex) =>
      match dqAt (pl_Orders sellLevel) orderIndex with
      | None => Panicked
      | Some sellOrder =>
          match QuoRem (o_QuoteAmount order) (pl_Price sellLevel) DivisionPrecision with
          | None => Panicked
          | Some (maxQtyByQuote, _) =>
              let tradeQty := Min maxQtyByQuote (o_Amount sellOrder) in
              if negb (GreaterThan tradeQty Zero) then Ret None
              else
                let executionQuote := Mul (pl_Price sellLevel) tradeQty in
                let order' := with_fill
                    (with_quote order (Sub (o_QuoteAmount order) executionQuote)
                       (Add (o_FilledQuoteAmount order) executionQuote))
                    (o_Amount order) (Add (o_FilledAmount order) tradeQty) in
                let book' := put_sell book sellLevel orderIndex (take_from sellOrder tradeQty) in
                Ret (Some (mkFill (pl_Price sellLevel) tradeQty (o_ID order) (o_ID sellOrder) book' order'))
          end
      end
  end.

Definition matchMarketSellFill (book : OrderBook) (order : Order) : outcome (option fill) :=
  match bestMarketBuyOrder book order with
  | None => Ret None
  | Some (buyLevel, orderIndex) =>
      match dqAt (pl_Orders buyLevel) orderIndex with
      | None => Panicked
      | Some buyOrder =>
          let tradeQty := Min (o_Amount order) (o_Amount buyOrder) in
          if negb (GreaterThan tradeQty Zero) then Ret None
          else
            let executionQuote := Mul (pl_Price buyLevel) tradeQty in
            let order' := with_fill
                (with_quote order (o_QuoteAmount order) (Add (o_FilledQuoteAmount order) executionQuote))
                (Sub (o_Amount order) tradeQty) (Add (o_FilledAmount order) tradeQty) in
            let book' := put_buy book buyLevel orderIndex (take_from buyOrder tradeQty) in
            Ret (Some (mkFill (pl_Price buyLevel) tradeQty (o_ID buyOrder) (o_ID order) book' order'))
      end
  end.

(** ** The loop the four functions share *)

Record sweep := mkSweep { sw_book : OrderBook; sw_order : Order; sw_es : emitter }.

Fixpoint match_loop (live : Order -> bool) (next : OrderBook -> Order -> outcome (option fill))
  (budget : Z) (fuel : nat) (trades : Z) (s : sweep) : outcome (Z * bool * sweep) :=
  if negb (live (sw_order s)) then Ret (trades, true, s)
  else if (0 <? budget) && (budget <=? trades) then Ret (trades, false, s)
  else match fuel with
  | O => OutOfFuel
  | S fuel' =>
      f ← next (sw_book s) (sw_order s);
      match f with
      | None => Ret (trades, true, s)
      | Some f =>
          let '(trade, es) := newTrade (o_CoinSymbol (sw_order s)) (f_price f) (f_quantity f)
                                (f_buyID f) (f_sellID f) (sw_es s) in
          es ← emitTrade trade es;
          match_loop live next budget fuel' (trades + 1) (mkSweep (f_book f) (f_order f) es)
      end
  end.

(** Enough iterations for any sweep of the book: one per resting order, plus
    the one that finds nothing. *)
Definition book_size (b : OrderBook) : nat :=
  let count := fun acc l => (acc + Z.to_nat (dqLen (pl_Orders l)))%nat in
  (foldl count O (btAscend (SellOrders b)) + foldl count O (btDescend (BuyOrders b)))%nat.
Definition sweep_fuel (b : OrderBook) : nat := S (S (book_size b)).

Definition base_live (o : Order) : bool := GreaterThan (o_Amount o) Zero.
Definition quote_live (o : Order) : bool := GreaterThan (o_QuoteAmount o) Zero.

Definition matchBuy (budget : Z) (s : sweep) :=
  match_loop base_live matchBuyFill budget (sweep_fuel (sw_book s)) 0 s.
Definition matchSell (budget : Z) (s : sweep) :=
  match_loop base_live matchSellFill budget (sweep_fuel (sw_book s)) 0 s.
Definition matchMarketBuy (budget : Z) (s : sweep) :=
  match_loop quote_live matchMarketBuyFill budget (sweep_fuel (sw_book s)) 0 s.
Definition matchMarketSell (budget : Z) (s : sweep) :=
  match_loop base_live matchMarketSellFill budget (sweep_fuel (sw_book s)) 0 s.

Definition matchSlice (budget : Z) (s : sweep) : outcome (Z * bool * sweep) :=
  match o_Side (sw_order s) with
  | OrderSideBuy =>
      if bool_decide (o_OrderType (sw_order s) = OrderTypeMarket) then matchMarketBuy budget s
      else matchBuy budget s
  | OrderSideSell =>
      if bool_decide (o_OrderType (sw_order s) = OrderTypeMarket) then matchMarketSell budget s
      else matchSell budget s
  | OrderSideOther _ => Ret (0, true, s)
  end.

(** ** The reference: what a sweep trades, with no channel *)

Record run := mkRun { run_fills : list fill; run_done : bool; run_book : OrderBook; run_order : Order }.

Fixpoint pure_loop (live : Order -> bool) (next : OrderBook -> Order -> outcome (option fill))
  (budget : option nat) (fuel : nat) (book : OrderBook) (order : Order) : option run :=
  if negb (live order) then Some (mkRun [] true book order)
  else match budget with
  | Some O => Some (mkRun [] false book order)
  | _ =>
    match fuel with
    | O => None
    | S fuel' =>
        match next book order with
        | Ret None => Some (mkRun [] true book order)
        | Ret (Some f) =>
            r ← pure_loop live next (pred <$> budget) fuel' (f_book f) (f_order f);
            Some (mkRun (f :: run_fills r) (run_done r) (run_book r) (run_order r))
        | _ => None
        end
    end
  end.
End Matching.

(** ** What one iteration does *)

Section Fills.
Context {DL : DecimalLib} {CL : ContainerLib} {DLaws : DecimalLaws DL} {CLaws : ContainerLaws CL}.

(** [f] trades with [x], the first order of [queue] that is not the taker's
    own, at [x]'s price, for a positive quantity [x] still has; the rest of
    the book is untouched. *)
Definition trades_with (queue other : OrderBook -> list Order) (book : OrderBook) (order : Order)
  (f : fill) (x : Order) : Prop :=
  isSelfTrade order x = false /\
  (dval (f_price f) == dval (o_Price x))%Q /\
  (0 < dval (f_quantity f) <= dval (o_Amount x))%Q /\
  book_ok (f_book f) /\ other (f_book f) = other book /\
  exists l1 l2, queue book = l1 ++ x :: l2 /\ Forall (fun y => isSelfTrade order y = true) l1 /\
    queue (f_book f) = l1 ++ keep (take_from x (f_quantity f)) ++ l2.

Lemma trades_with_intro queue other book order f x lv i put :
  found book order put queue other lv i x ->
  (dval (f_price f) == dval (pl_Price lv))%Q ->
  (0 < dval (f_quantity f) <= dval (o_Amount x))%Q ->
  f_book f = put (take_from x (f_quantity f)) ->
  trades_with queue other book order f x.
Proof.
  intros (_ & Hp & _ & Hx & l1 & l2 & HQ & HF & Hput) Hfp Hq Hb.
  destruct (Hput (take_from x (f_quantity f)) eq_refl eq_refl) as (Hok & HQ' & HO).
  rewrite <- Hb in *. repeat (split; [done || lra|]). exists l1, l2. done.
Qed.

(** The taker after the trade, in terms of quantities. *)
Definition base_taken (order : Order) (f : fill) : Prop :=
  (dval (o_Amount (f_order f)) == dval (o_Amount order) - dval (f_quantity f))%Q /\
  (dval (o_FilledAmount (f_order f)) == dval (o_FilledAmount order) + dval (f_quantity f))%Q.
Definition same_terms (a b : Order) : Prop :=
  o_ID a = o_ID b /\ o_UserID a = o_UserID b /\ o_CoinSymbol a = o_CoinSymbol b /\
  o_Side a = o_Side b /\ o_OrderType a = o_OrderType b /\ o_Price a = o_Price b /\
  o_EnqueuedAt a = o_EnqueuedAt b.

Lemma matchBuyFill_Some b o f : book_ok b -> matchBuyFill b o = Ret (Some f) ->
  exists x, trades_with asks bids b o f x /\ (dval (f_price f) <= dval (o_Price o))%Q /\
    f_buyID f = o_ID o /\ f_sellID f = o_ID x /\ base_taken o f /\ same_terms (f_order f) o /\
    f_quantity f = Min (o_Amount o) (o_Amount x) /\
    o_QuoteAmount (f_order f) = o_QuoteAmount o.
Proof.
  intros Hok H. unfold matchBuyFill in H.
  destruct (bestMatchableSellOrder b o) as [[lv i]|] eqn:ES; [|done].
  destruct (search_sell_Some _ _ _ _ _ Hok ES) as (Hstop & x & Hf).
  pose proof Hf as (Hat & Hp & Ha & _). rewrite Hat in H.
  destruct (negb _) eqn:EQ in H; [done|]. injection H as <-. apply negb_false_iff in EQ.
  exists x. split; [|repeat split; cbn; dval_norm; dec_prop; lra].
  eapply trades_with_intro; [exact Hf | cbn; lra | | done].
  cbn. dec_prop. dval_norm. destruct (Min_cases (o_Amount o) (o_Amount x)) as [[E ?]|[E ?]]; rewrite E in *; lra.
Qed.

Lemma matchSellFill_Some b o f : book_ok b -> matchSellFill b o = Ret (Some f) ->
  exists x, trades_with bids asks b o f x /\ (dval (o_Price o) <= dval (f_price f))%Q /\
    f_buyID f = o_ID x /\ f_sellID f = o_ID o /\ base_taken o f /\ same_terms (f_order f) o /\
    f_quantity f = Min (o_Amount o) (o_Amount x) /\
    o_QuoteAmount (f_order f) = o_QuoteAmount o.
Proof.
  intros Hok H. unfold matchSellFill in H.
  destruct (bestMatchableBuyOrder b o) as [[lv i]|] eqn:ES; [|done].
  destruct (search_buy_Some _ _ _ _ _ Hok ES) as (Hstop & x & Hf).
  pose proof Hf as (Hat & Hp & Ha & _). rewrite Hat in H.
  destruct (negb _) eqn:EQ in H; [done|]. injection H as <-. apply negb_false_iff in EQ.
  exists x. split; [|repeat split; cbn; dval_norm; dec_prop; lra].
  eapply trades_with_intro; [exact Hf | cbn; lra | | done].
  cbn. dec_prop. dval_norm. destruct (Min_cases (o_Amount o) (o_Amount x)) as [[E ?]|[E ?]]; rewrite E in *; lra.
Qed.

Lemma matchMarketSellFill_Some b o f : book_ok b -> matchMarketSellFill b o = Ret (Some f) ->
  exists x, trades_with bids asks b o f x /\
    f_buyID f = o_ID x /\ f_sellID f = o_ID o /\ base_taken o f /\ same_terms (f_order f) o /\
    f_quantity f = Min (o_Amount o) (o_Amount x) /\
    (dval (o_FilledQuoteAmount (f_order f)) ==
     dval (o_FilledQuoteAmount o) + dval (f_price f) * dval (f_quantity f))%Q.
Proof.
  intros Hok H. unfold matchMarketSellFill in H.
  destruct (bestMarketBuyOrder b o) as [[lv i]|] eqn:ES; [|done].
  destruct (search_buy_Some _ _ _ _ _ Hok ES) as (_ & x & Hf).
  pose proof Hf as (Hat & Hp & Ha & _). rewrite Hat in H.
  destruct (negb _) eqn:EQ in H; [done|]. injection H as <-. apply negb_false_iff in EQ.
  exists x. split; [|repeat split; cbn; dval_norm; dec_prop; lra].
  eapply trades_with_intro; [exact Hf | cbn; lra | | done].
  cbn. dec_prop. dval_norm. destruct (Min_cases (o_Amount o) (o_Amount x)) as [[E ?]|[E ?]]; rewrite E in *; lra.
Qed.

(** A market buy pays for what it takes out of its quote budget, and never
    more than it has. *)
Lemma matchMarketBuyFill_Some b o f : book_ok b -> matchMarketBuyFill b o = Ret (Some f) ->
  exists x, trades_with asks bids b o f x /\
    f_buyID f = o_ID o /\ f_sellID f = o_ID x /\ same_terms (f_order f) o /\
    (dval (o_QuoteAmount (f_order f)) == dval (o_QuoteAmount o) - dval (f_price f) * dval (f_quantity f))%Q /\
    (dval (o_FilledQuoteAmount (f_order f)) ==
     dval (o_FilledQuoteAmount o) + dval (f_price f) * dval (f_quantity f))%Q /\
    (dval (o_FilledAmount (f_order f)) == dval (o_FilledAmount o) + dval (f_quantity f))%Q /\
    exists q r, QuoRem (o_QuoteAmount o) (f_price f) DivisionPrecision = Some (q, r) /\
      f_quantity f = Min q (o_Amount x).
Proof.
  intros Hok H. unfold matchMarketBuyFill in H.
  destruct (bestMarketSellOrder b o) as [[lv i]|] eqn:ES; [|done].
  destruct (search_sell_Some _ _ _ _ _ Hok ES) as (_ & x & Hf).
  pose proof Hf as (Hat & Hp & Ha & _). rewrite Hat in H.
  destruct (QuoRem _ _ _) as [[q r]|] eqn:EQR in H; [|done].
  destruct (negb _) eqn:EQ in H; [done|]. injection H as <-. apply negb_false_iff in EQ.
  exists x. split; [|repeat split; cbn; dval_norm; dec_prop; try lra; by exists q, r].
  eapply trades_with_intro; [exact Hf | cbn; lra | | done].
  cbn. dec_prop. dval_norm. destruct (Min_cases q (o_Amount x)) as [[E ?]|[E ?]]; rewrite E in *; lra.
Qed.

(** *** Progress: an iteration uses up the order it trades with, or there is
    nothing left for the next one to do *)

Lemma trades_with_length queue other b o f x : trades_with queue other b o f x ->
  (length (queue (f_book f)) < length (queue b))%nat /\ (dval (o_Amount x) <= dval (f_quantity f))%Q \/
  (length (queue (f_book f)) = length (queue b))%nat /\ (dval (f_quantity f) < dval (o_Amount x))%Q.
Proof.
  intros (_ & _ & Hq & _ & _ & l1 & l2 & HQ & _ & HQ'). rewrite HQ, HQ'. unfold keep, take_from. cbn.
  rewrite !length_app. destruct (GreaterThan _ _) eqn:E; [right | left]; dec_prop; dval_norm; cbn;
    split; lia || lra.
Qed.

Lemma base_fill_stops b o : book_ok b -> (dval (o_Amount o) <= 0)%Q ->
  matchBuyFill b o = Ret None /\ matchSellFill b o = Ret None /\ matchMarketSellFill b o = Ret None.
Proof.
  intros Hok Ha.
  assert (Hmin : forall x, negb (GreaterThan (Min (o_Amount o) (o_Amount x)) Zero) = true).
  { intros x. apply negb_true_iff, GreaterThan_false. dval_norm.
    destruct (Min_cases (o_Amount o) (o_Amount x)) as [[-> ?]|[-> ?]]; lra. }
  unfold matchBuyFill, matchSellFill, matchMarketSellFill. repeat split.
  - destruct (bestMatchableSellOrder b o) as [[lv i]|] eqn:E; [|done].
    destruct (search_sell_Some _ _ _ _ _ Hok E) as (_ & x & Hat & _). by rewrite Hat, Hmin.
  - destruct (bestMatchableBuyOrder b o) as [[lv i]|] eqn:E; [|done].
    destruct (search_buy_Some _ _ _ _ _ Hok E) as (_ & x & Hat & _). by rewrite Hat, Hmin.
  - destruct (bestMarketBuyOrder b o) as [[lv i]|] eqn:E; [|done].
    destruct (search_buy_Some _ _ _ _ _ Hok E) as (_ & x & Hat & _). by rewrite Hat, Hmin.
Qed.

Lemma first_other_unique (P : Order -> bool) l1 x l2 k1 y k2 : l1 ++ x :: l2 = k1 ++ y :: k2 ->
  Forall (fun z => P z = true) l1 -> Forall (fun z => P z = true) k1 -> P x = false -> P y = false ->
  l1 = k1 /\ x = y /\ l2 = k2.
Proof.
  revert k1. induction l1 as [|z l1 IH]; intros [|w k1] H H1 H2 Hx Hy; cbn in H;
    injection H as -> H.
  - done.
  - apply Forall_cons in H2 as [H2 _]. congruence.
  - apply Forall_cons in H1 as [H1 _]. congruence.
  - apply Forall_cons in H1 as [_ H1]. apply Forall_cons in H2 as [_ H2].
    destruct (IH k1 H H1 H2 Hx Hy) as (-> & -> & ->). done.
Qed.

(** The quote left after buying all that the budget affords does not buy
    another unit of the last place. *)
Lemma quote_exhausted (quote price q r quote' price' q' r' : decimal) :
  (0 <= dval quote)%Q -> (0 < dval price)%Q -> (dval price' == dval price)%Q ->
  QuoRem quote price DivisionPrecision = Some (q, r) ->
  (dval quote' == dval quote - dval price * dval q)%Q ->
  QuoRem quote' price' DivisionPrecision = Some (q', r') -> (dval q' <= 0)%Q.
Proof.
  intros Hq Hp Hp' E Hq' E'.
  assert (Hn : (~ dval price == 0)%Q) by lra. assert (Hn' : (~ dval price' == 0)%Q) by lra.
  destruct (QuoRem_dval quote price DivisionPrecision Hn ltac:(done)) as (q0 & r0 & k0 & E0 & Hk0 & HE0 & Hr0).
  rewrite E in E0. injection E0 as <- <-. destruct (Hr0 Hq) as [Hr0a Hr0b].
  destruct (QuoRem_dval quote' price' DivisionPrecision Hn' ltac:(done)) as (q1 & r1 & k1 & E1 & Hk1 & HE1 & Hr1).
  rewrite E' in E1. injection E1 as <- <-.
  set (u := ulp DivisionPrecision) in *. assert (Hu : (0 < u)%Q) by apply ulp_pos.
  rewrite Qabs_pos in Hr0b by lra.
  assert (Hquote' : (0 <= dval quote')%Q) by lra. destruct (Hr1 Hquote') as [Hr1a _].
  assert (Hle : (dval price * dval q' < dval price * u)%Q).
  { assert (dval price' * dval q' == dval price * dval q')%Q by (rewrite Hp'; lra). lra. }
  apply Qmult_lt_l in Hle; [|done]. rewrite Hk1 in Hle.
  destruct (Z_lt_le_dec 0 k1) as [Hk|Hk].
  - exfalso. assert (1 <= inject_Z k1)%Q by (replace 1%Q with (inject_Z 1) by done; rewrite <- Zle_Qle; lia).
    assert (1 * u <= inject_Z k1 * u)%Q by (apply Qmult_le_compat_r; lra). lra.
  - rewrite Hk1. assert (inject_Z k1 <= 0)%Q by (replace 0%Q with (inject_Z 0) by done; rewrite <- Zle_Qle; lia).
    assert (inject_Z k1 * u <= 0 * u)%Q by (apply Qmult_le_compat_r; lra). lra.
Qed.

Definition prices_pos (l : list Order) : Prop := Forall (fun o => 0 < dval (o_Price o))%Q l.

Lemma isSelfTrade_taker a b y : same_terms a b -> isSelfTrade a y = isSelfTrade b y.
Proof. intros (_ & H & _). unfold isSelfTrade. by rewrite H. Qed.

Lemma market_buy_progress b o f : book_ok b -> prices_pos (asks b) -> (0 <= dval (o_QuoteAmount o))%Q ->
  matchMarketBuyFill b o = Ret (Some f) ->
  (length (asks (f_book f)) < length (asks b))%nat \/
  (length (asks (f_book f)) = length (asks b) /\ matchMarketBuyFill (f_book f) (f_order f) = Ret None).
Proof.
  intros Hok Hpos Hq H.
  destruct (matchMarketBuyFill_Some _ _ _ Hok H)
    as (x & HT & _ & _ & Hterms & Hquote & _ & _ & q & r & EQR & Hqty).
  destruct (trades_with_length _ _ _ _ _ _ HT) as [[? ?]|[Hlen Hlt]]; [by left|]. right. split; [done|].
  pose proof HT as (Hx & Hfp & Hfq & Hok' & _ & l1 & l2 & HQ & HF & HQ').
  assert (Hf : f_quantity f = q).
  { destruct (Min_cases q (o_Amount x)) as [[E ?]|[E ?]]; rewrite E in *; [done|]. rewrite Hqty in Hlt. lra. }
  assert (Hk : keep (take_from x (f_quantity f)) = [take_from x (f_quantity f)]).
  { unfold keep, take_from. cbn. rewrite (proj2 (GreaterThan_true _ _)); [done|]. dval_norm. lra. }
  rewrite Hk in HQ'. cbn [app] in HQ'.
  assert (Hpx : (0 < dval (o_Price x))%Q).
  { eapply Forall_forall in Hpos; [exact Hpos|]. rewrite HQ. set_solver. }
  unfold matchMarketBuyFill. destruct (bestMarketSellOrder _ _) as [[lv i]|] eqn:ES; [|done].
  destruct (search_sell_Some _ _ _ _ _ Hok' ES) as (_ & y & Hat & Hpy & _ & Hy & k1 & k2 & HQy & HFy & _).
  rewrite Hat, HQ' in *.
  destruct (first_other_unique (isSelfTrade o) l1 (take_from x (f_quantity f)) l2 k1 y k2) as (_ & <- & _).
  { by rewrite <- HQy. } { done. }
  { eapply Forall_impl; [exact HFy|]. intros z Hz. by rewrite <- (isSelfTrade_taker _ _ z Hterms). }
  { done. } { by rewrite <- (isSelfTrade_taker _ _ _ Hterms). }
  cbn in Hpy.
  assert (Hn : (~ dval (pl_Price lv) == 0)%Q) by lra.
  destruct (QuoRem_dval (o_QuoteAmount (f_order f)) (pl_Price lv) DivisionPrecision Hn ltac:(done))
    as (q' & r' & _ & EQ' & _). clear Hn. rewrite EQ'.
  assert (Hq' : (dval q' <= 0)%Q).
  { apply (quote_exhausted (o_QuoteAmount o) (f_price f) q r (o_QuoteAmount (f_order f))
             (pl_Price lv) q' r'); [done|lra|lra|done| |done].
    rewrite Hquote, Hf. lra. }
  set (z := take_from x (f_quantity f)).
  rewrite (proj2 (negb_true_iff _)); [done|]. apply GreaterThan_false. dval_norm.
  destruct (Min_cases q' (o_Amount z)) as [[-> ?]|[-> ?]]; lra.
Qed.
End Fills.

(** ** Sweeps: what the loops rely on in an iteration, as an interface

    The four loops differ in how an iteration computes its trade.  [SweepLaws]
    is what the loop theorems need of it; the four instances follow. *)

Class SweepLaws {DL : DecimalLib} {CL : ContainerLib} {DLaws : DecimalLaws DL} {CLaws : ContainerLaws CL}
  (live : Order -> bool) (next : OrderBook -> Order -> outcome (option fill))
  (queue other : OrderBook -> list Order) (inv : OrderBook -> Order -> Prop) : Prop := {
  sl_ok b o : inv b o -> book_ok b;
  sl_size b : (length (queue b) <= length (asks b) + length (bids b))%nat;
  sl_total b o : inv b o -> live o = true -> exists f, next b o = Ret f;
  sl_fill b o f : inv b o -> live o = true -> next b o = Ret (Some f) ->
    inv (f_book f) (f_order f) /\ same_terms (f_order f) o /\
    exists x, trades_with queue other b o f x /\
      (if bool_decide (o_Side o = OrderSideBuy) then f_buyID f = o_ID o /\ f_sellID f = o_ID x
       else f_buyID f = o_ID x /\ f_sellID f = o_ID o);
  sl_progress b o f : inv b o -> live o = true -> next b o = Ret (Some f) ->
    (length (queue (f_book f)) < length (queue b))%nat \/
    (length (queue (f_book f)) = length (queue b) /\ next (f_book f) (f_order f) = Ret None)
}.

Section Instances.
Context {DL : DecimalLib} {CL : ContainerLib} {DLaws : DecimalLaws DL} {CLaws : ContainerLaws CL}.

(** A side and order for each loop; a market buy also needs positive resting
    prices, since it divides by them. *)
Definition buy_inv (b : OrderBook) (o : Order) : Prop := book_ok b /\ o_Side o = OrderSideBuy.
Definition sell_inv (b : OrderBook) (o : Order) : Prop := book_ok b /\ o_Side o = OrderSideSell.
Definition market_buy_inv (b : OrderBook) (o : Order) : Prop :=
  book_ok b /\ o_Side o = OrderSideBuy /\ prices_pos (asks b) /\ (0 <= dval (o_QuoteAmount o))%Q.

Lemma base_progress queue other b o f x next :
  trades_with queue other b o f x -> f_quantity f = Min (o_Amount o) (o_Amount x) -> base_taken o f ->
  ((dval (o_Amount (f_order f)) <= 0)%Q -> next (f_book f) (f_order f) = Ret None) ->
  (length (queue (f_book f)) < length (queue b))%nat \/
  (length (queue (f_book f)) = length (queue b) /\ next (f_book f) (f_order f) = @Ret (option fill) None).
Proof.
  intros HT Hq [Ha _] Hn. destruct (trades_with_length _ _ _ _ _ _ HT) as [[? ?]|[? ?]]; [by left|].
  right. split; [done|]. apply Hn. rewrite Ha.
  destruct (Min_cases (o_Amount o) (o_Amount x)) as [[E ?]|[E ?]]; rewrite Hq, E in *; lra.
Qed.

Lemma quantity_bound queue other b o f x : trades_with queue other b o f x -> (0 < dval (f_quantity f))%Q.
Proof. intros (_ & _ & H & _). lra. Qed.

(** A price survives an update of the order's amounts. *)
Lemma prices_pos_fill b o f x : trades_with asks bids b o f x -> prices_pos (asks b) ->
  prices_pos (asks (f_book f)).
Proof.
  intros (_ & _ & _ & _ & _ & l1 & l2 & HQ & _ & HQ') H. rewrite HQ, HQ' in *. unfold prices_pos in *.
  rewrite Forall_app, Forall_cons in H. destruct H as (H1 & Hx & H2). rewrite !Forall_app.
  split; [done|]. split; [|done]. unfold keep. destruct (GreaterThan _ _); [|done]. by constructor.
Qed.

#[export] Instance buy_sweep : SweepLaws base_live matchBuyFill asks bids buy_inv.
Proof.
  split.
  - by intros b o [? _].
  - intros. lia.
  - intros b o [Hok _] _. unfold matchBuyFill. destruct (bestMatchableSellOrder b o) as [[lv i]|] eqn:E; [|eauto].
    destruct (search_sell_Some _ _ _ _ _ Hok E) as (_ & x & Hat & _). rewrite Hat. destruct (negb _); eauto.
  - intros b o f [Hok Hs] _ H. destruct (matchBuyFill_Some _ _ _ Hok H) as (x & HT & _ & Hb & Hse & _ & Ht & _).
    split; [|split; [done|]]. { split; [apply HT|]. destruct Ht as (_ & _ & _ & -> & _). done. }
    exists x. split; [done|]. by rewrite bool_decide_eq_true_2.
  - intros b o f [Hok Hs] _ H. destruct (matchBuyFill_Some _ _ _ Hok H) as (x & HT & _ & _ & _ & Hb & _ & Hq & _).
    eapply base_progress; [exact HT|done|done|]. intros Ha. by apply base_fill_stops; [apply HT|].
Qed.

#[export] Instance sell_sweep : SweepLaws base_live matchSellFill bids asks sell_inv.
Proof.
  split.
  - by intros b o [? _].
  - intros. lia.
  - intros b o [Hok _] _. unfold matchSellFill. destruct (bestMatchableBuyOrder b o) as [[lv i]|] eqn:E; [|eauto].
    destruct (search_buy_Some _ _ _ _ _ Hok E) as (_ & x & Hat & _). rewrite Hat. destruct (negb _); eauto.
  - intros b o f [Hok Hs] _ H. destruct (matchSellFill_Some _ _ _ Hok H) as (x & HT & _ & Hb & Hse & _ & Ht & _).
    split; [|split; [done|]]. { split; [apply HT|]. destruct Ht as (_ & _ & _ & -> & _). done. }
    exists x. split; [done|]. by rewrite bool_decide_eq_false_2 by (rewrite Hs; done).
  - intros b o f [Hok Hs] _ H. destruct (matchSellFill_Some _ _ _ Hok H) as (x & HT & _ & _ & _ & Hb & _ & Hq & _).
    eapply base_progress; [exact HT|done|done|]. intros Ha. by apply base_fill_stops; [apply HT|].
Qed.

#[export] Instance market_sell_sweep : SweepLaws base_live matchMarketSellFill bids asks sell_inv.
Proof.
  split.
  - by intros b o [? _].
  - intros. lia.
  - intros b o [Hok _] _. unfold matchMarketSellFill. destruct (bestMarketBuyOrder b o) as [[lv i]|] eqn:E; [|eauto].
    destruct (search_buy_Some _ _ _ _ _ Hok E) as (_ & x & Hat & _). rewrite Hat. destruct (negb _); eauto.
  - intros b o f [Hok Hs] _ H. destruct (matchMarketSellFill_Some _ _ _ Hok H) as (x & HT & Hb & Hse & _ & Ht & _).
    split; [|split; [done|]]. { split; [apply HT|]. destruct Ht as (_ & _ & _ & -> & _). done. }
    exists x. split; [done|]. by rewrite bool_decide_eq_false_2 by (rewrite Hs; done).
  - intros b o f [Hok Hs] _ H. destruct (matchMarketSellFill_Some _ _ _ Hok H) as (x & HT & _ & _ & Hb & _ & Hq & _).
    eapply base_progress; [exact HT|done|done|]. intros Ha. by apply base_fill_stops; [apply HT|].
Qed.

(** The budget stays non-negative: [QuoRem] rounds the quantity down. *)
Lemma market_buy_budget b o f : book_ok b -> prices_pos (asks b) -> (0 <= dval (o_QuoteAmount o))%Q ->
  matchMarketBuyFill b o = Ret (Some f) ->
  (dval (f_price f) * dval (f_quantity f) <= dval (o_QuoteAmount o))%Q.
Proof.
  intros Hok Hp Hq H.
  destruct (matchMarketBuyFill_Some _ _ _ Hok H) as (x & HT & _ & _ & _ & _ & _ & _ & q & r & E & Hqty).
  pose proof HT as (_ & Hfp & Hfq & _ & _ & l1 & l2 & HQ & _).
  assert (Hpx : (0 < dval (f_price f))%Q).
  { rewrite Hfp. eapply Forall_forall in Hp; [exact Hp|]. rewrite HQ. set_solver. }
  assert (Hn : (~ dval (f_price f) == 0)%Q) by lra.
  destruct (QuoRem_dval (o_QuoteAmount o) (f_price f) DivisionPrecision Hn ltac:(done))
    as (q0 & r0 & k & E0 & _ & Heq & Hr). clear Hn. rewrite E in E0. injection E0 as <- <-.
  destruct (Hr Hq) as [Hr0 _].
  assert (Hle : (dval (f_quantity f) <= dval q)%Q).
  { destruct (Min_cases q (o_Amount x)) as [[E1 ?]|[E1 ?]]; rewrite Hqty, E1; lra. }
  assert (dval (f_price f) * dval (f_quantity f) <= dval (f_price f) * dval q)%Q.
  { rewrite !(Qmult_comm (dval (f_price f))). apply Qmult_le_compat_r; lra. }
  lra.
Qed.

#[export] Instance market_buy_sweep : SweepLaws quote_live matchMarketBuyFill asks bids market_buy_inv.
Proof.
  split.
  - by intros b o [? _].
  - intros. lia.
  - intros b o (Hok & _ & Hp & _) _. unfold matchMarketBuyFill.
    destruct (bestMarketSellOrder b o) as [[lv i]|] eqn:E; [|eauto].
    destruct (search_sell_Some _ _ _ _ _ Hok E) as (_ & x & Hat & Hpl & _ & _ & l1 & l2 & HQ & _). rewrite Hat.
    assert (Hpx : (0 < dval (o_Price x))%Q).
    { eapply Forall_forall in Hp; [exact Hp|]. rewrite HQ. set_solver. }
    assert (Hn : (~ dval (pl_Price lv) == 0)%Q) by lra.
    destruct (QuoRem_dval (o_QuoteAmount o) (pl_Price lv) DivisionPrecision Hn ltac:(done)) as (q & r & _ & -> & _).
    destruct (negb _); eauto.
  - intros b o f (Hok & Hs & Hp & Hq) _ H.
    destruct (matchMarketBuyFill_Some _ _ _ Hok H) as (x & HT & Hb & Hse & Ht & Hqa & _).
    split; [|split; [done|]].
    { split; [apply HT|]. split; [by destruct Ht as (_ & _ & _ & -> & _)|].
      split; [by apply (prices_pos_fill b o f x)|]. rewrite Hqa. pose proof (market_buy_budget _ _ _ Hok Hp Hq H). lra. }
    exists x. split; [done|]. by rewrite bool_decide_eq_true_2.
  - intros b o f (Hok & Hs & Hp & Hq) _ H. by apply (market_buy_progress b o f).
Qed.
End Instances.
