(* ===== verification/Fixtures.v ===== *)
(** * Concrete instances and sample data for the witnesses

    The interfaces instantiated with the fixed-point decimals of [Decimal] and
    the list containers of [Containers], and a small book. *)
From S2P Require Import Prelude Decimal Containers Model OrderBook Matching.
From Stdlib Require Import Lia.
Export FixedPoint ListContainers.

Definition dec (n : Z) : decimal := NewFromInt n.

Definition sample_order (id user : N) (side : OrderSide) (type : OrderType) (price amount quote : Z) : Order :=
  mkOrder id user (dec amount) (dec quote) "BTC" side Zero Zero 0 0 type (dec price).

Definition sell1 : Order := sample_order 1 11 OrderSideSell OrderTypeLimit 100 3 0.
Definition sell2 : Order := sample_order 2 12 OrderSideSell OrderTypeLimit 101 5 0.
Definition sell3 : Order := sample_order 3 13 OrderSideSell OrderTypeLimit 100 2 0.
Definition buy4 : Order := sample_order 4 14 OrderSideBuy OrderTypeLimit 101 6 0.
Definition market5 : Order := sample_order 5 15 OrderSideBuy OrderTypeMarket 0 0 350.

Definition sample_book : OrderBook := AddOrder (AddOrder (AddOrder NewOrderBook sell1) sell2) sell3.

Lemma sample_book_ok : book_ok sample_book.
Proof.
  unfold sample_book. do 3 (apply AddOrder_abs; [|vm_compute; reflexivity]). apply NewOrderBook_ok.
Qed.

Definition sample_emitter : emitter :=
  mkEmitter "engine-1-1" "engine-2-2" 7 0 (make_chan 4) (Some (make_chan 16)) false 0 [].

Lemma sample_prices : Forall (fun o => 0 < dval (o_Price o))%Q (asks sample_book).
Proof.
  replace (asks sample_book) with [sell1; sell3; sell2] by reflexivity. repeat (constructor; [reflexivity|]). constructor.
Qed.
