(* ===== verification/Sweep.v ===== *)
(** * Theorems about sweeps

    Termination of the match loops, conservation of quantities, agreement of
    the loops with their channel-free reference, and the equivalence of a
    sweep cut into slices with an uninterrupted one. *)
From S2P Require Import Prelude Decimal Containers Model OrderBook Quantum Matching.
From Stdlib Require Import Lia.

Section Loop.
Context {DL : DecimalLib} {CL : ContainerLib} {DLaws : DecimalLaws DL} {CLaws : ContainerLaws CL}.
Context (live : Order -> bool) (next : OrderBook -> Order -> outcome (option fill))
  (queue other : OrderBook -> list Order) (inv : OrderBook -> Order -> Prop).
Context {SL : SweepLaws live next queue other inv}.

Local Abbreviation loop := (pure_loop live next).

(** ** Termination *)

Definition more (b : OrderBook) (o : Order) : nat :=
  match next b o with Ret (Some _) => 1 | _ => 0 end.
Definition potential (b : OrderBook) (o : Order) : nat := (length (queue b) + more b o)%nat.

Lemma potential_decreases b o f : inv b o -> live o = true -> next b o = Ret (Some f) ->
  (potential (f_book f) (f_order f) < potential b o)%nat.
Proof.
  intros Hi Hl Hn. unfold potential, more. rewrite Hn.
  destruct (sl_progress b o f Hi Hl Hn) as [H|[H1 H2]]; [repeat case_match; lia|].
  rewrite H1, H2. lia.
Qed.

Lemma pure_loop_total budget fuel b o : inv b o -> (potential b o < fuel)%nat ->
  is_Some (loop budget fuel b o).
Proof.
  revert budget b o. induction fuel as [|fuel IH]; intros budget b o Hi Hp; [lia|]. cbn.
  destruct (live o) eqn:Hl; cbn; [|eauto].
  assert (Hstep : is_Some match next b o with
      | Ret None => Some (mkRun [] true b o)
      | Ret (Some f) => r ← loop (pred <$> budget) fuel (f_book f) (f_order f);
          Some (mkRun (f :: run_fills r) (run_done r) (run_book r) (run_order r))
      | _ => None end).
  { destruct (sl_total b o Hi Hl) as [[f|] Hn]; rewrite Hn; [|eauto].
    destruct (sl_fill b o f Hi Hl Hn) as (Hi' & _).
    pose proof (potential_decreases b o f Hi Hl Hn).
    destruct (IH (pred <$> budget) (f_book f) (f_order f) Hi' ltac:(lia)) as [r Hr]. rewrite Hr. cbn. eauto. }
  destruct budget as [[|k]|]; eauto.
Qed.

Lemma book_size_length b : book_size b = (length (asks b) + length (bids b))%nat.
Proof.
  unfold book_size. assert (H : forall ls acc,
    foldl (fun a l => (a + Z.to_nat (dqLen (pl_Orders l)))%nat) acc ls = (acc + length (flat ls))%nat).
  { induction ls as [|l ls IH]; intros acc; cbn [foldl]; [cbn; lia|].
    rewrite IH, flat_cons, length_app, dqLen_list, Nat2Z.id. unfold level_orders. lia. }
  rewrite !H. done.
Qed.

Lemma sweep_fuel_enough b o : (potential b o < sweep_fuel b)%nat.
Proof.
  unfold sweep_fuel. rewrite book_size_length. pose proof (sl_size (SweepLaws := SL) b).
  unfold potential, more. repeat case_match; lia.
Qed.

(** More fuel changes nothing. *)
Lemma pure_loop_mono budget fuel fuel' b o r : loop budget fuel b o = Some r -> (fuel <= fuel')%nat ->
  loop budget fuel' b o = Some r.
Proof.
  revert fuel' budget b o r. induction fuel as [|fuel IH]; intros [|fuel'] budget b o r H Hle; try lia; cbn in *.
  - done.
  - destruct (negb (live o)); [done|]. destruct budget as [[|k]|]; done.
  - destruct (negb (live o)); [done|]. destruct budget as [[|k]|]; [done| |];
      destruct (next b o) as [[f|]| | |]; try done;
      match goal with H : (loop ?bu ?fu ?bo ?od ≫= _) = Some _ |- _ =>
        destruct (loop bu fu bo od) as [r'|] eqn:E; [|done] end;
      rewrite (IH fuel' _ _ _ r') by (done || lia); done.
Qed.

(** ** The chain of trades of a sweep *)

Inductive sweeps : OrderBook -> Order -> list fill -> OrderBook -> Order -> Prop :=
| sweeps_nil b o : inv b o -> sweeps b o [] b o
| sweeps_cons b o f fs b' o' : inv b o -> live o = true -> next b o = Ret (Some f) ->
    sweeps (f_book f) (f_order f) fs b' o' -> sweeps b o (f :: fs) b' o'.

Lemma pure_loop_sweeps budget fuel b o r : inv b o -> loop budget fuel b o = Some r ->
  sweeps b o (run_fills r) (run_book r) (run_order r).
Proof.
  revert budget b o r. induction fuel as [|fuel IH]; intros budget b o r Hi H; cbn in H;
    destruct (live o) eqn:Hl; cbn in H; try (injection H as <-; by constructor).
  - destruct budget as [[|k]|]; [|done|done]. injection H as <-. by constructor.
  - assert (Hgo : (match next b o with
      | Ret None => Some (mkRun [] true b o)
      | Ret (Some f) => r ← loop (pred <$> budget) fuel (f_book f) (f_order f);
          Some (mkRun (f :: run_fills r) (run_done r) (run_book r) (run_order r))
      | _ => None end) = Some r -> sweeps b o (run_fills r) (run_book r) (run_order r)).
    { clear H. intros H. destruct (next b o) as [[f|]| | |] eqn:Hn; try done.
      - destruct (loop _ _ _ _) as [r'|] eqn:E in H; [|done]. injection H as <-. cbn.
        destruct (sl_fill b o f Hi Hl Hn) as (Hi' & _). econstructor; eauto.
      - injection H as <-. by constructor. }
    destruct budget as [[|k]|]; [|by apply Hgo|by apply Hgo]. injection H as <-. by constructor.
Qed.

Lemma sweeps_inv b o fs b' o' : sweeps b o fs b' o' -> inv b o /\ inv b' o'.
Proof. induction 1; tauto. Qed.

Lemma sweeps_terms b o fs b' o' : sweeps b o fs b' o' -> same_terms o' o.
Proof.
  induction 1 as [|b o f fs b' o' Hi Hl Hn Hs IH]; [done|].
  destruct (sl_fill b o f Hi Hl Hn) as (_ & Ht & _). unfold same_terms in *. intuition congruence.
Qed.

(** ** Conservation *)

Definition amounts (l : list Order) : Q := Qsum (map (fun o => dval (o_Amount o)) l).
Definition quantities (fs : list fill) : Q := Qsum (map (fun f => dval (f_quantity f)) fs).
Definition notional (fs : list fill) : Q := Qsum (map (fun f => dval (f_price f) * dval (f_quantity f))%Q fs).

Lemma amounts_app l k : (amounts (l ++ k) == amounts l + amounts k)%Q.
Proof. unfold amounts. rewrite map_app. apply Qsum_app. Qed.
Lemma amounts_cons o l : amounts (o :: l) = (dval (o_Amount o) + amounts l)%Q.
Proof. done. Qed.

Lemma trades_with_amounts b o f x : trades_with queue other b o f x ->
  (amounts (queue (f_book f)) + dval (f_quantity f) == amounts (queue b))%Q.
Proof.
  intros (_ & _ & Hq & _ & _ & l1 & l2 & HQ & _ & HQ').
  rewrite HQ, HQ', !amounts_app, amounts_cons. unfold keep, take_from. cbn [o_Amount with_fill].
  destruct (GreaterThan _ _) eqn:E; dec_prop; dval_norm.
  - rewrite amounts_cons. cbn [o_Amount with_fill]. change (amounts []) with 0%Q. dval_norm. lra.
  - change (amounts []) with 0%Q. lra.
Qed.

Lemma sweeps_amounts b o fs b' o' : sweeps b o fs b' o' ->
  other b' = other b /\ (amounts (queue b') + quantities fs == amounts (queue b))%Q.
Proof.
  induction 1 as [b o|b o f fs b' o' Hi Hl Hn Hs [IH1 IH2]].
  - split; [done|]. change (quantities []) with 0%Q. lra.
  - destruct (sl_fill b o f Hi Hl Hn) as (_ & _ & x & HT & _).
    pose proof (trades_with_amounts _ _ _ _ HT) as H. split; [rewrite IH1; apply HT|].
    change (quantities (f :: fs)) with (dval (f_quantity f) + quantities fs)%Q. lra.
Qed.

(** Every trade is for a positive quantity, at the price of an order of the
    book that belongs to somebody else. *)
Definition counterparty (b : OrderBook) (o : Order) (f : fill) : Prop :=
  (0 < dval (f_quantity f))%Q /\
  exists x, x ∈ queue b /\ isSelfTrade o x = false /\ (dval (f_price f) == dval (o_Price x))%Q /\
    (if bool_decide (o_Side o = OrderSideBuy) then f_buyID f = o_ID o /\ f_sellID f = o_ID x
     else f_buyID f = o_ID x /\ f_sellID f = o_ID o).

Lemma counterparty_back b o f x g : trades_with queue other b o f x -> same_terms (f_order f) o ->
  counterparty (f_book f) (f_order f) g -> counterparty b o g.
Proof.
  intros (_ & _ & _ & _ & _ & l1 & l2 & HQ & _ & HQ') Ht (Hq & y & Hy & Hs & Hp & Hid).
  pose proof Ht as (HID & HU & _ & HS & _).
  split; [done|]. rewrite HS, HID in Hid. rewrite (isSelfTrade_taker _ _ _ Ht) in Hs.
  rewrite HQ', !elem_of_app in Hy. destruct Hy as [Hy|[Hy|Hy]].
  - exists y. rewrite HQ. set_solver.
  - unfold keep in Hy. destruct (GreaterThan _ _); [|set_solver]. apply list_elem_of_singleton in Hy as ->.
    exists x. rewrite HQ. split; [set_solver|]. done.
  - exists y. rewrite HQ. set_solver.
Qed.

Lemma sweeps_counterparty b o fs b' o' : sweeps b o fs b' o' -> Forall (counterparty b o) fs.
Proof.
  induction 1 as [|b o f fs b' o' Hi Hl Hn Hs IH]; [done|].
  destruct (sl_fill b o f Hi Hl Hn) as (_ & Ht & x & HT & Hid). constructor.
  - pose proof HT as (Hx & Hp & Hq & _ & _ & l1 & l2 & HQ & _). split; [lra|].
    exists x. rewrite HQ. split; [set_solver|]. done.
  - eapply Forall_impl; [exact IH|]. intros g. by eapply counterparty_back.
Qed.

(** ** Slices *)

Lemma pure_loop_done fuel b o r : loop None fuel b o = Some r -> run_done r = true.
Proof.
  revert b o r. induction fuel as [|fuel IH]; intros b o r H; cbn in H; destruct (negb (live o));
    try (by injection H as <-); [done|].
  destruct (next b o) as [[f|]| | |]; try done; [|by injection H as <-].
  destruct (loop None fuel (f_book f) (f_order f)) as [r'|] eqn:E; [|done]. injection H as <-. cbn. eauto.
Qed.

(** A slice with room for the whole rest of the sweep finishes it. *)
Lemma slice_last m fuel b o r : loop None fuel b o = Some r ->
  (length (run_fills r) < m \/ length (run_fills r) = m /\ live (run_order r) = false)%nat ->
  loop (Some m) fuel b o = Some r.
Proof.
  revert m b o r. induction fuel as [|fuel IH]; intros m b o r H Hm; cbn in H |- *; destruct (live o) eqn:Hl; cbn in *;
    try done.
  destruct (next b o) as [[f|]| | |]; try done.
  - destruct (loop None fuel (f_book f) (f_order f)) as [r'|] eqn:E; [|done]. injection H as <-. cbn in *.
    destruct m as [|m]; [lia|]. cbn. rewrite (IH m _ _ r'); [done|done|]. destruct Hm as [|[]]; [left; lia|right].
    split; [lia|done].
  - injection H as <-. cbn in *. destruct m as [|m]; [|done]. destruct Hm as [|[_ ?]]; [lia|congruence].
Qed.

(** Otherwise a slice makes exactly its budget of trades and the rest of the
    sweep is what an uninterrupted run does from there. *)
Lemma slice_cut m fuel b o r : loop None fuel b o = Some r ->
  (m <= length (run_fills r))%nat -> (m = length (run_fills r) -> live (run_order r) = true) ->
  exists r1 r2, loop (Some m) fuel b o = Some r1 /\ run_done r1 = false /\
    length (run_fills r1) = m /\ loop None fuel (run_book r1) (run_order r1) = Some r2 /\
    run_fills r = run_fills r1 ++ run_fills r2 /\
    run_book r2 = run_book r /\ run_order r2 = run_order r.
Proof.
  revert m b o r. induction fuel as [|fuel IH]; intros m b o r H Hm Hlive; cbn in H |- *; destruct (live o) eqn:Hl; cbn in *;
    try done; try (injection H as <-; cbn in *; assert (m = O) as -> by lia; specialize (Hlive eq_refl); congruence).
  destruct m as [|m].
  - eexists (mkRun [] false b o), r. cbn. rewrite Hl. cbn. done.
  - destruct (next b o) as [[f|]| | |]; try done; [|injection H as <-; cbn in *; lia].
    destruct (loop None fuel (f_book f) (f_order f)) as [r'|] eqn:E; [|done]. injection H as <-. cbn in *.
    destruct (IH m _ _ r' E ltac:(lia)) as (r1 & r2 & H1 & H2 & H3 & H4 & H5 & H6 & H7).
    { intros Hx. apply Hlive. lia. }
    rewrite H1. eexists _, r2. split; [done|]. cbn. split; [done|]. split; [lia|].
    split; [|by rewrite H5].
    apply (pure_loop_mono None fuel (S fuel)); [done|lia].
Qed.

(** The scheduler's view of a sweep: slices of at most [m] trades until one
    reports done. *)
Fixpoint run_slices (m : nat) (n : nat) (fuel : nat) (b : OrderBook) (o : Order) : option (list run) :=
  match n with
  | O => None
  | S n' =>
      r ← loop (Some m) fuel b o;
      if run_done r then Some [r]
      else rs ← run_slices m n' fuel (run_book r) (run_order r); Some (r :: rs)
  end.

(** The number of slices: the trades in groups of [m], and one more (empty)
    slice when the book ran dry exactly at the end of a group. *)
Definition slice_count (m : nat) (r : run) : nat :=
  if live (run_order r) then S (length (run_fills r) / m)
  else S (pred (length (run_fills r)) / m).

Lemma slices_match m n fuel b o r : (0 < m)%nat -> loop None fuel b o = Some r ->
  (length (run_fills r) < n)%nat ->
  exists rs l, run_slices m n fuel b o = Some rs /\ last rs = Some l /\
    concat (map run_fills rs) = run_fills r /\
    run_book l = run_book r /\ run_order l = run_order r /\ length rs = slice_count m r.
Proof.
  intros Hm. revert b o r. induction n as [|n IH]; intros b o r H Hn; [lia|]. cbn [run_slices].
  destruct (decide (length (run_fills r) < m \/ length (run_fills r) = m /\ live (run_order r) = false)%nat) as [HL|HC].
  - rewrite (slice_last m _ _ _ r H HL). cbn. rewrite (pure_loop_done _ _ _ _ H).
    exists [r], r. cbn. rewrite app_nil_r. repeat (split; [done|]). unfold slice_count.
    destruct HL as [HL|[HL Hd]]; [|rewrite Hd, HL].
    + rewrite (Nat.div_small (length _)), (Nat.div_small (pred _)) by lia. by destruct (live _).
    + by rewrite Nat.div_small by lia.
  - destruct (slice_cut m _ _ _ r H) as (r1 & r2 & H1 & H2 & H3 & H4 & H5 & H6 & H7).
    { lia. }
    { intros Hx. apply not_false_iff_true. intros Hd. apply HC. right. split; [by rewrite Hx|done]. }
    rewrite H1. cbn. rewrite H2.
    destruct (IH _ _ r2 H4) as (rs & l & E & Hl & Hc & Hb & Ho & Hlen).
    { rewrite H5, length_app in Hn. lia. }
    rewrite E. cbn. exists (r1 :: rs), l. split; [done|]. split; [by destruct rs|].
    cbn. rewrite Hc, H5, Hb, Ho, H6, H7. repeat (split; [done|]). rewrite Hlen. unfold slice_count.
    rewrite H7, H5, length_app, H3. destruct (live (run_order r)) eqn:E'.
    + replace (m + length (run_fills r2))%nat with (length (run_fills r2) + 1 * m)%nat by lia.
      rewrite Nat.div_add by lia. cbn. lia.
    + assert (length (run_fills r2) <> 0)%nat.
      { intros Hz. apply HC. right. rewrite H5, length_app, Hz. split; [lia|done]. }
      replace (pred (m + length (run_fills r2))) with (pred (length (run_fills r2)) + 1 * m)%nat by lia.
      rewrite Nat.div_add by lia. cbn. lia.
Qed.

(** ** The loop with its channel does what the reference does

    As long as the execution channel (and, inside a reservation, its budget)
    has room for the trades, no send panics or blocks, and the trades are
    reported in order. *)

Definition can_emit (n : Z) (es : emitter) : Prop :=
  match ExecutionCh es with
  | None => True
  | Some c => ch_len c + n <= ch_cap c /\ (reservationActive es = true -> n <= reservationRemaining es)
  end.

Definition exec_push (kind : EmitKind) (ev : ExecutionEvent) (es : emitter) : emitter :=
  match ExecutionCh es with
  | None => es
  | Some c => with_exec es (mkChan (ch_buf c ++ [ev]) (ch_cap c))
                (if reservationActive es then reservationRemaining es - 1 else reservationRemaining es)
                (ObsEmitBlock kind)
  end.

Definition numbered (sym : string) (es : emitter) (f : fill) : Trade :=
  fst (newTrade sym (f_price f) (f_quantity f) (f_buyID f) (f_sellID f) es).
Definition reported1 (sym : string) (es : emitter) (f : fill) : emitter :=
  let '(t, es') := newTrade sym (f_price f) (f_quantity f) (f_buyID f) (f_sellID f) es in
  exec_push EmitTrade (EvTrade t) (with_tradeCh es' (ch_offer (TradeCh es') t)).
Definition reported (sym : string) : emitter -> list fill -> emitter := foldl (reported1 sym).
Fixpoint report (sym : string) (es : emitter) (fs : list fill) : list Trade :=
  match fs with
  | [] => []
  | f :: fs => numbered sym es f :: report sym (reported1 sym es f) fs
  end.

Lemma send_room kind ev es c n : ExecutionCh es = Some c -> 0 < n -> can_emit n es ->
  sendExecution kind ev es = Ret (exec_push kind ev es).
Proof.
  intros Hc Hn H. unfold can_emit, sendExecution, exec_push, ch_send in *. rewrite Hc in *. destruct H as [H1 H2]. cbn.
  rewrite (proj2 (Z.ltb_lt _ _)) by lia. destruct (reservationActive es); [|done].
  by rewrite (proj2 (Z.leb_gt _ _)) by (specialize (H2 eq_refl); lia).
Qed.

Lemma exec_push_room kind ev es n : can_emit n es -> can_emit (n - 1) (exec_push kind ev es).
Proof.
  unfold can_emit, exec_push. destruct (ExecutionCh es) as [c|] eqn:E; [|by rewrite E].
  cbn. unfold ch_len. cbn. rewrite length_app. cbn. intros [H1 H2]. split; [lia|].
  intros Ha. rewrite Ha. specialize (H2 Ha). lia.
Qed.

Lemma emitTrade_room sym es f n : 0 < n -> can_emit n es ->
  (let '(t, es') := newTrade sym (f_price f) (f_quantity f) (f_buyID f) (f_sellID f) es in emitTrade t es') =
  Ret (reported1 sym es f) /\ can_emit (n - 1) (reported1 sym es f).
Proof.
  intros Hn H. unfold reported1. cbn. unfold emitTrade.
  match goal with |- context [with_tradeCh ?e ?c] => set (es' := with_tradeCh e c) end.
  assert (H' : can_emit n es') by done. split; [|by apply exec_push_room].
  destruct (ExecutionCh es') as [c|] eqn:E; [by eapply send_room|]. unfold exec_push.
  subst es'. cbn in E |- *. by rewrite E.
Qed.

(** The budget of the reference, from the loop's [budget] and [trades]. *)
Definition budget_left (budget trades : Z) : option nat :=
  if 0 <? budget then Some (Z.to_nat (budget - trades)) else None.

Lemma match_loop_reports budget trades fuel b o es r : 0 <= trades -> inv b o ->
  loop (budget_left budget trades) fuel b o = Some r ->
  can_emit (Z.of_nat (length (run_fills r))) es ->
  match_loop live next budget fuel trades (mkSweep b o es) =
  Ret (trades + Z.of_nat (length (run_fills r)), run_done r,
       mkSweep (run_book r) (run_order r) (reported (o_CoinSymbol o) es (run_fills r))).
Proof.
  revert trades b o es r. induction fuel as [|fuel IH]; intros trades b o es r Ht Hi H Hc; cbn in H |- *;
    destruct (live o) eqn:Hl; cbn in *; try (injection H as <-; cbn; by rewrite Z.add_0_r).
  - unfold budget_left in H. destruct (0 <? budget) eqn:Eb; cbn in *; [|done].
    destruct (Z.to_nat (budget - trades)) eqn:En; [|done]. injection H as <-. cbn.
    rewrite (proj2 (Z.leb_le _ _)) by lia. by rewrite Z.add_0_r.
  - assert (Hgo : (0 <? budget) && (budget <=? trades) = false ->
      (match next b o with
      | Ret None => Some (mkRun [] true b o)
      | Ret (Some f) => r ← loop (pred <$> budget_left budget trades) fuel (f_book f) (f_order f);
          Some (mkRun (f :: run_fills r) (run_done r) (run_book r) (run_order r))
      | _ => None end) = Some r).
    { intros Hb. unfold budget_left in H |- *. destruct (0 <? budget) eqn:Eb; cbn in *; [|done].
      bool_to_prop. destruct (Z.to_nat (budget - trades)) eqn:En; [lia|done]. }
    destruct ((0 <? budget) && (budget <=? trades)) eqn:Eb.
    + unfold budget_left in H. bool_to_prop. rewrite (proj2 (Z.ltb_lt _ _)) in H by done.
      destruct (Z.to_nat (budget - trades)) eqn:En; [|lia]. injection H as <-. cbn. by rewrite Z.add_0_r.
    + specialize (Hgo eq_refl). clear H. destruct (next b o) as [[f|]| | |] eqn:Hn; try done; cbn.
      * destruct (loop _ fuel _ _) as [r'|] eqn:Er in Hgo; [|done]. injection Hgo as <-. cbn in *.
        destruct (sl_fill b o f Hi Hl Hn) as (Hi' & (_ & _ & Hsym & _) & _).
        destruct (emitTrade_room (o_CoinSymbol o) es f (Z.of_nat (S (length (run_fills r')))) ltac:(lia) Hc) as [He Hc'].
        cbn in He. rewrite He. cbn.
        rewrite (IH (trades + 1) _ _ _ r'); [|lia|done| |].
        -- do 3 f_equal; [lia|]. by rewrite Hsym.
        -- rewrite <- Er. f_equal. unfold budget_left. destruct (0 <? budget); cbn; [|done]. f_equal. lia.
        -- by replace (Z.of_nat (S _) - 1) with (Z.of_nat (length (run_fills r'))) in Hc' by lia.
      * injection Hgo as <-. cbn. by rewrite Z.add_0_r.
Qed.

(** Conversely a loop that returns did exactly this. *)
Lemma sendExecution_Ret kind ev es es' : sendExecution kind ev es = Ret es' -> es' = exec_push kind ev es.
Proof.
  unfold sendExecution, exec_push, ch_send. destruct (ExecutionCh es) as [c|]; cbn.
  - destruct (ch_len c <? ch_cap c); destruct (reservationActive es); cbn; try destruct (_ <=? 0); by intros [= <-].
  - destruct (reservationActive es); [|done]. by destruct (_ <=? 0).
Qed.

Lemma emitTrade_Ret sym es f es' :
  (let '(t, es1) := newTrade sym (f_price f) (f_quantity f) (f_buyID f) (f_sellID f) es in emitTrade t es1) = Ret es' ->
  es' = reported1 sym es f.
Proof.
  unfold reported1, emitTrade. cbn. unfold exec_push at 1. cbn.
  destruct (ExecutionCh es) as [c|] eqn:E; [|by intros [= <-]].
  intros H%sendExecution_Ret. rewrite H. unfold exec_push. cbn. by rewrite E.
Qed.

Lemma match_loop_Ret budget trades fuel b o es n d s' : 0 <= trades -> inv b o ->
  match_loop live next budget fuel trades (mkSweep b o es) = Ret (n, d, s') ->
  exists r, loop (budget_left budget trades) fuel b o = Some r /\
    n = trades + Z.of_nat (length (run_fills r)) /\ d = run_done r /\
    s' = mkSweep (run_book r) (run_order r) (reported (o_CoinSymbol o) es (run_fills r)).
Proof.
  revert trades b o es n d s'. induction fuel as [|fuel IH]; intros trades b o es n d s' Ht Hi H; cbn in H |- *;
    destruct (live o) eqn:Hl; cbn in *;
    try (injection H as <- <- <-; eexists; split; [done|]; cbn; by rewrite Z.add_0_r).
  - destruct ((0 <? budget) && (budget <=? trades)) eqn:Eb; [|done]. injection H as <- <- <-. bool_to_prop.
    unfold budget_left. rewrite (proj2 (Z.ltb_lt _ _)) by done. replace (Z.to_nat (budget - trades)) with O by lia.
    eexists. split; [done|]. cbn. by rewrite Z.add_0_r.
  - destruct ((0 <? budget) && (budget <=? trades)) eqn:Eb.
    { injection H as <- <- <-. bool_to_prop.
      unfold budget_left. rewrite (proj2 (Z.ltb_lt _ _)) by done. replace (Z.to_nat (budget - trades)) with O by lia.
      eexists. split; [done|]. cbn. by rewrite Z.add_0_r. }
    assert (Hbl : budget_left budget trades <> Some O).
    { unfold budget_left. destruct (0 <? budget); [|done]. cbn in Eb. bool_to_prop. intros [= H0]. lia. }
    assert (Hgo : exists r, (match next b o with
      | Ret None => Some (mkRun [] true b o)
      | Ret (Some f) => r ← loop (pred <$> budget_left budget trades) fuel (f_book f) (f_order f);
          Some (mkRun (f :: run_fills r) (run_done r) (run_book r) (run_order r))
      | _ => None end) = Some r /\ n = trades + Z.of_nat (length (run_fills r)) /\ d = run_done r /\
       s' = mkSweep (run_book r) (run_order r) (reported (o_CoinSymbol o) es (run_fills r))).
    { destruct (next b o) as [[f|]| | |] eqn:Hn; cbn in H; try done.
      - destruct (emitTrade _ _) as [es1| | |] eqn:Ee in H; cbn in H; try done.
        apply (emitTrade_Ret (o_CoinSymbol o) es f) in Ee as ->.
        destruct (sl_fill b o f Hi Hl Hn) as (Hi' & (_ & _ & Hsym & _) & _).
        apply IH in H as (r & Hr & -> & -> & ->); [|lia|done].
        replace (pred <$> budget_left budget trades) with (budget_left budget (trades + 1)).
        + rewrite Hr. eexists. split; [done|]. cbn. rewrite Hsym. split; [lia|done].
        + unfold budget_left. destruct (0 <? budget); cbn; [|done]. f_equal. lia.
      - injection H as <- <- <-. eexists. split; [done|]. cbn. by rewrite Z.add_0_r. }
    destruct (budget_left budget trades) as [[|k]|]; done.
Qed.

(** ** Accumulating along a sweep *)

Lemma sweeps_sum (m : Order -> Q) (w : fill -> Q) b o fs b' o' :
  (forall b o f, inv b o -> live o = true -> next b o = Ret (Some f) -> m (f_order f) == m o + w f)%Q ->
  sweeps b o fs b' o' -> (m o' == m o + Qsum (map w fs))%Q.
Proof.
  intros Hm. induction 1 as [|b o f fs b' o' Hi Hl Hn Hs IH]; cbn [map]; rewrite ?Qsum_nil, ?Qsum_cons; [lra|].
  specialize (Hm b o f Hi Hl Hn). lra.
Qed.

(** What holds of a trade of any taker with the same terms holds of all. *)
Lemma sweeps_Forall (P : Order -> fill -> Prop) b o fs b' o' :
  (forall b o f, inv b o -> live o = true -> next b o = Ret (Some f) -> P o f) ->
  (forall o1 o2 f, same_terms o1 o2 -> P o1 f -> P o2 f) ->
  sweeps b o fs b' o' -> Forall (P o) fs.
Proof.
  intros H1 H2. induction 1 as [|b o f fs b' o' Hi Hl Hn Hs IH]; [done|]. constructor; [by eapply H1|].
  destruct (sl_fill b o f Hi Hl Hn) as (_ & Ht & _). eapply Forall_impl; [exact IH|]. intros g. by apply H2.
Qed.

Lemma pure_loop_stop budget fuel b o r : loop budget fuel b o = Some r -> run_done r = true ->
  live (run_order r) = false \/ next (run_book r) (run_order r) = Ret None.
Proof.
  revert budget b o r. induction fuel as [|fuel IH]; intros budget b o r H Hd; cbn in H; destruct (live o) eqn:Hl; cbn in H;
    try (injection H as <-; by left).
  - destruct budget as [[|]|]; try done. by injection H as <-.
  - destruct budget as [[|k]|]; [by injection H as <-| |];
      (destruct (next b o) as [[f|]| | |] eqn:Hn; try done; [|injection H as <-; by right]);
      match goal with H : (loop ?bu ?fu ?bo ?od ≫= _) = Some _ |- _ =>
        destruct (loop bu fu bo od) as [r'|] eqn:E; [|done] end;
      injection H as <-; by apply (IH _ _ _ _ E).
Qed.

(** A slice makes at most its budget of trades, and all of them unless it is done. *)
Lemma pure_loop_budget m fuel b o r : loop (Some m) fuel b o = Some r ->
  (length (run_fills r) <= m)%nat /\ (run_done r = false -> length (run_fills r) = m /\ live (run_order r) = true).
Proof.
  revert m b o r. induction fuel as [|fuel IH]; intros m b o r H; cbn in H; destruct (live o) eqn:Hl; cbn in H;
    try (injection H as <-; cbn; split; [lia|done]).
  - destruct m; [|done]. by injection H as <-.
  - destruct m as [|m]; [by injection H as <-|]. destruct (next b o) as [[f|]| | |]; try done; cbn in H.
    + destruct (loop (Some m) fuel _ _) as [r'|] eqn:E; [|done]. injection H as <-. cbn.
      destruct (IH _ _ _ _ E) as [H1 H2]. split; [lia|]. intros Hd. destruct (H2 Hd). split; [lia|done].
    + injection H as <-. cbn. split; [lia|done].
Qed.
End Loop.

(** ** What the reports say *)

Section Reports.
Context {DL : DecimalLib} {CL : ContainerLib}.

Definition exec_events (es : emitter) : list ExecutionEvent := default [] (ch_buf <$> ExecutionCh es).

(** The trades carry the fills, numbered from the engine's counter on. *)
Definition trade_of (sym : string) (id : string) (seq : Z) (t : Trade) (f : fill) : Prop :=
  t_EngineSequence t = seq /\ t_EngineEventID t = event_id id seq /\ t_CoinSymbol t = sym /\
  t_Price t = f_price f /\ t_Quantity t = f_quantity f /\
  t_BuyOrderID t = f_buyID f /\ t_SellOrderID t = f_sellID f.

Definition engine_name (es : emitter) : string := if String.eqb (engineID es) "" then freshID es else engineID es.

Lemma reported1_fields sym es f :
  tradeSeq (reported1 sym es f) = tradeSeq es + 1 /\ engineID (reported1 sym es f) = engine_name es /\
  freshID (reported1 sym es f) = freshID es /\
  (is_Some (ExecutionCh es) -> exec_events (reported1 sym es f) = exec_events es ++ [EvTrade (numbered sym es f)]) /\
  (is_Some (ExecutionCh es) -> is_Some (ExecutionCh (reported1 sym es f))) /\
  (ch_cap <$> ExecutionCh (reported1 sym es f)) = (ch_cap <$> ExecutionCh es).
Proof.
  unfold reported1, exec_push, exec_events, numbered. cbn. destruct (ExecutionCh es) as [c|] eqn:E; cbn; rewrite ?E;
    split_and!; try done; intros [? [=]]; done.
Qed.

Lemma engine_name_stable sym es f : freshID es <> "" -> engine_name (reported1 sym es f) = engine_name es.
Proof.
  intros Hf. destruct (reported1_fields sym es f) as (_ & He & Hfr & _). unfold engine_name at 1. rewrite He, Hfr.
  unfold engine_name. destruct (String.eqb_spec (engineID es) ""); destruct (String.eqb _ _) eqn:E; try done.
  apply String.eqb_eq in E. congruence.
Qed.

Lemma report_spec sym fs es : freshID es <> "" -> is_Some (ExecutionCh es) ->
  length (report sym es fs) = length fs /\
  tradeSeq (reported sym es fs) = tradeSeq es + Z.of_nat (length fs) /\
  exec_events (reported sym es fs) = exec_events es ++ map EvTrade (report sym es fs) /\
  forall i f t, fs !! i = Some f -> report sym es fs !! i = Some t ->
    trade_of sym (engine_name es) (tradeSeq es + 1 + Z.of_nat i) t f.
Proof.
  revert es. induction fs as [|f fs IH]; intros es Hfr Hch.
  - cbn. rewrite app_nil_r. repeat split; try done. lia.
  - pose proof (engine_name_stable sym es f Hfr) as Hnm.
    destruct (reported1_fields sym es f) as (Hsq & _ & Hf & Hev & Hch' & _).
    destruct (IH (reported1 sym es f)) as (H1 & H2 & H3 & H4); [congruence|by apply Hch'|].
    change (reported sym es (f :: fs)) with (reported sym (reported1 sym es f) fs).
    cbn [report length map]. rewrite H1, H2, H3, Hsq, Hev, <- app_assoc by done.
    split; [done|]. split; [lia|]. split; [done|]. intros [|i] f' t Hi Ht.
    + injection Hi as <-. injection Ht as <-. unfold numbered, trade_of, engine_name. cbn.
      rewrite Z.add_0_r. done.
    + specialize (H4 i f' t Hi Ht). rewrite Hnm, Hsq in H4.
      replace (tradeSeq es + 1 + Z.of_nat (S i)) with (tradeSeq es + 1 + 1 + Z.of_nat i) by lia. done.
Qed.
End Reports.
