(* ===== verification/Slice.v ===== *)
(** * Slices: the theorems about [matchSlice]

    [matchSlice] picks one of the four match loops by the side and the type of
    the incoming order.  The four share one loop, so the results of [Sweep]
    hold of all of them at once; this file states them about [matchSlice]. *)
From S2P Require Import Prelude Decimal Containers Model OrderBook Quantum Matching Fixtures Sweep.
From Stdlib Require Import Lia.

Inductive sweep_kind := KBuy | KSell | KMarketBuy | KMarketSell | KNone.

Section Slice.
Context {DL : DecimalLib} {CL : ContainerLib}.

Definition kind_of (o : Order) : sweep_kind :=
  match o_Side o with
  | OrderSideBuy => if bool_decide (o_OrderType o = OrderTypeMarket) then KMarketBuy else KBuy
  | OrderSideSell => if bool_decide (o_OrderType o = OrderTypeMarket) then KMarketSell else KSell
  | OrderSideOther _ => KNone
  end.
Definition k_live (k : sweep_kind) : Order -> bool :=
  match k with KMarketBuy => quote_live | KNone => fun _ => false | _ => base_live end.
Definition k_next (k : sweep_kind) : OrderBook -> Order -> outcome (option fill) :=
  match k with
  | KBuy => matchBuyFill | KSell => matchSellFill
  | KMarketBuy => matchMarketBuyFill | KMarketSell => matchMarketSellFill
  | KNone => fun _ _ => Ret None
  end.

Lemma matchSlice_loop budget s :
  matchSlice budget s =
  match_loop (k_live (kind_of (sw_order s))) (k_next (kind_of (sw_order s))) budget (sweep_fuel (sw_book s)) 0 s.
Proof.
  unfold matchSlice, kind_of. destruct (o_Side (sw_order s)); [| |done]; by destruct (bool_decide _).
Qed.

Context {DLaws : DecimalLaws DL} {CLaws : ContainerLaws CL}.

(** The side of the book a kind of order trades with, and its own. *)
Definition k_queue (k : sweep_kind) : OrderBook -> list Order :=
  match k with KBuy | KMarketBuy => asks | _ => bids end.
Definition k_other (k : sweep_kind) : OrderBook -> list Order :=
  match k with KBuy | KMarketBuy => bids | _ => asks end.
Definition k_inv (k : sweep_kind) : OrderBook -> Order -> Prop :=
  match k with
  | KBuy => buy_inv | KMarketBuy => market_buy_inv | KNone => fun b _ => book_ok b | _ => sell_inv
  end.

#[export] Instance k_sweep k : SweepLaws (k_live k) (k_next k) (k_queue k) (k_other k) (k_inv k).
Proof. destruct k; try apply _. split; try done. intros. cbn. lia. Qed.

(** What a sweep relies on: a well-formed book and, for a market buy, positive
    resting prices (it divides by them) and a quote budget that is not
    negative. *)
Definition sweep_inv (b : OrderBook) (o : Order) : Prop :=
  book_ok b /\ (kind_of o = KMarketBuy -> prices_pos (asks b) /\ (0 <= dval (o_QuoteAmount o))%Q).

Lemma sweep_inv_kind b o : sweep_inv b o -> k_inv (kind_of o) b o.
Proof.
  intros [Hok Hm]. unfold kind_of in *. destruct (o_Side o) eqn:Es; [| |done];
    destruct (bool_decide _); try by split.
  destruct (Hm eq_refl). by split.
Qed.
Lemma kind_inv_sweep b o : k_inv (kind_of o) b o -> sweep_inv b o.
Proof.
  intros H. split; [by eapply (sl_ok (SweepLaws := k_sweep (kind_of o)))|]. intros E. rewrite E in H. destruct H as (_ & _ & ? & ?). done.
Qed.

Lemma kind_of_terms a b : same_terms a b -> kind_of a = kind_of b.
Proof. intros (_ & _ & _ & Hs & Ht & _). unfold kind_of. by rewrite Hs, Ht. Qed.

(** The trades of a sweep of at most [budget] trades, with no channel. *)
Definition slice_run (budget : option nat) (b : OrderBook) (o : Order) : option run :=
  pure_loop (k_live (kind_of o)) (k_next (kind_of o)) budget (sweep_fuel b) b o.

Lemma slice_run_total budget b o : sweep_inv b o -> is_Some (slice_run budget b o).
Proof.
  intros Hi%sweep_inv_kind. eapply pure_loop_total; [apply k_sweep|done|].
  eapply sweep_fuel_enough, k_sweep.
Qed.

Lemma slice_run_sweeps budget b o r : sweep_inv b o -> slice_run budget b o = Some r ->
  sweeps (k_live (kind_of o)) (k_next (kind_of o)) (k_inv (kind_of o)) b o (run_fills r) (run_book r) (run_order r).
Proof. intros Hi%sweep_inv_kind. eapply pure_loop_sweeps; [apply k_sweep|done]. Qed.

Lemma slice_run_inv budget b o r : sweep_inv b o -> slice_run budget b o = Some r ->
  same_terms (run_order r) o /\ sweep_inv (run_book r) (run_order r).
Proof.
  intros Hi Hr. pose proof (slice_run_sweeps _ _ _ _ Hi Hr) as H.
  assert (Ht : same_terms (run_order r) o) by by apply (sweeps_terms _ _ _ _ _ (SL := k_sweep (kind_of o))) in H.
  split; [done|]. apply sweeps_inv in H as [_ H]. apply kind_inv_sweep. by rewrite (kind_of_terms _ _ Ht).
Qed.

(** The taker's books: what it still wants goes down by what it got. *)
Definition taker_account (o : Order) (fs : list fill) (o' : Order) : Prop :=
  (dval (o_FilledAmount o') == dval (o_FilledAmount o) + quantities fs)%Q /\
  match kind_of o with
  | KMarketBuy =>
      (dval (o_QuoteAmount o') == dval (o_QuoteAmount o) - notional fs)%Q /\ (0 <= dval (o_QuoteAmount o'))%Q /\
      (dval (o_FilledQuoteAmount o') == dval (o_FilledQuoteAmount o) + notional fs)%Q
  | KMarketSell =>
      (dval (o_Amount o') == dval (o_Amount o) - quantities fs)%Q /\
      (dval (o_FilledQuoteAmount o') == dval (o_FilledQuoteAmount o) + notional fs)%Q
  | _ => (dval (o_Amount o') == dval (o_Amount o) - quantities fs)%Q
  end.

Lemma quantities_neg fs : (Qsum (map (fun f => - dval (f_quantity f)) fs) == - quantities fs)%Q.
Proof.
  unfold quantities. induction fs as [|f fs IH]; cbn [map]; rewrite ?Qsum_nil, ?Qsum_cons; [lra|]. lra.
Qed.
Lemma notional_neg fs : (Qsum (map (fun f => - (dval (f_price f) * dval (f_quantity f))) fs) == - notional fs)%Q.
Proof.
  unfold notional. induction fs as [|f fs IH]; cbn [map]; rewrite ?Qsum_nil, ?Qsum_cons; [lra|]. lra.
Qed.

(** What each kind's iteration does to its taker. *)
Lemma k_next_taken k b o f : k_inv k b o -> k_live k o = true -> k_next k b o = Ret (Some f) ->
  (dval (o_FilledAmount (f_order f)) == dval (o_FilledAmount o) + dval (f_quantity f))%Q /\
  (k <> KMarketBuy -> dval (o_Amount (f_order f)) == dval (o_Amount o) + - dval (f_quantity f))%Q /\
  (k = KMarketBuy -> dval (o_QuoteAmount (f_order f)) ==
     dval (o_QuoteAmount o) + - (dval (f_price f) * dval (f_quantity f)))%Q /\
  (k = KMarketBuy \/ k = KMarketSell -> dval (o_FilledQuoteAmount (f_order f)) ==
     dval (o_FilledQuoteAmount o) + dval (f_price f) * dval (f_quantity f))%Q.
Proof.
  intros Hi Hl Hn. assert (Hok : book_ok b) by by apply (sl_ok (SweepLaws := k_sweep k) b o). destruct k; cbn in Hn.
  - destruct (matchBuyFill_Some _ _ _ Hok Hn) as (x & _ & _ & _ & _ & [Ha Hf] & _).
    split_and!; try done. by intros [?|?].
  - destruct (matchSellFill_Some _ _ _ Hok Hn) as (x & _ & _ & _ & _ & [Ha Hf] & _).
    split_and!; try done. by intros [?|?].
  - destruct (matchMarketBuyFill_Some _ _ _ Hok Hn) as (x & _ & _ & _ & _ & Hq & Hfq & Hf & _).
    by split_and!.
  - destruct (matchMarketSellFill_Some _ _ _ Hok Hn) as (x & _ & _ & _ & [Ha Hf] & _ & _ & Hfq).
    by split_and!.
  - done.
Qed.

Lemma slice_run_account budget b o r : sweep_inv b o -> slice_run budget b o = Some r ->
  taker_account o (run_fills r) (run_order r).
Proof.
  intros Hi Hr. pose proof (slice_run_inv _ _ _ _ Hi Hr) as [_ [_ Hi']].
  pose proof (slice_run_inv _ _ _ _ Hi Hr) as [Ht _]. rewrite (kind_of_terms _ _ Ht) in Hi'.
  pose proof (slice_run_sweeps _ _ _ _ Hi Hr) as Hs. set (k := kind_of o) in *.
  pose proof (fun b o f Hi Hl Hn => k_next_taken k b o f Hi Hl Hn) as HT. unfold taker_account. fold k. split.
  { eapply sweeps_sum with (m := fun o => dval (o_FilledAmount o)) in Hs;
      [exact Hs|]. intros ? ? f ? ? Hn. by apply (HT _ _ _ H H0 Hn). }
  assert (Hamount : k <> KMarketBuy -> (dval (o_Amount (run_order r)) == dval (o_Amount o) - quantities (run_fills r))%Q).
  { intros Hk.
    eapply sweeps_sum with (m := fun o => dval (o_Amount o))
      (w := fun f => (- dval (f_quantity f))%Q) in Hs;
      [rewrite quantities_neg in Hs; lra|]. intros ? ? f Hi0 Hl Hn. by apply (HT _ _ _ Hi0 Hl Hn). }
  assert (Hquote : k = KMarketBuy \/ k = KMarketSell ->
    (dval (o_FilledQuoteAmount (run_order r)) == dval (o_FilledQuoteAmount o) + notional (run_fills r))%Q).
  { intros Hk.
    eapply sweeps_sum with (m := fun o => dval (o_FilledQuoteAmount o))
      in Hs; [exact Hs|]. intros ? ? f Hi0 Hl Hn. by apply (HT _ _ _ Hi0 Hl Hn). }
  destruct k eqn:Ek; try (by apply Hamount).
  - destruct (Hi' eq_refl) as [_ Hq].
    eapply sweeps_sum with (m := fun o => dval (o_QuoteAmount o))
      (w := fun f => (- (dval (f_price f) * dval (f_quantity f)))%Q) in Hs.
    + rewrite notional_neg in Hs. split; [lra|]. split; [done|]. apply Hquote. by left.
    + intros ? ? f Hi0 Hl Hn. by apply (HT _ _ _ Hi0 Hl Hn).
  - split; [by apply Hamount|]. apply Hquote. by right.
Qed.

(** A limit order never trades at a worse price than its own. *)
Definition within_limit (o : Order) (f : fill) : Prop :=
  match kind_of o with
  | KBuy => (dval (f_price f) <= dval (o_Price o))%Q
  | KSell => (dval (o_Price o) <= dval (f_price f))%Q
  | _ => True
  end.

Lemma k_next_limit b o f : k_inv (kind_of o) b o -> k_next (kind_of o) b o = Ret (Some f) -> within_limit o f.
Proof.
  intros Hi Hn. unfold within_limit. assert (Hok : book_ok b) by by apply kind_inv_sweep in Hi as [? _].
  destruct (kind_of o) eqn:Ek; try done; cbn in Hn.
  - by destruct (matchBuyFill_Some _ _ _ Hok Hn) as (x & _ & ? & _).
  - by destruct (matchSellFill_Some _ _ _ Hok Hn) as (x & _ & ? & _).
Qed.

Lemma slice_run_trades budget b o r : sweep_inv b o -> slice_run budget b o = Some r ->
  k_other (kind_of o) (run_book r) = k_other (kind_of o) b /\
  (amounts (k_queue (kind_of o) (run_book r)) + quantities (run_fills r) == amounts (k_queue (kind_of o) b))%Q /\
  Forall (counterparty (k_queue (kind_of o)) b o) (run_fills r) /\ Forall (within_limit o) (run_fills r).
Proof.
  intros Hi Hr. pose proof (slice_run_sweeps _ _ _ _ Hi Hr) as Hs.
  pose proof (sweeps_amounts _ _ _ _ _ (SL := k_sweep (kind_of o)) _ _ _ _ _ Hs) as [H1 H2].
  split; [done|]. split; [done|]. split; [by eapply sweeps_counterparty; [apply k_sweep|]|].
  assert (HF : Forall (fun f => kind_of o = kind_of o -> within_limit o f) (run_fills r));
    [|eapply Forall_impl; [exact HF|]; auto].
  eapply (sweeps_Forall _ _ _ _ _ (SL := k_sweep (kind_of o)) (fun o' f => kind_of o' = kind_of o -> within_limit o' f)).
  - intros b1 o1 f Hi1 _ Hn Hk. rewrite <- Hk in Hi1, Hn. by eapply k_next_limit.
  - intros o1 o2 f Ht H Hk. unfold within_limit in *. rewrite (kind_of_terms _ _ Ht) in H. specialize (H Hk).
    destruct Ht as (_ & _ & _ & _ & _ & <- & _). done.
  - exact Hs.
Qed.

(** *** What is left when a sweep is done *)

(** The first order of a queue that is not the taker's own. *)
Definition first_other (o : Order) (queue : list Order) (x : Order) : Prop :=
  exists l1 l2, queue = l1 ++ x :: l2 /\ Forall (fun y => isSelfTrade o y = true) l1 /\ isSelfTrade o x = false.

Definition nothing_left (b : OrderBook) (o : Order) : Prop :=
  match kind_of o with
  | KBuy => (dval (o_Amount o) <= 0)%Q \/
      Forall (fun y => dval (o_Price o) < dval (o_Price y) \/ isSelfTrade o y = true)%Q (asks b)
  | KSell => (dval (o_Amount o) <= 0)%Q \/
      Forall (fun y => dval (o_Price y) < dval (o_Price o) \/ isSelfTrade o y = true)%Q (bids b)
  | KMarketBuy => (dval (o_QuoteAmount o) <= 0)%Q \/ Forall (fun y => isSelfTrade o y = true) (asks b) \/
      exists x, first_other o (asks b) x /\ (dval (o_QuoteAmount o) < dval (o_Price x) * ulp DivisionPrecision)%Q
  | KMarketSell => (dval (o_Amount o) <= 0)%Q \/ Forall (fun y => isSelfTrade o y = true) (bids b)
  | KNone => True
  end.

Lemma min_positive a x : GreaterThan a Zero = true -> (0 < dval x)%Q -> negb (GreaterThan (Min a x) Zero) = false.
Proof.
  intros Ha Hx. apply negb_false_iff, GreaterThan_true. dec_prop. dval_norm.
  destruct (Min_cases a x) as [[E ?]|[E ?]]; rewrite E; lra.
Qed.

Lemma market_buy_stop b o : market_buy_inv b o -> matchMarketBuyFill b o = Ret None ->
  Forall (fun y => isSelfTrade o y = true) (asks b) \/
  exists x, first_other o (asks b) x /\ (dval (o_QuoteAmount o) < dval (o_Price x) * ulp DivisionPrecision)%Q.
Proof.
  intros (Hok & _ & Hpos & Hq) H. unfold matchMarketBuyFill in H.
  destruct (bestMarketSellOrder b o) as [[lv i]|] eqn:E; [|left; by apply search_market_None].
  destruct (search_sell_Some _ _ _ _ _ Hok E) as (_ & x & Hat & Hp & Ha & Hx & l1 & l2 & HQ & HF & _). right.
  exists x. split; [by exists l1, l2|]. rewrite Hat in H.
  assert (Hpx : (0 < dval (o_Price x))%Q).
  { eapply Forall_forall in Hpos; [exact Hpos|]. rewrite HQ. set_solver. }
  assert (Hn : (~ dval (pl_Price lv) == 0)%Q) by lra.
  destruct (QuoRem_dval (o_QuoteAmount o) (pl_Price lv) DivisionPrecision Hn ltac:(done))
    as (q & r & k & EQ & _ & Heq & Hr). clear Hn. rewrite EQ in H. destruct (Hr Hq) as [_ Hr1].
  destruct (negb _) eqn:EM in H; [|done]. apply negb_true_iff in EM. dec_prop. rewrite dval_Zero in EM.
  rewrite Qabs_pos in Hr1 by lra.
  assert (Hq0 : (dval q <= 0)%Q) by (destruct (Min_cases q (o_Amount x)) as [[E1 ?]|[E1 ?]]; rewrite E1 in EM; lra).
  assert (dval (pl_Price lv) * dval q <= dval (pl_Price lv) * 0)%Q.
  { rewrite !(Qmult_comm (dval (pl_Price lv))). apply Qmult_le_compat_r; lra. }
  assert (dval (pl_Price lv) * ulp DivisionPrecision == dval (o_Price x) * ulp DivisionPrecision)%Q by by rewrite Hp.
  lra.
Qed.

Lemma k_next_None b o : k_inv (kind_of o) b o -> k_live (kind_of o) o = true -> k_next (kind_of o) b o = Ret None ->
  nothing_left b o.
Proof.
  intros Hi Hl Hn. unfold nothing_left. assert (Hok : book_ok b) by by apply kind_inv_sweep in Hi as [? _].
  destruct (kind_of o) eqn:Ek; cbn in *; try done.
  - right. unfold matchBuyFill in Hn. destruct (bestMatchableSellOrder b o) as [[lv i]|] eqn:E; [|by apply search_sell_None].
    destruct (search_sell_Some _ _ _ _ _ Hok E) as (_ & x & Hat & _ & Ha & _). rewrite Hat, min_positive in Hn by done. done.
  - right. unfold matchSellFill in Hn. destruct (bestMatchableBuyOrder b o) as [[lv i]|] eqn:E; [|by apply search_buy_None].
    destruct (search_buy_Some _ _ _ _ _ Hok E) as (_ & x & Hat & _ & Ha & _). rewrite Hat, min_positive in Hn by done. done.
  - right. by apply market_buy_stop.
  - right. unfold matchMarketSellFill in Hn. destruct (bestMarketBuyOrder b o) as [[lv i]|] eqn:E; [|by apply search_market_None].
    destruct (search_buy_Some _ _ _ _ _ Hok E) as (_ & x & Hat & _ & Ha & _). rewrite Hat, min_positive in Hn by done. done.
Qed.

Lemma not_live_nothing b o : k_live (kind_of o) o = false -> nothing_left b o.
Proof.
  unfold nothing_left. destruct (kind_of o); cbn; intros H; try done; left;
    unfold base_live, quote_live in H; dec_prop; by rewrite dval_Zero in H.
Qed.

Lemma slice_run_done budget b o r : sweep_inv b o -> slice_run budget b o = Some r -> run_done r = true ->
  nothing_left (run_book r) (run_order r).
Proof.
  intros Hi Hr Hd. destruct (slice_run_inv _ _ _ _ Hi Hr) as [Ht Hi'].
  apply kind_of_terms in Ht. apply sweep_inv_kind in Hi'. unfold slice_run in Hr. rewrite <- Ht in Hr.
  destruct (k_live (kind_of (run_order r)) (run_order r)) eqn:El; [|by apply not_live_nothing].
  destruct (pure_loop_stop _ _ _ _ _ _ _ Hr Hd) as [H|H]; [congruence|]. by apply k_next_None.
Qed.

(** *** [matchSlice] *)

Lemma matchSlice_Ret budget b o es n d s' : sweep_inv b o -> matchSlice budget (mkSweep b o es) = Ret (n, d, s') ->
  exists r, slice_run (budget_left budget 0) b o = Some r /\ n = Z.of_nat (length (run_fills r)) /\ d = run_done r /\
    s' = mkSweep (run_book r) (run_order r) (reported (o_CoinSymbol o) es (run_fills r)).
Proof.
  intros Hi%sweep_inv_kind H. rewrite matchSlice_loop in H. cbn [sw_book sw_order] in H.
  by apply (match_loop_Ret _ _ _ _ _ (SL := k_sweep _)) in H.
Qed.

Lemma matchSlice_returns budget b o es r : sweep_inv b o -> slice_run (budget_left budget 0) b o = Some r ->
  can_emit (Z.of_nat (length (run_fills r))) es ->
  matchSlice budget (mkSweep b o es) = Ret (Z.of_nat (length (run_fills r)), run_done r,
       mkSweep (run_book r) (run_order r) (reported (o_CoinSymbol o) es (run_fills r))).
Proof.
  intros Hi%sweep_inv_kind Hr Hc. rewrite matchSlice_loop. cbn [sw_book sw_order].
  rewrite <- (Z.add_0_l (Z.of_nat _)). by apply (match_loop_reports _ _ _ _ _ (SL := k_sweep _)).
Qed.

Lemma can_emit_le m n es : can_emit m es -> n <= m -> can_emit n es.
Proof. unfold can_emit. destruct (ExecutionCh es); [|done]. intros [? H] ?. split; [lia|]. intros Ha. specialize (H Ha). lia. Qed.

Lemma reported_room sym fs es n : can_emit (Z.of_nat (length fs) + n) es -> can_emit n (reported sym es fs).
Proof.
  revert es. induction fs as [|f fs IH]; intros es H; [done|]. cbn in *. apply IH.
  eapply can_emit_le; [|shelve]. unfold reported1. cbn.
  apply exec_push_room. exact H. Unshelve. lia.
Qed.

(** A bounded slice with room for its trades. *)
Lemma matchSlice_total budget extra b o es : sweep_inv b o -> 0 < budget -> 0 <= extra -> can_emit (budget + extra) es ->
  exists r, slice_run (Some (Z.to_nat budget)) b o = Some r /\
    matchSlice budget (mkSweep b o es) = Ret (Z.of_nat (length (run_fills r)), run_done r,
       mkSweep (run_book r) (run_order r) (reported (o_CoinSymbol o) es (run_fills r))) /\
    Z.of_nat (length (run_fills r)) <= budget /\ (run_done r = false -> Z.of_nat (length (run_fills r)) = budget) /\
    can_emit (budget + extra - Z.of_nat (length (run_fills r))) (reported (o_CoinSymbol o) es (run_fills r)).
Proof.
  intros Hi Hb Hx Hc. destruct (slice_run_total (Some (Z.to_nat budget)) b o Hi) as [r Hr]. exists r. split; [done|].
  pose proof Hr as Hr'. unfold slice_run in Hr'. apply pure_loop_budget in Hr' as [H1 H2].
  assert (Hbl : budget_left budget 0 = Some (Z.to_nat budget)).
  { unfold budget_left. by rewrite (proj2 (Z.ltb_lt _ _)), Z.sub_0_r by done. }
  split; [apply matchSlice_returns; [done|by rewrite Hbl|eapply can_emit_le; [exact Hc|lia]]|].
  split; [lia|]. split; [intros Hd; destruct (H2 Hd); lia|]. apply reported_room.
  by replace (_ + _) with (budget + extra) by lia.
Qed.

(** *** Statements on the trades that were reported *)

Definition t_quantities (ts : list Trade) : Q := Qsum (map (fun t => dval (t_Quantity t)) ts).
Definition t_notional (ts : list Trade) : Q := Qsum (map (fun t => dval (t_Price t) * dval (t_Quantity t))%Q ts).

Lemma report_sums sym fs es :
  t_quantities (report sym es fs) = quantities fs /\ t_notional (report sym es fs) = notional fs.
Proof.
  unfold t_quantities, t_notional, quantities, notional. revert es.
  induction fs as [|f fs IH]; intros es; [done|]. cbn [report map]. rewrite !Qsum_cons.
  destruct (IH (reported1 sym es f)) as [-> ->]. done.
Qed.

Lemma report_Forall (P : Trade -> Prop) (Q : fill -> Prop) sym fs es :
  (forall es f, Q f -> P (numbered sym es f)) -> Forall Q fs -> Forall P (report sym es fs).
Proof. intros H HF. revert es. induction HF; intros es; constructor; auto. Qed.

(** The incoming order, its trades [ts] and the book before and after. *)
Record swept (b : OrderBook) (o : Order) (ts : list Trade) (b' : OrderBook) (o' : Order) : Prop := {
  swept_inv : sweep_inv b' o';
  swept_terms : same_terms o' o;
  swept_own_side : k_other (kind_of o) b' = k_other (kind_of o) b;
  swept_book : (amounts (k_queue (kind_of o) b') + t_quantities ts == amounts (k_queue (kind_of o) b))%Q;
  swept_filled : (dval (o_FilledAmount o') == dval (o_FilledAmount o) + t_quantities ts)%Q;
  swept_base : kind_of o <> KMarketBuy -> (dval (o_Amount o') + t_quantities ts == dval (o_Amount o))%Q;
  swept_quote : kind_of o = KMarketBuy ->
    (dval (o_QuoteAmount o') + t_notional ts == dval (o_QuoteAmount o) /\ 0 <= dval (o_QuoteAmount o'))%Q
}.

Lemma slice_run_swept budget b o r es : sweep_inv b o -> slice_run budget b o = Some r ->
  swept b o (report (o_CoinSymbol o) es (run_fills r)) (run_book r) (run_order r).
Proof.
  intros Hi Hr. destruct (slice_run_inv _ _ _ _ Hi Hr) as [Ht Hi'].
  destruct (slice_run_trades _ _ _ _ Hi Hr) as (Ho & Hq & _). destruct (slice_run_account _ _ _ _ Hi Hr) as [Hf Ha].
  destruct (report_sums (o_CoinSymbol o) (run_fills r) es) as [E1 E2].
  split; rewrite ?E1, ?E2; try done; destruct (kind_of o); try done; intros; try lra.
Qed.

(** A trade of [o] with an order of the book: positive quantity, somebody
    else's order, at that order's price, within [o]'s limit. *)
Definition fair_trade (b : OrderBook) (o : Order) (t : Trade) : Prop :=
  (0 < dval (t_Quantity t))%Q /\ t_CoinSymbol t = o_CoinSymbol o /\
  exists x, x ∈ k_queue (kind_of o) b /\ isSelfTrade o x = false /\ (dval (t_Price t) == dval (o_Price x))%Q /\
    match kind_of o with
    | KBuy => t_BuyOrderID t = o_ID o /\ t_SellOrderID t = o_ID x /\ (dval (t_Price t) <= dval (o_Price o))%Q
    | KMarketBuy => t_BuyOrderID t = o_ID o /\ t_SellOrderID t = o_ID x
    | KSell => t_BuyOrderID t = o_ID x /\ t_SellOrderID t = o_ID o /\ (dval (o_Price o) <= dval (t_Price t))%Q
    | _ => t_BuyOrderID t = o_ID x /\ t_SellOrderID t = o_ID o
    end.

Lemma slice_run_fair budget b o r es : sweep_inv b o -> slice_run budget b o = Some r ->
  Forall (fair_trade b o) (report (o_CoinSymbol o) es (run_fills r)).
Proof.
  intros Hi Hr. destruct (slice_run_trades _ _ _ _ Hi Hr) as (_ & _ & Hc & Hl).
  eapply report_Forall; [|apply Forall_and; split; [exact Hc|exact Hl]].
  intros es' f [(Hq & x & Hx & Hs & Hp & Hid) Hlim]. unfold fair_trade, numbered. cbn.
  split; [done|]. split; [done|]. exists x. repeat (split; [done|]).
  unfold within_limit in Hlim. unfold kind_of in *.
  destruct (o_Side o) eqn:Es; [rewrite bool_decide_eq_true_2 in Hid by done|rewrite bool_decide_eq_false_2 in Hid by done..];
    try destruct (bool_decide (o_OrderType o = OrderTypeMarket)); tauto.
Qed.
End Slice.

(** [ExpectedSlices] against the count of a sweep with [t] trades. *)
Lemma slice_count_expected (m t : nat) (live : bool) : (0 < m)%nat ->
  Z.of_nat (if live then S (t / m) else S (pred t / m)) =
  ExpectedSlices (Z.of_nat t) (Z.of_nat m) + (if live && bool_decide (t <> 0 /\ t mod m = 0)%nat then 1 else 0).
Proof.
  intros Hm. unfold ExpectedSlices. rewrite (proj2 (Z.leb_gt _ 0)) by lia. cbn [orb].
  rewrite Z.quot_div_nonneg, Z.rem_mod_nonneg by lia. rewrite <- Nat2Z.inj_div, <- Nat2Z.inj_mod.
  pose proof (Nat.div_mod t m ltac:(lia)) as Hdm. pose proof (Nat.mod_upper_bound t m ltac:(lia)) as Hub.
  assert (Hp : (t <> 0 -> t mod m = 0 -> pred t / m = pred (t / m))%nat).
  { intros Ht H0. symmetry. apply (Nat.div_unique _ _ _ (m - 1)); [lia|]. rewrite H0 in Hdm.
    destruct (t / m)%nat as [|q]; cbn; nia. }
  assert (Hp' : (t mod m <> 0 -> pred t / m = t / m)%nat).
  { intros H0. symmetry. apply (Nat.div_unique _ _ _ (t mod m - 1)); lia. }
  destruct (Z.of_nat t <=? Z.of_nat m) eqn:Et; bool_to_prop.
  - destruct (decide (t = m)) as [->|Hne].
    + rewrite Nat.div_same, (Nat.div_small (pred m)), Nat.Div0.mod_same by lia.
      destruct live; [rewrite bool_decide_eq_true_2 by lia|]; done.
    + rewrite (Nat.div_small t), (Nat.div_small (pred t)), (Nat.mod_small t) by lia.
      rewrite bool_decide_eq_false_2 by lia. by destruct live.
  - destruct (decide (t mod m = 0)%nat) as [H0|H0].
    + rewrite (bool_decide_eq_true_2 (_ /\ _)) by lia. rewrite H0, Hp by lia.
      change (Z.of_nat 0 =? 0) with true. destruct live; cbn [negb andb]; [lia|].
      assert (t / m <> 0)%nat by (intros E; rewrite E in Hdm; nia). lia.
    + rewrite (bool_decide_eq_false_2 (_ /\ _)) by lia. rewrite (proj2 (Z.eqb_neq _ 0)), Hp' by lia.
      destruct live; cbn [negb andb]; lia.
Qed.

(** ** The theorems *)

Section SliceTheorems.
Context {DL : DecimalLib} {CL : ContainerLib} {DLaws : DecimalLaws DL} {CLaws : ContainerLaws CL}.

(** C6 Conservation.  Whatever a slice of any kind of order returns with, the
    events it appended to the execution channel are exactly its trades, the
    opposite side of the book lost exactly the quantity traded, the order's
    own side is untouched, the order's filled amount grew by that quantity and
    its remaining amount (or, for a market buy, its quote budget, which never
    goes below zero) shrank by it; the book stays well formed. *)
Theorem slice_conserves budget b o es n d s' :
  sweep_inv b o -> is_Some (ExecutionCh es) -> freshID es <> "" ->
  matchSlice budget (mkSweep b o es) = Ret (n, d, s') ->
  exists ts, exec_events (sw_es s') = exec_events es ++ map EvTrade ts /\ n = Z.of_nat (length ts) /\
    swept b o ts (sw_book s') (sw_order s').
Proof.
  intros Hi Hch Hfr H. destruct (matchSlice_Ret _ _ _ _ _ _ _ Hi H) as (r & Hr & -> & -> & ->). cbn.
  destruct (report_spec (o_CoinSymbol o) (run_fills r) es Hfr Hch) as (Hl & _ & He & _).
  exists (report (o_CoinSymbol o) es (run_fills r)). split; [done|]. split; [by rewrite Hl|].
  by eapply slice_run_swept.
Qed.

(** Fairness.  Every trade a slice reports has a positive quantity, is with
    an order that was in the book and belongs to somebody else, is made at
    that order's price and never at a worse price than the incoming order's
    limit, names the two orders as buyer and seller, and carries the next
    engine sequence number. *)
Theorem slice_trades_fair budget b o es n d s' :
  sweep_inv b o -> is_Some (ExecutionCh es) -> freshID es <> "" ->
  matchSlice budget (mkSweep b o es) = Ret (n, d, s') ->
  exists ts, exec_events (sw_es s') = exec_events es ++ map EvTrade ts /\ Forall (fair_trade b o) ts /\
    forall i t, ts !! i = Some t -> t_EngineSequence t = tradeSeq es + 1 + Z.of_nat i /\
      t_EngineEventID t = event_id (engine_name es) (t_EngineSequence t).
Proof.
  intros Hi Hch Hfr H. destruct (matchSlice_Ret _ _ _ _ _ _ _ Hi H) as (r & Hr & -> & -> & ->). cbn.
  destruct (report_spec (o_CoinSymbol o) (run_fills r) es Hfr Hch) as (Hl & _ & He & Ht).
  exists (report (o_CoinSymbol o) es (run_fills r)). split; [done|]. split; [by eapply slice_run_fair|].
  intros i t Hi'. assert (is_Some (run_fills r !! i)) as [f Hf].
  { apply lookup_lt_is_Some. rewrite <- Hl. by eapply lookup_lt_Some. }
  destruct (Ht i f t Hf Hi') as (-> & -> & _). done.
Qed.

(** Exhaustion.  When a slice reports done there is nothing left to trade:
    a limit order is filled or every order still within its price is the
    user's own; a market sell is filled or only the user's own bids are left;
    a market buy has no budget, or only own asks are left, or its budget does
    not pay for 10^-16 of the best order that is not its own. *)
Theorem slice_done_exhausted budget b o es n s' :
  sweep_inv b o -> matchSlice budget (mkSweep b o es) = Ret (n, true, s') ->
  nothing_left (sw_book s') (sw_order s').
Proof.
  intros Hi H. destruct (matchSlice_Ret _ _ _ _ _ _ _ Hi H) as (r & Hr & _ & Hd & ->). cbn.
  by eapply slice_run_done.
Qed.

(** Totality.  A slice with a budget and room for that many events in the
    channel and in the reservation returns (it neither panics nor blocks, nor
    runs out of fuel), makes at most [budget] trades, makes exactly [budget]
    when it reports it is not done, and leaves the unused room. *)
Theorem slice_returns budget extra b o es :
  sweep_inv b o -> 0 < budget -> 0 <= extra -> can_emit (budget + extra) es ->
  exists n d s', matchSlice budget (mkSweep b o es) = Ret (n, d, s') /\ 0 <= n <= budget /\
    (d = false -> n = budget) /\ can_emit (budget + extra - n) (sw_es s').
Proof.
  intros Hi Hb Hx Hc. destruct (matchSlice_total budget extra b o es Hi Hb Hx Hc) as (r & _ & -> & H1 & H2 & H3).
  eexists _, _, _. split; [done|]. split; [lia|]. done.
Qed.

(** Slicing changes nothing.  Cutting a sweep into slices of [m] trades
    makes the same trades in the same order, ends with the same book and the
    same order as one uninterrupted sweep, and takes the number of slices
    [ExpectedSlices] says, plus an empty last one exactly when the book ran
    out at the end of a full slice. *)
Theorem slices_agree m b o : (0 < m)%nat -> sweep_inv b o ->
  exists r rs l, slice_run None b o = Some r /\
    run_slices (k_live (kind_of o)) (k_next (kind_of o)) m (S (length (run_fills r))) (sweep_fuel b) b o = Some rs /\
    concat (map run_fills rs) = run_fills r /\
    last rs = Some l /\ run_book l = run_book r /\ run_order l = run_order r /\
    Z.of_nat (length rs) = ExpectedSlices (Z.of_nat (length (run_fills r))) (Z.of_nat m) +
      (if k_live (kind_of o) (run_order r) && bool_decide (length (run_fills r) <> 0 /\ length (run_fills r) mod m = 0)%nat
       then 1 else 0).
Proof.
  intros Hm Hi. destruct (slice_run_total None b o Hi) as [r Hr].
  destruct (slices_match _ _ m (S (length (run_fills r))) _ _ _ r Hm Hr ltac:(lia))
    as (rs & l & H1 & H2 & H3 & H4 & H5 & H6).
  exists r, rs, l. repeat (split; [done|]). rewrite H6. unfold slice_count. apply slice_count_expected. done.
Qed.
End SliceTheorems.

(** ** Witnesses: the sample book and a limit buy, sliced by two *)

Lemma sample_inv : sweep_inv sample_book buy4.
Proof. split; [apply sample_book_ok|done]. Qed.

Lemma sample_market_inv : sweep_inv sample_book market5.
Proof. split; [apply sample_book_ok|]. intros _. split; [apply sample_prices|done]. Qed.

(** What the slice returns: trades made and whether it is done. *)
Definition slice_summary {DL : DecimalLib} {CL : ContainerLib} (x : outcome (Z * bool * sweep)) : option (Z * bool) :=
  match x with Ret (n, d, _) => Some (n, d) | _ => None end.

Lemma slice_summary_Ret {DL : DecimalLib} {CL : ContainerLib} x n d : slice_summary x = Some (n, d) ->
  exists s', x = Ret (n, d, s').
Proof. destruct x as [[[n' d'] s']| | |]; cbn; intros [= -> ->]; eauto. Qed.

Lemma slice_conserves_witness : exists n d s' ts,
  matchSlice 2 (mkSweep sample_book buy4 sample_emitter) = Ret (n, d, s') /\
  exec_events (sw_es s') = exec_events sample_emitter ++ map EvTrade ts /\ n = Z.of_nat (length ts) /\
  swept sample_book buy4 ts (sw_book s') (sw_order s').
Proof.
  destruct (slice_summary_Ret (matchSlice 2 (mkSweep sample_book buy4 sample_emitter)) 2 false) as [s' H];
    [vm_compute; reflexivity|].
  destruct (slice_conserves 2 sample_book buy4 sample_emitter _ _ _ sample_inv ltac:(eexists; reflexivity) ltac:(discriminate) H) as [ts Hts].
  exists 2, false, s', ts. split; [exact H|exact Hts].
Defined.

Lemma slice_trades_fair_witness : exists n d s' ts,
  matchSlice 0 (mkSweep sample_book market5 sample_emitter) = Ret (n, d, s') /\
  exec_events (sw_es s') = exec_events sample_emitter ++ map EvTrade ts /\ Forall (fair_trade sample_book market5) ts.
Proof.
  destruct (slice_summary_Ret (matchSlice 0 (mkSweep sample_book market5 sample_emitter)) 2 true) as [s' H];
    [vm_compute; reflexivity|].
  destruct (slice_trades_fair 0 sample_book market5 sample_emitter _ _ _ sample_market_inv ltac:(eexists; reflexivity) ltac:(discriminate) H)
    as (ts & H1 & H2 & _).
  exists 2, true, s', ts. split; [exact H|]. split; [exact H1|exact H2].
Defined.

Lemma slice_done_exhausted_witness : exists n s',
  matchSlice 5 (mkSweep sample_book buy4 sample_emitter) = Ret (n, true, s') /\ nothing_left (sw_book s') (sw_order s').
Proof.
  destruct (slice_summary_Ret (matchSlice 5 (mkSweep sample_book buy4 sample_emitter)) 3 true) as [s' H];
    [vm_compute; reflexivity|].
  exists 3, s'. split; [exact H|]. exact (slice_done_exhausted 5 _ _ _ _ _ sample_inv H).
Defined.

Lemma slice_returns_witness : exists n d s',
  matchSlice 2 (mkSweep sample_book buy4 sample_emitter) = Ret (n, d, s') /\ 0 <= n <= 2 /\
  (d = false -> n = 2) /\ can_emit (2 + 1 - n) (sw_es s').
Proof.
  apply (slice_returns 2 1); [exact sample_inv|reflexivity|discriminate|]. split; [discriminate|discriminate].
Defined.

Lemma slices_agree_witness : exists r rs l, slice_run None sample_book buy4 = Some r /\
  run_slices (k_live (kind_of buy4)) (k_next (kind_of buy4)) 2 (S (length (run_fills r)))
    (sweep_fuel sample_book) sample_book buy4 = Some rs /\
  concat (map run_fills rs) = run_fills r /\
  last rs = Some l /\ run_book l = run_book r /\ run_order l = run_order r /\
  Z.of_nat (length rs) = ExpectedSlices (Z.of_nat (length (run_fills r))) 2 +
    (if k_live (kind_of buy4) (run_order r) && bool_decide (length (run_fills r) <> 0 /\ length (run_fills r) mod 2 = 0)%nat
     then 1 else 0).
Proof. apply (slices_agree 2 sample_book buy4); [lia|exact sample_inv]. Defined.
