(* ===== verification/Priority.v ===== *)
(** * Price-time priority and the one-pass reference

    The match loops search the book afresh for every trade.  [one_pass] is the
    reading of the rules a trader has in mind: walk the opposite side once, in
    priority order, skipping one's own orders, until the amount is used up or
    the price limit is passed.  The two agree for limit orders and market
    sells. *)
From S2P Require Import Prelude Decimal Containers Model OrderBook Quantum Matching Fixtures Sweep Slice.
From Stdlib Require Import Lia.

Section Priority.
Context {DL : DecimalLib} {CL : ContainerLib}.

Definition within (o y : Order) : bool :=
  match kind_of o with
  | KBuy => negb (LessThan (o_Price o) (o_Price y))
  | KSell => negb (LessThan (o_Price y) (o_Price o))
  | _ => true
  end.

(** Deals (quantity and resting order), the side afterwards, the amount left. *)
Fixpoint one_pass (o : Order) (amount : decimal) (queue : list Order)
  : list (decimal * Order) * list Order * decimal :=
  match queue with
  | [] => ([], [], amount)
  | y :: rest =>
      if negb (GreaterThan amount Zero) || negb (within o y) then ([], queue, amount)
      else if isSelfTrade o y then
        let '(deals, rest', rem) := one_pass o amount rest in (deals, y :: rest', rem)
      else
        let qty := Min amount (o_Amount y) in
        let '(deals, rest', rem) := one_pass o (Sub amount qty) rest in
        ((qty, y) :: deals, keep (take_from y qty) ++ rest', rem)
  end.

Context {DLaws : DecimalLaws DL} {CLaws : ContainerLaws CL}.

(** *** The sides are sorted by price *)

Lemma flat_sorted (R : Q -> Q -> Prop) `{!Proper (Qeq ==> Qeq ==> iff) R} isBuy ls :
  (forall q, R q q) ->
  StronglySorted (fun a b => R (dval (pl_Price a)) (dval (pl_Price b))) ls -> Forall (level_ok isBuy) ls ->
  StronglySorted (fun x y => R (dval (o_Price x)) (dval (o_Price y))) (flat ls).
Proof.
  intros Hrefl Hs. induction Hs as [|l ls Hs IH Hl]; intros HL; [constructor|].
  apply Forall_cons in HL as [[_ Hlv] HL]. rewrite flat_cons. specialize (IH HL).
  assert (Hprice : Forall (fun y => R (dval (pl_Price l)) (dval (o_Price y))) (flat ls)).
  { clear IH Hs. induction ls as [|k ls IHl]; [constructor|]. rewrite flat_cons.
    apply Forall_cons in Hl as [Hk Hl]. apply Forall_cons in HL as [[_ Hkl] HL].
    apply Forall_app. split; [|by apply IHl]. eapply Forall_impl; [exact Hkl|].
    intros y (E & _). by rewrite E. }
  induction Hlv as [|x xs (Hx & _) Hxs IHx]; [done|]. cbn. constructor; [done|].
  apply Forall_app. split.
  - eapply Forall_impl; [exact Hxs|]. intros y (Hy & _). by rewrite Hx, Hy.
  - eapply Forall_impl; [exact Hprice|]. intros y Hy. by rewrite Hx.
Qed.

Lemma StronglySorted_rev {A} (R : A -> A -> Prop) l : StronglySorted R l -> StronglySorted (fun x y => R y x) (rev l).
Proof.
  induction 1 as [|x l Hs IH Hx]; cbn; [constructor|].
  assert (H : forall k, StronglySorted (fun a b => R b a) k -> Forall (fun y => R x y) k ->
    StronglySorted (fun a b => R b a) (k ++ [x])).
  { clear. induction 1 as [|y k Hs IH Hy]; intros HF; [by repeat constructor|].
    apply Forall_cons in HF as [Hxy HF]. cbn. constructor; [by apply IH|].
    apply Forall_app. split; [done|]. by constructor. }
  apply H; [done|]. by apply Forall_rev.
Qed.

Lemma levels_sorted t isBuy : tree_ok isBuy t ->
  StronglySorted (fun a b => dval (pl_Price a) < dval (pl_Price b))%Q (btAscend t).
Proof.
  intros [Hbt _]. pose proof (bt_ascending _ _ Hbt) as H. unfold ascending in H.
  induction H as [|l ls Hs IH Hl]; constructor; [done|]. eapply Forall_impl; [exact Hl|].
  intros k Hk. by apply LessThan_true in Hk.
Qed.

Lemma StronglySorted_impl {A} (R S : A -> A -> Prop) l : (forall x y, R x y -> S x y) ->
  StronglySorted R l -> StronglySorted S l.
Proof. intros HRS. induction 1; constructor; [done|]. eapply Forall_impl; eauto. Qed.

Lemma asks_sorted b : book_ok b -> StronglySorted (fun x y => dval (o_Price x) <= dval (o_Price y))%Q (asks b).
Proof.
  intros [_ HS]. apply (flat_sorted Qle false).
  - intros q. lra.
  - eapply StronglySorted_impl; [|by eapply levels_sorted]. intros. cbn in *. lra.
  - apply HS.
Qed.

Lemma bids_sorted b : book_ok b -> StronglySorted (fun x y => dval (o_Price y) <= dval (o_Price x))%Q (bids b).
Proof.
  intros [HB _]. unfold bids. rewrite btDescend_rev.
  assert (HR : Proper (Qeq ==> Qeq ==> iff) (fun p q => q <= p)%Q) by (intros p p' Hp q q' Hq; by rewrite Hp, Hq).
  apply (flat_sorted (fun p q => q <= p)%Q true).
  - intros q. lra.
  - apply (StronglySorted_rev (fun x y => dval (pl_Price x) <= dval (pl_Price y))%Q).
    eapply StronglySorted_impl; [|by eapply levels_sorted]. intros. cbn in *. lra.
  - apply Forall_rev, HB.
Qed.

Lemma StronglySorted_before {A} (R : A -> A -> Prop) l1 x l2 : StronglySorted R (l1 ++ x :: l2) -> Forall (fun y => R y x) l1.
Proof.
  induction l1 as [|y l1 IH]; cbn; intros H; [constructor|]. inversion H as [|? ? Hs Hy]; subst.
  constructor; [|by apply IH]. rewrite Forall_app, Forall_cons in Hy. tauto.
Qed.

(** Everything with priority over an order within the limit is within it. *)
Lemma within_before b o l1 x l2 : book_ok b -> k_queue (kind_of o) b = l1 ++ x :: l2 -> within o x = true ->
  Forall (fun y => within o y = true) l1.
Proof.
  intros Hok HQ Hx. unfold within in *. destruct (kind_of o); cbn in HQ; try by apply Forall_true.
  - pose proof (asks_sorted b Hok) as Hs. rewrite HQ in Hs. apply StronglySorted_before in Hs.
    eapply Forall_impl; [exact Hs|]. intros y Hy. cbn in Hy. rewrite <- GreaterThanOrEqual_negb in *.
    apply GreaterThanOrEqual_true. dec_prop. lra.
  - pose proof (bids_sorted b Hok) as Hs. rewrite HQ in Hs. apply StronglySorted_before in Hs.
    eapply Forall_impl; [exact Hs|]. intros y Hy. cbn in Hy. rewrite <- GreaterThanOrEqual_negb in *.
    apply GreaterThanOrEqual_true. dec_prop. lra.
Qed.

(** *** Facts about the one pass *)

Lemma one_pass_stop o a q : GreaterThan a Zero = false -> one_pass o a q = ([], q, a).
Proof. intros H. destruct q; cbn; [done|]. by rewrite H. Qed.

Lemma one_pass_skip o a l1 q : GreaterThan a Zero = true ->
  Forall (fun y => isSelfTrade o y = true) l1 -> Forall (fun y => within o y = true) l1 ->
  one_pass o a (l1 ++ q) = let '(d, q', a') := one_pass o a q in (d, l1 ++ q', a').
Proof.
  intros Ha Hs Hw. induction l1 as [|y l1 IH]; cbn; [by destruct (one_pass o a q) as [[? ?] ?]|].
  apply Forall_cons in Hs as [Hy Hs]. apply Forall_cons in Hw as [Hwy Hw].
  rewrite Ha, Hwy, Hy, (IH Hs Hw). cbn. by destruct (one_pass o a q) as [[? ?] ?].
Qed.

Lemma one_pass_nothing o a q : Forall (fun y => within o y = false \/ isSelfTrade o y = true) q -> one_pass o a q = ([], q, a).
Proof.
  induction 1 as [|y q [Hy|Hy] HF IH]; cbn; [done| |].
  - rewrite Hy. by rewrite orb_true_r.
  - rewrite Hy, IH. by destruct (_ || _).
Qed.

Lemma one_pass_terms o o' a q : same_terms o o' -> one_pass o a q = one_pass o' a q.
Proof.
  intros Ht. revert a. induction q as [|y q IH]; intros a; cbn; [done|].
  assert (Hw : within o y = within o' y).
  { unfold within. rewrite (kind_of_terms _ _ Ht). destruct Ht as (_ & _ & _ & _ & _ & -> & _). done. }
  rewrite Hw, (isSelfTrade_taker _ _ y Ht), !IH. done.
Qed.

(** The fill a loop makes is the deal the pass makes. *)
Definition same_deal (o : Order) (f : fill) (deal : decimal * Order) : Prop :=
  f_quantity f = fst deal /\ (dval (f_price f) == dval (o_Price (snd deal)))%Q /\
  (if bool_decide (o_Side o = OrderSideBuy) then f_buyID f = o_ID o /\ f_sellID f = o_ID (snd deal)
   else f_buyID f = o_ID (snd deal) /\ f_sellID f = o_ID o).

(** One iteration, for the kinds that count in the base asset. *)
Lemma k_next_deal b o f : sweep_inv b o -> kind_of o <> KMarketBuy -> k_live (kind_of o) o = true ->
  k_next (kind_of o) b o = Ret (Some f) ->
  exists x, trades_with (k_queue (kind_of o)) (k_other (kind_of o)) b o f x /\ same_terms (f_order f) o /\
    same_deal o f (Min (o_Amount o) (o_Amount x), x) /\ within o x = true /\
    o_Amount (f_order f) = Sub (o_Amount o) (f_quantity f).
Proof.
  intros Hi Hk Hl Hn. pose proof (sweep_inv_kind _ _ Hi) as Hki. destruct Hi as [Hok _].
  destruct (sl_fill (SweepLaws := k_sweep (kind_of o)) b o f Hki Hl Hn) as (_ & _ & x' & _ & Hid').
  unfold within, same_deal. destruct (kind_of o) eqn:Ek; try done; cbn in Hn, Hki, Hid'.
  - destruct (matchBuyFill_Some _ _ _ Hok Hn) as (x & HT & Hp & Hb & Hs & _ & Ht & Hq & _).
    exists x. split; [done|]. split; [done|]. split; [|split].
    + cbn. split; [done|]. split; [apply HT|]. destruct Hki as [_ Hside]. by rewrite bool_decide_eq_true_2.
    + destruct HT as (_ & Hpx & _). rewrite <- GreaterThanOrEqual_negb. apply GreaterThanOrEqual_true. lra.
    + clear -Hn. unfold matchBuyFill in Hn. inv_ok Hn. done.
  - destruct (matchSellFill_Some _ _ _ Hok Hn) as (x & HT & Hp & Hb & Hs & _ & Ht & Hq & _).
    exists x. split; [done|]. split; [done|]. split; [|split].
    + cbn. split; [done|]. split; [apply HT|]. destruct Hki as [_ Hside]. by rewrite Hside.
    + destruct HT as (_ & Hpx & _). rewrite <- GreaterThanOrEqual_negb. apply GreaterThanOrEqual_true. lra.
    + clear -Hn. unfold matchSellFill in Hn. inv_ok Hn. done.
  - destruct (matchMarketSellFill_Some _ _ _ Hok Hn) as (x & HT & Hb & Hs & _ & Ht & Hq & _).
    exists x. split; [done|]. split; [done|]. split; [|split; [done|]].
    + cbn. split; [done|]. split; [apply HT|]. destruct Hki as [_ Hside]. by rewrite Hside.
    + clear -Hn. unfold matchMarketSellFill in Hn. inv_ok Hn. done.
Qed.

Definition base_kind (o : Order) : Prop := kind_of o = KBuy \/ kind_of o = KSell \/ kind_of o = KMarketSell.

Lemma base_kind_live o : base_kind o -> k_live (kind_of o) o = GreaterThan (o_Amount o) Zero.
Proof. by intros [-> | [-> | ->]]. Qed.

Lemma same_deal_terms o o' f d : same_terms o o' -> same_deal o f d -> same_deal o' f d.
Proof. intros (Hid & _ & _ & Hs & _). unfold same_deal. by rewrite Hid, Hs. Qed.

Lemma nothing_left_pass b o : base_kind o -> k_live (kind_of o) o = true -> nothing_left b o ->
  one_pass o (o_Amount o) (k_queue (kind_of o) b) = ([], k_queue (kind_of o) b, o_Amount o).
Proof.
  intros Hb Hl Hn. rewrite (base_kind_live _ Hb) in Hl. dec_prop. rewrite dval_Zero in Hl. apply one_pass_nothing.
  unfold nothing_left, within in *.
  destruct Hb as [E|[E|E]]; rewrite E in *; (destruct Hn as [Hn|Hn]; [lra|]); cbn.
  - eapply Forall_impl; [exact Hn|]. intros y [Hy|Hy]; [left|by right]. apply negb_false_iff, LessThan_true. done.
  - eapply Forall_impl; [exact Hn|]. intros y [Hy|Hy]; [left|by right]. apply negb_false_iff, LessThan_true. done.
  - eapply Forall_impl; [exact Hn|]. by right.
Qed.

(** The step of the equivalence: trading with the first order that is not
    one's own, then passing over the updated queue, is one step of the pass. *)
Lemma one_pass_step o a x l1 l2 d q' a' : GreaterThan a Zero = true -> within o x = true -> isSelfTrade o x = false ->
  Forall (fun y => isSelfTrade o y = true) l1 -> Forall (fun y => within o y = true) l1 ->
  let qty := Min a (o_Amount x) in
  one_pass o (Sub a qty) (l1 ++ keep (take_from x qty) ++ l2) = (d, q', a') ->
  one_pass o a (l1 ++ x :: l2) = ((qty, x) :: d, q', a').
Proof.
  intros Ha Hx Hs Hs1 Hw1 qty H. rewrite one_pass_skip by done. cbn [one_pass]. rewrite Ha, Hx, Hs. cbn [negb orb].
  fold qty. destruct (GreaterThan (Sub a qty) Zero) eqn:E.
  - assert (Hk : keep (take_from x qty) = []).
    { unfold keep, take_from. cbn. rewrite (proj2 (GreaterThan_false _ _)); [done|]. dec_prop. dval_norm.
      unfold qty in *. destruct (Min_cases a (o_Amount x)) as [[E1 ?]|[E1 ?]]; rewrite E1 in *; lra. }
    rewrite Hk in *. cbn [app] in *. rewrite one_pass_skip in H by done.
    destruct (one_pass o (Sub a qty) l2) as [[d2 q2] a2]. by injection H as <- <- <-.
  - rewrite one_pass_stop in H by done. injection H as <- <- <-. by rewrite (one_pass_stop _ _ l2).
Qed.

Lemma loop_one_pass fuel b o r : sweep_inv b o -> base_kind o ->
  pure_loop (k_live (kind_of o)) (k_next (kind_of o)) None fuel b o = Some r ->
  exists deals, one_pass o (o_Amount o) (k_queue (kind_of o) b) =
      (deals, k_queue (kind_of o) (run_book r), o_Amount (run_order r)) /\
    Forall2 (same_deal o) (run_fills r) deals.
Proof.
  revert b o r. induction fuel as [|fuel IH]; intros b o r Hi Hb H; cbn in H;
    destruct (k_live (kind_of o) o) eqn:Hl; cbn in H; try done;
    try (injection H as <-; cbn; exists []; split; [|constructor];
         apply one_pass_stop; by rewrite <- (base_kind_live _ Hb)).
  destruct (k_next (kind_of o) b o) as [[f|]| | |] eqn:Hn; try done.
  - destruct (pure_loop _ _ _ _ _ _) as [r'|] eqn:E in H; [|done]. injection H as <-. cbn.
    assert (Hnm : kind_of o <> KMarketBuy) by (by destruct Hb as [-> | [-> | ->]]).
    destruct (k_next_deal _ _ _ Hi Hnm Hl Hn) as (x & HT & Ht & Hd & Hw & Ha).
    pose proof HT as (Hx & _ & _ & Hok' & _ & l1 & l2 & HQ & Hs1 & HQ').
    assert (Hi' : sweep_inv (f_book f) (f_order f)).
    { split; [done|]. rewrite (kind_of_terms _ _ Ht). done. }
    assert (Hb' : base_kind (f_order f)) by (unfold base_kind; by rewrite (kind_of_terms _ _ Ht)).
    rewrite <- (kind_of_terms _ _ Ht) in E. destruct (IH _ _ _ Hi' Hb' E) as (deals & Hp & HF).
    rewrite (kind_of_terms _ _ Ht) in Hp. rewrite (one_pass_terms _ _ _ _ Ht), HQ', Ha in Hp.
    destruct Hd as (Hq & Hd). cbn in Hq. rewrite Hq in Hp.
    rewrite HQ. eexists. split.
    + eapply one_pass_step; [by rewrite <- (base_kind_live _ Hb)|done|done|done| |exact Hp].
      destruct Hi as [Hok _]. by apply (within_before b o l1 x l2).
    + constructor; [by split|]. eapply Forall2_impl; [exact HF|]. intros g e. by apply same_deal_terms.
  - injection H as <-. cbn. exists []. split; [|constructor]. apply nothing_left_pass; [done|done|].
    apply k_next_None; [by apply sweep_inv_kind|done|done].
Qed.

(** C14 The reference.  For limit orders and market sells, an uninterrupted
    [Match] sweep makes exactly the deals of one walk down the opposite side
    in price-time priority (skipping the user's own orders, stopping when the
    amount is used up or the price limit is passed), in the same order, and
    leaves the same side of the book and the same remaining amount. *)
Theorem sweep_is_one_pass b o es n d s' : sweep_inv b o -> base_kind o ->
  matchSlice 0 (mkSweep b o es) = Ret (n, d, s') ->
  exists fills deals, n = Z.of_nat (length deals) /\ sw_es s' = reported (o_CoinSymbol o) es fills /\
    Forall2 (same_deal o) fills deals /\
    one_pass o (o_Amount o) (k_queue (kind_of o) b) =
      (deals, k_queue (kind_of o) (sw_book s'), o_Amount (sw_order s')).
Proof.
  intros Hi Hb H. destruct (matchSlice_Ret _ _ _ _ _ _ _ Hi H) as (r & Hr & -> & _ & ->). cbn.
  destruct (loop_one_pass _ _ _ _ Hi Hb Hr) as (deals & Hp & HF). exists (run_fills r), deals.
  split; [by rewrite (Forall2_length _ _ _ HF)|]. done.
Qed.

Definition ascending_prices (l : list Order) : Prop := StronglySorted (fun x y => dval (o_Price x) <= dval (o_Price y))%Q l.
Definition descending_prices (l : list Order) : Prop := StronglySorted (fun x y => dval (o_Price y) <= dval (o_Price x))%Q l.

(** The sides are priority queues: in a well-formed book the asks ascend
    and the bids descend in price, and [AddOrder] puts a new order behind
    every order of its side at least as good and before every worse one. *)
Theorem book_priority b o : book_ok b -> (0 < dval (o_Amount o))%Q ->
  ascending_prices (asks b) /\ descending_prices (bids b) /\
  book_ok (AddOrder b o) /\ abs (AddOrder b o) = spec_AddOrder (abs b) o.
Proof.
  intros Hok Ha. destruct (AddOrder_abs b o Hok Ha). split; [by apply asks_sorted|].
  split; [by apply bids_sorted|]. done.
Qed.
End Priority.

Lemma sweep_is_one_pass_witness : exists s' fills deals,
  matchSlice 0 (mkSweep sample_book buy4 sample_emitter) = Ret (3, true, s') /\
  3 = Z.of_nat (length deals) /\ sw_es s' = reported "BTC" sample_emitter fills /\
  Forall2 (same_deal buy4) fills deals /\
  one_pass buy4 (o_Amount buy4) (asks sample_book) = (deals, asks (sw_book s'), o_Amount (sw_order s')).
Proof.
  destruct (slice_summary_Ret (matchSlice 0 (mkSweep sample_book buy4 sample_emitter)) 3 true) as [s' H];
    [vm_compute; reflexivity|].
  destruct (sweep_is_one_pass _ _ _ _ _ _ sample_inv (or_introl eq_refl) H) as (fills & deals & ?).
  exists s', fills, deals. split; [exact H|assumption].
Defined.

Lemma book_priority_witness :
  ascending_prices (asks sample_book) /\ descending_prices (bids sample_book) /\
  book_ok (AddOrder sample_book buy4) /\ abs (AddOrder sample_book buy4) = spec_AddOrder (abs sample_book) buy4.
Proof. apply (book_priority sample_book buy4); [exact sample_book_ok|reflexivity]. Defined.
