(* ===== verification/Engine.v ===== *)
(** * The matching engine's scheduler (internal/matching/engine.go)

    One goroutine owns the books and runs [runTurn] in a loop.  Each turn has a
    cancel phase, a ticker phase, a slice phase, a stop check, an admission
    phase and then parks, drains, or blocks.  Other goroutines reach the engine
    through channels only; what they do between two steps of a turn is a list
    of [EnvAct]s, so every interleaving at those points is covered.

    Pointers: a book is an address in [heap], because the default book and the
    book of the first symbol seen are the same object; a response channel is an
    address in [responses].  A nil [*Order] sent on OrderCh is [None]. *)
From S2P Require Import Prelude Decimal Containers Model OrderBook Quantum Matching.
From Stdlib Require Import Lia.

Inductive cancel_err :=
| ErrCancelOrderNotFound | ErrCancelOrderInvalidCommand | ErrCancelOrderEngineUnavailable
| ErrCancelOrderTimedOut | ErrCancelOrderBackpressured.
#[export] Instance cancel_err_eq_dec : EqDecision cancel_err.
Proof. solve_decision. Defined.

Record CancelOrderResult := mkCancelResult { cr_Removed : bool; cr_Err : option cancel_err }.

Definition DefaultSnapshotDepth : Z := 30.

Section Engine.
Context {DL : DecimalLib} {CL : ContainerLib}.

(** ** Data *)

Record CancelOrderCommand := mkCommand {
  cc_CommandID : N; cc_CoinSymbol : string; cc_OrderID : N; cc_Side : OrderSide;
  cc_Price : decimal; cc_EnqueuedAt : Z; cc_ResponseCh : option nat
}.

Record PriceLevelData := mkLevelData { pd_Price : decimal; pd_Quantity : decimal }.
Record OrderBookSnapshot := mkSnapshot {
  os_CoinSymbol : string; os_Asks : list PriceLevelData; os_Bids : list PriceLevelData
}.

Record activeSweep := mkActive { as_order : Order; as_book : nat; as_trades : Z }.

Record MatchingEngine := mkEngine {
  (* books *)
  heap : gmap nat OrderBook;
  me_OrderBook : nat;
  me_OrderBooks : gmap string nat;
  (* channels; [delivered] is what downstream has received from ExecutionCh *)
  em : emitter;
  me_OrderCh : chan (option Order);
  me_CancelCh : chan CancelOrderCommand;
  me_SnapshotCh : chan OrderBookSnapshot;
  responses : gmap nat (chan CancelOrderResult);
  capacityCh : chan unit;
  tickerC : chan unit;
  stopClosed : bool;
  chansClosed : bool;
  delivered : list ExecutionEvent;
  (* quantum *)
  maxMatchesPerTurn : Z;
  maxConsecutiveCancels : Z;
  (* scheduler *)
  active : option activeSweep;
  shuttingDown : bool;
  cancelsSinceProgress : Z;
  pendingCancel : option CancelOrderCommand;
  pendingOrder : option Order;
  tickerDue : bool;
  parkStartedAt : Z;
  (* snapshots *)
  snapshotCache : gmap string OrderBookSnapshot;
  dirtySymbols : gset string
}.

#[export] Instance MatchingEngine_eta : Settable MatchingEngine := fun e =>
  mkEngine (heap e) (me_OrderBook e) (me_OrderBooks e) (em e) (me_OrderCh e) (me_CancelCh e) (me_SnapshotCh e)
    (responses e) (capacityCh e) (tickerC e) (stopClosed e) (chansClosed e) (delivered e) (maxMatchesPerTurn e)
    (maxConsecutiveCancels e) (active e) (shuttingDown e) (cancelsSinceProgress e) (pendingCancel e) (pendingOrder e)
    (tickerDue e) (parkStartedAt e) (snapshotCache e) (dirtySymbols e).

Definition obs (o : observation) (e : MatchingEngine) : MatchingEngine := e <| em := observe (em e) o |>.

(** [id] is what newEngineID returns, [t] the clock. *)
Definition NewMatchingEngine (id fresh : string) (t : Z) : MatchingEngine :=
  mkEngine {[ 0%nat := NewOrderBook ]} 0 ∅
    (mkEmitter id fresh 0 t (make_chan 1024) (Some (make_chan 1024)) false 0 [])
    (make_chan 1024) (make_chan 1024) (make_chan 256) ∅ (make_chan 1) (make_chan 1) false false []
    defaultMaxMatchesPerTurn defaultMaxConsecutiveCancels None false 0 None None false 0 ∅ ∅.

Definition exec_cap (e : MatchingEngine) : Z := match ExecutionCh (em e) with Some c => ch_cap c | None => 0 end.

Definition NewMatchingEngineWithQuantum (id fresh : string) (t : Z) (cfg : QuantumConfig)
  : result quantum_err MatchingEngine :=
  _ ← Validate cfg;
  let me := NewMatchingEngine id fresh t in
  _ ← validateExecutionCapacity (exec_cap me) (MaxMatchesPerTurn cfg) (MaxConsecutiveCancels cfg);
  Ok (me <| maxMatchesPerTurn := MaxMatchesPerTurn cfg |> <| maxConsecutiveCancels := MaxConsecutiveCancels cfg |>).

(** The check of [Start]; the loop it starts runs [runTurn] until it returns true. *)
Definition Start (e : MatchingEngine) : outcome MatchingEngine :=
  match ExecutionCh (em e) with
  | Some c => match validateExecutionCapacity (ch_cap c) (maxMatchesPerTurn e) (maxConsecutiveCancels e) with
              | Ok _ => Ret e
              | Err _ => Panicked
              end
  | None => Ret e
  end.

(** ** Capacity *)

(** [int(float64(cap) * 0.75)] and [int(float64(cap) * 0.9)]: for channel
    capacities (far below 2^49) both float products truncate to these. *)
Definition emitBackpressured (e : MatchingEngine) : bool :=
  match ExecutionCh (em e) with
  | None => false
  | Some c => if ch_cap c =? 0 then false else ch_cap c * 3 / 4 <=? ch_len c
  end.

Definition MaxInt : Z := 2 ^ 63 - 1.
Definition free (e : MatchingEngine) : Z :=
  match ExecutionCh (em e) with None => MaxInt | Some c => ch_cap c - ch_len c end.

Definition hasSliceCapacity (e : MatchingEngine) : bool :=
  maxMatchesPerTurn e <=? free e - 1 - maxConsecutiveCancels e.

Definition sliceBlockedNow (e : MatchingEngine) : bool :=
  match active e with Some _ => negb (hasSliceCapacity e) | None => false end.

Definition latchStop (e : MatchingEngine) : MatchingEngine :=
  if shuttingDown e then e else obs ObsShutdownLatched (e <| shuttingDown := true |>).

Definition enterParkOnce (t : Z) (e : MatchingEngine) : MatchingEngine :=
  if negb (parkStartedAt e =? 0) then e else obs ObsParkStarted (e <| parkStartedAt := t |>).

Definition finishPark (e : MatchingEngine) : MatchingEngine :=
  if parkStartedAt e =? 0 then e else (obs ObsParkDuration e) <| parkStartedAt := 0 |>.

(** ** Books *)

Definition GetOrderBook (coinSymbol : string) (e : MatchingEngine) : nat * MatchingEngine :=
  if String.eqb coinSymbol "" then (me_OrderBook e, e)
  else match me_OrderBooks e !! coinSymbol with
  | Some a => (a, e)
  | None =>
      if bool_decide (size (me_OrderBooks e) = 0%nat)
      then (me_OrderBook e, e <| me_OrderBooks := <[coinSymbol := me_OrderBook e]> (me_OrderBooks e) |>)
      else let a := fresh (dom (heap e)) in
           (a, e <| heap := <[a := NewOrderBook]> (heap e) |>
                 <| me_OrderBooks := <[coinSymbol := a]> (me_OrderBooks e) |>)
  end.

Definition markDirty (coinSymbol : string) (e : MatchingEngine) : MatchingEngine :=
  e <| dirtySymbols := {[ coinSymbol ]} ∪ dirtySymbols e |>.

(** ** Snapshots *)

Definition normalizeSnapshotDepth (depth : Z) : Z := if depth <=? 0 then DefaultSnapshotDepth else depth.

Definition level_quantity (level : PriceLevel) : option decimal :=
  foldl (fun acc i => q ← acc; o ← dqAt (pl_Orders level) (Z.of_nat i); Some (Add q (o_Amount o)))
    (Some Zero) (seq 0 (Z.to_nat (dqLen (pl_Orders level)))).

(** The callback given to Ascend/Descend, over the levels visited. *)
Fixpoint collect_levels (depth : Z) (levels : list PriceLevel) (acc : list PriceLevelData)
  : outcome (list PriceLevelData) :=
  match levels with
  | [] => Ret acc
  | level :: rest =>
      if depth <=? Z.of_nat (length acc) then Ret acc
      else match level_quantity level with
      | None => Panicked
      | Some qty =>
          collect_levels depth rest
            (if GreaterThan qty Zero then acc ++ [mkLevelData (pl_Price level) qty] else acc)
      end
  end.

Definition GetOrderBookSnapshotWithDepth (coinSymbol : string) (depth : Z) (e : MatchingEngine)
  : outcome (OrderBookSnapshot * MatchingEngine) :=
  let '(a, e) := if negb (String.eqb coinSymbol "") then GetOrderBook coinSymbol e else (me_OrderBook e, e) in
  match heap e !! a with
  | None => Ret (mkSnapshot coinSymbol [] [], e)
  | Some book =>
      let depth := normalizeSnapshotDepth depth in
      sells ← collect_levels depth (btAscend (SellOrders book)) [];
      buys ← collect_levels depth (btDescend (BuyOrders book)) [];
      Ret (mkSnapshot coinSymbol sells buys, e)
  end.

Definition GetOrderBookSnapshot (coinSymbol : string) (e : MatchingEngine) :=
  GetOrderBookSnapshotWithDepth coinSymbol DefaultSnapshotDepth e.

Definition storeSnapshot (coinSymbol : string) (snapshot : OrderBookSnapshot) (e : MatchingEngine) :=
  e <| snapshotCache := <[coinSymbol := snapshot]> (snapshotCache e) |>.

(** [syms] is the order in which [range me.dirtySymbols] visits the keys. *)
Fixpoint flush_symbols (syms : list string) (e : MatchingEngine) : outcome MatchingEngine :=
  match syms with
  | [] => Ret e
  | coinSymbol :: rest =>
      '(snapshot, e) ← GetOrderBookSnapshot coinSymbol e;
      let e := storeSnapshot coinSymbol snapshot e in
      let e := e <| me_SnapshotCh := ch_offer (me_SnapshotCh e) snapshot |> in
      let e := e <| dirtySymbols := dirtySymbols e ∖ {[ coinSymbol ]} |> in
      flush_symbols rest e
  end.
Definition flushSnapshots (range : list string -> list string) (e : MatchingEngine) : outcome MatchingEngine :=
  flush_symbols (range (elements (dirtySymbols e))) e.

Definition loadSnapshot (coinSymbol : string) (e : MatchingEngine) : OrderBookSnapshot :=
  match snapshotCache e !! coinSymbol with
  | Some snapshot => snapshot
  | None => mkSnapshot coinSymbol [] []
  end.

Definition truncateSnapshot (snapshot : OrderBookSnapshot) (depth : Z) : OrderBookSnapshot :=
  mkSnapshot (os_CoinSymbol snapshot)
    (take (Z.to_nat (Z.min depth (Z.of_nat (length (os_Asks snapshot))))) (os_Asks snapshot))
    (take (Z.to_nat (Z.min depth (Z.of_nat (length (os_Bids snapshot))))) (os_Bids snapshot)).

Definition RequestOrderBookSnapshot (coinSymbol : string) (depth : Z) (e : MatchingEngine) : OrderBookSnapshot :=
  let depth := normalizeSnapshotDepth depth in
  let depth := if DefaultSnapshotDepth <? depth then DefaultSnapshotDepth else depth in
  truncateSnapshot (loadSnapshot coinSymbol e) depth.

(** ** Cancellations *)

Definition takeCancel (e : MatchingEngine) : option CancelOrderCommand * MatchingEngine :=
  match pendingCancel e with
  | Some cmd => (Some cmd, e <| pendingCancel := None |>)
  | None => match ch_recv (me_CancelCh e) with
            | Some (cmd, c) => (Some cmd, e <| me_CancelCh := c |>)
            | None => (None, e)
            end
  end.

(** [select { case cmd.ResponseCh <- result: default: }] when it is not nil. *)
Definition respond (cmd : CancelOrderCommand) (res : CancelOrderResult) (e : MatchingEngine) : MatchingEngine :=
  match cc_ResponseCh cmd with
  | None => e
  | Some r => match responses e !! r with
              | Some c => e <| responses := <[r := ch_offer c res]> (responses e) |>
              | None => e
              end
  end.

Definition rejectCancel (cmd : CancelOrderCommand) (e : MatchingEngine) : MatchingEngine :=
  respond cmd (mkCancelResult false (Some ErrCancelOrderBackpressured)) (obs ObsCancelBackpressured e).

(** The [&Order{...}] handed to RemoveOrder. *)
Definition cancel_target (cmd : CancelOrderCommand) : Order :=
  mkOrder (cc_OrderID cmd) 0 Zero Zero (cc_CoinSymbol cmd) (cc_Side cmd) Zero Zero 0 0
    (OrderTypeOther "") (cc_Price cmd).

(** The second half of [handleCancel], once the command is valid. *)
Definition removeFromBook (cmd : CancelOrderCommand) (e : MatchingEngine) : CancelOrderResult * MatchingEngine :=
  let '(a, e) := GetOrderBook (cc_CoinSymbol cmd) e in
  let '(book, removed) := RemoveOrder (heap e !! a) (Some (cancel_target cmd)) in
  let e := match book with Some b => e <| heap := <[a := b]> (heap e) |> | None => e end in
  if negb removed then (mkCancelResult false (Some ErrCancelOrderNotFound), e)
  else (mkCancelResult true None, e).

Definition handleCancel (cmd : CancelOrderCommand) (e : MatchingEngine) : CancelOrderResult * MatchingEngine :=
  if (cc_OrderID cmd =? 0)%N || String.eqb (cc_CoinSymbol cmd) "" || negb (GreaterThanOrEqual (cc_Price cmd) Zero)
  then (mkCancelResult false (Some ErrCancelOrderInvalidCommand), e)
  else match cc_Side cmd with
  | OrderSideOther _ => (mkCancelResult false (Some ErrCancelOrderInvalidCommand), e)
  | _ => removeFromBook cmd e
  end.

Definition emitOrderCancelled (cmd : CancelOrderCommand) (es : emitter) : outcome emitter :=
  match ExecutionCh es with
  | None => Ret es
  | Some _ =>
      let '(_, eventID, es) := nextTradeEvent es in
      sendExecution EmitCancelled
        (EvOrderCancelled (mkCancelled (cc_CommandID cmd) (cc_OrderID cmd) (cc_CoinSymbol cmd) (cc_Side cmd) eventID)) es
  end.

Definition processCancel (cmd : CancelOrderCommand) (e : MatchingEngine) : outcome MatchingEngine :=
  let e := if negb (cc_EnqueuedAt cmd =? 0) then obs ObsCancel e else e in
  let '(res, e) := handleCancel cmd e in
  e ← (if cr_Removed res then
         let e := markDirty (cc_CoinSymbol cmd) e in
         es ← emitOrderCancelled cmd (beginReservation 1 (em e));
         Ret (e <| em := endReservation es |>)
       else Ret e);
  Ret (respond cmd res e).

(** ** What other goroutines do to the engine *)

Definition IsIntakeAdmissible (coinSymbol : string) (e : MatchingEngine) : bool :=
  (ch_len (me_OrderCh e) <? ch_cap (me_OrderCh e) * 9 / 10) && negb (emitBackpressured e).

(** The send of SubmitOrder, and of TrySubmitOrder before its timer fires. *)
Definition SubmitOrder (order : option Order) (e : MatchingEngine) : option MatchingEngine :=
  c ← ch_send (me_OrderCh e) order; Some (e <| me_OrderCh := c |>).
Definition TrySubmitOrder (order : option Order) (timer_fired : bool) (e : MatchingEngine)
  : option (bool * MatchingEngine) :=
  match SubmitOrder order e with
  | Some e' => Some (true, e')
  | None => if timer_fired then Some (false, e) else None
  end.

(** The first half of CancelOrder: the command, stamped and with a fresh
    response channel of capacity one, goes on CancelCh; [None] when it is full
    (the caller waits, then times out).  The second half receives the answer. *)
Definition CancelOrder_send (cmd : CancelOrderCommand) (t : Z) (e : MatchingEngine)
  : option (nat * MatchingEngine) :=
  let at_ := if cc_EnqueuedAt cmd =? 0 then t else cc_EnqueuedAt cmd in
  let r := fresh (dom (responses e)) in
  let cmd := mkCommand (cc_CommandID cmd) (cc_CoinSymbol cmd) (cc_OrderID cmd) (cc_Side cmd) (cc_Price cmd) at_ (Some r) in
  let e := e <| responses := <[r := make_chan 1]> (responses e) |> in
  c ← ch_send (me_CancelCh e) cmd; Some (r, e <| me_CancelCh := c |>).
Definition CancelOrder_recv (r : nat) (timed_out : bool) (e : MatchingEngine)
  : option (CancelOrderResult * MatchingEngine) :=
  match (c ← responses e !! r; ch_recv c) with
  | Some (res, c) => Some (res, e <| responses := <[r := c]> (responses e) |>)
  | None => if timed_out then Some (mkCancelResult false (Some ErrCancelOrderTimedOut), e) else None
  end.

Definition Stop (e : MatchingEngine) : MatchingEngine := e <| stopClosed := true |>.

Definition with_exec_chan (c : chan ExecutionEvent) (es : emitter) : emitter :=
  mkEmitter (engineID es) (freshID es) (tradeSeq es) (now es) (TradeCh es) (Some c)
    (reservationActive es) (reservationRemaining es) (observed es).
Definition with_now (t : Z) (es : emitter) : emitter :=
  mkEmitter (engineID es) (freshID es) (tradeSeq es) t (TradeCh es) (ExecutionCh es)
    (reservationActive es) (reservationRemaining es) (observed es).

Inductive EnvAct :=
| ASubmit (order : option Order)       (* a submitter's send succeeds, if there is room *)
| ACancel (cmd : CancelOrderCommand) (t : Z)
| ARespond (r : nat)                   (* a waiting CancelOrder takes its answer *)
| AConsume                             (* downstream receives an execution event *)
| ASignal                              (* the shard forwarder's capacity signal *)
| ATradeRecv | ASnapshotRecv
| ATick                                (* the ticker fires *)
| AStop
| AClock (t : Z).

Definition env_act (a : EnvAct) (e : MatchingEngine) : MatchingEngine :=
  match a with
  | ASubmit o => default e (SubmitOrder o e)
  | ACancel cmd t => match CancelOrder_send cmd t e with Some (_, e') => e' | None => e end
  | ARespond r => match CancelOrder_recv r false e with Some (_, e') => e' | None => e end
  | AConsume =>
      match ExecutionCh (em e) ≫= ch_recv with
      | Some (ev, c) => e <| em := with_exec_chan c (em e) |> <| delivered := delivered e ++ [ev] |>
      | None => e
      end
  | ASignal => e <| capacityCh := ch_offer (capacityCh e) tt |>
  | ATradeRecv => match ch_recv (TradeCh (em e)) with
                  | Some (_, c) => e <| em := with_tradeCh (em e) c |> | None => e end
  | ASnapshotRecv => match ch_recv (me_SnapshotCh e) with
                     | Some (_, c) => e <| me_SnapshotCh := c |> | None => e end
  | ATick => e <| tickerC := ch_offer (tickerC e) tt |>
  | AStop => Stop e
  | AClock t => e <| em := with_now t (em e) |>
  end.
Definition env_acts (l : list EnvAct) (e : MatchingEngine) : MatchingEngine := foldl (fun e a => env_act a e) e l.

(** ** The cancel phase *)

(** One decision of the loop of [cancelPhase]. *)
Inductive cancel_choice := CProcess | CReject | CReturn.
Definition cancel_decision (rejectBudget : Z) (e : MatchingEngine) : cancel_choice :=
  let blocked := sliceBlockedNow e in
  let quotaLeft := cancelsSinceProgress e <? maxConsecutiveCancels e in
  let free := free e in
  if quotaLeft && (1 <=? free) then CProcess
  else if (free =? 0) || (blocked && negb quotaLeft)
       then (if rejectBudget =? 0 then CReturn else CReject)
       else CReturn.

(** [envs]: what the others do before each iteration. *)
Fixpoint cancel_loop (fuel : nat) (envs : list (list EnvAct)) (rejectBudget : Z) (e : MatchingEngine)
  : outcome MatchingEngine :=
  match fuel with
  | O => OutOfFuel
  | S fuel' =>
      let e := env_acts (default [] (head envs)) e in
      match cancel_decision rejectBudget e with
      | CReturn => Ret e
      | CReject =>
          match takeCancel e with
          | (None, e) => Ret e
          | (Some cmd, e) => cancel_loop fuel' (tail envs) (rejectBudget - 1) (rejectCancel cmd e)
          end
      | CProcess =>
          match takeCancel e with
          | (None, e) => Ret e
          | (Some cmd, e) =>
              e ← processCancel cmd e;
              cancel_loop fuel' (tail envs) rejectBudget
                (e <| cancelsSinceProgress := cancelsSinceProgress e + 1 |>)
          end
      end
  end.

Definition cancel_budget (e : MatchingEngine) : Z :=
  ch_len (me_CancelCh e) + match pendingCancel e with Some _ => 1 | None => 0 end.
(** One iteration per command processed (bounded by the quota) or rejected
    (bounded by the budget), and the one that returns. *)
Definition cancel_fuel (e : MatchingEngine) : nat :=
  S (Z.to_nat (maxConsecutiveCancels e - cancelsSinceProgress e) + Z.to_nat (cancel_budget e)).
Definition cancelPhase (envs : list (list EnvAct)) (e : MatchingEngine) : outcome MatchingEngine :=
  cancel_loop (cancel_fuel e) envs (cancel_budget e) e.

(** ** Admission *)

Definition orderIsAdmissible (order : Order) : bool :=
  match o_Side order with
  | OrderSideBuy => bool_decide (o_OrderType order = OrderTypeMarket) || GreaterThan (o_Amount order) Zero
  | OrderSideSell => GreaterThan (o_Amount order) Zero
  | OrderSideOther _ => false
  end.

Definition observeMatchLatency (order : Order) (e : MatchingEngine) : MatchingEngine :=
  if negb (o_EnqueuedAt order =? 0) then obs ObsMatchLatency e else e.

Definition admitOrder (order : option Order) (e : MatchingEngine) : option activeSweep * MatchingEngine :=
  match order with
  | None => (None, e)
  | Some order =>
      let e := if negb (o_EnqueuedAt order =? 0) then obs ObsOrderAdmitted e else e in
      if negb (orderIsAdmissible order) then (None, observeMatchLatency order e)
      else let '(a, e) := GetOrderBook (o_CoinSymbol order) e in (Some (mkActive order a 0), e)
  end.

Definition engine_admit (order : option Order) (e : MatchingEngine) : MatchingEngine :=
  match admitOrder order e with
  | (Some sweep, e) => e <| active := Some sweep |>
  | (None, e) => e
  end.

Definition admitPhase (e : MatchingEngine) : MatchingEngine :=
  match pendingOrder e with
  | Some order => (engine_admit (Some order) (e <| pendingOrder := None |>)) <| cancelsSinceProgress := 0 |>
  | None =>
      if negb (shuttingDown e) && emitBackpressured e then e <| cancelsSinceProgress := 0 |>
      else
        let e := match ch_recv (me_OrderCh e) with
                 | Some (order, c) => engine_admit order (e <| me_OrderCh := c |>)
                 | None => e
                 end in
        e <| cancelsSinceProgress := 0 |>
  end.

(** ** Slices *)

Definition finishOrder (a : nat) (order : Order) (e : MatchingEngine) : outcome MatchingEngine :=
  if bool_decide (o_OrderType order = OrderTypeMarket)
  then es ← emitMarketOrderDone order (em e); Ret (e <| em := es |>)
  else if GreaterThan (o_Amount order) Zero
  then Ret (markDirty (o_CoinSymbol order) (e <| heap := alter (fun book => AddOrder book order) a (heap e) |>))
  else Ret e.

(** [runSlice] from the return of [matchSlice] on; [s] is what it left. *)
Definition afterSlice (sweep : activeSweep) (trades : Z) (done : bool) (s : Matching.sweep) (e : MatchingEngine)
  : outcome MatchingEngine :=
  let sweep := mkActive (sw_order s) (as_book sweep) (as_trades sweep + trades) in
  let e := e <| heap := <[as_book sweep := sw_book s]> (heap e) |> <| em := sw_es s |> <| active := Some sweep |> in
  let e := if 1 <=? trades then markDirty (o_CoinSymbol (as_order sweep)) e else e in
  if negb done then
    let e := e <| em := endReservation (em e) |> in
    Ret (obs ObsYield (obs (ObsSlice trades) e))
  else
    e ← finishOrder (as_book sweep) (as_order sweep) e;
    let e := e <| em := endReservation (em e) |> in
    let e := obs (ObsSlice trades) e in
    let e := observeMatchLatency (as_order sweep) e in
    let e := obs (ObsOrderDone (as_trades sweep)) e in
    Ret (e <| active := None |>).

Definition runSlice (e : MatchingEngine) : outcome MatchingEngine :=
  match active e with
  | None => Panicked
  | Some sweep =>
      match heap e !! as_book sweep with
      | None => Panicked
      | Some book =>
          '(trades, done, s) ← matchSlice (maxMatchesPerTurn e)
             (mkSweep book (as_order sweep) (beginReservation (maxMatchesPerTurn e + 1) (em e)));
          afterSlice sweep trades done s e
      end
  end.

(** The synchronous entry point: no reservation, so sends block. *)
Definition Match (order : option Order) (e : MatchingEngine) : outcome MatchingEngine :=
  match admitOrder order e with
  | (None, e) => Ret e
  | (Some sweep, e) =>
      match heap e !! as_book sweep with
      | None => Panicked
      | Some book =>
          '(_, _, s) ← matchSlice 0 (mkSweep book (as_order sweep) (em e));
          finishOrder (as_book sweep) (sw_order s)
            (e <| heap := <[as_book sweep := sw_book s]> (heap e) |> <| em := sw_es s |>)
      end
  end.

(** ** A turn *)

Definition latchOneNonBlocking (e : MatchingEngine) : bool * MatchingEngine :=
  match ch_recv (me_CancelCh e) with
  | Some (cmd, c) => (true, e <| me_CancelCh := c |> <| pendingCancel := Some cmd |>)
  | None =>
      match ch_recv (me_OrderCh e) with
      | Some (order, c) => (true, e <| me_OrderCh := c |> <| pendingOrder := order |>)
      | None => (false, e)
      end
  end.

(** A blocking select takes one of the cases that are ready ([choice] picks
    which); with none ready the goroutine waits. *)
Definition select_one (choice : nat) (cases : list (option MatchingEngine)) : outcome MatchingEngine :=
  let ready := omap id cases in
  match ready !! (choice mod length ready)%nat with
  | Some e => Ret e
  | None => Blocked
  end.

Definition case_cancel (e : MatchingEngine) : option MatchingEngine :=
  '(cmd, c) ← ch_recv (me_CancelCh e); Some (e <| me_CancelCh := c |> <| pendingCancel := Some cmd |>).
Definition case_order (e : MatchingEngine) : option MatchingEngine :=
  '(order, c) ← ch_recv (me_OrderCh e); Some (e <| me_OrderCh := c |> <| pendingOrder := order |>).
Definition case_tick (e : MatchingEngine) : option MatchingEngine :=
  '(_, c) ← ch_recv (tickerC e); Some (e <| tickerC := c |> <| tickerDue := true |>).
Definition case_stop (e : MatchingEngine) : option MatchingEngine :=
  if stopClosed e then Some (latchStop e) else None.
Definition case_capacity (e : MatchingEngine) : option MatchingEngine :=
  '(_, c) ← ch_recv (capacityCh e); Some (e <| capacityCh := c |>).

Definition parkSelect (choice : nat) (e : MatchingEngine) : outcome MatchingEngine :=
  select_one choice [case_capacity e; case_cancel e; case_tick e;
                     if shuttingDown e then None else case_stop e].

Definition idleSelect (choice : nat) (e : MatchingEngine) : outcome MatchingEngine :=
  select_one choice [case_cancel e; if emitBackpressured e then None else case_order e; case_tick e; case_stop e].

(** The choices a turn leaves open: what the other goroutines do at each
    point, the iteration order of Go maps, the answer of the crash hook (a
    test facility; false in production), which ready case a select takes. *)
Record schedule := mkSchedule {
  at_start : list EnvAct; in_cancel : list (list EnvAct); after_cancel : list EnvAct; after_tick : list EnvAct;
  after_slice : list EnvAct; after_stop : list EnvAct; after_admit : list EnvAct; before_select : list EnvAct;
  range : list string -> list string; crash : bool; choice : nat
}.

Definition tickerPhase (range : list string -> list string) (e : MatchingEngine) : outcome MatchingEngine :=
  if tickerDue e then flushSnapshots range (e <| tickerDue := false |>)
  else match ch_recv (tickerC e) with
       | Some (_, c) => flushSnapshots range (e <| tickerC := c |>)
       | None => Ret e
       end.

Definition slicePhase (e : MatchingEngine) : outcome MatchingEngine :=
  if match active e with Some _ => hasSliceCapacity e | None => false end
  then e ← runSlice (finishPark e); Ret (e <| cancelsSinceProgress := 0 |>)
  else Ret e.

Definition stopPhase (e : MatchingEngine) : MatchingEngine :=
  if negb (shuttingDown e) && stopClosed e then latchStop e else e.

(** Steps 6 to 8: park, go on, drain, or wait. *)
Definition endOfTurn (sc : schedule) (e : MatchingEngine) : outcome (bool * MatchingEngine) :=
  if sliceBlockedNow e && bool_decide (pendingCancel e = None)
  then let e := env_acts (before_select sc) (enterParkOnce (now (em e)) e) in
       e ← parkSelect (choice sc) e; Ret (false, e)
  else if negb (bool_decide (active e = None)) || negb (bool_decide (pendingCancel e = None))
          || negb (bool_decide (pendingOrder e = None)) || tickerDue e
  then Ret (false, e)
  else if shuttingDown e then
    let e := env_acts (before_select sc) e in
    match latchOneNonBlocking e with
    | (true, e) => Ret (false, e)
    | (false, e) =>
        e ← flushSnapshots (range sc) e;
        Ret (true, e <| chansClosed := true |>)
    end
  else let e := env_acts (before_select sc) e in
       e ← idleSelect (choice sc) e; Ret (false, e).

Definition runTurn (sc : schedule) (e : MatchingEngine) : outcome (bool * MatchingEngine) :=
  let e := env_acts (at_start sc) e in
  let hadActive := negb (bool_decide (active e = None)) in
  e ← cancelPhase (in_cancel sc) e;
  let e := env_acts (after_cancel sc) e in
  e ← tickerPhase (range sc) e;
  let e := env_acts (after_tick sc) e in
  e ← slicePhase e;
  if crash sc then Ret (true, e)
  else
    let e := env_acts (after_slice sc) e in
    let e := stopPhase e in
    let e := env_acts (after_stop sc) e in
    let e := if negb hadActive then admitPhase e else e in
    let e := obs ObsTurn e in
    endOfTurn sc (env_acts (after_admit sc) e).
End Engine.
