(* ===== verification/EngineInv.v ===== *)
(** * The invariant of the engine

    Well-formed and uncrossed books, room in the execution channel for what the
    scheduler may still emit, and event identifiers that only grow.  Every step
    of a turn and every action of another goroutine preserves it. *)
From S2P Require Import Prelude Decimal Containers Model OrderBook Quantum Matching Sweep Slice Engine.
From Stdlib Require Import Lia.

(** ** Emissions *)

Section Emissions.
Context {DL : DecimalLib} {CL : ContainerLib}.

Definition event_key (ev : ExecutionEvent) : option string :=
  match ev with
  | EvTrade t => Some (t_EngineEventID t)
  | EvMarketOrderDone _ => None
  | EvOrderCancelled c => Some (c_EngineEventID c)
  end.

(** [evs] were appended to the channel, with identifiers drawn in order from
    the engine's counter; the reservation flag did not change. *)
Record emits (es : emitter) (evs : list ExecutionEvent) (es' : emitter) : Prop := {
  emits_chan c : ExecutionCh es = Some c ->
    ExecutionCh es' = Some (mkChan (ch_buf c ++ evs) (ch_cap c));
  emits_fresh : freshID es' = freshID es;
  emits_name : freshID es <> "" -> engine_name es' = engine_name es;
  emits_seq : tradeSeq es <= tradeSeq es';
  emits_res : reservationActive es' = reservationActive es;
  emits_keys : freshID es <> "" -> exists ks, omap event_key evs = map (event_id (engine_name es)) ks /\
    StronglySorted Z.lt ks /\ Forall (fun k => tradeSeq es < k <= tradeSeq es') ks
}.

Lemma emits_nil es : emits es [] es.
Proof.
  split; try done.
  - intros c ->. rewrite app_nil_r. by destruct c.
  - intros _. exists []. repeat split; constructor.
Qed.

Lemma emits_trans es evs es' evs' es'' : emits es evs es' -> emits es' evs' es'' -> emits es (evs ++ evs') es''.
Proof.
  intros [C1 F1 N1 S1 R1 K1] [C2 F2 N2 S2 R2 K2]. split.
  - intros c Hc. rewrite (C2 _ (C1 _ Hc)). cbn. by rewrite app_assoc.
  - congruence.
  - intros Hf. rewrite N2, N1; congruence.
  - lia.
  - congruence.
  - intros Hf. destruct (K1 Hf) as (ks & E1 & Hs1 & HF1). destruct (K2 ltac:(congruence)) as (ks' & E2 & Hs2 & HF2).
    exists (ks ++ ks'). rewrite omap_app, map_app, E1, E2, N1 by done. split; [done|]. split.
    + apply StronglySorted_app_2; [|done|done]. intros x y Hx Hy.
      eapply Forall_forall in HF1; [|exact Hx]. eapply Forall_forall in HF2; [|exact Hy]. cbn in *. lia.
    + apply Forall_app. split; (eapply Forall_impl; [eassumption|]); cbn; lia.
Qed.

(** Changes that leave the emitting part alone. *)
Definition same_emission (es es' : emitter) : Prop :=
  ExecutionCh es' = ExecutionCh es /\ freshID es' = freshID es /\ engineID es' = engineID es /\
  tradeSeq es' = tradeSeq es.

Lemma emits_push kind ev es : event_key ev = None -> emits es [ev] (exec_push kind ev es) \/ ExecutionCh es = None.
Proof.
  intros Hk. destruct (ExecutionCh es) as [c|] eqn:E; [left|by right]. unfold exec_push. rewrite E.
  split; cbn; try done; try lia.
  - intros c' Hc'. by simplify_eq.
  - rewrite Hk. exists []. repeat split; constructor.
Qed.

Lemma emits_reported1 sym es f : is_Some (ExecutionCh es) ->
  emits es [EvTrade (numbered sym es f)] (reported1 sym es f).
Proof.
  intros Hch. destruct (reported1_fields sym es f) as (Hsq & He & Hfr & Hev & _ & Hcap).
  split; try done; try lia.
  - intros c Hc. unfold reported1, exec_push. cbn. by rewrite Hc.
  - intros Hf. by apply engine_name_stable.
  - unfold reported1, exec_push. cbn. by destruct (ExecutionCh es).
  - intros Hf. exists [tradeSeq es + 1]. split; [done|]. split; [repeat constructor|].
    constructor; [|constructor]. rewrite Hsq. lia.
Qed.

Lemma emits_exec_some es evs es' : emits es evs es' -> is_Some (ExecutionCh es) -> is_Some (ExecutionCh es').
Proof. intros H [c Hc]. rewrite (emits_chan _ _ _ H _ Hc). eauto. Qed.

Lemma emits_reported sym fs es : is_Some (ExecutionCh es) ->
  emits es (map EvTrade (report sym es fs)) (reported sym es fs).
Proof.
  revert es. induction fs as [|f fs IH]; intros es Hch; cbn; [apply emits_nil|].
  pose proof (emits_reported1 sym es f Hch) as H1.
  change (reported sym es (f :: fs)) with (reported sym (reported1 sym es f) fs).
  apply (emits_trans _ [_] (reported1 sym es f)); [done|]. apply IH. by eapply emits_exec_some.
Qed.

Lemma can_emit_reserve n es c : ExecutionCh es = Some c -> ch_len c + n <= ch_cap c ->
  can_emit n (beginReservation n es).
Proof. intros Hc Hn. unfold can_emit. cbn. rewrite Hc. split; [done|]. lia. Qed.

Lemma emitOrderCancelled_emits cmd es c : ExecutionCh es = Some c -> can_emit 1 es ->
  exists es' eid, emitOrderCancelled cmd es = Ret es' /\
    emits es [EvOrderCancelled (mkCancelled (cc_CommandID cmd) (cc_OrderID cmd) (cc_CoinSymbol cmd) (cc_Side cmd) eid)] es' /\
    tradeSeq es' = tradeSeq es + 1.
Proof.
  intros Hc Hcan. unfold emitOrderCancelled. rewrite Hc. cbn.
  set (es1 := with_seq es _ _). set (ev := EvOrderCancelled _).
  assert (Hc1 : ExecutionCh es1 = Some c) by done.
  rewrite (send_room EmitCancelled ev es1 c 1 Hc1 ltac:(lia) Hcan).
  eexists _, _. split; [done|]. unfold exec_push. rewrite Hc1. subst es1. split; [|done].
  split; cbn; try done; try lia.
  - intros c' Hc'. by simplify_eq.
  - intros Hf. unfold engine_name. cbn. destruct (String.eqb_spec (engineID es) ""); [|by rewrite (proj2 (String.eqb_neq _ _))].
    by destruct (String.eqb _ _).
  - intros _. exists [tradeSeq es + 1]. split; [done|]. split; [repeat constructor|]. constructor; [lia|constructor].
Qed.

Lemma emitMarketOrderDone_emits o es c : ExecutionCh es = Some c -> can_emit 1 es ->
  exists es' d, emitMarketOrderDone o es = Ret es' /\ emits es [EvMarketOrderDone d] es' /\
    d_OrderID d = o_ID o /\ d_FilledAmount d = o_FilledAmount o /\ d_FilledQuoteAmount d = o_FilledQuoteAmount o /\
    d_RemainingAmount d = o_Amount o /\ d_RemainingQuoteAmount d = o_QuoteAmount o.
Proof.
  intros Hc Hcan. unfold emitMarketOrderDone. rewrite Hc. set (d := mkDone _ _ _ _ _ _ _).
  rewrite (send_room EmitMarketDone (EvMarketOrderDone d) es c 1 Hc ltac:(lia) Hcan).
  eexists _, d. split; [done|]. split; [|done].
  destruct (emits_push EmitMarketDone (EvMarketOrderDone d) es eq_refl) as [H|H]; [done|congruence].
Qed.
End Emissions.

(** ** Books that no two users could trade in *)

Section GoodBooks.
Context {DL : DecimalLib} {CL : ContainerLib} {DLaws : DecimalLaws DL} {CLaws : ContainerLaws CL}.

(** No bid reaches an ask, except between two orders of the same user. *)
Definition uncrossed (b : OrderBook) : Prop :=
  forall x y, x ∈ bids b -> y ∈ asks b -> (dval (o_Price x) < dval (o_Price y))%Q \/ isSelfTrade x y = true.

Definition good_book (b : OrderBook) : Prop := book_ok b /\ prices_pos (asks b) /\ uncrossed b.

(** What the order service guarantees of the orders it submits. *)
Definition good_order (o : Order) : Prop :=
  (o_OrderType o <> OrderTypeMarket -> 0 < dval (o_Price o))%Q /\
  (kind_of o = KMarketBuy -> 0 <= dval (o_QuoteAmount o))%Q.

Lemma isSelfTrade_sym x y : isSelfTrade x y = isSelfTrade y x.
Proof.
  unfold isSelfTrade. rewrite (N.eqb_sym (o_UserID x) (o_UserID y)).
  by destruct (o_UserID x =? 0)%N, (o_UserID y =? 0)%N.
Qed.

(** Orders of [q'] are orders of [q] up to their amounts. *)
Definition drawn_from (q' q : list Order) : Prop :=
  forall x', x' ∈ q' -> exists x, x ∈ q /\ o_Price x' = o_Price x /\ o_UserID x' = o_UserID x.

#[export] Instance drawn_from_preorder : PreOrder drawn_from.
Proof.
  split; [intros q x Hx; eauto|]. intros q1 q2 q3 H12 H23 x Hx.
  destruct (H12 x Hx) as (y & Hy & ? & ?). destruct (H23 y Hy) as (z & Hz & ? & ?).
  exists z. split; [done|]. split; congruence.
Qed.

Lemma good_book_drawn b b' : good_book b -> book_ok b' -> drawn_from (asks b') (asks b) ->
  drawn_from (bids b') (bids b) -> good_book b'.
Proof.
  intros (_ & Hp & Hu) Hok Ha Hb. split; [done|]. split.
  - apply Forall_forall. intros x Hx. destruct (Ha x Hx) as (y & Hy & E & _). rewrite E.
    by eapply Forall_forall in Hp.
  - intros x y Hx Hy. destruct (Hb x Hx) as (x0 & Hx0 & E1 & U1). destruct (Ha y Hy) as (y0 & Hy0 & E2 & U2).
    destruct (Hu x0 y0 Hx0 Hy0) as [H|H]; [left; by rewrite E1, E2|right].
    unfold isSelfTrade in *. by rewrite U1, U2.
Qed.

Lemma NewOrderBook_good : good_book NewOrderBook.
Proof.
  split; [apply NewOrderBook_ok|]. assert (H : asks NewOrderBook = []).
  { unfold asks. cbn. by rewrite (proj2 (btNewG_for 32 _ level_less_weak)). }
  split; [by rewrite H; constructor|]. intros x y _ Hy. rewrite H in Hy. by apply elem_of_nil in Hy.
Qed.

Lemma trades_with_drawn queue other b o f x : trades_with queue other b o f x ->
  drawn_from (queue (f_book f)) (queue b).
Proof.
  intros (_ & _ & _ & _ & _ & l1 & l2 & HQ & _ & HQ') y Hy. rewrite HQ' in Hy. rewrite HQ.
  rewrite !elem_of_app in Hy. destruct Hy as [Hy|[Hy|Hy]].
  - exists y. set_solver.
  - unfold keep in Hy. destruct (GreaterThan _ _); [|set_solver]. apply list_elem_of_singleton in Hy as ->.
    exists x. split; [set_solver|done].
  - exists y. set_solver.
Qed.

Lemma slice_run_drawn budget b o r : sweep_inv b o -> slice_run budget b o = Some r ->
  drawn_from (asks (run_book r)) (asks b) /\ drawn_from (bids (run_book r)) (bids b).
Proof.
  intros Hi Hr. pose proof (slice_run_sweeps _ _ _ _ Hi Hr) as Hs.
  destruct (slice_run_trades _ _ _ _ Hi Hr) as (Ho & _).
  assert (Hq : drawn_from (k_queue (kind_of o) (run_book r)) (k_queue (kind_of o) b)).
  { clear Ho Hr Hi. set (k := kind_of o) in *. clearbody k.
    induction Hs as [|b o f fs b' o' Hi Hl Hn Hs IH]; [done|]. etrans; [exact IH|].
    destruct (sl_fill (SweepLaws := k_sweep k) b o f Hi Hl Hn) as (_ & _ & x & HT & _). by eapply trades_with_drawn. }
  destruct (kind_of o); cbn in *; rewrite ?Ho; done.
Qed.

Lemma kind_of_side o : match kind_of o with
  | KBuy => o_Side o = OrderSideBuy /\ o_OrderType o <> OrderTypeMarket
  | KSell => o_Side o = OrderSideSell /\ o_OrderType o <> OrderTypeMarket
  | KMarketBuy => o_Side o = OrderSideBuy /\ o_OrderType o = OrderTypeMarket
  | KMarketSell => o_Side o = OrderSideSell /\ o_OrderType o = OrderTypeMarket
  | KNone => o_Side o <> OrderSideBuy /\ o_Side o <> OrderSideSell
  end.
Proof. unfold kind_of. destruct (o_Side o); [case_bool_decide|case_bool_decide|]; done. Qed.

Lemma enqueue_elem worse o l x : x ∈ enqueue worse o l -> x = o \/ x ∈ l.
Proof.
  induction l as [|y l IH]; cbn; [set_solver|]. destruct (worse y); [set_solver|].
  rewrite !elem_of_cons. naive_solver.
Qed.

(** Resting an order that found nothing to trade with keeps the book uncrossed. *)
Lemma AddOrder_good b o : good_book b -> (0 < dval (o_Amount o))%Q -> (0 < dval (o_Price o))%Q ->
  kind_of o = KBuy \/ kind_of o = KSell -> nothing_left b o -> good_book (AddOrder b o).
Proof.
  intros (Hok & Hp & Hu) Ha Hpr Hk Hn. destruct (AddOrder_abs b o Hok Ha) as [Hok' Habs].
  unfold nothing_left in Hn. unfold spec_AddOrder, abs in Habs. cbn in Habs. split; [done|].
  destruct Hk as [Hk|Hk]; rewrite Hk in Hn; destruct Hn as [Hn|Hn]; try lra.
  - assert (Hs : o_Side o = OrderSideBuy) by (pose proof (kind_of_side o) as H; rewrite Hk in H; tauto).
    rewrite bool_decide_eq_true_2 in Habs by done. injection Habs as HA HB.
    unfold uncrossed. rewrite HA, HB. split; [done|]. intros x y Hx Hy.
    apply enqueue_elem in Hx as [->|Hx]; [|by apply Hu]. by eapply Forall_forall in Hn.
  - assert (Hs : o_Side o = OrderSideSell) by (pose proof (kind_of_side o) as H; rewrite Hk in H; tauto).
    rewrite bool_decide_eq_false_2 in Habs by by rewrite Hs. injection Habs as HA HB.
    unfold uncrossed, prices_pos. rewrite HA, HB. split.
    + apply Forall_forall. intros x Hx. apply enqueue_elem in Hx as [->|Hx]; [done|]. by eapply Forall_forall in Hp.
    + intros x y Hx Hy. apply enqueue_elem in Hy as [->|Hy]; [|by apply Hu].
      eapply Forall_forall in Hn; [|exact Hx]. rewrite isSelfTrade_sym. done.
Qed.

Lemma remove_first_elem p l x : x ∈ fst (remove_first p l) -> x ∈ l.
Proof.
  induction l as [|y l IH]; cbn; [done|]. destruct (p y); [set_solver|].
  destruct (remove_first p l) as [r b]. cbn in *. rewrite !elem_of_cons. naive_solver.
Qed.

Lemma RemoveOrder_good b o : good_book b ->
  exists b' removed, RemoveOrder (Some b) (Some o) = (Some b', removed) /\ good_book b' /\
    (abs b', removed) = spec_RemoveOrder (abs b) o.
Proof.
  intros Hg. pose proof Hg as (Hok & _). destruct (RemoveOrder_abs b o Hok) as (b' & r & H & Hok' & Habs).
  exists b', r. split; [done|]. split; [|done].
  assert (Hd : forall p l, drawn_from (fst (remove_first p l)) l).
  { intros p l x Hx. exists x. split; [by eapply remove_first_elem|done]. }
  unfold spec_RemoveOrder, abs in Habs. cbn in Habs. apply (good_book_drawn b); try done;
    destruct (bool_decide _); match type of Habs with context [remove_first ?p ?l] =>
      pose proof (Hd p l); destruct (remove_first p l) as [l' r'] end; injection Habs as HA HB _;
    rewrite ?HA, ?HB; done.
Qed.
End GoodBooks.
