(* ===== verification/EngineSafety.v ===== *)
(** * Safety of the scheduler

    [engine_ok] is kept by every phase of a turn under any interference of the
    other goroutines, and no phase panics. *)
From S2P Require Import Prelude Decimal Containers Model OrderBook Quantum Matching Fixtures Sweep Slice Engine EngineInv.
From Stdlib Require Import Lia.

Section Safety.
Context {DL : DecimalLib} {CL : ContainerLib} {DLaws : DecimalLaws DL} {CLaws : ContainerLaws CL}.

(** ** The invariant *)

(** The events delivered and those waiting carry identifiers of this engine,
    numbered in increasing order up to its counter. *)
Definition ids_ok (delivered : list ExecutionEvent) (es : emitter) : Prop :=
  exists ks, omap event_key (delivered ++ exec_events es) = map (event_id (engine_name es)) ks /\
    StronglySorted Z.lt ks /\ Forall (fun k => k <= tradeSeq es) ks.

Record em_ok (delivered : list ExecutionEvent) (matches cancels : Z) (es : emitter) : Prop := {
  em_fresh : freshID es <> "";
  em_chan : exists c, ExecutionCh es = Some c /\ matches + 1 + cancels <= ch_cap c /\ ch_len c <= ch_cap c;
  em_ids : ids_ok delivered es
}.

Record books_inv (h : gmap nat OrderBook) (dflt : nat) (named : gmap string nat) : Prop := {
  bk_default : is_Some (h !! dflt);
  bk_named s a : named !! s = Some a -> is_Some (h !! a);
  bk_good : map_Forall (fun _ b => good_book b) h
}.
Definition books_ok (e : MatchingEngine) : Prop := books_inv (heap e) (me_OrderBook e) (me_OrderBooks e).

Definition good_opt (o : option Order) : Prop := match o with Some o => good_order o | None => True end.

Definition active_ok (e : MatchingEngine) : Prop :=
  forall s, active e = Some s ->
    good_order (as_order s) /\ kind_of (as_order s) <> KNone /\ is_Some (heap e !! as_book s).

Record engine_ok (e : MatchingEngine) : Prop := {
  ok_quantum : 1 <= maxMatchesPerTurn e /\ 1 <= maxConsecutiveCancels e;
  ok_em : em_ok (delivered e) (maxMatchesPerTurn e) (maxConsecutiveCancels e) (em e);
  ok_idle : reservationActive (em e) = false;
  ok_books : books_ok e;
  ok_active : active_ok e;
  ok_pending : good_opt (pendingOrder e);
  ok_queue : Forall good_opt (ch_buf (me_OrderCh e));
  ok_cancels : 0 <= cancelsSinceProgress e <= maxConsecutiveCancels e
}.

(** ** Emissions keep the identifiers in order *)

Lemma exec_events_chan es c : ExecutionCh es = Some c -> exec_events es = ch_buf c.
Proof. intros H. unfold exec_events. by rewrite H. Qed.

Lemma em_ok_emits d m k es evs es' : em_ok d m k es -> emits es evs es' ->
  (forall c, ExecutionCh es = Some c -> ch_len c + Z.of_nat (length evs) <= ch_cap c) -> em_ok d m k es'.
Proof.
  intros [Hf (c & Hc & Hcap & Hlen) (ks & Hk & Hs & HF)] HE Hroom. specialize (Hroom c Hc).
  pose proof (emits_chan _ _ _ HE c Hc) as Hc'. destruct (emits_keys _ _ _ HE Hf) as (ks' & Hk' & Hs' & HF').
  split.
  - by rewrite (emits_fresh _ _ _ HE).
  - eexists. split; [exact Hc'|]. cbn. unfold ch_len in *. cbn. rewrite length_app. lia.
  - exists (ks ++ ks'). rewrite (exec_events_chan _ _ Hc'), (emits_name _ _ _ HE Hf). cbn.
    rewrite (exec_events_chan _ _ Hc) in Hk. rewrite app_assoc, omap_app, Hk, Hk', map_app. split; [done|].
    pose proof (emits_seq _ _ _ HE). split.
    + apply StronglySorted_app_2; [|done|done]. intros x y Hx Hy.
      eapply Forall_forall in HF; [|exact Hx]. eapply Forall_forall in HF'; [|exact Hy]. cbn in *. lia.
    + apply Forall_app. split; (eapply Forall_impl; [eassumption|]); cbn; lia.
Qed.

(** Only the channel, the counter and the names matter. *)
Lemma em_ok_same d m k es es' : em_ok d m k es -> ExecutionCh es' = ExecutionCh es -> freshID es' = freshID es ->
  engineID es' = engineID es -> tradeSeq es' = tradeSeq es -> em_ok d m k es'.
Proof.
  intros [Hf Hc (ks & Hi)] E1 E2 E3 E4. split; [congruence|by rewrite E1|].
  exists ks. unfold ids_ok, exec_events, engine_name in *. by rewrite E1, E2, E3, E4.
Qed.

(** ** Books *)

Lemma GetOrderBook_ok s e a e' : books_ok e -> GetOrderBook s e = (a, e') ->
  books_ok e' /\ is_Some (heap e' !! a) /\ heap e ⊆ heap e' /\
  exists h m, e' = e <| heap := h |> <| me_OrderBooks := m |>.
Proof.
  intros [Hd Hn Hg] H. unfold GetOrderBook in H. destruct (String.eqb s ""); [|destruct (me_OrderBooks e !! s) as [a0|] eqn:Es].
  - injection H as <- <-. split_and!; try done. exists (heap e), (me_OrderBooks e). by destruct e.
  - injection H as <- <-. split_and!; try done; [by eapply Hn|]. exists (heap e), (me_OrderBooks e). by destruct e.
  - case_bool_decide as Hsz.
    + injection H as <- <-. split_and!; try done; [|exists (heap e); eexists; by destruct e].
      split; cbn; try done. intros s' a'. rewrite lookup_insert_Some. intros [[_ <-]|[_ ?]]; [done|by eapply Hn].
    + injection H as <- <-. set (a := fresh (dom (heap e))). assert (Ha : heap e !! a = None).
      { apply not_elem_of_dom, is_fresh. }
      split_and!; cbn.
      * split; cbn.
        -- rewrite lookup_insert_ne; [done|]. intros E. rewrite E in Ha. rewrite Ha in Hd. by destruct Hd.
        -- intros s' a'. rewrite lookup_insert_Some. intros [[_ <-]|[_ H]]; [rewrite lookup_insert_eq; eauto|].
           apply Hn in H. destruct (decide (a = a')) as [<-|]; [rewrite lookup_insert_eq; eauto|by rewrite lookup_insert_ne].
        -- apply map_Forall_insert_2; [apply NewOrderBook_good|done].
      * rewrite lookup_insert_eq. eauto.
      * by apply insert_subseteq.
      * eauto.
Qed.

Lemma heap_mono_some (h h' : gmap nat OrderBook) a : h ⊆ h' -> is_Some (h !! a) -> is_Some (h' !! a).
Proof. intros Hs [b Hb]. exists b. by eapply lookup_weaken. Qed.

(** Storing a good book at an address in use. *)
Lemma books_ok_put e a b : books_ok e -> is_Some (heap e !! a) -> good_book b ->
  books_ok (e <| heap := <[a := b]> (heap e) |>).
Proof.
  intros [Hd Hn Hg] Ha Hb.
  assert (H : forall x, is_Some (heap e !! x) -> is_Some (<[a := b]> (heap e) !! x)).
  { intros x Hx. destruct (decide (a = x)) as [<-|]; [rewrite lookup_insert_eq; eauto|by rewrite lookup_insert_ne]. }
  split; cbn.
  - by apply H.
  - intros s x Hx. apply H. by eapply Hn.
  - by apply map_Forall_insert_2.
Qed.

(** ** What the other goroutines do *)

(** Submitters send orders the order service has checked. *)
Definition good_act (a : EnvAct) : Prop := match a with ASubmit o => good_opt o | _ => True end.

Lemma ch_send_Some {A} (c c' : chan A) x : ch_send c x = Some c' ->
  ch_buf c' = ch_buf c ++ [x] /\ ch_cap c' = ch_cap c /\ ch_len c < ch_cap c.
Proof. unfold ch_send. destruct (_ <? _) eqn:E; [|done]. intros [= <-]. bool_to_prop. done. Qed.
Lemma ch_recv_Some {A} (c c' : chan A) x : ch_recv c = Some (x, c') ->
  ch_buf c = x :: ch_buf c' /\ ch_cap c' = ch_cap c.
Proof. unfold ch_recv. destruct (ch_buf c) eqn:E; [done|]. by intros [= <- <-]. Qed.

Lemma em_ok_consume d m k es c ev c' : em_ok d m k es -> ExecutionCh es = Some c -> ch_recv c = Some (ev, c') ->
  em_ok (d ++ [ev]) m k (with_exec_chan c' es).
Proof.
  intros [Hf (c0 & Hc & Hcap & Hlen) (ks & Hk & Hrest)] Hc2 Hr. simplify_eq.
  apply ch_recv_Some in Hr as [Hb Hcp]. split; [done| |].
  - exists c'. split; [done|]. unfold ch_len in *. rewrite Hb in Hlen. cbn in Hlen. rewrite Hcp. lia.
  - exists ks. split; [|done]. rewrite (exec_events_chan _ _ Hc), Hb in Hk.
    rewrite <- app_assoc. exact Hk.
Qed.

Lemma env_act_ok a e : good_act a -> engine_ok e -> engine_ok (env_act a e).
Proof.
  intros Ha H. pose proof H as [Hq Hem Hi Hb Hac Hp Hqu Hc]. destruct a; cbn [env_act].
  - unfold SubmitOrder. destruct (ch_send _ _) as [c|] eqn:E; cbn; [|done]. apply ch_send_Some in E as (Eb & _).
    split; cbn; try done. rewrite Eb. apply Forall_app. split; [done|]. by constructor.
  - unfold CancelOrder_send. cbn. destruct (ch_send _ _) as [c|] eqn:E; cbn; [|done]. by split.
  - unfold CancelOrder_recv. destruct (_ ≫= _) as [[res c]|]; [by split|done].
  - destruct (ExecutionCh (em e)) as [c|] eqn:Ec; cbn; [|done]. destruct (ch_recv c) as [[ev c']|] eqn:Er; [|done].
    split; try done. by eapply em_ok_consume.
  - by split.
  - destruct (ch_recv _) as [[? c]|]; [|done]. split; try done. eapply em_ok_same; [exact Hem|done..].
  - destruct (ch_recv _) as [[? c]|]; [|done]. by split.
  - by split.
  - by split.
  - split; try done. eapply em_ok_same; [exact Hem|done..].
Qed.

Lemma env_acts_ok l e : Forall good_act l -> engine_ok e -> engine_ok (env_acts l e).
Proof. intros HF. revert e. induction HF; intros e H0; cbn; [done|]. apply IHHF. by apply env_act_ok. Qed.

(** The environment never uses up room, nor does it touch the scheduler. *)
Definition same_scheduler (e e' : MatchingEngine) : Prop :=
  active e' = active e /\ maxMatchesPerTurn e' = maxMatchesPerTurn e /\
  maxConsecutiveCancels e' = maxConsecutiveCancels e /\ cancelsSinceProgress e' = cancelsSinceProgress e /\
  pendingCancel e' = pendingCancel e /\ pendingOrder e' = pendingOrder e /\ heap e' = heap e /\
  shuttingDown e' = shuttingDown e.

Lemma env_act_same a e : same_scheduler e (env_act a e) /\ free e <= free (env_act a e).
Proof.
  assert (H0 : same_scheduler e e /\ free e <= free e) by (split; [done|lia]).
  destruct a; cbn [env_act]; try exact H0.
  - unfold SubmitOrder. destruct (ch_send _ _); exact H0.
  - unfold CancelOrder_send. cbn. destruct (ch_send _ _); exact H0.
  - unfold CancelOrder_recv. destruct (_ ≫= _) as [[? ?]|]; exact H0.
  - destruct (ExecutionCh (em e)) as [c|] eqn:Ec; cbn; [|exact H0]. destruct (ch_recv c) as [[ev c']|] eqn:Er; [|exact H0].
    apply ch_recv_Some in Er as [Hb Hcp]. split; [done|]. unfold free. cbn. rewrite Ec. unfold ch_len. rewrite Hb, Hcp. cbn. lia.
  - destruct (ch_recv _) as [[? ?]|]; exact H0.
  - destruct (ch_recv _) as [[? ?]|]; exact H0.
Qed.

Lemma env_acts_same l e : same_scheduler e (env_acts l e) /\ free e <= free (env_acts l e).
Proof.
  revert e. induction l as [|a l IH]; intros e; [split; [done|cbn; lia]|].
  change (env_acts (a :: l) e) with (env_acts l (env_act a e)).
  destruct (IH (env_act a e)) as [H1 H2]. destruct (env_act_same a e) as [H3 H4].
  split; [|lia]. unfold same_scheduler in *. intuition congruence.
Qed.

(** ** Cancellations *)

Lemma active_ok_grow e e' : active_ok e -> active e' = active e ->
  (forall a, is_Some (heap e !! a) -> is_Some (heap e' !! a)) -> active_ok e'.
Proof. intros H Ha Hh s Hs. rewrite Ha in Hs. destruct (H s Hs) as (? & ? & ?). auto. Qed.

Lemma removeFromBook_ok cmd e res e' : books_ok e -> removeFromBook cmd e = (res, e') ->
  books_ok e' /\ (forall a, is_Some (heap e !! a) -> is_Some (heap e' !! a)) /\
  exists h m, e' = e <| heap := h |> <| me_OrderBooks := m |>.
Proof.
  intros Hb H. unfold removeFromBook in H. destruct (GetOrderBook (cc_CoinSymbol cmd) e) as [a e1] eqn:EG.
  destruct (GetOrderBook_ok _ _ _ _ Hb EG) as (Hb1 & [b Hb0] & Hsub & h & m & ->).
  rewrite Hb0 in H. pose proof (bk_good _ _ _ Hb1 a b Hb0) as Hg.
  destruct (RemoveOrder_good b (cancel_target cmd) Hg) as (b' & r & ER & Hg' & _). rewrite ER in H.
  assert (e' = (e <| heap := h |> <| me_OrderBooks := m |>) <| heap := <[a := b']> h |>) as ->.
  { destruct r; by injection H as <- <-. }
  split; [exact (books_ok_put _ a b' Hb1 (ex_intro _ b Hb0) Hg')|]. split; [|eauto].
  intros x Hx. cbn in *. destruct (decide (a = x)) as [<-|]; [rewrite lookup_insert_eq; eauto|].
  rewrite lookup_insert_ne by done. by eapply heap_mono_some.
Qed.

Lemma handleCancel_ok cmd e res e' : books_ok e -> handleCancel cmd e = (res, e') ->
  books_ok e' /\ (forall a, is_Some (heap e !! a) -> is_Some (heap e' !! a)) /\
  exists h m, e' = e <| heap := h |> <| me_OrderBooks := m |>.
Proof.
  intros Hb H. unfold handleCancel in H.
  assert (Hid : exists h m, e = e <| heap := h |> <| me_OrderBooks := m |>).
  { exists (heap e), (me_OrderBooks e). by destruct e. }
  destruct (_ || _ || _); [by injection H as <- <-|].
  destruct (cc_Side cmd); [by eapply removeFromBook_ok|by eapply removeFromBook_ok|]. by injection H as <- <-.
Qed.

(** What a step may change of the parts the scheduler reads. *)
Record keeps (e e' : MatchingEngine) : Prop := {
  k_active : active e' = active e;
  k_matches : maxMatchesPerTurn e' = maxMatchesPerTurn e;
  k_cancels : maxConsecutiveCancels e' = maxConsecutiveCancels e;
  k_since : cancelsSinceProgress e' = cancelsSinceProgress e;
  k_pcancel : pendingCancel e' = pendingCancel e;
  k_porder : pendingOrder e' = pendingOrder e;
  k_orders : me_OrderCh e' = me_OrderCh e;
  k_cancelch : me_CancelCh e' = me_CancelCh e;
  k_shut : shuttingDown e' = shuttingDown e
}.

Lemma respond_keeps cmd res e : keeps e (respond cmd res e) /\ em (respond cmd res e) = em e.
Proof. unfold respond. repeat case_match; by split. Qed.
Lemma respond_ok cmd res e : engine_ok e -> engine_ok (respond cmd res e).
Proof. intros H. unfold respond. repeat case_match; try done. destruct H; by split. Qed.
Lemma obs_ok o e : engine_ok e -> engine_ok (obs o e).
Proof. intros [? Hem ? ? ? ? ? ?]. split; try done. by eapply em_ok_same. Qed.

Lemma free_room e c : ExecutionCh (em e) = Some c -> free e = ch_cap c - ch_len c.
Proof. intros H. unfold free. by rewrite H. Qed.

Lemma processCancel_ok cmd e : engine_ok e -> 1 <= free e ->
  exists e', processCancel cmd e = Ret e' /\ engine_ok e' /\ keeps e e' /\ free e - 1 <= free e'.
Proof.
  intros H Hfree. unfold processCancel. set (e1 := if negb _ then obs ObsCancel e else e).
  assert (H1 : engine_ok e1 /\ keeps e e1 /\ free e1 = free e).
  { subst e1. destruct (negb _); [|done]. split; [by apply obs_ok|done]. }
  clearbody e1. destruct H1 as (H1 & K1 & F1). destruct (handleCancel cmd e1) as [res e2] eqn:EH.
  destruct H1 as [Hq Hem Hi Hb Hac Hp Hqu Hc].
  destruct (handleCancel_ok _ _ _ _ Hb EH) as (Hb2 & Hgrow & h & m & ->). clear EH.
  set (e2 := e1 <| heap := h |> <| me_OrderBooks := m |>) in *.
  assert (H2 : engine_ok e2) by (split; try done; by eapply (active_ok_grow e1)).
  assert (K2 : keeps e e2) by (destruct K1; by split).
  destruct (cr_Removed res).
  - pose proof Hem as [Hf (c & Hch & Hcap & Hlen) _].
    rewrite <- F1, (free_room _ _ Hch) in Hfree.
    destruct (emitOrderCancelled_emits cmd (beginReservation 1 (em e1)) c Hch) as (es' & eid & Hes & HE & _).
    { eapply can_emit_reserve; [done|lia]. }
    cbn. rewrite Hes. cbn. eexists. split; [done|].
    match goal with |- engine_ok (respond _ _ ?x) /\ _ => set (e3 := x) end.
    assert (H3 : engine_ok e3).
    { subst e3. pose proof (ok_active _ H2). split; try done.
      apply (em_ok_same _ _ _ es'); [|done..]. eapply em_ok_emits; [|exact HE|].
      - eapply em_ok_same; [exact Hem|done..].
      - cbn. intros c' Hc'. simplify_eq. lia. }
    split; [by apply respond_ok|]. destruct (respond_keeps cmd res e3) as [K3 E3]. split.
    + destruct K3, K2. subst e3. split; cbn in *; congruence.
    + pose proof (emits_chan _ _ _ HE c Hch) as Hch'.
      assert (HF3 : ExecutionCh (em (respond cmd res e3)) = ExecutionCh es') by by rewrite E3.
      rewrite Hch' in HF3. rewrite (free_room _ _ HF3), <- F1, (free_room _ _ Hch). unfold ch_len. cbn. rewrite length_app. cbn. lia.
  - cbn. eexists. split; [done|]. split; [by apply respond_ok|].
    destruct (respond_keeps cmd res e2) as [K3 E3]. split; [destruct K3, K2; split; congruence|].
    rewrite <- F1. unfold free. rewrite E3. cbn. destruct (ExecutionCh (em e1)); lia.
Qed.

Lemma rejectCancel_ok cmd e : engine_ok e ->
  engine_ok (rejectCancel cmd e) /\ keeps e (rejectCancel cmd e) /\ free (rejectCancel cmd e) = free e.
Proof.
  intros H. unfold rejectCancel. set (res := mkCancelResult _ _).
  destruct (respond_keeps cmd res (obs ObsCancelBackpressured e)) as [K E].
  split; [by apply respond_ok, obs_ok|]. split; [destruct K; by split|]. unfold free. by rewrite E.
Qed.

Lemma takeCancel_ok e cmd e' : engine_ok e -> takeCancel e = (Some cmd, e') ->
  engine_ok e' /\ free e' = free e /\ maxConsecutiveCancels e' = maxConsecutiveCancels e /\
  cancelsSinceProgress e' = cancelsSinceProgress e /\ active e' = active e.
Proof.
  intros [Hq Hem Hi Hb Hac Hp Hqu Hc]. unfold takeCancel.
  destruct (pendingCancel e); [intros [= _ <-]; split; [by split|done]|].
  destruct (ch_recv _) as [[? c]|]; [|done]. intros [= _ <-]. split; [by split|done].
Qed.

Lemma takeCancel_None e e' : takeCancel e = (None, e') -> e' = e.
Proof. unfold takeCancel. destruct (pendingCancel e); [done|]. destruct (ch_recv _) as [[? c]|]; [done|]. by intros [= <-]. Qed.

(** The loop ends within the quota left and the rejection budget, whatever
    arrives meanwhile. *)
Lemma cancel_loop_ok fuel envs budget e : engine_ok e -> Forall (Forall good_act) envs -> 0 <= budget ->
  maxConsecutiveCancels e - cancelsSinceProgress e + budget < Z.of_nat fuel ->
  exists e', cancel_loop fuel envs budget e = Ret e' /\ engine_ok e' /\ active e' = active e /\
    cancelsSinceProgress e <= cancelsSinceProgress e'.
Proof.
  revert envs budget e. induction fuel as [|fuel IH]; intros envs budget e H Henv Hbud Hfuel.
  { pose proof (ok_cancels _ H). lia. }
  cbn [cancel_loop]. set (e1 := env_acts (default [] (head envs)) e).
  assert (H1 : engine_ok e1) by (apply env_acts_ok; [by destruct Henv|done]).
  destruct (env_acts_same (default [] (head envs)) e) as [(Ea & _ & Em & Es & _) _]. fold e1 in Ea, Em, Es.
  assert (Henv' : Forall (Forall good_act) (tail envs)) by (by destruct Henv).
  clearbody e1. unfold cancel_decision.
  destruct ((cancelsSinceProgress e1 <? maxConsecutiveCancels e1) && (1 <=? free e1)) eqn:ED.
  - bool_to_prop. destruct (takeCancel e1) as [[cmd|] e2] eqn:ET; [|apply takeCancel_None in ET as ->].
    + destruct (takeCancel_ok _ _ _ H1 ET) as (Ho2 & F2 & M2 & S2 & A2).
      destruct (processCancel_ok cmd e2 Ho2 ltac:(lia)) as (e3 & HP & Ho3 & K3 & _). rewrite HP. cbn [mbind outcome_bind].
      set (e4 := e3 <| cancelsSinceProgress := cancelsSinceProgress e3 + 1 |>).
      assert (Ho4 : engine_ok e4).
      { destruct K3, Ho3. split; try done. cbn. rewrite k_since0, k_cancels0. lia. }
      destruct K3. destruct (IH (tail envs) budget e4 Ho4 Henv' Hbud) as (e' & HR & Hok & Hact & Hle).
      { cbn. rewrite k_since0, k_cancels0. lia. }
      exists e'. split; [done|]. split; [done|]. cbn in *. split; [congruence|lia].
    + exists e1. split; [done|]. split; [done|]. split; [done|lia].
  - destruct (_ || _); [|exists e1; split; [done|]; split; [done|]; split; [done|lia]].
    destruct (budget =? 0) eqn:EB; [exists e1; split; [done|]; split; [done|]; split; [done|lia]|]. bool_to_prop.
    destruct (takeCancel e1) as [[cmd|] e2] eqn:ET; [|apply takeCancel_None in ET as ->].
    + destruct (takeCancel_ok _ _ _ H1 ET) as (Ho2 & F2 & M2 & S2 & A2).
      destruct (rejectCancel_ok cmd e2 Ho2) as (Ho3 & K3 & _).
      destruct (IH (tail envs) (budget - 1) _ Ho3 Henv' ltac:(lia)) as (e' & HR & Hok & Hact & Hle).
      { destruct K3. rewrite k_since0, k_cancels0. lia. }
      destruct K3. exists e'. split; [done|]. split; [done|]. split; [congruence|lia].
    + exists e1. split; [done|]. split; [done|]. split; [done|lia].
Qed.

Lemma cancel_budget_nonneg e : 0 <= cancel_budget e.
Proof. unfold cancel_budget, ch_len. case_match; lia. Qed.

Lemma cancelPhase_ok envs e : engine_ok e -> Forall (Forall good_act) envs ->
  exists e', cancelPhase envs e = Ret e' /\ engine_ok e' /\ active e' = active e /\
    cancelsSinceProgress e <= cancelsSinceProgress e'.
Proof.
  intros H Henv. pose proof (cancel_budget_nonneg e). apply cancel_loop_ok; [done|done|done|].
  unfold cancel_fuel. pose proof (ok_cancels _ H). lia.
Qed.

(** ** Snapshots *)

Lemma level_quantity_sum (l : PriceLevel) :
  exists q, level_quantity l = Some q /\ (dval q == amounts (level_orders l))%Q.
Proof.
  unfold level_quantity. rewrite dqLen_list, Nat2Z.id. fold (level_orders l).
  assert (Hgo : forall n, (n <= length (level_orders l))%nat ->
    exists q, foldl (fun acc i => q ← acc; o ← dqAt (pl_Orders l) (Z.of_nat i); Some (Add q (o_Amount o)))
      (Some Zero) (seq 0 n) = Some q /\ (dval q == amounts (take n (level_orders l)))%Q).
  { induction n as [|n IH]; intros Hn.
    - exists Zero. split; [done|]. rewrite take_0. by rewrite dval_Zero.
    - destruct IH as (q & Hq & Hv); [lia|]. rewrite seq_S, foldl_app, Hq. cbn.
      rewrite dqAt_list, Nat2Z.id by lia. fold (level_orders l).
      destruct (lookup_lt_is_Some_2 (level_orders l) n ltac:(lia)) as [o Ho]. rewrite Ho. cbn.
      eexists. split; [done|]. rewrite (take_S_r _ _ _ Ho), amounts_app, amounts_cons. dval_norm.
      change (amounts []) with 0%Q. lra. }
  destruct (Hgo _ (le_n _)) as (q & Hq & Hv). exists q. split; [done|]. by rewrite firstn_all in Hv.
Qed.

Lemma amounts_pos l : l <> [] -> Forall (fun o => 0 < dval (o_Amount o))%Q l -> (0 < amounts l)%Q.
Proof.
  intros Hn HF. destruct HF as [|o l Ho HF]; [done|]. rewrite amounts_cons.
  assert (0 <= amounts l)%Q; [|lra]. apply Qsum_nonneg, Forall_map. eapply Forall_impl; [exact HF|].
  intros x Hx. cbn in *. lra.
Qed.

(** A level of the snapshot: its price and the sum of what rests there. *)
Definition level_data (l : PriceLevel) (d : PriceLevelData) : Prop :=
  pd_Price d = pl_Price l /\ (dval (pd_Quantity d) == amounts (level_orders l))%Q.

Lemma collect_levels_spec isBuy depth ls acc : 0 <= depth -> Forall (level_ok isBuy) ls ->
  Z.of_nat (length acc) <= depth ->
  exists ds, collect_levels depth ls acc = Ret (acc ++ ds) /\
    Forall2 level_data (take (Z.to_nat depth - length acc) ls) ds.
Proof.
  intros Hd HL. revert acc. induction HL as [|l ls [Hne Hl] HL IH]; intros acc Hacc; cbn [collect_levels].
  - exists []. rewrite app_nil_r, take_nil. split; [done|constructor].
  - destruct (depth <=? Z.of_nat (length acc)) eqn:E; bool_to_prop.
    + exists []. rewrite app_nil_r. replace (Z.to_nat depth - length acc)%nat with O by lia.
      rewrite take_0. split; [done|constructor].
    + destruct (level_quantity_sum l) as (q & -> & Hq).
      assert (Hpos : (0 < dval q)%Q).
      { rewrite Hq. apply amounts_pos; [done|]. eapply Forall_impl; [exact Hl|]. by intros o (_ & ? & _). }
      rewrite (proj2 (GreaterThan_true _ _)) by by rewrite dval_Zero.
      destruct (IH (acc ++ [mkLevelData (pl_Price l) q])) as (ds & HR & HF); [rewrite length_app; cbn; lia|].
      exists (mkLevelData (pl_Price l) q :: ds). rewrite HR, <- app_assoc. split; [done|].
      replace (Z.to_nat depth - length acc)%nat with (S (Z.to_nat depth - length (acc ++ [mkLevelData (pl_Price l) q])))%nat
        by (rewrite length_app; cbn; lia).
      cbn [take]. by constructor.
Qed.

(** The snapshot of a book: its best [depth] levels on each side. *)
Definition snapshot_of (sym : string) (depth : Z) (b : OrderBook) (s : OrderBookSnapshot) : Prop :=
  os_CoinSymbol s = sym /\
  Forall2 level_data (take (Z.to_nat depth) (btAscend (SellOrders b))) (os_Asks s) /\
  Forall2 level_data (take (Z.to_nat depth) (btDescend (BuyOrders b))) (os_Bids s).

Lemma snapshot_ok sym depth e : books_ok e -> 0 < depth ->
  exists s e' a b, GetOrderBookSnapshotWithDepth sym depth e = Ret (s, e') /\ books_ok e' /\
    heap e ⊆ heap e' /\ heap e' !! a = Some b /\
    (sym <> "" -> GetOrderBook sym e = (a, e')) /\ (sym = "" -> a = me_OrderBook e /\ e' = e) /\
    snapshot_of sym depth b s /\ exists h m, e' = e <| heap := h |> <| me_OrderBooks := m |>.
Proof.
  intros Hb Hd. unfold GetOrderBookSnapshotWithDepth.
  assert (Hget : exists a e', (if negb (String.eqb sym "") then GetOrderBook sym e else (me_OrderBook e, e)) = (a, e') /\
    books_ok e' /\ heap e ⊆ heap e' /\ is_Some (heap e' !! a) /\
    (sym <> "" -> GetOrderBook sym e = (a, e')) /\ (sym = "" -> a = me_OrderBook e /\ e' = e) /\
    exists h m, e' = e <| heap := h |> <| me_OrderBooks := m |>).
  { destruct (String.eqb_spec sym "") as [->|Hn]; cbn.
    - exists (me_OrderBook e), e. split_and!; try done; [apply Hb|]. exists (heap e), (me_OrderBooks e). by destruct e.
    - destruct (GetOrderBook sym e) as [a e'] eqn:EG. destruct (GetOrderBook_ok _ _ _ _ Hb EG) as (? & ? & ? & ?).
      exists a, e'. split_and!; try done. }
  destruct Hget as (a & e' & -> & Hb' & Hsub & [b Hab] & Hg1 & Hg2 & Hfr). rewrite Hab.
  destruct (bk_good _ _ _ Hb' a b Hab) as (([_ HLB] & [_ HLS]) & _).
  assert (Hn : normalizeSnapshotDepth depth = depth) by (unfold normalizeSnapshotDepth; by rewrite (proj2 (Z.leb_gt _ _))).
  rewrite Hn.
  destruct (collect_levels_spec false depth (btAscend (SellOrders b)) [] ltac:(lia) HLS ltac:(cbn; lia)) as (ds & -> & H1).
  destruct (collect_levels_spec true depth (btDescend (BuyOrders b)) [] ltac:(lia)) as (ds' & -> & H2).
  { rewrite btDescend_rev. by apply Forall_rev. } { cbn. lia. }
  cbn. cbn in H1, H2. rewrite Nat.sub_0_r in H1, H2. eexists _, e', a, b. split; [done|]. split_and!; done.
Qed.

(** A change that only adds books. *)
Lemma engine_ok_books e h m : engine_ok e -> books_ok (e <| heap := h |> <| me_OrderBooks := m |>) -> heap e ⊆ h ->
  engine_ok (e <| heap := h |> <| me_OrderBooks := m |>).
Proof.
  intros [Hq Hem Hi Hb Hac Hp Hqu Hc] Hb' Hsub. split; try done.
  eapply (active_ok_grow e); [done|done|]. intros a. by apply heap_mono_some.
Qed.

Lemma flush_symbols_ok syms e : engine_ok e ->
  exists e', flush_symbols syms e = Ret e' /\ engine_ok e' /\ keeps e e' /\ em e' = em e /\ heap e ⊆ heap e' /\
    (forall s, s ∈ dirtySymbols e' <-> s ∈ dirtySymbols e /\ s ∉ syms).
Proof.
  revert e. induction syms as [|s syms IH]; intros e H; cbn [flush_symbols].
  - exists e. split_and!; try done. set_solver.
  - unfold GetOrderBookSnapshot. destruct (snapshot_ok s DefaultSnapshotDepth e (ok_books _ H) ltac:(done))
      as (sn & e1 & a & b & -> & Hb1 & Hsub & _ & _ & _ & _ & h & m & ->). cbn [mbind outcome_bind].
    set (e1 := e <| heap := h |> <| me_OrderBooks := m |>) in *.
    assert (H1 : engine_ok e1) by by apply engine_ok_books.
    match goal with |- context [flush_symbols syms ?x] => set (e2 := x) end.
    assert (H2 : engine_ok e2) by (destruct H1; by split).
    destruct (IH e2 H2) as (e' & HR & Hok & K & E & Hsub' & Hd). exists e'. split_and!; try done.
    + destruct K. by split.
    + by etrans.
    + intros x. rewrite Hd. unfold e2. cbn. set_solver.
Qed.

Lemma flushSnapshots_ok range e : engine_ok e ->
  exists e', flushSnapshots range e = Ret e' /\ engine_ok e' /\ keeps e e' /\ em e' = em e.
Proof.
  intros H. destruct (flush_symbols_ok (range (elements (dirtySymbols e))) e H) as (e' & ? & ? & ? & ? & _). eauto 10.
Qed.

Lemma tickerPhase_ok range e : engine_ok e ->
  exists e', tickerPhase range e = Ret e' /\ engine_ok e' /\ keeps e e' /\ em e' = em e.
Proof.
  intros H. unfold tickerPhase.
  assert (Hgo : forall e0, engine_ok e0 -> keeps e e0 -> em e0 = em e ->
    exists e', flushSnapshots range e0 = Ret e' /\ engine_ok e' /\ keeps e e' /\ em e' = em e).
  { intros e0 H0 K0 E0. destruct (flushSnapshots_ok range e0 H0) as (e' & HR & Hok & K & E). exists e'.
    split_and!; try done; [|congruence]. destruct K0, K. split; congruence. }
  destruct (tickerDue e).
  - apply Hgo; [destruct H; by split|done|done].
  - destruct (ch_recv _) as [[? c]|]; [|exists e; by split_and!].
    apply Hgo; [destruct H; by split|done|done].
Qed.

(** ** Admission *)

Lemma admissible_kind o : orderIsAdmissible o = true -> kind_of o <> KNone.
Proof. unfold orderIsAdmissible, kind_of. destruct (o_Side o); [by case_bool_decide|by case_bool_decide|done]. Qed.

Lemma admit_ok o e : good_opt o -> engine_ok e ->
  engine_ok (engine_admit o e) /\ (forall s, active (engine_admit o e) = Some s -> active e = Some s \/ o = Some (as_order s)).
Proof.
  intros Ho H. unfold engine_admit, admitOrder. destruct o as [o|]; [|by eauto].
  set (e1 := if negb (o_EnqueuedAt o =? 0) then _ else _).
  assert (H1 : engine_ok e1 /\ active e1 = active e) by (subst e1; destruct (negb _); [split; [by apply obs_ok|done]|done]).
  clearbody e1. destruct H1 as [H1 A1]. destruct (orderIsAdmissible o) eqn:EA; cbn.
  - destruct (GetOrderBook (o_CoinSymbol o) e1) as [a e2] eqn:EG.
    destruct (GetOrderBook_ok _ _ _ _ (ok_books _ H1) EG) as (Hb & Hs & Hsub & h & m & ->).
    pose proof (engine_ok_books _ _ _ H1 Hb Hsub) as H2. split; [|cbn; intros s [= <-]; by right].
    destruct H2. split; try done. intros s [= <-]. split; [done|]. split; [by apply admissible_kind|done].
  - unfold observeMatchLatency. destruct (negb _); (split; [by try apply obs_ok|]); cbn; intros s Hs; left; congruence.
Qed.

Lemma reset_ok e : engine_ok e -> engine_ok (e <| cancelsSinceProgress := 0 |>).
Proof. intros [[? ?] ? ? ? ? ? ? ?]. split; try done. cbn. lia. Qed.

(** Admission always makes progress: it clears the run of cancellations. *)
Lemma admitPhase_ok e : engine_ok e -> engine_ok (admitPhase e) /\ cancelsSinceProgress (admitPhase e) = 0.
Proof.
  intros H. unfold admitPhase. destruct (pendingOrder e) as [o|] eqn:Ep.
  - split; [|done]. apply reset_ok, admit_ok; [pose proof (ok_pending _ H) as Hp; by rewrite Ep in Hp|].
    destruct H. by split.
  - destruct (negb _ && _); [split; [by apply reset_ok|done]|].
    destruct (ch_recv (me_OrderCh e)) as [[o c]|] eqn:Er; [|split; [by apply reset_ok|done]].
    apply ch_recv_Some in Er as [Eb _]. pose proof (ok_queue _ H) as Hq. rewrite Eb in Hq.
    apply Forall_cons in Hq as [Ho Hq]. split; [|done]. apply reset_ok, admit_ok; [done|]. destruct H. by split.
Qed.

(** ** Slices *)

Lemma good_order_terms o o' : same_terms o' o -> good_order o -> (kind_of o' = KMarketBuy -> 0 <= dval (o_QuoteAmount o'))%Q ->
  good_order o'.
Proof. intros (_ & _ & _ & _ & Ht & Hp & _) [H1 _] Hq. split; [|done]. by rewrite Ht, Hp. Qed.

Lemma sweep_inv_good b o : good_book b -> good_order o -> sweep_inv b o.
Proof.
  intros (Hok & Hp & _) [_ Hq]. split; [done|]. intros Hk. split; [done|]. by apply Hq.
Qed.

(** What a finished order leaves: the completion event of a market order, or
    the rest of a limit order in the book. *)
Definition finish_events (o : Order) (evs : list ExecutionEvent) : Prop :=
  if bool_decide (o_OrderType o = OrderTypeMarket)
  then exists d, evs = [EvMarketOrderDone d] /\ d_OrderID d = o_ID o /\ d_FilledAmount d = o_FilledAmount o /\
    d_FilledQuoteAmount d = o_FilledQuoteAmount o /\ d_RemainingAmount d = o_Amount o /\
    d_RemainingQuoteAmount d = o_QuoteAmount o
  else evs = [].

Definition finish_book (o : Order) (b : OrderBook) : OrderBook :=
  if negb (bool_decide (o_OrderType o = OrderTypeMarket)) && GreaterThan (o_Amount o) Zero then AddOrder b o else b.

Lemma finish_book_good o b : good_book b -> good_order o -> kind_of o <> KNone -> nothing_left b o ->
  good_book (finish_book o b).
Proof.
  intros Hb [Hp _] Hk Hn. unfold finish_book. case_bool_decide as Ht; cbn; [done|].
  destruct (GreaterThan (o_Amount o) Zero) eqn:E; [|done]. dec_prop. rewrite dval_Zero in E.
  apply AddOrder_good; [done|done|by apply Hp| |done].
  pose proof (kind_of_side o) as Hs. destruct (kind_of o); tauto.
Qed.

Lemma finishOrder_spec a o b e c : heap e !! a = Some b -> ExecutionCh (em e) = Some c -> can_emit 1 (em e) ->
  exists h es d evs, finishOrder a o e = Ret (e <| heap := h |> <| em := es |> <| dirtySymbols := d |>) /\
    h = <[a := finish_book o b]> (heap e) /\ emits (em e) evs es /\ finish_events o evs.
Proof.
  intros Hb Hc Hcan. unfold finishOrder, finish_book, finish_events. case_bool_decide as Ht; cbn.
  - destruct (emitMarketOrderDone_emits o (em e) c Hc Hcan) as (es & dn & -> & HE & Hd). cbn.
    exists (heap e), es, (dirtySymbols e), [EvMarketOrderDone dn]. split; [by destruct e|].
    split; [by rewrite insert_id|]. split; [done|]. by exists dn.
  - destruct (GreaterThan (o_Amount o) Zero).
    + exists (alter (fun book => AddOrder book o) a (heap e)), (em e), ({[ o_CoinSymbol o ]} ∪ dirtySymbols e), [].
      split; [reflexivity|]. split; [|split; [apply emits_nil|done]]. cbn.
      apply map_eq. intros x. destruct (decide (x = a)) as [->|]; [by rewrite lookup_alter_eq, lookup_insert_eq, Hb|].
      by rewrite lookup_alter_ne, lookup_insert_ne.
    + exists (heap e), (em e), (dirtySymbols e), []. split; [by destruct e|].
      split; [by rewrite insert_id|]. split; [apply emits_nil|done].
Qed.

(** What one slice does to the engine, in terms of the channel-free run. *)
Lemma runSlice_spec e s : engine_ok e -> active e = Some s -> hasSliceCapacity e = true ->
  exists b r e' evs, heap e !! as_book s = Some b /\
    slice_run (Some (Z.to_nat (maxMatchesPerTurn e))) b (as_order s) = Some r /\ runSlice e = Ret e' /\
    active e' = (if run_done r then None
                 else Some (mkActive (run_order r) (as_book s) (as_trades s + Z.of_nat (length (run_fills r))))) /\
    heap e' = <[as_book s := if run_done r then finish_book (run_order r) (run_book r) else run_book r]> (heap e) /\
    exec_events (em e') = exec_events (em e) ++
      map EvTrade (report (o_CoinSymbol (as_order s)) (beginReservation (maxMatchesPerTurn e + 1) (em e)) (run_fills r)) ++ evs /\
    (if run_done r then finish_events (run_order r) evs else evs = []) /\
    engine_ok e'.
Proof.
  intros H Hs Hcap. pose proof H as [[Hm Hk] Hem Hi Hb Hac Hp Hqu Hc].
  destruct (Hac s Hs) as (Ho & Hkind & b & Hab). pose proof (bk_good _ _ _ Hb _ _ Hab) as Hg. cbn in Hg.
  pose proof (sweep_inv_good _ _ Hg Ho) as Hsi.
  pose proof Hem as [Hf (c & Hch & Hccap & Hlen) _].
  unfold hasSliceCapacity in Hcap. rewrite (free_room _ _ Hch) in Hcap. bool_to_prop.
  set (m := maxMatchesPerTurn e) in *. set (es0 := beginReservation (m + 1) (em e)).
  assert (Hcan : can_emit (m + 1) es0) by (eapply can_emit_reserve; [done|lia]).
  destruct (matchSlice_total m 1 b (as_order s) es0 Hsi ltac:(lia) ltac:(lia) Hcan) as (r & Hr & HM & Hle & _ & Hroom).
  set (es1 := reported (o_CoinSymbol (as_order s)) es0 (run_fills r)) in *.
  set (ts := map EvTrade (report (o_CoinSymbol (as_order s)) es0 (run_fills r))).
  assert (HE1 : emits es0 ts es1) by (apply emits_reported; eexists; exact Hch).
  assert (Hlt : length ts = length (run_fills r)).
  { unfold ts. rewrite length_map. apply report_spec; [done|eexists; exact Hch]. }
  destruct (slice_run_inv _ _ _ _ Hsi Hr) as [Ht [Hok' Hmq]].
  destruct (slice_run_drawn _ _ _ _ Hsi Hr) as [Hda Hdb].
  assert (Hg' : good_book (run_book r)) by by eapply good_book_drawn.
  assert (Ho' : good_order (run_order r)).
  { eapply good_order_terms; [exact Ht|exact Ho|]. intros Hmk. by apply Hmq. }
  assert (Hk' : kind_of (run_order r) <> KNone) by by rewrite (kind_of_terms _ _ Ht).
  assert (Hch1 : ExecutionCh es1 = Some (mkChan (ch_buf c ++ ts) (ch_cap c))) by apply (emits_chan _ _ _ HE1 c Hch).
  assert (Hres : reservationActive es1 = true) by apply (emits_res _ _ _ HE1).
  assert (Hem1 : forall k, em_ok (delivered e) m (maxConsecutiveCancels e) (endReservation (with_reservation es1 true k)) ).
  { intros k'. apply (em_ok_same _ _ _ es1); [|done..]. apply (em_ok_emits _ _ _ es0 ts); [by eapply em_ok_same|done|].
    intros c' Hc'. rewrite Hlt. change (ExecutionCh es0) with (ExecutionCh (em e)) in Hc'. simplify_eq. lia. }
  exists b, r. unfold runSlice. rewrite Hs, Hab. fold m es0. rewrite HM. cbn [mbind outcome_bind].
  unfold afterSlice. cbn [sw_book sw_order sw_es as_book as_order as_trades].
  set (s' := mkActive (run_order r) (as_book s) (as_trades s + Z.of_nat (length (run_fills r)))).
  set (e1 := e <| heap := _ |> <| em := es1 |> <| active := Some s' |>).
  assert (exists d, (if 1 <=? Z.of_nat (length (run_fills r)) then markDirty (o_CoinSymbol (run_order r)) e1 else e1)
                    = e1 <| dirtySymbols := d |>) as [d ->].
  { destruct (1 <=? _); eexists; [reflexivity|]. by destruct e. }
  set (e2 := e1 <| dirtySymbols := d |>).
  assert (Hb2 : books_ok e2) by (apply (books_ok_put e); [done|by eexists|done]).
  destruct (run_done r) eqn:Ed; cbn [negb].
  - assert (Hh2 : heap e2 !! as_book s = Some (run_book r)) by apply lookup_insert_eq.
    destruct (finishOrder_spec (as_book s) (run_order r) (run_book r) e2 _ Hh2 Hch1)
      as (h & es2 & d2 & evs & -> & -> & HE2 & Hev).
    { eapply can_emit_le; [exact Hroom|lia]. }
    pose proof (emits_chan _ _ _ HE2 _ Hch1) as Hch2. cbn in Hch2.
    assert (Hlev : (length evs <= 1)%nat).
    { unfold finish_events in Hev. case_bool_decide; [destruct Hev as (? & -> & _); done|by rewrite Hev; cbn; lia]. }
    assert (Hev2 : exec_events es2 = exec_events (em e) ++ ts ++ evs).
    { rewrite (exec_events_chan _ _ Hch2), (exec_events_chan _ _ Hch). cbn. by rewrite app_assoc. }
    assert (Hem2 : em_ok (delivered e) m (maxConsecutiveCancels e) es2).
    { eapply em_ok_emits; [|exact HE2|]; [eapply em_ok_same; [apply (Hem1 0)|done..]|].
      intros c' Hc'. change (ExecutionCh (em e2)) with (ExecutionCh es1) in Hc'. rewrite Hch1 in Hc'. injection Hc' as <-.
      unfold ch_len in *. cbn. rewrite length_app, Hlt. lia. }
    assert (Hb3 : books_ok (e2 <| heap := <[as_book s := finish_book (run_order r) (run_book r)]> (heap e2) |>)).
    { apply (books_ok_put e2); [done|by eexists|]. apply finish_book_good; try done. by eapply slice_run_done. }
    cbn [mbind outcome_bind]. unfold observeMatchLatency.
    destruct (negb _); eexists _, evs; (split; [done|]); (split; [done|]); (split; [reflexivity|]); (split; [done|]);
      (split; [apply insert_insert_eq|]); (split; [exact Hev2|]); (split; [done|]);
      (split; try done; try (eapply em_ok_same; [exact Hem2|done..])).
  - eexists _, []. split; [done|]. split; [done|]. split; [reflexivity|]. split; [done|]. split; [done|].
    split; [rewrite app_nil_r, (exec_events_chan _ _ Hch); exact (exec_events_chan _ _ Hch1)|]. split; [done|].
    split; try done; [eapply em_ok_same; [apply (Hem1 0)|done..]|].
    intros s0 [= <-]. split; [done|]. split; [done|]. eexists. apply lookup_insert_eq.
Qed.

Lemma finishPark_ok e : engine_ok e -> engine_ok (finishPark e) /\ keeps e (finishPark e) /\
  free (finishPark e) = free e /\ heap (finishPark e) = heap e /\ exec_events (em (finishPark e)) = exec_events (em e).
Proof.
  intros H. unfold finishPark. destruct (_ =? 0); [done|]. pose proof (obs_ok ObsParkDuration e H) as H1.
  split; [destruct H1; by split|done].
Qed.

Lemma keeps_capacity e e' : keeps e e' -> free e' = free e -> hasSliceCapacity e' = hasSliceCapacity e.
Proof. intros [] Hf. unfold hasSliceCapacity. congruence. Qed.

Lemma slicePhase_ok e : engine_ok e ->
  exists e', slicePhase e = Ret e' /\ engine_ok e' /\
    (match active e with Some _ => hasSliceCapacity e | None => false end = true -> cancelsSinceProgress e' = 0) /\
    (match active e with Some _ => hasSliceCapacity e | None => false end = false -> e' = e) /\
    (active e = None -> active e' = None).
Proof.
  intros H. unfold slicePhase. destruct (active e) as [s|] eqn:Ea; [|by exists e].
  destruct (hasSliceCapacity e) eqn:Ec; [|by exists e].
  destruct (finishPark_ok e H) as (H1 & K1 & F1 & _). rewrite <- (keeps_capacity _ _ K1 F1) in Ec.
  rewrite <- (k_active _ _ K1) in Ea.
  destruct (runSlice_spec _ _ H1 Ea Ec) as (b & r & e' & evs & _ & _ & -> & _ & _ & _ & _ & Hok). cbn.
  eexists. split; [done|]. split; [by apply reset_ok|done].
Qed.

Lemma latchStop_ok e : engine_ok e -> engine_ok (latchStop e).
Proof. intros H. unfold latchStop. destruct (shuttingDown e); [done|]. apply obs_ok. destruct H. by split. Qed.

Lemma enterParkOnce_ok t e : engine_ok e -> engine_ok (enterParkOnce t e).
Proof. intros H. unfold enterParkOnce. destruct (negb _); [done|]. apply obs_ok. destruct H. by split. Qed.

Lemma select_one_ok n cases e' : Forall (fun c => match c with Some e => engine_ok e | None => True end) cases ->
  select_one n cases = Ret e' -> engine_ok e'.
Proof.
  intros HF H. unfold select_one in H. destruct (omap id cases !! _) as [e0|] eqn:E; [|done]. injection H as <-.
  apply list_elem_of_lookup_2, list_elem_of_omap in E as (x & Hx & E). eapply Forall_forall in HF; [|exact Hx]. unfold id in E. by rewrite E in HF.
Qed.

Lemma case_cancel_ok e : engine_ok e -> match case_cancel e with Some e => engine_ok e | None => True end.
Proof. intros H. unfold case_cancel. destruct (ch_recv _) as [[? ?]|]; cbn; [|done]. destruct H. by split. Qed.
Lemma case_order_ok e : engine_ok e -> match case_order e with Some e => engine_ok e | None => True end.
Proof.
  intros H. unfold case_order. destruct (ch_recv _) as [[o c]|] eqn:Er; cbn; [|done].
  apply ch_recv_Some in Er as [Eb _]. destruct H. rewrite Eb in ok_queue0. apply Forall_cons in ok_queue0 as [? ?]. by split.
Qed.
Lemma case_tick_ok e : engine_ok e -> match case_tick e with Some e => engine_ok e | None => True end.
Proof. intros H. unfold case_tick. destruct (ch_recv _) as [[? ?]|]; cbn; [|done]. destruct H. by split. Qed.
Lemma case_capacity_ok e : engine_ok e -> match case_capacity e with Some e => engine_ok e | None => True end.
Proof. intros H. unfold case_capacity. destruct (ch_recv _) as [[? ?]|]; cbn; [|done]. destruct H. by split. Qed.
Lemma case_stop_ok e : engine_ok e -> match case_stop e with Some e => engine_ok e | None => True end.
Proof. intros H. unfold case_stop. destruct (stopClosed e); [by apply latchStop_ok|done]. Qed.

Lemma selects_ok n e e' : engine_ok e -> parkSelect n e = Ret e' \/ idleSelect n e = Ret e' -> engine_ok e'.
Proof.
  intros H. pose proof (case_cancel_ok e H). pose proof (case_order_ok e H). pose proof (case_tick_ok e H).
  pose proof (case_capacity_ok e H). pose proof (case_stop_ok e H).
  intros [HS|HS]; (eapply select_one_ok; [|exact HS]);
    repeat first [apply Forall_nil_2 | apply Forall_cons_2]; try done; by destruct (shuttingDown e), (emitBackpressured e).
Qed.

Lemma select_one_cases n cases : select_one n cases = Blocked \/ exists e, select_one n cases = Ret e.
Proof. unfold select_one. destruct (_ !! _); eauto. Qed.

Definition good_schedule (sc : schedule) : Prop :=
  Forall good_act (at_start sc) /\ Forall (Forall good_act) (in_cancel sc) /\ Forall good_act (after_cancel sc) /\
  Forall good_act (after_tick sc) /\ Forall good_act (after_slice sc) /\ Forall good_act (after_stop sc) /\
  Forall good_act (after_admit sc) /\ Forall good_act (before_select sc).

Lemma endOfTurn_ok sc e : good_schedule sc -> engine_ok e ->
  endOfTurn sc e = Blocked \/ exists stop e', endOfTurn sc e = Ret (stop, e') /\ engine_ok e'.
Proof.
  intros (_ & _ & _ & _ & _ & _ & _ & Hbs) H. unfold endOfTurn. destruct (sliceBlockedNow e && _).
  - set (e1 := env_acts _ _). assert (H1 : engine_ok e1) by (apply env_acts_ok; [done|by apply enterParkOnce_ok]).
    clearbody e1. destruct (select_one_cases (choice sc) [case_capacity e1; case_cancel e1; case_tick e1;
                     if shuttingDown e1 then None else case_stop e1]) as [E|[e' E]];
      unfold parkSelect; rewrite E; [by left|right]. cbn. eexists _, _. split; [done|].
    eapply selects_ok; [exact H1|left; exact E].
  - destruct (_ || _); [right; by eexists _, _|].
    set (e1 := env_acts _ _). assert (H1 : engine_ok e1) by by apply env_acts_ok. clearbody e1.
    destruct (shuttingDown e).
    + right. unfold latchOneNonBlocking.
      pose proof (case_cancel_ok e1 H1) as Hc. pose proof (case_order_ok e1 H1) as Ho. unfold case_cancel, case_order in *.
      destruct (ch_recv (me_CancelCh e1)) as [[cmd c]|]; cbn in *; [by eexists _, _|].
      destruct (ch_recv (me_OrderCh e1)) as [[o c]|]; cbn in *; [by eexists _, _|].
      destruct (flushSnapshots_ok (range sc) e1 H1) as (e2 & -> & H2 & _). cbn. eexists _, _. split; [done|].
      destruct H2. by split.
    + destruct (select_one_cases (choice sc) [case_cancel e1; if emitBackpressured e1 then None else case_order e1;
                     case_tick e1; case_stop e1]) as [E|[e' E]];
        unfold idleSelect; rewrite E; [by left|right]. cbn. eexists _, _. split; [done|].
      eapply selects_ok; [exact H1|right; exact E].
Qed.

Lemma stopPhase_ok e : engine_ok e -> engine_ok (stopPhase e).
Proof. intros H. unfold stopPhase. destruct (_ && _); [by apply latchStop_ok|done]. Qed.

Lemma runTurn_ok sc e : good_schedule sc -> engine_ok e ->
  runTurn sc e = Blocked \/ exists stop e', runTurn sc e = Ret (stop, e') /\ engine_ok e'.
Proof.
  intros Hsc H. pose proof Hsc as (H1 & H2 & H3 & H4 & H5 & H6 & H7 & H8). unfold runTurn.
  set (e0 := env_acts (at_start sc) e). assert (E0 : engine_ok e0) by by apply env_acts_ok.
  destruct (cancelPhase_ok (in_cancel sc) e0 E0 H2) as (e1 & -> & E1 & _). cbn [mbind outcome_bind].
  destruct (tickerPhase_ok (range sc) (env_acts (after_cancel sc) e1)) as (e2 & -> & E2 & _); [by apply env_acts_ok|].
  cbn [mbind outcome_bind].
  destruct (slicePhase_ok (env_acts (after_tick sc) e2)) as (e3 & -> & E3 & _); [by apply env_acts_ok|].
  cbn [mbind outcome_bind]. destruct (crash sc); [right; by eexists _, _|]. apply endOfTurn_ok; [done|].
  apply env_acts_ok; [done|]. apply obs_ok.
  assert (E4 : engine_ok (env_acts (after_stop sc) (stopPhase (env_acts (after_slice sc) e3)))).
  { apply env_acts_ok; [done|]. apply stopPhase_ok, env_acts_ok; done. }
  destruct (negb _); [by apply admitPhase_ok|done].
Qed.
(** A slice of the scheduler is a slice of the sweep.  With room downstream,
    [runSlice] makes the trades of the channel-free sweep of at most
    MaxMatchesPerTurn trades, reports them in order, and then either keeps the
    rest of the order as the active sweep or finishes it: a market order with
    exactly one completion event carrying its final amounts, a limit order by
    resting what is left of it in the book. *)
Theorem runSlice_is_slice e s : engine_ok e -> active e = Some s -> hasSliceCapacity e = true ->
  exists b r e' ts evs, heap e !! as_book s = Some b /\
    slice_run (Some (Z.to_nat (maxMatchesPerTurn e))) b (as_order s) = Some r /\ runSlice e = Ret e' /\
    active e' = (if run_done r then None
                 else Some (mkActive (run_order r) (as_book s) (as_trades s + Z.of_nat (length (run_fills r))))) /\
    heap e' = <[as_book s := if run_done r then finish_book (run_order r) (run_book r) else run_book r]> (heap e) /\
    exec_events (em e') = exec_events (em e) ++ map EvTrade ts ++ evs /\
    swept b (as_order s) ts (run_book r) (run_order r) /\
    (if run_done r then finish_events (run_order r) evs else evs = []).
Proof.
  intros H Hs Hc. destruct (runSlice_spec e s H Hs Hc) as (b & r & e' & evs & Hb & Hr & HR & Ha & Hh & Hev & Hfin & _).
  exists b, r, e'. eexists _, evs. split; [done|]. split; [done|]. split; [done|]. split; [done|]. split; [done|].
  split; [exact Hev|]. split; [|done]. eapply slice_run_swept; [|exact Hr].
  destruct (ok_active _ H s Hs) as (Ho & _). eapply sweep_inv_good; [|exact Ho].
  exact (bk_good _ _ _ (ok_books _ H) _ _ Hb).
Qed.

(** Snapshots are faithful.  The snapshot of a symbol lists, best price
    first, the best [depth] levels of each side of its book, each with the
    price of the level and the sum of the amounts resting there; taking it
    disturbs no existing book. *)
Theorem snapshot_faithful sym depth e : books_ok e -> 0 < depth -> sym <> "" ->
  exists s a e' b, GetOrderBookSnapshotWithDepth sym depth e = Ret (s, e') /\ GetOrderBook sym e = (a, e') /\ heap e' !! a = Some b /\ snapshot_of sym depth b s /\ heap e ⊆ heap e'.
Proof.
  intros Hb Hd Hs. destruct (snapshot_ok sym depth e Hb Hd) as (s & e' & a & b & ? & _ & ? & ? & HG & _ & ? & _).
  exists s, a, e', b. split_and!; try done. by apply HG.
Qed.
End Safety.
