(* ===== verification/EngineTheorems.v ===== *)
(** * Theorems about the running engine

    [reachable] is the set of states an engine started with an accepted quantum
    can be in: any number of turns under any schedule, interleaved with any
    actions of the other goroutines.  The invariant [engine_ok] holds in all of
    them by rule induction, and the statements below follow. *)
From S2P Require Import Prelude Decimal Containers Model OrderBook Quantum Matching Fixtures Sweep Slice Engine EngineInv EngineSafety.
From Stdlib Require Import Lia.

Section Reachable.
Context {DL : DecimalLib} {CL : ContainerLib} {DLaws : DecimalLaws DL} {CLaws : ContainerLaws CL}.

Inductive reachable (cfg : QuantumConfig) : MatchingEngine -> Prop :=
| reach_start id fresh t e : fresh <> "" -> NewMatchingEngineWithQuantum id fresh t cfg = Ok e -> reachable cfg e
| reach_turn e sc stop e' : reachable cfg e -> good_schedule sc -> runTurn sc e = Ret (stop, e') -> reachable cfg e'
| reach_env e a : reachable cfg e -> good_act a -> reachable cfg (env_act a e).

Lemma new_engine_ok id fresh t cfg e : int64 (MaxMatchesPerTurn cfg) -> int64 (MaxConsecutiveCancels cfg) ->
  fresh <> "" -> NewMatchingEngineWithQuantum id fresh t cfg = Ok e -> engine_ok e.
Proof.
  intros Hm Hk Hf H. unfold NewMatchingEngineWithQuantum in H.
  destruct (Validate cfg) as [[]|] eqn:EV; cbn [mbind result_bind] in H; [|done].
  change (exec_cap _) with 1024 in H.
  destruct (validateExecutionCapacity 1024 _ _) as [[]|] eqn:EC in H; cbn [mbind result_bind] in H; [|done]. injection H as <-.
  pose proof (Validate_Ok _ EV) as [H1 H2]. apply validateExecutionCapacity_spec in EC; [|unfold int64; cbn; lia|done..].
  split; cbn; try done.
  - split; [done| |].
    + eexists. split; [done|]. cbn. split; [exact EC|done].
    + exists []. repeat split; constructor.
  - split; [by eexists| |].
    + intros s a Ha. discriminate Ha.
    + apply map_Forall_singleton, NewOrderBook_good.
  - lia.
Qed.

Lemma reachable_ok cfg e : int64 (MaxMatchesPerTurn cfg) -> int64 (MaxConsecutiveCancels cfg) ->
  reachable cfg e -> engine_ok e.
Proof.
  intros Hm Hk. induction 1 as [id fr t e Hf Hn|e sc stop e' _ IH Hs Hr|e a _ IH Ha].
  - by eapply new_engine_ok.
  - destruct (runTurn_ok sc e Hs IH) as [H|(? & ? & H & Hok)]; [congruence|]. rewrite Hr in H. by injection H as <- <-.
  - by apply env_act_ok.
Qed.

(** C3 The scheduler never crashes.  In every state an engine with an accepted
    quantum can reach, whatever other goroutines do in the meantime, a turn
    either returns or is waiting in a select: no send finds the reservation
    exhausted or the channel full, no slice or cancel loop runs away, no price
    division or index is out of range. *)
Theorem engine_never_panics cfg e sc : int64 (MaxMatchesPerTurn cfg) -> int64 (MaxConsecutiveCancels cfg) ->
  reachable cfg e -> good_schedule sc ->
  runTurn sc e = Blocked \/ exists stop e', runTurn sc e = Ret (stop, e').
Proof.
  intros Hm Hk Hr Hs. destruct (runTurn_ok sc e Hs) as [H|(stop & e' & H & _)]; [by eapply reachable_ok|by left|].
  right. by exists stop, e'.
Qed.

(** C24 The books stay sound.  In every reachable state every book is well
    formed (sorted levels, no empty level, only positive amounts, each order on
    its side and at its price) and uncrossed: no bid reaches an ask unless both
    belong to the same user. *)
Theorem engine_books_uncrossed cfg e : int64 (MaxMatchesPerTurn cfg) -> int64 (MaxConsecutiveCancels cfg) ->
  reachable cfg e -> map_Forall (fun _ b => book_ok b /\ uncrossed b) (heap e).
Proof.
  intros Hm Hk Hr. pose proof (bk_good _ _ _ (ok_books _ (reachable_ok _ _ Hm Hk Hr))) as Hg.
  intros a b Hab. destruct (Hg a b Hab) as (? & _ & ?). done.
Qed.

Lemma event_id_inj name k k' : event_id name k = event_id name k' -> k = k'.
Proof. unfold event_id. intros H. apply String.app_inj in H. apply String.app_inj in H. by apply pretty_Z_inj in H. Qed.

Lemma sorted_nodup ks : StronglySorted Z.lt ks -> NoDup ks.
Proof.
  induction 1 as [|k ks Hs IH Hk]; constructor; [|done]. intros Hin. eapply Forall_forall in Hk; [|exact Hin]. lia.
Qed.

(** Event identifiers are unique.  Over the whole life of an engine, the
    trade and cancellation events it has delivered or still holds carry
    pairwise different EngineEventIDs (the key the outbox and the settlement
    deduplicate on). *)
Theorem event_ids_unique cfg e : int64 (MaxMatchesPerTurn cfg) -> int64 (MaxConsecutiveCancels cfg) ->
  reachable cfg e -> NoDup (omap event_key (delivered e ++ exec_events (em e))).
Proof.
  intros Hm Hk Hr. destruct (em_ids _ _ _ _ (ok_em _ (reachable_ok _ _ Hm Hk Hr))) as (ks & -> & Hs & _).
  apply (NoDup_fmap_2_strong (event_id (engine_name (em e)))); [|by apply sorted_nodup].
  intros k k' _ _. apply event_id_inj.
Qed.

(** *** Progress *)

Lemma keeps_refl e : keeps e e.
Proof. by split. Qed.

Lemma select_one_In n cases e' : select_one n cases = Ret e' -> Some e' ∈ cases.
Proof.
  unfold select_one. destruct (omap id cases !! _) as [e0|] eqn:E; [|done]. intros [= <-].
  apply list_elem_of_lookup_2, list_elem_of_omap in E as (x & Hx & E). unfold id in E. by subst.
Qed.

(** What a select latches does not touch the sweep nor the counter. *)
Definition latches (e e' : MatchingEngine) : Prop :=
  active e' = active e /\ cancelsSinceProgress e' = cancelsSinceProgress e.

Lemma latchStop_latches e : latches e (latchStop e).
Proof. unfold latchStop. by destruct (shuttingDown e). Qed.

Lemma selects_latch n e e' : parkSelect n e = Ret e' \/ idleSelect n e = Ret e' -> latches e e'.
Proof.
  assert (Hc : forall e', case_cancel e = Some e' -> latches e e')
    by (unfold case_cancel; destruct (ch_recv _) as [[? ?]|]; intros ? [=]; by subst).
  assert (Ho : forall e', case_order e = Some e' -> latches e e')
    by (unfold case_order; destruct (ch_recv _) as [[? ?]|]; intros ? [=]; by subst).
  assert (Ht : forall e', case_tick e = Some e' -> latches e e')
    by (unfold case_tick; destruct (ch_recv _) as [[? ?]|]; intros ? [=]; by subst).
  assert (Hp : forall e', case_capacity e = Some e' -> latches e e')
    by (unfold case_capacity; destruct (ch_recv _) as [[? ?]|]; intros ? [=]; by subst).
  assert (Hs : forall e', case_stop e = Some e' -> latches e e').
  { unfold case_stop. destruct (stopClosed e); [|done]. intros ? [= <-]. apply latchStop_latches. }
  intros [H|H]; apply select_one_In in H; rewrite !elem_of_cons, elem_of_nil in H;
    destruct (shuttingDown e), (emitBackpressured e); naive_solver.
Qed.

Lemma endOfTurn_latches sc e stop e' : engine_ok e -> Forall good_act (before_select sc) ->
  endOfTurn sc e = Ret (stop, e') -> latches e e'.
Proof.
  intros Hok Hbs H. unfold endOfTurn in H.
  destruct (sliceBlockedNow e && _).
  - destruct (parkSelect _ _) as [e2| | |] eqn:E in H; cbn in H; try done. injection H as <- <-.
    destruct (selects_latch _ _ _ (or_introl E)) as [H1 H2].
    destruct (env_acts_same (before_select sc) (enterParkOnce (now (em e)) e)) as [(A1 & _ & _ & A2 & _) _].
    unfold latches. rewrite H1, H2, A1, A2. unfold enterParkOnce. by destruct (negb _).
  - destruct (_ || _); [by injection H as <- <-|].
    destruct (env_acts_same (before_select sc) e) as [(A1 & _ & _ & A2 & _) _].
    assert (Hok1 : engine_ok (env_acts (before_select sc) e)) by by apply env_acts_ok.
    destruct (shuttingDown e).
    + unfold latchOneNonBlocking in H.
      destruct (ch_recv (me_CancelCh _)) as [[? ?]|]; [injection H as <- <-; by split|].
      destruct (ch_recv (me_OrderCh _)) as [[? ?]|]; [injection H as <- <-; by split|].
      destruct (flushSnapshots_ok (range sc) _ Hok1) as (e2 & E & _ & [] & _).
      rewrite E in H. cbn in H. injection H as <- <-. unfold latches. cbn. split; congruence.
    + destruct (idleSelect _ _) as [e2| | |] eqn:E in H; cbn in H; try done. injection H as <- <-.
      destruct (selects_latch _ _ _ (or_intror E)) as [H1 H2]. split; congruence.
Qed.

Lemma stopPhase_latches e : latches e (stopPhase e).
Proof. unfold stopPhase. destruct (_ && _); [apply latchStop_latches|done]. Qed.

Lemma env_acts_latches l e : latches e (env_acts l e).
Proof. destruct (env_acts_same l e) as [(A1 & _ & _ & A2 & _) _]. by split. Qed.

Lemma latches_trans e1 e2 e3 : latches e1 e2 -> latches e2 e3 -> latches e1 e3.
Proof. intros [] []. split; congruence. Qed.

(** No starvation.  Every turn that completes either makes progress on
    orders (it runs a slice, admits an order, or finds none to take in), which
    clears the count of consecutive cancellations, or it left the active sweep
    exactly where it was for want of room downstream; and the count never
    exceeds the quota. *)
Theorem turn_makes_progress cfg e sc stop e' : int64 (MaxMatchesPerTurn cfg) -> int64 (MaxConsecutiveCancels cfg) ->
  reachable cfg e -> good_schedule sc -> crash sc = false -> runTurn sc e = Ret (stop, e') ->
  (cancelsSinceProgress e' = 0 \/ exists s, active e = Some s /\ active e' = Some s) /\
  0 <= cancelsSinceProgress e' <= maxConsecutiveCancels e'.
Proof.
  intros Hm Hk Hr Hs Hcr HT. pose proof (reachable_ok _ _ Hm Hk Hr) as H.
  destruct (runTurn_ok sc e Hs H) as [E|(? & ? & E & Hok)]; [congruence|].
  rewrite HT in E. injection E as <- <-. split; [|by apply ok_cancels].
  clear Hok. pose proof Hs as (H1 & H2 & H3 & H4 & H5 & H6 & H7 & H8). unfold runTurn in HT.
  set (e0 := env_acts (at_start sc) e) in *. assert (E0 : engine_ok e0) by by apply env_acts_ok.
  destruct (env_acts_latches (at_start sc) e) as [A0 _]. fold e0 in A0.
  destruct (cancelPhase_ok (in_cancel sc) e0 E0 H2) as (e1 & Ec & E1 & A1 & _). rewrite Ec in HT. cbn [mbind outcome_bind] in HT.
  destruct (tickerPhase_ok (range sc) (env_acts (after_cancel sc) e1)) as (e2 & Et & E2 & K2 & _); [by apply env_acts_ok|].
  rewrite Et in HT. cbn [mbind outcome_bind] in HT.
  destruct (env_acts_latches (after_cancel sc) e1) as [A1' _]. pose proof (k_active _ _ K2) as A2.
  set (e2' := env_acts (after_tick sc) e2) in *. destruct (env_acts_latches (after_tick sc) e2) as [A2' _]. fold e2' in A2'.
  destruct (slicePhase_ok e2') as (e3 & Es & E3 & Hreset & Hidle & Hnone); [by apply env_acts_ok|].
  rewrite Es, Hcr in HT. cbn [mbind outcome_bind] in HT.
  set (e4 := env_acts (after_stop sc) (stopPhase (env_acts (after_slice sc) e3))) in *.
  assert (L4 : latches e3 e4).
  { eapply latches_trans; [apply env_acts_latches|]. eapply latches_trans; [apply stopPhase_latches|]. apply env_acts_latches. }
  assert (E4 : engine_ok e4) by (apply env_acts_ok; [done|]; apply stopPhase_ok; by apply env_acts_ok).
  assert (Hlast : forall e5, engine_ok e5 -> endOfTurn sc (env_acts (after_admit sc) (obs ObsTurn e5)) = Ret (stop, e') ->
    latches e5 e').
  { intros e5 E5 HE. eapply (latches_trans _ (env_acts (after_admit sc) (obs ObsTurn e5)));
      [apply (latches_trans _ (obs ObsTurn e5)); [done|apply env_acts_latches]|].
    eapply endOfTurn_latches; [|exact H8|exact HE]. by apply env_acts_ok, obs_ok. }
  destruct (active e0) as [s|] eqn:Ea.
  - rewrite bool_decide_eq_false_2 in HT by done. cbn [negb] in HT. destruct (Hlast e4 E4 HT) as [HA HC].
    assert (A : active e2' = Some s) by congruence. destruct L4 as [L1 L2]. rewrite A in Hreset, Hidle.
    destruct (hasSliceCapacity e2') eqn:Ecap; [left; rewrite HC, L2; by apply Hreset|right].
    exists s. split; [congruence|]. rewrite HA, L1, Hidle by done. done.
  - rewrite bool_decide_eq_true_2 in HT by done. cbn [negb] in HT. left.
    destruct (admitPhase_ok e4 E4) as [E5 Hz]. destruct (Hlast _ E5 HT) as [_ HC]. by rewrite HC.
Qed.

Lemma endOfTurn_drains sc e e' : engine_ok e -> Forall good_act (before_select sc) -> (forall l, range sc l ≡ₚ l) ->
  endOfTurn sc e = Ret (true, e') ->
  shuttingDown e' = true /\ active e' = None /\ pendingCancel e' = None /\ pendingOrder e' = None /\
  ch_buf (me_OrderCh e') = [] /\ ch_buf (me_CancelCh e') = [] /\ dirtySymbols e' = ∅ /\ chansClosed e' = true.
Proof.
  intros Hok Hbs Hrange H. unfold endOfTurn in H.
  destruct (sliceBlockedNow e && _); [by destruct (parkSelect _ _)|].
  destruct (_ || _) eqn:Eb in H; [done|]. repeat (apply orb_false_iff in Eb as [Eb ?]).
  repeat match goal with H : negb (bool_decide _) = false |- _ => apply negb_false_iff, bool_decide_eq_true in H end.
  destruct (shuttingDown e) eqn:Esh; [|by destruct (idleSelect _ _)].
  destruct (env_acts_same (before_select sc) e) as [(A1 & _ & _ & _ & A2 & A3 & _ & A4) _].
  assert (Hok1 : engine_ok (env_acts (before_select sc) e)) by by apply env_acts_ok.
  set (e1 := env_acts (before_select sc) e) in *. clearbody e1. unfold latchOneNonBlocking in H.
  destruct (ch_recv (me_CancelCh e1)) as [[? ?]|] eqn:Er1; [done|].
  destruct (ch_recv (me_OrderCh e1)) as [[? ?]|] eqn:Er2; [done|].
  destruct (flush_symbols_ok (range sc (elements (dirtySymbols e1))) e1 Hok1) as (e2 & E & _ & K & _ & _ & Hd).
  unfold flushSnapshots in H. rewrite E in H. cbn in H. injection H as <-. cbn.
  assert (Hnil : forall A (c : chan A), ch_recv c = None -> ch_buf c = []).
  { intros A c. unfold ch_recv. by destruct (ch_buf c). }
  rewrite (k_shut _ _ K), (k_active _ _ K), (k_pcancel _ _ K), (k_porder _ _ K), (k_orders _ _ K), (k_cancelch _ _ K).
  split_and!; try congruence; try by apply Hnil.
  apply set_eq. intros s. rewrite Hd, (Hrange (elements (dirtySymbols e1))), elem_of_elements. set_solver.
Qed.

(** Shutdown drains.  When the engine loop ends (and not by the test-only
    crash hook), the stop signal was latched, no sweep is active, nothing is
    latched, both input channels are empty and every changed symbol has been
    published. *)
Theorem shutdown_drains cfg e sc e' : int64 (MaxMatchesPerTurn cfg) -> int64 (MaxConsecutiveCancels cfg) ->
  reachable cfg e -> good_schedule sc -> crash sc = false -> (forall l, range sc l ≡ₚ l) -> runTurn sc e = Ret (true, e') ->
  shuttingDown e' = true /\ active e' = None /\ pendingCancel e' = None /\ pendingOrder e' = None /\
  ch_buf (me_OrderCh e') = [] /\ ch_buf (me_CancelCh e') = [] /\ dirtySymbols e' = ∅ /\ chansClosed e' = true.
Proof.
  intros Hm Hk Hr Hs Hcr Hrange HT. pose proof (reachable_ok _ _ Hm Hk Hr) as H.
  pose proof Hs as (H1 & H2 & H3 & H4 & H5 & H6 & H7 & H8). unfold runTurn in HT.
  destruct (cancelPhase_ok (in_cancel sc) (env_acts (at_start sc) e)) as (e1 & Ec & E1 & _); [by apply env_acts_ok|done|].
  rewrite Ec in HT. cbn [mbind outcome_bind] in HT.
  destruct (tickerPhase_ok (range sc) (env_acts (after_cancel sc) e1)) as (e2 & Et & E2 & _); [by apply env_acts_ok|].
  rewrite Et in HT. cbn [mbind outcome_bind] in HT.
  destruct (slicePhase_ok (env_acts (after_tick sc) e2)) as (e3 & Es & E3 & _); [by apply env_acts_ok|].
  rewrite Es, Hcr in HT. cbn [mbind outcome_bind] in HT. clear Ec Et Es.
  match type of HT with endOfTurn _ (env_acts _ ?x) = _ => assert (E5 : engine_ok x) end.
  { apply obs_ok. destruct (negb _); [apply admitPhase_ok|]; (apply env_acts_ok; [done|]); apply stopPhase_ok; by apply env_acts_ok. }
  apply (endOfTurn_drains sc _ e') in HT; [done|by apply env_acts_ok|done|done].
Qed.
End Reachable.

(** ** What one command and one slice do *)

Section Operations.
Context {DL : DecimalLib} {CL : ContainerLib} {DLaws : DecimalLaws DL} {CLaws : ContainerLaws CL}.

Definition valid_command (cmd : CancelOrderCommand) : Prop :=
  cc_OrderID cmd <> 0%N /\ cc_CoinSymbol cmd <> "" /\ (0 <= dval (cc_Price cmd))%Q /\
  (cc_Side cmd = OrderSideBuy \/ cc_Side cmd = OrderSideSell).

Lemma handleCancel_valid cmd e : valid_command cmd -> handleCancel cmd e = removeFromBook cmd e.
Proof.
  intros (H1 & H2 & H3 & H4). unfold handleCancel.
  rewrite (proj2 (N.eqb_neq _ _) H1), (proj2 (String.eqb_neq _ _) H2).
  rewrite (proj2 (GreaterThanOrEqual_true _ _)) by by rewrite dval_Zero. cbn. by destruct H4 as [-> | ->].
Qed.

Definition cancel_events (cmd : CancelOrderCommand) (removed : bool) (evs : list ExecutionEvent) : Prop :=
  if removed then exists eid, evs = [EvOrderCancelled (mkCancelled (cc_CommandID cmd) (cc_OrderID cmd) (cc_CoinSymbol cmd) (cc_Side cmd) eid)]
  else evs = [].

Definition cancel_result (removed : bool) : CancelOrderResult :=
  if removed then mkCancelResult true None else mkCancelResult false (Some ErrCancelOrderNotFound).

Lemma respond_at cmd res e r c : cc_ResponseCh cmd = Some r -> responses e !! r = Some c -> ch_len c < ch_cap c ->
  responses (respond cmd res e) !! r = Some (mkChan (ch_buf c ++ [res]) (ch_cap c)) /\
  heap (respond cmd res e) = heap e /\ em (respond cmd res e) = em e.
Proof.
  intros H1 H2 H3. unfold respond. rewrite H1, H2. cbn. rewrite lookup_insert_eq. unfold ch_offer, ch_send.
  by rewrite (proj2 (Z.ltb_lt _ _)).
Qed.

Lemma GetOrderBook_obs s o e a e' : GetOrderBook s e = (a, e') -> GetOrderBook s (obs o e) = (a, obs o e').
Proof. unfold GetOrderBook. cbn. repeat case_match; by intros [= <- <-]. Qed.

(** [processCancel] after its first observation. *)
Definition cancel_core (cmd : CancelOrderCommand) (e : MatchingEngine) : outcome MatchingEngine :=
  let '(res, e) := handleCancel cmd e in
  e ← (if cr_Removed res then
         let e := markDirty (cc_CoinSymbol cmd) e in
         es ← emitOrderCancelled cmd (beginReservation 1 (em e));
         Ret (e <| em := endReservation es |>)
       else Ret e);
  Ret (respond cmd res e).

Lemma cancel_core_exact cmd e a e1 b r c : engine_ok e -> valid_command cmd -> 1 <= free e ->
  GetOrderBook (cc_CoinSymbol cmd) e = (a, e1) -> heap e1 !! a = Some b ->
  cc_ResponseCh cmd = Some r -> responses e !! r = Some c -> ch_len c < ch_cap c ->
  exists e' b' removed evs, cancel_core cmd e = Ret e' /\
    (abs b', removed) = spec_RemoveOrder (abs b) (cancel_target cmd) /\
    heap e' = <[a := b']> (heap e1) /\
    exec_events (em e') = exec_events (em e) ++ evs /\ cancel_events cmd removed evs /\
    responses e' !! r = Some (mkChan (ch_buf c ++ [cancel_result removed]) (ch_cap c)).
Proof.
  intros H Hv Hf HG Hb Hr Hc Hl. unfold cancel_core. rewrite (handleCancel_valid _ _ Hv). unfold removeFromBook.
  rewrite HG, Hb. destruct (GetOrderBook_ok _ _ _ _ (ok_books _ H) HG) as (Hb1 & _ & _ & h & m & ->).
  destruct (RemoveOrder_good b (cancel_target cmd) (bk_good _ _ _ Hb1 a b Hb)) as (b' & removed & -> & _ & Habs).
  pose proof (ok_em _ H) as [_ (ch & Hch & _) _]. rewrite (free_room _ _ Hch) in Hf.
  destruct removed; cbn [negb cr_Removed].
  - destruct (emitOrderCancelled_emits cmd (beginReservation 1 (em e)) ch Hch) as (es' & eid & Hes & HE & _).
    { eapply can_emit_reserve; [done|lia]. }
    cbn. rewrite Hes. cbn.
    match goal with |- context [respond cmd _ ?x] => set (e3 := x) end.
    destruct (respond_at cmd (mkCancelResult true None) e3 r c Hr Hc Hl) as (R1 & R2 & R3).
    eexists _, b', true, _. split; [done|]. split; [done|]. rewrite R1, R2, R3. split; [done|].
    split; [|split; [by eexists|done]].
    rewrite (exec_events_chan _ _ Hch). exact (exec_events_chan _ _ (emits_chan _ _ _ HE ch Hch)).
  - cbn. match goal with |- context [respond cmd _ ?x] => set (e3 := x) end.
    destruct (respond_at cmd (mkCancelResult false (Some ErrCancelOrderNotFound)) e3 r c Hr Hc Hl) as (R1 & R2 & R3).
    eexists _, b', false, []. split; [done|]. split; [done|]. rewrite R1, R2, R3. split; [done|].
    split; [by rewrite app_nil_r|]. done.
Qed.

(** C34 A cancellation is atomic and answered.  Processing a valid command
    removes from the book of its symbol exactly the first order with that id
    at that price and side, if there is one; then, and only then, exactly one
    cancellation event for the command goes on the execution channel; the
    caller's channel gets the matching answer, and no other book changes. *)
Theorem cancel_is_exact cmd e a e1 b r c : engine_ok e -> valid_command cmd -> 1 <= free e ->
  GetOrderBook (cc_CoinSymbol cmd) e = (a, e1) -> heap e1 !! a = Some b ->
  cc_ResponseCh cmd = Some r -> responses e !! r = Some c -> ch_len c < ch_cap c ->
  exists e' b' removed evs, processCancel cmd e = Ret e' /\
    (abs b', removed) = spec_RemoveOrder (abs b) (cancel_target cmd) /\
    heap e' = <[a := b']> (heap e1) /\
    exec_events (em e') = exec_events (em e) ++ evs /\ cancel_events cmd removed evs /\
    responses e' !! r = Some (mkChan (ch_buf c ++ [cancel_result removed]) (ch_cap c)).
Proof.
  intros H Hv Hf HG Hb Hr Hc Hl. change (processCancel cmd e) with
    (cancel_core cmd (if negb (cc_EnqueuedAt cmd =? 0) then obs ObsCancel e else e)).
  destruct (negb _); [|by apply (cancel_core_exact cmd e a e1 b r c)].
  apply (GetOrderBook_obs _ ObsCancel) in HG.
  by apply (cancel_core_exact cmd (obs ObsCancel e) a (obs ObsCancel e1) b r c); [apply obs_ok|..].
Qed.


End Operations.

(** ** Witnesses *)

Definition sample_engine : MatchingEngine :=
  match NewMatchingEngineWithQuantum "engine-1" "engine-2" 1 (mkQuantum 128 8) with Ok e => e | Err _ => NewMatchingEngine "" "" 0 end.
Definition sample_sell : EnvAct := ASubmit (Some sell1).
Definition sample_buy : EnvAct := ASubmit (Some buy4).
Definition quiet : schedule := mkSchedule [] [] [] [] [] [] [] [] (fun l => l) false 0.
Definition stopping : schedule := mkSchedule [AStop] [] [] [] [] [] [] [] (fun l => l) false 0.

Lemma sample_reachable : reachable (mkQuantum 128 8) sample_engine.
Proof. by apply (reach_start _ "engine-1" "engine-2" 1). Qed.

Lemma quiet_good : good_schedule quiet.
Proof. repeat split; constructor. Qed.
Lemma stopping_good : good_schedule stopping.
Proof. repeat split; repeat constructor. Qed.

Definition turn_stops {DL : DecimalLib} {CL : ContainerLib} (x : outcome (bool * MatchingEngine)) : option bool :=
  match x with Ret (b, _) => Some b | _ => None end.
Lemma turn_stops_Ret {DL : DecimalLib} {CL : ContainerLib} x b : turn_stops x = Some b -> exists e', x = Ret (b, e').
Proof. destruct x as [[b' e']| | |]; cbn; intros [= ->]; eauto. Qed.

Lemma engine_never_panics_witness :
  runTurn quiet sample_engine = Blocked \/ exists stop e', runTurn quiet sample_engine = Ret (stop, e').
Proof. apply (engine_never_panics (mkQuantum 128 8)); [split; done|split; done|exact sample_reachable|exact quiet_good]. Defined.

Lemma engine_books_uncrossed_witness : map_Forall (fun _ b => book_ok b /\ uncrossed b) (heap sample_engine).
Proof. apply (engine_books_uncrossed (mkQuantum 128 8)); [split; done|split; done|exact sample_reachable]. Defined.

Lemma event_ids_unique_witness : NoDup (omap event_key (delivered sample_engine ++ exec_events (em sample_engine))).
Proof. apply (event_ids_unique (mkQuantum 128 8)); [split; done|split; done|exact sample_reachable]. Defined.

Lemma turn_makes_progress_witness : exists e', runTurn stopping sample_engine = Ret (true, e') /\
  (cancelsSinceProgress e' = 0 \/ exists s, active sample_engine = Some s /\ active e' = Some s) /\
  0 <= cancelsSinceProgress e' <= maxConsecutiveCancels e'.
Proof.
  destruct (turn_stops_Ret (runTurn stopping sample_engine) true) as [e' H]; [vm_compute; reflexivity|].
  exists e'. split; [exact H|].
  apply (turn_makes_progress (mkQuantum 128 8) sample_engine stopping true);
    [split; done|split; done|exact sample_reachable|exact stopping_good|reflexivity|exact H].
Defined.

Lemma shutdown_drains_witness : exists e', runTurn stopping sample_engine = Ret (true, e') /\
  shuttingDown e' = true /\ active e' = None /\ pendingCancel e' = None /\ pendingOrder e' = None /\
  ch_buf (me_OrderCh e') = [] /\ ch_buf (me_CancelCh e') = [] /\ dirtySymbols e' = ∅ /\ chansClosed e' = true.
Proof.
  destruct (turn_stops_Ret (runTurn stopping sample_engine) true) as [e' H]; [vm_compute; reflexivity|].
  exists e'. split; [exact H|].
  apply (shutdown_drains (mkQuantum 128 8) sample_engine stopping);
    [split; done|split; done|exact sample_reachable|exact stopping_good|reflexivity|reflexivity|exact H].
Defined.

(** A turn that admits the limit buy, and the state after it. *)
Definition admitting : schedule := mkSchedule [sample_sell; sample_buy] [] [] [] [] [] [] [] (fun l => l) false 0.

Lemma buy4_good : good_order buy4.
Proof. split; [intros _; reflexivity|discriminate]. Qed.
Lemma sell1_good : good_order sell1.
Proof. split; [intros _; reflexivity|discriminate]. Qed.
Lemma admitting_good : good_schedule admitting.
Proof. split; [repeat constructor; cbn; apply sell1_good || apply buy4_good|]. repeat split; constructor. Qed.

Definition admitted : MatchingEngine :=
  match runTurn admitting sample_engine with Ret (_, e) => e | _ => sample_engine end.

Lemma admitted_ok : engine_ok admitted.
Proof.
  destruct (turn_stops_Ret (runTurn admitting sample_engine) false) as [e' H]; [vm_compute; reflexivity|].
  apply (reachable_ok (mkQuantum 128 8)); [split; done|split; done|]. unfold admitted. rewrite H.
  eapply reach_turn; [exact sample_reachable|exact admitting_good|exact H].
Qed.

Definition has_active {DL : DecimalLib} {CL : ContainerLib} (e : MatchingEngine) : bool :=
  match active e with Some _ => true | None => false end.
Lemma has_active_Some {DL : DecimalLib} {CL : ContainerLib} e : has_active e = true -> exists s, active e = Some s.
Proof. unfold has_active. destruct (active e); [eauto|done]. Qed.
Lemma admitted_active : exists s, active admitted = Some s.
Proof. apply has_active_Some. vm_compute. reflexivity. Qed.

Lemma runSlice_is_slice_witness : exists s b r e' ts evs, active admitted = Some s /\ heap admitted !! as_book s = Some b /\
  slice_run (Some (Z.to_nat (maxMatchesPerTurn admitted))) b (as_order s) = Some r /\ runSlice admitted = Ret e' /\
  exec_events (em e') = exec_events (em admitted) ++ map EvTrade ts ++ evs /\
  swept b (as_order s) ts (run_book r) (run_order r).
Proof.
  destruct admitted_active as [s E].
  destruct (runSlice_is_slice admitted s admitted_ok E) as (b & r & e' & ts & evs & ? & ? & ? & _ & _ & ? & ? & _);
    [vm_compute; reflexivity|].
  exists s, b, r, e', ts, evs. repeat (split; [assumption|]). assumption.
Defined.

Definition sample_command : CancelOrderCommand := mkCommand 77 "BTC" 1 OrderSideSell (dec 100) 3 (Some 0%nat).
Definition waiting : MatchingEngine :=
  sample_engine <| responses := {[ 0%nat := make_chan 1 ]} |>.

Lemma waiting_ok : engine_ok waiting.
Proof.
  pose proof (reachable_ok (mkQuantum 128 8) sample_engine ltac:(split; done) ltac:(split; done) sample_reachable) as [].
  by split.
Qed.

Lemma cancel_is_exact_witness : exists a e1 b e' b' removed evs,
  GetOrderBook "BTC" waiting = (a, e1) /\ processCancel sample_command waiting = Ret e' /\
  (abs b', removed) = spec_RemoveOrder (abs b) (cancel_target sample_command) /\
  heap e' = <[a := b']> (heap e1) /\
  exec_events (em e') = exec_events (em waiting) ++ evs /\ cancel_events sample_command removed evs /\
  responses e' !! 0%nat = Some (mkChan ([] ++ [cancel_result removed]) 1).
Proof.
  destruct (GetOrderBook "BTC" waiting) as [a e1] eqn:E.
  destruct (GetOrderBook_ok _ _ _ _ (ok_books _ waiting_ok) E) as (_ & [b Hb] & _).
  destruct (cancel_is_exact sample_command waiting a e1 b 0%nat (make_chan 1) waiting_ok) as (e' & b' & rm & evs & HH);
    [split; [discriminate|]; split; [discriminate|]; split; [discriminate|by right]
    |vm_compute; discriminate|exact E|exact Hb|reflexivity|reflexivity|reflexivity|].
  exists a, e1, b, e', b', rm, evs. split; [reflexivity|]. exact HH.
Defined.

Lemma snapshot_faithful_witness : exists s a e' b,
  GetOrderBookSnapshotWithDepth "BTC" 30 admitted = Ret (s, e') /\
  GetOrderBook "BTC" admitted = (a, e') /\ heap e' !! a = Some b /\ snapshot_of "BTC" 30 b s /\ heap admitted ⊆ heap e'.
Proof. apply (snapshot_faithful "BTC" 30 admitted); [exact (ok_books _ admitted_ok)|reflexivity|discriminate]. Defined.
