(* ===== verification/Sharded.v ===== *)
(** * The sharded engine (internal/matching/sharded.go)

    Symbols are assigned to shards on first use, round robin, through a sync.Map;
    many goroutines may ask for the same new symbol at once, so [shardFor] is
    modelled step by step and its theorem quantifies over all interleavings.
    One forwarder per shard moves execution events to the merged channel; its
    theorem is that the events of a shard, hence of a symbol, keep their order. *)
From S2P Require Import Prelude Decimal Containers Model OrderBook Quantum Matching Fixtures Engine.
From Stdlib Require Import Lia.

Section Sharded.
Context {DL : DecimalLib} {CL : ContainerLib}.

(** ** State and construction *)

Record ShardedEngine := mkSharded {
  shards : list MatchingEngine;
  assignments : gmap string nat;      (* symbol -> index into [shards] *)
  nextShard : Z;                      (* atomic.Uint64 *)
  se_ExecutionCh : chan ExecutionEvent;
  se_SnapshotCh : chan OrderBookSnapshot;
  se_stopped : bool
}.
#[export] Instance ShardedEngine_eta : Settable ShardedEngine := fun s =>
  mkSharded (shards s) (assignments s) (nextShard s) (se_ExecutionCh s) (se_SnapshotCh s) (se_stopped s).

(** [ids] names the engines, in the order newEngineID is called. *)
Definition NewShardedEngine (shardCount : Z) (ids : nat -> string) (fresh : string) (t : Z) : ShardedEngine :=
  let shardCount := if shardCount <? 1 then 1 else shardCount in
  mkSharded (map (fun i => NewMatchingEngine (ids i) fresh t) (seq 0 (Z.to_nat shardCount)))
    {[ "" := 0%nat ]} 0 (make_chan 1024) (make_chan 256) false.

Fixpoint validate_shards (l : list MatchingEngine) (cfg : QuantumConfig) : result quantum_err unit :=
  match l with
  | [] => Ok tt
  | shard :: rest =>
      _ ← validateExecutionCapacity (exec_cap shard) (MaxMatchesPerTurn cfg) (MaxConsecutiveCancels cfg);
      validate_shards rest cfg
  end.

Definition with_quantum (cfg : QuantumConfig) (shard : MatchingEngine) : MatchingEngine :=
  shard <| maxMatchesPerTurn := MaxMatchesPerTurn cfg |> <| maxConsecutiveCancels := MaxConsecutiveCancels cfg |>.

Definition NewShardedEngineWithQuantum (shardCount : Z) (ids : nat -> string) (fresh : string) (t : Z)
  (cfg : QuantumConfig) : result quantum_err ShardedEngine :=
  _ ← Validate cfg;
  let se := NewShardedEngine shardCount ids fresh t in
  _ ← validate_shards (shards se) cfg;
  Ok (se <| shards := map (with_quantum cfg) (shards se) |>).

(** ** shardFor, one atomic step at a time *)

Inductive shard_pc :=
| PcLoad (sym : string)                    (* about to Load *)
| PcAdd (sym : string)                     (* missed, about to Add(1) *)
| PcStore (sym : string) (candidate : nat) (* about to LoadOrStore *)
| PcDone (sym : string) (shard : nat)
| PcPanic.

(** [int(se.nextShard.Add(1)-1) % len(se.shards)], then the slice index: the
    conversion of a uint64 above 2^63 - 1 is negative and so is the index. *)
Definition candidate_index (counter len : Z) : option nat :=
  let i := Z.rem (wrap64 counter) len in
  if (0 <=? i) && (i <? len) then Some (Z.to_nat i) else None.

Definition shardFor_step (pc : shard_pc) (se : ShardedEngine) : shard_pc * ShardedEngine :=
  match pc with
  | PcLoad sym => match assignments se !! sym with
                  | Some i => (PcDone sym i, se)
                  | None => (PcAdd sym, se)
                  end
  | PcAdd sym =>
      match candidate_index (nextShard se) (Z.of_nat (length (shards se))) with
      | Some i => (PcStore sym i, se <| nextShard := (nextShard se + 1) mod 2 ^ 64 |>)
      | None => (PcPanic, se <| nextShard := (nextShard se + 1) mod 2 ^ 64 |>)
      end
  | PcStore sym candidate =>
      match assignments se !! sym with
      | Some i => (PcDone sym i, se)
      | None => (PcDone sym candidate, se <| assignments := <[sym := candidate]> (assignments se) |>)
      end
  | PcDone _ _ | PcPanic => (pc, se)
  end.

(** A call with nobody else around. *)
Definition shardFor (sym : string) (se : ShardedEngine) : shard_pc * ShardedEngine :=
  let '(pc, se) := shardFor_step (PcLoad sym) se in
  let '(pc, se) := shardFor_step pc se in shardFor_step pc se.

Definition on_shard {A} (sym : string) (f : MatchingEngine -> option (A * MatchingEngine)) (se : ShardedEngine)
  : option (A * ShardedEngine) :=
  match shardFor sym se with
  | (PcDone _ i, se) =>
      shard ← shards se !! i; '(a, shard) ← f shard; Some (a, se <| shards := <[i := shard]> (shards se) |>)
  | _ => None
  end.

Definition se_SubmitOrder (order : option Order) (se : ShardedEngine) : option ShardedEngine :=
  match order with
  | None => Some se
  | Some o => snd <$> on_shard (o_CoinSymbol o) (fun e => e ← SubmitOrder (Some o) e; Some (tt, e)) se
  end.
Definition se_TrySubmitOrder (order : Order) (timer_fired : bool) (se : ShardedEngine) : option (bool * ShardedEngine) :=
  on_shard (o_CoinSymbol order) (TrySubmitOrder (Some order) timer_fired) se.
Definition se_IsIntakeAdmissible (sym : string) (se : ShardedEngine) : option (bool * ShardedEngine) :=
  on_shard sym (fun e => Some (IsIntakeAdmissible sym e, e)) se.
Definition se_CancelOrder_send (cmd : CancelOrderCommand) (t : Z) (se : ShardedEngine) : option (nat * ShardedEngine) :=
  on_shard (cc_CoinSymbol cmd) (CancelOrder_send cmd t) se.
Definition se_RequestOrderBookSnapshot (sym : string) (depth : Z) (se : ShardedEngine)
  : option (OrderBookSnapshot * ShardedEngine) :=
  on_shard sym (fun e => Some (RequestOrderBookSnapshot sym depth e, e)) se.

Definition se_Stop (se : ShardedEngine) : ShardedEngine :=
  if se_stopped se then se else se <| shards := map Stop (shards se) |> <| se_stopped := true |>.

Definition total_len {A} (ch : MatchingEngine -> chan A) (se : ShardedEngine) : Z :=
  foldl (fun total shard => total + ch_len (ch shard)) 0 (shards se).
Definition OrderChannelLen (se : ShardedEngine) : Z := total_len me_OrderCh se.
Definition CancelChannelLen (se : ShardedEngine) : Z := total_len me_CancelCh se.
Definition SnapshotChannelLen (se : ShardedEngine) : Z := total_len me_SnapshotCh se.

(** ** Concurrent callers *)

Record callers := mkCallers { cl_engine : ShardedEngine; cl_calls : list shard_pc }.

Inductive call_step : callers -> callers -> Prop :=
| step_call se calls sym : call_step (mkCallers se calls) (mkCallers se (calls ++ [PcLoad sym]))
| step_run se calls i pc pc' se' : calls !! i = Some pc -> shardFor_step pc se = (pc', se') ->
    call_step (mkCallers se calls) (mkCallers se' (<[i := pc']> calls)).

(** Every finished call agrees with the table, every pending candidate and
    every assignment is the index of a shard. *)
Record routed (s : callers) : Prop := {
  rt_shards : shards (cl_engine s) <> [];
  rt_table sym i : assignments (cl_engine s) !! sym = Some i -> (i < length (shards (cl_engine s)))%nat;
  rt_counter : 0 <= nextShard (cl_engine s);
  rt_done sym i : PcDone sym i ∈ cl_calls s -> assignments (cl_engine s) !! sym = Some i;
  rt_store sym i : PcStore sym i ∈ cl_calls s -> (i < length (shards (cl_engine s)))%nat
}.

Lemma candidate_index_lt counter len i : candidate_index counter len = Some i -> Z.of_nat i < len.
Proof. unfold candidate_index. destruct (_ && _) eqn:E; [|done]. intros [= <-]. bool_to_prop. lia. Qed.

Lemma candidate_index_ok counter len : 0 < len -> 0 <= counter < 2 ^ 63 -> is_Some (candidate_index counter len).
Proof.
  intros Hl Hc. unfold candidate_index. rewrite wrap64_id by (unfold int64; lia).
  pose proof (Z.rem_bound_pos counter len ltac:(lia) Hl). rewrite (proj2 (Z.leb_le _ _)), (proj2 (Z.ltb_lt _ _)) by lia. eauto.
Qed.

Lemma insert_elem {A} (l : list A) i x y : x ∈ <[i := y]> l -> x = y \/ x ∈ l.
Proof.
  intros [j Hj]%list_elem_of_lookup_1. destruct (decide (i = j)) as [<-|Hne].
  - apply list_lookup_insert_Some in Hj as [(_ & <- & _)|(? & _)]; [by left|done].
  - rewrite list_lookup_insert_ne in Hj by done. right. by eapply list_elem_of_lookup_2.
Qed.

Lemma routed_step s s' : routed s -> call_step s s' -> routed s' /\
  assignments (cl_engine s) ⊆ assignments (cl_engine s').
Proof.
  intros [R1 R2 R3 R4 R5] H. destruct H as [se calls sym|se calls i pc pc' se' Hi Hst]; cbn in *.
  - split; [|done]. split; cbn; try done; intros s j; rewrite elem_of_app, list_elem_of_singleton; naive_solver.
  - assert (Hin : pc ∈ calls) by by eapply list_elem_of_lookup_2.
    assert (Hnew : forall x, x ∈ <[i := pc']> calls -> x = pc' \/ x ∈ calls) by (intros x; apply insert_elem).
    destruct pc as [sym|sym|sym k|sym k|]; cbn in Hst.
    + destruct (assignments se !! sym) as [k|] eqn:E; injection Hst as <- <-; (split; [|done]); split; cbn; try done;
        intros s j [Hx|Hx]%Hnew; try (by injection Hx as -> ->); try done; by eauto.
    + assert (Hmod : 0 <= (nextShard se + 1) mod 2 ^ 64) by (apply Z.mod_pos_bound; lia).
      destruct (candidate_index _ _) as [k|] eqn:E; injection Hst as <- <-; (split; [|done]); split; cbn; try done.
      * intros s j [Hx|Hx]%Hnew; [done|by eauto].
      * intros s j [Hx|Hx]%Hnew; [|by eauto]. injection Hx as -> ->. apply candidate_index_lt in E. lia.
      * intros s j [Hx|Hx]%Hnew; [done|by eauto].
      * intros s j [Hx|Hx]%Hnew; [done|by eauto].
    + destruct (assignments se !! sym) as [k'|] eqn:E; injection Hst as <- <-.
      * split; [|done]. split; cbn; try done; intros s j [Hx|Hx]%Hnew; try (by injection Hx as -> ->); try done; by eauto.
      * split; [|by apply insert_subseteq]. split; cbn; try done.
        -- intros s j. rewrite lookup_insert_Some. intros [[<- <-]|[_ ?]]; [by eapply R5|by eapply R2].
        -- intros s j [Hx|Hx]%Hnew; [injection Hx as -> ->; apply lookup_insert_eq|].
           apply R4 in Hx. rewrite lookup_insert_ne by congruence. done.
        -- intros s j [Hx|Hx]%Hnew; [done|by eauto].
    + injection Hst as <- <-. split; [|done]. split; cbn; try done; intros s j [Hx|Hx]%Hnew; simplify_eq; eauto.
    + injection Hst as <- <-. split; [|done]. split; cbn; try done; intros s j [Hx|Hx]%Hnew; simplify_eq; eauto.
Qed.

Lemma routed_steps s s' : routed s -> rtc call_step s s' -> routed s' /\
  assignments (cl_engine s) ⊆ assignments (cl_engine s').
Proof.
  intros H Hs. induction Hs as [s|s1 s2 s3 H12 H23 IH]; [done|].
  destruct (routed_step _ _ H H12) as [H2 Hsub]. destruct (IH H2) as [H3 Hsub']. split; [done|]. by etrans.
Qed.

Lemma new_routed shardCount ids fresh t : routed (mkCallers (NewShardedEngine shardCount ids fresh t) []).
Proof.
  unfold NewShardedEngine. set (n := if shardCount <? 1 then 1 else shardCount).
  assert (Hn : 1 <= n) by (subst n; destruct (shardCount <? 1) eqn:E; bool_to_prop; lia). clearbody n.
  split; cbn; try done.
  - intros E. apply (f_equal length) in E. rewrite length_map, length_seq in E. cbn in E. lia.
  - intros sym i. rewrite lookup_singleton_Some. intros [_ <-]. rewrite length_map, length_seq. lia.
  - intros sym i Hin. by apply elem_of_nil in Hin.
  - intros sym i Hin. by apply elem_of_nil in Hin.
Qed.

(** Routing is stable.  However calls of [shardFor] interleave, all calls
    that return for a symbol return the same shard, now and later; the shard
    exists; and the empty symbol is always shard 0. *)
Theorem shard_assignment_stable shardCount ids fresh t s1 s2 sym i j :
  rtc call_step (mkCallers (NewShardedEngine shardCount ids fresh t) []) s1 -> rtc call_step s1 s2 ->
  PcDone sym i ∈ cl_calls s1 -> PcDone sym j ∈ cl_calls s2 ->
  i = j /\ (i < length (shards (cl_engine s1)))%nat /\ (sym = "" -> i = 0%nat).
Proof.
  intros H01 H12 Hi Hj. destruct (routed_steps _ _ (new_routed shardCount ids fresh t) H01) as [R1 S1].
  destruct (routed_steps _ _ R1 H12) as [R2 S2].
  pose proof (rt_done _ R1 _ _ Hi) as E1. pose proof (rt_done _ R2 _ _ Hj) as E2.
  split; [pose proof (lookup_weaken _ _ _ _ E1 S2); congruence|]. split; [by eapply rt_table|].
  intros ->. assert (H0 : assignments (cl_engine s1) !! "" = Some 0%nat).
  { eapply lookup_weaken; [|exact S1]. apply lookup_singleton_eq. }
  congruence.
Qed.

(** Routing never fails before 2^63 assignments: an uncontended [shardFor]
    returns an existing shard, the same for every later call. *)
Theorem shardFor_total sym se : shards se <> [] -> 0 <= nextShard se < 2 ^ 63 ->
  (forall s i, assignments se !! s = Some i -> (i < length (shards se))%nat) ->
  exists i se', shardFor sym se = (PcDone sym i, se') /\ (i < length (shards se'))%nat /\
    assignments se' !! sym = Some i /\ shardFor sym se' = (PcDone sym i, se').
Proof.
  intros Hs Hn Ht. unfold shardFor. cbn. destruct (assignments se !! sym) as [i|] eqn:E; cbn.
  - exists i, se. rewrite E. cbn. split; [done|]. split; [by eapply Ht|done].
  - assert (0 < Z.of_nat (length (shards se))) by (destruct (shards se); [done|cbn; lia]).
    destruct (candidate_index_ok (nextShard se) (Z.of_nat (length (shards se))) ltac:(done) Hn) as [i Ei].
    rewrite Ei. cbn. rewrite E. eexists i, _. split; [done|]. cbn.
    rewrite lookup_insert_eq. split; [apply candidate_index_lt in Ei; lia|done].
Qed.

(** ** The fan-in *)

(** [held i] is the event forwarder [i] has taken from its shard and not yet
    sent on; [merged] is every event sent on the merged channel so far, with
    its shard; [received] what the consumer has taken from that channel. *)
Record fanin := mkFanin {
  fi_engine : ShardedEngine;
  held : list (option ExecutionEvent);
  merged : list (nat * ExecutionEvent);
  received : list ExecutionEvent
}.

(** [for ev := range shard.ExecutionCh { signal; se.ExecutionCh <- ev }] *)
Definition forward_recv (i : nat) (f : fanin) : option fanin :=
  shard ← shards (fi_engine f) !! i;
  h ← held f !! i;
  match h, ExecutionCh (em shard) ≫= ch_recv with
  | None, Some (ev, _) =>
      let shard := env_act ASignal (env_act AConsume shard) in
      Some (mkFanin ((fi_engine f) <| shards := <[i := shard]> (shards (fi_engine f)) |>)
              (<[i := Some ev]> (held f)) (merged f) (received f))
  | _, _ => None
  end.
Definition forward_send (i : nat) (f : fanin) : option fanin :=
  h ← held f !! i; ev ← h;
  c ← ch_send (se_ExecutionCh (fi_engine f)) ev;
  Some (mkFanin ((fi_engine f) <| se_ExecutionCh := c |>) (<[i := None]> (held f)) (merged f ++ [(i, ev)]) (received f)).

Inductive fan_step : fanin -> fanin -> Prop :=
| fan_recv i f f' : forward_recv i f = Some f' -> fan_step f f'
| fan_send i f f' : forward_send i f = Some f' -> fan_step f f'
| fan_consume f ev c : ch_recv (se_ExecutionCh (fi_engine f)) = Some (ev, c) ->
    fan_step f (mkFanin ((fi_engine f) <| se_ExecutionCh := c |>) (held f) (merged f) (received f ++ [ev]))
| fan_shard i f e e' : shards (fi_engine f) !! i = Some e -> delivered e' = delivered e ->
    fan_step f (mkFanin ((fi_engine f) <| shards := <[i := e']> (shards (fi_engine f)) |>) (held f) (merged f) (received f)).

Definition from_shard (i : nat) (l : list (nat * ExecutionEvent)) : list ExecutionEvent :=
  omap (fun p => if (fst p =? i)%nat then Some (snd p) else None) l.
Arguments from_shard : simpl never.
Definition to_list {A} (o : option A) : list A := match o with Some x => [x] | None => [] end.

(** What forwarder [i] has received is what it has sent, and what it holds. *)
Record fan_ok (f : fanin) : Prop := {
  fan_held i e h : shards (fi_engine f) !! i = Some e -> held f !! i = Some h ->
    delivered e = from_shard i (merged f) ++ to_list h;
  fan_merged : map snd (merged f) = received f ++ ch_buf (se_ExecutionCh (fi_engine f))
}.

Lemma from_shard_app i l l' : from_shard i (l ++ l') = from_shard i l ++ from_shard i l'.
Proof. apply omap_app. Qed.
Lemma from_shard_one i j ev : from_shard i [(j, ev)] = if (j =? i)%nat then [ev] else [].
Proof. unfold from_shard. cbn. by destruct (j =? i)%nat. Qed.

Lemma fan_recv_ok i f f' : fan_ok f -> forward_recv i f = Some f' -> fan_ok f'.
Proof.
  intros [Hh Hm] H. unfold forward_recv in H. destruct (shards (fi_engine f) !! i) as [e|] eqn:Ei; cbn in H; [|done].
  destruct (held f !! i) as [h|] eqn:Eh; cbn in H; [|done]. destruct h; [done|].
  destruct (ExecutionCh (em e)) as [c|] eqn:Ec; cbn in H; [|done].
  destruct (ch_recv c) as [[ev c']|] eqn:Er; [|done]. injection H as <-.
  assert (Hd : delivered (env_act ASignal (env_act AConsume e)) = delivered e ++ [ev]).
  { cbn [env_act]. rewrite Ec. cbn [mbind option_bind]. by rewrite Er. }
  set (e' := env_act ASignal _) in *. clearbody e'. split; cbn; [|done].
  intros j x h Hj Hhj. destruct (decide (i = j)) as [<-|Hne].
  - apply list_lookup_insert_Some in Hj as [(_ & Ex & _)|(? & _)]; [|done]. subst x.
    apply list_lookup_insert_Some in Hhj as [(_ & <- & _)|(? & _)]; [|done].
    specialize (Hh i e None Ei Eh). cbn in Hh. rewrite app_nil_r in Hh. cbn. f_equal. exact Hh.
  - apply list_lookup_insert_Some in Hj as [(? & _)|(_ & Hj)]; [done|].
    apply list_lookup_insert_Some in Hhj as [(? & _)|(_ & Hhj)]; [done|]. by apply (Hh j x h).
Qed.

Lemma fan_send_ok i f f' : fan_ok f -> forward_send i f = Some f' -> fan_ok f'.
Proof.
  intros [Hh Hm] H. unfold forward_send in H. destruct (held f !! i) as [[ev|]|] eqn:Eh; cbn in H; try done.
  unfold ch_send in H. destruct (_ <? _); cbn in H; [|done]. injection H as <-. split; cbn.
  - intros j x h Hj Hhj. rewrite from_shard_app, from_shard_one. destruct (decide (i = j)) as [<-|Hne].
    + apply list_lookup_insert_Some in Hhj as [(_ & <- & _)|(? & _)]; [|done]. rewrite Nat.eqb_refl.
      specialize (Hh i x _ Hj Eh). cbn in *. by rewrite Hh, app_nil_r.
    + rewrite list_lookup_insert_ne in Hhj by done. rewrite (proj2 (Nat.eqb_neq _ _)) by done. rewrite app_nil_r. by apply Hh.
  - rewrite map_app, Hm, app_assoc. done.
Qed.

Lemma fan_step_ok f f' : fan_ok f -> fan_step f f' -> fan_ok f'.
Proof.
  intros Hok H. destruct H as [i f f' H|i f f' H|f ev c Hr|i f e e' Hi Hd].
  - by eapply fan_recv_ok.
  - by eapply fan_send_ok.
  - destruct Hok as [Hh Hm]. split; cbn; [done|]. rewrite Hm, <- app_assoc. f_equal.
    unfold ch_recv in Hr. destruct (ch_buf _); [done|]. by injection Hr as <- <-.
  - destruct Hok as [Hh Hm]. split; cbn; [|done]. intros j x h Hj Hhj. destruct (decide (i = j)) as [<-|Hne].
    + apply list_lookup_insert_Some in Hj as [(_ & <- & _)|(? & _)]; [|done]. rewrite Hd. by apply Hh.
    + rewrite list_lookup_insert_ne in Hj by done. by apply (Hh j x h).
Qed.

Definition fan_start (se : ShardedEngine) : fanin := mkFanin se (map (fun _ => None) (shards se)) [] [].

(** The fan-in keeps every shard's order and loses nothing.  At any moment
    of any interleaving of the engines, the forwarders and the consumer, what
    the consumer received followed by what waits in the merged channel
    is the merged sequence, in which the events of each shard are exactly those
    its forwarder took from the shard, in that order, less at most the one it
    holds. *)
Theorem fanin_preserves_order se f : Forall (fun e => delivered e = []) (shards se) ->
  ch_buf (se_ExecutionCh se) = [] -> rtc fan_step (fan_start se) f ->
  map snd (merged f) = received f ++ ch_buf (se_ExecutionCh (fi_engine f)) /\
  forall i e h, shards (fi_engine f) !! i = Some e -> held f !! i = Some h ->
    delivered e = from_shard i (merged f) ++ to_list h.
Proof.
  intros Hd Hc Hs. assert (Hok : fan_ok (fan_start se)).
  { split; cbn; [|by rewrite Hc]. intros i e h Hi Hh. rewrite list_lookup_fmap, Hi in Hh. injection Hh as <-.
    by eapply Forall_lookup in Hd. }
  assert (H : fan_ok f) by (induction Hs as [|x y z Hxy _ IH]; [done|]; apply IH; by eapply fan_step_ok).
  destruct H as [H1 H2]. by split.
Qed.
End Sharded.

(** ** Witnesses *)

Definition two_shards : ShardedEngine := NewShardedEngine 2 (fun i => "engine") "fresh" 1.

(** Two callers race for BTC: both miss, both draw a candidate, the second
    store finds the first one's. *)
Definition raced : callers :=
  let step (i : nat) (s : callers) :=
    match cl_calls s !! i with
    | Some pc => let '(pc', se') := shardFor_step pc (cl_engine s) in mkCallers se' (<[i := pc']> (cl_calls s))
    | None => s
    end in
  foldl (fun s i => step i s) (mkCallers two_shards [PcLoad "BTC"; PcLoad "BTC"]) [0; 1; 0; 1; 1; 0]%nat.

Lemma raced_reachable : rtc call_step (mkCallers two_shards []) raced.
Proof.
  eapply rtc_l; [apply (step_call _ [] "BTC")|]. eapply rtc_l; [apply (step_call _ [PcLoad "BTC"] "BTC")|].
  eapply rtc_l; [by apply (step_run _ _ 0 (PcLoad "BTC"))|]. eapply rtc_l; [by apply (step_run _ _ 1 (PcLoad "BTC"))|].
  eapply rtc_l; [by apply (step_run _ _ 0 (PcAdd "BTC"))|]. eapply rtc_l; [by apply (step_run _ _ 1 (PcAdd "BTC"))|].
  eapply rtc_l; [by apply (step_run _ _ 1 (PcStore "BTC" 1))|]. eapply rtc_l; [by apply (step_run _ _ 0 (PcStore "BTC" 0))|].
  apply rtc_refl.
Qed.

Lemma shard_assignment_stable_witness : 1%nat = 1%nat /\ (1 < length (shards (cl_engine raced)))%nat /\ ("BTC" = "" -> 1%nat = 0%nat).
Proof.
  apply (shard_assignment_stable 2 (fun i => "engine") "fresh" 1 raced raced "BTC" 1 1);
    [exact raced_reachable|apply rtc_refl|left|right; left].
Defined.

Lemma shardFor_total_witness : exists i se', shardFor "ETH" two_shards = (PcDone "ETH" i, se') /\
  (i < length (shards se'))%nat /\ assignments se' !! "ETH" = Some i /\ shardFor "ETH" se' = (PcDone "ETH" i, se').
Proof.
  apply (shardFor_total "ETH" two_shards); [discriminate|split; [discriminate|reflexivity]|].
  intros s i H. change (({[ "" := 0%nat ]} : gmap string nat) !! s = Some i) in H.
  apply lookup_singleton_Some in H as [_ <-]. change (0 < 2)%nat. lia.
Defined.

Lemma fanin_preserves_order_witness :
  map snd (merged (fan_start two_shards)) = [] ++ [] /\
  forall i e h, shards two_shards !! i = Some e -> held (fan_start two_shards) !! i = Some h ->
    delivered e = from_shard i [] ++ to_list h.
Proof.
  apply (fanin_preserves_order two_shards (fan_start two_shards)); [repeat constructor|reflexivity|apply rtc_refl].
Defined.
