(* ===== verification/Errors.v ===== *)
(** * Errors of [internal/service] and the string functions it uses

    A Go [error] is a value of [error]: a [DomainError] with its kind, a
    [fmt.Errorf] message, a [%w] wrapper, gorm's not-found sentinel or an error
    of the database (a failure with its SQLSTATE, or a violated constraint).  Messages keep the format string and the
    rendered arguments.  [GoPanic] is a panic: it travels through callers as an
    error would, and theorems show that it does not occur. *)
From S2P Require Import Prelude Decimal.
From Stdlib Require Import Lia Ascii.

Inductive ErrorKind :=
| ErrorKindValidation | ErrorKindConflict | ErrorKindForbidden | ErrorKindUnavailable.
#[export] Instance ErrorKind_eq_dec : EqDecision ErrorKind.
Proof. solve_decision. Defined.

Inductive error :=
| DomainError (Kind : ErrorKind) (format : string) (args : list string)
| Errorf (format : string) (args : list string)
| Wrapf (format : string) (err : error)
| ErrRecordNotFound
| DBError (sqlstate : string)
| ConstraintViolation (constraint : string)
| GoPanic.
#[export] Instance error_eq_dec : EqDecision error.
Proof. solve_decision. Defined.

Definition NewValidationErrorf := DomainError ErrorKindValidation.
Definition NewConflictErrorf := DomainError ErrorKindConflict.
Definition NewForbiddenErrorf := DomainError ErrorKindForbidden.
Definition NewUnavailableErrorf := DomainError ErrorKindUnavailable.

(** [DomainErrorKind]: [errors.As] looks through wrappers. *)
Fixpoint DomainErrorKind (err : error) : option ErrorKind :=
  match err with
  | DomainError kind _ _ => Some kind
  | Wrapf _ inner => DomainErrorKind inner
  | _ => None
  end.

(** [errors.Is(err, gorm.ErrRecordNotFound)] *)
Fixpoint IsRecordNotFound (err : error) : bool :=
  match err with
  | ErrRecordNotFound => true
  | Wrapf _ inner => IsRecordNotFound inner
  | _ => false
  end.

(** Whether a panic is behind an error value. *)
Fixpoint is_panic (err : error) : bool :=
  match err with GoPanic => true | Wrapf _ inner => is_panic inner | _ => false end.

(** ** Strings

    [strings.TrimSpace] and [strings.ToUpper] on ASCII; bytes outside ASCII are
    kept as they are. *)

Definition is_space (c : ascii) : bool :=
  let n := N_of_ascii c in ((9 <=? n) && (n <=? 13) || (n =? 32))%N.
Definition upper_char (c : ascii) : ascii :=
  let n := N_of_ascii c in if ((97 <=? n) && (n <=? 122))%N then ascii_of_N (n - 32) else c.

Fixpoint trim_left (s : string) : string :=
  match s with String c s' => if is_space c then trim_left s' else s | EmptyString => s end.
Fixpoint trim_right (s : string) : string :=
  match s with
  | EmptyString => EmptyString
  | String c s' => match trim_right s' with
                   | EmptyString => if is_space c then EmptyString else String c EmptyString
                   | r => String c r
                   end
  end.
Definition TrimSpace (s : string) : string := trim_right (trim_left s).

Fixpoint ToUpper (s : string) : string :=
  match s with EmptyString => EmptyString | String c s' => String (upper_char c) (ToUpper s') end.

(** [normalizeCoinSymbol] and [normalizeTradeCoinSymbol] *)
Definition normalizeCoinSymbol (value : string) : string := ToUpper (TrimSpace value).
Definition normalizeTradeCoinSymbol (coinSymbol : string) : string := ToUpper (TrimSpace coinSymbol).

(** *** Normalising is idempotent *)

Lemma trim_right_nonspace c s : is_space c = false -> exists r, trim_right (String c s) = String c r.
Proof. intros H. cbn. destruct (trim_right s); [rewrite H|]; by eexists. Qed.

Lemma trim_right_cons c s : trim_right (String c s) =
  match trim_right s with
  | EmptyString => if is_space c then EmptyString else String c EmptyString
  | String d r => String c (String d r)
  end.
Proof. cbn. by destruct (trim_right s). Qed.

Lemma trim_right_idem s : trim_right (trim_right s) = trim_right s.
Proof.
  induction s as [|c s IH]; [done|]. rewrite !trim_right_cons. destruct (trim_right s) as [|d r].
  - destruct (is_space c) eqn:Hc; [done|]. by rewrite trim_right_cons, Hc.
  - by rewrite trim_right_cons, IH.
Qed.

Lemma trim_left_cases s : trim_left s = EmptyString \/ exists c r, trim_left s = String c r /\ is_space c = false.
Proof.
  induction s as [|c s IH]; [by left|]. cbn. destruct (is_space c) eqn:E; [done|]. right. eauto.
Qed.

Lemma trim_left_fixed c r : is_space c = false -> trim_left (String c r) = String c r.
Proof. intros H. cbn. by rewrite H. Qed.

Lemma TrimSpace_idem s : TrimSpace (TrimSpace s) = TrimSpace s.
Proof.
  unfold TrimSpace. destruct (trim_left_cases s) as [-> | (c & r & -> & Hc)]; [done|].
  destruct (trim_right_nonspace c r Hc) as [t Ht]. rewrite Ht, trim_left_fixed by done.
  rewrite <- Ht. apply trim_right_idem.
Qed.

Lemma upper_char_idem c : upper_char (upper_char c) = upper_char c.
Proof. by destruct c as [[] [] [] [] [] [] [] []]. Qed.
Lemma upper_char_space c : is_space (upper_char c) = is_space c.
Proof. by destruct c as [[] [] [] [] [] [] [] []]. Qed.

Lemma ToUpper_idem s : ToUpper (ToUpper s) = ToUpper s.
Proof. induction s as [|c s IH]; [done|]. cbn. by rewrite upper_char_idem, IH. Qed.

Lemma trim_left_ToUpper s : trim_left (ToUpper s) = ToUpper (trim_left s).
Proof. induction s as [|c s IH]; [done|]. cbn. rewrite upper_char_space. by destruct (is_space c). Qed.

Lemma trim_right_ToUpper s : trim_right (ToUpper s) = ToUpper (trim_right s).
Proof.
  induction s as [|c s IH]; [done|]. cbn. rewrite IH, upper_char_space.
  destruct (trim_right s); [by destruct (is_space c) | done].
Qed.

Lemma normalizeCoinSymbol_idem s : normalizeCoinSymbol (normalizeCoinSymbol s) = normalizeCoinSymbol s.
Proof.
  unfold normalizeCoinSymbol. rewrite <- (ToUpper_idem (TrimSpace s)) at 2. f_equal.
  unfold TrimSpace at 1. rewrite trim_left_ToUpper, trim_right_ToUpper. f_equal. apply TrimSpace_idem.
Qed.
