(* ===== verification/Fee.v ===== *)
(** * Trading fees: [service/fee.go]

    The fee rate is the package variable [defaultTradingFeeRate]; both sides of
    a trade pay it in KRW on the executed quote amount, and a market buy's
    budget is divided by one plus the rate before it reaches the engine. *)
From S2P Require Import Prelude Decimal Model Errors.
From Stdlib Require Import Lia.

Definition KRWAssetSymbol : string := "KRW".

Section Fee.
Context {DL : DecimalLib}.

(** [decimal.RequireFromString]: the literals it is given parse. *)
Definition RequireFromString (s : string) : decimal := default Zero (NewFromString s).

Definition defaultTradingFeeRate : decimal := RequireFromString "0.0005".

Definition tradeQuoteAmount (trade : Trade) : decimal := Mul (t_Price trade) (t_Quantity trade).

Definition tradingFeeAmount (amount : decimal) : decimal := Mul amount defaultTradingFeeRate.

Definition quoteAmountWithTradingFee (amount : decimal) : decimal :=
  Add amount (tradingFeeAmount amount).

#[export] Instance Trade_settable : Settable Trade := fun t =>
  mkTrade (t_ID t) (t_IdempotencyKey t) (t_EngineSequence t) (t_EngineEventID t) (t_CoinSymbol t)
    (t_Price t) (t_Quantity t) (t_FeeRate t) (t_BuyerFee t) (t_BuyerFeeAsset t) (t_SellerFee t)
    (t_SellerFeeAsset t) (t_TradedAt t) (t_BuyOrderID t) (t_SellOrderID t).

Definition applyTradeFeePolicy (trade : Trade) : result error Trade :=
  if negb (GreaterThan (t_Quantity trade) Zero) || negb (GreaterThan (t_Price trade) Zero)
  then Err (Errorf "trade price and quantity must be greater than zero" [])
  else if IsPositive (t_FeeRate trade) then Ok trade
  else if negb (GreaterThanOrEqual defaultTradingFeeRate Zero)
          || GreaterThanOrEqual defaultTradingFeeRate (NewFromInt 1)
  then Err (Errorf "invalid trading fee rate" [])
  else
    let executionQuote := tradeQuoteAmount trade in
    Ok (trade <| t_FeeRate := defaultTradingFeeRate |>
              <| t_BuyerFee := tradingFeeAmount executionQuote |>
              <| t_BuyerFeeAsset := KRWAssetSymbol |>
              <| t_SellerFee := tradingFeeAmount executionQuote |>
              <| t_SellerFeeAsset := KRWAssetSymbol |>).

(** The division panics only on a zero divisor. *)
Definition marketBuyExecutableQuoteAmount (grossQuoteBudget : decimal) : result error decimal :=
  if negb (GreaterThan grossQuoteBudget Zero) then Ok Zero
  else match Div grossQuoteBudget (Add (NewFromInt 1) defaultTradingFeeRate) with
       | Some q => Ok q
       | None => Err GoPanic
       end.

Definition amountAfterFee (gross fee : decimal) (field : string) : result error decimal :=
  if negb (GreaterThan gross Zero)
  then Err (NewValidationErrorf "%s gross amount must be greater than zero" [field])
  else if IsNegative fee
  then Err (NewValidationErrorf "%s fee must be greater than or equal to zero" [field])
  else
    let net := Sub gross fee in
    if negb (GreaterThan net Zero)
    then Err (NewValidationErrorf "%s fee must be less than gross amount" [field])
    else Ok net.

Context {DLaws : DecimalLaws DL}.
Local Open Scope Q_scope.

Definition fee_rate : Q := 5 # 10000.

Lemma RequireFromString_literal s q : literal_value s = Some q -> dval (RequireFromString s) == q.
Proof. intros H. destruct (NewFromString_literal s q H) as (d & Hd & Hv). unfold RequireFromString. by rewrite Hd. Qed.

Lemma dval_defaultTradingFeeRate : dval defaultTradingFeeRate == fee_rate.
Proof. by apply RequireFromString_literal. Qed.

Lemma dval_tradingFeeAmount a : dval (tradingFeeAmount a) == dval a * fee_rate.
Proof. unfold tradingFeeAmount. by rewrite dval_Mul, dval_defaultTradingFeeRate. Qed.

Lemma dval_quoteAmountWithTradingFee a : dval (quoteAmountWithTradingFee a) == dval a * (1 + fee_rate).
Proof. unfold quoteAmountWithTradingFee. rewrite dval_Add, dval_tradingFeeAmount. lra. Qed.

Lemma dval_tradeQuoteAmount t : dval (tradeQuoteAmount t) == dval (t_Price t) * dval (t_Quantity t).
Proof. apply dval_Mul. Qed.

Lemma fee_rate_valid :
  GreaterThanOrEqual defaultTradingFeeRate Zero = true
  /\ GreaterThanOrEqual defaultTradingFeeRate (NewFromInt 1) = false.
Proof.
  rewrite GreaterThanOrEqual_true, GreaterThanOrEqual_false, dval_Zero, dval_NewFromInt,
    dval_defaultTradingFeeRate. done.
Qed.

(** A trade that carries the standard fee of both sides. *)
Definition standard_fees (trade : Trade) : Prop :=
  dval (t_FeeRate trade) == fee_rate
  /\ dval (t_BuyerFee trade) == dval (tradeQuoteAmount trade) * fee_rate
  /\ dval (t_SellerFee trade) == dval (tradeQuoteAmount trade) * fee_rate
  /\ t_BuyerFeeAsset trade = KRWAssetSymbol /\ t_SellerFeeAsset trade = KRWAssetSymbol.

(** Everything the fee policy leaves alone. *)
Definition same_execution (t t' : Trade) : Prop :=
  t_ID t' = t_ID t /\ t_IdempotencyKey t' = t_IdempotencyKey t
  /\ t_EngineSequence t' = t_EngineSequence t /\ t_EngineEventID t' = t_EngineEventID t
  /\ t_CoinSymbol t' = t_CoinSymbol t /\ t_Price t' = t_Price t /\ t_Quantity t' = t_Quantity t
  /\ t_TradedAt t' = t_TradedAt t /\ t_BuyOrderID t' = t_BuyOrderID t /\ t_SellOrderID t' = t_SellOrderID t.

Lemma applyTradeFeePolicy_Ok t t' : applyTradeFeePolicy t = Ok t' ->
  0 < dval (t_Quantity t) /\ 0 < dval (t_Price t) /\ same_execution t t'
  /\ (if IsPositive (t_FeeRate t) then t' = t else standard_fees t').
Proof.
  unfold applyTradeFeePolicy. destruct fee_rate_valid as [-> ->]. intros H. inv_ok H; bool_to_prop; dec_prop.
  - rewrite dval_Zero in *. done.
  - rewrite dval_Zero in *. do 3 (split; [done|]). unfold standard_fees. cbn.
    rewrite dval_defaultTradingFeeRate, dval_tradingFeeAmount, !dval_tradeQuoteAmount. done.
Qed.

Lemma marketBuyExecutable_total b : exists q, marketBuyExecutableQuoteAmount b = Ok q.
Proof.
  unfold marketBuyExecutableQuoteAmount. case_goal; [by eexists|].
  destruct (Div_bounds b (Add (NewFromInt 1) defaultTradingFeeRate)) as (q & -> & _); [|by eexists].
  rewrite dval_Add, dval_NewFromInt, dval_defaultTradingFeeRate. done.
Qed.

(** The quote amount a market buy may execute, fees included, equals the
    user's budget up to the rounding of one division: the difference is at most
    half a unit of the 16th decimal place times one plus the rate, in either
    direction, and the function returns for every budget. *)
Theorem executable_quote_fits_budget b : 0 < dval b ->
  exists q, marketBuyExecutableQuoteAmount b = Ok q
    /\ Qabs (dval (quoteAmountWithTradingFee q) - dval b)
       <= (1 # 2) * ulp DivisionPrecision * (1 + fee_rate).
Proof.
  intros Hb. unfold marketBuyExecutableQuoteAmount.
  rewrite (proj2 (GreaterThan_true b Zero)) by (rewrite dval_Zero; done). cbn [negb].
  assert (Hd : dval (Add (NewFromInt 1) defaultTradingFeeRate) == 1 + fee_rate).
  { by rewrite dval_Add, dval_NewFromInt, dval_defaultTradingFeeRate. }
  destruct (Div_bounds b (Add (NewFromInt 1) defaultTradingFeeRate)) as (q & -> & H1 & H2).
  { rewrite Hd. done. }
  exists q. split; [done|]. rewrite Hd in H1, H2. rewrite dval_quoteAmountWithTradingFee.
  apply Qabs_Qle_condition. split; lra.
Qed.

(** Deducting a fee succeeds exactly when the gross amount is positive and
    the fee is between zero and it, and then nothing is lost: net plus fee is
    the gross amount, and the net amount is positive. *)
Lemma amountAfterFee_exact gross fee field net :
  amountAfterFee gross fee field = Ok net
  <-> net = Sub gross fee /\ 0 < dval gross /\ 0 <= dval fee /\ dval fee < dval gross
      /\ dval net + dval fee == dval gross /\ 0 < dval net.
Proof.
  unfold amountAfterFee. split.
  - intros H. inv_ok H; bool_to_prop; dec_prop. rewrite dval_Sub, dval_Zero in *. repeat split; lra.
  - intros (-> & Hg & Hf & Hlt & _ & Hn).
    rewrite (proj2 (GreaterThan_true _ _)) by (rewrite dval_Zero; lra).
    rewrite (proj2 (IsNegative_false _)) by lra.
    rewrite (proj2 (GreaterThan_true _ _)) by (rewrite dval_Zero; lra). done.
Qed.
End Fee.

(** ** Concrete values *)

Module FeeExamples.
Import FixedPoint.

Lemma executable_quote_fits_budget_witness :
  exists q, marketBuyExecutableQuoteAmount (NewFromInt 1000) = Ok q
    /\ (Qabs (dval (quoteAmountWithTradingFee q) - dval (NewFromInt 1000))
        <= (1 # 2) * ulp DivisionPrecision * (1 + fee_rate))%Q.
Proof. apply (executable_quote_fits_budget (NewFromInt 1000)). reflexivity. Defined.

(** The rounding can go against the user's hold: for a budget of 1000 the
    executable amount is 999.5002498750624688, which costs slightly more than
    1000 once its fee is added. *)
Example executable_quote_can_overrun :
  exists q, marketBuyExecutableQuoteAmount (NewFromInt 1000) = Ok q
    /\ DString q = "999.5002498750624688"%string
    /\ GreaterThan (quoteAmountWithTradingFee q) (NewFromInt 1000) = true.
Proof. eexists. split; [vm_compute; reflexivity|]. split; vm_compute; reflexivity. Qed.
End FeeExamples.
