(* ===== verification/MarketRules.v ===== *)
(** * Market rules: [service/market_rules_registry.go] and [order_policy.go]

    The registry of per-market trading status, quantity and price-tick rules,
    its construction from a configuration and from the built-in defaults, and
    the order validations. *)
From S2P Require Import Prelude Decimal Model Errors Fee.
From Stdlib Require Import Lia.

Inductive MarketStatus := MarketStatusActive | MarketStatusHalted.
#[export] Instance MarketStatus_eq_dec : EqDecision MarketStatus.
Proof. solve_decision. Defined.
Definition MarketStatus_string (s : MarketStatus) : string :=
  match s with MarketStatusActive => "ACTIVE" | MarketStatusHalted => "HALTED" end.

(** The configuration file after JSON decoding; [Markets] in the (unspecified)
    order a range over the Go map visits it. *)
Record MarketRulesMarketConfig := mkMarketConfig {
  mc_TradingStatus : string; mc_MinOrderQuantity : string; mc_BaseQuantityStep : string }.
Record MarketRulesTickConfig := mkTickConfig { tc_UpperBound : string; tc_TickSize : string }.
Record MarketRulesConfig := mkRulesConfig {
  c_MinOrderNotional : string;
  c_FeeRate : string;
  c_DefaultMarketStatus : string;
  c_DefaultMinOrderQuantity : string;
  c_DefaultBaseQuantityStep : string;
  c_Markets : list (string * MarketRulesMarketConfig);
  c_TickRules : list MarketRulesTickConfig;
  c_MaxTickSize : string }.

Section Registry.
Context {DL : DecimalLib}.

Record BaseQuantityPolicy := mkBaseQuantityPolicy {
  bq_MinOrderQuantity : decimal; bq_BaseQuantityStep : decimal }.
Record krwTickRule := mkTickRule { upperBound : decimal; tickSize : decimal }.

Record MarketRulesRegistry := mkRegistry {
  minOrderNotional : decimal;
  feeRate : decimal;
  reg_defaultMarketStatus : MarketStatus;
  marketStatuses : gmap string MarketStatus;
  defaultBaseQuantityRule : BaseQuantityPolicy;
  baseQuantityRules : gmap string BaseQuantityPolicy;
  tickRules : list krwTickRule;
  maxTickSize : decimal }.

Record MarketTickRule := mkMarketTickRule { mt_UpperBound : option decimal; mt_TickSize : decimal }.
Record MarketRules := mkMarketRules {
  m_CoinSymbol : string;
  m_QuoteSymbol : string;
  m_TradingEnabled : bool;
  m_TradingStatus : MarketStatus;
  m_MinOrderNotional : decimal;
  m_MinOrderQuantity : decimal;
  m_BaseQuantityStep : decimal;
  m_FeeRate : decimal;
  m_TickRules : list MarketTickRule }.

(** ** The built-in rules *)

Definition defaultBaseQuantityPolicy : BaseQuantityPolicy :=
  mkBaseQuantityPolicy (RequireFromString "0.00000001") (RequireFromString "0.00000001").

Definition krwMarketStatuses : list (string * MarketStatus) := [("HALT", MarketStatusHalted)].

Definition krwBaseQuantityPolicies : list (string * BaseQuantityPolicy) :=
  [("BTC", defaultBaseQuantityPolicy);
   ("ETH", mkBaseQuantityPolicy (RequireFromString "0.0000001") (RequireFromString "0.0000001"));
   ("XRP", mkBaseQuantityPolicy (NewFromInt 1) (NewFromInt 1))].

Definition krwTickRules : list krwTickRule :=
  [mkTickRule (RequireFromString "0.00001") (RequireFromString "0.00000001");
   mkTickRule (RequireFromString "0.0001") (RequireFromString "0.0000001");
   mkTickRule (RequireFromString "0.001") (RequireFromString "0.000001");
   mkTickRule (RequireFromString "0.01") (RequireFromString "0.00001");
   mkTickRule (RequireFromString "0.1") (RequireFromString "0.0001");
   mkTickRule (NewFromInt 1) (RequireFromString "0.001");
   mkTickRule (NewFromInt 10) (RequireFromString "0.01");
   mkTickRule (NewFromInt 100) (RequireFromString "0.1");
   mkTickRule (NewFromInt 5000) (NewFromInt 1);
   mkTickRule (NewFromInt 10000) (NewFromInt 5);
   mkTickRule (NewFromInt 50000) (NewFromInt 10);
   mkTickRule (NewFromInt 100000) (NewFromInt 50);
   mkTickRule (NewFromInt 500000) (NewFromInt 100);
   mkTickRule (NewFromInt 1000000) (NewFromInt 500);
   mkTickRule (NewFromInt 2000000) (NewFromInt 1000)].

(** A map built by assigning every pair in turn, under normalised symbols. *)
Definition normalized_map {A} (l : list (string * A)) : gmap string A :=
  foldl (fun m '(coinSymbol, a) => <[normalizeCoinSymbol coinSymbol := a]> m) ∅ l.

Definition NewDefaultMarketRulesRegistry : MarketRulesRegistry :=
  mkRegistry Zero defaultTradingFeeRate MarketStatusActive (normalized_map krwMarketStatuses)
    defaultBaseQuantityPolicy (normalized_map krwBaseQuantityPolicies) krwTickRules (NewFromInt 1000).

Definition defaultMarketRulesRegistry : MarketRulesRegistry := NewDefaultMarketRulesRegistry.

(** ** Construction from a configuration *)

Definition parseConfigDecimal (value field : string) (mustBePositive : bool) : result error decimal :=
  match NewFromString (TrimSpace value) with
  | None => Err (NewValidationErrorf "invalid %s" [field])
  | Some parsed =>
      if mustBePositive && negb (GreaterThan parsed Zero)
      then Err (NewValidationErrorf "%s must be greater than zero" [field])
      else if negb mustBePositive && IsNegative parsed
      then Err (NewValidationErrorf "%s must be zero or greater" [field])
      else Ok parsed
  end.

Definition parseMarketStatusConfig (value field : string) : result error MarketStatus :=
  let status := ToUpper (TrimSpace value) in
  if decide (status = MarketStatus_string MarketStatusActive) then Ok MarketStatusActive
  else if decide (status = MarketStatus_string MarketStatusHalted) then Ok MarketStatusHalted
  else Err (NewValidationErrorf "invalid %s" [field]).

Fixpoint parseTickRules (index : nat) (l : list MarketRulesTickConfig) : result error (list krwTickRule) :=
  match l with
  | [] => Ok []
  | tickRule :: l' =>
      bound ← parseConfigDecimal (tc_UpperBound tickRule) ("tick_rules[" +:+ pretty index +:+ "].upper_bound") true;
      size ← parseConfigDecimal (tc_TickSize tickRule) ("tick_rules[" +:+ pretty index +:+ "].tick_size") true;
      rest ← parseTickRules (S index) l';
      Ok (mkTickRule bound size :: rest)
  end.

(** One turn of the loop over [config.Markets]. *)
Definition parseMarket (dflt : MarketStatus) (dfltPolicy : BaseQuantityPolicy)
    (coinSymbol : string) (marketConfig : MarketRulesMarketConfig)
    : result error (string * MarketStatus * BaseQuantityPolicy) :=
  let normalizedSymbol := normalizeCoinSymbol coinSymbol in
  if decide (normalizedSymbol = "") then Err (NewValidationErrorf "markets coin symbol is required" [])
  else
    status ← (if decide (TrimSpace (mc_TradingStatus marketConfig) = "") then Ok dflt
              else parseMarketStatusConfig (mc_TradingStatus marketConfig)
                     ("markets." +:+ normalizedSymbol +:+ ".trading_status"));
    minOrderQuantity ← (if decide (TrimSpace (mc_MinOrderQuantity marketConfig) = "")
                        then Ok (bq_MinOrderQuantity dfltPolicy)
                        else parseConfigDecimal (mc_MinOrderQuantity marketConfig)
                               ("markets." +:+ normalizedSymbol +:+ ".min_order_quantity") true);
    baseQuantityStep ← (if decide (TrimSpace (mc_BaseQuantityStep marketConfig) = "")
                        then Ok (bq_BaseQuantityStep dfltPolicy)
                        else parseConfigDecimal (mc_BaseQuantityStep marketConfig)
                               ("markets." +:+ normalizedSymbol +:+ ".base_quantity_step") true);
    Ok (normalizedSymbol, status, mkBaseQuantityPolicy minOrderQuantity baseQuantityStep).

Fixpoint parseMarkets (dflt : MarketStatus) (dfltPolicy : BaseQuantityPolicy)
    (l : list (string * MarketRulesMarketConfig))
    (acc : gmap string MarketStatus * gmap string BaseQuantityPolicy)
    : result error (gmap string MarketStatus * gmap string BaseQuantityPolicy) :=
  match l with
  | [] => Ok acc
  | (coinSymbol, marketConfig) :: l' =>
      '(symbol, status, policy) ← parseMarket dflt dfltPolicy coinSymbol marketConfig;
      parseMarkets dflt dfltPolicy l' (<[symbol := status]> acc.1, <[symbol := policy]> acc.2)
  end.

Definition NewMarketRulesRegistryFromConfig (config : MarketRulesConfig) : result error MarketRulesRegistry :=
  notional ← parseConfigDecimal (c_MinOrderNotional config) "min_order_notional" false;
  rate ← parseConfigDecimal (c_FeeRate config) "fee_rate" false;
  minQuantity ← parseConfigDecimal (c_DefaultMinOrderQuantity config) "default_min_order_quantity" true;
  step ← parseConfigDecimal (c_DefaultBaseQuantityStep config) "default_base_quantity_step" true;
  status ← parseMarketStatusConfig (c_DefaultMarketStatus config) "default_market_status";
  maxTick ← parseConfigDecimal (c_MaxTickSize config) "max_tick_size" true;
  ticks ← parseTickRules 0 (c_TickRules config);
  '(statuses, policies) ← parseMarkets status (mkBaseQuantityPolicy minQuantity step) (c_Markets config) (∅, ∅);
  Ok (mkRegistry notional rate status statuses (mkBaseQuantityPolicy minQuantity step) policies ticks maxTick).

(** ** Queries and validations *)

Definition TradingStatus (r : MarketRulesRegistry) (coinSymbol : string) : MarketStatus :=
  default (reg_defaultMarketStatus r) (marketStatuses r !! normalizeCoinSymbol coinSymbol).

Definition TradingEnabled (r : MarketRulesRegistry) (coinSymbol : string) : bool :=
  bool_decide (TradingStatus r coinSymbol = MarketStatusActive).

Definition ValidateTradingEnabled (r : MarketRulesRegistry) (coinSymbol : string) : result error unit :=
  let normalizedSymbol := normalizeCoinSymbol coinSymbol in
  if negb (TradingEnabled r normalizedSymbol)
  then Err (NewConflictErrorf "%s market is not accepting orders" [normalizedSymbol])
  else Ok tt.

Definition lookupBaseQuantityPolicy (r : MarketRulesRegistry) (coinSymbol : string) : BaseQuantityPolicy :=
  default (defaultBaseQuantityRule r) (baseQuantityRules r !! normalizeCoinSymbol coinSymbol).

(** [d.Mod(d2).IsZero()]; the remainder panics on a zero divisor. *)
Definition multiple_of (d step : decimal) : result error bool :=
  match Mod d step with Some rest => Ok (IsZero rest) | None => Err GoPanic end.

Definition ValidateBaseQuantity (r : MarketRulesRegistry) (coinSymbol : string) (amount : decimal) : result error unit :=
  let normalizedSymbol := normalizeCoinSymbol coinSymbol in
  let policy := lookupBaseQuantityPolicy r normalizedSymbol in
  if LessThan amount (bq_MinOrderQuantity policy)
  then Err (NewValidationErrorf "%s order amount must be at least %s"
              [normalizedSymbol; DString (bq_MinOrderQuantity policy)])
  else
    aligned ← multiple_of amount (bq_BaseQuantityStep policy);
    if negb aligned
    then Err (NewValidationErrorf "%s order amount must align with quantity step %s"
                [normalizedSymbol; DString (bq_BaseQuantityStep policy)])
    else Ok tt.

Fixpoint KRWTickSize_in (rules : list krwTickRule) (dflt price : decimal) : decimal :=
  match rules with
  | [] => dflt
  | rule :: rules' => if LessThan price (upperBound rule) then tickSize rule else KRWTickSize_in rules' dflt price
  end.
Definition KRWTickSize (r : MarketRulesRegistry) (price : decimal) : decimal :=
  KRWTickSize_in (tickRules r) (maxTickSize r) price.

Definition IsValidKRWTickPrice (r : MarketRulesRegistry) (price : decimal) : result error bool :=
  multiple_of price (KRWTickSize r price).

Definition ValidateLimitOrder (r : MarketRulesRegistry) (coinSymbol : string) (price amount : decimal) : result error unit :=
  _ ← ValidateTradingEnabled r coinSymbol;
  aligned ← IsValidKRWTickPrice r price;
  if negb aligned
  then Err (NewValidationErrorf "price must align with KRW tick size %s" [DString (KRWTickSize r price)])
  else
    _ ← ValidateBaseQuantity r coinSymbol amount;
    if GreaterThan (minOrderNotional r) Zero && LessThan (Mul price amount) (minOrderNotional r)
    then Err (NewValidationErrorf "order notional must be at least %s KRW" [DString (minOrderNotional r)])
    else Ok tt.

Definition ValidateMarketBuyOrder (r : MarketRulesRegistry) (coinSymbol : string) (quoteAmount : decimal) : result error unit :=
  _ ← ValidateTradingEnabled r coinSymbol;
  if GreaterThan (minOrderNotional r) Zero && LessThan quoteAmount (minOrderNotional r)
  then Err (NewValidationErrorf "market buy quote_amount must be at least %s KRW" [DString (minOrderNotional r)])
  else Ok tt.

Definition ValidateMarketSellOrder (r : MarketRulesRegistry) (coinSymbol : string) (amount : decimal) : result error unit :=
  _ ← ValidateTradingEnabled r coinSymbol;
  ValidateBaseQuantity r coinSymbol amount.

Definition KRWMarketRules (r : MarketRulesRegistry) (coinSymbol : string) : result error MarketRules :=
  let normalizedSymbol := normalizeCoinSymbol coinSymbol in
  if decide (normalizedSymbol = "") then Err (NewValidationErrorf "coin_symbol is required" [])
  else
    let ticks := map (fun rule => mkMarketTickRule (Some (upperBound rule)) (tickSize rule)) (tickRules r)
                 ++ [mkMarketTickRule None (maxTickSize r)] in
    let policy := lookupBaseQuantityPolicy r normalizedSymbol in
    let status := TradingStatus r normalizedSymbol in
    Ok (mkMarketRules normalizedSymbol KRWAssetSymbol (bool_decide (status = MarketStatusActive)) status
          (minOrderNotional r) (bq_MinOrderQuantity policy) (bq_BaseQuantityStep policy) (feeRate r) ticks).

(** ** The wrappers of order_policy.go over the registry of the package *)

Definition validateLimitOrderPolicy (coinSymbol : string) (price amount : decimal) : result error unit :=
  ValidateLimitOrder defaultMarketRulesRegistry coinSymbol price amount.
Definition validateMarketBuyOrderPolicy (coinSymbol : string) (quoteAmount : decimal) : result error unit :=
  ValidateMarketBuyOrder defaultMarketRulesRegistry coinSymbol quoteAmount.
Definition validateMarketSellOrderPolicy (coinSymbol : string) (amount : decimal) : result error unit :=
  ValidateMarketSellOrder defaultMarketRulesRegistry coinSymbol amount.
Definition validateBaseQuantityPolicy (coinSymbol : string) (amount : decimal) : result error unit :=
  ValidateBaseQuantity defaultMarketRulesRegistry coinSymbol amount.
Definition baseQuantityPolicyForCoinSymbol (coinSymbol : string) : BaseQuantityPolicy := lookupBaseQuantityPolicy defaultMarketRulesRegistry coinSymbol.
Definition isValidKRWTickPrice (price : decimal) : result error bool := IsValidKRWTickPrice defaultMarketRulesRegistry price.
Definition krwTickSize (price : decimal) : decimal := KRWTickSize defaultMarketRulesRegistry price.
Definition defaultKRWMarketRules (coinSymbol : string) : result error MarketRules := KRWMarketRules defaultMarketRulesRegistry coinSymbol.

(** ** Well-formed registries *)

Context {DLaws : DecimalLaws DL}.
Local Open Scope Q_scope.

Definition policy_ok (p : BaseQuantityPolicy) : Prop :=
  0 < dval (bq_MinOrderQuantity p) /\ 0 < dval (bq_BaseQuantityStep p).
Definition tick_ok (t : krwTickRule) : Prop := 0 < dval (upperBound t) /\ 0 < dval (tickSize t).

(** Every divisor the validations use is positive, and the market maps are keyed
    by normalised symbols. *)
Record registry_ok (r : MarketRulesRegistry) : Prop := {
  ro_notional : 0 <= dval (minOrderNotional r);
  ro_fee : 0 <= dval (feeRate r);
  ro_default : policy_ok (defaultBaseQuantityRule r);
  ro_policies : map_Forall (fun sym p => normalizeCoinSymbol sym = sym /\ sym <> "" /\ policy_ok p) (baseQuantityRules r);
  ro_statuses : map_Forall (fun sym _ => normalizeCoinSymbol sym = sym /\ sym <> "") (marketStatuses r);
  ro_ticks : Forall tick_ok (tickRules r);
  ro_max : 0 < dval (maxTickSize r) }.

Lemma parseConfigDecimal_Ok v f d : parseConfigDecimal v f true = Ok d -> 0 < dval d.
Proof. unfold parseConfigDecimal. intros H. inv_ok H. bool_to_prop. dec_prop. rewrite dval_Zero in *. done. Qed.
Lemma parseConfigDecimal_nonneg v f d : parseConfigDecimal v f false = Ok d -> 0 <= dval d.
Proof. unfold parseConfigDecimal. intros H. inv_ok H. by dec_prop. Qed.

(** An [Ok] bind comes from an [Ok] computation. *)
Lemma bind_Ok {A B} (m : result error A) (k : A -> result error B) b :
  (m ≫= k) = Ok b -> exists a, m = Ok a /\ k a = Ok b.
Proof. destruct m; cbn; [eauto | done]. Qed.

Lemma parseTickRules_Ok l : forall i ts, parseTickRules i l = Ok ts -> Forall tick_ok ts.
Proof.
  induction l as [|t l IH]; intros i ts H; cbn [parseTickRules] in H; [by simplify_eq|].
  apply bind_Ok in H as (b & Hb & H). apply bind_Ok in H as (z & Hz & H).
  apply bind_Ok in H as (rest & Hr & H). simplify_eq.
  constructor; [split; by eapply parseConfigDecimal_Ok | by eapply IH].
Qed.

Lemma parseMarket_Ok d dp c mc sym st p : policy_ok dp -> parseMarket d dp c mc = Ok (sym, st, p) ->
  sym = normalizeCoinSymbol c /\ sym <> "" /\ policy_ok p.
Proof.
  intros [Hm Hs]. unfold parseMarket. case_decide as Hsym; [done|]. intros H.
  apply bind_Ok in H as (st' & _ & H). apply bind_Ok in H as (mq & Hmq & H).
  apply bind_Ok in H as (bs & Hbs & H). simplify_eq. split; [done|]. split; [done|].
  split; cbn; repeat case_decide; simplify_eq; eauto using parseConfigDecimal_Ok.
Qed.

Lemma parseMarkets_Ok d dp l : forall acc out, policy_ok dp ->
  map_Forall (fun sym p => normalizeCoinSymbol sym = sym /\ sym <> "" /\ policy_ok p) acc.2 ->
  map_Forall (fun sym _ => normalizeCoinSymbol sym = sym /\ sym <> "") acc.1 ->
  parseMarkets d dp l acc = Ok out ->
  map_Forall (fun sym p => normalizeCoinSymbol sym = sym /\ sym <> "" /\ policy_ok p) out.2
  /\ map_Forall (fun sym _ => normalizeCoinSymbol sym = sym /\ sym <> "") out.1.
Proof.
  induction l as [|[c mc] l IH]; intros acc out Hd Hp Hs H; cbn [parseMarkets] in H; [by simplify_eq|].
  apply bind_Ok in H as ([[sym st] p] & Hm & H). apply parseMarket_Ok in Hm as (-> & Hne & Hpo); [|done].
  eapply IH, H; cbn [fst snd]; try done; apply map_Forall_insert_2; try done; by rewrite normalizeCoinSymbol_idem.
Qed.

Lemma default_registry_ok : registry_ok defaultMarketRulesRegistry.
Proof.
  assert (Hlit : forall s q, literal_value s = Some q -> 0 < q -> 0 < dval (RequireFromString s)).
  { intros s q Hs Hq. by rewrite (RequireFromString_literal s q Hs). }
  assert (Hint : forall z, (0 < z)%Z -> 0 < dval (NewFromInt z)).
  { intros z Hz. rewrite dval_NewFromInt. change 0 with (inject_Z 0); by rewrite <- Zlt_Qlt. }
  assert (Hpol : policy_ok defaultBaseQuantityPolicy) by (split; eapply Hlit; [vm_compute; reflexivity | done | vm_compute; reflexivity | done]).
  constructor; cbn [minOrderNotional feeRate defaultBaseQuantityRule baseQuantityRules marketStatuses tickRules maxTickSize defaultMarketRulesRegistry NewDefaultMarketRulesRegistry].
  + rewrite dval_Zero. done.
  + rewrite dval_defaultTradingFeeRate. done.
  + done.
  + unfold normalized_map, krwBaseQuantityPolicies. cbn [foldl].
    repeat (apply map_Forall_insert_2; [split; [reflexivity | split; [done|]]|]); [| | |apply map_Forall_empty].
    * split; by apply Hint.
    * split; eapply Hlit; [vm_compute; reflexivity | done | vm_compute; reflexivity | done].
    * done.
  + unfold normalized_map. cbn [foldl krwMarketStatuses].
    apply map_Forall_insert_2; [by split | apply map_Forall_empty].
  + repeat constructor; cbn [upperBound tickSize]; first [by apply Hint | eapply Hlit; [vm_compute; reflexivity | done]].
  + by apply Hint.
Qed.

Lemma config_registry_ok config r : NewMarketRulesRegistryFromConfig config = Ok r -> registry_ok r.
Proof.
  intros H. unfold NewMarketRulesRegistryFromConfig in H.
  do 7 (apply bind_Ok in H as (? & ? & H)). apply bind_Ok in H as ([sts pols] & Hm & H). simplify_eq.
  apply parseMarkets_Ok in Hm as [Hp Hs];
    [|split; by eapply parseConfigDecimal_Ok | apply map_Forall_empty | apply map_Forall_empty].
  constructor; cbn; eauto using parseConfigDecimal_Ok, parseConfigDecimal_nonneg, parseTickRules_Ok.
  split; eauto using parseConfigDecimal_Ok.
Qed.

(** C35 A registry accepted from a configuration is well formed, and so is the
    built-in one: every quantity step, quantity minimum and tick is positive (so no
    later validation can divide by zero) and every market is filed under its
    normalised symbol, where the queries look for it. *)
Theorem registries_well_formed :
  registry_ok defaultMarketRulesRegistry
  /\ forall config r, NewMarketRulesRegistryFromConfig config = Ok r -> registry_ok r.
Proof. split; [apply default_registry_ok | apply config_registry_ok]. Qed.

(** ** What the validations accept *)

(** [a] is an integer multiple of [step]. *)
Definition aligned_to (a step : Q) : Prop := exists k : Z, a == step * inject_Z k.

Lemma multiple_of_spec a b : 0 < dval b ->
  exists ok, multiple_of a b = Ok ok /\ (ok = true <-> aligned_to (dval a) (dval b)).
Proof.
  intros Hb. unfold multiple_of. destruct (Mod_dval a b) as (r & k & -> & Ha & Hr); [lra|].
  eexists. split; [done|]. rewrite IsZero_true. split.
  - intros Hz. exists k. rewrite Ha, Hz. lra.
  - intros [m Hm]. rewrite (Qabs_pos (dval b)) in Hr by lra.
    assert (Hd : dval r == dval b * inject_Z (m - k)).
    { unfold Z.sub. rewrite inject_Z_plus, inject_Z_opp. rewrite Hm in Ha. lra. }
    rewrite Hd, Qabs_Qmult, (Qabs_pos (dval b)) in Hr by lra.
    assert (Hlt : Qabs (inject_Z (m - k)) < 1).
    { apply (Qmult_lt_l _ _ (dval b)); [done|]. lra. }
    assert (m - k = 0)%Z as E.
    { unfold Qabs, inject_Z, Qlt in Hlt. cbn in Hlt. lia. }
    rewrite Hd, E. change (inject_Z 0) with 0. lra.
Qed.

Lemma KRWTickSize_in_ok l m p : Forall tick_ok l -> 0 < dval m -> 0 < dval (KRWTickSize_in l m p).
Proof. intros Hl Hm. induction Hl as [|t l [_ Ht] Hl IH]; cbn; [done|]. by case_goal. Qed.

Lemma lookupBaseQuantityPolicy_ok r c : registry_ok r -> policy_ok (lookupBaseQuantityPolicy r c).
Proof.
  intros Hr. unfold lookupBaseQuantityPolicy. destruct (_ !! _) as [p|] eqn:E; [|apply ro_default, Hr].
  by apply (ro_policies _ Hr) in E as (_ & _ & Hp).
Qed.

(** The tick that the published table of a market assigns to a price. *)
Fixpoint published_tick (l : list MarketTickRule) (p : Q) : option Q :=
  match l with
  | [] => None
  | t :: l' => match mt_UpperBound t with
               | None => Some (dval (mt_TickSize t))
               | Some b => if Qlt_le_dec p (dval b) then Some (dval (mt_TickSize t)) else published_tick l' p
               end
  end.

(** The limit orders a client expects to be accepted after reading the rules. *)
Definition published_accepts (m : MarketRules) (price amount : Q) : Prop :=
  m_TradingEnabled m = true
  /\ (exists tick, published_tick (m_TickRules m) price = Some tick /\ 0 < tick /\ aligned_to price tick)
  /\ dval (m_MinOrderQuantity m) <= amount /\ aligned_to amount (dval (m_BaseQuantityStep m))
  /\ (dval (m_MinOrderNotional m) <= price * amount \/ dval (m_MinOrderNotional m) <= 0).

Lemma published_tick_KRWTickSize l mx p :
  published_tick (map (fun rule => mkMarketTickRule (Some (upperBound rule)) (tickSize rule)) l
                  ++ [mkMarketTickRule None mx]) (dval p)
  = Some (dval (KRWTickSize_in l mx p)).
Proof.
  induction l as [|t l IH]; [done|]. cbn. destruct (Qlt_le_dec _ _) as [H|H].
  - by rewrite (proj2 (LessThan_true _ _) H).
  - by rewrite (proj2 (LessThan_false _ _) H).
Qed.

Lemma ValidateBaseQuantity_spec r c a : registry_ok r ->
  let p := lookupBaseQuantityPolicy r (normalizeCoinSymbol c) in
  (ValidateBaseQuantity r c a = Ok tt
     <-> dval (bq_MinOrderQuantity p) <= dval a /\ aligned_to (dval a) (dval (bq_BaseQuantityStep p)))
  /\ ValidateBaseQuantity r c a <> Err GoPanic.
Proof.
  intros Hr p. destruct (lookupBaseQuantityPolicy_ok r (normalizeCoinSymbol c) Hr) as [_ Hs].
  fold p in Hs. unfold ValidateBaseQuantity. fold p.
  destruct (multiple_of_spec a (bq_BaseQuantityStep p) Hs) as (ok & -> & Hok). cbn [mbind result_bind].
  destruct (LessThan a _) eqn:E; dec_prop.
  - split; [|done]. split; [done|]. intros [H _]. lra.
  - destruct ok; cbn [negb]; (split; [|done]); (split; [|]); try done.
    + intros _. split; [done|]. by apply Hok.
    + intros [_ H]. by apply Hok in H.
Qed.

Lemma TradingEnabled_normalized r c : TradingEnabled r (normalizeCoinSymbol c) = TradingEnabled r c.
Proof. unfold TradingEnabled, TradingStatus. by rewrite normalizeCoinSymbol_idem. Qed.

(** The published market rules tell the truth: for a well-formed registry, a
    limit order is accepted exactly when a client reading the rules of the market
    (status, tick table, minimum quantity, quantity step, minimum notional)
    expects it, and the validation never panics. *)
Theorem limit_order_rules_exact r coinSymbol m price amount : registry_ok r ->
  KRWMarketRules r coinSymbol = Ok m ->
  (ValidateLimitOrder r coinSymbol price amount = Ok tt <-> published_accepts m (dval price) (dval amount))
  /\ ValidateLimitOrder r coinSymbol price amount <> Err GoPanic.
Proof.
  intros Hr Hm. unfold KRWMarketRules in Hm. case_decide; [done|]. simplify_eq.
  assert (Htick : 0 < dval (KRWTickSize r price)) by (apply KRWTickSize_in_ok; apply Hr).
  destruct (multiple_of_spec price _ Htick) as (ok & Hok & Hal).
  destruct (ValidateBaseQuantity_spec r coinSymbol amount Hr) as [Hbq Hnp].
  unfold ValidateLimitOrder, ValidateTradingEnabled, IsValidKRWTickPrice, published_accepts.
  cbn [m_TradingEnabled m_TickRules m_MinOrderQuantity m_BaseQuantityStep m_MinOrderNotional].
  rewrite published_tick_KRWTickSize, Hok.
  change (bool_decide (TradingStatus r (normalizeCoinSymbol coinSymbol) = MarketStatusActive))
    with (TradingEnabled r (normalizeCoinSymbol coinSymbol)).
  destruct (TradingEnabled r _); cbn [negb mbind result_bind]; [|by split; [split; [done | intros [? _]]|]].
  destruct ok; cbn [negb].
  2: { split; [|done]. split; [done|]. intros (_ & (t & Ht & _ & Ha) & _). simplify_eq. by apply Hal in Ha. }
  destruct (ValidateBaseQuantity r coinSymbol amount) as [[]|e] eqn:E; cbn [mbind result_bind].
  2: { split; [|congruence]. split; [done|]. intros (_ & _ & H1 & H2 & _). discriminate (proj2 Hbq (conj H1 H2)). }
  assert (Hq := proj1 Hbq eq_refl).
  assert (Ht : exists tick, Some (dval (KRWTickSize_in (tickRules r) (maxTickSize r) price)) = Some tick
                 /\ 0 < tick /\ aligned_to (dval price) tick).
  { eexists. split; [done|]. split; [done|]. by apply Hal. }
  destruct (GreaterThan (minOrderNotional r) Zero) eqn:Eg; cbn [andb]; dec_prop; rewrite dval_Zero in Eg.
  - destruct (LessThan _ _) eqn:El; dec_prop; rewrite dval_Mul in El; (split; [|done]); (split; [|try done]).
    + done.
    + intros (_ & _ & _ & _ & Hn). lra.
    + intros _. destruct Hq. by auto 6.
  - split; [|done]. split; [|done]. intros _. destruct Hq. by auto 6.
Qed.

Lemma KRWTickSize_in_monotone l m p q :
  Forall (fun t => dval (tickSize t) <= dval m) l ->
  StronglySorted (fun s t => dval (tickSize s) <= dval (tickSize t)) l ->
  dval p <= dval q -> dval (KRWTickSize_in l m p) <= dval (KRWTickSize_in l m q).
Proof.
  intros Hm Hl Hpq. induction Hl as [|t l Hl IH Ht]; cbn; [lra|].
  apply Forall_cons in Hm as [Htm Hm].
  assert (Hhead : forall x, dval (tickSize t) <= dval (KRWTickSize_in l m x)).
  { intros x. clear -Ht Htm. induction Ht as [|s l Hs Ht IH]; cbn; [done|]. by case_goal. }
  destruct (LessThan p _) eqn:Ep, (LessThan q _) eqn:Eq; dec_prop; try lra; [apply Hhead | by apply IH].
Qed.

Ltac literal_le :=
  cbn [tickSize]; rewrite ?dval_NewFromInt;
  repeat match goal with |- context [dval (RequireFromString ?s)] =>
    erewrite (RequireFromString_literal s) by (vm_compute; reflexivity) end;
  vm_compute; discriminate.

(** In the built-in table a higher price never has a finer tick. *)
Lemma default_ticks_monotone p q : dval p <= dval q ->
  dval (KRWTickSize defaultMarketRulesRegistry p) <= dval (KRWTickSize defaultMarketRulesRegistry q).
Proof.
  assert (Hall : forall t l, Forall (fun s => dval (tickSize t) <= dval (tickSize s)) l ->
    StronglySorted (fun s t => dval (tickSize s) <= dval (tickSize t)) l ->
    StronglySorted (fun s t => dval (tickSize s) <= dval (tickSize t)) (t :: l)).
  { intros t l Ht Hl. by constructor. }
  apply KRWTickSize_in_monotone.
  - cbn [tickRules maxTickSize defaultMarketRulesRegistry NewDefaultMarketRulesRegistry].
    unfold krwTickRules. rewrite !Forall_cons. repeat split; try literal_le. done.
  - cbn [tickRules defaultMarketRulesRegistry NewDefaultMarketRulesRegistry]. unfold krwTickRules.
    repeat (apply Hall; [rewrite ?Forall_cons; repeat split; first [literal_le | done]|]). constructor.
Qed.
End Registry.

(** ** Concrete values *)

Module MarketRulesExamples.
Import FixedPoint.

Definition btc_rules : result error MarketRules := KRWMarketRules defaultMarketRulesRegistry " btc ".

Lemma limit_order_rules_exact_witness :
  exists m, btc_rules = Ok m /\
    (ValidateLimitOrder defaultMarketRulesRegistry " btc " (NewFromInt 5005) (NewFromInt 2) = Ok tt
       <-> published_accepts m (dval (NewFromInt 5005)) (dval (NewFromInt 2)))
    /\ ValidateLimitOrder defaultMarketRulesRegistry " btc " (NewFromInt 5005) (NewFromInt 2) <> Err GoPanic.
Proof.
  eexists. split; [reflexivity|].
  apply (limit_order_rules_exact defaultMarketRulesRegistry " btc "); [apply default_registry_ok | reflexivity].
Defined.

Example accepts_aligned :
  ValidateLimitOrder defaultMarketRulesRegistry " btc " (NewFromInt 5005) (NewFromInt 2) = Ok tt.
Proof. vm_compute. reflexivity. Qed.
Example rejects_halted :
  ValidateMarketBuyOrder defaultMarketRulesRegistry "halt" (NewFromInt 1)
  = Err (NewConflictErrorf "%s market is not accepting orders" ["HALT"]).
Proof. vm_compute. reflexivity. Qed.
Example rejects_unaligned :
  is_ok (ValidateLimitOrder defaultMarketRulesRegistry "XRP" (NewFromInt 5004) (NewFromInt 2)) = false.
Proof. vm_compute. reflexivity. Qed.
End MarketRulesExamples.
