(* ===== verification/Database.v ===== *)
(** * The database the services run on

    PostgreSQL through gorm, as the services see it: tables, sequences,
    statements that may fail, and transactions.  [World] is the database with a
    schedule of faults; every statement and every commit consumes one entry.
    A statement that fails leaves the connection's transaction to be rolled
    back; a commit may fail, or succeed with its acknowledgement lost.
    Sequences are not rolled back.  Transactions run one after the other: row
    locks have no further effect than that.

    Tables that are only ever inserted into are lists in insertion order;
    tables that are updated are maps by primary key. *)
From S2P Require Import Prelude Decimal Model Errors Matching.
From Stdlib Require Import Lia.

(** ** Rows: [internal/model] *)

(** [model.AccountType]: a string type with these constants. *)
Definition AccountUserAvailable : string := "USER_AVAILABLE".
Definition AccountUserLocked : string := "USER_LOCKED".
Definition AccountFeeIncome : string := "FEE_INCOME".
Definition AccountExternalBank : string := "EXTERNAL_BANK".
Definition AccountExternalChain : string := "EXTERNAL_CHAIN".
Definition AccountDevMint : string := "DEV_MINT".

Definition SystemAccountTypes : list string :=
  [AccountFeeIncome; AccountExternalBank; AccountExternalChain; AccountDevMint].
Definition negativeAllowedAccountTypes : list string :=
  [AccountExternalBank; AccountExternalChain; AccountDevMint].
Definition AllowsNegativeBalance (accountType : string) : bool :=
  bool_decide (accountType ∈ negativeAllowedAccountTypes).
Definition IsSystemAccountType (accountType : string) : bool :=
  bool_decide (accountType ∈ SystemAccountTypes).

(** [model.JournalEventType] and [model.JournalReferenceType] *)
Definition JournalEventDeposit : string := "DEPOSIT".
Definition JournalEventWithdrawal : string := "WITHDRAWAL".
Definition JournalEventOrderHold : string := "ORDER_HOLD".
Definition JournalEventOrderRelease : string := "ORDER_RELEASE".
Definition JournalEventTrade : string := "TRADE".
Definition JournalEventDevFund : string := "DEV_FUND".
Definition JournalEventReversal : string := "REVERSAL".
Definition JournalReferenceOrder : string := "ORDER".
Definition JournalReferenceTrade : string := "TRADE".
Definition JournalReferenceTransfer : string := "TRANSFER".
Definition JournalReferenceDevFund : string := "DEV_FUND".

Record Account := mkAccount {
  a_ID : N; a_AccountType : string; a_OwnerUserID : option N; a_Asset : string; a_AllowsNegative : bool }.

#[export] Instance Account_eq_dec : EqDecision Account.
Proof. solve_decision. Defined.

Record JournalEntry := mkJournalEntry {
  j_ID : N; j_EventType : string; j_IdempotencyKey : string; j_ReferenceType : string;
  j_ReferenceID : N; j_ReversesJournalID : option N }.

#[export] Instance JournalEntry_eq_dec : EqDecision JournalEntry.
Proof. solve_decision. Defined.

Inductive TradeOutboxEventType := OutboxTrade | OutboxMarketOrderDone | OutboxOrderCancelled.
Inductive TradeOutboxStatus := OutboxPending | OutboxProcessed.
#[export] Instance TradeOutboxStatus_eq_dec : EqDecision TradeOutboxStatus.
Proof. solve_decision. Defined.

Inductive FailedSettlementStatus := FailedSettlementStatusOpen | FailedSettlementStatusResolved.
#[export] Instance FailedSettlementStatus_eq_dec : EqDecision FailedSettlementStatus.
Proof. solve_decision. Defined.

Inductive OrderIdempotencyOutcome := OutcomePending | OutcomeAccepted | OutcomeRejected | OutcomeUnknown.
#[export] Instance Outcome_eq_dec : EqDecision OrderIdempotencyOutcome.
Proof. solve_decision. Defined.

Record OrderIdempotencyKey := mkIdempotencyKey {
  k_ID : N; k_UserID : N; k_IdempotencyKey : string; k_Fingerprint : string;
  k_FingerprintVersion : Z; k_OrderID : option N; k_Outcome : OrderIdempotencyOutcome }.

Inductive CancelCommandStatus := CommandPending | CommandProcessed | CommandNoop.
#[export] Instance CancelCommandStatus_eq_dec : EqDecision CancelCommandStatus.
Proof. solve_decision. Defined.

(** [model/transfer.go]; an unknown string is kept as it is, the CHECK constraint
    of the table refuses it. *)
Inductive TransferDirection := TransferDirectionDeposit | TransferDirectionWithdrawal.
Inductive TransferRail := TransferRailBank | TransferRailChain | TransferRailOther (value : string).
Inductive TransferStatus := TransferStatusReceived | TransferStatusProcessing | TransferStatusCompleted | TransferStatusFailed.
Inductive TransferOutcome :=
| TransferOutcomeSuccess | TransferOutcomeFailure | TransferOutcomePending | TransferOutcomeUnknown | TransferOutcomeOther (value : string).
Inductive TransferEventSource := TransferEventSourceCallback | TransferEventSourcePoll.
#[export] Instance TransferDirection_eq_dec : EqDecision TransferDirection.
Proof. solve_decision. Defined.
#[export] Instance TransferRail_eq_dec : EqDecision TransferRail.
Proof. solve_decision. Defined.
#[export] Instance TransferStatus_eq_dec : EqDecision TransferStatus.
Proof. solve_decision. Defined.
#[export] Instance TransferOutcome_eq_dec : EqDecision TransferOutcome.
Proof. solve_decision. Defined.

(** A value of a decoded JSON object, as far as the services look at it. *)
Inductive json := JString (s : string) | JOther (text : string).
Notation Payload := (gmap string json).

Record TransferStatusEvent := mkTransferStatusEvent {
  te_ID : N; te_TransferRequestID : N; te_Source : TransferEventSource; te_EventKey : string;
  te_Outcome : TransferOutcome; te_Payload : option Payload; te_ReceivedAt : Z }.

(** [model.ReconciliationViolation] *)
Record ReconciliationViolation := mkViolation {
  v_ID : N; v_CheckName : string; v_SubjectKey : string; v_Detail : string; v_DetectedAt : Z }.

(** Sequence values by table. *)
Notation Seqs := (gmap string N).

Section Database.
Context {DL : DecimalLib}.

Record AccountBalance := mkAccountBalance { b_Balance : decimal; b_LastPostingID : N }.

Record Posting := mkPosting {
  p_ID : N; p_JournalID : N; p_AccountID : N; p_Asset : string; p_Amount : decimal }.

Record CancelCommandRow := mkCancelCommand {
  cmd_ID : N; cmd_OrderID : N; cmd_UserID : N; cmd_CoinSymbol : string; cmd_Side : OrderSide;
  cmd_Price : decimal; cmd_Status : CancelCommandStatus; cmd_AttemptCount : Z; cmd_LastError : string }.

Record TransferRequest := mkTransferRequest {
  tq_ID : N; tq_UserID : N; tq_Direction : TransferDirection; tq_Rail : TransferRail; tq_Asset : string;
  tq_Amount : decimal; tq_FeeAmount : decimal; tq_FeeAsset : string; tq_Status : TransferStatus;
  tq_ClientRequestKey : string; tq_ExternalRef : option string; tq_ResolutionJournalID : option N;
  tq_HoldJournalID : option N; tq_LastCheckedAt : option Z; tq_NextCheckAt : option Z; tq_CheckAttempts : Z;
  tq_ReviewRequiredAt : option Z; tq_ReviewReason : option string; tq_FailureReason : string; tq_CreatedAt : Z }.

#[export] Instance TransferRequest_settable : Settable TransferRequest := fun r =>
  mkTransferRequest (tq_ID r) (tq_UserID r) (tq_Direction r) (tq_Rail r) (tq_Asset r) (tq_Amount r) (tq_FeeAmount r)
    (tq_FeeAsset r) (tq_Status r) (tq_ClientRequestKey r) (tq_ExternalRef r) (tq_ResolutionJournalID r)
    (tq_HoldJournalID r) (tq_LastCheckedAt r) (tq_NextCheckAt r) (tq_CheckAttempts r) (tq_ReviewRequiredAt r)
    (tq_ReviewReason r) (tq_FailureReason r) (tq_CreatedAt r).

(** [model.TradeOutboxEvent].  The payload is the event its JSON decodes to,
    [None] when it does not decode. *)
Record TradeOutboxEvent := mkOutboxRow {
  ob_EventType : TradeOutboxEventType; ob_CoinSymbol : string; ob_EngineEventID : string;
  ob_Payload : option ExecutionEvent; ob_Status : TradeOutboxStatus }.

#[export] Instance TradeOutboxEvent_settable : Settable TradeOutboxEvent := fun r =>
  mkOutboxRow (ob_EventType r) (ob_CoinSymbol r) (ob_EngineEventID r) (ob_Payload r) (ob_Status r).

Definition processed (row : TradeOutboxEvent) : TradeOutboxEvent := row <| ob_Status := OutboxProcessed |>.

(** [model.FailedSettlement], without the columns that only record times. *)
Record FailedSettlement := mkFailedSettlement {
  fs_ID : N; fs_TradeIdempotencyKey : string; fs_EngineSequence : Z; fs_EngineEventID : string; fs_TradedAt : option Z;
  fs_CoinSymbol : string; fs_BuyOrderID : N; fs_SellOrderID : N; fs_Price : decimal; fs_Quantity : decimal;
  fs_BuyerFee : decimal; fs_SellerFee : decimal; fs_FeeRate : decimal; fs_ErrorMessage : string;
  fs_Status : FailedSettlementStatus; fs_RetryCount : N; fs_OccurredAt : Z;
  fs_Resolution : string; fs_ResolvedBy : string; fs_Notes : string }.

#[export] Instance FailedSettlement_settable : Settable FailedSettlement := fun r =>
  mkFailedSettlement (fs_ID r) (fs_TradeIdempotencyKey r) (fs_EngineSequence r) (fs_EngineEventID r) (fs_TradedAt r)
    (fs_CoinSymbol r) (fs_BuyOrderID r) (fs_SellOrderID r) (fs_Price r) (fs_Quantity r) (fs_BuyerFee r) (fs_SellerFee r)
    (fs_FeeRate r) (fs_ErrorMessage r) (fs_Status r) (fs_RetryCount r) (fs_OccurredAt r) (fs_Resolution r) (fs_ResolvedBy r) (fs_Notes r).

(** [model.FailedMarketCompletion] *)
Record FailedMarketCompletion := mkFailedCompletion {
  fm_ID : N; fm_OrderID : N; fm_CoinSymbol : string; fm_FilledAmount : decimal; fm_FilledQuoteAmount : decimal;
  fm_RemainingQuoteAmount : decimal; fm_ErrorMessage : string; fm_Status : FailedSettlementStatus; fm_RetryCount : N;
  fm_OccurredAt : Z; fm_Resolution : string }.

#[export] Instance FailedMarketCompletion_settable : Settable FailedMarketCompletion := fun r =>
  mkFailedCompletion (fm_ID r) (fm_OrderID r) (fm_CoinSymbol r) (fm_FilledAmount r) (fm_FilledQuoteAmount r) (fm_RemainingQuoteAmount r)
    (fm_ErrorMessage r) (fm_Status r) (fm_RetryCount r) (fm_OccurredAt r) (fm_Resolution r).

(** [model.FailedOrderCancellation] *)
Record FailedOrderCancellation := mkFailedCancellation {
  fc_ID : N; fc_OrderID : N; fc_OutboxEventID : N; fc_CoinSymbol : string; fc_Side : OrderSide; fc_EngineEventID : string;
  fc_ErrorMessage : string; fc_Status : FailedSettlementStatus; fc_RetryCount : N; fc_OccurredAt : Z; fc_Resolution : string }.

#[export] Instance FailedOrderCancellation_settable : Settable FailedOrderCancellation := fun r =>
  mkFailedCancellation (fc_ID r) (fc_OrderID r) (fc_OutboxEventID r) (fc_CoinSymbol r) (fc_Side r) (fc_EngineEventID r)
    (fc_ErrorMessage r) (fc_Status r) (fc_RetryCount r) (fc_OccurredAt r) (fc_Resolution r).

Record Tables := mkTables {
  tb_accounts : list Account;
  tb_balances : gmap N AccountBalance;
  tb_journals : list JournalEntry;
  tb_postings : list Posting;
  tb_stats : gmap (N * string) decimal;
  tb_orders : gmap N OrderRow;
  tb_trades : list Trade;
  tb_outbox : gmap N TradeOutboxEvent;
  tb_idempotency : gmap N OrderIdempotencyKey;
  tb_commands : gmap N CancelCommandRow;
  tb_transfers : gmap N TransferRequest;
  tb_transfer_events : list TransferStatusEvent;
  tb_failed_settlements : gmap N FailedSettlement;
  tb_failed_completions : gmap N FailedMarketCompletion;
  tb_failed_cancellations : gmap N FailedOrderCancellation;
  tb_violations : list ReconciliationViolation }.

#[export] Instance Tables_settable : Settable Tables := fun t =>
  mkTables (tb_accounts t) (tb_balances t) (tb_journals t) (tb_postings t) (tb_stats t) (tb_orders t)
    (tb_trades t) (tb_outbox t) (tb_idempotency t) (tb_commands t) (tb_transfers t) (tb_transfer_events t)
    (tb_failed_settlements t) (tb_failed_completions t) (tb_failed_cancellations t) (tb_violations t).

Definition empty_tables : Tables := mkTables [] ∅ [] [] ∅ ∅ [] ∅ ∅ ∅ ∅ [] ∅ ∅ ∅ [].

(** What happens to the next statement or commit. *)
Inductive fault := Fine | Fails (sqlstate : string) | Lost.

Record World := mkWorld { w_tables : Tables; w_seqs : Seqs; w_faults : list fault }.

(** ** Computations: a Go function on a [*gorm.DB] *)

Definition M (A : Type) : Type := World -> result error A * World.

#[export] Instance M_ret : MRet M := fun A a w => (Ok a, w).
#[export] Instance M_bind : MBind M := fun A B k m w =>
  match m w with (Ok a, w') => k a w' | (Err e, w') => (Err e, w') end.

Definition throw {A} (e : error) : M A := fun w => (Err e, w).
Definition lift {A} (r : result error A) : M A := fun w => (r, w).
Definition get_db : M Tables := fun w => (Ok (w_tables w), w).
Definition put_db (t : Tables) : M unit := fun w => (Ok tt, mkWorld t (w_seqs w) (w_faults w)).
Definition modify_db (f : Tables -> Tables) : M unit := fun w =>
  (Ok tt, mkWorld (f (w_tables w)) (w_seqs w) (w_faults w)).

(** The round trip of one SQL statement. *)
Definition stmt : M unit := fun w =>
  match w_faults w with
  | [] => (Ok tt, w)
  | Fine :: fs => (Ok tt, mkWorld (w_tables w) (w_seqs w) fs)
  | Fails code :: fs => (Err (DBError code), mkWorld (w_tables w) (w_seqs w) fs)
  | Lost :: fs => (Err (DBError ""), mkWorld (w_tables w) (w_seqs w) fs)
  end.

(** A statement with parameters: the protocol of PostgreSQL carries at most 65,535 of
    them, and the driver refuses a statement with more. *)
Definition maxStatementParameters : Z := 65535.
Definition stmt_with (parameters : Z) : M unit :=
  if (maxStatementParameters <? parameters)%Z then throw (Errorf "extended protocol limited to 65535 parameters" []) else stmt.

(** [nextval] of a table's id sequence. *)
Definition seq_value (s : Seqs) (table : string) : N := default 0%N (s !! table).
Definition nextval (table : string) : M N := fun w =>
  let id := (seq_value (w_seqs w) table + 1)%N in
  (Ok id, mkWorld (w_tables w) (<[table := id]> (w_seqs w)) (w_faults w)).

(** A query: one statement that reads. *)
Definition query {A} (f : Tables -> A) : M A := _ ← stmt; t ← get_db; mret (f t).

(** [db.Transaction(func(tx) error {...})] *)
Definition transaction {A} (body : M A) : M A := fun w =>
  match stmt w with
  | (Err e, w1) => (Err e, w1)
  | (Ok _, w1) =>
      match body w1 with
      | (Err e, w2) => (Err e, mkWorld (w_tables w) (w_seqs w2) (w_faults w2))
      | (Ok a, w2) =>
          match w_faults w2 with
          | [] => (Ok a, w2)
          | Fine :: fs => (Ok a, mkWorld (w_tables w2) (w_seqs w2) fs)
          | Fails code :: fs => (Err (DBError code), mkWorld (w_tables w) (w_seqs w2) fs)
          | Lost :: fs => (Err (DBError ""), mkWorld (w_tables w2) (w_seqs w2) fs)
          end
      end
  end.

(** A Go [for] loop over a slice that stops at the first error. *)
Fixpoint for_each {A} (f : A -> M unit) (l : list A) : M unit :=
  match l with [] => mret tt | x :: l' => _ ← f x; for_each f l' end.
Fixpoint map_each {A B} (f : A -> M B) (l : list A) : M (list B) :=
  match l with [] => mret [] | x :: l' => y ← f x; ys ← map_each f l'; mret (y :: ys) end.

(** ** Weakest preconditions

    [wp m Q E t s]: from tables [t] and sequences [s], under every fault
    schedule, [m] either returns a value with [Q] on the result, fails with a
    database error of the schedule, or fails with an error satisfying [E];
    sequences never go back, and what is left of the schedule is an end of it. *)

Definition seq_le (s s' : Seqs) : Prop := forall table, (seq_value s table <= seq_value s' table)%N.

Definition is_db (e : error) : Prop := exists code, e = DBError code.

Definition wp {A} (m : M A) (Q : A -> Tables -> Seqs -> Prop) (E : error -> Prop) (t : Tables) (s : Seqs) : Prop :=
  forall fs, let '(r, w') := m (mkWorld t s fs) in
    seq_le s (w_seqs w') /\ w_faults w' `suffix_of` fs /\
    match r with
    | Ok a => Q a (w_tables w') (w_seqs w')
    | Err e => (is_db e /\ fs <> []) \/ E e
    end.

Lemma seq_le_refl s : seq_le s s.
Proof. intros x. lia. Qed.
Lemma seq_le_trans s1 s2 s3 : seq_le s1 s2 -> seq_le s2 s3 -> seq_le s1 s3.
Proof. intros H1 H2 x. specialize (H1 x). specialize (H2 x). lia. Qed.

Lemma wp_ret {A} (a : A) (Q : A -> Tables -> Seqs -> Prop) E t s : Q a t s -> wp (mret a) Q E t s.
Proof. intros H fs. split; [apply seq_le_refl | done]. Qed.

Lemma wp_bind {A B} (m : M A) (k : A -> M B) Q E t s :
  wp m (fun a t' s' => wp (k a) Q E t' s') E t s -> wp (m ≫= k) Q E t s.
Proof.
  intros H fs. specialize (H fs). unfold mbind, M_bind. destruct (m (mkWorld t s fs)) as [[a|e] [t' s' fs']]; [|done].
  destruct H as (Hs & Hf & H). specialize (H fs'). cbn [w_tables w_seqs w_faults] in *.
  destruct (k a _) as [r w'']. destruct H as (Hs' & Hf' & H). split; [by eapply seq_le_trans|].
  split; [by etrans|]. destruct r as [b|e]; [done|]. destruct H as [[Hdb Hne]|H]; [left | by right].
  split; [done|]. intros ->. by apply Hne, suffix_nil_inv.
Qed.

Lemma wp_mono {A} (m : M A) (Q Q' : A -> Tables -> Seqs -> Prop) (E E' : error -> Prop) t s :
  wp m Q E t s -> (forall a t' s', seq_le s s' -> Q a t' s' -> Q' a t' s') -> (forall e, E e -> E' e) ->
  wp m Q' E' t s.
Proof.
  intros H HQ HE fs. specialize (H fs). destruct (m _) as [[a|e] w']; destruct H as (Hs & Hf & H); (split; [done|]); (split; [done|]).
  - by apply HQ.
  - destruct H as [H|H]; [by left | right; by apply HE].
Qed.

Lemma wp_stmt (Q : unit -> Tables -> Seqs -> Prop) E t s : Q tt t s -> wp stmt Q E t s.
Proof.
  intros H fs. unfold stmt. cbn [w_faults]. destruct fs as [|[] fs]; (split; [apply seq_le_refl|]); (split; [cbn; solve_suffix|]);
    cbn; try done; left; (split; [by eexists | done]).
Qed.

Lemma wp_throw {A} e (Q : A -> Tables -> Seqs -> Prop) (E : error -> Prop) t s : E e -> wp (throw e) Q E t s.
Proof. intros H fs. split; [apply seq_le_refl|]. split; [done | by right]. Qed.

Lemma wp_lift {A} (r : result error A) (Q : A -> Tables -> Seqs -> Prop) (E : error -> Prop) t s :
  match r with Ok a => Q a t s | Err e => E e end -> wp (lift r) Q E t s.
Proof. intros H fs. cbn. split; [apply seq_le_refl|]. split; [done|]. destruct r; [done | by right]. Qed.

Lemma wp_get (Q : Tables -> Tables -> Seqs -> Prop) E t s : Q t t s -> wp get_db Q E t s.
Proof. intros H fs. split; [apply seq_le_refl | done]. Qed.

Lemma wp_put t' (Q : unit -> Tables -> Seqs -> Prop) E t s : Q tt t' s -> wp (put_db t') Q E t s.
Proof. intros H fs. split; [apply seq_le_refl | done]. Qed.

Lemma wp_modify f (Q : unit -> Tables -> Seqs -> Prop) E t s : Q tt (f t) s -> wp (modify_db f) Q E t s.
Proof. intros H fs. split; [apply seq_le_refl | done]. Qed.

Lemma wp_query {A} (f : Tables -> A) (Q : A -> Tables -> Seqs -> Prop) E t s : Q (f t) t s -> wp (query f) Q E t s.
Proof. intros H. apply wp_bind, wp_stmt, wp_bind, wp_get, wp_ret, H. Qed.

Lemma seq_value_insert s x id : seq_value (<[x := id]> s) x = id.
Proof. unfold seq_value. by rewrite lookup_insert_eq. Qed.
Lemma seq_value_insert_ne s x y id : x <> y -> seq_value (<[x := id]> s) y = seq_value s y.
Proof. intros H. unfold seq_value. by rewrite lookup_insert_ne. Qed.

Lemma wp_nextval x (Q : N -> Tables -> Seqs -> Prop) E t s :
  (forall s', seq_le s s' -> (forall y, x <> y -> seq_value s' y = seq_value s y) ->
     seq_value s' x = (seq_value s x + 1)%N -> Q (seq_value s x + 1)%N t s') ->
  wp (nextval x) Q E t s.
Proof.
  intros H fs. cbn. set (s' := <[x := _]> s).
  assert (Hx : seq_value s' x = (seq_value s x + 1)%N) by apply seq_value_insert.
  assert (Hy : forall y, x <> y -> seq_value s' y = seq_value s y) by (intros; by apply seq_value_insert_ne).
  assert (Hs : seq_le s s'). { intros y. destruct (decide (x = y)) as [<-|]; [lia | rewrite Hy; [lia | done]]. }
  split; [done|]. split; [done|]. by apply H.
Qed.

(** A loop, by an invariant over the processed and remaining elements. *)
Lemma wp_for_each {A} (f : A -> M unit) (I : list A -> Tables -> Seqs -> Prop) E l t s :
  (forall x l' t s, I (x :: l') t s -> wp (f x) (fun _ t' s' => I l' t' s') E t s) ->
  I l t s -> wp (for_each f l) (fun _ t' s' => I [] t' s') E t s.
Proof.
  intros Hf. revert t s. induction l as [|x l IH]; intros t s HI; cbn [for_each].
  - by apply wp_ret.
  - apply wp_bind. eapply wp_mono; [by apply Hf | | done]. intros a t' s' _ H. by apply IH.
Qed.

(** ** Transactions *)

(** What a transaction leaves behind: the body's result, or the tables it
    started from; both only when an acknowledgement is lost. *)
Lemma transaction_wp_lost {A} (body : M A) Q E t s fs : wp body Q E t s ->
  let '(r, w') := transaction body (mkWorld t s fs) in
  seq_le s (w_seqs w') /\ w_faults w' `suffix_of` fs /\
  match r with
  | Ok a => Q a (w_tables w') (w_seqs w')
  | Err e => w_tables w' = t /\ ((is_db e /\ fs <> []) \/ E e)
             \/ e = DBError "" /\ Lost ∈ fs /\ exists a, Q a (w_tables w') (w_seqs w')
  end.
Proof.
  intros H. unfold transaction, stmt. assert (Hb : forall fs1, fs1 `suffix_of` fs ->
    let '(r, w') := match body (mkWorld t s fs1) with
      | (Err e, w2) => (Err e, mkWorld t (w_seqs w2) (w_faults w2))
      | (Ok a, w2) => match w_faults w2 with
          | [] => (Ok a, w2)
          | Fine :: fs => (Ok a, mkWorld (w_tables w2) (w_seqs w2) fs)
          | Fails code :: fs => (Err (DBError code), mkWorld t (w_seqs w2) fs)
          | Lost :: fs => (Err (DBError ""), mkWorld (w_tables w2) (w_seqs w2) fs)
          end end in
    seq_le s (w_seqs w') /\ w_faults w' `suffix_of` fs /\
    match r with
    | Ok a => Q a (w_tables w') (w_seqs w')
    | Err e => w_tables w' = t /\ ((is_db e /\ fs <> []) \/ E e)
               \/ e = DBError "" /\ Lost ∈ fs /\ exists a, Q a (w_tables w') (w_seqs w')
    end).
  { intros fs1 Hfs. specialize (H fs1). destruct (body _) as [[a|e] [t' s' fs2]]; destruct H as (Hs & Hf & H);
      cbn [w_faults w_tables w_seqs] in *.
    - assert (Hsuf : fs2 `suffix_of` fs) by (by etrans). destruct fs2 as [|f fs2]; [done|].
      assert (Hf2 : fs2 `suffix_of` fs) by (by eapply suffix_cons_l). assert (Hin : f ∈ fs) by (destruct Hsuf as [k ->]; apply elem_of_app; right; by left).
      destruct f as [|code|]; cbn; (split; [done|]); (split; [done|]); [done| |].
      + left. split; [done|]. left. split; [by eexists|]. intros ->. by apply elem_of_nil in Hin.
      + right. split; [done|]. split; [done | by exists a].
    - split; [done|]. split; [by etrans|]. left. split; [done|]. destruct H as [[? Hne]|?]; [left | by right].
      split; [done|]. intros ->. by apply Hne, suffix_nil_inv. }
  destruct fs as [|[|code|] fs0]; cbn [w_faults w_tables w_seqs].
  - by apply (Hb []).
  - apply (Hb fs0). solve_suffix.
  - split; [apply seq_le_refl|]. split; [solve_suffix|]. left. split; [done|]. left. split; [by eexists | done].
  - split; [apply seq_le_refl|]. split; [solve_suffix|]. left. split; [done|]. left. split; [by eexists | done].
Qed.

Lemma transaction_wp {A} (body : M A) Q E t s fs : wp body Q E t s ->
  let '(r, w') := transaction body (mkWorld t s fs) in
  seq_le s (w_seqs w') /\ (fs = [] -> w_faults w' = []) /\
  match r with
  | Ok a => Q a (w_tables w') (w_seqs w')
  | Err e => w_tables w' = t /\ ((is_db e /\ fs <> []) \/ E e)
             \/ e = DBError "" /\ fs <> [] /\ exists a, Q a (w_tables w') (w_seqs w')
  end.
Proof.
  intros H. pose proof (transaction_wp_lost body Q E t s fs H) as Ht. destruct (transaction _ _) as [r w']. destruct Ht as (Hs & Hf & Ht).
  split; [done|]. split; [intros ->; by apply suffix_nil_inv|]. destruct r as [a|e]; [done|]. destruct Ht as [Ht|(He & Hl & Ht)]; [by left|right].
  split; [done|]. split; [|done]. intros ->. by apply elem_of_nil in Hl.
Qed.

(** [I] survives every transaction whose body keeps it, whatever happens. *)
Lemma transaction_keeps {A} (body : M A) (I : Tables -> Seqs -> Prop) w :
  (forall t s s', seq_le s s' -> I t s -> I t s') ->
  I (w_tables w) (w_seqs w) ->
  wp body (fun _ t' s' => I t' s') (fun _ => True) (w_tables w) (w_seqs w) ->
  I (w_tables (transaction body w).2) (w_seqs (transaction body w).2).
Proof.
  intros Hmono HI H. destruct w as [t s fs]. pose proof (transaction_wp body _ _ t s fs H) as Ht.
  cbn [w_tables w_seqs] in HI. destruct (transaction body _) as [[a|e] w']; destruct Ht as (Hs & _ & Ht); [done|].
  cbn [snd].
  destruct Ht as [[-> _]|(_ & _ & _ & Ht)]; [by eapply Hmono | done].
Qed.
End Database.
