(* ===== verification/Ledger.v ===== *)
(** * The double-entry ledger

    [repository/account_repository.go], [repository/journal_repository.go] and
    [service/ledger_service.go]: accounts with a cached balance, journal entries
    under unique idempotency keys, and [Record], the only operation that writes
    postings. *)
From S2P Require Import Prelude Decimal Model Errors Fee Database.
From Stdlib Require Import Lia.

(** An account by value: type, owner (0 for a system account), asset. *)
Definition accountKey : Type := string * (N * string).
Definition ownerValue (ownerUserID : option N) : N := default 0%N ownerUserID.
Definition newAccountKey (accountType : string) (ownerUserID : option N) (asset : string) : accountKey :=
  (accountType, (ownerValue ownerUserID, asset)).

Record AccountSpec := mkAccountSpec { s_AccountType : string; s_OwnerUserID : option N; s_Asset : string }.
Definition spec_key (s : AccountSpec) : accountKey := newAccountKey (s_AccountType s) (s_OwnerUserID s) (s_Asset s).
Definition account_key (a : Account) : accountKey := newAccountKey (a_AccountType a) (a_OwnerUserID a) (a_Asset a).

Definition key_le : relation accountKey := lex_le String.le (lex_le N.le String.le).

(** A posting as [assertSameJournal] compares it. *)
Definition postingTuple : Type := string * (N * (string * string)).
Definition tuple_le : relation postingTuple := lex_le String.le (lex_le N.le (lex_le String.le String.le)).
Definition sortPostingTuples (tuples : list postingTuple) : list postingTuple := merge_sort tuple_le tuples.

Definition sort_ids (ids : list N) : list N := merge_sort N.le ids.

Section Ledger.
Context {DL : DecimalLib}.

Record PostingInput := mkPostingInput {
  pi_AccountType : string; pi_OwnerUserID : option N; pi_Asset : string; pi_Amount : decimal }.
Definition posting_key (p : PostingInput) : accountKey :=
  newAccountKey (pi_AccountType p) (pi_OwnerUserID p) (pi_Asset p).

Record JournalInput := mkJournalInput {
  in_EventType : string; in_IdempotencyKey : string; in_ReferenceType : string; in_ReferenceID : N;
  in_ReversesJournalID : option N; in_Postings : list PostingInput }.

(** ** Account repository *)

(** Keep the first spec of every key. *)
Fixpoint dedupe_specs (seen : gset accountKey) (specs : list AccountSpec) : list AccountSpec :=
  match specs with
  | [] => []
  | spec :: specs' =>
      if decide (spec_key spec ∈ seen) then dedupe_specs seen specs'
      else spec :: dedupe_specs ({[spec_key spec]} ∪ seen) specs'
  end.

Definition spec_le (a b : AccountSpec) : Prop := key_le (spec_key a) (spec_key b).
#[export] Instance spec_le_dec : RelDecision spec_le.
Proof. intros a b. unfold spec_le, key_le. apply _. Defined.

(** CHECK constraints of the accounts table. *)
Definition user_account_types : list string := [AccountUserAvailable; AccountUserLocked].
Definition account_checks (accountType : string) (owner : option N) : bool :=
  (bool_decide (accountType ∈ user_account_types) && bool_decide (owner <> None))
  || (bool_decide (accountType ∈ SystemAccountTypes) && bool_decide (owner = None)).

(** One row of INSERT ... ON CONFLICT DO NOTHING into accounts. *)
Definition insert_account (spec : AccountSpec) : M unit :=
  id ← nextval "accounts";
  if negb (account_checks (s_AccountType spec) (s_OwnerUserID spec))
  then throw (ConstraintViolation "accounts_owner_presence_check")
  else modify_db (fun t =>
    if decide (spec_key spec ∈ map account_key (tb_accounts t)) then t
    else t <| tb_accounts := tb_accounts t ++
                [mkAccount id (s_AccountType spec) (s_OwnerUserID spec) (s_Asset spec)
                   (AllowsNegativeBalance (s_AccountType spec))] |>).

Definition findBySpecs (specs : list AccountSpec) : M (list Account) :=
  query (fun t => filter (fun a => account_key a ∈ map spec_key specs) (tb_accounts t)).

(** INSERT of zero rows into account_balances, ON CONFLICT DO NOTHING. *)
Definition insert_balance (t : Tables) (id : N) : Tables :=
  match tb_balances t !! id with
  | Some _ => t
  | None => t <| tb_balances := <[id := mkAccountBalance Zero 0]> (tb_balances t) |>
  end.
Definition ensureBalanceRows (accountIDs : list N) : M unit :=
  _ ← stmt; modify_db (fun t => foldl insert_balance t accountIDs).

Definition EnsureAccounts (specs : list AccountSpec) : M (list Account) :=
  match specs with
  | [] => mret []
  | _ =>
      let unique := merge_sort spec_le (dedupe_specs ∅ specs) in
      _ ← stmt;
      _ ← for_each insert_account unique;
      accounts ← findBySpecs unique;
      if decide (length accounts <> length unique)
      then throw (Errorf "ensure accounts expected %d rows, found %d" [pretty (length unique); pretty (length accounts)])
      else
        _ ← ensureBalanceRows (sort_ids (map a_ID accounts));
        mret accounts
  end.

(** SELECT ... WHERE account_id IN ids ORDER BY account_id FOR UPDATE *)
Definition select_balances (t : Tables) (ids : list N) : list (N * AccountBalance) :=
  omap (fun id => pair id <$> tb_balances t !! id) (sort_ids (remove_dups ids)).

Definition LockBalances (accountIDs : list N) : M (list (N * AccountBalance)) :=
  match accountIDs with
  | [] => mret []
  | _ =>
      balances ← query (fun t => select_balances t accountIDs);
      if decide (length balances <> length accountIDs)
      then throw (Errorf "balance lock expected %d rows, locked %d" [pretty (length accountIDs); pretty (length balances)])
      else mret balances
  end.

(** ** Journal repository *)

Record BalanceDelta := mkBalanceDelta { bd_AccountID : N; bd_Delta : decimal; bd_LastPostingID : N }.

Definition journal_event_types : list string :=
  [JournalEventDeposit; JournalEventWithdrawal; JournalEventOrderHold; JournalEventOrderRelease;
   JournalEventTrade; JournalEventDevFund; JournalEventReversal].
Definition journal_reference_types : list string :=
  [JournalReferenceOrder; JournalReferenceTrade; JournalReferenceTransfer; JournalReferenceDevFund].

(** CHECK, FOREIGN KEY and the unique index on reverses_journal_id. *)
Definition journal_violation (t : Tables) (e : JournalEntry) : option string :=
  if negb (bool_decide (j_EventType e ∈ journal_event_types)) then Some "journal_entries_event_type_check"%string
  else if negb (bool_decide (j_ReferenceType e ∈ journal_reference_types)) then Some "journal_entries_reference_type_check"%string
  else if negb (eqb (bool_decide (j_EventType e = JournalEventReversal)) (bool_decide (j_ReversesJournalID e <> None)))
  then Some "journal_entries_reversal_pair_check"%string
  else match j_ReversesJournalID e with
       | None => None
       | Some orig =>
           if bool_decide (Some orig ∈ map j_ReversesJournalID (tb_journals t)) then Some "idx_journal_entries_reverses"%string
           else if negb (bool_decide (orig ∈ map j_ID (tb_journals t))) then Some "journal_entries_reverses_fk"%string
           else None
       end.

Definition find_journal (t : Tables) (key : string) : option JournalEntry :=
  list_find (fun e => j_IdempotencyKey e = key) (tb_journals t) ≫= (fun x => Some x.2).

(** INSERT ... ON CONFLICT (idempotency_key) DO NOTHING; the existing entry when
    the key is taken. *)
Definition InsertOrGet (entry : JournalEntry) : M (JournalEntry * bool) :=
  _ ← stmt;
  id ← nextval "journal_entries";
  t ← get_db;
  let row := mkJournalEntry id (j_EventType entry) (j_IdempotencyKey entry) (j_ReferenceType entry)
               (j_ReferenceID entry) (j_ReversesJournalID entry) in
  match find_journal t (j_IdempotencyKey entry) with
  | None =>
      match journal_violation t row with
      | Some name => throw (ConstraintViolation name)
      | None => _ ← put_db (t <| tb_journals := tb_journals t ++ [row] |>); mret (row, true)
      end
  | Some _ =>
      found ← query (fun t => find_journal t (j_IdempotencyKey entry));
      match found with
      | None => throw (Errorf "journal %q conflicted but was not found" [j_IdempotencyKey entry])
      | Some existing => mret (existing, false)
      end
  end.

(** One row of INSERT into postings. *)
Definition insert_posting (p : Posting) : M Posting :=
  id ← nextval "postings";
  t ← get_db;
  let row := mkPosting id (p_JournalID p) (p_AccountID p) (p_Asset p) (p_Amount p) in
  if IsZero (p_Amount p) then throw (ConstraintViolation "postings_amount_nonzero_check")
  else if negb (bool_decide (p_JournalID p ∈ map j_ID (tb_journals t))) then throw (ConstraintViolation "postings_journal_fk")
  else if negb (bool_decide (p_AccountID p ∈ map a_ID (tb_accounts t))) then throw (ConstraintViolation "postings_account_fk")
  else _ ← put_db (t <| tb_postings := tb_postings t ++ [row] |>); mret row.

(** The rows with their new ids, which gorm writes back into the slice. *)
Definition CreatePostings (rows : list Posting) : M (list Posting) :=
  match rows with
  | [] => throw (Errorf "at least one posting is required" [])
  | _ => _ ← stmt; map_each insert_posting rows
  end.

Definition apply_delta (acc : gmap N AccountBalance * Z) (d : BalanceDelta) : gmap N AccountBalance * Z :=
  match acc.1 !! bd_AccountID d with
  | None => acc
  | Some b => (<[bd_AccountID d := mkAccountBalance (Add (b_Balance b) (bd_Delta d))
                                     (N.max (b_LastPostingID b) (bd_LastPostingID d))]> acc.1, acc.2 + 1)
  end.

(** UPDATE account_balances ... FROM (VALUES ...); the ids are distinct. *)
Definition ApplyBalanceDeltas (deltas : list BalanceDelta) : M unit :=
  match deltas with
  | [] => mret tt
  | _ =>
      _ ← stmt;
      t ← get_db;
      let '(rows, affected) := foldl apply_delta (tb_balances t, 0) deltas in
      _ ← put_db (t <| tb_balances := rows |>);
      if decide (affected <> Z.of_nat (length deltas))
      then throw (Errorf "balance delta update affected %d rows, expected %d" [pretty affected; pretty (length deltas)])
      else mret tt
  end.

Definition FindPostingsByJournalID (journalID : N) : M (list Posting) :=
  query (fun t => filter (fun p => p_JournalID p = journalID) (tb_postings t)).

(** ** Ledger service *)

(** Go's [m[k] = m[k].Add(d)] on a map of decimals. *)
Definition add_to {K} `{Countable K} (m : gmap K decimal) (k : K) (d : decimal) : gmap K decimal :=
  <[k := Add (default Zero (m !! k)) d]> m.

Fixpoint check_postings (sums : gmap string decimal) (l : list PostingInput) : result error (gmap string decimal) :=
  match l with
  | [] => Ok sums
  | posting :: l' =>
      if decide (pi_Asset posting = "") then Err (NewValidationErrorf "posting asset is required" [])
      else if IsZero (pi_Amount posting) then Err (NewValidationErrorf "posting amount must not be zero" [])
      else if negb (eqb (IsSystemAccountType (pi_AccountType posting)) (bool_decide (pi_OwnerUserID posting = None)))
      then Err (NewValidationErrorf "account %s has the wrong owner" [pi_AccountType posting])
      else check_postings (add_to sums (pi_Asset posting) (pi_Amount posting)) l'
  end.

Fixpoint check_sums (l : list (string * decimal)) : result error unit :=
  match l with
  | [] => Ok tt
  | (asset, sum) :: l' =>
      if negb (IsZero sum) then Err (NewValidationErrorf "journal does not balance for %s: %s" [asset; DString sum])
      else check_sums l'
  end.

Definition validateJournalInput (i : JournalInput) : result error unit :=
  if decide (in_IdempotencyKey i = "") then Err (NewValidationErrorf "idempotency key is required" [])
  else if decide (in_EventType i = "") then Err (NewValidationErrorf "event type is required" [])
  else if decide (in_ReferenceType i = "") then Err (NewValidationErrorf "reference type is required" [])
  else if decide (length (in_Postings i) < 2)%nat then Err (NewValidationErrorf "a journal needs at least two postings" [])
  else if negb (eqb (bool_decide (in_EventType i = JournalEventReversal)) (bool_decide (in_ReversesJournalID i <> None)))
  then Err (NewValidationErrorf "only a reversal may reference an original journal" [])
  else
    sums ← check_postings ∅ (in_Postings i);
    check_sums (map_to_list sums).

Definition equalUintPtr (a b : option N) : bool := bool_decide (a = b).

Definition stored_tuple (accountByID : gmap N Account) (p : Posting) : result error postingTuple :=
  match accountByID !! p_AccountID p with
  | None => Err (Errorf "account %d referenced by posting %d is missing" [pretty (p_AccountID p); pretty (p_ID p)])
  | Some account =>
      Ok (a_AccountType account, (ownerValue (a_OwnerUserID account), (p_Asset p, DString (p_Amount p))))
  end.
Definition incoming_tuple (p : PostingInput) : postingTuple :=
  (pi_AccountType p, (ownerValue (pi_OwnerUserID p), (pi_Asset p, DString (pi_Amount p)))).

Fixpoint map_result {A B} (f : A -> result error B) (l : list A) : result error (list B) :=
  match l with [] => Ok [] | x :: l' => y ← f x; ys ← map_result f l'; Ok (y :: ys) end.

(** [tx.Where("id IN ?", ids).Find(&accounts)], indexed by id. *)
Definition accounts_by_id (t : Tables) (ids : list N) : gmap N Account :=
  list_to_map (map (fun a => (a_ID a, a)) (filter (fun a => a_ID a ∈ ids) (tb_accounts t))).

Definition assertSameJournal (existing : JournalEntry) (i : JournalInput) : M unit :=
  if negb (bool_decide (j_EventType existing = in_EventType i))
     || negb (bool_decide (j_ReferenceType existing = in_ReferenceType i))
     || negb (bool_decide (j_ReferenceID existing = in_ReferenceID i))
     || negb (equalUintPtr (j_ReversesJournalID existing) (in_ReversesJournalID i))
  then throw (NewConflictErrorf "idempotency key %q was used for a different event" [in_IdempotencyKey i])
  else
    storedPostings ← FindPostingsByJournalID (j_ID existing);
    if decide (length storedPostings <> length (in_Postings i))
    then throw (NewConflictErrorf "idempotency key %q was used with a different number of postings" [in_IdempotencyKey i])
    else
      accountByID ← query (fun t => accounts_by_id t (map p_AccountID storedPostings));
      stored ← lift (map_result (stored_tuple accountByID) storedPostings);
      let incoming := map incoming_tuple (in_Postings i) in
      if decide (sortPostingTuples stored <> sortPostingTuples incoming)
      then throw (NewConflictErrorf "idempotency key %q was used with different postings" [in_IdempotencyKey i])
      else mret tt.

(** The postings of a new journal, and the change of every account. *)
Fixpoint plan_postings (journalID : N) (accountByKey : gmap accountKey Account) (l : list PostingInput)
    (delta : gmap N decimal) : result error (list Posting * gmap N decimal) :=
  match l with
  | [] => Ok ([], delta)
  | posting :: l' =>
      match accountByKey !! posting_key posting with
      | None => Err (Errorf "account %s/%s was not provisioned" [pi_AccountType posting; pi_Asset posting])
      | Some account =>
          '(rows, delta') ← plan_postings journalID accountByKey l' (add_to delta (a_ID account) (pi_Amount posting));
          Ok (mkPosting 0 journalID (a_ID account) (pi_Asset posting) (pi_Amount posting) :: rows, delta')
      end
  end.

(** The negative-balance check over the locked rows. *)
Fixpoint check_negative (delta : gmap N decimal) (allowsNegative : gmap N bool) (l : list (N * AccountBalance))
    : result error unit :=
  match l with
  | [] => Ok tt
  | (id, balance) :: l' =>
      let next := Add (b_Balance balance) (default Zero (delta !! id)) in
      if IsNegative next && negb (default false (allowsNegative !! id))
      then Err (NewConflictErrorf "account %d would go negative (%s)" [pretty id; DString next])
      else check_negative delta allowsNegative l'
  end.

(** Go's [if posting.ID > m[account] { m[account] = posting.ID }]. *)
Definition note_posting (m : gmap N N) (p : Posting) : gmap N N :=
  if (default 0%N (m !! p_AccountID p) <? p_ID p)%N then <[p_AccountID p := p_ID p]> m else m.

Definition posting_spec (p : PostingInput) : AccountSpec :=
  mkAccountSpec (pi_AccountType p) (pi_OwnerUserID p) (pi_Asset p).

(** [Record] once the accounts of a new journal are provided: plan, lock, check,
    write.  The Go maps built from rows are keyed by unique columns, so the order
    of the assignments does not matter. *)
Definition post_journal (entry : JournalEntry) (inputs : list PostingInput) (accountRows : list Account) : M unit :=
  let accountByKey := list_to_map (map (fun a => (account_key a, a)) accountRows) in
  '(rows, delta) ← lift (plan_postings (j_ID entry) accountByKey inputs ∅);
  let accountIDs := sort_ids (map fst (map_to_list delta)) in
  balances ← LockBalances accountIDs;
  let allowsNegative := list_to_map (map (fun a => (a_ID a, a_AllowsNegative a)) accountRows) in
  _ ← lift (check_negative delta allowsNegative balances);
  created_rows ← CreatePostings rows;
  let lastPosting := foldl note_posting ∅ created_rows in
  ApplyBalanceDeltas (map (fun id => mkBalanceDelta id (default Zero (delta !! id)) (default 0%N (lastPosting !! id))) accountIDs).

Definition Record_ (i : JournalInput) : M (JournalEntry * bool) :=
  _ ← lift (validateJournalInput i);
  '(entry, created) ← InsertOrGet (mkJournalEntry 0 (in_EventType i) (in_IdempotencyKey i) (in_ReferenceType i)
                                     (in_ReferenceID i) (in_ReversesJournalID i));
  if negb created then
    _ ← assertSameJournal entry i;
    mret (entry, false)
  else
    accountRows ← EnsureAccounts (map posting_spec (in_Postings i));
    _ ← post_journal entry (in_Postings i) accountRows;
    mret (entry, true).

(** The input of the reversing journal. *)
Definition reversal_posting (accountByID : gmap N Account) (p : Posting) : result error PostingInput :=
  match accountByID !! p_AccountID p with
  | None => Err (Errorf "account %d referenced by posting %d is missing" [pretty (p_AccountID p); pretty (p_ID p)])
  | Some account =>
      Ok (mkPostingInput (a_AccountType account) (a_OwnerUserID account) (p_Asset p) (Neg (p_Amount p)))
  end.

Definition reversal_key (journalID : N) : string := "reversal:" +:+ pretty journalID.

Definition Reverse (journalID : N) : M JournalEntry :=
  source ← query (fun t => list_find (fun e => j_ID e = journalID) (tb_journals t));
  match source with
  | None => throw ErrRecordNotFound
  | Some (_, source) =>
      original ← FindPostingsByJournalID journalID;
      match original with
      | [] => throw (NewValidationErrorf "journal %d has no postings to reverse" [pretty journalID])
      | _ =>
          accountByID ← query (fun t => accounts_by_id t (map p_AccountID original));
          inputs ← lift (map_result (reversal_posting accountByID) original);
          '(entry, _) ← Record_ (mkJournalInput JournalEventReversal (reversal_key journalID)
                                   (j_ReferenceType source) (j_ReferenceID source) (Some journalID) inputs);
          mret entry
      end
  end.
End Ledger.
