(* ===== verification/LedgerInv.v ===== *)
(** * The ledger invariant and what [Record] does

    Every posting belongs to an account and a journal, every journal balances per
    asset, cached balances are the sums of the postings, and only external
    accounts may be negative.  [Record_spec] describes every outcome of [Record]
    from a state with the invariant; it is the interface the other services use. *)
From S2P Require Import Prelude Decimal Model Errors Fee Database Ledger.
From Stdlib Require Import Lia.

Section Sums.
Context {DL : DecimalLib} {DLaws : DecimalLaws DL}.
Local Open Scope Q_scope.

(** The sum of the amounts of the elements that satisfy a predicate. *)
Definition sum_where {A} (P : A -> Prop) `{DP : !forall x, Decision (P x)} (f : A -> decimal) (l : list A) : Q :=
  Qsum (map (fun x => dval (f x)) (filter P l)).

Lemma sum_where_nil {A} (P : A -> Prop) `{DP : !forall x, Decision (P x)} f : sum_where P f [] = 0.
Proof. done. Qed.
Lemma sum_where_cons {A} (P : A -> Prop) `{DP : !forall x, Decision (P x)} f x l :
  sum_where P f (x :: l) == (if decide (P x) then dval (f x) else 0) + sum_where P f l.
Proof. unfold sum_where. rewrite filter_cons. case_decide; cbn [map]; rewrite ?Qsum_cons; lra. Qed.
Lemma sum_where_app {A} (P : A -> Prop) `{DP : !forall x, Decision (P x)} f l k :
  sum_where P f (l ++ k) == sum_where P f l + sum_where P f k.
Proof. unfold sum_where. by rewrite filter_app, map_app, Qsum_app. Qed.
Lemma sum_where_none {A} (P : A -> Prop) `{DP : !forall x, Decision (P x)} f l :
  (forall x, x ∈ l -> ~ P x) -> sum_where P f l == 0.
Proof.
  induction l as [|x l IH]; intros H; [done|]. rewrite sum_where_cons, IH by (intros; apply H; by right).
  rewrite decide_False by (apply H; by left). lra.
Qed.
Lemma sum_where_iff {A} (P P' : A -> Prop) `{DP : !forall x, Decision (P x), DP' : !forall x, Decision (P' x)} f l :
  (forall x, x ∈ l -> P x <-> P' x) -> sum_where P f l == sum_where P' f l.
Proof.
  induction l as [|x l IH]; intros H; [done|]. rewrite !sum_where_cons, IH by (intros; apply H; by right).
  assert (HP : P x <-> P' x) by (apply H; by left). repeat case_decide; naive_solver lra.
Qed.
Lemma sum_where_Forall2 {A B} (P : A -> Prop) (P' : B -> Prop)
  `{DP : !forall x, Decision (P x), DP' : !forall x, Decision (P' x)} (f : A -> decimal) (g : B -> decimal) l k :
  Forall2 (fun x y => (P x <-> P' y) /\ f x = g y) l k -> sum_where P f l == sum_where P' g k.
Proof.
  induction 1 as [|x y l k [HP Hf] _ IH]; [done|]. rewrite !sum_where_cons, IH, Hf.
  repeat case_decide; naive_solver lra.
Qed.

(** ** Validation *)

Definition asset_sum (asset : string) (l : list PostingInput) : Q :=
  sum_where (fun p => pi_Asset p = asset) pi_Amount l.

Definition posting_input_ok (p : PostingInput) : Prop :=
  pi_Asset p <> "" /\ ~ dval (pi_Amount p) == 0
  /\ (pi_AccountType p ∈ SystemAccountTypes <-> pi_OwnerUserID p = None).

Definition balanced (l : list PostingInput) : Prop := forall asset, asset_sum asset l == 0.

Definition valid_journal (i : JournalInput) : Prop :=
  in_IdempotencyKey i <> "" /\ in_EventType i <> "" /\ in_ReferenceType i <> ""
  /\ (2 <= length (in_Postings i))%nat
  /\ (in_EventType i = JournalEventReversal <-> in_ReversesJournalID i <> None)
  /\ Forall posting_input_ok (in_Postings i) /\ balanced (in_Postings i).

Definition sum_at (m : gmap string decimal) (asset : string) : Q := dval (default Zero (m !! asset)).

Lemma sum_at_add m k d asset :
  sum_at (add_to m k d) asset == sum_at m asset + (if decide (k = asset) then dval d else 0).
Proof.
  unfold sum_at, add_to. case_decide as E.
  - subst. rewrite lookup_insert_eq. cbn. by rewrite dval_Add.
  - rewrite lookup_insert_ne by done. lra.
Qed.

Lemma bool_eqb_iff (P P' : Prop) `{DP : Decision P, DP' : Decision P'} :
  negb (eqb (bool_decide P) (bool_decide P')) = false <-> (P <-> P').
Proof. rewrite negb_false_iff, eqb_true_iff. repeat case_bool_decide; naive_solver. Qed.

Lemma check_postings_Ok l : forall m m', check_postings m l = Ok m' <->
  Forall posting_input_ok l /\ m' = foldl (fun m p => add_to m (pi_Asset p) (pi_Amount p)) m l.
Proof.
  induction l as [|p l IH]; intros m m'; cbn [check_postings foldl]; [naive_solver|].
  rewrite Forall_cons. unfold posting_input_ok at 1. case_decide as E1; [naive_solver|].
  destruct (IsZero _) eqn:E2; [dec_prop; naive_solver|]. dec_prop. unfold IsSystemAccountType.
  destruct (negb _) eqn:E3.
  - split; [done|]. intros [[(_ & _ & H) _] _]. by rewrite (proj2 (bool_eqb_iff _ _) H) in E3.
  - rewrite IH. apply bool_eqb_iff in E3. naive_solver.
Qed.

Lemma sum_at_fold l : forall m asset,
  sum_at (foldl (fun m p => add_to m (pi_Asset p) (pi_Amount p)) m l) asset == sum_at m asset + asset_sum asset l.
Proof.
  induction l as [|p l IH]; intros m asset; cbn [foldl].
  - unfold asset_sum. rewrite sum_where_nil. lra.
  - unfold asset_sum. rewrite IH, sum_where_cons, sum_at_add. unfold asset_sum. lra.
Qed.

Lemma check_sums_Ok l : check_sums l = Ok tt <-> Forall (fun x => dval x.2 == 0) l.
Proof.
  induction l as [|[a d] l IH]; cbn [check_sums]; [done|]. rewrite Forall_cons.
  destruct (IsZero d) eqn:E; cbn [negb snd]; dec_prop; [rewrite IH | ]; naive_solver.
Qed.

(** The validation accepts exactly the valid journals. *)
Lemma validateJournalInput_Ok i : validateJournalInput i = Ok tt <-> valid_journal i.
Proof.
  unfold validateJournalInput, valid_journal.
  case_decide; [naive_solver|]. case_decide; [naive_solver|]. case_decide; [naive_solver|].
  case_decide; [naive_solver lia|].
  destruct (negb _) eqn:E.
  { split; [done|]. intros (_ & _ & _ & _ & Hr & _). by rewrite (proj2 (bool_eqb_iff _ _) Hr) in E. }
  apply bool_eqb_iff in E. set (final := foldl (fun m p => add_to m (pi_Asset p) (pi_Amount p)) ∅ (in_Postings i)).
  assert (Hsum : balanced (in_Postings i) <-> Forall (fun x => dval x.2 == 0) (map_to_list final)).
  { rewrite Forall_forall. split.
    - intros Hb [a d] Hin. apply elem_of_map_to_list in Hin. cbn. specialize (Hb a).
      assert (Hd : sum_at final a == dval d) by (unfold sum_at; by rewrite Hin).
      unfold final in Hd. rewrite sum_at_fold in Hd. unfold sum_at in Hd. cbn in Hd. rewrite dval_Zero in Hd. lra.
    - intros Hz a. assert (Hd : sum_at final a == 0).
      { unfold sum_at. destruct (final !! a) as [d|] eqn:Ea; cbn; [|apply dval_Zero].
        apply (Hz (a, d)). by apply elem_of_map_to_list. }
      unfold final in Hd. rewrite sum_at_fold in Hd. unfold sum_at in Hd. cbn in Hd. rewrite dval_Zero in Hd. lra. }
  destruct (check_postings ∅ (in_Postings i)) as [m|e] eqn:Ec; cbn [mbind result_bind].
  - apply check_postings_Ok in Ec as [Hf ->]. fold final. rewrite check_sums_Ok, <- Hsum. naive_solver lia.
  - split; [done|]. intros (_ & _ & _ & _ & _ & Hf & _).
    by rewrite (proj2 (check_postings_Ok _ _ _) (conj Hf eq_refl)) in Ec.
Qed.
End Sums.

(** ** The invariant *)

Section Invariant.
Context {DL : DecimalLib} {DLaws : DecimalLaws DL}.
Local Open Scope Q_scope.

Definition account_sum (ps : list Posting) (id : N) : Q := sum_where (fun p => p_AccountID p = id) p_Amount ps.
Definition journal_sum (ps : list Posting) (journal : N) (asset : string) : Q :=
  sum_where (fun p => p_JournalID p = journal /\ p_Asset p = asset) p_Amount ps.
Definition last_posting (ps : list Posting) (id : N) : N :=
  foldr N.max 0%N (map p_ID (filter (fun p => p_AccountID p = id) ps)).

Record accounts_ok (l : list Account) (s : Seqs) : Prop := {
  ao_ids : NoDup (map a_ID l);
  ao_keys : NoDup (map account_key l);
  ao_seq : Forall (fun a => 0 < a_ID a <= seq_value s "accounts")%N l;
  ao_flags : Forall (fun a => a_AllowsNegative a = AllowsNegativeBalance (a_AccountType a)
                              /\ account_checks (a_AccountType a) (a_OwnerUserID a) = true) l }.

Record journals_ok (l : list JournalEntry) (s : Seqs) : Prop := {
  jo_ids : NoDup (map j_ID l);
  jo_keys : NoDup (map j_IdempotencyKey l);
  jo_seq : Forall (fun e => 0 < j_ID e <= seq_value s "journal_entries")%N l }.

Record ledger_ok (t : Tables) (s : Seqs) : Prop := {
  lo_accounts : accounts_ok (tb_accounts t) s;
  lo_journals : journals_ok (tb_journals t) s;
  lo_postings_seq : Forall (fun p => 0 < p_ID p <= seq_value s "postings")%N (tb_postings t);
  lo_postings_account : Forall (fun p => exists a, a ∈ tb_accounts t /\ a_ID a = p_AccountID p /\ a_Asset a = p_Asset p) (tb_postings t);
  lo_postings_journal : Forall (fun p => p_JournalID p ∈ map j_ID (tb_journals t)) (tb_postings t);
  lo_balanced : forall journal asset, journal_sum (tb_postings t) journal asset == 0;
  lo_rows : forall id, is_Some (tb_balances t !! id) <-> id ∈ map a_ID (tb_accounts t);
  lo_cache : forall id b, tb_balances t !! id = Some b ->
    dval (b_Balance b) == account_sum (tb_postings t) id /\ b_LastPostingID b = last_posting (tb_postings t) id;
  lo_nonnegative : forall a b, a ∈ tb_accounts t -> a_AllowsNegative a = false ->
    tb_balances t !! a_ID a = Some b -> 0 <= dval (b_Balance b) }.

Lemma ledger_ok_empty s : ledger_ok empty_tables s.
Proof.
  split; cbn; try (by constructor).
  - split; cbn; by constructor.
  - split; cbn; by constructor.
  - intros id. split; [intros [b Hb]; done | intros Hin; by apply elem_of_nil in Hin].
  - intros a b Ha. by apply elem_of_nil in Ha.
Qed.

Lemma accounts_ok_seq l s s' : seq_le s s' -> accounts_ok l s -> accounts_ok l s'.
Proof.
  intros Hs [? ? Hseq ?]. split; try done. eapply Forall_impl; [exact Hseq|]. cbn. intros a Ha. specialize (Hs "accounts"%string). lia.
Qed.
Lemma journals_ok_seq l s s' : seq_le s s' -> journals_ok l s -> journals_ok l s'.
Proof.
  intros Hs [? ? Hseq]. split; try done. eapply Forall_impl; [exact Hseq|]. cbn. intros a Ha. specialize (Hs "journal_entries"%string). lia.
Qed.
Lemma ledger_ok_seq t s s' : seq_le s s' -> ledger_ok t s -> ledger_ok t s'.
Proof.
  intros Hs [? ? Hseq]. split; try done; [by eapply accounts_ok_seq | by eapply journals_ok_seq|].
  eapply Forall_impl; [exact Hseq|]. cbn. intros a Ha. specialize (Hs "postings"%string). lia.
Qed.

(** The invariant looks at the ledger tables only. *)
Definition same_ledger (t t' : Tables) : Prop :=
  tb_accounts t' = tb_accounts t /\ tb_balances t' = tb_balances t
  /\ tb_journals t' = tb_journals t /\ tb_postings t' = tb_postings t.

#[export] Instance same_ledger_equiv : Equivalence same_ledger.
Proof. unfold same_ledger. split; red; intuition congruence. Qed.

Lemma ledger_ok_same t t' s : same_ledger t t' -> ledger_ok t s -> ledger_ok t' s.
Proof. intros (Ha & Hb & Hj & Hp) []. split; rewrite ?Ha, ?Hb, ?Hj, ?Hp; done. Qed.

(** The tables outside the ledger. *)
(** Tables that only keep records of events. *)
Definition same_records (t t' : Tables) : Prop :=
  tb_transfer_events t' = tb_transfer_events t /\ tb_failed_settlements t' = tb_failed_settlements t
  /\ tb_failed_completions t' = tb_failed_completions t /\ tb_failed_cancellations t' = tb_failed_cancellations t.

#[export] Instance same_records_equiv : Equivalence same_records.
Proof. unfold same_records. split; red; intuition congruence. Qed.

Definition same_rest (t t' : Tables) : Prop :=
  tb_stats t' = tb_stats t /\ tb_orders t' = tb_orders t /\ tb_trades t' = tb_trades t
  /\ tb_outbox t' = tb_outbox t /\ tb_idempotency t' = tb_idempotency t /\ tb_commands t' = tb_commands t
  /\ tb_transfers t' = tb_transfers t /\ same_records t t'.

#[export] Instance same_rest_equiv : Equivalence same_rest.
Proof. unfold same_rest, same_records. split; red; intuition congruence. Qed.

(** ** Inserting a journal *)

Lemma find_journal_Some t key e : find_journal t key = Some e -> e ∈ tb_journals t /\ j_IdempotencyKey e = key.
Proof.
  unfold find_journal. destruct (list_find _ _) as [[i e']|] eqn:E; cbn; [|done]. intros; simplify_eq.
  apply list_find_Some in E as (Hl & Hk & _). split; [by eapply list_elem_of_lookup_2 | done].
Qed.
Lemma find_journal_None t key : find_journal t key = None -> key ∉ map j_IdempotencyKey (tb_journals t).
Proof.
  unfold find_journal. destruct (list_find _ _) as [[i e']|] eqn:E; cbn; [done|]. intros _ Hin.
  apply list_elem_of_fmap in Hin as (e & -> & He). apply list_find_None in E.
  rewrite Forall_forall in E. by apply (E e).
Qed.
Lemma find_journal_unique t s e : ledger_ok t s -> e ∈ tb_journals t -> find_journal t (j_IdempotencyKey e) = Some e.
Proof.
  intros Hok He. destruct (find_journal t _) as [e'|] eqn:E.
  - apply find_journal_Some in E as [He' Hk]. f_equal.
    by apply (NoDup_map_inj j_IdempotencyKey (tb_journals t)); [apply Hok|..].
  - exfalso. apply find_journal_None in E. apply E. by apply (list_elem_of_fmap_2 j_IdempotencyKey).
Qed.

(** The entry an input asks for. *)
Definition entry_of (i : JournalInput) (e : JournalEntry) : Prop :=
  j_EventType e = in_EventType i /\ j_IdempotencyKey e = in_IdempotencyKey i
  /\ j_ReferenceType e = in_ReferenceType i /\ j_ReferenceID e = in_ReferenceID i
  /\ j_ReversesJournalID e = in_ReversesJournalID i.

Definition input_entry (i : JournalInput) : JournalEntry :=
  mkJournalEntry 0 (in_EventType i) (in_IdempotencyKey i) (in_ReferenceType i) (in_ReferenceID i) (in_ReversesJournalID i).

Lemma ledger_ok_add_journal t s e : ledger_ok t s ->
  (0 < j_ID e <= seq_value s "journal_entries")%N -> j_ID e ∉ map j_ID (tb_journals t) ->
  j_IdempotencyKey e ∉ map j_IdempotencyKey (tb_journals t) ->
  ledger_ok (t <| tb_journals := tb_journals t ++ [e] |>) s.
Proof.
  intros Hok Hid Hnew Hkey. destruct (lo_journals _ _ Hok) as [Hi Hk Hs]. destruct Hok.
  split; cbn; try done.
  - split; rewrite ?map_app; cbn [map].
    + apply NoDup_app. split; [done|]. split; [|apply NoDup_singleton]. intros x Hx ->%list_elem_of_singleton. done.
    + apply NoDup_app. split; [done|]. split; [|apply NoDup_singleton]. intros x Hx ->%list_elem_of_singleton. done.
    + apply Forall_app. split; [done|]. by apply Forall_singleton.
  - eapply Forall_impl; [exact lo_postings_journal0|]. cbn. intros p Hp. rewrite map_app. apply elem_of_app. by left.
Qed.

Definition violates_journal (t : Tables) (i : JournalInput) (name : string) : Prop :=
  forall id, journal_violation t (mkJournalEntry id (in_EventType i) (in_IdempotencyKey i) (in_ReferenceType i)
                             (in_ReferenceID i) (in_ReversesJournalID i)) = Some name.

Lemma InsertOrGet_spec i t s : ledger_ok t s ->
  wp (InsertOrGet (input_entry i))
    (fun '(e, created) t' s' =>
       if (created : bool) then
         find_journal t (in_IdempotencyKey i) = None /\ entry_of i e
         /\ (seq_value s "journal_entries" < j_ID e)%N /\ ledger_ok t' s'
         /\ t' = t <| tb_journals := tb_journals t ++ [e] |>
       else find_journal t (in_IdempotencyKey i) = Some e /\ t' = t)
    (fun err => exists name, err = ConstraintViolation name /\ violates_journal t i name
                  /\ find_journal t (in_IdempotencyKey i) = None) t s.
Proof.
  intros Hok. unfold InsertOrGet. apply wp_bind, wp_stmt, wp_bind, wp_nextval. intros s' Hs Hy Hx.
  apply wp_bind, wp_get. cbn [input_entry j_IdempotencyKey j_EventType j_ReferenceType j_ReferenceID j_ReversesJournalID].
  destruct (find_journal t _) as [e|] eqn:Ef.
  - apply wp_bind, wp_query. rewrite Ef. by apply wp_ret.
  - destruct (journal_violation _ _) as [name|] eqn:Ev.
    + apply wp_throw. exists name. split; [done|]. split; [|done]. intros id. exact Ev.
    + apply wp_bind, wp_put, wp_ret. cbn [j_ID]. split; [done|]. split; [done|]. split; [lia|]. split; [|done].
      apply ledger_ok_add_journal; [by eapply ledger_ok_seq | cbn; lia | | by apply find_journal_None].
      intros Hin. apply list_elem_of_fmap in Hin as (e & He & Hin).
      pose proof (jo_seq _ _ (lo_journals _ _ Hok)) as Hf. rewrite Forall_forall in Hf.
      specialize (Hf e Hin). cbn in He. lia.
Qed.
End Invariant.

(** ** Providing accounts *)

Section Provision.
Context {DL : DecimalLib} {DLaws : DecimalLaws DL}.
Local Open Scope Q_scope.

Lemma dedupe_specs_keys specs : forall seen k,
  k ∈ map spec_key (dedupe_specs seen specs) <-> k ∈ map spec_key specs /\ k ∉ seen.
Proof.
  induction specs as [|spec specs IH]; intros seen k; cbn [dedupe_specs map]; [set_solver|].
  case_decide; cbn [map]; rewrite ?elem_of_cons, IH; [set_solver|].
  destruct (decide (k = spec_key spec)); set_solver.
Qed.
Lemma dedupe_specs_NoDup specs : forall seen, NoDup (map spec_key (dedupe_specs seen specs)).
Proof.
  induction specs as [|spec specs IH]; intros seen; cbn [dedupe_specs map]; [apply NoDup_nil_2|].
  case_decide; [done|]. cbn [map]. apply NoDup_cons. split; [|done].
  rewrite dedupe_specs_keys. set_solver.
Qed.
Lemma dedupe_specs_sub specs : forall seen spec, spec ∈ dedupe_specs seen specs -> spec ∈ specs.
Proof.
  induction specs as [|spec specs IH]; intros seen x; cbn [dedupe_specs]; [done|].
  case_decide; rewrite ?elem_of_cons; naive_solver.
Qed.

(** The account a spec asks for. *)
Definition new_account (id : N) (spec : AccountSpec) : Account :=
  mkAccount id (s_AccountType spec) (s_OwnerUserID spec) (s_Asset spec) (AllowsNegativeBalance (s_AccountType spec)).

(** [t'] is [t] with more accounts, whose keys are among [keys]. *)
Definition more_accounts (keys : list accountKey) (t t' : Tables) : Prop :=
  exists extra, t' = t <| tb_accounts := tb_accounts t ++ extra |>
    /\ Forall (fun a => account_key a ∈ keys) extra.

Definition bad_spec (specs : list AccountSpec) (err : error) : Prop :=
  exists spec, spec ∈ specs /\ account_checks (s_AccountType spec) (s_OwnerUserID spec) = false
    /\ err = ConstraintViolation "accounts_owner_presence_check".

Lemma accounts_ok_add l s spec id : accounts_ok l s -> spec_key spec ∉ map account_key l ->
  account_checks (s_AccountType spec) (s_OwnerUserID spec) = true ->
  (0 < id <= seq_value s "accounts")%N -> Forall (fun a => a_ID a < id)%N l ->
  accounts_ok (l ++ [new_account id spec]) s.
Proof.
  intros [Hi Hk Hs Hf] Hkey Hc Hid Hlt. split; rewrite ?map_app; cbn [map].
  - apply NoDup_app. split; [done|]. split; [|apply NoDup_singleton].
    intros x Hx ->%list_elem_of_singleton. apply list_elem_of_fmap in Hx as (a & Ha & Hin).
    rewrite Forall_forall in Hlt. specialize (Hlt a Hin). cbn in Ha. lia.
  - apply NoDup_app. split; [done|]. split; [|apply NoDup_singleton].
    intros x Hx ->%list_elem_of_singleton. done.
  - apply Forall_app. split; [done|]. by apply Forall_singleton.
  - apply Forall_app. split; [done|]. by apply Forall_singleton.
Qed.

Lemma insert_account_spec spec t s : accounts_ok (tb_accounts t) s ->
  wp (insert_account spec)
    (fun _ t' s' => accounts_ok (tb_accounts t') s' /\ more_accounts [spec_key spec] t t'
       /\ spec_key spec ∈ map account_key (tb_accounts t'))
    (bad_spec [spec]) t s.
Proof.
  intros Hok. unfold insert_account. apply wp_bind, wp_nextval. intros s' Hs Hy Hx.
  destruct (account_checks _ _) eqn:Ec; cbn [negb].
  2: { apply wp_throw. exists spec. split; [by left | done]. }
  apply wp_modify. case_decide as Hin.
  - split; [by eapply accounts_ok_seq|]. split; [|done]. exists []. split; [|by constructor].
    rewrite app_nil_r. by destruct t.
  - cbn [tb_accounts set_field const_to]. split.
    + apply (accounts_ok_add _ _ spec (seq_value s "accounts" + 1)); [by eapply accounts_ok_seq | done | done | lia |].
      pose proof (ao_seq _ _ Hok) as Hf. eapply Forall_impl; [exact Hf|]. cbn. lia.
    + split; [|rewrite map_app, elem_of_app; right; by left].
      eexists. split; [reflexivity|]. apply Forall_singleton. by left.
Qed.

Lemma more_accounts_trans keys keys' t t' t'' :
  more_accounts keys t t' -> more_accounts keys' t' t'' -> more_accounts (keys ++ keys') t t''.
Proof.
  intros (e & -> & He) (e' & -> & He'). exists (e ++ e'). cbn. rewrite app_assoc. split; [done|].
  apply Forall_app. split; eapply Forall_impl; try done; cbn; intros a Ha; apply elem_of_app; auto.
Qed.

Lemma insert_accounts_spec specs t s : accounts_ok (tb_accounts t) s ->
  wp (for_each insert_account specs)
    (fun _ t' s' => accounts_ok (tb_accounts t') s' /\ more_accounts (map spec_key specs) t t'
       /\ Forall (fun spec => spec_key spec ∈ map account_key (tb_accounts t')) specs)
    (bad_spec specs) t s.
Proof.
  revert t s. induction specs as [|spec specs IH]; intros t s Hok; cbn [for_each].
  - apply wp_ret. split; [done|]. split; [|by constructor]. exists []. rewrite app_nil_r. split; [by destruct t | by constructor].
  - apply wp_bind. eapply wp_mono; [by apply insert_account_spec | |].
    + intros a t' s' _ (Hok' & Hm & Hin). eapply wp_mono; [by apply IH | |].
      * intros a' t'' s'' _ (Hok'' & Hm' & Hin'). split; [done|]. split.
        -- exact (more_accounts_trans [_] _ _ _ _ Hm Hm').
        -- constructor; [|done]. destruct Hm' as (e & -> & _). cbn. rewrite map_app. apply elem_of_app. by left.
      * intros e (sp & Hsp & ?). exists sp. split; [by right | done].
    + intros e (sp & ->%list_elem_of_singleton & ?). exists spec. split; [by left | done].
Qed.

(** ** Balance rows *)

Definition more_rows (ids : list N) (m m' : gmap N AccountBalance) : Prop :=
  forall id, m' !! id = match m !! id with
                        | Some b => Some b
                        | None => if decide (id ∈ ids) then Some (mkAccountBalance Zero 0) else None
                        end.

Lemma insert_balances_spec ids : forall t,
  let t' := foldl insert_balance t ids in
  t' = t <| tb_balances := tb_balances t' |> /\ more_rows ids (tb_balances t) (tb_balances t').
Proof.
  induction ids as [|id ids IH]; intros t; cbn [foldl].
  - split; [by destruct t|]. intros id. destruct (_ !! id); [done|]. by rewrite decide_False by (by intros ?%elem_of_nil).
  - destruct (IH (insert_balance t id)) as [Ht Hm]. split.
    + rewrite Ht at 1. unfold insert_balance. by destruct (tb_balances t !! id).
    + intros id'. rewrite (Hm id'). unfold insert_balance.
      destruct (tb_balances t !! id) as [b|] eqn:E.
      * destruct (tb_balances t !! id') eqn:E'; [done|]. apply decide_ext. rewrite elem_of_cons.
        split; [by right|]. intros [->|]; [congruence | done].
      * cbn [tb_balances set_field const_to]. destruct (decide (id' = id)) as [->|Hne].
        -- rewrite lookup_insert_eq, E. by rewrite decide_True by (by left).
        -- rewrite lookup_insert_ne by done. destruct (tb_balances t !! id'); [done|].
           apply decide_ext. rewrite elem_of_cons. naive_solver.
Qed.

(** ** [EnsureAccounts] *)

(** [t'] is [t] with the accounts of [keys] provided, new ones empty. *)
Record provides (keys : list accountKey) (t t' : Tables) : Prop := {
  pv_accounts : exists extra, tb_accounts t' = tb_accounts t ++ extra /\ Forall (fun a => account_key a ∈ keys) extra;
  pv_kept : forall id b, tb_balances t !! id = Some b -> tb_balances t' !! id = Some b;
  pv_zero : forall id b, tb_balances t !! id = None -> tb_balances t' !! id = Some b -> b = mkAccountBalance Zero 0;
  pv_journals : tb_journals t' = tb_journals t;
  pv_postings : tb_postings t' = tb_postings t;
  pv_rest : same_rest t t';
  pv_keys : forall k, k ∈ keys -> k ∈ map account_key (tb_accounts t') }.

Lemma provides_nil t : provides [] t t.
Proof.
  split; try done.
  - exists []. split; [by rewrite app_nil_r | by constructor].
  - intros id b H1 H2. congruence.
  - intros k Hk. by apply elem_of_nil in Hk.
Qed.

(** A fresh account has no postings. *)
Lemma no_postings_sum ps id : (forall p, p ∈ ps -> p_AccountID p <> id) ->
  account_sum ps id == 0 /\ last_posting ps id = 0%N.
Proof.
  intros H. split; [by apply sum_where_none|]. unfold last_posting.
  by rewrite filter_none.
Qed.

Lemma ledger_ok_provides keys t t' s s' : ledger_ok t s -> seq_le s s' -> provides keys t t' ->
  accounts_ok (tb_accounts t') s' ->
  (forall id, is_Some (tb_balances t' !! id) <-> id ∈ map a_ID (tb_accounts t')) -> ledger_ok t' s'.
Proof.
  intros Hok Hs Hpv Hacc Hrows. destruct (ledger_ok_seq _ _ _ Hs Hok) as [_ Hj Hps Hpa Hpj Hb Hr Hc Hn].
  destruct Hpv as [(extra & Ha & _) Hkept Hzero Ej Ep _ _].
  assert (Hnop : forall id, tb_balances t !! id = None -> forall p, p ∈ tb_postings t -> p_AccountID p <> id).
  { intros id Hnone p Hp <-. rewrite Forall_forall in Hpa. destruct (Hpa p Hp) as (a & Hin & Hid & _).
    assert (Hsome : is_Some (tb_balances t !! p_AccountID p)).
    { apply Hr. rewrite <- Hid. by apply (list_elem_of_fmap_2 a_ID). }
    rewrite Hnone in Hsome. by destruct Hsome. }
  split; rewrite ?Ej, ?Ep; try done.
  - eapply Forall_impl; [exact Hpa|]. cbn. intros p (a & Hin & Hp). exists a. rewrite Ha. split; [|done]. apply elem_of_app. by left.
  - intros id b Hb'. destruct (tb_balances t !! id) as [b0|] eqn:E.
    + rewrite (Hkept _ _ E) in Hb'. simplify_eq. by apply Hc.
    + rewrite (Hzero _ _ E Hb'). cbn. destruct (no_postings_sum (tb_postings t) id (Hnop _ E)) as [-> ->].
      by rewrite dval_Zero.
  - intros a b Hin Hneg Hb'. destruct (tb_balances t !! a_ID a) as [b0|] eqn:E.
    + rewrite (Hkept _ _ E) in Hb'. simplify_eq. rewrite Ha in Hin. apply elem_of_app in Hin as [Hin|Hin]; [by eapply Hn|].
      exfalso. assert (Hin' : a_ID a ∈ map a_ID (tb_accounts t)) by (apply Hr; by eexists).
      pose proof (ao_ids _ _ Hacc) as Hnd. rewrite Ha, map_app in Hnd. apply NoDup_app in Hnd as (_ & Hd & _).
      apply (Hd _ Hin'). by apply (list_elem_of_fmap_2 a_ID).
    + rewrite (Hzero _ _ E Hb'). cbn. rewrite dval_Zero. lra.
Qed.

Lemma elem_of_sort_ids ids id : id ∈ sort_ids ids <-> id ∈ ids.
Proof. unfold sort_ids. by rewrite merge_sort_Permutation. Qed.

(** Rows found by key are as many as the keys asked for, when all exist. *)
Lemma find_rows_length (l : list Account) (keys : list accountKey) :
  NoDup (map account_key l) -> NoDup keys -> (forall k, k ∈ keys -> k ∈ map account_key l) ->
  length (filter (fun a => account_key a ∈ keys) l) = length keys.
Proof.
  intros Hl Hk Hall. set (rows := filter _ l).
  assert (Hnd : NoDup (map account_key rows)).
  { by apply NoDup_map_filter. }
  assert (Hp : map account_key rows ≡ₚ keys).
  { apply NoDup_Permutation; [done | done|]. intros k. split.
    - intros Hin. apply list_elem_of_fmap in Hin as (a & -> & Ha). by apply list_elem_of_filter in Ha as [? _].
    - intros Hin. pose proof (Hall k Hin) as Hin'. apply list_elem_of_fmap in Hin' as (a & -> & Ha).
      apply (list_elem_of_fmap_2 account_key). apply list_elem_of_filter. done. }
  rewrite <- (length_map account_key rows). by rewrite Hp.
Qed.

Lemma EnsureAccounts_spec specs t s : ledger_ok t s ->
  wp (EnsureAccounts specs)
    (fun rows t' s' => ledger_ok t' s' /\ provides (map spec_key specs) t t'
       /\ (forall a, a ∈ rows <-> a ∈ tb_accounts t' /\ account_key a ∈ map spec_key specs)
       /\ NoDup (map account_key rows) /\ NoDup (map a_ID rows))
    (bad_spec specs) t s.
Proof.
  intros Hok. destruct specs as [|spec0 specs0]; cbn [EnsureAccounts].
  { apply wp_ret. split; [done|]. split; [apply provides_nil|].
    split; [|split; apply NoDup_nil_2]. intros a. set_solver. }
  set (specs := spec0 :: specs0). set (unique := merge_sort spec_le (dedupe_specs ∅ specs)).
  assert (Hperm : unique ≡ₚ dedupe_specs ∅ specs) by apply merge_sort_Permutation.
  assert (Hkeys : forall k, k ∈ map spec_key unique <-> k ∈ map spec_key specs).
  { intros k. rewrite Hperm, dedupe_specs_keys. set_solver. }
  assert (Hnd : NoDup (map spec_key unique)) by (rewrite Hperm; apply dedupe_specs_NoDup).
  apply wp_bind, wp_stmt, wp_bind.
  eapply wp_mono; [apply insert_accounts_spec, Hok | |].
  2: { intros e (sp & Hsp & He). exists sp. split; [|done]. rewrite Hperm in Hsp. by eapply dedupe_specs_sub. }
  intros _u t1 s1 Hs1 (Hacc & (extra & Et1 & Hextra) & Hall). apply wp_bind, wp_query.
  set (rows := filter _ (tb_accounts t1)).
  assert (Hlen : length rows = length unique).
  { unfold rows. rewrite find_rows_length; [by rewrite length_map | apply Hacc | done |].
    intros k Hk. apply list_elem_of_fmap in Hk as (sp & -> & Hsp). rewrite Forall_forall in Hall. by apply Hall. }
  rewrite decide_False by (intros Hn; apply Hn, Hlen).
  apply wp_bind. unfold ensureBalanceRows. apply wp_bind, wp_stmt, wp_modify, wp_ret.
  destruct (insert_balances_spec (sort_ids (map a_ID rows)) t1) as [Et2 Hm]. set (t2 := foldl _ _ _) in *.
  assert (Hb1 : tb_balances t1 = tb_balances t) by by rewrite Et1.
  assert (Ha1 : tb_accounts t1 = tb_accounts t ++ extra) by by rewrite Et1.
  assert (Ha2 : tb_accounts t2 = tb_accounts t1) by by rewrite Et2.
  assert (Hrows : forall a, a ∈ rows <-> a ∈ tb_accounts t2 /\ account_key a ∈ map spec_key specs).
  { intros a. unfold rows. rewrite Ha2, list_elem_of_filter, Hkeys. tauto. }
  assert (Hprov : provides (map spec_key specs) t t2).
  { split; try (by rewrite Et2, Et1).
    - exists extra. rewrite Ha2. split; [done|]. eapply Forall_impl; [exact Hextra|]. intros a Ha. by apply Hkeys.
    - intros id b Hb. rewrite (Hm id), Hb1, Hb. done.
    - intros id b Hn Hb. rewrite (Hm id), Hb1, Hn in Hb. case_decide; by simplify_eq.
    - intros k Hk. rewrite <- Hkeys in Hk. rewrite Ha2. apply list_elem_of_fmap in Hk as (sp & -> & Hsp).
      rewrite Forall_forall in Hall. by apply Hall. }
  split; [|split; [done | split; [done|]]].
  - eapply ledger_ok_provides; [exact Hok | exact Hs1 | exact Hprov | by rewrite Ha2 |].
    intros id. rewrite (Hm id), Hb1, Ha2, Ha1, map_app, elem_of_app. pose proof (lo_rows _ _ Hok id) as Hr.
    destruct (tb_balances t !! id) as [b|]; [split; [|by eexists]; intros _; left; apply Hr; by eexists|].
    case_decide as Hin.
    + split; [intros _|by eexists]. apply elem_of_sort_ids, list_elem_of_fmap in Hin as (a & -> & Ha).
      apply Hrows in Ha as [Ha _]. rewrite Ha2, Ha1, elem_of_app in Ha.
      destruct Ha; [left | right]; by apply (list_elem_of_fmap_2 a_ID).
    + split; [by intros []|]. intros [H|H]; [by apply Hr|]. exfalso. apply Hin, elem_of_sort_ids.
      apply list_elem_of_fmap in H as (a & -> & Ha). apply (list_elem_of_fmap_2 a_ID), Hrows. split.
      * rewrite Ha2, Ha1. apply elem_of_app. by right.
      * apply Hkeys. rewrite Forall_forall in Hextra. by apply Hextra.
  - split; apply NoDup_map_filter, Hacc.
Qed.
End Provision.

(** ** Recording *)

Section Recording.
Context {DL : DecimalLib} {DLaws : DecimalLaws DL}.
Local Open Scope Q_scope.

(** A stored row of an input posting. *)
Definition row_of (accounts : list Account) (journal : N) (p : PostingInput) (r : Posting) : Prop :=
  p_JournalID r = journal /\ p_Asset r = pi_Asset p /\ p_Amount r = pi_Amount p
  /\ exists a, a ∈ accounts /\ a_ID a = p_AccountID r /\ account_key a = posting_key p.

Definition delta_at (m : gmap N decimal) (id : N) : Q := dval (default Zero (m !! id)).

Lemma delta_at_add m k d id :
  delta_at (add_to m k d) id == delta_at m id + (if decide (k = id) then dval d else 0).
Proof.
  unfold delta_at, add_to. case_decide as E.
  - subst. rewrite lookup_insert_eq. cbn. by rewrite dval_Add.
  - rewrite lookup_insert_ne by done. lra.
Qed.

Lemma plan_postings_spec j accounts byKey l :
  (forall p, p ∈ l -> exists a, byKey !! posting_key p = Some a /\ a ∈ accounts /\ account_key a = posting_key p) ->
  forall delta, exists rows delta', plan_postings j byKey l delta = Ok (rows, delta')
    /\ Forall2 (row_of accounts j) l rows
    /\ (forall id, delta_at delta' id == delta_at delta id + account_sum rows id)
    /\ (forall id, is_Some (delta' !! id) <-> is_Some (delta !! id) \/ id ∈ map p_AccountID rows).
Proof.
  induction l as [|p l IH]; intros Hkeys delta; cbn [plan_postings].
  - exists [], delta. split; [done|]. split; [by constructor|]. split.
    + intros id. unfold account_sum. rewrite sum_where_nil. lra.
    + intros id. set_solver.
  - destruct (Hkeys p) as (a & Ha & Hin & Hk); [by left|]. rewrite Ha.
    destruct (IH ltac:(intros q Hq; apply Hkeys; by right) (add_to delta (a_ID a) (pi_Amount p)))
      as (rows & delta' & -> & Hrows & Hsum & Hdom). cbn [mbind result_bind].
    eexists _, _. split; [reflexivity|]. split; [|split].
    + constructor; [|done]. repeat split; try done. by exists a.
    + intros id. rewrite Hsum, delta_at_add. unfold account_sum. rewrite sum_where_cons. cbn [p_AccountID p_Amount]. lra.
    + intros id. rewrite Hdom. unfold add_to. cbn [map p_AccountID]. rewrite elem_of_cons.
      destruct (decide (id = a_ID a)) as [->|Hne].
      * rewrite lookup_insert_eq. split; [by auto | intros _; left; by eexists].
      * rewrite lookup_insert_ne by done. tauto.
Qed.

(** ** Locking *)

Lemma remove_dups_id (l : list N) : NoDup l -> remove_dups l = l.
Proof.
  induction l as [|x l IH]; [done|]. intros [Hx Hl]%NoDup_cons. cbn [remove_dups].
  case_decide; [done|]. by rewrite IH.
Qed.

Lemma select_balances_spec t ids : NoDup ids -> (forall id, id ∈ ids -> is_Some (tb_balances t !! id)) ->
  length (select_balances t ids) = length ids
  /\ forall id b, (id, b) ∈ select_balances t ids <-> id ∈ ids /\ tb_balances t !! id = Some b.
Proof.
  intros Hnd Hall. unfold select_balances. rewrite remove_dups_id by done.
  assert (Hp : sort_ids ids ≡ₚ ids) by apply merge_sort_Permutation.
  split.
  - rewrite <- Hp at 2. assert (Hall' : forall id, id ∈ sort_ids ids -> is_Some (tb_balances t !! id)).
    { intros id. rewrite Hp. apply Hall. }
    clear -Hall'. induction (sort_ids ids) as [|x l IH]; [done|]. cbn.
    destruct (Hall' x) as [b ->]; [by left|]. cbn. f_equal. apply IH. intros y Hy. apply Hall'. by right.
  - intros id b. rewrite list_elem_of_omap. setoid_rewrite Hp. split.
    + intros (x & Hx & Hb). destruct (tb_balances t !! x) eqn:E; by simplify_eq/=.
    + intros [Hid Hb]. exists id. rewrite Hb. done.
Qed.

Lemma LockBalances_spec ids t s : NoDup ids -> (forall id, id ∈ ids -> is_Some (tb_balances t !! id)) ->
  wp (LockBalances ids)
    (fun rows t' s' => t' = t /\ s' = s /\ forall id b, (id, b) ∈ rows <-> id ∈ ids /\ tb_balances t !! id = Some b)
    (fun _ => False) t s.
Proof.
  intros Hnd Hall. destruct (select_balances_spec t ids Hnd Hall) as [Hlen Hrows].
  destruct ids as [|id0 ids0]; cbn [LockBalances].
  - apply wp_ret. split; [done|]. split; [done|]. intros id b. set_solver.
  - apply wp_bind, wp_query. rewrite decide_False by (intros Hn; by apply Hn). by apply wp_ret.
Qed.

Lemma check_negative_spec delta allows l :
  match check_negative delta allows l with
  | Ok _ => forall id b, (id, b) ∈ l -> default false (allows !! id) = false -> 0 <= dval (b_Balance b) + delta_at delta id
  | Err e => DomainErrorKind e = Some ErrorKindConflict
      /\ exists id b, (id, b) ∈ l /\ default false (allows !! id) = false /\ dval (b_Balance b) + delta_at delta id < 0
  end.
Proof.
  induction l as [|[id b] l IH]; cbn [check_negative].
  - intros id b H. by apply elem_of_nil in H.
  - destruct (IsNegative _ && _) eqn:E.
    + bool_to_prop. dec_prop. rewrite dval_Add in *. split; [done|]. exists id, b. split; [by left|]. done.
    + destruct (check_negative delta allows l) as [u|e].
      * intros id' b' [H|H]%elem_of_cons Hf; [|by apply IH]. simplify_eq. rewrite Hf in E. cbn [negb] in E.
        rewrite andb_true_r in E. dec_prop. by rewrite dval_Add in E.
      * destruct IH as (Hk & id' & b' & Hin & Hr). split; [done|]. exists id', b'. split; [by right | done].
Qed.

(** ** Postings *)

(** The same posting with another id. *)
Definition same_posting (p p' : Posting) : Prop :=
  p_JournalID p' = p_JournalID p /\ p_AccountID p' = p_AccountID p /\ p_Asset p' = p_Asset p /\ p_Amount p' = p_Amount p.

Lemma insert_postings_spec rows : forall t s,
  Forall (fun p => ~ dval (p_Amount p) == 0 /\ p_JournalID p ∈ map j_ID (tb_journals t)
                   /\ p_AccountID p ∈ map a_ID (tb_accounts t)) rows ->
  wp (map_each insert_posting rows)
    (fun rows' t' s' => t' = t <| tb_postings := tb_postings t ++ rows' |> /\ Forall2 same_posting rows rows'
       /\ Forall (fun p => seq_value s "postings" < p_ID p <= seq_value s' "postings")%N rows')
    (fun _ => False) t s.
Proof.
  induction rows as [|p rows IH]; intros t s Hall; cbn [map_each].
  - apply wp_ret. rewrite app_nil_r. split; [by destruct t|]. split; constructor.
  - apply Forall_cons in Hall as [(Hz & Hj & Ha) Hall]. unfold insert_posting at 1.
    apply wp_bind, wp_bind, wp_nextval. intros s1 Hs1 _ Hx. apply wp_bind, wp_get.
    rewrite (proj2 (IsZero_false _) Hz), (bool_decide_eq_true_2 _ Hj), (bool_decide_eq_true_2 _ Ha). cbn [negb].
    apply wp_bind, wp_put, wp_ret, wp_bind.
    eapply wp_mono; [apply IH | | done]; [by eapply Forall_impl; [exact Hall|]; cbn|].
    cbn. intros rows' t' s' Hs2 (-> & Hr & Hf). apply wp_ret. cbn. rewrite <- app_assoc. split; [done|]. split.
    + constructor; [|done]. done.
    + specialize (Hs2 "postings"%string). constructor; cbn; [lia|]. eapply Forall_impl; [exact Hf|]. cbn. lia.
Qed.

Lemma CreatePostings_spec rows t s : rows <> [] ->
  Forall (fun p => ~ dval (p_Amount p) == 0 /\ p_JournalID p ∈ map j_ID (tb_journals t)
                   /\ p_AccountID p ∈ map a_ID (tb_accounts t)) rows ->
  wp (CreatePostings rows)
    (fun rows' t' s' => t' = t <| tb_postings := tb_postings t ++ rows' |> /\ Forall2 same_posting rows rows'
       /\ Forall (fun p => seq_value s "postings" < p_ID p <= seq_value s' "postings")%N rows')
    (fun _ => False) t s.
Proof.
  intros Hne Hall. destruct rows as [|p rows]; [done|]. unfold CreatePostings. apply wp_bind, wp_stmt.
  by apply (insert_postings_spec (p :: rows)).
Qed.

(** ** Balance updates *)

Lemma apply_deltas_spec ds : forall m n, NoDup (map bd_AccountID ds) ->
  (forall d, d ∈ ds -> is_Some (m !! bd_AccountID d)) ->
  exists m', foldl apply_delta (m, n) ds = (m', (n + Z.of_nat (length ds))%Z)
    /\ (forall id, id ∉ map bd_AccountID ds -> m' !! id = m !! id)
    /\ (forall d b, d ∈ ds -> m !! bd_AccountID d = Some b ->
          m' !! bd_AccountID d = Some (mkAccountBalance (Add (b_Balance b) (bd_Delta d))
                                         (N.max (b_LastPostingID b) (bd_LastPostingID d)))).
Proof.
  induction ds as [|d ds IH]; intros m n Hnd Hall; cbn [foldl map].
  - exists m. cbn. rewrite Z.add_0_r. split; [done|]. split; [done|]. intros d b H. by apply elem_of_nil in H.
  - cbn [map] in Hnd. apply NoDup_cons in Hnd as [Hd Hnd].
    destruct (Hall d) as [b Hb]; [by left|]. unfold apply_delta at 2. cbn [fst snd]. rewrite Hb.
    set (m1 := <[bd_AccountID d := _]> m).
    assert (Hother : forall x, x ∈ ds -> bd_AccountID x <> bd_AccountID d).
    { intros x Hx E. apply Hd. rewrite <- E. by apply (list_elem_of_fmap_2 bd_AccountID). }
    destruct (IH m1 (n + 1)%Z Hnd) as (m' & -> & Hout & Hin).
    { intros x Hx. unfold m1. rewrite lookup_insert_ne by (symmetry; by apply Hother). apply Hall. by right. }
    exists m'. split; [f_equal; cbn [length]; lia|]. split.
    + intros id Hid. rewrite not_elem_of_cons in Hid. destruct Hid as [Hne Hid]. rewrite Hout by done.
      unfold m1. by rewrite lookup_insert_ne.
    + intros x bx [->|Hx]%elem_of_cons Hbx.
      * rewrite Hout by done. unfold m1. rewrite lookup_insert_eq. by simplify_eq.
      * apply Hin; [done|]. unfold m1. by rewrite lookup_insert_ne by (symmetry; by apply Hother).
Qed.

Lemma ApplyBalanceDeltas_spec ds t s : NoDup (map bd_AccountID ds) ->
  (forall d, d ∈ ds -> is_Some (tb_balances t !! bd_AccountID d)) ->
  wp (ApplyBalanceDeltas ds)
    (fun _ t' s' => s' = s /\ exists m', t' = t <| tb_balances := m' |>
       /\ (forall id, id ∉ map bd_AccountID ds -> m' !! id = tb_balances t !! id)
       /\ (forall d b, d ∈ ds -> tb_balances t !! bd_AccountID d = Some b ->
             m' !! bd_AccountID d = Some (mkAccountBalance (Add (b_Balance b) (bd_Delta d))
                                            (N.max (b_LastPostingID b) (bd_LastPostingID d)))))
    (fun _ => False) t s.
Proof.
  intros Hnd Hall. destruct (apply_deltas_spec ds (tb_balances t) 0 Hnd Hall) as (m' & Hfold & Hout & Hin).
  destruct ds as [|d ds]; unfold ApplyBalanceDeltas.
  - apply wp_ret. split; [done|]. exists (tb_balances t). split; [by destruct t|]. split; [done|].
    intros d b H. by apply elem_of_nil in H.
  - apply wp_bind, wp_stmt, wp_bind, wp_get. rewrite Hfold. apply wp_bind, wp_put.
    rewrite decide_False by (intros Hn; by apply Hn). apply wp_ret. split; [done|]. by exists m'.
Qed.

Lemma note_postings_spec rows : forall m id,
  default 0%N (foldl note_posting m rows !! id) = N.max (default 0%N (m !! id)) (last_posting rows id).
Proof.
  induction rows as [|p rows IH]; intros m id; cbn [foldl]; [unfold last_posting; cbn; lia|].
  rewrite IH. assert (Hl : last_posting (p :: rows) id
    = if decide (p_AccountID p = id) then N.max (p_ID p) (last_posting rows id) else last_posting rows id).
  { unfold last_posting. rewrite filter_cons. by case_decide. }
  rewrite Hl. unfold note_posting. case_decide as E.
  - subst. destruct (_ <? _)%N eqn:El; [rewrite lookup_insert_eq; cbn; apply N.ltb_lt in El | apply N.ltb_ge in El]; lia.
  - destruct (_ <? _)%N; [|done]. by rewrite lookup_insert_ne.
Qed.

Lemma last_posting_app ps qs id : last_posting (ps ++ qs) id = N.max (last_posting ps id) (last_posting qs id).
Proof.
  unfold last_posting. rewrite filter_app, map_app, foldr_app. induction (map _ (filter _ ps)); cbn; lia.
Qed.
End Recording.

(** ** The whole operation *)

Section Record.
Context {DL : DecimalLib} {DLaws : DecimalLaws DL}.
Local Open Scope Q_scope.

(** The balance of an account by value; an account that does not exist is empty. *)
Definition find_account (t : Tables) (k : accountKey) : option Account :=
  snd <$> list_find (fun a => account_key a = k) (tb_accounts t).
Definition balance_of (t : Tables) (k : accountKey) : Q :=
  match find_account t k with
  | None => 0
  | Some a => match tb_balances t !! a_ID a with Some b => dval (b_Balance b) | None => 0 end
  end.
Definition key_sum (k : accountKey) (l : list PostingInput) : Q :=
  sum_where (fun p => posting_key p = k) pi_Amount l.

Lemma find_account_Some t k a : find_account t k = Some a -> a ∈ tb_accounts t /\ account_key a = k.
Proof.
  unfold find_account. destruct (list_find _ _) as [[i a']|] eqn:E; cbn; [|done]. intros; simplify_eq.
  apply list_find_Some in E as (Hl & Hk & _). split; [by eapply list_elem_of_lookup_2 | done].
Qed.
Lemma find_account_None t k : find_account t k = None <-> k ∉ map account_key (tb_accounts t).
Proof.
  unfold find_account. destruct (list_find _ _) as [[i a']|] eqn:E; cbn; split; try done.
  - intros H. apply list_find_Some in E as (Hl & Hk & _). destruct H. rewrite <- Hk.
    apply (list_elem_of_fmap_2 account_key). by eapply list_elem_of_lookup_2.
  - intros _ Hin. apply list_elem_of_fmap in Hin as (a & -> & Ha). apply list_find_None in E.
    rewrite Forall_forall in E. by apply (E a).
Qed.
Lemma account_by_key l s a a' : accounts_ok l s -> a ∈ l -> a' ∈ l -> account_key a = account_key a' -> a = a'.
Proof. intros Hok. apply (NoDup_map_inj account_key), (ao_keys _ _ Hok). Qed.
Lemma account_by_id l s a a' : accounts_ok l s -> a ∈ l -> a' ∈ l -> a_ID a = a_ID a' -> a = a'.
Proof. intros Hok. apply (NoDup_map_inj a_ID), (ao_ids _ _ Hok). Qed.
Lemma find_account_In t s a : ledger_ok t s -> a ∈ tb_accounts t -> find_account t (account_key a) = Some a.
Proof.
  intros Hok Ha. destruct (find_account t _) as [a'|] eqn:E.
  - apply find_account_Some in E as [Ha' Hk]. f_equal. by eapply account_by_key; [apply Hok | | |].
  - apply find_account_None in E. destruct E. by apply (list_elem_of_fmap_2 account_key).
Qed.

(** The balance of an account is the sum of its postings. *)
Lemma balance_of_sum t s a : ledger_ok t s -> a ∈ tb_accounts t ->
  balance_of t (account_key a) == account_sum (tb_postings t) (a_ID a).
Proof.
  intros Hok Ha. unfold balance_of. rewrite (find_account_In _ _ _ Hok Ha).
  destruct (proj2 (lo_rows _ _ Hok (a_ID a))) as [b Hb]; [by apply (list_elem_of_fmap_2 a_ID)|].
  rewrite Hb. by apply (lo_cache _ _ Hok).
Qed.
Lemma balance_of_none t k : k ∉ map account_key (tb_accounts t) -> balance_of t k = 0.
Proof. intros H%find_account_None. unfold balance_of. by rewrite H. Qed.

(** Providing accounts moves no money. *)
Lemma balance_of_provides keys t t' s s' k : ledger_ok t s -> ledger_ok t' s' -> provides keys t t' ->
  balance_of t' k == balance_of t k.
Proof.
  intros Hok Hok' Hpv. destruct (pv_accounts _ _ _ Hpv) as (extra & Ha & _).
  destruct (find_account t k) as [a|] eqn:E.
  - apply find_account_Some in E as [Hin <-]. rewrite (balance_of_sum _ _ _ Hok Hin).
    rewrite (balance_of_sum _ _ _ Hok'), (pv_postings _ _ _ Hpv); [done|]. rewrite Ha. apply elem_of_app. by left.
  - apply find_account_None in E. rewrite (balance_of_none t k E).
    destruct (find_account t' k) as [a|] eqn:E'; [|by rewrite (balance_of_none t' k (proj1 (find_account_None _ _) E'))].
    apply find_account_Some in E' as [Hin <-]. rewrite (balance_of_sum _ _ _ Hok' Hin), (pv_postings _ _ _ Hpv).
    apply no_postings_sum. intros p Hp Hid. pose proof (lo_postings_account _ _ Hok) as Hf. rewrite Forall_forall in Hf.
    destruct (Hf p Hp) as (a0 & Hin0 & Hid0 & _). apply E.
    replace a with a0; [by apply (list_elem_of_fmap_2 account_key)|].
    eapply account_by_id; [apply Hok' | | done | congruence]. rewrite Ha. apply elem_of_app. by left.
Qed.

(** A posting row contributes to an account exactly when its input names it. *)
Lemma rows_account_sum t s j l rows a : ledger_ok t s -> a ∈ tb_accounts t ->
  Forall2 (row_of (tb_accounts t) j) l rows -> account_sum rows (a_ID a) == key_sum (account_key a) l.
Proof.
  intros Hok Ha H. symmetry. apply sum_where_Forall2. eapply Forall2_impl; [exact H|].
  cbn. intros p r (_ & _ & Hamt & a' & Hin & Hid & Hk). split; [|done].
  rewrite <- Hk, <- Hid. split.
  - intros E. f_equal. eapply account_by_key; [apply Hok | done | done | done].
  - intros E. f_equal. eapply account_by_id; [apply Hok | done | done | done].
Qed.

Lemma rows_asset_sum accounts j l rows asset : Forall2 (row_of accounts j) l rows ->
  journal_sum rows j asset == asset_sum asset l.
Proof.
  intros H. symmetry. apply sum_where_Forall2. eapply Forall2_impl; [exact H|].
  cbn. intros p r (Hj & Has & Hamt & _). rewrite Hj, Has. split; [naive_solver | done].
Qed.

(** Adding the rows of a balanced journal and their balances. *)
Lemma ledger_ok_post t s s' j l rows m' : ledger_ok t s -> seq_le s s' ->
  j ∈ map j_ID (tb_journals t) -> (forall p, p ∈ tb_postings t -> p_JournalID p <> j) ->
  balanced l -> Forall2 (row_of (tb_accounts t) j) l rows ->
  Forall (fun p => 0 < p_ID p <= seq_value s' "postings")%N rows ->
  (forall id, is_Some (m' !! id) <-> is_Some (tb_balances t !! id)) ->
  (forall id b', m' !! id = Some b' -> exists b, tb_balances t !! id = Some b
     /\ dval (b_Balance b') == dval (b_Balance b) + account_sum rows id
     /\ b_LastPostingID b' = N.max (b_LastPostingID b) (last_posting rows id)) ->
  (forall a b', a ∈ tb_accounts t -> a_AllowsNegative a = false -> m' !! a_ID a = Some b' -> 0 <= dval (b_Balance b')) ->
  ledger_ok (t <| tb_postings := tb_postings t ++ rows |> <| tb_balances := m' |>) s'.
Proof.
  intros Hok Hs Hj Hfresh Hbal Hrows Hseq Hdom Hupd Hneg.
  destruct (ledger_ok_seq _ _ _ Hs Hok) as [Ha Hjs Hps Hpa Hpj Hb Hr Hc Hn].
  split; cbn [tb_accounts tb_balances tb_journals tb_postings set_field const_to]; try done.
  - apply Forall_app. done.
  - apply Forall_app. split; [done|]. apply Forall_forall. intros r Hr'.
    apply list_elem_of_lookup in Hr' as [i Hi]. destruct (Forall2_lookup_r _ _ _ _ _ Hrows Hi) as (p & Hp & _ & Has & _ & a & Hin & Hid & Hk).
    exists a. split; [done|]. split; [done|]. rewrite Has. unfold account_key, posting_key, newAccountKey in Hk. congruence.
  - apply Forall_app. split; [done|]. apply Forall_forall. intros r Hr'.
    apply list_elem_of_lookup in Hr' as [i Hi]. destruct (Forall2_lookup_r _ _ _ _ _ Hrows Hi) as (p & Hp & -> & _). done.
  - intros j' asset. unfold journal_sum. rewrite sum_where_app. fold (journal_sum (tb_postings t) j' asset).
    rewrite Hb. destruct (decide (j' = j)) as [->|Hne].
    + fold (journal_sum rows j asset). rewrite (rows_asset_sum _ _ _ _ _ Hrows), (Hbal asset). lra.
    + rewrite sum_where_none; [lra|]. intros r Hr' [Ej _].
      apply list_elem_of_lookup in Hr' as [i Hi]. destruct (Forall2_lookup_r _ _ _ _ _ Hrows Hi) as (p & Hp & Hj' & _). congruence.
  - intros id. by rewrite Hdom.
  - intros id b' Hb'. destruct (Hupd id b' Hb') as (b & Hb0 & Hv & Hl). destruct (Hc id b Hb0) as [Hv0 Hl0].
    rewrite last_posting_app. split; [|congruence]. unfold account_sum. rewrite sum_where_app.
    fold (account_sum (tb_postings t) id). fold (account_sum rows id). by rewrite Hv, Hv0.
Qed.
End Record.
