(* ===== verification/LedgerSpec.v ===== *)
(** * Every outcome of [Record]

    [Record_spec]: from a ledger with the invariant, [Record] either records the
    journal (the balances of the named accounts change by the postings, nothing
    else does), or finds the key taken by the same journal and changes nothing,
    or fails for one of the listed reasons.  It never fails otherwise, except
    when the database does. *)
From S2P Require Import Prelude Decimal Model Errors Fee Database Ledger LedgerInv.
From Stdlib Require Import Lia.

Section Spec.
Context {DL : DecimalLib} {DLaws : DecimalLaws DL}.
Local Open Scope Q_scope.

(** ** The same journal *)

Definition stored_postings (t : Tables) (journal : N) : list Posting :=
  filter (fun p => p_JournalID p = journal) (tb_postings t).

(** A stored posting that says what an input posting says. *)
Definition stored_as (t : Tables) (p : PostingInput) (r : Posting) : Prop :=
  p_Asset r = pi_Asset p /\ dval (p_Amount r) == dval (pi_Amount p)
  /\ exists a, a ∈ tb_accounts t /\ a_ID a = p_AccountID r /\ a_AccountType a = pi_AccountType p
       /\ ownerValue (a_OwnerUserID a) = ownerValue (pi_OwnerUserID p).

(** The entry and, up to order, the postings that [i] asks for. *)
Definition same_journal (t : Tables) (i : JournalInput) (e : JournalEntry) : Prop :=
  entry_of i e /\ exists l, l ≡ₚ in_Postings i /\ Forall2 (stored_as t) l (stored_postings t (j_ID e)).

Lemma sortPostingTuples_eq l k : sortPostingTuples l = sortPostingTuples k <-> l ≡ₚ k.
Proof.
  unfold sortPostingTuples. split; intros H.
  - rewrite <- (merge_sort_Permutation tuple_le l), <- (merge_sort_Permutation tuple_le k). by rewrite H.
  - apply (StronglySorted_unique tuple_le); [apply (StronglySorted_merge_sort tuple_le) ..|].
    by rewrite (merge_sort_Permutation tuple_le l), (merge_sort_Permutation tuple_le k).
Qed.

Lemma accounts_by_id_lookup t s ids a : ledger_ok t s -> a ∈ tb_accounts t -> a_ID a ∈ ids ->
  accounts_by_id t ids !! a_ID a = Some a.
Proof.
  intros Hok Ha Hid. unfold accounts_by_id. apply elem_of_list_to_map.
  - change (NoDup (map fst (map (fun a => (a_ID a, a)) (filter (fun a => a_ID a ∈ ids) (tb_accounts t))))).
    rewrite map_map. cbn [fst]. apply NoDup_map_filter, (lo_accounts _ _ Hok).
  - apply (list_elem_of_fmap_2 (fun a => (a_ID a, a))). by apply list_elem_of_filter.
Qed.

(** The tuple of a stored posting. *)
Definition tuple_of (t : Tables) (r : Posting) (u : postingTuple) : Prop :=
  exists a, a ∈ tb_accounts t /\ a_ID a = p_AccountID r
    /\ u = (a_AccountType a, (ownerValue (a_OwnerUserID a), (p_Asset r, DString (p_Amount r)))).

Lemma stored_tuples_spec t s rows ids : ledger_ok t s ->
  (forall r, r ∈ rows -> r ∈ tb_postings t /\ p_AccountID r ∈ ids) ->
  exists us, map_result (stored_tuple (accounts_by_id t ids)) rows = Ok us /\ Forall2 (tuple_of t) rows us.
Proof.
  intros Hok. induction rows as [|r rows IH]; intros Hin; cbn [map_result]; [by exists []|].
  destruct (Hin r) as [Hr Hid]; [by left|]. pose proof (lo_postings_account _ _ Hok) as Hf. rewrite Forall_forall in Hf.
  destruct (Hf r Hr) as (a & Ha & Ea & _). assert (Hst : stored_tuple (accounts_by_id t ids) r
    = Ok (a_AccountType a, (ownerValue (a_OwnerUserID a), (p_Asset r, DString (p_Amount r))))).
  { unfold stored_tuple. rewrite <- Ea in Hid |- *. by rewrite (accounts_by_id_lookup t s ids a Hok Ha Hid). }
  rewrite Hst. cbn [mbind result_bind].
  destruct IH as (us & -> & Hus); [intros x Hx; apply Hin; by right|]. cbn.
  eexists. split; [done|]. constructor; [|done]. by exists a.
Qed.

Lemma tuple_stored_as t s p r u : ledger_ok t s -> tuple_of t r u -> u = incoming_tuple p <-> stored_as t p r.
Proof.
  intros Hok (a & Ha & Ea & ->). unfold incoming_tuple, stored_as. split.
  - intros E. assert (DString (p_Amount r) = DString (pi_Amount p)) as Hd by congruence.
    apply DString_dval in Hd. split; [congruence|]. split; [done|]. exists a. split; [done|]. split; [done|]. split; congruence.
  - intros (Has & Hamt & a' & Ha' & Ea' & Ht & Ho). apply DString_dval in Hamt.
    assert (a = a') as -> by (eapply account_by_id; [apply Hok | done | done | congruence]). congruence.
Qed.

Lemma assertSameJournal_spec i e t s : ledger_ok t s -> e ∈ tb_journals t -> j_IdempotencyKey e = in_IdempotencyKey i ->
  wp (assertSameJournal e i) (fun _ t' s' => t' = t /\ s' = s /\ same_journal t i e)
    (fun err => DomainErrorKind err = Some ErrorKindConflict /\ ~ same_journal t i e) t s.
Proof.
  intros Hok He Hkey. unfold assertSameJournal, equalUintPtr.
  destruct (_ || _) eqn:Ehd.
  { apply wp_throw. split; [done|]. intros [(H1 & _ & H2 & H3 & H4) _]. rewrite H1, H2, H3, H4 in Ehd.
    by rewrite !bool_decide_eq_true_2 in Ehd. }
  repeat (apply orb_false_iff in Ehd as [Ehd ?]). repeat match goal with H : negb _ = false |- _ => apply negb_false_iff, bool_decide_eq_true in H end.
  assert (Hent : entry_of i e) by done.
  apply wp_bind, wp_query. fold (stored_postings t (j_ID e)). set (rows := stored_postings t (j_ID e)).
  case_decide as Hlen.
  { apply wp_throw. split; [done|]. intros [_ (l & Hp & Hall)]. apply Hlen. rewrite <- Hp. symmetry. by eapply Forall2_length. }
  apply wp_bind, wp_query.
  destruct (stored_tuples_spec t s rows (map p_AccountID rows) Hok) as (us & -> & Hus).
  { intros r Hr. split; [by apply list_elem_of_filter in Hr as [_ ?] | by apply (list_elem_of_fmap_2 p_AccountID)]. }
  apply wp_bind, wp_lift.
  assert (Hiff : us ≡ₚ map incoming_tuple (in_Postings i) <-> exists l, l ≡ₚ in_Postings i /\ Forall2 (stored_as t) l rows).
  { split.
    - intros Hp. apply Permutation_map_inv in Hp as (l & -> & Hl). exists l. split; [done|].
      clear -Hok Hus. remember (map incoming_tuple l) as us eqn:E. revert l E.
      induction Hus as [|r u rows us Hu Hus IH]; intros [|p l] E; simplify_eq/=; constructor; [|by apply IH].
      by apply (tuple_stored_as t s p r _ Hok Hu).
    - intros (l & Hl & Hall). rewrite <- Hl. assert (us = map incoming_tuple l) as ->; [|done].
      clear -Hok Hus Hall. revert l Hall. induction Hus as [|r u rows us Hu Hus IH]; intros l Hall; inversion Hall; subst; [done|].
      cbn. f_equal; [|by apply IH]. by apply (tuple_stored_as t s _ r u Hok Hu). }
  case_decide as Hs.
  - apply wp_throw. split; [done|]. intros [_ Hl]. apply Hs, sortPostingTuples_eq, Hiff, Hl.
  - apply wp_ret. split; [done|]. split; [done|]. split; [done|]. apply Hiff, sortPostingTuples_eq. exact Hs.
Qed.

(** ** Outcomes *)

(** [t'] is [t] with the journal [i] recorded as [e]. *)
Record recorded (i : JournalInput) (e : JournalEntry) (t t' : Tables) : Prop := {
  rc_new : find_journal t (in_IdempotencyKey i) = None;
  rc_valid : valid_journal i;
  rc_entry : entry_of i e;
  rc_journals : tb_journals t' = tb_journals t ++ [e];
  rc_postings : exists rows, tb_postings t' = tb_postings t ++ rows
                  /\ Forall2 (row_of (tb_accounts t') (j_ID e)) (in_Postings i) rows;
  rc_accounts : exists extra, tb_accounts t' = tb_accounts t ++ extra
                  /\ Forall (fun a => account_key a ∈ map posting_key (in_Postings i)) extra;
  rc_rest : same_rest t t';
  rc_balances : forall k, balance_of t' k == balance_of t k + key_sum k (in_Postings i) }.

(** A posting would take an account below zero that may not go there. *)
Definition overdraws (t : Tables) (i : JournalInput) : Prop :=
  exists p, p ∈ in_Postings i /\ AllowsNegativeBalance (pi_AccountType p) = false
    /\ balance_of t (posting_key p) + key_sum (posting_key p) (in_Postings i) < 0.

Inductive record_fails (t : Tables) (i : JournalInput) (err : error) : Prop :=
| rf_invalid : validateJournalInput i = Err err -> record_fails t i err
| rf_conflict e : valid_journal i -> find_journal t (in_IdempotencyKey i) = Some e -> ~ same_journal t i e ->
    DomainErrorKind err = Some ErrorKindConflict -> record_fails t i err
| rf_journal name : valid_journal i -> find_journal t (in_IdempotencyKey i) = None ->
    violates_journal t i name -> err = ConstraintViolation name -> record_fails t i err
| rf_account : valid_journal i -> find_journal t (in_IdempotencyKey i) = None ->
    bad_spec (map posting_spec (in_Postings i)) err -> record_fails t i err
| rf_overdraws : valid_journal i -> find_journal t (in_IdempotencyKey i) = None -> overdraws t i ->
    DomainErrorKind err = Some ErrorKindConflict -> record_fails t i err.

(** The maps [Record] builds from the rows of [EnsureAccounts]. *)
Lemma rows_by_key rows (t : Tables) (keys : list accountKey) p : (forall a : Account, a ∈ rows <-> a ∈ tb_accounts t /\ account_key a ∈ keys) ->
  NoDup (map account_key rows) -> (forall k, k ∈ keys -> k ∈ map account_key (tb_accounts t)) -> posting_key p ∈ keys ->
  exists a, (list_to_map (map (fun a => (account_key a, a)) rows) : gmap accountKey Account) !! posting_key p = Some a
    /\ a ∈ tb_accounts t /\ account_key a = posting_key p.
Proof.
  intros Hrows Hnd Hall Hin. pose proof (Hall _ Hin) as Ha. apply list_elem_of_fmap in Ha as (a & Ek & Ha).
  exists a. split; [|done]. rewrite Ek. apply elem_of_list_to_map.
  - change (NoDup (map fst (map (fun a => (account_key a, a)) rows))). by rewrite map_map.
  - apply (list_elem_of_fmap_2 (fun a => (account_key a, a))). apply Hrows. by rewrite <- Ek.
Qed.

Lemma rows_allow rows (a : Account) : NoDup (map a_ID rows) -> a ∈ rows ->
  (list_to_map (map (fun a => (a_ID a, a_AllowsNegative a)) rows) : gmap N bool) !! a_ID a = Some (a_AllowsNegative a).
Proof.
  intros Hnd Ha. apply elem_of_list_to_map.
  - change (NoDup (map fst (map (fun a => (a_ID a, a_AllowsNegative a)) rows))). by rewrite map_map.
  - by apply (list_elem_of_fmap_2 (fun a => (a_ID a, a_AllowsNegative a))).
Qed.

Lemma delta_ids_NoDup (delta : gmap N decimal) : NoDup (sort_ids (map fst (map_to_list delta))).
Proof. unfold sort_ids. rewrite merge_sort_Permutation. apply NoDup_fst_map_to_list. Qed.
Lemma delta_ids_elem (delta : gmap N decimal) id : id ∈ sort_ids (map fst (map_to_list delta)) <-> is_Some (delta !! id).
Proof.
  rewrite elem_of_sort_ids. split.
  - intros H. apply list_elem_of_fmap in H as ([id' d] & -> & H). apply elem_of_map_to_list in H. by eexists.
  - intros [d Hd]. apply (list_elem_of_fmap_2 fst _ (id, d)). by apply elem_of_map_to_list.
Qed.

Lemma row_of_same accounts j p r r' : row_of accounts j p r -> same_posting r r' -> row_of accounts j p r'.
Proof. intros (H1 & H2 & H3 & a & H4 & H5 & H6) (E1 & E2 & E3 & E4). repeat split; try congruence. exists a. split; [done|]. split; congruence. Qed.
Lemma same_posting_sums rows rows' id : Forall2 same_posting rows rows' -> account_sum rows' id == account_sum rows id.
Proof.
  intros H. symmetry. apply sum_where_Forall2. eapply Forall2_impl; [exact H|]. cbn.
  intros r r' (_ & E & _ & Ea). by rewrite E, Ea.
Qed.

(** The balance row of every account that a planned row touches. *)
Lemma planned_rows_exist t s j l rows : ledger_ok t s -> Forall2 (row_of (tb_accounts t) j) l rows ->
  forall id, id ∈ map p_AccountID rows -> exists a b, a ∈ tb_accounts t /\ a_ID a = id
    /\ tb_balances t !! id = Some b /\ account_key a ∈ map posting_key l.
Proof.
  intros Hok Hrows id Hid. apply list_elem_of_fmap in Hid as (r & -> & Hr). apply list_elem_of_lookup in Hr as [n Hn].
  destruct (Forall2_lookup_r _ _ _ _ _ Hrows Hn) as (p & Hp & _ & _ & _ & a & Ha & Ea & Hk).
  destruct (proj2 (lo_rows _ _ Hok (p_AccountID r))) as [b Hb].
  { rewrite <- Ea. by apply (list_elem_of_fmap_2 a_ID). }
  exists a, b. split; [done|]. split; [done|]. split; [done|]. rewrite Hk.
  apply (list_elem_of_fmap_2 posting_key). by eapply list_elem_of_lookup_2.
Qed.

Lemma Forall2_compose {A B C} (P : A -> B -> Prop) (Q : B -> C -> Prop) (R : A -> C -> Prop) l k m :
  (forall x y z, P x y -> Q y z -> R x z) -> Forall2 P l k -> Forall2 Q k m -> Forall2 R l m.
Proof. intros HR H. revert m. induction H; intros m Hm; inversion Hm; subst; constructor; eauto. Qed.

(** Writing the rows and the balances of a checked plan. *)
Lemma write_rows_spec t s j l rows (delta : gmap N decimal) ids : ledger_ok t s ->
  Forall2 (row_of (tb_accounts t) j) l rows -> NoDup ids -> (forall id, id ∈ ids <-> id ∈ map p_AccountID rows) ->
  (forall id, delta_at delta id == account_sum rows id) ->
  j ∈ map j_ID (tb_journals t) -> (forall p, p ∈ tb_postings t -> p_JournalID p <> j) ->
  Forall posting_input_ok l -> balanced l -> l <> [] ->
  (forall a b, a ∈ tb_accounts t -> a_AllowsNegative a = false -> a_ID a ∈ ids -> tb_balances t !! a_ID a = Some b ->
     0 <= dval (b_Balance b) + delta_at delta (a_ID a)) ->
  wp (created_rows ← CreatePostings rows;
      ApplyBalanceDeltas (map (fun id => mkBalanceDelta id (default Zero (delta !! id))
                                           (default 0%N (foldl note_posting ∅ created_rows !! id))) ids))
    (fun _ t' s' => ledger_ok t' s' /\ exists rows' m', t' = t <| tb_postings := tb_postings t ++ rows' |> <| tb_balances := m' |>
       /\ Forall2 (row_of (tb_accounts t) j) l rows')
    (fun _ => False) t s.
Proof.
  intros Hok Hplan Hnd Hids Hdelta Hj Hfresh Hin Hbal Hne Hnn.
  pose proof (planned_rows_exist t s j l rows Hok Hplan) as Hexist.
  apply wp_bind. eapply wp_mono; [apply CreatePostings_spec | | done].
  { intros ->. by apply Forall2_nil_inv_r in Hplan. }
  { apply Forall_forall. intros r Hr. apply list_elem_of_lookup in Hr as [n Hn].
    destruct (Forall2_lookup_r _ _ _ _ _ Hplan Hn) as (p & Hp & Ej & _ & Ea & a & Ha & Eid & _).
    rewrite Forall_forall in Hin. destruct (Hin p) as (_ & Hz & _); [by eapply list_elem_of_lookup_2|].
    rewrite Ea, Ej, <- Eid. split; [done|]. split; [done|]. by apply (list_elem_of_fmap_2 a_ID). }
  intros rows' t1 s1 Hs1 (-> & Hsame & Hseq).
  assert (Hplan' : Forall2 (row_of (tb_accounts t) j) l rows').
  { eapply Forall2_compose; [|exact Hplan | exact Hsame]. intros p r r'. apply row_of_same. }
  set (ds := map _ ids).
  set (mk := fun id => mkBalanceDelta id (default Zero (delta !! id)) (default 0%N (foldl note_posting ∅ rows' !! id))).
  assert (Hmk : forall id, id ∈ ids -> mk id ∈ ds) by (intros id Hid; by apply (list_elem_of_fmap_2 mk)).
  assert (Hds : map bd_AccountID ds = ids) by (unfold ds; rewrite map_map; apply map_id).
  eapply wp_mono; [apply ApplyBalanceDeltas_spec; rewrite ?Hds; [done|] | | done].
  { intros d Hd. assert (Hd' : bd_AccountID d ∈ ids) by (rewrite <- Hds; by apply (list_elem_of_fmap_2 bd_AccountID)).
    cbn [tb_balances set_field const_to]. apply Hids, Hexist in Hd' as (a & b & _ & _ & -> & _). by eexists. }
  cbn [tb_balances set_field const_to]. intros u t2 s2 _ (-> & m' & -> & Hout & Hupd). rewrite Hds in Hout.
  assert (Hrow : forall id b', m' !! id = Some b' -> exists b, tb_balances t !! id = Some b
     /\ dval (b_Balance b') == dval (b_Balance b) + account_sum rows' id
     /\ b_LastPostingID b' = N.max (b_LastPostingID b) (last_posting rows' id)).
  { intros id b' Hb'. destruct (decide (id ∈ ids)) as [Hid|Hid].
    - pose proof Hid as Hid'. apply Hids, Hexist in Hid' as (a & b & _ & _ & Hb & _). exists b. split; [done|].
      pose proof (Hupd (mk id) b (Hmk id Hid) Hb) as Hu.
      change (bd_AccountID (mk id)) with id in Hu. rewrite Hu in Hb'. simplify_eq. unfold mk. cbn [b_Balance b_LastPostingID bd_Delta bd_LastPostingID]. rewrite dval_Add, note_postings_spec, lookup_empty, (same_posting_sums rows rows' id Hsame).
      fold (delta_at delta id). rewrite Hdelta. split; [done | cbn; lia].
    - rewrite Hout in Hb' by done. exists b'. split; [done|].
      assert (Hno : forall p, p ∈ rows' -> p_AccountID p <> id).
      { intros r' Hr' <-. apply Hid, Hids. apply list_elem_of_lookup in Hr' as [n Hn].
        destruct (Forall2_lookup_r _ _ _ _ _ Hsame Hn) as (r & Hr & _ & -> & _).
        apply (list_elem_of_fmap_2 p_AccountID). by eapply list_elem_of_lookup_2. }
      destruct (no_postings_sum rows' id Hno) as [-> ->]. split; [lra | lia]. }
  split; [|by exists rows', m'].
  apply (ledger_ok_post t s s1 j l); try done.
  - eapply Forall_impl; [exact Hseq|]. cbn. lia.
  - intros id. split; [intros [b' Hb']; destruct (Hrow id b' Hb') as (b & -> & _); by eexists|].
    intros [b Hb]. destruct (decide (id ∈ ids)) as [Hid|Hid]; [|rewrite Hout by done; by eexists].
    pose proof (Hupd (mk id) b (Hmk id Hid) Hb) as Hu. change (bd_AccountID (mk id)) with id in Hu. rewrite Hu. by eexists.
  - intros a b' Ha Haf Hb'. destruct (Hrow _ _ Hb') as (b & Hb & Hv & _). rewrite Hv, (same_posting_sums rows rows' _ Hsame), <- Hdelta.
    destruct (decide (a_ID a ∈ ids)) as [Hid|Hid]; [by apply Hnn|].
    rewrite Hdelta. destruct (no_postings_sum rows (a_ID a)) as [-> _].
    { intros r Hr E. apply Hid, Hids. rewrite <- E. by apply (list_elem_of_fmap_2 p_AccountID). }
    pose proof (lo_nonnegative _ _ Hok a b Ha Haf Hb). lra.
Qed.

Lemma post_journal_spec e l accountRows t s : ledger_ok t s ->
  (forall a, a ∈ accountRows <-> a ∈ tb_accounts t /\ account_key a ∈ map posting_key l) ->
  NoDup (map account_key accountRows) -> NoDup (map a_ID accountRows) ->
  (forall k, k ∈ map posting_key l -> k ∈ map account_key (tb_accounts t)) ->
  j_ID e ∈ map j_ID (tb_journals t) -> (forall p, p ∈ tb_postings t -> p_JournalID p <> j_ID e) ->
  Forall posting_input_ok l -> balanced l -> l <> [] ->
  wp (post_journal e l accountRows)
    (fun _ t' s' => ledger_ok t' s' /\ exists rows m', t' = t <| tb_postings := tb_postings t ++ rows |> <| tb_balances := m' |>
       /\ Forall2 (row_of (tb_accounts t) (j_ID e)) l rows)
    (fun err => DomainErrorKind err = Some ErrorKindConflict /\
       exists a, a ∈ tb_accounts t /\ account_key a ∈ map posting_key l /\ a_AllowsNegative a = false
         /\ balance_of t (account_key a) + key_sum (account_key a) l < 0) t s.
Proof.
  intros Hok Hrows Hnk Hni Hall Hj Hfresh Hin Hbal Hne. unfold post_journal.
  destruct (plan_postings_spec (j_ID e) (tb_accounts t) (list_to_map (map (fun a => (account_key a, a)) accountRows)) l)
    with (delta := (∅ : gmap N decimal)) as (rows & delta & -> & Hplan & Hdelta & Hdom).
  { intros p Hp. eapply rows_by_key; [exact Hrows | done | done |]. by apply (list_elem_of_fmap_2 posting_key). }
  assert (Hdelta' : forall id, delta_at delta id == account_sum rows id).
  { intros id. rewrite Hdelta. unfold delta_at. rewrite lookup_empty. cbn. rewrite dval_Zero. lra. }
  assert (Hdom' : forall id, is_Some (delta !! id) <-> id ∈ map p_AccountID rows).
  { intros id. rewrite Hdom, lookup_empty. split; [by intros [[? ?]|] | by right]. }
  pose proof (planned_rows_exist t s (j_ID e) l rows Hok Hplan) as Hexist.
  apply wp_bind, wp_lift. set (ids := sort_ids (map fst (map_to_list delta))).
  assert (Hids : forall id, id ∈ ids <-> id ∈ map p_AccountID rows) by (intros; unfold ids; by rewrite delta_ids_elem, Hdom').
  apply wp_bind. eapply wp_mono; [apply (LockBalances_spec ids) | | done].
  { apply delta_ids_NoDup. } { intros id Hid. apply Hids, Hexist in Hid as (a & b & _ & _ & -> & _). by eexists. }
  intros balances t1 s1 _ (-> & -> & Hbalances). apply wp_bind.
  set (allows := list_to_map _). pose proof (check_negative_spec delta allows balances) as Hneg.
  assert (Hallow : forall id b, (id, b) ∈ balances -> exists a, a ∈ tb_accounts t /\ a_ID a = id
     /\ default false (allows !! id) = a_AllowsNegative a /\ account_key a ∈ map posting_key l
     /\ dval (b_Balance b) + delta_at delta id == balance_of t (account_key a) + key_sum (account_key a) l).
  { intros id b Hib. apply Hbalances in Hib as [Hid Hb]. apply Hids, Hexist in Hid as (a & b' & Ha & Ea & _ & Hk).
    exists a. split; [done|]. split; [done|]. subst id. unfold allows.
    rewrite (rows_allow accountRows a Hni) by by apply Hrows. split; [done|]. split; [done|].
    rewrite Hdelta', (rows_account_sum t s _ l rows a Hok Ha Hplan), (balance_of_sum t s a Hok Ha).
    by rewrite (proj1 (lo_cache _ _ Hok _ _ Hb)). }
  apply wp_lift. destruct (check_negative _ _ _) as [[]|err].
  2: { destruct Hneg as (Hkind & id & b & Hib & Haf & Hlt). split; [done|].
       destruct (Hallow id b Hib) as (a & Ha & _ & Hal & Hk & Hv). exists a. split; [done|]. split; [done|].
       split; [congruence|]. by rewrite <- Hv. }
  eapply wp_mono; [apply (write_rows_spec t s (j_ID e) l rows delta ids) | | done]; try done.
  - apply delta_ids_NoDup.
  - intros a b Ha Haf Hid Hb. assert (Hib : (a_ID a, b) ∈ balances) by by apply Hbalances.
    apply Hneg; [done|]. destruct (Hallow _ _ Hib) as (a' & Ha' & E & -> & _).
    by rewrite (account_by_id _ _ _ _ (lo_accounts _ _ Hok) Ha' Ha E).
Qed.

Lemma posting_spec_keys l : map spec_key (map posting_spec l) = map posting_key l.
Proof. by rewrite map_map. Qed.

Lemma recorded_balance t t' s s' e i rows extra k : ledger_ok t s -> ledger_ok t' s' ->
  tb_accounts t' = tb_accounts t ++ extra -> tb_postings t' = tb_postings t ++ rows ->
  Forall2 (row_of (tb_accounts t') (j_ID e)) (in_Postings i) rows ->
  balance_of t' k == balance_of t k + key_sum k (in_Postings i).
Proof.
  intros Hok Hok' Ha Hp Hrows. destruct (find_account t' k) as [a|] eqn:E.
  - apply find_account_Some in E as [Hin <-]. rewrite (balance_of_sum t' s' a Hok' Hin), Hp.
    unfold account_sum at 1. rewrite sum_where_app. fold (account_sum (tb_postings t) (a_ID a)). fold (account_sum rows (a_ID a)).
    rewrite (rows_account_sum t' s' _ _ _ a Hok' Hin Hrows).
    destruct (decide (a ∈ tb_accounts t)) as [Hin0|Hin0]; [by rewrite (balance_of_sum t s a Hok Hin0)|].
    rewrite balance_of_none.
    + destruct (no_postings_sum (tb_postings t) (a_ID a)) as [-> _]; [|done]. intros p Hpin E.
      pose proof (lo_postings_account _ _ Hok) as Hf. rewrite Forall_forall in Hf. destruct (Hf p Hpin) as (a0 & H0 & E0 & _).
      apply Hin0. replace a with a0; [done|]. eapply account_by_id; [apply Hok' | | done | congruence].
      rewrite Ha. apply elem_of_app. by left.
    + intros Hk. apply list_elem_of_fmap in Hk as (a0 & Ek & H0). apply Hin0. replace a with a0; [done|].
      eapply account_by_key; [apply Hok' | | done | done]. rewrite Ha. apply elem_of_app. by left.
  - apply find_account_None in E. rewrite (balance_of_none t' k E), (balance_of_none t k).
    + unfold key_sum. rewrite sum_where_none; [lra|]. intros p Hpin Hk. apply E. rewrite <- Hk.
      apply list_elem_of_lookup in Hpin as [n Hn]. destruct (Forall2_lookup_l _ _ _ _ _ Hrows Hn) as (r & _ & _ & _ & _ & a & Hin & _ & <-).
      by apply (list_elem_of_fmap_2 account_key).
    + intros Hin. apply E. rewrite Ha, map_app. apply elem_of_app. by left.
Qed.

Lemma posting_type_of_key a p : account_key a = posting_key p -> a_AccountType a = pi_AccountType p.
Proof. unfold account_key, posting_key, newAccountKey. congruence. Qed.

Theorem Record_spec i t s : ledger_ok t s ->
  wp (Record_ i)
    (fun '(e, created) t' s' => ledger_ok t' s' /\
       if (created : bool) then recorded i e t t'
       else t' = t /\ valid_journal i /\ find_journal t (in_IdempotencyKey i) = Some e /\ same_journal t i e)
    (record_fails t i) t s.
Proof.
  intros Hok. unfold Record_. apply wp_bind, wp_lift.
  destruct (validateJournalInput i) as [[]|err] eqn:Ev; [|by apply rf_invalid].
  apply validateJournalInput_Ok in Ev as Hv. apply wp_bind.
  eapply wp_mono; [apply (InsertOrGet_spec i t s Hok) | |].
  2: { intros err (name & -> & Hviol & Hnone). by eapply rf_journal. }
  intros [e created] t1 s1 Hs1. destruct created; cbn [negb].
  2: { intros [Hfind ->]. destruct (find_journal_Some _ _ _ Hfind) as [He Hkey]. apply wp_bind.
       eapply wp_mono; [apply (assertSameJournal_spec i e t s1); [by eapply ledger_ok_seq | done | done] | |].
       - intros u t2 s2 _ (-> & -> & Hsame). apply wp_ret. split; [by eapply ledger_ok_seq | done].
       - intros err [Hk Hns]. by eapply rf_conflict. }
  intros (Hnone & Hentry & Hfresh & Hok1 & Et1). apply wp_bind.
  eapply wp_mono; [apply (EnsureAccounts_spec _ t1 s1 Hok1) | |].
  2: { intros err Hbad. by apply rf_account. }
  rewrite posting_spec_keys. intros accountRows t2 s2 Hs2 (Hok2 & Hprov & Hrows & Hnk & Hni). apply wp_bind.
  assert (Ej2 : tb_journals t2 = tb_journals t ++ [e]) by (rewrite (pv_journals _ _ _ Hprov); by rewrite Et1).
  assert (Ep2 : tb_postings t2 = tb_postings t) by (rewrite (pv_postings _ _ _ Hprov); by rewrite Et1).
  destruct (pv_accounts _ _ _ Hprov) as (extra & Ea2 & Hextra).
  assert (Ea1 : tb_accounts t1 = tb_accounts t) by by rewrite Et1. rewrite Ea1 in Ea2.
  destruct Hv as (H1 & H2 & H3 & Hlen & H5 & Hpi & Hbal).
  assert (Hsame1 : forall k, balance_of t1 k = balance_of t k) by (intros k; by rewrite Et1).
  eapply wp_mono; [apply (post_journal_spec e (in_Postings i) accountRows t2 s2); try done | |].
  - apply Hprov.
  - rewrite Ej2, map_app. apply elem_of_app. right. by left.
  - intros p Hp E. rewrite Ep2 in Hp. pose proof (lo_postings_journal _ _ Hok) as Hf. rewrite Forall_forall in Hf.
    specialize (Hf p Hp). rewrite E in Hf. apply list_elem_of_fmap in Hf as (e0 & E0 & He0).
    pose proof (jo_seq _ _ (lo_journals _ _ Hok)) as Hq. rewrite Forall_forall in Hq. specialize (Hq e0 He0). cbn in Hq. lia.
  - intros Hnil. rewrite Hnil in Hlen. cbn in Hlen. lia.
  - intros u t3 s3 _ (Hok3 & rows & m' & Et3 & Hr). apply wp_ret. split; [done|].
    assert (Ea3 : tb_accounts t3 = tb_accounts t2) by by rewrite Et3.
    split; try done.
    + rewrite Et3. exact Ej2.
    + exists rows. rewrite Ea3. split; [|done]. rewrite Et3. cbn. by rewrite Ep2.
    + exists extra. by rewrite Ea3.
    + transitivity t2; [|by rewrite Et3]. transitivity t1; [by rewrite Et1 | apply Hprov].
    + intros k. eapply recorded_balance; [exact Hok | exact Hok3 | rewrite Ea3; exact Ea2 | | by rewrite Ea3].
      rewrite Et3. cbn. by rewrite Ep2.
  - intros err (Hk & a & Ha & Hin & Haf & Hlt). apply rf_overdraws; try done.
    apply list_elem_of_fmap in Hin as (p & Ekp & Hp). exists p. split; [done|]. split.
    + rewrite <- (posting_type_of_key _ _ Ekp). pose proof (ao_flags _ _ (lo_accounts _ _ Hok2)) as Hf.
      rewrite Forall_forall in Hf. destruct (Hf a Ha) as [<- _]. done.
    + rewrite <- Ekp, <- Hsame1, <- (balance_of_provides _ t1 t2 s1 s2 _ Hok1 Hok2 Hprov). done.
Qed.
End Spec.
