(* ===== verification/LedgerTheorems.v ===== *)
(** * What the ledger promises

    Money is conserved, retries record once, a reused key is detected, and a
    reversal cancels its original. *)
From S2P Require Import Prelude Decimal Model Errors Fee Database Ledger LedgerInv LedgerSpec.
From Stdlib Require Import Lia.

Section Theorems.
Context {DL : DecimalLib} {DLaws : DecimalLaws DL}.
Local Open Scope Q_scope.

(** ** Conservation *)

(** The cached balances of all accounts of an asset, added up. *)
Definition total_balance (t : Tables) (asset : string) : Q :=
  Qsum (map (fun a => balance_of t (account_key a)) (filter (fun a => a_Asset a = asset) (tb_accounts t))).

Lemma total_account_sums l s ps asset : accounts_ok l s ->
  Forall (fun p => exists a, a ∈ l /\ a_ID a = p_AccountID p /\ a_Asset a = p_Asset p) ps ->
  Qsum (map (fun a => account_sum ps (a_ID a)) (filter (fun a => a_Asset a = asset) l))
  == sum_where (fun p => p_Asset p = asset) p_Amount ps.
Proof.
  intros Hok. induction ps as [|p ps IH]; intros Hall.
  - rewrite sum_where_nil. induction (filter _ l) as [|a k IHk]; [done|]. cbn [map]. rewrite Qsum_cons, IHk.
    unfold account_sum. rewrite sum_where_nil. lra.
  - apply Forall_cons in Hall as [(a0 & Ha0 & Eid & Eas) Hall]. rewrite sum_where_cons, <- (IH Hall).
    set (k := filter (fun a => a_Asset a = asset) l).
    assert (Hsplit : forall k, Qsum (map (fun a => account_sum (p :: ps) (a_ID a)) k)
      == Qsum (map (fun a => if decide (p_AccountID p = a_ID a) then dval (p_Amount p) else 0) k)
         + Qsum (map (fun a => account_sum ps (a_ID a)) k)).
    { induction k0 as [|a k0 IHk]; cbn [map]; rewrite ?Qsum_nil, ?Qsum_cons; [lra|]. rewrite IHk.
      unfold account_sum at 1. rewrite sum_where_cons. fold (account_sum ps (a_ID a)). lra. }
    rewrite Hsplit. apply Qplus_inj_r.
    assert (Hone : forall k, NoDup (map a_ID k) ->
      Qsum (map (fun a => if decide (p_AccountID p = a_ID a) then dval (p_Amount p) else 0) k)
      == if decide (p_AccountID p ∈ map a_ID k) then dval (p_Amount p) else 0).
    { clear. induction k as [|a k IHk]; intros Hnd; cbn [map].
      - rewrite decide_False by (by intros ?%elem_of_nil). done.
      - cbn [map] in Hnd. apply NoDup_cons in Hnd as [Hn Hnd]. rewrite Qsum_cons, IHk by done. clear IHk.
        rewrite (decide_ext _ _ _ _ (elem_of_cons (map a_ID k) (p_AccountID p) (a_ID a))).
        repeat case_decide; try lra; exfalso; intuition congruence. }
    rewrite Hone by (apply NoDup_map_filter, Hok).
    assert (Hiff : p_AccountID p ∈ map a_ID k <-> p_Asset p = asset).
    { split.
      - intros Hin. apply list_elem_of_fmap in Hin as (a & E & Ha). apply list_elem_of_filter in Ha as [<- Ha].
        rewrite <- Eas. f_equal. eapply account_by_id; [done | done | done | congruence].
      - intros Has. rewrite <- Eid. apply (list_elem_of_fmap_2 a_ID). apply list_elem_of_filter. split; [congruence | done]. }
    repeat case_decide; try lra; exfalso; tauto.
Qed.

Lemma Qsum_map_ext {A} (f g : A -> Q) l : (forall x, x ∈ l -> f x == g x) -> Qsum (map f l) == Qsum (map g l).
Proof.
  induction l as [|x l IH]; intros H; [done|]. cbn [map]. rewrite !Qsum_cons, IH by (intros; apply H; by right).
  rewrite (H x) by by left. done.
Qed.

(** All postings of an asset add up to zero, journal by journal. *)
Lemma asset_postings_zero t s asset : ledger_ok t s -> sum_where (fun p => p_Asset p = asset) p_Amount (tb_postings t) == 0.
Proof.
  intros Hok. pose proof (jo_ids _ _ (lo_journals _ _ Hok)) as Hnd. pose proof (lo_postings_journal _ _ Hok) as Hj.
  pose proof (lo_balanced _ _ Hok) as Hb. revert Hnd Hj. generalize (map j_ID (tb_journals t)) as js.
  assert (Hgen : forall js ps, NoDup js -> Forall (fun p => p_JournalID p ∈ js) ps ->
    sum_where (fun p => p_Asset p = asset) p_Amount ps == Qsum (map (fun j => journal_sum ps j asset) js)).
  { intros js ps Hnd. induction ps as [|p ps IH]; intros Hall.
    - clear. induction js as [|j js IH]; [done|]. cbn [map]. rewrite Qsum_cons, <- IH. unfold journal_sum. rewrite !sum_where_nil. lra.
    - apply Forall_cons in Hall as [Hp Hall]. rewrite sum_where_cons, (IH Hall). clear IH Hall.
      assert (Hs : Qsum (map (fun j => journal_sum (p :: ps) j asset) js)
        == (if decide (p_JournalID p ∈ js) then if decide (p_Asset p = asset) then dval (p_Amount p) else 0 else 0)
           + Qsum (map (fun j => journal_sum ps j asset) js)); [|rewrite Hs; destruct (decide (p_JournalID p ∈ js)); [lra | done]].
      clear Hp. induction js as [|j js IH]; cbn [map]; rewrite ?Qsum_nil, ?Qsum_cons.
      + rewrite decide_False by (by intros ?%elem_of_nil). lra.
      + apply NoDup_cons in Hnd as [Hn Hnd]. rewrite (IH Hnd). clear IH. unfold journal_sum at 1. rewrite sum_where_cons.
        fold (journal_sum ps j asset). rewrite (decide_ext _ _ _ _ (elem_of_cons js (p_JournalID p) j)).
        repeat case_decide; try lra; exfalso; intuition congruence. }
  intros js Hnd Hj. rewrite (Hgen js _ Hnd Hj). clear -Hb. induction js as [|j js IH]; [done|].
  cbn [map]. rewrite Qsum_cons, IH, Hb. lra.
Qed.

Lemma total_balance_zero t s asset : ledger_ok t s -> total_balance t asset == 0.
Proof.
  intros Hok. unfold total_balance. rewrite <- (asset_postings_zero t s asset Hok).
  rewrite <- (total_account_sums (tb_accounts t) s (tb_postings t) asset); [|apply Hok | apply Hok].
  apply Qsum_map_ext. intros a Ha. apply list_elem_of_filter in Ha as [_ Ha]. by eapply balance_of_sum.
Qed.

(** ** Once recorded, the key stands for the journal *)

Lemma recorded_stored i e t t' s s' : ledger_ok t s -> ledger_ok t' s' -> recorded i e t t' ->
  Forall2 (row_of (tb_accounts t') (j_ID e)) (in_Postings i) (stored_postings t' (j_ID e)).
Proof.
  intros Hok Hok' Hr. destruct (rc_postings _ _ _ _ Hr) as (rows & Hp & Hrows).
  assert (E : stored_postings t' (j_ID e) = rows); [|by rewrite E].
  unfold stored_postings. rewrite Hp, filter_app. rewrite filter_none.
  - cbn. assert (Hall : Forall (fun r => p_JournalID r = j_ID e) rows).
    { clear -Hrows. induction Hrows as [|p r l rows (Hj & _) _ IH]; by constructor. }
    clear -Hall. induction Hall as [|r rows Hr _ IH]; [done|]. rewrite filter_cons, decide_True by done. by rewrite IH.
  - intros p Hin Hj. pose proof (lo_postings_journal _ _ Hok) as Hf. rewrite Forall_forall in Hf. specialize (Hf p Hin). rewrite Hj in Hf.
    pose proof (jo_ids _ _ (lo_journals _ _ Hok')) as Hnd. rewrite (rc_journals _ _ _ _ Hr), map_app in Hnd.
    apply NoDup_app in Hnd as (_ & Hd & _). apply (Hd _ Hf). by left.
Qed.

Lemma row_stored_as t j p r : row_of (tb_accounts t) j p r -> stored_as t p r.
Proof.
  intros (_ & Has & Hamt & a & Ha & Eid & Ek). split; [done|]. split; [by rewrite Hamt|]. exists a.
  unfold account_key, posting_key, newAccountKey in Ek. split; [done|]. split; [done|]. split; congruence.
Qed.

Lemma recorded_same_journal i e t t' s s' : ledger_ok t s -> ledger_ok t' s' -> recorded i e t t' ->
  same_journal t' i e /\ find_journal t' (in_IdempotencyKey i) = Some e.
Proof.
  intros Hok Hok' Hr. split.
  - split; [apply Hr|]. exists (in_Postings i). split; [done|].
    eapply Forall2_impl; [exact (recorded_stored _ _ _ _ _ _ Hok Hok' Hr)|]. intros p r. apply row_stored_as.
  - destruct (rc_entry _ _ _ _ Hr) as (_ & <- & _). eapply find_journal_unique; [done|].
    rewrite (rc_journals _ _ _ _ Hr). apply elem_of_app. right. by left.
Qed.

(** ** Retries *)

(** Run a transaction again and again, each time under the next fault schedule,
    until it reports success. *)
Fixpoint attempts {A} (body : M A) (schedules : list (list fault)) (w : World) : option A * World :=
  match schedules with
  | [] => (None, w)
  | fs :: rest =>
      match transaction body (mkWorld (w_tables w) (w_seqs w) fs) with
      | (Ok a, w') => (Some a, w')
      | (Err _, w') => attempts body rest w'
      end
  end.

(** The key already stands for [i]: a run reports it or fails, changing nothing. *)
Lemma Record_again i e t s : ledger_ok t s -> valid_journal i -> find_journal t (in_IdempotencyKey i) = Some e ->
  same_journal t i e -> wp (Record_ i) (fun r t' _ => r = (e, false) /\ t' = t) (fun _ => False) t s.
Proof.
  intros Hok Hv Hf Hsame. eapply wp_mono; [by apply Record_spec | |].
  - intros [e' c] t' s' _ [_ H]. destruct c; [pose proof (rc_new _ _ _ _ H); congruence|].
    destruct H as (-> & _ & Hf' & _). split; [|done]. congruence.
  - intros err H. destruct H as [H|e' _ Hf' Hns|? ? Hn|? Hn|? Hn]; [|apply Hns; congruence|congruence ..].
    by rewrite (proj2 (validateJournalInput_Ok i) Hv) in H.
Qed.

Lemma attempts_again i e schedules : forall w r w', ledger_ok (w_tables w) (w_seqs w) -> valid_journal i ->
  find_journal (w_tables w) (in_IdempotencyKey i) = Some e -> same_journal (w_tables w) i e ->
  attempts (Record_ i) schedules w = (r, w') -> w_tables w' = w_tables w /\ (r = None \/ r = Some (e, false)).
Proof.
  induction schedules as [|fs rest IH]; intros w r w' Hok Hv Hf Hs H; cbn [attempts] in H; [simplify_eq; auto|].
  pose proof (transaction_wp _ _ _ (w_tables w) (w_seqs w) fs (Record_again i e _ _ Hok Hv Hf Hs)) as Ht.
  destruct (transaction _ _) as [[a|err] w1]; destruct Ht as (Hs1 & _ & Ht).
  - destruct Ht as [-> Ht]. simplify_eq. auto.
  - assert (E : w_tables w1 = w_tables w) by (destruct Ht as [[E _]|(_ & _ & a & _ & E)]; exact E).
    rewrite <- E. apply IH; rewrite ?E; try done. by eapply ledger_ok_seq.
Qed.

(** C23 Retrying is safe: however often a [Record] of a new journal is tried,
    whatever statements fail and whether or not a commit's acknowledgement is
    lost on the way, a reported success means the journal was recorded exactly
    once (its entry and postings appended, every account changed by exactly the
    sum of its postings), and until then the ledger either has not changed or
    holds the journal exactly once. *)
Theorem record_exactly_once i w schedules r w' : ledger_ok (w_tables w) (w_seqs w) ->
  find_journal (w_tables w) (in_IdempotencyKey i) = None ->
  attempts (Record_ i) schedules w = (r, w') ->
  match r with
  | Some (e, _) => recorded i e (w_tables w) (w_tables w')
  | None => w_tables w' = w_tables w \/ exists e, recorded i e (w_tables w) (w_tables w')
  end.
Proof.
  revert w r w'. induction schedules as [|fs rest IH]; intros w r w' Hok Hf H; cbn [attempts] in H; [simplify_eq; by left|].
  pose proof (transaction_wp _ _ _ (w_tables w) (w_seqs w) fs (Record_spec i _ _ Hok)) as Ht.
  destruct (transaction _ _) as [[[e c]|err] w1]; destruct Ht as (Hs1 & _ & Ht).
  - destruct Ht as [_ Ht]. simplify_eq. destruct c; [done|]. destruct Ht as (_ & _ & Hf' & _). congruence.
  - destruct Ht as [[E _]|(_ & _ & [e c] & Hok1 & Ht)].
    + rewrite <- E. apply IH; rewrite ?E; try done. by eapply ledger_ok_seq.
    + destruct c; [|destruct Ht as (_ & _ & Hf' & _); congruence].
      destruct (recorded_same_journal _ _ _ _ _ _ Hok Hok1 Ht) as [Hsame Hfind].
      destruct (attempts_again i e rest w1 r w' Hok1 (rc_valid _ _ _ _ Ht) Hfind Hsame H) as [-> [-> | ->]]; eauto.
Qed.

(** The answer to a request whose key belongs to the entry [e]. *)
Definition answered (i : JournalInput) (e : JournalEntry) (t : Tables) (r : result error (JournalEntry * bool)) : Prop :=
  match r with
  | Ok (e', created) => e' = e /\ created = false /\ same_journal t i e
  | Err err => is_db err \/ (DomainErrorKind err = Some ErrorKindConflict /\ ~ same_journal t i e)
  end.

(** A key names one journal: when the key of a request is taken, nothing is
    written, and the answer tells the two cases apart: the recorded entry when it
    says what the request says (same event and reference, same postings up to
    order, amounts compared by value), a conflict when it does not. *)
Theorem key_reuse_detected i e w r w' : ledger_ok (w_tables w) (w_seqs w) -> valid_journal i ->
  find_journal (w_tables w) (in_IdempotencyKey i) = Some e ->
  transaction (Record_ i) w = (r, w') ->
  w_tables w' = w_tables w /\
  answered i e (w_tables w) r.
Proof.
  unfold answered. intros Hok Hv Hf H. destruct w as [t s fs]. cbn [w_tables w_seqs] in *.
  assert (Hwp : wp (Record_ i) (fun '(e', created) t' _ => t' = t /\ e' = e /\ created = false /\ same_journal t i e)
    (fun err => DomainErrorKind err = Some ErrorKindConflict /\ ~ same_journal t i e) t s).
  { eapply wp_mono; [by apply Record_spec | |].
    - intros [e' c] t' s' _ [_ Hr]. destruct c; [pose proof (rc_new _ _ _ _ Hr); congruence|].
      destruct Hr as (-> & _ & Hf' & Hs). rewrite Hf' in Hf. by simplify_eq.
    - intros err Hr. destruct Hr as [Hr|e' _ Hf' Hns Hk|? ? Hn|? Hn|? Hn]; [| |congruence ..].
      + by rewrite (proj2 (validateJournalInput_Ok i) Hv) in Hr.
      + rewrite Hf' in Hf. by simplify_eq. }
  pose proof (transaction_wp _ _ _ t s fs Hwp) as Ht. rewrite H in Ht. destruct Ht as (_ & _ & Ht).
  destruct r as [[e' c]|err]; [done|]. destruct Ht as [[-> [[Hdb _]|Hc]]|(-> & _ & [e' c] & -> & _)]; (split; [done|]); auto.
  left. by eexists.
Qed.

(** A journal that names known kinds of accounts and events, and reverses nothing. *)
Definition known_kinds (i : JournalInput) : Prop :=
  in_EventType i ∈ journal_event_types /\ in_ReferenceType i ∈ journal_reference_types
  /\ in_ReversesJournalID i = None
  /\ Forall (fun p => account_checks (pi_AccountType p) (pi_OwnerUserID p) = true) (in_Postings i).

Lemma known_kinds_journal t i name : valid_journal i -> known_kinds i -> ~ violates_journal t i name.
Proof.
  intros (_ & _ & _ & _ & Hr & _) (He & Href & Hrev & _) Hv. specialize (Hv 0%N). unfold journal_violation in Hv.
  cbn [j_EventType j_ReferenceType j_ReversesJournalID] in Hv.
  rewrite (bool_decide_eq_true_2 _ He), (bool_decide_eq_true_2 _ Href) in Hv. cbn [negb] in Hv.
  rewrite (proj2 (bool_eqb_iff _ _) Hr), Hrev in Hv. done.
Qed.
Lemma known_kinds_accounts i err : known_kinds i -> ~ bad_spec (map posting_spec (in_Postings i)) err.
Proof.
  intros (_ & _ & _ & Hk) (sp & Hin & Hc & _). apply list_elem_of_fmap in Hin as (p & -> & Hp).
  rewrite Forall_forall in Hk. specialize (Hk p Hp). cbn in *. congruence.
Qed.

Lemma recorded_not_overdrawn i e t t' s' : ledger_ok t' s' -> recorded i e t t' -> ~ overdraws t i.
Proof.
  intros Hok Hr (p & Hp & Hneg & Hlt). rewrite <- (rc_balances _ _ _ _ Hr) in Hlt.
  destruct (rc_postings _ _ _ _ Hr) as (rows & _ & Hrows). apply list_elem_of_lookup in Hp as [n Hn].
  destruct (Forall2_lookup_l _ _ _ _ _ Hrows Hn) as (r & _ & _ & _ & _ & a & Ha & _ & Ek).
  assert (Hflag : a_AllowsNegative a = false).
  { pose proof (ao_flags _ _ (lo_accounts _ _ Hok)) as Hf. rewrite Forall_forall in Hf. destruct (Hf a Ha) as [-> _].
    by rewrite (posting_type_of_key _ _ Ek). }
  unfold balance_of in Hlt. rewrite <- Ek, (find_account_In _ _ _ Hok Ha) in Hlt.
  destruct (tb_balances t' !! a_ID a) as [b|] eqn:Eb; [|lra].
  pose proof (lo_nonnegative _ _ Hok a b Ha Hflag Eb). lra.
Qed.

(** A new, valid journal over known kinds is recorded exactly when it
    overdraws no account that must stay non-negative; otherwise the answer is a
    conflict and nothing is written.  The decision is made on the balances before
    the journal plus all of its postings to the account. *)
Theorem record_decides i t s : ledger_ok t s -> valid_journal i -> known_kinds i ->
  find_journal t (in_IdempotencyKey i) = None ->
  let '(r, w') := transaction (Record_ i) (mkWorld t s []) in
  (~ overdraws t i /\ exists e, r = Ok (e, true) /\ recorded i e t (w_tables w') /\ ledger_ok (w_tables w') (w_seqs w'))
  \/ (overdraws t i /\ w_tables w' = t /\ exists err, r = Err err /\ DomainErrorKind err = Some ErrorKindConflict).
Proof.
  intros Hok Hv Hk Hf. pose proof (transaction_wp _ _ _ t s [] (Record_spec i t s Hok)) as Ht.
  destruct (transaction _ _) as [[[e c]|err] w']; destruct Ht as (_ & _ & Ht).
  - destruct Ht as [Hok' Ht]. destruct c; [|destruct Ht as (_ & _ & Hf' & _); congruence].
    left. split; [by eapply recorded_not_overdrawn | by exists e].
  - destruct Ht as [[-> [[_ Hn]|Hfail]]|(_ & Hn & _)]; [done | | done].
    destruct Hfail as [Hi|e' _ Hf' _|name _ _ Hj|_ _ Hb|_ _ Ho Hkind].
    + by rewrite (proj2 (validateJournalInput_Ok i) Hv) in Hi.
    + congruence.
    + by destruct (known_kinds_journal t i name Hv Hk).
    + by destruct (known_kinds_accounts i err Hk).
    + right. split; [done|]. split; [done|]. by exists err.
Qed.

(** ** Reversal *)

(** What a journal did to an account. *)
Definition effect_on (t : Tables) (journal : N) (a : Account) : Q :=
  sum_where (fun p => p_AccountID p = a_ID a) p_Amount (stored_postings t journal).

Lemma stored_as_sum t s l rows a : ledger_ok t s -> Forall2 (stored_as t) l rows -> a ∈ tb_accounts t ->
  (forall r, r ∈ rows -> r ∈ tb_postings t) ->
  sum_where (fun p => p_AccountID p = a_ID a) p_Amount rows == key_sum (account_key a) l.
Proof.
  intros Hok Hall Ha. induction Hall as [|p r l rows Hp Hall IH]; intros Hin; [done|].
  unfold key_sum. rewrite !sum_where_cons, IH by (intros; apply Hin; by right). fold (key_sum (account_key a) l).
  destruct Hp as (Has & Hamt & a' & Ha' & Eid & Hty & Hown).
  pose proof (lo_postings_account _ _ Hok) as Hf. rewrite Forall_forall in Hf. destruct (Hf r) as (a2 & Ha2 & Eid2 & Eas2); [apply Hin; by left|].
  assert (a2 = a') as -> by (eapply account_by_id; [apply Hok | done | done | congruence]).
  assert (Hk : account_key a' = posting_key p) by (unfold account_key, posting_key, newAccountKey; congruence).
  assert (Hiff : p_AccountID r = a_ID a <-> posting_key p = account_key a).
  { rewrite <- Eid, <- Hk. split; intros E; f_equal.
    - eapply account_by_id; [apply Hok | done | done | done].
    - eapply account_by_key; [apply Hok | done | done | done]. }
  repeat case_decide; try lra; exfalso; tauto.
Qed.

Lemma same_journal_effect t s i e a : ledger_ok t s -> same_journal t i e -> a ∈ tb_accounts t ->
  effect_on t (j_ID e) a == key_sum (account_key a) (in_Postings i).
Proof.
  intros Hok (_ & l & Hl & Hall) Ha. unfold effect_on. rewrite (stored_as_sum t s l _ a Hok Hall Ha).
  - unfold key_sum, sum_where. by rewrite Hl.
  - intros r Hr. by apply list_elem_of_filter in Hr as [_ ?].
Qed.

(** The reversing postings negate the stored ones. *)
Lemma reversal_inputs t s rows ids : ledger_ok t s -> (forall r, r ∈ rows -> r ∈ tb_postings t /\ p_AccountID r ∈ ids) ->
  exists l, map_result (reversal_posting (accounts_by_id t ids)) rows = Ok l
    /\ (forall p, p ∈ l -> posting_key p ∈ map account_key (tb_accounts t))
    /\ forall a, a ∈ tb_accounts t -> key_sum (account_key a) l == - sum_where (fun p => p_AccountID p = a_ID a) p_Amount rows.
Proof.
  intros Hok. induction rows as [|r rows IH]; intros Hin; cbn [map_result].
  - exists []. split; [done|]. split; [intros p Hp; by apply elem_of_nil in Hp|].
    intros a _. unfold key_sum. rewrite !sum_where_nil. lra.
  - destruct (Hin r) as [Hr Hid]; [by left|]. pose proof (lo_postings_account _ _ Hok) as Hf. rewrite Forall_forall in Hf.
    destruct (Hf r Hr) as (a0 & Ha0 & Eid & Eas).
    assert (Hst : reversal_posting (accounts_by_id t ids) r
      = Ok (mkPostingInput (a_AccountType a0) (a_OwnerUserID a0) (p_Asset r) (Neg (p_Amount r)))).
    { unfold reversal_posting. rewrite <- Eid in Hid |- *. by rewrite (accounts_by_id_lookup t s ids a0 Hok Ha0 Hid). }
    rewrite Hst. destruct IH as (l & -> & Hkeys & Hl); [intros x Hx; apply Hin; by right|]. cbn [mbind result_bind].
    assert (Hkey : newAccountKey (a_AccountType a0) (a_OwnerUserID a0) (p_Asset r) = account_key a0) by (rewrite <- Eas; done).
    eexists. split; [reflexivity|]. split.
    { intros p [->|Hp]%elem_of_cons; [|by apply Hkeys]. unfold posting_key. cbn. rewrite Hkey.
      by apply (list_elem_of_fmap_2 account_key). }
    intros a Ha. unfold key_sum. rewrite !sum_where_cons.
    fold (key_sum (account_key a) l). rewrite (Hl a Ha). cbn [pi_Amount].
    assert (Hiff : p_AccountID r = a_ID a <-> posting_key (mkPostingInput (a_AccountType a0) (a_OwnerUserID a0) (p_Asset r) (Neg (p_Amount r))) = account_key a).
    { change (posting_key _) with (newAccountKey (a_AccountType a0) (a_OwnerUserID a0) (p_Asset r)).
      rewrite Hkey, <- Eid. split; intros E; f_equal.
      - eapply account_by_id; [apply Hok | done | done | done].
      - eapply account_by_key; [apply Hok | done | done | done]. }
    repeat case_decide; rewrite ?dval_Neg; try lra; exfalso; tauto.
Qed.

(** No account is created when all named accounts exist. *)
Lemma recorded_no_new_accounts i e t t' s' : ledger_ok t' s' -> recorded i e t t' ->
  (forall p, p ∈ in_Postings i -> posting_key p ∈ map account_key (tb_accounts t)) -> tb_accounts t' = tb_accounts t.
Proof.
  intros Hok Hr Hkeys. destruct (rc_accounts _ _ _ _ Hr) as (extra & Ha & Hex). rewrite Ha.
  destruct extra as [|a extra]; [apply app_nil_r|]. exfalso. apply Forall_cons in Hex as [Hin _].
  apply list_elem_of_fmap in Hin as (p & Ek & Hp). pose proof (ao_keys _ _ (lo_accounts _ _ Hok)) as Hnd.
  rewrite Ha, map_app in Hnd. apply NoDup_app in Hnd as (_ & Hd & _).
  apply (Hd _ (Hkeys p Hp)). rewrite <- Ek. by left.
Qed.

Lemma Reverse_spec j t s : ledger_ok t s ->
  wp (Reverse j) (fun e t' s' => ledger_ok t' s' /\ j_ReversesJournalID e = Some j
      /\ find_journal t' (reversal_key j) = Some e
      /\ (forall a, a ∈ tb_accounts t' -> effect_on t' j a + effect_on t' (j_ID e) a == 0)
      /\ (find_journal t (reversal_key j) <> None -> t' = t))
    (fun _ => True) t s.
Proof.
  intros Hok. unfold Reverse. apply wp_bind, wp_query.
  destruct (list_find _ _) as [[n source]|] eqn:Es; [|by apply wp_throw].
  apply list_find_Some in Es as (Hn & <- & _). set (j := j_ID source).
  assert (Hj : j ∈ map j_ID (tb_journals t)) by (apply (list_elem_of_fmap_2 j_ID); by eapply list_elem_of_lookup_2).
  apply wp_bind, wp_query. fold (stored_postings t j). set (rows := stored_postings t j).
  destruct rows as [|r0 rows0] eqn:Er; [by apply wp_throw|]. rewrite <- Er. apply wp_bind, wp_query.
  destruct (reversal_inputs t s rows (map p_AccountID rows) Hok) as (l & -> & Hkeys & Hl).
  { intros r Hr. split; [by apply list_elem_of_filter in Hr as [_ ?] | by apply (list_elem_of_fmap_2 p_AccountID)]. }
  apply wp_bind, wp_lift, wp_bind. set (i := mkJournalInput _ _ _ _ _ _).
  eapply wp_mono; [apply (Record_spec i t s Hok) | | done]. intros [e c] t' s' _ [Hok' Hres]. apply wp_ret. split; [done|].
  assert (Hext : exists extra, tb_postings t' = tb_postings t ++ extra /\ forall r, r ∈ extra -> p_JournalID r ∉ map j_ID (tb_journals t)).
  { destruct c.
    - destruct (rc_postings _ _ _ _ Hres) as (new & Hp & Hr). exists new. split; [done|].
      intros r Hin. apply list_elem_of_lookup in Hin as [m Hm]. destruct (Forall2_lookup_r _ _ _ _ _ Hr Hm) as (p & _ & -> & _).
      pose proof (jo_ids _ _ (lo_journals _ _ Hok')) as Hnd. rewrite (rc_journals _ _ _ _ Hres), map_app in Hnd.
      apply NoDup_app in Hnd as (_ & Hd & _). intros Hx. apply (Hd _ Hx). by left.
    - destruct Hres as (-> & _). exists []. rewrite app_nil_r. split; [done|]. intros r Hr. by apply elem_of_nil in Hr. }
  assert (Hsame : same_journal t' i e).
  { destruct c; [apply (recorded_same_journal _ _ _ _ _ _ Hok Hok' Hres) | by destruct Hres as (-> & _ & _ & ?)]. }
  assert (Hold : stored_postings t' j = rows).
  { destruct Hext as (extra & Hp & Hne). unfold stored_postings. rewrite Hp, filter_app, (filter_none _ extra), app_nil_r; [done|].
    intros r Hr E. apply (Hne r Hr). by rewrite E. }
  split; [apply Hsame|]. split.
  { destruct c; [apply (recorded_same_journal _ _ _ _ _ _ Hok Hok' Hres) | by destruct Hres as (-> & _ & ? & _)]. }
  split.
  - intros a Ha. rewrite (same_journal_effect t' s' i e a Hok' Hsame Ha). unfold effect_on. rewrite Hold.
    cbn [in_Postings i]. rewrite Hl; [lra|].
    replace (tb_accounts t) with (tb_accounts t'); [done|].
    destruct c; [by apply (recorded_no_new_accounts i e t t' s' Hok' Hres) | by destruct Hres as (-> & _)].
  - intros Hne. destruct c; [|by destruct Hres as (-> & _)]. destruct Hne. apply (rc_new _ _ _ _ Hres).
Qed.

(** A reversal cancels its original: when it succeeds, the original's and the
    reversal's postings to every account add up to zero, the original is left in
    place, and once a reversal exists every further attempt that succeeds changes
    nothing. *)
Theorem reverse_cancels j w e w' : ledger_ok (w_tables w) (w_seqs w) ->
  transaction (Reverse j) w = (Ok e, w') ->
  j_ReversesJournalID e = Some j
  /\ (forall a, a ∈ tb_accounts (w_tables w') ->
        effect_on (w_tables w') j a + effect_on (w_tables w') (j_ID e) a == 0)
  /\ ledger_ok (w_tables w') (w_seqs w')
  /\ (forall fs e2 w2, transaction (Reverse j) (mkWorld (w_tables w') (w_seqs w') fs) = (Ok e2, w2) ->
        w_tables w2 = w_tables w').
Proof.
  intros Hok H. destruct w as [t s fs]. cbn [w_tables w_seqs] in *.
  pose proof (transaction_wp _ _ _ t s fs (Reverse_spec j t s Hok)) as Ht. rewrite H in Ht.
  destruct Ht as (_ & _ & Hok' & Hrev & Hfind & Heff & _).
  split; [done|]. split; [done|]. split; [done|]. intros fs' e2 w2 H2.
  pose proof (transaction_wp _ _ _ _ _ fs' (Reverse_spec j _ _ Hok')) as Ht2. rewrite H2 in Ht2.
  destruct Ht2 as (_ & _ & _ & _ & _ & _ & Hno). apply Hno. by rewrite Hfind.
Qed.
End Theorems.
