(* ===== verification/Sha256.v ===== *)
(** * SHA-256, as [crypto/sha256] computes it

    Words are integers below 2^32; the digest is returned in lower-case
    hexadecimal, the way the callers render it ([encoding/hex]). *)
From S2P Require Import Prelude.
From Stdlib Require Import Lia Ascii.

Definition w32 (x : Z) : Z := Z.land x 4294967295.
Definition add32 (x y : Z) : Z := w32 (x + y).
Definition rotr (n x : Z) : Z := Z.lor (Z.shiftr x n) (w32 (Z.shiftl x (32 - n))).
Definition not32 (x : Z) : Z := Z.lxor x 4294967295.

Definition sha_init : list Z :=
  [1779033703; 3144134277; 1013904242; 2773480762; 1359893119; 2600822924; 528734635; 1541459225].
Definition sha_k : list Z :=
  [1116352408; 1899447441; 3049323471; 3921009573; 961987163; 1508970993; 2453635748; 2870763221;
   3624381080; 310598401; 607225278; 1426881987; 1925078388; 2162078206; 2614888103; 3248222580;
   3835390401; 4022224774; 264347078; 604807628; 770255983; 1249150122; 1555081692; 1996064986;
   2554220882; 2821834349; 2952996808; 3210313671; 3336571891; 3584528711; 113926993; 338241895;
   666307205; 773529912; 1294757372; 1396182291; 1695183700; 1986661051; 2177026350; 2456956037;
   2730485921; 2820302411; 3259730800; 3345764771; 3516065817; 3600352804; 4094571909; 275423344;
   430227734; 506948616; 659060556; 883997877; 958139571; 1322822218; 1537002063; 1747873779;
   1955562222; 2024104815; 2227730452; 2361852424; 2428436474; 2756734187; 3204031479; 3329325298].

Definition small0 (x : Z) : Z := Z.lxor (Z.lxor (rotr 7 x) (rotr 18 x)) (Z.shiftr x 3).
Definition small1 (x : Z) : Z := Z.lxor (Z.lxor (rotr 17 x) (rotr 19 x)) (Z.shiftr x 10).
Definition big0 (x : Z) : Z := Z.lxor (Z.lxor (rotr 2 x) (rotr 13 x)) (rotr 22 x).
Definition big1 (x : Z) : Z := Z.lxor (Z.lxor (rotr 6 x) (rotr 11 x)) (rotr 25 x).

(** Extend a schedule (latest word first) by [n] words. *)
Fixpoint extend (n : nat) (rev_w : list Z) : list Z :=
  match n with
  | O => rev_w
  | S n' =>
      let at_ i := nth i rev_w 0 in
      extend n' (add32 (add32 (small1 (at_ 1%nat)) (at_ 6%nat)) (add32 (small0 (at_ 14%nat)) (at_ 15%nat)) :: rev_w)
  end.

Definition round (st : list Z) (kw : Z * Z) : list Z :=
  match st with
  | [a; b; c; d; e; f; g; h] =>
      let ch := Z.lxor (Z.land e f) (Z.land (not32 e) g) in
      let t1 := add32 (add32 (add32 h (big1 e)) (add32 ch kw.1)) kw.2 in
      let maj := Z.lxor (Z.lxor (Z.land a b) (Z.land a c)) (Z.land b c) in
      let t2 := add32 (big0 a) maj in
      [add32 t1 t2; a; b; c; add32 d t1; e; f; g]
  | _ => st
  end.

Definition compress (st block : list Z) : list Z :=
  let w := rev (extend 48 (rev block)) in
  zip_with add32 st (foldl round st (zip sha_k w)).

(** Bytes, padding and blocks *)

Fixpoint bytes_of (s : string) : list Z :=
  match s with EmptyString => [] | String c s' => Z.of_N (N_of_ascii c) :: bytes_of s' end.

Definition be_bytes (n : nat) (x : Z) : list Z :=
  map (fun i => Z.land (Z.shiftr x (8 * Z.of_nat (n - 1 - i))) 255) (seq 0 n).

Definition pad (bs : list Z) : list Z :=
  let len := Z.of_nat (length bs) in
  bs ++ [128] ++ replicate (Z.to_nat ((55 - len) mod 64)) 0 ++ be_bytes 8 (8 * len).

Fixpoint words (fuel : nat) (bs : list Z) : list Z :=
  match fuel, bs with
  | S f, a :: b :: c :: d :: rest =>
      Z.lor (Z.lor (Z.shiftl a 24) (Z.shiftl b 16)) (Z.lor (Z.shiftl c 8) d) :: words f rest
  | _, _ => []
  end.

Fixpoint blocks (fuel : nat) (ws : list Z) : list (list Z) :=
  match fuel, ws with
  | S f, _ :: _ => take 16 ws :: blocks f (drop 16 ws)
  | _, _ => []
  end.

Definition Sum256 (bs : list Z) : list Z :=
  let padded := pad bs in
  let ws := words (length padded) padded in
  concat (map (be_bytes 4) (foldl compress sha_init (blocks (length ws) ws))).

Definition hex_digit (d : Z) : ascii :=
  ascii_of_N (Z.to_N (if d <? 10 then 48 + d else 87 + d)).
Fixpoint EncodeToString (bs : list Z) : string :=
  match bs with
  | [] => ""
  | b :: bs' => String (hex_digit (Z.shiftr b 4)) (String (hex_digit (Z.land b 15)) (EncodeToString bs'))
  end.

(** The digest of a string, in hexadecimal. *)
Definition sha256_hex (s : string) : string := EncodeToString (Sum256 (bytes_of s)).

(** A digest has 32 bytes, 64 hexadecimal digits. *)
Lemma round_length st kw : length (round st kw) = length st.
Proof. unfold round. by repeat case_match. Qed.
Lemma rounds_length l st : length (foldl round st l) = length st.
Proof. revert st. induction l as [|x l IH]; intros st; [done|]. cbn. by rewrite IH, round_length. Qed.
Lemma compress_length st block : length (compress st block) = length st.
Proof. unfold compress. rewrite length_zip_with, rounds_length. lia. Qed.
Lemma state_length l st : length (foldl compress st l) = length st.
Proof. revert st. induction l as [|x l IH]; intros st; [done|]. cbn. by rewrite IH, compress_length. Qed.
Lemma EncodeToString_length bs : String.length (EncodeToString bs) = (2 * length bs)%nat.
Proof. induction bs as [|b bs IH]; [done|]. cbn. rewrite IH. lia. Qed.
Lemma Sum256_length bs : length (Sum256 bs) = 32%nat.
Proof.
  unfold Sum256. set (st := foldl _ _ _). assert (Hl : length st = 8%nat) by apply state_length. clearbody st.
  do 8 (destruct st as [|? st]; [done|]). by destruct st.
Qed.
Lemma sha256_hex_length s : String.length (sha256_hex s) = 64%nat.
Proof. unfold sha256_hex. by rewrite EncodeToString_length, Sum256_length. Qed.

Example sha256_abc :
  sha256_hex "abc" = "ba7816bf8f01cfea414140de5dae2223b00361a396177a9cb410ff61f20015ad"%string.
Proof. vm_compute. reflexivity. Qed.
Example sha256_two_blocks :
  sha256_hex "abcdbcdecdefdefgefghfghighijhijkijkljklmklmnlmnomnopnopq"
  = "248d6a61d20638b8e5c026930c3e6039a33ce45964ff2167f6ecedd419db06c1"%string.
Proof. vm_compute. reflexivity. Qed.
