(* ===== verification/OrderLedger.v ===== *)
(** * Orders and the ledger

    [repository/order_repository.go] and the trade queries the services use,
    and [service/order_ledger.go]: holding and releasing an order's assets, the
    postings of a trade, and the average buy price. *)
From S2P Require Import Prelude Decimal Model Errors Fee Database Ledger.
From Stdlib Require Import Lia.

Section OrderLedger.
Context {DL : DecimalLib}.

#[export] Instance OrderRow_settable : Settable OrderRow := fun r =>
  mkOrderRow (r_ID r) (r_UserID r) (r_Amount r) (r_QuoteAmount r) (r_CoinSymbol r) (r_Side r) (r_Status r)
    (r_FilledAmount r) (r_FilledQuoteAmount r) (r_CreatedAt r) (r_OrderType r) (r_Price r).

(** ** Order repository *)

Definition FindByIDForUpdate (orderID : N) : M OrderRow :=
  row ← query (fun t => tb_orders t !! orderID);
  match row with Some order => mret order | None => throw ErrRecordNotFound end.

Definition with_execution (o : OrderRow) (filledAmount filledQuoteAmount : decimal) (status : OrderStatus) : OrderRow :=
  o <| r_FilledAmount := filledAmount |> <| r_FilledQuoteAmount := filledQuoteAmount |> <| r_Status := status |>.

Definition UpdateOrderExecution (orderID : N) (filledAmount filledQuoteAmount : decimal) (status : OrderStatus) : M unit :=
  _ ← stmt;
  t ← get_db;
  match tb_orders t !! orderID with
  | None => throw (Errorf "order fill update affected no rows" [])
  | Some o => put_db (t <| tb_orders := <[orderID := with_execution o filledAmount filledQuoteAmount status]> (tb_orders t) |>)
  end.

Definition UpdateOrderFill (orderID : N) (filledAmount : decimal) (status : OrderStatus) : M unit :=
  UpdateOrderExecution orderID filledAmount Zero status.
Definition UpdateOrderStatus (orderID : N) (status : OrderStatus) (filledAmount : decimal) : M unit :=
  UpdateOrderFill orderID filledAmount status.

(** CHECK constraints of the orders table. *)
Definition order_checks (o : OrderRow) : bool :=
  negb (IsNegative (r_Amount o)) && negb (IsNegative (r_QuoteAmount o)) && negb (IsNegative (r_Price o))
  && negb (IsNegative (r_FilledAmount o)) && negb (IsNegative (r_FilledQuoteAmount o)).

Definition insert_order (order : OrderRow) : M OrderRow :=
  id ← nextval "orders";
  if negb (order_checks order) then throw (ConstraintViolation "ck_orders")
  else
    let row := order <| r_ID := id |> in
    _ ← modify_db (fun t => t <| tb_orders := <[id := row]> (tb_orders t) |>);
    mret row.

(** The row with its new id, which gorm writes back into the struct. *)
Definition CreateOrder (order : OrderRow) : M OrderRow := _ ← stmt; insert_order order.

Definition CreateOrders (orders : list OrderRow) : M (list OrderRow) :=
  match orders with [] => mret [] | _ => _ ← stmt; map_each insert_order orders end.

(** SELECT ... WHERE id IN ids ORDER BY id FOR UPDATE *)
Definition select_orders (t : Tables) (ids : list N) : list OrderRow :=
  omap (fun id => tb_orders t !! id) (sort_ids (remove_dups ids)).
Definition LockByIDs (ids : list N) : M (list OrderRow) :=
  match ids with
  | [] => mret []
  | _ =>
      orders ← query (fun t => select_orders t ids);
      if decide (length orders <> length ids)
      then throw (Errorf "order lock expected %d rows, locked %d" [pretty (length ids); pretty (length orders)])
      else mret orders
  end.

Record OrderExecutionBatchUpdate := mkExecutionUpdate {
  ou_OrderID : N; ou_FilledAmount : decimal; ou_FilledQuoteAmount : decimal; ou_Status : OrderStatus }.

Definition apply_execution (acc : gmap N OrderRow * Z) (u : OrderExecutionBatchUpdate) : gmap N OrderRow * Z :=
  match acc.1 !! ou_OrderID u with
  | None => acc
  | Some o => (<[ou_OrderID u := with_execution o (ou_FilledAmount u) (ou_FilledQuoteAmount u) (ou_Status u)]> acc.1, acc.2 + 1)
  end.
(** UPDATE orders ... FROM (VALUES ...); the ids are distinct. *)
Definition BatchUpdateExecutions (updates : list OrderExecutionBatchUpdate) : M unit :=
  match updates with
  | [] => mret tt
  | _ =>
      _ ← stmt;
      t ← get_db;
      let '(rows, affected) := foldl apply_execution (tb_orders t, 0) updates in
      _ ← put_db (t <| tb_orders := rows |>);
      if decide (affected <> Z.of_nat (length updates))
      then throw (Errorf "order batch update affected %d rows, expected %d" [pretty affected; pretty (length updates)])
      else mret tt
  end.

Definition SumBuyerFeesByBuyOrderID (orderID : N) : M decimal :=
  query (fun t => foldl (fun total trade => Add total (t_BuyerFee trade)) Zero
                    (filter (fun trade => t_BuyOrderID trade = orderID) (tb_trades t))).

(** ** Holding and releasing *)

Definition holdAmountFor (order : OrderRow) : decimal :=
  if decide (r_Side order = OrderSideBuy) then
    if decide (r_OrderType order = OrderTypeMarket) then r_QuoteAmount order
    else quoteAmountWithTradingFee (Mul (r_Price order) (r_Amount order))
  else r_Amount order.

Definition orderHoldAsset (order : OrderRow) : string :=
  if decide (r_Side order = OrderSideBuy) then KRWAssetSymbol else r_CoinSymbol order.

Definition orderHoldPostings (order : OrderRow) (amount : decimal) : list PostingInput :=
  let asset := orderHoldAsset order in
  [mkPostingInput AccountUserAvailable (Some (r_UserID order)) asset (Neg amount);
   mkPostingInput AccountUserLocked (Some (r_UserID order)) asset amount].

Definition orderReleasePostings (order : OrderRow) (amount : decimal) : list PostingInput :=
  let asset := orderHoldAsset order in
  [mkPostingInput AccountUserLocked (Some (r_UserID order)) asset (Neg amount);
   mkPostingInput AccountUserAvailable (Some (r_UserID order)) asset amount].

Definition insufficientBalanceError (side : OrderSide) : error :=
  if decide (side = OrderSideBuy) then NewConflictErrorf "insufficient available KRW balance" []
  else NewConflictErrorf "insufficient available coin balance" [].

Definition asInsufficientBalance (err : error) (side : OrderSide) : error :=
  if decide (DomainErrorKind err = Some ErrorKindConflict) then insufficientBalanceError side else err.

(** Replace the error of a computation. *)
Definition map_err {A} (f : error -> error) (m : M A) : M A := fun w =>
  match m w with (Err e, w') => (Err (f e), w') | ok => ok end.

Definition valid_side (order : OrderRow) : bool :=
  bool_decide (r_Side order = OrderSideBuy) || bool_decide (r_Side order = OrderSideSell).

Definition order_hold_key (orderID : N) : string := "order-hold:" +:+ pretty orderID.
Definition order_release_key (orderID : N) (reason : string) : string :=
  "order-release:" +:+ pretty orderID +:+ ":" +:+ reason.

Definition hold_input (order : OrderRow) : JournalInput :=
  mkJournalInput JournalEventOrderHold (order_hold_key (r_ID order)) JournalReferenceOrder (r_ID order) None
    (orderHoldPostings order (holdAmountFor order)).

Definition holdOrderAssets (order : OrderRow) : M unit :=
  if negb (valid_side order) then throw (NewValidationErrorf "invalid order side" [])
  else if negb (IsPositive (holdAmountFor order)) then throw (NewValidationErrorf "hold amount must be greater than zero" [])
  else map_err (fun err => asInsufficientBalance err (r_Side order)) (_ ← Record_ (hold_input order); mret tt).

Definition release_input (order : OrderRow) (amount : decimal) (reason : string) : JournalInput :=
  mkJournalInput JournalEventOrderRelease (order_release_key (r_ID order) reason) JournalReferenceOrder (r_ID order) None
    (orderReleasePostings order amount).

Definition releaseOrderAssets (order : OrderRow) (amount : decimal) (reason : string) : M unit :=
  if negb (valid_side order) then throw (NewValidationErrorf "invalid order side" [])
  else if negb (IsPositive amount) then throw (NewValidationErrorf "release amount must be greater than zero" [])
  else if decide (reason = "") then throw (NewValidationErrorf "release reason is required" [])
  else _ ← Record_ (release_input order amount reason); mret tt.

Definition releaseReasonCancel : string := "cancel".
Definition releaseReasonMarketRemain : string := "market-remain".
Definition releaseReasonRejected : string := "rejected".

(** ** The postings of a trade *)

Definition tradePostings (trade : Trade) (buyerUserID sellerUserID : N)
    (reservedDebit executionDebit sellerQuoteNet : decimal) : list PostingInput :=
  let fees := Add (t_BuyerFee trade) (t_SellerFee trade) in
  let refund := Sub reservedDebit executionDebit in
  [mkPostingInput AccountUserLocked (Some buyerUserID) KRWAssetSymbol (Neg reservedDebit);
   mkPostingInput AccountUserAvailable (Some sellerUserID) KRWAssetSymbol sellerQuoteNet;
   mkPostingInput AccountUserLocked (Some sellerUserID) (t_CoinSymbol trade) (Neg (t_Quantity trade));
   mkPostingInput AccountUserAvailable (Some buyerUserID) (t_CoinSymbol trade) (t_Quantity trade)]
  ++ (if IsPositive refund then [mkPostingInput AccountUserAvailable (Some buyerUserID) KRWAssetSymbol refund] else [])
  ++ (if IsPositive fees then [mkPostingInput AccountFeeIncome None KRWAssetSymbol fees] else []).

Record SettlementParticipants := mkParticipants { BuyerUserID : N; SellerUserID : N }.
Record tradeSettlementPlan := mkPlan { plan_Postings : list PostingInput; plan_ExecutionDebit : decimal }.

Definition reservedBuyDebitAmount (buyOrder : OrderRow) (trade : Trade) : decimal :=
  if decide (r_OrderType buyOrder = OrderTypeMarket) then quoteAmountWithTradingFee (tradeQuoteAmount trade)
  else quoteAmountWithTradingFee (Mul (r_Price buyOrder) (t_Quantity trade)).

Definition planTradeSettlement (trade : Trade) (buyOrder : OrderRow) (participants : SettlementParticipants)
    : result error tradeSettlementPlan :=
  let executionQuote := tradeQuoteAmount trade in
  let reservedDebit := reservedBuyDebitAmount buyOrder trade in
  let executionDebit := Add executionQuote (t_BuyerFee trade) in
  sellerQuoteNet ← amountAfterFee executionQuote (t_SellerFee trade) "seller";
  Ok (mkPlan (tradePostings trade (BuyerUserID participants) (SellerUserID participants)
                reservedDebit executionDebit sellerQuoteNet) executionDebit).

Definition postingAccountSpecs (postings : list PostingInput) : list AccountSpec := map posting_spec postings.

(** ** The average buy price *)

(** SUM of the balances of a user's accounts of an asset. *)
Definition user_asset_total (t : Tables) (userID : N) (asset : string) : decimal :=
  foldl (fun total a => match tb_balances t !! a_ID a with Some b => Add total (b_Balance b) | None => total end) Zero
    (filter (fun a => a_OwnerUserID a = Some userID /\ a_Asset a = asset
                      /\ (a_AccountType a = AccountUserAvailable \/ a_AccountType a = AccountUserLocked)) (tb_accounts t)).

Definition applyAvgBuyPrice (userID : N) (asset : string) (quantity acquisitionCost : decimal) : M unit :=
  if negb (IsPositive quantity) then throw (NewValidationErrorf "quantity must be greater than zero" [])
  else
    total ← query (fun t => user_asset_total t userID asset);
    if negb (IsPositive total) then throw (Errorf "avg buy price needs a positive quantity, got %s" [DString total])
    else
      let previousQuantity := Sub total quantity in
      previousAvg ← query (fun t => default Zero (tb_stats t !! (userID, asset)));
      match Div (Add (Mul previousAvg previousQuantity) acquisitionCost) total with
      | None => throw GoPanic
      | Some newAvg =>
          _ ← stmt;
          modify_db (fun t => t <| tb_stats := <[(userID, asset) := newAvg]> (tb_stats t) |>)
      end.

Definition clearAvgBuyPriceIfEmpty (userID : N) (asset : string) : M unit :=
  _ ← stmt;
  modify_db (fun t =>
    match tb_stats t !! (userID, asset) with
    | None => t
    | Some _ => if IsPositive (user_asset_total t userID asset) then t
                else t <| tb_stats := <[(userID, asset) := Zero]> (tb_stats t) |>
    end).
End OrderLedger.
