(* ===== verification/Queries.v ===== *)
(** * Queries

    The read side of the repositories: [AccountRepository.ListUserBalances], the
    listings of [order_repository.go] and [trade_repository.go] with the limits
    [order_service.go] puts on them, and the two queries a restart starts from. *)
From S2P Require Import Prelude Decimal Model Errors Fee Database Ledger LedgerInv OrderLedger.
From Stdlib Require Import Lia.

Section Queries.
Context {DL : DecimalLib}.

(** ** Balances *)

Record UserAssetBalance := mkUserAssetBalance {
  ub_AvailableAccountID : N; ub_Asset : string; ub_Available : decimal; ub_Locked : decimal; ub_AvgBuyPrice : decimal }.

(** COALESCE(SUM(balance), 0) over the accounts, joined with their balances. *)
Definition sum_balances (t : Tables) (l : list Account) : decimal :=
  foldl (fun total a => match tb_balances t !! a_ID a with Some b => Add total (b_Balance b) | None => total end) Zero l.
(** COALESCE(MAX(id), 0). *)
Definition max_id (l : list Account) : N := foldr (fun a m => N.max (a_ID a) m) 0%N l.

Definition user_accounts (t : Tables) (userID : N) : list Account :=
  filter (fun a => a_OwnerUserID a = Some userID /\ a_AccountType a ∈ user_account_types) (tb_accounts t).
Definition accounts_of_kind (t : Tables) (userID : N) (asset accountType : string) : list Account :=
  filter (fun a => a_AccountType a = accountType /\ a_Asset a = asset) (user_accounts t userID).

(** One group of the query. *)
Definition balance_row (t : Tables) (userID : N) (asset : string) : UserAssetBalance :=
  let available := accounts_of_kind t userID asset AccountUserAvailable in
  mkUserAssetBalance (max_id available) asset (sum_balances t available)
    (sum_balances t (accounts_of_kind t userID asset AccountUserLocked)) (default Zero (tb_stats t !! (userID, asset))).

Definition listed_assets (t : Tables) (userID : N) : list string :=
  merge_sort String.le (remove_dups (map a_Asset (user_accounts t userID))).

Definition ListUserBalances (userID : N) : M (list UserAssetBalance) :=
  query (fun t => map (balance_row t userID) (listed_assets t userID)).

(** ** Orders *)

Record OrderListFilter := mkOrderListFilter { of_Status : option OrderStatus; of_CoinSymbol : string; of_Limit : Z }.

Definition all_orders (t : Tables) : list OrderRow := map snd (map_to_list (tb_orders t)).

(** ORDER BY created_at, id *)
Definition oldest_first (x y : OrderRow) : Prop := lex_le Z.le N.le (r_CreatedAt x, r_ID x) (r_CreatedAt y, r_ID y).
#[export] Instance oldest_first_dec : RelDecision oldest_first.
Proof. intros x y. unfold oldest_first. apply _. Defined.
Definition newest_first (x y : OrderRow) : Prop := oldest_first y x.
#[export] Instance newest_first_dec : RelDecision newest_first.
Proof. intros x y. unfold newest_first. apply _. Defined.

Definition listed_order (userID : N) (f : OrderListFilter) (o : OrderRow) : Prop :=
  r_UserID o = userID /\ (match of_Status f with Some st => r_Status o = st | None => True end)
  /\ (of_CoinSymbol f <> "" -> r_CoinSymbol o = of_CoinSymbol f).
#[export] Instance listed_order_dec userID f o : Decision (listed_order userID f o).
Proof. unfold listed_order. destruct (of_Status f); apply _. Defined.

Definition ListByUserID (userID : N) (f : OrderListFilter) : M (list OrderRow) :=
  query (fun t => take (Z.to_nat (of_Limit f)) (merge_sort newest_first (filter (listed_order userID f) (all_orders t)))).

Definition FindByUserIDAndID (userID orderID : N) : M OrderRow :=
  row ← query (fun t => tb_orders t !! orderID);
  match row with
  | Some order => if decide (r_UserID order = userID) then mret order else throw ErrRecordNotFound
  | None => throw ErrRecordNotFound
  end.

Definition open_row (o : OrderRow) : Prop := r_Status o = OrderStatusPending \/ r_Status o = OrderStatusPartial.
#[export] Instance open_row_dec o : Decision (open_row o).
Proof. unfold open_row. apply _. Defined.

Definition by_id (x y : OrderRow) : Prop := (r_ID x <= r_ID y)%N.
#[export] Instance by_id_dec : RelDecision by_id.
Proof. intros x y. unfold by_id. apply _. Defined.

Definition FindOpenMarketOrders : M (list OrderRow) :=
  query (fun t => merge_sort by_id (filter (fun o => open_row o /\ r_OrderType o = OrderTypeMarket) (all_orders t))).

Definition bootstrap_row (o : OrderRow) : Prop :=
  open_row o /\ r_OrderType o = OrderTypeLimit /\ GreaterThan (r_Amount o) (r_FilledAmount o) = true.
#[export] Instance bootstrap_row_dec o : Decision (bootstrap_row o).
Proof. unfold bootstrap_row. apply _. Defined.

Definition FindOpenOrdersForBootstrap : M (list OrderRow) :=
  query (fun t => merge_sort oldest_first (filter bootstrap_row (all_orders t))).

(** ** Trades *)

Record TradeListFilter := mkTradeListFilter { tf_CoinSymbol : string; tf_Limit : Z }.

(** The join of a trade with its orders, as seen by one user. *)
Definition user_trade (t : Tables) (userID : N) (f : TradeListFilter) (trade : Trade) : option (Trade * OrderSide) :=
  match tb_orders t !! t_BuyOrderID trade, tb_orders t !! t_SellOrderID trade with
  | Some buy, Some sell =>
      if decide ((r_UserID buy = userID \/ r_UserID sell = userID) /\ (TrimSpace (tf_CoinSymbol f) <> "" -> t_CoinSymbol trade = tf_CoinSymbol f))
      then Some (trade, if decide (r_UserID buy = userID) then OrderSideBuy else OrderSideSell)
      else None
  | _, _ => None
  end.

Definition latest_trade (x y : Trade * OrderSide) : Prop :=
  lex_le Z.le N.le (t_TradedAt y.1, t_ID y.1) (t_TradedAt x.1, t_ID x.1).
#[export] Instance latest_trade_dec : RelDecision latest_trade.
Proof. intros x y. unfold latest_trade. apply _. Defined.

Definition ListTradesByUserID (userID : N) (f : TradeListFilter) : M (list (Trade * OrderSide)) :=
  query (fun t => take (Z.to_nat (tf_Limit f)) (merge_sort latest_trade (omap (user_trade t userID f) (tb_trades t)))).

(** ** What the balance listing shows *)

Context {DLaws : DecimalLaws DL}.
Local Open Scope Q_scope.

Lemma filter_Forall_iff {A} (P Q : A -> Prop) `{!forall x, Decision (P x), !forall x, Decision (Q x)} l :
  Forall (fun x => P x <-> Q x) l -> filter P l = filter Q l.
Proof.
  induction 1 as [|x l Hx _ IH]; [done|]. rewrite !filter_cons. by destruct (decide (P x)), (decide (Q x)); [rewrite IH|tauto|tauto|].
Qed.

Lemma filter_key t s k : ledger_ok t s ->
  filter (fun a => account_key a = k) (tb_accounts t) = match find_account t k with Some a => [a] | None => [] end.
Proof.
  intros Hok. unfold find_account. pose proof (ao_keys _ _ (lo_accounts _ _ Hok)) as Hn. clear Hok.
  induction (tb_accounts t) as [|a l IH]; [done|]. rewrite filter_cons. cbn [list_find]. cbn in Hn. apply NoDup_cons in Hn as [Ha Hn].
  destruct (decide (account_key a = k)) as [<-|Hk].
  - cbn. rewrite (IH Hn). destruct (list_find _ l) as [[i a']|] eqn:E; [|done]. apply list_find_Some in E as (Hl & Hk & _).
    destruct Ha. rewrite <- Hk. apply list_elem_of_fmap. exists a'. split; [done|]. by eapply list_elem_of_lookup_2.
  - rewrite (IH Hn). by destruct (list_find _ l) as [[i a']|].
Qed.
Definition wallet_key (accountType : string) (userID : N) (asset : string) : accountKey := (accountType, (userID, asset)).

Lemma accounts_of_kind_key t s userID asset accountType : ledger_ok t s -> accountType ∈ user_account_types ->
  accounts_of_kind t userID asset accountType = match find_account t (wallet_key accountType userID asset) with Some a => [a] | None => [] end.
Proof.
  intros Hok Hty. rewrite <- (filter_key t s) by done. unfold accounts_of_kind, user_accounts. rewrite list_filter_filter.
  apply filter_Forall_iff. eapply Forall_impl; [exact (ao_flags _ _ (lo_accounts _ _ Hok))|]. intros a [_ Hc]. cbn beta.
  unfold account_key, newAccountKey, wallet_key. split.
  - intros ([-> ->] & E & _). rewrite E. done.
  - intros E. injection E as Et E2 <-. rewrite Et in *. split; [done|]. split; [|done].
    destruct (a_OwnerUserID a) as [u|]; [by cbn in E2; subst|].
    apply elem_of_cons in Hty as [-> | Hty]; [|apply list_elem_of_singleton in Hty as ->]; by vm_compute in Hc.
Qed.

Lemma sum_balances_key t s userID asset accountType : ledger_ok t s -> accountType ∈ user_account_types ->
  dval (sum_balances t (accounts_of_kind t userID asset accountType)) == balance_of t (wallet_key accountType userID asset).
Proof.
  intros Hok Hty. rewrite (accounts_of_kind_key t s) by done. unfold balance_of.
  destruct (find_account t _) as [a|]; cbn; [|apply dval_Zero].
  destruct (tb_balances t !! a_ID a); rewrite ?dval_Add, dval_Zero; lra.
Qed.

Lemma listed_assets_spec t s userID asset : ledger_ok t s ->
  asset ∈ listed_assets t userID
  <-> is_Some (find_account t (wallet_key AccountUserAvailable userID asset)) \/ is_Some (find_account t (wallet_key AccountUserLocked userID asset)).
Proof.
  intros Hok. unfold listed_assets. rewrite merge_sort_Permutation, elem_of_remove_dups, list_elem_of_fmap.
  assert (H : forall ty, ty ∈ user_account_types ->
    is_Some (find_account t (wallet_key ty userID asset)) <-> exists a, a ∈ user_accounts t userID /\ a_AccountType a = ty /\ a_Asset a = asset).
  { intros ty Hty. pose proof (accounts_of_kind_key t s userID asset ty Hok Hty) as E. split.
    - intros [a Ha]. rewrite Ha in E. exists a. assert (Hin : a ∈ accounts_of_kind t userID asset ty) by (rewrite E; by left).
      apply list_elem_of_filter in Hin. tauto.
    - intros (a & Ha & H1 & H2). assert (Hin : a ∈ accounts_of_kind t userID asset ty) by (by apply list_elem_of_filter).
      rewrite E in Hin. destruct (find_account t _); [done | by apply not_elem_of_nil in Hin]. }
  rewrite !H by (by repeat constructor). split.
  - intros (a & -> & Ha). pose proof Ha as Hf. apply list_elem_of_filter in Hf as [[_ Hty] _].
    apply elem_of_cons in Hty as [Hty | Hty]; [left | right; apply list_elem_of_singleton in Hty]; by exists a.
  - intros [(a & Ha & _ & <-)|(a & Ha & _ & <-)]; by exists a.
Qed.

(** The wallet listing agrees with the ledger: when the query succeeds it shows
    each asset the user has an account in, once and in order, with the available
    and the locked balance the ledger keeps for it. *)
Theorem listing_exact t s fs userID rows w' : ledger_ok t s -> ListUserBalances userID (mkWorld t s fs) = (Ok rows, w') ->
  StronglySorted String.le (map ub_Asset rows) /\ NoDup (map ub_Asset rows) /\ w_tables w' = t
  /\ (forall asset, asset ∈ map ub_Asset rows <->
        is_Some (find_account t (wallet_key AccountUserAvailable userID asset)) \/ is_Some (find_account t (wallet_key AccountUserLocked userID asset)))
  /\ Forall (fun row => dval (ub_Available row) == balance_of t (wallet_key AccountUserAvailable userID (ub_Asset row))
                        /\ dval (ub_Locked row) == balance_of t (wallet_key AccountUserLocked userID (ub_Asset row))) rows.
Proof.
  intros Hok H. unfold ListUserBalances, query, mbind, M_bind, mret, M_ret, get_db in H.
  destruct (stmt _) as [[u|e] w1] eqn:E; [|done]. assert (Ht : w_tables w1 = t) by (by destruct fs as [|[] fs]; cbn in E; simplify_eq).
  injection H as <- <-. rewrite Ht.
  assert (Hm : map ub_Asset (map (balance_row t userID) (listed_assets t userID)) = listed_assets t userID).
  { rewrite map_map. unfold balance_row. cbn [ub_Asset]. apply map_id. }
  rewrite Hm. split; [apply StronglySorted_merge_sort; apply _|].
  split; [unfold listed_assets; rewrite merge_sort_Permutation; apply NoDup_remove_dups|]. split; [done|].
  split; [intros asset; by apply (listed_assets_spec t s)|].
  apply Forall_map, Forall_forall. intros asset _. split; apply (sum_balances_key t s); first [exact Hok | by repeat constructor].
Qed.
End Queries.
