(* ===== verification/Settlement.v ===== *)
(** * Settling one trade: [service/settlement_service.go]

    Structs are passed by value: what the Go code writes back into the caller's
    [*model.Trade] (the normalised fields, the id) is visible inside the call
    only. *)
From S2P Require Import Prelude Decimal Model Errors Fee Database Ledger Sha256 OrderLedger.
From Stdlib Require Import Lia.

Section Settlement.
Context {DL : DecimalLib}.

Record SettlementResult := mkSettlementResult { sr_Applied : bool; sr_Duplicate : bool; sr_TradeID : N }.

Definition deterministicTradeIdempotencyKey (trade : Trade) : string :=
  sha256_hex (normalizeTradeCoinSymbol (t_CoinSymbol trade) +:+ "|" +:+ pretty (t_BuyOrderID trade) +:+ "|"
              +:+ pretty (t_SellOrderID trade) +:+ "|" +:+ DString (t_Price trade) +:+ "|" +:+ DString (t_Quantity trade)).

Definition tradeIdempotencyKey (trade : Trade) : string :=
  let engineEventID := TrimSpace (t_EngineEventID trade) in
  if decide (engineEventID = "") then deterministicTradeIdempotencyKey trade
  else "engine:" +:+ engineEventID.

Definition prepareTradeForSettlement (trade0 : Trade) : result error Trade :=
  let trade := trade0 <| t_CoinSymbol := normalizeTradeCoinSymbol (t_CoinSymbol trade0) |> in
  if decide (t_CoinSymbol trade = "") then Err (Errorf "trade coin symbol is required" [])
  else if bool_decide (t_BuyOrderID trade = 0%N) || bool_decide (t_SellOrderID trade = 0%N)
  then Err (Errorf "trade buy_order_id and sell_order_id are required" [])
  else if negb (GreaterThan (t_Price trade) Zero) || negb (GreaterThan (t_Quantity trade) Zero)
  then Err (Errorf "trade price and quantity must be greater than zero" [])
  else if t_EngineSequence trade <? 0 then Err (Errorf "trade engine_sequence must be greater than or equal to zero" [])
  else
    let trade := trade <| t_EngineEventID := TrimSpace (t_EngineEventID trade) |>
                       <| t_IdempotencyKey := TrimSpace (t_IdempotencyKey trade) |> in
    Ok (if decide (t_IdempotencyKey trade = "") then trade <| t_IdempotencyKey := tradeIdempotencyKey trade |> else trade).

Definition applyTradeFill (order : OrderRow) (tradeQuantity tradeQuote : decimal)
    : result error (decimal * decimal * OrderStatus) :=
  if negb (GreaterThan tradeQuantity Zero) then Err (Errorf "trade quantity must be greater than zero" [])
  else if negb (GreaterThan tradeQuote Zero) then Err (Errorf "trade quote amount must be greater than zero" [])
  else
    let filledAmount := Add (r_FilledAmount order) tradeQuantity in
    let filledQuoteAmount := Add (r_FilledQuoteAmount order) tradeQuote in
    if decide (r_OrderType order = OrderTypeMarket /\ r_Side order = OrderSideBuy) then
      if GreaterThan filledQuoteAmount (r_QuoteAmount order)
      then Err (Errorf "order %d filled quote amount %s exceeds quote amount %s"
                  [pretty (r_ID order); DString filledQuoteAmount; DString (r_QuoteAmount order)])
      else if Equal filledQuoteAmount (r_QuoteAmount order) then Ok (filledAmount, filledQuoteAmount, OrderStatusFilled)
      else Ok (filledAmount, filledQuoteAmount, OrderStatusPartial)
    else if GreaterThan filledAmount (r_Amount order)
    then Err (Errorf "order %d filled amount %s exceeds order amount %s"
                [pretty (r_ID order); DString filledAmount; DString (r_Amount order)])
    else if Equal filledAmount (r_Amount order) then Ok (filledAmount, filledQuoteAmount, OrderStatusFilled)
    else Ok (filledAmount, filledQuoteAmount, OrderStatusPartial).

Definition OrderStatus_string (s : OrderStatus) : string :=
  match s with
  | OrderStatusPending => "PENDING" | OrderStatusPartial => "PARTIAL" | OrderStatusFilled => "FILLED"
  | OrderStatusCancelled => "CANCELLED" | OrderStatusRejected => "REJECTED" | OrderStatusOther x => x
  end.

Definition validateOrderStatusForSettlement (order : OrderRow) (role : string) : result error unit :=
  let args := [role; pretty (r_ID order); OrderStatus_string (r_Status order)] in
  match r_Status order with
  | OrderStatusPending | OrderStatusPartial => Ok tt
  | OrderStatusCancelled => Err (Errorf "%s order %d status %s cannot be settled" args)
  | OrderStatusFilled => Err (Errorf "%s order %d status %s cannot receive additional settlement" args)
  | _ => Err (Errorf "%s order %d has unknown status %s" args)
  end.

Definition validateDistinctSettlementParticipants (buyerUserID sellerUserID : N) : result error unit :=
  if bool_decide (buyerUserID = 0%N) || bool_decide (sellerUserID = 0%N)
  then Err (Errorf "settlement participants must have user IDs" [])
  else if decide (buyerUserID = sellerUserID)
  then Err (Errorf "self-trade settlement is not allowed for user %d" [pretty buyerUserID])
  else Ok tt.

Definition settlementParticipants (buyOrder sellOrder : OrderRow) : result error SettlementParticipants :=
  if negb (bool_decide (r_Side buyOrder = OrderSideBuy)) then Err (Errorf "buy order has invalid side" [])
  else if negb (bool_decide (r_Side sellOrder = OrderSideSell)) then Err (Errorf "sell order has invalid side" [])
  else
    _ ← validateDistinctSettlementParticipants (r_UserID buyOrder) (r_UserID sellOrder);
    Ok (mkParticipants (r_UserID buyOrder) (r_UserID sellOrder)).

Definition find_trade (t : Tables) (key : string) : option Trade :=
  snd <$> list_find (fun trade => t_IdempotencyKey trade = key) (tb_trades t).

Definition findTradeByIdempotencyKey (idempotencyKey : string) : M Trade :=
  found ← query (fun t => find_trade t idempotencyKey);
  match found with Some trade => mret trade | None => throw ErrRecordNotFound end.

Definition validateIdempotentTradePayload (existing incoming : Trade) : result error unit :=
  if negb (bool_decide (normalizeTradeCoinSymbol (t_CoinSymbol existing) = normalizeTradeCoinSymbol (t_CoinSymbol incoming)))
     || negb (t_EngineSequence existing =? t_EngineSequence incoming)
     || negb (bool_decide (TrimSpace (t_EngineEventID existing) = TrimSpace (t_EngineEventID incoming)))
     || negb (bool_decide (t_BuyOrderID existing = t_BuyOrderID incoming))
     || negb (bool_decide (t_SellOrderID existing = t_SellOrderID incoming))
     || negb (Equal (t_Price existing) (t_Price incoming))
     || negb (Equal (t_Quantity existing) (t_Quantity incoming))
     || negb (Equal (t_FeeRate existing) (t_FeeRate incoming))
     || negb (Equal (t_BuyerFee existing) (t_BuyerFee incoming))
     || negb (bool_decide (TrimSpace (t_BuyerFeeAsset existing) = TrimSpace (t_BuyerFeeAsset incoming)))
     || negb (Equal (t_SellerFee existing) (t_SellerFee incoming))
     || negb (bool_decide (TrimSpace (t_SellerFeeAsset existing) = TrimSpace (t_SellerFeeAsset incoming)))
  then Err (Errorf "idempotency key conflict for %q: existing trade payload differs" [t_IdempotencyKey incoming])
  else Ok tt.

Definition duplicateSettlementResult (trade : Trade) : SettlementResult :=
  mkSettlementResult false true (t_ID trade).

Definition markSettledOutbox (outboxEventID : N) : M unit :=
  if decide (outboxEventID = 0%N) then mret tt
  else
    _ ← stmt;
    modify_db (fun t => match tb_outbox t !! outboxEventID with
                        | None => t
                        | Some row => t <| tb_outbox := <[outboxEventID := processed row]> (tb_outbox t) |>
                        end).

(** CHECK constraints of the trades table. *)
Definition trade_checks (trade : Trade) : bool :=
  IsPositive (t_Price trade) && IsPositive (t_Quantity trade) && (0 <=? t_EngineSequence trade)
  && negb (IsNegative (t_FeeRate trade)) && negb (IsNegative (t_BuyerFee trade)) && negb (IsNegative (t_SellerFee trade)).

(** They and the partial unique index on engine_event_id. *)
Definition trade_violation (t : Tables) (trade : Trade) : option string :=
  if negb (trade_checks trade) then Some "ck_trades"%string
  else if bool_decide (t_EngineEventID trade <> "") && bool_decide (t_EngineEventID trade ∈ map t_EngineEventID (tb_trades t))
  then Some "idx_trades_engine_event_id"%string
  else None.

(** INSERT ... ON CONFLICT (idempotency_key) DO NOTHING of one row; [None] when
    the key is taken.  CHECK constraints come before the conflict test. *)
Definition insert_trade (trade : Trade) : M (option Trade) :=
  id ← nextval "trades";
  t ← get_db;
  match find_trade t (t_IdempotencyKey trade) with
  | Some _ => if trade_checks trade then mret None else throw (ConstraintViolation "ck_trades")
  | None =>
      let row := trade <| t_ID := id |> in
      match trade_violation t row with
      | Some name => throw (ConstraintViolation name)
      | None => _ ← put_db (t <| tb_trades := tb_trades t ++ [row] |>); mret (Some row)
      end
  end.

Definition trade_journal_key (trade : Trade) : string := "trade:" +:+ t_IdempotencyKey trade.

Definition trade_input (trade : Trade) (plan : tradeSettlementPlan) : JournalInput :=
  mkJournalInput JournalEventTrade (trade_journal_key trade) JournalReferenceTrade (t_ID trade) None (plan_Postings plan).

(** The checks of the two orders that do not depend on their fills. *)
Definition check_trade_orders (trade : Trade) (buyOrder sellOrder : OrderRow) : result error unit :=
  if negb (bool_decide (r_Side buyOrder = OrderSideBuy))
  then Err (Errorf "buy order %d has invalid side" [pretty (r_ID buyOrder)])
  else if negb (bool_decide (r_Side sellOrder = OrderSideSell))
  then Err (Errorf "sell order %d has invalid side" [pretty (r_ID sellOrder)])
  else if negb (bool_decide (r_CoinSymbol buyOrder = t_CoinSymbol trade)) || negb (bool_decide (r_CoinSymbol sellOrder = t_CoinSymbol trade))
  then Err (Errorf "trade coin symbol does not match both orders" [])
  else Ok tt.

Definition wrap_err {A} (format : string) (r : result error A) : result error A :=
  match r with Ok a => Ok a | Err e => Err (Wrapf format e) end.

(** The transaction of a trade that was just inserted. *)
Definition settle_inserted (trade : Trade) (outboxEventID : N) : M SettlementResult :=
  buyOrder ← FindByIDForUpdate (t_BuyOrderID trade);
  sellOrder ← FindByIDForUpdate (t_SellOrderID trade);
  _ ← lift (check_trade_orders trade buyOrder sellOrder);
  _ ← lift (validateOrderStatusForSettlement buyOrder "buy");
  _ ← lift (validateOrderStatusForSettlement sellOrder "sell");
  participants ← lift (settlementParticipants buyOrder sellOrder);
  let executionQuote := tradeQuoteAmount trade in
  '(buyFilled, buyFilledQuote, buyStatus) ← lift (wrap_err "buy order fill: %w" (applyTradeFill buyOrder (t_Quantity trade) executionQuote));
  '(sellFilled, sellFilledQuote, sellStatus) ← lift (wrap_err "sell order fill: %w" (applyTradeFill sellOrder (t_Quantity trade) executionQuote));
  plan ← lift (planTradeSettlement trade buyOrder participants);
  _ ← UpdateOrderExecution (r_ID buyOrder) buyFilled buyFilledQuote buyStatus;
  _ ← UpdateOrderExecution (r_ID sellOrder) sellFilled sellFilledQuote sellStatus;
  _ ← Record_ (trade_input trade plan);
  _ ← applyAvgBuyPrice (BuyerUserID participants) (t_CoinSymbol trade) (t_Quantity trade) (plan_ExecutionDebit plan);
  _ ← clearAvgBuyPriceIfEmpty (SellerUserID participants) (t_CoinSymbol trade);
  _ ← markSettledOutbox outboxEventID;
  mret (mkSettlementResult true false (t_ID trade)).

Definition settle_duplicate (existing trade : Trade) (outboxEventID : N) : M SettlementResult :=
  _ ← lift (validateIdempotentTradePayload existing trade);
  _ ← markSettledOutbox outboxEventID;
  mret (duplicateSettlementResult existing).

Definition settle_body (trade : Trade) (outboxEventID : N) : M SettlementResult :=
  found ← query (fun t => find_trade t (t_IdempotencyKey trade));
  match found with
  | Some existing => settle_duplicate existing trade outboxEventID
  | None =>
      _ ← stmt;
      created ← insert_trade trade;
      match created with
      | None =>
          existing ← findTradeByIdempotencyKey (t_IdempotencyKey trade);
          settle_duplicate existing trade outboxEventID
      | Some row => settle_inserted row outboxEventID
      end
  end.

Definition SettleTrade (trade0 : Trade) (outboxEventID : N) : M SettlementResult :=
  trade ← lift (prepareTradeForSettlement trade0);
  trade ← lift (applyTradeFeePolicy trade);
  transaction (settle_body trade outboxEventID).
End Settlement.
