(* ===== verification/TradePlan.v ===== *)
(** * The postings of a trade balance

    [planTradeSettlement] produces a valid journal exactly when the amount
    reserved for the buyer covers the execution, and the journal moves exactly
    the amounts the trade says. *)
From S2P Require Import Prelude Decimal Model Errors Fee Database Ledger LedgerInv LedgerSpec Sha256 OrderLedger Settlement.
From Stdlib Require Import Lia.

Section TradePlan.
Context {DL : DecimalLib} {DLaws : DecimalLaws DL}.
Local Open Scope Q_scope.

(** A trade as it reaches the plan: prepared and with its fees. *)
Definition plannable (trade : Trade) : Prop :=
  t_CoinSymbol trade <> "" /\ 0 < dval (t_Price trade) /\ 0 < dval (t_Quantity trade)
  /\ 0 <= dval (t_BuyerFee trade) /\ 0 <= dval (t_SellerFee trade).

Definition execution_debit (trade : Trade) : Q := dval (t_Price trade) * dval (t_Quantity trade) + dval (t_BuyerFee trade).
Definition seller_net (trade : Trade) : Q := dval (t_Price trade) * dval (t_Quantity trade) - dval (t_SellerFee trade).
Definition reserved_debit (buyOrder : OrderRow) (trade : Trade) : Q := dval (reservedBuyDebitAmount buyOrder trade).

Lemma planTradeSettlement_Ok trade buyOrder parts plan : planTradeSettlement trade buyOrder parts = Ok plan ->
  exists net, amountAfterFee (tradeQuoteAmount trade) (t_SellerFee trade) "seller" = Ok net
    /\ dval net == seller_net trade /\ 0 < dval net
    /\ plan_Postings plan = tradePostings trade (BuyerUserID parts) (SellerUserID parts)
         (reservedBuyDebitAmount buyOrder trade) (Add (tradeQuoteAmount trade) (t_BuyerFee trade)) net
    /\ dval (plan_ExecutionDebit plan) == execution_debit trade.
Proof.
  unfold planTradeSettlement. intros H. destruct (amountAfterFee _ _ _) as [net|] eqn:E; [|done].
  cbn [mbind result_bind] in H. simplify_eq. exists net. split; [done|].
  unfold amountAfterFee in E. inv_ok E. bool_to_prop. dec_prop.
  rewrite dval_Sub, dval_Zero, dval_tradeQuoteAmount in *. unfold seller_net, execution_debit. cbn.
  rewrite dval_Add, dval_tradeQuoteAmount. repeat split; lra.
Qed.

(** ** Sums over the six lines *)

Lemma dval_refund reserved exec : dval (Sub reserved exec) == dval reserved - dval exec.
Proof. apply dval_Sub. Qed.

Ltac postings_sum :=
  unfold asset_sum, key_sum, tradePostings; rewrite ?sum_where_app, ?sum_where_cons, ?sum_where_nil.

Lemma tradePostings_asset trade b s reserved exec net asset :
  asset_sum asset (tradePostings trade b s reserved exec net)
  == if decide (asset = KRWAssetSymbol) then
       - dval reserved + dval net + (if IsPositive (Sub reserved exec) then dval reserved - dval exec else 0)
       + (if IsPositive (Add (t_BuyerFee trade) (t_SellerFee trade)) then dval (t_BuyerFee trade) + dval (t_SellerFee trade) else 0)
     else 0.
Proof.
  postings_sum. cbn [pi_Asset pi_Amount].
  destruct (IsPositive (Sub reserved exec)), (IsPositive (Add _ _)); rewrite ?sum_where_cons, ?sum_where_nil; cbn [pi_Asset pi_Amount];
    repeat case_decide; subst; rewrite ?dval_Neg, ?dval_Add, ?dval_Sub; try lra; congruence.
Qed.

Lemma fees_sum trade : plannable trade ->
  (if IsPositive (Add (t_BuyerFee trade) (t_SellerFee trade)) then dval (t_BuyerFee trade) + dval (t_SellerFee trade) else 0)
  == dval (t_BuyerFee trade) + dval (t_SellerFee trade).
Proof. intros (_ & _ & _ & Hb & Hs). destruct (IsPositive _) eqn:E; dec_prop; rewrite dval_Add in E; lra. Qed.

(** The plan of a trade balances exactly when the reservation covers it. *)
Lemma plan_balanced trade buyOrder parts plan : plannable trade -> planTradeSettlement trade buyOrder parts = Ok plan ->
  balanced (plan_Postings plan) <-> execution_debit trade <= reserved_debit buyOrder trade.
Proof.
  intros Hp H. apply planTradeSettlement_Ok in H as (net & _ & Hnet & Hpos & -> & _).
  set (exec := Add (tradeQuoteAmount trade) (t_BuyerFee trade)). set (reserved := reservedBuyDebitAmount buyOrder trade).
  assert (He : dval exec == execution_debit trade).
  { unfold exec, execution_debit. by rewrite dval_Add, dval_tradeQuoteAmount. }
  unfold reserved_debit. fold reserved.
  assert (Hkrw : asset_sum KRWAssetSymbol (tradePostings trade (BuyerUserID parts) (SellerUserID parts) reserved exec net)
     == execution_debit trade - dval reserved
        + (if IsPositive (Sub reserved exec) then dval reserved - execution_debit trade else 0)).
  { rewrite tradePostings_asset. rewrite decide_True by done. rewrite (fees_sum _ Hp), Hnet.
    unfold seller_net, execution_debit. destruct (IsPositive _); rewrite ?He; unfold execution_debit; lra. }
  split.
  - intros Hb. specialize (Hb KRWAssetSymbol). rewrite Hkrw in Hb. destruct (IsPositive _) eqn:E; dec_prop.
    + rewrite dval_Sub, He in E. lra.
    + lra.
  - intros Hle asset. destruct (decide (asset = KRWAssetSymbol)) as [->|Hne].
    + rewrite Hkrw. destruct (IsPositive _) eqn:E; dec_prop; rewrite dval_Sub, He in E; lra.
    + rewrite tradePostings_asset, decide_False by done. done.
Qed.

Lemma system_types :
  AccountUserLocked ∉ SystemAccountTypes /\ AccountUserAvailable ∉ SystemAccountTypes /\ AccountFeeIncome ∈ SystemAccountTypes.
Proof. repeat split; vm_compute; set_solver. Qed.

Lemma posting_user_ok ty u asset amount : ty ∉ SystemAccountTypes -> asset <> "" -> ~ dval amount == 0 ->
  posting_input_ok (mkPostingInput ty (Some u) asset amount).
Proof. intros Ht Ha Hz. split; [done|]. split; [done|]. cbn. split; [done | discriminate]. Qed.

Lemma reserved_positive trade buyOrder : plannable trade -> execution_debit trade <= reserved_debit buyOrder trade ->
  0 < reserved_debit buyOrder trade.
Proof.
  intros (_ & Hp & Hq & Hb & _) Hle. assert (0 < dval (t_Price trade) * dval (t_Quantity trade)) by (by apply Qmult_lt_0_compat).
  unfold execution_debit in Hle. lra.
Qed.

Lemma plan_postings_ok trade buyOrder parts plan : plannable trade -> planTradeSettlement trade buyOrder parts = Ok plan ->
  execution_debit trade <= reserved_debit buyOrder trade -> Forall posting_input_ok (plan_Postings plan).
Proof.
  intros Hp H Hle. pose proof (reserved_positive _ _ Hp Hle) as Hres. unfold reserved_debit in Hres.
  apply planTradeSettlement_Ok in H as (net & _ & _ & Hpos & -> & _). destruct Hp as (Hc & _ & Hq & _).
  destruct system_types as (Hlk & Hav & Hfi). unfold tradePostings. apply Forall_app. split; [|apply Forall_app; split].
  - rewrite !Forall_cons. split; [|split; [|split; [|split; [|done]]]];
      (apply posting_user_ok; [done | done | rewrite ?dval_Neg; lra]).
  - destruct (IsPositive (Sub _ _)) eqn:E; [|done]. apply IsPositive_true in E. apply Forall_singleton.
    apply posting_user_ok; [done | done | lra].
  - destruct (IsPositive (Add _ _)) eqn:E; [|done]. apply IsPositive_true in E. apply Forall_singleton.
    split; [done|]. split; [cbn; lra | done].
Qed.

Lemma plan_valid trade buyOrder parts plan : plannable trade ->
  planTradeSettlement trade buyOrder parts = Ok plan ->
  validateJournalInput (trade_input trade plan) = Ok tt
  <-> execution_debit trade <= reserved_debit buyOrder trade.
Proof.
  intros Hp H. rewrite validateJournalInput_Ok. split.
  - intros (_ & _ & _ & _ & _ & _ & Hb). by apply (plan_balanced trade buyOrder parts plan).
  - intros Hle. unfold valid_journal. cbn [in_IdempotencyKey in_EventType in_ReferenceType in_Postings in_ReversesJournalID trade_input].
    split; [done|]. split; [done|]. split; [done|]. split.
    { apply planTradeSettlement_Ok in H as (net & _ & _ & _ & -> & _). unfold tradePostings. rewrite length_app. cbn. lia. }
    split; [split; [done | intros Hn; by destruct Hn]|].
    split; [by eapply plan_postings_ok | by eapply plan_balanced].
Qed.

(** The journal of a trade is accepted by the ledger's validation exactly when
    the amount reserved for the buyer covers price times quantity plus the
    buyer's fee; whatever the coin, no unit of an asset appears or disappears. *)
Theorem trade_journal_valid trade buyOrder parts plan : plannable trade ->
  planTradeSettlement trade buyOrder parts = Ok plan ->
  validateJournalInput (trade_input trade plan) = Ok tt
  <-> execution_debit trade <= reserved_debit buyOrder trade.
Proof. apply plan_valid. Qed.

(** ** What the journal of a trade does to each account *)

Definition key_user (ty : string) (user : N) (asset : string) : accountKey := (ty, (user, asset)).
Definition fee_key : accountKey := (AccountFeeIncome, (0%N, KRWAssetSymbol)).

(** [v] if [k] is the account [x], nothing otherwise. *)
Definition on (k x : accountKey) (v : Q) : Q := (if decide (x = k) then 1 else 0) * v.

Lemma on_if (k x : accountKey) v : (if decide (x = k) then v else 0) == on k x v.
Proof. unfold on. case_decide; lra. Qed.

(** The change of every account. *)
Definition trade_effect (trade : Trade) (reserved : Q) (buyer seller : N) (k : accountKey) : Q :=
  on k (key_user AccountUserLocked buyer KRWAssetSymbol) (- reserved)
  + on k (key_user AccountUserAvailable buyer KRWAssetSymbol) (reserved - execution_debit trade)
  + on k (key_user AccountUserAvailable seller KRWAssetSymbol) (seller_net trade)
  + on k fee_key (dval (t_BuyerFee trade) + dval (t_SellerFee trade))
  + on k (key_user AccountUserLocked seller (t_CoinSymbol trade)) (- dval (t_Quantity trade))
  + on k (key_user AccountUserAvailable buyer (t_CoinSymbol trade)) (dval (t_Quantity trade)).

Lemma key_sum_cons k p l : key_sum k (p :: l) == on k (posting_key p) (dval (pi_Amount p)) + key_sum k l.
Proof. unfold key_sum. rewrite sum_where_cons, on_if. done. Qed.
Lemma key_sum_app k l l' : key_sum k (l ++ l') == key_sum k l + key_sum k l'.
Proof. apply sum_where_app. Qed.
Lemma key_sum_nil k : key_sum k [] = 0.
Proof. done. Qed.
Lemma on_eq k x v v' : v == v' -> on k x v == on k x v'.
Proof. intros H. unfold on. by rewrite H. Qed.
Lemma on_zero k x v : v == 0 -> on k x v == 0.
Proof. intros H. unfold on. rewrite H. lra. Qed.

Lemma plan_effect trade buyOrder parts plan k : plannable trade -> planTradeSettlement trade buyOrder parts = Ok plan ->
  execution_debit trade <= reserved_debit buyOrder trade ->
  key_sum k (plan_Postings plan)
  == trade_effect trade (reserved_debit buyOrder trade) (BuyerUserID parts) (SellerUserID parts) k.
Proof.
  intros Hp H Hle. pose proof Hp as (_ & _ & _ & Hbf & Hsf).
  apply planTradeSettlement_Ok in H as (net & _ & Hnet & _ & -> & _). unfold reserved_debit in *.
  set (reserved := reservedBuyDebitAmount buyOrder trade) in *. unfold trade_effect, tradePostings.
  assert (Hr : dval (Sub reserved (Add (tradeQuoteAmount trade) (t_BuyerFee trade))) == dval reserved - execution_debit trade).
  { rewrite dval_Sub, dval_Add, dval_tradeQuoteAmount. unfold execution_debit. lra. }
  assert (Hrefund : key_sum k (if IsPositive (Sub reserved (Add (tradeQuoteAmount trade) (t_BuyerFee trade)))
      then [mkPostingInput AccountUserAvailable (Some (BuyerUserID parts)) KRWAssetSymbol (Sub reserved (Add (tradeQuoteAmount trade) (t_BuyerFee trade)))] else [])
    == on k (key_user AccountUserAvailable (BuyerUserID parts) KRWAssetSymbol) (dval reserved - execution_debit trade)).
  { destruct (IsPositive (Sub _ _)) eqn:E; [rewrite key_sum_cons, key_sum_nil; cbn [pi_Amount]; rewrite (on_eq _ _ _ _ Hr); apply Qplus_0_r|].
    apply IsPositive_false in E. rewrite Hr in E. rewrite key_sum_nil. symmetry. apply on_zero. lra. }
  assert (Hfees : key_sum k (if IsPositive (Add (t_BuyerFee trade) (t_SellerFee trade))
      then [mkPostingInput AccountFeeIncome None KRWAssetSymbol (Add (t_BuyerFee trade) (t_SellerFee trade))] else [])
    == on k fee_key (dval (t_BuyerFee trade) + dval (t_SellerFee trade))).
  { destruct (IsPositive (Add _ _)) eqn:E; [rewrite key_sum_cons, key_sum_nil; cbn [pi_Amount]; rewrite (on_eq _ _ _ _ (dval_Add _ _)); apply Qplus_0_r|].
    apply IsPositive_false in E. rewrite dval_Add in E. rewrite key_sum_nil. symmetry. apply on_zero. lra. }
  rewrite !key_sum_app, Hrefund, Hfees, !key_sum_cons, key_sum_nil. cbn [pi_Amount].
  rewrite !(on_eq _ _ _ _ (dval_Neg _)), (on_eq _ _ _ _ Hnet). unfold posting_key, newAccountKey, key_user. cbn [pi_AccountType pi_OwnerUserID pi_Asset].
  unfold ownerValue. cbn [default from_option]. unfold id. ring.
Qed.
End TradePlan.
