(* ===== verification/Store.v ===== *)
(** * The invariant of the whole store

    The ledger invariant together with what the services keep of orders and
    trades, and what the shared steps (reading and updating an order, holding
    and releasing its assets) do to it. *)
From S2P Require Import Prelude Decimal Model Errors Fee Database Ledger LedgerInv LedgerSpec LedgerTheorems Sha256 OrderLedger Settlement TradePlan.
From Stdlib Require Import Lia.

Section Store.
Context {DL : DecimalLib} {DLaws : DecimalLaws DL}.
Local Open Scope Q_scope.

(** An order is never filled beyond what it asked for. *)
Definition within_limit (o : OrderRow) : Prop :=
  if decide (r_OrderType o = OrderTypeMarket /\ r_Side o = OrderSideBuy)
  then dval (r_FilledQuoteAmount o) <= dval (r_QuoteAmount o)
  else dval (r_FilledAmount o) <= dval (r_Amount o).

Definition order_ok (s : Seqs) (id : N) (o : OrderRow) : Prop :=
  r_ID o = id /\ (0 < id <= seq_value s "orders")%N
  /\ 0 <= dval (r_FilledAmount o) /\ 0 <= dval (r_FilledQuoteAmount o) /\ within_limit o.

(** A journal under a trade's key belongs to a stored trade. *)
Definition keyed_ok (l : list JournalEntry) (trades : list Trade) : Prop :=
  Forall (fun e => forall key, j_IdempotencyKey e = ("trade:" +:+ key)%string -> key ∈ map t_IdempotencyKey trades) l.

Record store_ok (t : Tables) (s : Seqs) : Prop := {
  so_ledger : ledger_ok t s;
  so_keyed : keyed_ok (tb_journals t) (tb_trades t);
  so_orders : map_Forall (order_ok s) (tb_orders t);
  so_trade_keys : NoDup (map t_IdempotencyKey (tb_trades t));
  so_trade_ids : Forall (fun trade => t_ID trade <= seq_value s "trades")%N (tb_trades t) }.

Lemma order_ok_seq s s' id o : seq_le s s' -> order_ok s id o -> order_ok s' id o.
Proof. intros Hs (H1 & H2 & H3). split; [done|]. split; [|done]. specialize (Hs "orders"%string). lia. Qed.

Lemma store_ok_seq t s s' : seq_le s s' -> store_ok t s -> store_ok t s'.
Proof.
  intros Hs [H1 Hk H3 H4 H5]. split; try done.
  - by eapply ledger_ok_seq.
  - intros id o Ho. eapply order_ok_seq; [done|]. by apply H3.
  - eapply Forall_impl; [exact H5|]. cbn. intros x Hx. specialize (Hs "trades"%string). lia.
Qed.

(** Changes outside the ledger, orders and trades do not matter. *)
Lemma store_ok_same t t' s : same_ledger t t' -> tb_orders t' = tb_orders t -> tb_trades t' = tb_trades t ->
  store_ok t s -> store_ok t' s.
Proof.
  intros Hl Ho Ht [H1 Hk H3 H4 H5]. split; rewrite ?Ho, ?Ht; try done; [by eapply ledger_ok_same|];
    by destruct Hl as (_ & _ & -> & _).
Qed.

Lemma balance_of_same t t' k : same_ledger t t' -> balance_of t' k = balance_of t k.
Proof. intros (Ha & Hb & _ & _). unfold balance_of, find_account. by rewrite Ha, Hb. Qed.

(** ** Recording in the store *)

(** A journal is recorded, whatever else changed with it. *)
Definition posted (i : JournalInput) (t t' : Tables) : Prop :=
  exists e t1 t2, same_ledger t t1 /\ recorded i e t1 t2 /\ same_ledger t2 t'.

Lemma posted_balance i t t' k : posted i t t' -> balance_of t' k == balance_of t k + key_sum k (in_Postings i).
Proof.
  intros (e & t1 & t2 & H1 & H2 & H3). rewrite (balance_of_same _ _ k H3), (rc_balances _ _ _ _ H2 k), (balance_of_same _ _ k H1). done.
Qed.

(** Which keys a posted journal adds. *)
Lemma posted_find i t t' k : posted i t t' -> find_journal t' k <> None -> find_journal t k <> None \/ k = in_IdempotencyKey i.
Proof.
  intros (e & t1 & t2 & (_ & _ & Hj1 & _) & Hr & (_ & _ & Hj2 & _)) Hf. destruct (find_journal t' k) as [e'|] eqn:E; [|done].
  apply find_journal_Some in E as [He' Ek]. rewrite Hj2, (rc_journals _ _ _ _ Hr), Hj1 in He'.
  apply elem_of_app in He' as [He'|He'].
  - left. intros Hn. apply find_journal_None in Hn. apply Hn. rewrite <- Ek. by apply (list_elem_of_fmap_2 j_IdempotencyKey).
  - right. apply list_elem_of_singleton in He' as ->. destruct (rc_entry _ _ _ _ Hr) as (_ & <- & _). done.
Qed.

(** The journal is there when the call returns: written now, or before. *)
Definition journal_done (i : JournalInput) (t t' : Tables) (created : bool) : Prop :=
  if created then posted i t t' else same_ledger t t' /\ exists e, find_journal t (in_IdempotencyKey i) = Some e /\ same_journal t i e.

Lemma same_journal_same t t' i e : same_ledger t t' -> same_journal t i e -> same_journal t' i e.
Proof.
  intros (Ha & _ & _ & Hp) [He (l & Hl & Hall)]. split; [done|]. exists l. split; [done|].
  unfold stored_postings. rewrite Hp. eapply Forall2_impl; [exact Hall|]. intros p r. unfold stored_as. by rewrite Ha.
Qed.

(** A journal that uses a trade's key is that of a stored trade. *)
Definition key_ok (i : JournalInput) (t : Tables) : Prop :=
  forall key, in_IdempotencyKey i = ("trade:" +:+ key)%string -> key ∈ map t_IdempotencyKey (tb_trades t).

Lemma Record_store i t s : store_ok t s -> key_ok i t ->
  wp (Record_ i) (fun '(e, c) t' s' => store_ok t' s' /\ same_rest t t' /\ journal_done i t t' c /\ entry_of i e)
    (record_fails t i) t s.
Proof.
  intros Hok Hkey. eapply wp_mono; [apply Record_spec, Hok | | done].
  intros [e c] t' s' Hs [Hl H]. pose proof (store_ok_seq _ _ _ Hs Hok) as Hok'.
  assert (Hrest : same_rest t t') by (destruct c; [apply H | by destruct H as (-> & _)]).
  assert (Hent : entry_of i e) by (destruct c; [apply H | by destruct H as (_ & _ & _ & ? & _)]).
  split; [|split; [done|split; [|done]]].
  - destruct Hrest as (_ & Ho & Ht & _). destruct Hok' as [_ Hk H3 H4 H5].
    destruct Hent as (_ & Ekey & Hr & Hid & _). split; rewrite ?Ho, ?Ht; try done.
    destruct c; [|by destruct H as (-> & _)]. rewrite (rc_journals _ _ _ _ H). apply Forall_app. split; [done|].
    apply Forall_singleton. by rewrite Ekey.
  - destruct c; [by exists e, t, t'|]. destruct H as (-> & _ & Hf & Hsame). split; [done|]. by exists e.
Qed.

(** ** Orders *)

Lemma FindByIDForUpdate_spec id t s (Q : OrderRow -> Tables -> Seqs -> Prop) (E : error -> Prop) :
  (forall o, tb_orders t !! id = Some o -> Q o t s) -> (tb_orders t !! id = None -> E ErrRecordNotFound) ->
  wp (FindByIDForUpdate id) Q E t s.
Proof.
  intros HQ HE. unfold FindByIDForUpdate. apply wp_bind, wp_query.
  destruct (tb_orders t !! id) as [o|] eqn:Eo; [apply wp_ret; by apply HQ | apply wp_throw; by apply HE].
Qed.

Lemma UpdateOrderExecution_spec id fa fq st t s (Q : unit -> Tables -> Seqs -> Prop) (E : error -> Prop) o :
  tb_orders t !! id = Some o ->
  Q tt (t <| tb_orders := <[id := with_execution o fa fq st]> (tb_orders t) |>) s ->
  wp (UpdateOrderExecution id fa fq st) Q E t s.
Proof.
  intros Ho HQ. unfold UpdateOrderExecution. apply wp_bind, wp_stmt, wp_bind, wp_get. rewrite Ho. by apply wp_put.
Qed.

Lemma store_ok_update_order t s id o' : store_ok t s -> order_ok s id o' ->
  store_ok (t <| tb_orders := <[id := o']> (tb_orders t) |>) s.
Proof.
  intros [H1 Hk H3 H4 H5] Ho. split; try done.
  - eapply ledger_ok_same; [|exact H1]. done.
  - cbn. by apply map_Forall_insert_2.
Qed.

(** ** Fills *)

(** [applyTradeFill] adds the trade and stays within the order. *)
Lemma applyTradeFill_Ok o q v fa fq st : applyTradeFill o q v = Ok (fa, fq, st) ->
  0 < dval q /\ 0 < dval v /\ dval fa == dval (r_FilledAmount o) + dval q
  /\ dval fq == dval (r_FilledQuoteAmount o) + dval v /\ within_limit (with_execution o fa fq st)
  /\ (st = OrderStatusFilled <->
        if decide (r_OrderType o = OrderTypeMarket /\ r_Side o = OrderSideBuy)
        then dval fq == dval (r_QuoteAmount o) else dval fa == dval (r_Amount o))
  /\ (st = OrderStatusFilled \/ st = OrderStatusPartial).
Proof.
  unfold applyTradeFill, within_limit. intros H. change (r_OrderType (with_execution o fa fq st)) with (r_OrderType o).
  change (r_Side (with_execution o fa fq st)) with (r_Side o). inv_ok H; bool_to_prop; dec_prop; simplify_eq; cbn;
    rewrite ?dval_Add, ?dval_Zero in *; repeat (split; [first [done | lra]|]); auto.
  all: split; [|by auto]; split; try done; intros; try done; lra.
Qed.
End Store.
