(* ===== verification/SettlementProofs.v ===== *)
(** * What settling one trade does

    [settle_body_spec]: from a store with the invariant, the transaction of
    [SettleTrade] either settles the trade (both orders filled, every account
    changed by the trade's effect, the trade and its journal stored), or finds it
    settled already, or fails, and it fails only when the trade is not covered. *)
From S2P Require Import Prelude Decimal Model Errors Fee Database Ledger LedgerInv LedgerSpec LedgerTheorems Sha256 OrderLedger Settlement TradePlan Store.
From Stdlib Require Import Lia.

Section SettlementProofs.
Context {DL : DecimalLib} {DLaws : DecimalLaws DL}.
Local Open Scope Q_scope.

(** ** Prepared trades *)

Definition prepared (trade : Trade) : Prop :=
  t_CoinSymbol trade <> "" /\ t_IdempotencyKey trade <> "" /\ 0 < dval (t_Price trade) /\ 0 < dval (t_Quantity trade).

Lemma tradeIdempotencyKey_nonempty trade : tradeIdempotencyKey trade <> "".
Proof.
  unfold tradeIdempotencyKey. case_decide; [|done]. unfold deterministicTradeIdempotencyKey.
  intros Hx. pose proof (sha256_hex_length (normalizeTradeCoinSymbol (t_CoinSymbol trade) +:+ "|" +:+ pretty (t_BuyOrderID trade) +:+ "|"
     +:+ pretty (t_SellOrderID trade) +:+ "|" +:+ DString (t_Price trade) +:+ "|" +:+ DString (t_Quantity trade))) as Hl.
  by rewrite Hx in Hl.
Qed.

Lemma prepare_Ok trade0 trade : prepareTradeForSettlement trade0 = Ok trade ->
  prepared trade /\ t_Price trade = t_Price trade0 /\ t_Quantity trade = t_Quantity trade0
  /\ t_BuyOrderID trade = t_BuyOrderID trade0 /\ t_SellOrderID trade = t_SellOrderID trade0
  /\ t_CoinSymbol trade = normalizeTradeCoinSymbol (t_CoinSymbol trade0) /\ t_FeeRate trade = t_FeeRate trade0.
Proof.
  unfold prepareTradeForSettlement. set (coin := normalizeTradeCoinSymbol _). clearbody coin. cbn -[tradeIdempotencyKey TrimSpace].
  intros H. inv_ok H; bool_to_prop; dec_prop. rewrite dval_Zero in *. unfold prepared.
  destruct (decide (TrimSpace (t_IdempotencyKey trade0) = "")) as [_|Hk]; cbn -[tradeIdempotencyKey TrimSpace]; repeat split; try done.
  apply tradeIdempotencyKey_nonempty.
Qed.

(** ** Orders of a trade *)

Definition open_status (o : OrderRow) : Prop := r_Status o = OrderStatusPending \/ r_Status o = OrderStatusPartial.

(** The two orders a trade may be settled against. *)
Definition matched (trade : Trade) (buy sell : OrderRow) : Prop :=
  r_Side buy = OrderSideBuy /\ r_Side sell = OrderSideSell
  /\ r_CoinSymbol buy = t_CoinSymbol trade /\ r_CoinSymbol sell = t_CoinSymbol trade
  /\ open_status buy /\ open_status sell
  /\ r_UserID buy <> 0%N /\ r_UserID sell <> 0%N /\ r_UserID buy <> r_UserID sell.

Lemma check_trade_orders_Ok trade buy sell : check_trade_orders trade buy sell = Ok tt
  <-> r_Side buy = OrderSideBuy /\ r_Side sell = OrderSideSell
      /\ r_CoinSymbol buy = t_CoinSymbol trade /\ r_CoinSymbol sell = t_CoinSymbol trade.
Proof. unfold check_trade_orders. repeat (case_bool_decide; cbn); intuition congruence. Qed.

Lemma validateOrderStatus_Ok o role : validateOrderStatusForSettlement o role = Ok tt <-> open_status o.
Proof. unfold validateOrderStatusForSettlement, open_status. destruct (r_Status o); intuition congruence. Qed.

Lemma settlementParticipants_Ok buy sell parts : settlementParticipants buy sell = Ok parts
  <-> parts = mkParticipants (r_UserID buy) (r_UserID sell) /\ r_Side buy = OrderSideBuy /\ r_Side sell = OrderSideSell
      /\ r_UserID buy <> 0%N /\ r_UserID sell <> 0%N /\ r_UserID buy <> r_UserID sell.
Proof.
  unfold settlementParticipants, validateDistinctSettlementParticipants.
  repeat (case_bool_decide; cbn); try case_decide; cbn; intuition congruence.
Qed.

(** What the order asks for, and what it has received of it. *)
Definition limit_of (o : OrderRow) : Q :=
  if decide (r_OrderType o = OrderTypeMarket /\ r_Side o = OrderSideBuy) then dval (r_QuoteAmount o) else dval (r_Amount o).
Definition progress_of (o : OrderRow) : Q :=
  if decide (r_OrderType o = OrderTypeMarket /\ r_Side o = OrderSideBuy) then dval (r_FilledQuoteAmount o) else dval (r_FilledAmount o).
Definition quote_of (trade : Trade) : Q := dval (t_Price trade) * dval (t_Quantity trade).
(** What a trade adds to it. *)
Definition step_of (trade : Trade) (o : OrderRow) : Q :=
  if decide (r_OrderType o = OrderTypeMarket /\ r_Side o = OrderSideBuy)
  then quote_of trade else dval (t_Quantity trade).

(** The order after the trade. *)
Definition filled_by (trade : Trade) (o o' : OrderRow) : Prop :=
  exists fa fq st, o' = with_execution o fa fq st
    /\ dval fa == dval (r_FilledAmount o) + dval (t_Quantity trade)
    /\ dval fq == dval (r_FilledQuoteAmount o) + quote_of trade
    /\ progress_of o' <= limit_of o'
    /\ (st = OrderStatusFilled <-> progress_of o' == limit_of o') /\ (st = OrderStatusFilled \/ st = OrderStatusPartial).

Lemma fill_spec trade o : 0 < dval (t_Quantity trade) -> 0 < quote_of trade ->
  match applyTradeFill o (t_Quantity trade) (tradeQuoteAmount trade) with
  | Ok (fa, fq, st) => filled_by trade o (with_execution o fa fq st)
  | Err _ => ~ progress_of o + step_of trade o <= limit_of o
  end.
Proof.
  intros Hq Hv. destruct (applyTradeFill _ _ _) as [[[fa fq] st]|err] eqn:Ef.
  - pose proof (applyTradeFill_Ok _ _ _ _ _ _ Ef) as (_ & _ & Ha & Hb & Hw & Hst & Hor). rewrite dval_tradeQuoteAmount in Hb.
    exists fa, fq, st. split; [done|]. split; [done|]. split; [done|].
    unfold within_limit in Hw. unfold progress_of, limit_of. cbn in *. case_decide; done.
  - unfold applyTradeFill in Ef. unfold progress_of, step_of, limit_of.
    unfold quote_of in *. case_decide.
    all: inv_ok Ef; bool_to_prop; dec_prop; rewrite ?dval_Add, ?dval_Zero, ?dval_tradeQuoteAmount in *; lra.
Qed.

Lemma order_ok_filled s id trade o o' : order_ok s id o -> 0 < dval (t_Quantity trade) -> 0 < quote_of trade ->
  filled_by trade o o' -> order_ok s id o'.
Proof.
  intros (Hid & Hseq & Hfa & Hfq & _) Hq Hv (fa & fq & st & -> & Ha & Hb & Hle & _). split; [done|]. split; [done|].
  split; [cbn; lra|]. split; [cbn; lra|]. unfold within_limit. unfold progress_of, limit_of in Hle. by case_decide.
Qed.

(** ** The average buy price *)

(** A computation that may only fail or touch the average prices. *)
Definition stats_only (t t' : Tables) : Prop :=
  same_ledger t t' /\ tb_orders t' = tb_orders t /\ tb_trades t' = tb_trades t /\ tb_outbox t' = tb_outbox t
  /\ tb_idempotency t' = tb_idempotency t /\ tb_commands t' = tb_commands t
  /\ tb_transfers t' = tb_transfers t /\ same_records t t'.

#[export] Instance stats_only_equiv : Equivalence stats_only.
Proof. unfold stats_only, same_records, same_ledger. split; red; intuition congruence. Qed.

Lemma foldl_balances t (l : list Account) acc :
  dval (foldl (fun total a => match tb_balances t !! a_ID a with Some b => Add total (b_Balance b) | None => total end) acc l)
  == dval acc + Qsum (map (fun a => match tb_balances t !! a_ID a with Some b => dval (b_Balance b) | None => 0 end) l).
Proof.
  revert acc. induction l as [|a l IH]; intros acc; cbn [foldl map]; rewrite ?Qsum_nil, ?Qsum_cons; [lra|].
  rewrite IH. destruct (tb_balances t !! a_ID a); [rewrite dval_Add|]; lra.
Qed.

Lemma Qsum_nonneg_ge l x : Forall (fun q => 0 <= q) l -> x ∈ l -> x <= Qsum l.
Proof.
  induction l as [|q l IH]; intros Hall Hin; [by apply elem_of_nil in Hin|]. apply Forall_cons in Hall as [Hq Hall].
  rewrite Qsum_cons. assert (0 <= Qsum l) by (clear -Hall; induction Hall as [|y l Hy _ IH]; rewrite ?Qsum_nil, ?Qsum_cons; lra).
  apply elem_of_cons in Hin as [->|Hin]; [lra|]. specialize (IH Hall Hin). lra.
Qed.

(** A user's total is at least what is available. *)
Lemma user_asset_total_ge t s u asset : ledger_ok t s ->
  balance_of t (key_user AccountUserAvailable u asset) <= dval (user_asset_total t u asset).
Proof.
  intros Hok. unfold user_asset_total. rewrite foldl_balances, dval_Zero. set (l := filter _ _).
  assert (Hall : Forall (fun q => 0 <= q) (map (fun a => match tb_balances t !! a_ID a with Some b => dval (b_Balance b) | None => 0 end) l)).
  { apply Forall_forall. intros q Hq. apply list_elem_of_fmap in Hq as (a & -> & Ha). apply list_elem_of_filter in Ha as [(_ & _ & Hty) Ha].
    destruct (tb_balances t !! a_ID a) as [b|] eqn:Eb; [|lra]. eapply (lo_nonnegative _ _ Hok a b Ha); [|done].
    pose proof (ao_flags _ _ (lo_accounts _ _ Hok)) as Hf. rewrite Forall_forall in Hf. destruct (Hf a Ha) as [-> _].
    destruct Hty as [-> | ->]; done. }
  unfold balance_of. destruct (find_account t _) as [a|] eqn:Ea.
  - apply find_account_Some in Ea as [Ha Ek]. rewrite Qplus_0_l.
    apply (Qsum_nonneg_ge _ _ Hall). apply (list_elem_of_fmap_2 (fun a => match tb_balances t !! a_ID a with Some b => dval (b_Balance b) | None => 0 end)).
    apply list_elem_of_filter. split; [|done]. pose proof (ao_flags _ _ (lo_accounts _ _ Hok)) as Hf. rewrite Forall_forall in Hf.
    destruct (Hf a Ha) as [_ Hc]. unfold account_key, newAccountKey, key_user in Ek. simplify_eq.
    split; [|auto]. unfold account_checks in Hc. destruct (a_OwnerUserID a); [by cbn in *; subst | rewrite H in Hc; done].
  - clearbody l. assert (0 <= Qsum (map (fun a => match tb_balances t !! a_ID a with Some b => dval (b_Balance b) | None => 0 end) l)); [|lra].
    induction Hall as [|y k Hy _ IH]; rewrite ?Qsum_nil, ?Qsum_cons; lra.
Qed.

Lemma applyAvgBuyPrice_spec u asset q cost t s : 0 < dval q ->
  wp (applyAvgBuyPrice u asset q cost) (fun _ t' _ => stats_only t t')
    (fun _ => ~ 0 < dval (user_asset_total t u asset)) t s.
Proof.
  intros Hq. unfold applyAvgBuyPrice. rewrite (proj2 (IsPositive_true q) Hq). cbn [negb].
  apply wp_bind, wp_query. destruct (IsPositive _) eqn:Et; cbn [negb]; dec_prop.
  - apply wp_bind, wp_query. destruct (Div_bounds (Add (Mul (default Zero (tb_stats t !! (u, asset))) (Sub (user_asset_total t u asset) q)) cost)
      (user_asset_total t u asset) Et) as (avg & -> & _). apply wp_bind, wp_stmt, wp_modify. done.
  - apply wp_throw. lra.
Qed.

Lemma clearAvgBuyPriceIfEmpty_spec u asset t s (E : error -> Prop) :
  wp (clearAvgBuyPriceIfEmpty u asset) (fun _ t' _ => stats_only t t') E t s.
Proof. apply wp_bind, wp_stmt, wp_modify. by repeat case_match. Qed.

(** ** Outbox events *)

(** The event of a settlement is marked processed in the same transaction. *)
Definition outbox_marked (id : N) (t t' : Tables) : Prop :=
  tb_outbox t' = (if decide (id = 0%N) then tb_outbox t
                  else match tb_outbox t !! id with None => tb_outbox t | Some row => <[id := processed row]> (tb_outbox t) end).

Definition outbox_only (t t' : Tables) : Prop :=
  same_ledger t t' /\ tb_stats t' = tb_stats t /\ tb_orders t' = tb_orders t /\ tb_trades t' = tb_trades t
  /\ tb_idempotency t' = tb_idempotency t /\ tb_commands t' = tb_commands t
  /\ tb_transfers t' = tb_transfers t /\ same_records t t'.

Lemma markSettledOutbox_spec id t s (E : error -> Prop) :
  wp (markSettledOutbox id) (fun _ t' _ => outbox_only t t' /\ outbox_marked id t t') E t s.
Proof.
  unfold markSettledOutbox, outbox_marked. case_decide; [by apply wp_ret|]. apply wp_bind, wp_stmt, wp_modify.
  destruct (tb_outbox t !! id) eqn:E0; [|by rewrite ?E0]. split; [done|]. cbn. done.
Qed.

(** ** When a trade is covered *)

(** The accounts the trade debits hold what it takes. *)
Definition funded (trade : Trade) (buy sell : OrderRow) (t : Tables) : Prop :=
  reserved_debit buy trade <= balance_of t (key_user AccountUserLocked (r_UserID buy) KRWAssetSymbol)
  /\ dval (t_Quantity trade) <= balance_of t (key_user AccountUserLocked (r_UserID sell) (t_CoinSymbol trade)).

Definition has_room (trade : Trade) (o : OrderRow) : Prop := progress_of o + step_of trade o <= limit_of o.

Record covered (trade : Trade) (buy sell : OrderRow) (t : Tables) : Prop := {
  cv_buy : tb_orders t !! t_BuyOrderID trade = Some buy;
  cv_sell : tb_orders t !! t_SellOrderID trade = Some sell;
  cv_matched : matched trade buy sell;
  cv_buy_room : has_room trade buy;
  cv_sell_room : has_room trade sell;
  cv_reserved : execution_debit trade <= reserved_debit buy trade;
  cv_fee : dval (t_SellerFee trade) < quote_of trade;
  cv_funded : funded trade buy sell t }.

Lemma balance_nonneg t s k : ledger_ok t s -> AllowsNegativeBalance k.1 = false -> 0 <= balance_of t k.
Proof.
  intros Hok Hk. unfold balance_of. destruct (find_account t k) as [a|] eqn:Ea; [|lra].
  apply find_account_Some in Ea as [Ha Ek]. destruct (tb_balances t !! a_ID a) as [b|] eqn:Eb; [|lra].
  eapply (lo_nonnegative _ _ Hok a b Ha); [|done]. pose proof (ao_flags _ _ (lo_accounts _ _ Hok)) as Hf.
  rewrite Forall_forall in Hf. destruct (Hf a Ha) as [-> _]. by rewrite <- Ek in Hk.
Qed.

Lemma on_nonneg k x v : 0 <= v -> 0 <= on k x v.
Proof. intros Hv. unfold on. case_decide; lra. Qed.

(** A trade takes only from what is locked for its two orders. *)
Lemma trade_effect_lower trade reserved buyer seller k : plannable trade ->
  execution_debit trade <= reserved -> 0 <= seller_net trade ->
  - on k (key_user AccountUserLocked buyer KRWAssetSymbol) reserved
  - on k (key_user AccountUserLocked seller (t_CoinSymbol trade)) (dval (t_Quantity trade))
  <= trade_effect trade reserved buyer seller k.
Proof.
  intros (_ & _ & Hq & Hb & Hs) Hr Hn. unfold trade_effect.
  pose proof (on_nonneg k (key_user AccountUserAvailable buyer KRWAssetSymbol) (reserved - execution_debit trade)) as H1.
  pose proof (on_nonneg k (key_user AccountUserAvailable seller KRWAssetSymbol) (seller_net trade)) as H2.
  pose proof (on_nonneg k fee_key (dval (t_BuyerFee trade) + dval (t_SellerFee trade))) as H3.
  pose proof (on_nonneg k (key_user AccountUserAvailable buyer (t_CoinSymbol trade)) (dval (t_Quantity trade))) as H4.
  assert (Hneg : forall x v, on k x (- v) == - on k x v) by (intros; unfold on; ring). rewrite !Hneg. lra.
Qed.

Lemma trade_effect_buyer trade reserved buyer seller : plannable trade -> execution_debit trade <= reserved ->
  0 <= seller_net trade ->
  dval (t_Quantity trade) <= trade_effect trade reserved buyer seller (key_user AccountUserAvailable buyer (t_CoinSymbol trade)).
Proof.
  intros (_ & _ & Hq & Hb & Hs) Hr Hn. unfold trade_effect. set (k := key_user AccountUserAvailable buyer (t_CoinSymbol trade)).
  pose proof (on_nonneg k (key_user AccountUserAvailable buyer KRWAssetSymbol) (reserved - execution_debit trade)) as H1.
  pose proof (on_nonneg k (key_user AccountUserAvailable seller KRWAssetSymbol) (seller_net trade)) as H2.
  pose proof (on_nonneg k fee_key (dval (t_BuyerFee trade) + dval (t_SellerFee trade))) as H3.
  assert (Hoff : forall u a v, on k (key_user AccountUserLocked u a) v == 0).
  { intros u a v. unfold on. rewrite decide_False; [lra|]. unfold k, key_user. intros E. by simplify_eq. }
  rewrite !Hoff. assert (Hon : on k k (dval (t_Quantity trade)) == dval (t_Quantity trade)) by (unfold on; rewrite decide_True by done; lra).
  fold k. rewrite Hon. lra.
Qed.

Lemma covered_not_overdrawn trade buy sell t s plan : ledger_ok t s -> plannable trade -> covered trade buy sell t ->
  planTradeSettlement trade buy (mkParticipants (r_UserID buy) (r_UserID sell)) = Ok plan ->
  ~ overdraws t (trade_input trade plan).
Proof.
  intros Hok Hp Hc Hplan (p & _ & Hneg & Hlt). cbn [in_Postings trade_input] in Hlt.
  rewrite (plan_effect _ _ _ _ _ Hp Hplan (cv_reserved _ _ _ _ Hc)) in Hlt.
  pose proof (balance_nonneg t s (posting_key p) Hok Hneg) as Hb. set (k := posting_key p) in *.
  pose proof (trade_effect_lower trade (reserved_debit buy trade) (r_UserID buy) (r_UserID sell) k Hp (cv_reserved _ _ _ _ Hc)) as Hl.
  destruct (cv_funded _ _ _ _ Hc) as [Hf1 Hf2]. pose proof (cv_fee _ _ _ _ Hc) as Hfee.
  destruct (cv_matched _ _ _ _ Hc) as (_ & _ & _ & _ & _ & _ & _ & _ & Hne). unfold seller_net, quote_of, on in *. cbn [BuyerUserID SellerUserID] in *.
  destruct (decide (key_user AccountUserLocked (r_UserID buy) KRWAssetSymbol = k)) as [E1|E1],
    (decide (key_user AccountUserLocked (r_UserID sell) (t_CoinSymbol trade) = k)) as [E2|E2]; rewrite ?E1, ?E2 in *; try lra.
  exfalso. apply Hne. unfold key_user in *. congruence.
Qed.

(** ** The settled trade *)

(** From [t] to [t'], [trade] was settled, and nothing else happened to the
    ledger and the orders. *)
(** Commands and transfers, which settling leaves alone. *)
Definition others_kept (t t' : Tables) : Prop :=
  tb_commands t' = tb_commands t /\ tb_transfers t' = tb_transfers t /\ same_records t t'.

Inductive trade_settled (trade : Trade) (t t' : Tables) : Prop :=
| TradeSettled buy sell buy' sell' :
    tb_orders t !! t_BuyOrderID trade = Some buy -> tb_orders t !! t_SellOrderID trade = Some sell ->
    matched trade buy sell -> filled_by trade buy buy' -> filled_by trade sell sell' ->
    execution_debit trade <= reserved_debit buy trade -> dval (t_SellerFee trade) < quote_of trade ->
    tb_orders t' = <[t_SellOrderID trade := sell']> (<[t_BuyOrderID trade := buy']> (tb_orders t)) ->
    (forall k, balance_of t' k
       == balance_of t k + trade_effect trade (reserved_debit buy trade) (r_UserID buy) (r_UserID sell) k) ->
    (forall k, find_journal t' k <> None -> find_journal t k <> None \/ k = trade_journal_key trade) ->
    tb_idempotency t' = tb_idempotency t -> others_kept t t' ->
    trade_settled trade t t'.

Lemma trade_known_kinds trade buy parts plan : planTradeSettlement trade buy parts = Ok plan -> known_kinds (trade_input trade plan).
Proof.
  intros H. apply planTradeSettlement_Ok in H as (net & _ & _ & _ & Hpost & _). unfold known_kinds. cbn [trade_input in_Postings in_EventType in_ReferenceType in_ReversesJournalID].
  split; [vm_compute; set_solver|]. split; [vm_compute; set_solver|]. split; [done|]. rewrite Hpost. unfold tradePostings.
  rewrite !Forall_app, !Forall_cons. split; [by repeat split|]. split; case_match; by rewrite ?Forall_singleton.
Qed.

(** Posting the journal and keeping the average prices: the second half of the
    transaction. *)
Lemma settle_post_spec trade buy parts plan outboxEventID t s : store_ok t s -> plannable trade ->
  planTradeSettlement trade buy parts = Ok plan ->
  t_IdempotencyKey trade ∈ map t_IdempotencyKey (tb_trades t) -> find_journal t (trade_journal_key trade) = None ->
  wp (_ ← Record_ (trade_input trade plan);
      _ ← applyAvgBuyPrice (BuyerUserID parts) (t_CoinSymbol trade) (t_Quantity trade) (plan_ExecutionDebit plan);
      _ ← clearAvgBuyPriceIfEmpty (SellerUserID parts) (t_CoinSymbol trade);
      _ ← markSettledOutbox outboxEventID;
      mret (mkSettlementResult true false (t_ID trade)))
    (fun r t' s' => r = mkSettlementResult true false (t_ID trade) /\ store_ok t' s'
       /\ tb_orders t' = tb_orders t /\ tb_trades t' = tb_trades t /\ outbox_marked outboxEventID t t'
       /\ (tb_idempotency t' = tb_idempotency t /\ others_kept t t')
       /\ execution_debit trade <= reserved_debit buy trade
       /\ (forall k, find_journal t' k <> None -> find_journal t k <> None \/ k = trade_journal_key trade)
       /\ forall k, balance_of t' k == balance_of t k
            + trade_effect trade (reserved_debit buy trade) (BuyerUserID parts) (SellerUserID parts) k)
    (fun _ => ~ (execution_debit trade <= reserved_debit buy trade /\ ~ overdraws t (trade_input trade plan))) t s.
Proof.
  intros Hok Hp Hplan Hkey Hnew. apply wp_bind. eapply wp_mono; [apply (Record_store _ _ _ Hok)| |].
  - intros key E. unfold trade_input, trade_journal_key in E. cbn in E. simplify_eq. done.
  - intros [e c] t1 s1 _ (Hok1 & Hrest & Hdone & _). cbn in Hdone. destruct c; [|destruct Hdone as (_ & e' & Hf & _); cbn in Hf; congruence].
    assert (Hv : valid_journal (trade_input trade plan)) by (destruct Hdone as (? & ? & ? & _ & Hr & _); apply Hr).
    apply validateJournalInput_Ok, (plan_valid trade buy parts plan Hp Hplan) in Hv.
    assert (Hbal : forall k, balance_of t1 k == balance_of t k
      + trade_effect trade (reserved_debit buy trade) (BuyerUserID parts) (SellerUserID parts) k).
    { intros k. rewrite (posted_balance _ _ _ k Hdone), <- (plan_effect trade buy parts plan k Hp Hplan Hv). done. }
    assert (Hnet : 0 <= seller_net trade).
    { apply planTradeSettlement_Ok in Hplan as (net & _ & Hn & Hpos & _). rewrite <- Hn. lra. }
    apply wp_bind. eapply wp_mono; [apply applyAvgBuyPrice_spec, Hp| |].
    + intros u2 t2 s2 Hs2 H2. apply wp_bind. eapply wp_mono; [apply clearAvgBuyPriceIfEmpty_spec| |intros e0 He0; exact He0].
      intros u3 t3 s3 Hs3 H3. apply wp_bind. eapply wp_mono; [apply markSettledOutbox_spec| |intros e0 He0; exact He0].
      intros u4 t4 s4 Hs4 (H4 & Hmark). apply wp_ret. split; [done|].
      assert (H13 : stats_only t1 t3) by (etrans; [exact H2 | exact H3]). destruct H13 as (Hl & Ho & Ht & Hob & Hi & Hc & Hx & Hy).
      destruct H4 as (Hl4 & _ & Ho4 & Ht4 & Hi4 & Hc4 & Hx4 & Hy4). destruct Hrest as (_ & Ho1 & Ht1 & Hob1 & Hi1 & Hc1 & Hx1 & Hy1).
      split. { apply (store_ok_same t3); [done ..|]. apply (store_ok_same t1); [done ..|].
               eapply store_ok_seq; [|exact Hok1]. eapply seq_le_trans; [exact Hs2|]. by eapply seq_le_trans. }
      split; [congruence|]. split; [congruence|]. split; [unfold outbox_marked in *; by rewrite Hob, Hob1 in Hmark|].
      split; [split; [congruence|]; split; [congruence|]; split; [congruence|]; by rewrite Hy1, Hy|]. split; [done|]. split.
      * intros k. unfold find_journal. destruct Hl as (_ & _ & Hj & _), Hl4 as (_ & _ & Hj4 & _). rewrite Hj4, Hj.
        apply (posted_find _ _ _ k Hdone).
      * intros k. by rewrite (balance_of_same _ _ k Hl4), (balance_of_same _ _ k Hl).
    + intros err Hno. exfalso. apply Hno. pose proof (user_asset_total_ge t1 s1 (BuyerUserID parts) (t_CoinSymbol trade) (so_ledger _ _ Hok1)) as Hge.
      rewrite Hbal in Hge. pose proof (trade_effect_buyer trade (reserved_debit buy trade) (BuyerUserID parts) (SellerUserID parts) Hp Hv Hnet) as Heff.
      pose proof (balance_nonneg t s (key_user AccountUserAvailable (BuyerUserID parts) (t_CoinSymbol trade)) (so_ledger _ _ Hok) eq_refl).
      destruct Hp as (_ & _ & Hq & _). lra.
  - intros err Hfail [Hle Hno]. apply (plan_valid trade buy parts plan Hp Hplan) in Hle.
    destruct Hfail as [Hi|e Hv Hf|name Hv _ Hj|Hv _ Hb|_ _ Ho _]; [congruence | cbn in Hf; congruence | | | done].
    + by apply (known_kinds_journal t _ name Hv (trade_known_kinds trade buy parts plan Hplan)).
    + by apply (known_kinds_accounts _ err (trade_known_kinds trade buy parts plan Hplan)).
Qed.

Lemma quote_positive trade : plannable trade -> 0 < quote_of trade.
Proof. intros (_ & Hp & Hq & _). by apply Qmult_lt_0_compat. Qed.

Lemma plan_exists trade buy parts : plannable trade ->
  match planTradeSettlement trade buy parts with
  | Ok _ => dval (t_SellerFee trade) < quote_of trade
  | Err _ => ~ dval (t_SellerFee trade) < quote_of trade
  end.
Proof.
  intros Hp. pose proof (quote_positive _ Hp) as Hv. destruct Hp as (_ & _ & _ & _ & Hs).
  unfold planTradeSettlement, amountAfterFee, quote_of in *. rewrite (proj2 (GreaterThan_true _ _)) by (rewrite dval_Zero, dval_tradeQuoteAmount; lra).
  rewrite (proj2 (IsNegative_false _)) by lra. cbn [negb]. destruct (GreaterThan _ _) eqn:E; cbn; dec_prop;
    rewrite dval_Sub, dval_Zero, dval_tradeQuoteAmount in E; lra.
Qed.

(** The transaction of a trade whose row is in place. *)
Definition settle_ok (trade : Trade) (outboxEventID : N) (t : Tables) (r : SettlementResult) (t' : Tables) (s' : Seqs) : Prop :=
  r = mkSettlementResult true false (t_ID trade) /\ store_ok t' s' /\ tb_trades t' = tb_trades t
  /\ outbox_marked outboxEventID t t' /\ trade_settled trade t t'.

Lemma settle_inserted_spec trade outboxEventID t s : store_ok t s -> plannable trade ->
  t_IdempotencyKey trade ∈ map t_IdempotencyKey (tb_trades t) -> find_journal t (trade_journal_key trade) = None ->
  wp (settle_inserted trade outboxEventID) (settle_ok trade outboxEventID t)
    (fun _ => forall buy sell, ~ covered trade buy sell t) t s.
Proof.
  intros Hok Hp Hkey Hnew. pose proof (quote_positive _ Hp) as Hv. pose proof Hp as (_ & _ & Hq & _). unfold settle_inserted.
  apply wp_bind, FindByIDForUpdate_spec; [|intros Hn b s0 Hc; by rewrite (cv_buy _ _ _ _ Hc) in Hn]. intros buy Hbuy.
  apply wp_bind, FindByIDForUpdate_spec; [|intros Hn b s0 Hc; by rewrite (cv_sell _ _ _ _ Hc) in Hn]. intros sell Hsell.
  assert (Hunique : forall b s0, covered trade b s0 t -> b = buy /\ s0 = sell).
  { intros b s0 Hc. pose proof (cv_buy _ _ _ _ Hc). pose proof (cv_sell _ _ _ _ Hc). split; congruence. }
  assert (Habsurd : forall P : Prop, (covered trade buy sell t -> P) -> ~ P -> forall b s0, ~ covered trade b s0 t).
  { intros P HP HnP b s0 Hc. destruct (Hunique b s0 Hc) as [-> ->]. auto. }
  apply wp_bind, wp_lift. destruct (check_trade_orders _ _ _) as [[]|] eqn:E1.
  2: { eapply (Habsurd (check_trade_orders trade buy sell = Ok tt)); [|by rewrite E1]. intros Hc. apply check_trade_orders_Ok.
       pose proof (cv_matched _ _ _ _ Hc) as Hm. unfold matched in Hm. tauto. }
  apply wp_bind, wp_lift. destruct (validateOrderStatusForSettlement buy _) as [[]|] eqn:E2.
  2: { eapply (Habsurd (validateOrderStatusForSettlement buy "buy" = Ok tt)); [|by rewrite E2]. intros Hc.
       apply validateOrderStatus_Ok. pose proof (cv_matched _ _ _ _ Hc) as Hm. unfold matched in Hm. tauto. }
  apply wp_bind, wp_lift. destruct (validateOrderStatusForSettlement sell _) as [[]|] eqn:E3.
  2: { eapply (Habsurd (validateOrderStatusForSettlement sell "sell" = Ok tt)); [|by rewrite E3]. intros Hc.
       apply validateOrderStatus_Ok. pose proof (cv_matched _ _ _ _ Hc) as Hm. unfold matched in Hm. tauto. }
  apply wp_bind, wp_lift. destruct (settlementParticipants buy sell) as [parts|] eqn:E4.
  2: { eapply (Habsurd (settlementParticipants buy sell = Ok (mkParticipants (r_UserID buy) (r_UserID sell)))); [|by rewrite E4].
       intros Hc. apply settlementParticipants_Ok. pose proof (cv_matched _ _ _ _ Hc) as Hm. unfold matched in Hm. tauto. }
  apply check_trade_orders_Ok in E1. apply validateOrderStatus_Ok in E2, E3. apply settlementParticipants_Ok in E4 as (-> & E4).
  assert (Hm : matched trade buy sell) by (unfold matched; tauto). clear E1 E2 E3 E4.
  pose proof (fill_spec trade buy Hq Hv) as Hfb. apply wp_bind, wp_lift.
  destruct (applyTradeFill buy _ _) as [[[bfa bfq] bst]|]; cbn [wrap_err].
  2: { apply (Habsurd (has_room trade buy)); [apply cv_buy_room | exact Hfb]. }
  pose proof (fill_spec trade sell Hq Hv) as Hfs. apply wp_bind, wp_lift.
  destruct (applyTradeFill sell _ _) as [[[sfa sfq] sst]|]; cbn [wrap_err].
  2: { apply (Habsurd (has_room trade sell)); [apply cv_sell_room | exact Hfs]. }
  apply wp_bind, wp_lift. pose proof (plan_exists trade buy (mkParticipants (r_UserID buy) (r_UserID sell)) Hp) as Hpl.
  destruct (planTradeSettlement _ _ _) as [plan|] eqn:Eplan.
  2: { apply (Habsurd (dval (t_SellerFee trade) < quote_of trade)); [apply cv_fee | exact Hpl]. }
  assert (Hob : order_ok s (t_BuyOrderID trade) buy) by (by apply (so_orders _ _ Hok)).
  assert (Hos : order_ok s (t_SellOrderID trade) sell) by (by apply (so_orders _ _ Hok)).
  destruct Hob as [Ebid Hob0]. destruct Hos as [Esid Hos0]. rewrite Ebid, Esid.
  assert (Hne : t_BuyOrderID trade <> t_SellOrderID trade).
  { intros E. destruct Hm as (Hb & Hs & _). rewrite E in Hbuy. rewrite Hbuy in Hsell. congruence. }
  apply wp_bind, (UpdateOrderExecution_spec _ _ _ _ _ _ _ _ buy Hbuy).
  apply wp_bind, (UpdateOrderExecution_spec _ _ _ _ _ _ _ _ sell); [cbn; by rewrite lookup_insert_ne|].
  set (t2 := _ <| tb_orders := _ |>).
  assert (Hok2 : store_ok t2 s).
  { apply store_ok_update_order; [apply store_ok_update_order; [done|]|].
    - eapply (order_ok_filled _ _ trade buy); [by split | done | done | done].
    - eapply (order_ok_filled _ _ trade sell); [by split | done | done | done]. }
  assert (Hl2 : same_ledger t t2) by done.
  eapply wp_mono; [apply (settle_post_spec trade buy _ plan outboxEventID t2 s Hok2 Hp Eplan Hkey Hnew)| |].
  - intros r t' s' _ (-> & Hok' & Ho & Ht & Hmark & [Hi Hc] & Hres & Hfj & Hbal). split; [done|]. split; [done|]. split; [done|]. split; [done|].
    eapply (TradeSettled trade t t' buy sell _ _ Hbuy Hsell Hm Hfb Hfs Hres Hpl); [exact Ho | exact Hbal | exact Hfj | exact Hi | exact Hc].
  - intros err Hno. apply (Habsurd (execution_debit trade <= reserved_debit buy trade /\ ~ overdraws t2 (trade_input trade plan))); [|done].
    intros Hc. split; [apply Hc|]. intros (p & Hin & Hneg & Hlt). rewrite (balance_of_same _ _ _ Hl2) in Hlt.
    apply (covered_not_overdrawn trade buy sell t s plan (so_ledger _ _ Hok) Hp Hc Eplan). by exists p.
Qed.

(** ** The whole transaction *)

Lemma find_trade_Some t key trade : find_trade t key = Some trade -> trade ∈ tb_trades t /\ t_IdempotencyKey trade = key.
Proof.
  unfold find_trade. destruct (list_find _ _) as [[i x]|] eqn:E; cbn; [|done]. intros; simplify_eq.
  apply list_find_Some in E as (Hl & Hk & _). split; [by eapply list_elem_of_lookup_2 | done].
Qed.
Lemma find_trade_None t key : find_trade t key = None <-> key ∉ map t_IdempotencyKey (tb_trades t).
Proof.
  unfold find_trade. destruct (list_find _ _) as [[i x]|] eqn:E; cbn; split; try done.
  - intros Hn. destruct Hn. apply list_find_Some in E as (Hl & <- & _). apply (list_elem_of_fmap_2 t_IdempotencyKey). by eapply list_elem_of_lookup_2.
  - intros _ Hin. apply list_find_None in E. rewrite Forall_forall in E. apply list_elem_of_fmap in Hin as (x & -> & Hx). by apply (E x Hx).
Qed.
Lemma find_trade_unique t s trade : store_ok t s -> trade ∈ tb_trades t -> find_trade t (t_IdempotencyKey trade) = Some trade.
Proof.
  intros Hok Hin. destruct (find_trade _ _) as [x|] eqn:E.
  - apply find_trade_Some in E as [Hx Ek]. f_equal. by eapply (NoDup_map_inj t_IdempotencyKey); [apply Hok|..].
  - apply find_trade_None in E. destruct E. by apply (list_elem_of_fmap_2 t_IdempotencyKey).
Qed.

Lemma new_trade_no_journal t s trade : store_ok t s -> find_trade t (t_IdempotencyKey trade) = None ->
  find_journal t (trade_journal_key trade) = None.
Proof.
  intros Hok Hn. apply find_trade_None in Hn. destruct (find_journal t _) as [e|] eqn:E; [|done].
  apply find_journal_Some in E as [He Ek]. pose proof (so_keyed _ _ Hok) as Hf. unfold keyed_ok in Hf. rewrite Forall_forall in Hf.
  destruct Hn. by apply (Hf e He).
Qed.

Lemma store_ok_add_trade t s row : store_ok t s -> find_trade t (t_IdempotencyKey row) = None ->
  (t_ID row <= seq_value s "trades")%N -> store_ok (t <| tb_trades := tb_trades t ++ [row] |>) s.
Proof.
  intros [H1 Hk H3 H4 H5] Hn Hid. apply find_trade_None in Hn. split; cbn [tb_trades tb_journals tb_orders].
  - eapply ledger_ok_same; [|exact H1]. done.
  - eapply Forall_impl; [exact Hk|]. cbn. intros e He key Ek. rewrite map_app. apply elem_of_app. left. by apply He.
  - done.
  - cbn. rewrite map_app. apply NoDup_app. split; [done|]. split; [|apply NoDup_singleton].
    intros x Hx Hx'. apply list_elem_of_singleton in Hx' as ->. done.
  - cbn. apply Forall_app. split; [done|]. by apply Forall_singleton.
Qed.

Lemma covered_same trade id buy sell t t' : same_ledger t t' -> tb_orders t' = tb_orders t ->
  covered trade buy sell t -> covered (trade <| t_ID := id |>) buy sell t'.
Proof.
  intros Hl Ho [H1 H2 H3 H4 H5 H6 H7 [H8 H9]]. split; rewrite ?Ho; try done.
  split; rewrite (balance_of_same _ _ _ Hl); done.
Qed.

(** What [SettleTrade]'s transaction leaves when it commits. *)
Definition settle_outcome (trade : Trade) (outboxEventID : N) (t : Tables) (r : SettlementResult) (t' : Tables) : Prop :=
  outbox_marked outboxEventID t t' /\
  match find_trade t (t_IdempotencyKey trade) with
  | Some existing => r = duplicateSettlementResult existing /\ outbox_only t t'
                     /\ validateIdempotentTradePayload existing trade = Ok tt
  | None => exists id, r = mkSettlementResult true false id /\ tb_trades t' = tb_trades t ++ [trade <| t_ID := id |>]
                       /\ trade_settled (trade <| t_ID := id |>) t t'
  end.

(** Why it may fail. *)
Definition settle_refused (trade : Trade) (t : Tables) : Prop :=
  match find_trade t (t_IdempotencyKey trade) with
  | Some existing => validateIdempotentTradePayload existing trade <> Ok tt
  | None => trade_violation t trade <> None \/ forall buy sell, ~ covered trade buy sell t
  end.

Lemma settle_duplicate_spec existing trade outboxEventID t s : store_ok t s ->
  wp (settle_duplicate existing trade outboxEventID)
    (fun r t' s' => store_ok t' s' /\ outbox_marked outboxEventID t t' /\ r = duplicateSettlementResult existing
       /\ outbox_only t t' /\ validateIdempotentTradePayload existing trade = Ok tt)
    (fun _ => validateIdempotentTradePayload existing trade <> Ok tt) t s.
Proof.
  intros Hok. apply wp_bind, wp_lift. destruct (validateIdempotentTradePayload _ _) as [[]|] eqn:E; [|done].
  apply wp_bind. eapply wp_mono; [apply markSettledOutbox_spec| |intros e0 He0; exact He0].
  intros u t' s' Hs (Ho & Hm). apply wp_ret. split; [|done]. destruct Ho as (Hl & _ & Hor & Htr & _).
  apply (store_ok_same t); [done ..|]. by eapply store_ok_seq.
Qed.

Lemma plannable_inserted t trade : prepared trade -> trade_violation t trade = None -> plannable trade.
Proof.
  intros (Hc & _ & Hp & Hq) Hv. unfold trade_violation, trade_checks in Hv. inv_ok Hv; bool_to_prop; dec_prop; by repeat split.
Qed.

Lemma settle_body_spec trade outboxEventID t s : store_ok t s -> prepared trade ->
  wp (settle_body trade outboxEventID) (fun r t' s' => store_ok t' s' /\ settle_outcome trade outboxEventID t r t')
    (fun _ => settle_refused trade t) t s.
Proof.
  intros Hok Hprep. unfold settle_body, settle_outcome, settle_refused. apply wp_bind, wp_query.
  destruct (find_trade t _) as [existing|] eqn:Ef.
  - eapply wp_mono; [by apply settle_duplicate_spec| |done]. intros r t' s' _ (H1 & H2 & H3). by split.
  - apply wp_bind, wp_stmt, wp_bind. unfold insert_trade. apply wp_bind, wp_nextval. intros s1 Hs1 _ Hv1.
    set (id := (seq_value s "trades" + 1)%N) in *. apply wp_bind, wp_get. rewrite Ef.
    change (trade_violation t (trade <| t_ID := id |>)) with (trade_violation t trade).
    destruct (trade_violation t trade) as [name|] eqn:Ev; [apply wp_throw; by left|].
    apply wp_bind, wp_put, wp_ret. set (row := trade <| t_ID := id |>). set (t1 := t <| tb_trades := _ |>).
    pose proof (plannable_inserted _ _ Hprep Ev) as Hp.
    assert (Hok1 : store_ok t1 s1) by (apply store_ok_add_trade; [by eapply store_ok_seq | done | cbn; lia]).
    eapply wp_mono; [apply (settle_inserted_spec row outboxEventID t1 s1 Hok1 Hp)| |].
    + cbn. rewrite map_app. apply elem_of_app. right. by left.
    + by apply (new_trade_no_journal t s trade).
    + intros r t' s' _ (-> & Hok' & Ht & Hm & Hset). split; [done|]. split; [done|]. exists id. split; [done|]. split; [done|].
      destruct Hset as [b s0 b' s0' H1 H2 H3 H4 H5 H6 H7 H8 H9 H10 H11 H12]. by eapply (TradeSettled row t t' b s0 b' s0').
    + intros err Hno. right. intros b s0 Hc. apply (Hno b s0). by apply (covered_same trade id b s0 t t1).
Qed.

(** ** [SettleTrade] *)

(** The trade as the transaction sees it: checked, normalised, with its fees. *)
Definition settlement_input (trade0 : Trade) : result error Trade :=
  trade ← prepareTradeForSettlement trade0; applyTradeFeePolicy trade.

Lemma settlement_input_prepared trade0 trade : settlement_input trade0 = Ok trade -> prepared trade.
Proof.
  unfold settlement_input. destruct (prepareTradeForSettlement trade0) as [t1|] eqn:E1; [|done]. cbn. intros H.
  apply prepare_Ok in E1 as ((Hc & Hk & Hp & Hq) & _). apply applyTradeFeePolicy_Ok in H as (_ & _ & (_ & E2 & _ & _ & E3 & E4 & E5 & _) & _).
  unfold prepared. by rewrite E2, E3, E4, E5.
Qed.

Lemma SettleTrade_eq trade0 outboxEventID w :
  SettleTrade trade0 outboxEventID w
  = match settlement_input trade0 with Ok trade => transaction (settle_body trade outboxEventID) w | Err e => (Err e, w) end.
Proof.
  unfold SettleTrade, settlement_input, lift, mbind, M_bind, result_bind.
  destruct (prepareTradeForSettlement trade0) as [t1|]; [|done]. by destruct (applyTradeFeePolicy t1).
Qed.

(** What a call leaves behind. *)
Lemma SettleTrade_run trade0 outboxEventID w : store_ok (w_tables w) (w_seqs w) ->
  let '(r, w') := SettleTrade trade0 outboxEventID w in
  seq_le (w_seqs w) (w_seqs w') /\ store_ok (w_tables w') (w_seqs w') /\
  match r with
  | Ok res => exists trade, settlement_input trade0 = Ok trade
                /\ settle_outcome trade outboxEventID (w_tables w) res (w_tables w')
  | Err e => w_tables w' = w_tables w
             \/ (e = DBError "" /\ exists trade res, settlement_input trade0 = Ok trade
                   /\ settle_outcome trade outboxEventID (w_tables w) res (w_tables w'))
  end.
Proof.
  intros Hok. rewrite SettleTrade_eq. destruct (settlement_input trade0) as [trade|e] eqn:Ei; [|by pose proof (seq_le_refl (w_seqs w)); auto].
  destruct w as [t s fs]. pose proof (settlement_input_prepared _ _ Ei) as Hprep.
  pose proof (transaction_wp _ _ _ t s fs (settle_body_spec trade outboxEventID t s Hok Hprep)) as Ht.
  destruct (transaction _ _) as [[res|e] w']; destruct Ht as (Hs & _ & Ht); cbn [w_tables w_seqs] in *; (split; [done|]).
  - destruct Ht as [Hok' Ho]. split; [done|]. by exists trade.
  - destruct Ht as [[E _]|(-> & _ & res & Hok' & Ho)].
    + rewrite E. split; [by eapply store_ok_seq | by left].
    + split; [done|]. right. split; [done|]. by exists trade, res.
Qed.

(** Settling is atomic: whatever statements fail, [SettleTrade] keeps the
    store's invariant (every journal balanced, cached balances equal to their
    postings, no user account below zero, no order filled beyond its limit), and
    either leaves every table as it was or commits exactly the settlement: both
    orders filled by the trade, the trade stored, every account changed by the
    trade's effect and no other, the outbox event marked.  Success is reported
    only in the second case; after an error the settlement is in place only when
    the acknowledgement of the commit was lost. *)
Theorem settle_atomic trade0 outboxEventID w : store_ok (w_tables w) (w_seqs w) ->
  let '(r, w') := SettleTrade trade0 outboxEventID w in
  store_ok (w_tables w') (w_seqs w') /\
  match r with
  | Ok res => exists trade, settlement_input trade0 = Ok trade
                /\ settle_outcome trade outboxEventID (w_tables w) res (w_tables w')
  | Err e => w_tables w' = w_tables w
             \/ (e = DBError "" /\ exists trade res, settlement_input trade0 = Ok trade
                   /\ settle_outcome trade outboxEventID (w_tables w) res (w_tables w'))
  end.
Proof. intros Hok. pose proof (SettleTrade_run trade0 outboxEventID w Hok) as H. destruct (SettleTrade _ _ _) as [r w']. apply H. Qed.

Lemma covered_settles trade0 trade outboxEventID buy sell t s : store_ok t s ->
  settlement_input trade0 = Ok trade -> find_trade t (t_IdempotencyKey trade) = None -> trade_violation t trade = None ->
  covered trade buy sell t ->
  exists res w', SettleTrade trade0 outboxEventID (mkWorld t s []) = (Ok res, w') /\ sr_Applied res = true.
Proof.
  intros Hok Hi Hf Hv Hc. rewrite SettleTrade_eq, Hi.
  pose proof (transaction_wp _ _ _ t s [] (settle_body_spec trade outboxEventID t s Hok (settlement_input_prepared _ _ Hi))) as Ht.
  destruct (transaction _ _) as [[res|e] w']; destruct Ht as (_ & _ & Ht).
  - exists res, w'. split; [done|]. destruct Ht as [_ [_ Ho]]. rewrite Hf in Ho. by destruct Ho as (id & -> & _).
  - exfalso. destruct Ht as [[_ [[_ Hn]|Hr]]|(_ & Hn & _)]; [done | | done]. unfold settle_refused in Hr. rewrite Hf in Hr.
    destruct Hr as [Hr|Hr]; [by rewrite Hv in Hr | by apply (Hr buy sell)].
Qed.

(** A covered trade settles: when both orders are open, on their sides, of two
    different users and of the trade's coin, have room for it, the buyer's
    reservation covers price times quantity plus fee, and the locked accounts
    hold what the trade takes, then [SettleTrade] succeeds if the database does,
    and reports the trade applied. *)
Theorem covered_trade_settles trade0 trade outboxEventID buy sell t s : store_ok t s ->
  settlement_input trade0 = Ok trade -> find_trade t (t_IdempotencyKey trade) = None -> trade_violation t trade = None ->
  covered trade buy sell t ->
  exists res w', SettleTrade trade0 outboxEventID (mkWorld t s []) = (Ok res, w') /\ sr_Applied res = true.
Proof. apply covered_settles. Qed.

(** ** Redelivery *)

Lemma payload_same trade id : validateIdempotentTradePayload (trade <| t_ID := id |>) trade = Ok tt.
Proof.
  unfold validateIdempotentTradePayload. cbn -[Equal normalizeTradeCoinSymbol TrimSpace Z.eqb].
  rewrite !bool_decide_eq_true_2, Z.eqb_refl by done. rewrite !(proj2 (Equal_true _ _)) by done. done.
Qed.

Lemma settled_again trade id outboxEventID t s : store_ok t s -> prepared trade -> trade <| t_ID := id |> ∈ tb_trades t ->
  wp (settle_body trade outboxEventID) (fun r t' s' => store_ok t' s' /\ r = mkSettlementResult false true id /\ outbox_only t t')
    (fun _ => False) t s.
Proof.
  intros Hok Hp Hin. pose proof (find_trade_unique t s _ Hok Hin) as Hf. cbn in Hf.
  eapply wp_mono; [by apply settle_body_spec| |].
  - intros r t' s' _ [Hok' [_ Ho]]. rewrite Hf in Ho. destruct Ho as (-> & Ho & _). split; [done|]. by split.
  - intros e Hr. unfold settle_refused in Hr. rewrite Hf in Hr. apply Hr, payload_same.
Qed.

#[export] Instance outbox_only_equiv : Equivalence outbox_only.
Proof. unfold outbox_only, same_records, same_ledger. split; red; intuition congruence. Qed.

Lemma attempts_settled trade id outboxEventID schedules : forall w r w', store_ok (w_tables w) (w_seqs w) -> prepared trade ->
  trade <| t_ID := id |> ∈ tb_trades (w_tables w) ->
  attempts (settle_body trade outboxEventID) schedules w = (r, w') ->
  outbox_only (w_tables w) (w_tables w') /\ (r = None \/ r = Some (mkSettlementResult false true id)).
Proof.
  induction schedules as [|fs rest IH]; intros w r w' Hok Hp Hin H; cbn [attempts] in H; [simplify_eq; split; [done | by left]|].
  pose proof (transaction_wp _ _ _ (w_tables w) (w_seqs w) fs (settled_again trade id outboxEventID _ _ Hok Hp Hin)) as Ht.
  destruct (transaction _ _) as [[a|err] w1]; destruct Ht as (Hs1 & _ & Ht).
  - destruct Ht as (_ & -> & Ho). simplify_eq. auto.
  - assert (H1 : store_ok (w_tables w1) (w_seqs w1) /\ outbox_only (w_tables w) (w_tables w1)).
    { destruct Ht as [[-> _]|(_ & _ & a & Hok1 & _ & Ho)]; [|done]. split; [by eapply store_ok_seq | done]. }
    destruct H1 as [Hok1 Ho]. destruct (IH w1 r w' Hok1 Hp) as [Ho' Hr]; [by destruct Ho as (_ & _ & _ & -> & _) | done |].
    split; [by etrans | done].
Qed.

(** C4 A trade is settled once: however often the delivery of a new trade is
    retried, whatever statements fail and whether or not acknowledgements of
    commits are lost, the store ends up either unchanged or with exactly one
    settlement of the trade (later attempts touch at most the outbox event), and
    a reported result carries the id of that one trade. *)
Theorem settle_exactly_once trade outboxEventID w schedules r w' : store_ok (w_tables w) (w_seqs w) -> prepared trade ->
  find_trade (w_tables w) (t_IdempotencyKey trade) = None ->
  attempts (settle_body trade outboxEventID) schedules w = (r, w') ->
  (r = None /\ w_tables w' = w_tables w)
  \/ exists id t1, tb_trades t1 = tb_trades (w_tables w) ++ [trade <| t_ID := id |>]
       /\ trade_settled (trade <| t_ID := id |>) (w_tables w) t1 /\ outbox_only t1 (w_tables w')
       /\ match r with Some res => sr_TradeID res = id | None => True end.
Proof.
  revert w r w'. induction schedules as [|fs rest IH]; intros w r w' Hok Hp Hf H; cbn [attempts] in H; [simplify_eq; by left|].
  pose proof (transaction_wp _ _ _ (w_tables w) (w_seqs w) fs (settle_body_spec trade outboxEventID _ _ Hok Hp)) as Ht.
  destruct (transaction _ _) as [[res|err] w1]; destruct Ht as (Hs1 & _ & Ht).
  - destruct Ht as [_ [_ Ho]]. rewrite Hf in Ho. simplify_eq. destruct Ho as (id & -> & Htr & Hset). right. by exists id, (w_tables w').
  - destruct Ht as [[E _]|(_ & _ & res & Hok1 & _ & Ho)].
    + rewrite <- E. apply IH; rewrite ?E; try done. by eapply store_ok_seq.
    + rewrite Hf in Ho. destruct Ho as (id & -> & Htr & Hset). right. exists id, (w_tables w1).
      destruct (attempts_settled trade id outboxEventID rest w1 r w' Hok1 Hp) as [Ho Hr]; [|done|].
      { rewrite Htr. apply elem_of_app. right. by left. }
      split; [done|]. split; [done|]. split; [done|]. by destruct Hr as [-> | ->].
Qed.
End SettlementProofs.
