(* ===== verification/SettlementBatch.v ===== *)
(** * Settling a batch of trades: [service/settlement_batch.go]

    Many trades in one transaction.  The items are distinct [*model.Trade]
    values, passed by value as in [Settlement]; a result of an item that was
    settled before is known before the loop, so the results slice is kept as one
    optional result per item and filled in order.  Ranging over a Go map happens
    twice, for locks (sorted first) and for the updates of distinct orders, where
    the order does not matter: [elements] stands for it. *)
From S2P Require Import Prelude Decimal Model Errors Fee Database Ledger Sha256 OrderLedger Settlement.
From Stdlib Require Import Lia.

Section SettlementBatch.
Context {DL : DecimalLib}.

(** A nil [Trade] is [None]. *)
Record TradeBatchItem := mkTradeBatchItem { ti_Trade : option Trade; ti_OutboxEventID : N }.

(** An item whose trade is there, checked and with its fees. *)
Record PreparedItem := mkPreparedItem { pr_Trade : Trade; pr_OutboxEventID : N }.

Fixpoint prepare_items (items : list TradeBatchItem) : result error (list PreparedItem) :=
  match items with
  | [] => Ok []
  | item :: items =>
      match ti_Trade item with
      | None => Err (Errorf "trade is required" [])
      | Some trade =>
          trade ← prepareTradeForSettlement trade;
          trade ← applyTradeFeePolicy trade;
          items ← prepare_items items;
          Ok (mkPreparedItem trade (ti_OutboxEventID item) :: items)
      end
  end.

(** A map from the rows with these keys; the keys of trades are unique. *)
Definition findTradesByIdempotencyKeys (keys : list string) : M (gmap string Trade) :=
  match keys with
  | [] => mret ∅
  | _ => query (fun t => list_to_map (map (fun trade => (t_IdempotencyKey trade, trade))
                            (filter (fun trade => t_IdempotencyKey trade ∈ keys) (tb_trades t))))
  end.

(** Keys without repetition, the first occurrence kept. *)
Definition add_key (keys : list string) (item : PreparedItem) : list string :=
  let key := t_IdempotencyKey (pr_Trade item) in if decide (key ∈ keys) then keys else keys ++ [key].
Definition first_keys (items : list PreparedItem) : list string := foldl add_key [] items.

(** Step 1: the result of an item that was settled before, [None] for a new one. *)
Fixpoint split_duplicates (existingByKey : gmap string Trade) (items : list PreparedItem) : result error (list (option SettlementResult)) :=
  match items with
  | [] => Ok []
  | item :: items =>
      match existingByKey !! t_IdempotencyKey (pr_Trade item) with
      | None => results ← split_duplicates existingByKey items; Ok (None :: results)
      | Some existing =>
          _ ← validateIdempotentTradePayload existing (pr_Trade item);
          results ← split_duplicates existingByKey items;
          Ok (Some (duplicateSettlementResult existing) :: results)
      end
  end.

Fixpoint new_trades (results : list (option SettlementResult)) (items : list PreparedItem) : list Trade :=
  match results, items with
  | None :: results, item :: items => pr_Trade item :: new_trades results items
  | Some _ :: results, _ :: items => new_trades results items
  | _, _ => []
  end.

(** Step 2: the rows with the ids they were given. *)
Definition insert_new_trades (newTrades : list Trade) : M (list Trade) :=
  match newTrades with
  | [] => mret []
  | _ =>
      _ ← stmt;
      created ← map_each insert_trade newTrades;
      let rows := omap (fun row => row) created in
      if decide (length rows <> length newTrades)
      then throw (Errorf "trade batch insert expected %d rows, inserted %d" [pretty (length newTrades); pretty (length rows)])
      else mret rows
  end.

Definition order_ids (trades : list Trade) : gset N := list_to_set (trades ≫= (fun trade => [t_BuyOrderID trade; t_SellOrderID trade])).
Definition sortedUintKeys (ids : gset N) : list N := sort_ids (elements ids).

Definition index_orders (orders : list OrderRow) : gmap N OrderRow := list_to_map (map (fun o => (r_ID o, o)) orders).

(** [orderByID[id]]: every order of a new trade is there. *)
Definition order_of (orderByID : gmap N OrderRow) (id : N) : result error OrderRow :=
  match orderByID !! id with Some o => Ok o | None => Err GoPanic end.

(** Step 4. *)
Fixpoint check_participants (orderByID : gmap N OrderRow) (trades : list Trade) : result error (list SettlementParticipants) :=
  match trades with
  | [] => Ok []
  | trade :: trades =>
      buyOrder ← order_of orderByID (t_BuyOrderID trade);
      sellOrder ← order_of orderByID (t_SellOrderID trade);
      _ ← check_trade_orders trade buyOrder sellOrder;
      participants ← settlementParticipants buyOrder sellOrder;
      rest ← check_participants orderByID trades;
      Ok (participants :: rest)
  end.

(** Step 5: what to post, from the orders as they were locked. *)
Fixpoint plan_trades (orderByID : gmap N OrderRow) (trades : list (Trade * SettlementParticipants)) : result error (list tradeSettlementPlan) :=
  match trades with
  | [] => Ok []
  | (trade, participants) :: trades =>
      buyOrder ← order_of orderByID (t_BuyOrderID trade);
      plan ← planTradeSettlement trade buyOrder participants;
      rest ← plan_trades orderByID trades;
      Ok (plan :: rest)
  end.

Definition lock_accounts (plans : list tradeSettlementPlan) : M unit :=
  accounts ← EnsureAccounts (plans ≫= (fun plan => postingAccountSpecs (plan_Postings plan)));
  _ ← LockBalances (sort_ids (map a_ID accounts));
  mret tt.

(** Step 6: the ledger's part of one trade. *)
Definition post_trade (trade : Trade) (participants : SettlementParticipants) (plan : tradeSettlementPlan) : M unit :=
  _ ← Record_ (trade_input trade plan);
  _ ← applyAvgBuyPrice (BuyerUserID participants) (t_CoinSymbol trade) (t_Quantity trade) (plan_ExecutionDebit plan);
  clearAvgBuyPriceIfEmpty (SellerUserID participants) (t_CoinSymbol trade).

(** The orders are filled in memory; also returned are the orders touched. *)
Definition settle_next (orderByID : gmap N OrderRow) (trade : Trade) (participants : SettlementParticipants) (plan : tradeSettlementPlan)
    : M (gmap N OrderRow) :=
  buyOrder ← lift (order_of orderByID (t_BuyOrderID trade));
  sellOrder ← lift (order_of orderByID (t_SellOrderID trade));
  _ ← lift (validateOrderStatusForSettlement buyOrder "buy");
  _ ← lift (validateOrderStatusForSettlement sellOrder "sell");
  let executionQuote := tradeQuoteAmount trade in
  '(buyFilled, buyFilledQuote, buyStatus) ← lift (wrap_err "buy order fill: %w" (applyTradeFill buyOrder (t_Quantity trade) executionQuote));
  '(sellFilled, sellFilledQuote, sellStatus) ← lift (wrap_err "sell order fill: %w" (applyTradeFill sellOrder (t_Quantity trade) executionQuote));
  _ ← post_trade trade participants plan;
  mret (<[t_SellOrderID trade := with_execution sellOrder sellFilled sellFilledQuote sellStatus]>
          (<[t_BuyOrderID trade := with_execution buyOrder buyFilled buyFilledQuote buyStatus]> orderByID)).

Fixpoint settle_each (orderByID : gmap N OrderRow) (trades : list (Trade * SettlementParticipants * tradeSettlementPlan))
    : M (gmap N OrderRow * list SettlementResult) :=
  match trades with
  | [] => mret (orderByID, [])
  | (trade, participants, plan) :: trades =>
      orderByID ← settle_next orderByID trade participants plan;
      '(orderByID, results) ← settle_each orderByID trades;
      mret (orderByID, mkSettlementResult true false (t_ID trade) :: results)
  end.

(** Step 7: the orders of the new trades, all of which were settled. *)
Definition execution_updates (orderByID : gmap N OrderRow) (ids : list N) : list OrderExecutionBatchUpdate :=
  omap (fun id => o ← orderByID !! id; Some (mkExecutionUpdate (r_ID o) (r_FilledAmount o) (r_FilledQuoteAmount o) (r_Status o))) ids.

Definition add_outbox (ids : list N) (item : PreparedItem) : list N :=
  let id := pr_OutboxEventID item in if decide (id = 0%N \/ id ∈ ids) then ids else ids ++ [id].
Definition collectOutboxIDs (items : list PreparedItem) : list N := foldl add_outbox [] items.

(** UPDATE trade_outbox_events SET status = PROCESSED WHERE id IN ids; the ids are distinct. *)
Definition mark_processed (rows : gmap N TradeOutboxEvent) (ids : list N) : gmap N TradeOutboxEvent := foldl (fun rows id => alter processed id rows) rows ids.

Definition markSettledOutboxBatch (ids : list N) : M unit :=
  match ids with
  | [] => mret tt
  | _ =>
      _ ← stmt;
      t ← get_db;
      let present := filter (fun id => is_Some (tb_outbox t !! id)) ids in
      _ ← put_db (t <| tb_outbox := mark_processed (tb_outbox t) ids |>);
      if decide (length present <> length ids)
      then throw (Errorf "outbox batch mark expected %d rows, affected %d" [pretty (length ids); pretty (length present)])
      else mret tt
  end.

(** The results slice: the loop fills the places of the new trades. *)
Fixpoint fill_results (known : list (option SettlementResult)) (applied : list SettlementResult) : list SettlementResult :=
  match known with
  | [] => []
  | Some r :: known => r :: fill_results known applied
  | None :: known => match applied with r :: applied => r :: fill_results known applied | [] => mkSettlementResult false false 0 :: fill_results known [] end
  end.

Definition settle_batch_body (items : list PreparedItem) : M (list SettlementResult) :=
  existingByKey ← findTradesByIdempotencyKeys (first_keys items);
  known ← lift (split_duplicates existingByKey items);
  newTrades ← insert_new_trades (new_trades known items);
  lockedOrders ← LockByIDs (sortedUintKeys (order_ids newTrades));
  let orderByID := index_orders lockedOrders in
  participants ← lift (check_participants orderByID newTrades);
  plans ← lift (plan_trades orderByID (zip newTrades participants));
  _ ← lock_accounts plans;
  '(orderByID, applied) ← settle_each orderByID (zip (zip newTrades participants) plans);
  _ ← BatchUpdateExecutions (execution_updates orderByID (elements (order_ids newTrades)));
  _ ← markSettledOutboxBatch (collectOutboxIDs items);
  mret (fill_results known applied).

Definition SettleTradeBatch (items : list TradeBatchItem) : M (list SettlementResult) :=
  match items with
  | [] => mret []
  | _ => items ← lift (prepare_items items); transaction (settle_batch_body items)
  end.
End SettlementBatch.
