(* ===== verification/SettlementBatchProofs.v ===== *)
(** * A batch is its trades, one by one

    [settles]: a list of trades settled one after the other, each as [SettleTrade]
    settles it.  [settle_batch_spec]: what the transaction of [SettleTradeBatch]
    leaves is what that leaves, though it inserts all trades first, fills the
    orders in memory, writes them once and marks all events at the end. *)
From S2P Require Import Prelude Decimal Model Errors Fee Database Ledger LedgerInv LedgerSpec LedgerTheorems Sha256 OrderLedger Settlement TradePlan Store SettlementProofs SettlementBatch.
From Stdlib Require Import Lia.

Section SettlementBatchProofs.
Context {DL : DecimalLib} {DLaws : DecimalLaws DL}.
Local Open Scope Q_scope.

(** In between, the store is well-formed. *)
Inductive settles (s : Seqs) : list PreparedItem -> list SettlementResult -> Tables -> Tables -> Prop :=
| settles_nil t : settles s [] [] t t
| settles_cons item items r rs t t1 t' : settle_outcome (pr_Trade item) (pr_OutboxEventID item) t r t1 -> store_ok t1 s ->
    settles s items rs t1 t' -> settles s (item :: items) (r :: rs) t t'.

(** ** Which items are new *)

Definition known_ok (t : Tables) (item : PreparedItem) (known : option SettlementResult) : Prop :=
  match known with
  | Some r => exists existing, find_trade t (t_IdempotencyKey (pr_Trade item)) = Some existing
                /\ r = duplicateSettlementResult existing /\ validateIdempotentTradePayload existing (pr_Trade item) = Ok tt
  | None => find_trade t (t_IdempotencyKey (pr_Trade item)) = None
  end.

Lemma add_keys_spec items keys key : key ∈ foldl add_key keys items <-> key ∈ keys \/ exists item, item ∈ items /\ key = t_IdempotencyKey (pr_Trade item).
Proof.
  revert keys. induction items as [|x items IH]; intros keys; cbn [foldl]; [set_solver|]. rewrite IH. unfold add_key.
  case_decide; set_solver.
Qed.

Lemma first_keys_spec items item : item ∈ items -> t_IdempotencyKey (pr_Trade item) ∈ first_keys items.
Proof. intros H. apply add_keys_spec. right. by exists item. Qed.

Lemma existing_spec t s items item : store_ok t s -> item ∈ items ->
  (list_to_map (map (fun trade => (t_IdempotencyKey trade, trade)) (filter (fun trade => t_IdempotencyKey trade ∈ first_keys items) (tb_trades t))) : gmap string Trade)
    !! t_IdempotencyKey (pr_Trade item) = find_trade t (t_IdempotencyKey (pr_Trade item)).
Proof.
  intros Hok Hin. set (key := t_IdempotencyKey (pr_Trade item)). set (l := filter _ _).
  assert (Hnd : NoDup ((map (fun trade => (t_IdempotencyKey trade, trade)) l).*1)).
  { rewrite <- list_fmap_compose. apply (NoDup_map_filter t_IdempotencyKey), Hok. }
  destruct (find_trade t key) as [trade|] eqn:Ef.
  - apply find_trade_Some in Ef as [Ht Ek]. apply elem_of_list_to_map; [done|]. rewrite <- Ek. apply (list_elem_of_fmap_2 (fun trade => (t_IdempotencyKey trade, trade))).
    apply list_elem_of_filter. rewrite Ek. split; [by apply first_keys_spec|done].
  - apply not_elem_of_list_to_map. rewrite <- list_fmap_compose. intros (trade & E & Ht)%list_elem_of_fmap. cbn in E.
    apply list_elem_of_filter in Ht as [_ Ht]. apply find_trade_None in Ef. apply Ef. rewrite E. by apply (list_elem_of_fmap_2 t_IdempotencyKey).
Qed.

Lemma split_spec existingByKey t items known : split_duplicates existingByKey items = Ok known ->
  (forall item, item ∈ items -> existingByKey !! t_IdempotencyKey (pr_Trade item) = find_trade t (t_IdempotencyKey (pr_Trade item))) ->
  Forall2 (known_ok t) items known.
Proof.
  revert known. induction items as [|item items IH]; intros known H Hex; cbn [split_duplicates] in H; [by simplify_eq|].
  pose proof (Hex item (list_elem_of_here _ _)) as Hi. assert (Hex' := fun x Hx => Hex x (list_elem_of_further _ _ _ Hx)).
  destruct (existingByKey !! _) as [existing|].
  - destruct (validateIdempotentTradePayload _ _) as [[]|] eqn:Ev; [|done]. cbn in H. destruct (split_duplicates _ items) as [rest|]; [|done].
    simplify_eq/=. constructor; [by exists existing|by apply IH].
  - destruct (split_duplicates _ items) as [rest|]; [|done]. simplify_eq/=. constructor; [done|by apply IH].
Qed.

Lemma find_existing_spec t s items : store_ok t s ->
  wp (findTradesByIdempotencyKeys (first_keys items)) (fun existingByKey t' s' => t' = t /\ s' = s /\
     forall item, item ∈ items -> existingByKey !! t_IdempotencyKey (pr_Trade item) = find_trade t (t_IdempotencyKey (pr_Trade item)))
    (fun _ => True) t s.
Proof.
  intros Hok. unfold findTradesByIdempotencyKeys. destruct (first_keys items) as [|k ks] eqn:Ek.
  - apply wp_ret. split; [done|]. split; [done|]. intros item Hin%first_keys_spec. rewrite Ek in Hin. by apply elem_of_nil in Hin.
  - rewrite <- Ek. apply wp_query. split; [done|]. split; [done|]. intros item Hin. by apply (existing_spec t s).
Qed.

(** ** The new trades are inserted *)

Definition row_of (trade row : Trade) : Prop := exists id, row = trade <| t_ID := id |>.

Lemma insert_trade_cases trade t s : store_ok t s -> prepared trade ->
  wp (insert_trade trade) (fun created t' s' => store_ok t' s' /\
       match created with
       | None => t' = t
       | Some row => row_of trade row /\ plannable row /\ t' = t <| tb_trades := tb_trades t ++ [row] |>
       end) (fun _ => True) t s.
Proof.
  intros Hok Hp. unfold insert_trade. apply wp_bind, wp_nextval. intros s1 Hs1 _ Hv1. apply wp_bind, wp_get.
  set (id := (seq_value s "trades" + 1)%N) in *. destruct (find_trade t _) as [existing|] eqn:Ef.
  - destruct (trade_checks trade); [|by apply wp_throw]. apply wp_ret. split; [by eapply store_ok_seq|done].
  - change (trade_violation t (trade <| t_ID := id |>)) with (trade_violation t trade).
    destruct (trade_violation t trade) eqn:Ev; [by apply wp_throw|]. apply wp_bind, wp_put, wp_ret.
    split; [apply store_ok_add_trade; [by eapply store_ok_seq|done|cbn; lia]|]. split; [by exists id|]. split; [|done].
    by apply (plannable_inserted t trade).
Qed.

Lemma insert_trades_spec trades t s : store_ok t s -> Forall prepared trades ->
  wp (map_each insert_trade trades) (fun created t' s' => store_ok t' s' /\ length created = length trades /\
       exists rows, omap (fun row => row) created = rows /\ t' = t <| tb_trades := tb_trades t ++ rows |>
         /\ Forall plannable rows /\ (length rows = length trades -> Forall2 row_of trades rows) /\ (length rows <= length trades)%nat)
    (fun _ => True) t s.
Proof.
  revert t s. induction trades as [|trade trades IH]; intros t s Hok Hp; cbn [map_each].
  - apply wp_ret. split; [done|]. split; [done|]. exists []. split; [done|]. split; [|done]. destruct t. cbn. by rewrite app_nil_r.
  - apply Forall_cons in Hp as [Hp1 Hp]. apply wp_bind. eapply wp_mono; [by apply insert_trade_cases| |done].
    intros created t1 s1 _ [Hok1 Hc]. apply wp_bind. eapply wp_mono; [by apply IH| |done].
    intros rest t2 s2 _ (Hok2 & Hlen & rows & Hrows & -> & Hpl & Hrow & Hle). apply wp_ret. split; [done|]. split; [cbn; congruence|].
    destruct created as [row|]; cbn [omap list_omap]; rewrite Hrows.
    + destruct Hc as (H1 & H2 & ->). exists (row :: rows). split; [done|]. split; [by cbn; rewrite <- app_assoc|].
      split; [by constructor|]. split; [|cbn; lia]. intros E. constructor; [done|]. apply Hrow. by injection E.
    + subst t1. exists rows. split; [done|]. split; [done|]. split; [done|]. split; [|cbn; lia]. cbn. intros E. exfalso. lia.
Qed.

Lemma insert_new_trades_spec trades t s : store_ok t s -> Forall prepared trades ->
  wp (insert_new_trades trades) (fun rows t' s' => store_ok t' s' /\ t' = t <| tb_trades := tb_trades t ++ rows |>
       /\ Forall plannable rows /\ Forall2 row_of trades rows) (fun _ => True) t s.
Proof.
  intros Hok Hp. unfold insert_new_trades. destruct trades as [|trade0 trades0] eqn:E.
  - apply wp_ret. split; [done|]. split; [|done]. destruct t; cbn. by rewrite app_nil_r.
  - rewrite <- E in *. apply wp_bind, wp_stmt, wp_bind. eapply wp_mono; [by apply insert_trades_spec| |done].
    intros created t1 s1 _ (Hok1 & _ & rows & -> & -> & Hpl & Hrow & _). case_decide as Hd; [by apply wp_throw|].
    apply wp_ret. split; [done|]. split; [done|]. split; [done|]. apply Hrow. lia.
Qed.

(** ** The orders are locked *)

(** [om] holds the orders with these ids, and all are there. *)
Definition locked (orders : gmap N OrderRow) (ids : gset N) (om : gmap N OrderRow) : Prop :=
  (forall id, id ∈ ids -> is_Some (om !! id)) /\ forall id o, om !! id = Some o <-> id ∈ ids /\ orders !! id = Some o.

Lemma omap_full {A B} (f : A -> option B) l : length (omap f l) = length l -> forall x, x ∈ l -> is_Some (f x).
Proof.
  assert (Hle : forall l, (length (omap f l) <= length l)%nat).
  { clear. induction l as [|x l IH]; cbn; [lia|]. destruct (f x); cbn; lia. }
  induction l as [|y l IH]; [by intros _ x ?%elem_of_nil|]. cbn. destruct (f y) eqn:E; cbn.
  - intros [= Hl] x [->|Hx]%elem_of_cons; [by eexists|by apply IH].
  - intros Hl. specialize (Hle l). lia.
Qed.

Lemma sort_remove_dups (ids : gset N) : sort_ids (remove_dups (sortedUintKeys ids)) ≡ₚ elements ids.
Proof.
  unfold sortedUintKeys, sort_ids. rewrite merge_sort_Permutation. apply NoDup_Permutation; [apply NoDup_remove_dups|apply NoDup_elements|].
  intros x. by rewrite elem_of_remove_dups, merge_sort_Permutation.
Qed.

Lemma LockByIDs_spec ids t s : store_ok t s ->
  wp (LockByIDs (sortedUintKeys ids)) (fun rows t' s' => t' = t /\ s' = s /\ locked (tb_orders t) ids (index_orders rows)) (fun _ => True) t s.
Proof.
  intros Hok. assert (Hrows : forall rows, rows = select_orders t (sortedUintKeys ids) -> length rows = length (sortedUintKeys ids) ->
    locked (tb_orders t) ids (index_orders rows)).
  { intros rows -> Hlen. unfold select_orders in *. set (l := sort_ids _) in *. assert (Hl : l ≡ₚ elements ids) by apply sort_remove_dups.
    assert (Hall : forall id, id ∈ l -> is_Some (tb_orders t !! id)).
    { apply omap_full. rewrite Hlen, Hl. unfold sortedUintKeys, sort_ids. by rewrite merge_sort_Permutation. }
    assert (Hidx : forall id o, index_orders (omap (fun id => tb_orders t !! id) l) !! id = Some o <-> id ∈ ids /\ tb_orders t !! id = Some o).
    { intros id o. assert (Hmap : map (fun o => (r_ID o, o)) (omap (fun id => tb_orders t !! id) l) = omap (fun id => pair id <$> tb_orders t !! id) l).
      { clear Hlen Hall Hl. induction l as [|x l IH]; [done|]. cbn. destruct (tb_orders t !! x) as [o'|] eqn:E; cbn; [|done].
        destruct (so_orders _ _ Hok _ _ E) as [-> _]. by f_equal. }
      unfold index_orders. rewrite Hmap. rewrite <- elem_of_list_to_map.
      - rewrite list_elem_of_omap. setoid_rewrite Hl. setoid_rewrite elem_of_elements. split.
        + intros (x & Hx & E). destruct (tb_orders t !! x) eqn:E'; by simplify_eq/=.
        + intros [Hid Ho]. exists id. by rewrite Ho.
      - assert (Hsub : (omap (fun id => pair id <$> tb_orders t !! id) l).*1 `sublist_of` l).
        { clear. induction l as [|x l IH]; cbn; [constructor|]. destruct (tb_orders t !! x); cbn; by constructor. }
        eapply sublist_NoDup; [|exact Hsub]. rewrite Hl. apply NoDup_elements. }
    split; [|done]. intros id Hid. destruct (Hall id) as [o Ho]; [rewrite Hl; by apply elem_of_elements|]. exists o. by apply Hidx. }
  unfold LockByIDs. destruct (sortedUintKeys ids) as [|i0 l0] eqn:E.
  - apply wp_ret. split; [done|]. split; [done|]. apply (Hrows []); [|done]. done.
  - rewrite <- E in *. apply wp_bind, wp_query. case_decide as Hd; [by apply wp_throw|]. apply wp_ret. split; [done|]. split; [done|]. apply Hrows; [done|].
    destruct (decide (length (select_orders t (sortedUintKeys ids)) = length (sortedUintKeys ids))); [done|contradiction].
Qed.

(** ** Plans *)

(** What the checks of a new trade have found. *)
Definition plan_ok (om : gmap N OrderRow) (x : Trade * SettlementParticipants * tradeSettlementPlan) : Prop :=
  let '(trade, parts, plan) := x in
  exists buy sell, om !! t_BuyOrderID trade = Some buy /\ om !! t_SellOrderID trade = Some sell /\ check_trade_orders trade buy sell = Ok tt
    /\ settlementParticipants buy sell = Ok parts /\ planTradeSettlement trade buy parts = Ok plan.

Lemma plans_ok om trades parts plans : check_participants om trades = Ok parts -> plan_trades om (zip trades parts) = Ok plans ->
  (zip (zip trades parts) plans).*1.*1 = trades /\ Forall (plan_ok om) (zip (zip trades parts) plans).
Proof.
  revert parts plans. induction trades as [|trade trades IH]; intros parts plans H1 H2; cbn [check_participants] in H1; [by simplify_eq|].
  unfold order_of in H1. destruct (om !! t_BuyOrderID trade) as [buy|] eqn:Eb; [|done]. cbn in H1. destruct (om !! t_SellOrderID trade) as [sell|] eqn:Es; [|done].
  cbn in H1. destruct (check_trade_orders trade buy sell) as [[]|] eqn:Ec; [|done]. cbn in H1. destruct (settlementParticipants buy sell) as [p|] eqn:Ep; [|done].
  cbn in H1. destruct (check_participants om trades) as [ps|] eqn:Er; [|done]. simplify_eq/=. unfold order_of in H2. rewrite Eb in H2. cbn in H2.
  destruct (planTradeSettlement trade buy p) as [plan|] eqn:El; [|done]. cbn in H2. destruct (plan_trades om (zip trades ps)) as [pls|] eqn:Epl; [|done].
  simplify_eq/=. destruct (IH ps pls eq_refl Epl) as [E1 E2]. split; [by f_equal|]. constructor; [|done]. by exists buy, sell.
Qed.

(** ** One trade of the loop *)

Lemma post_trade_spec trade buy parts plan t s : store_ok t s -> plannable trade -> planTradeSettlement trade buy parts = Ok plan ->
  t_IdempotencyKey trade ∈ map t_IdempotencyKey (tb_trades t) -> find_journal t (trade_journal_key trade) = None ->
  wp (post_trade trade parts plan)
    (fun _ t' s' => store_ok t' s' /\ tb_orders t' = tb_orders t /\ tb_trades t' = tb_trades t /\ tb_outbox t' = tb_outbox t
       /\ (tb_idempotency t' = tb_idempotency t /\ others_kept t t')
       /\ execution_debit trade <= reserved_debit buy trade
       /\ (forall k, find_journal t' k <> None -> find_journal t k <> None \/ k = trade_journal_key trade)
       /\ forall k, balance_of t' k == balance_of t k
            + trade_effect trade (reserved_debit buy trade) (BuyerUserID parts) (SellerUserID parts) k)
    (fun _ => True) t s.
Proof.
  intros Hok Hp Hplan Hkey Hnew fs. pose proof (settle_post_spec trade buy parts plan 0 t s Hok Hp Hplan Hkey Hnew fs) as H.
  unfold post_trade, markSettledOutbox in *. rewrite decide_True in H by done. unfold mbind, M_bind, mret, M_ret in *.
  destruct (Record_ _ _) as [[?|?] w1]; [|split_and!; try apply H; tauto]. destruct (applyAvgBuyPrice _ _ _ _ _) as [[?|?] w2]; [|split_and!; try apply H; tauto].
  destruct (clearAvgBuyPriceIfEmpty _ _ _) as [[?|?] w3]; [|split_and!; try apply H; tauto].
  destruct H as (H1 & H2 & _ & H3 & H4 & H5 & H6 & H7). destruct H7 as ([H7 H8] & H9 & H10 & H11). by split_and!.
Qed.

(** Only the fills differ. *)
Definition refilled (om om' : gmap N OrderRow) : Prop :=
  forall id, match om !! id, om' !! id with
    | Some o, Some o' => o' = with_execution o (r_FilledAmount o') (r_FilledQuoteAmount o') (r_Status o')
    | None, None => True
    | _, _ => False
    end.

Lemma refilled_refl om : refilled om om.
Proof. intros id. destruct (om !! id) as [[]|]; done. Qed.

Lemma refilled_insert om om' id o fa fq st : refilled om om' -> om' !! id = Some o -> refilled om (<[id := with_execution o fa fq st]> om').
Proof.
  intros H Ho id'. specialize (H id'). destruct (decide (id' = id)) as [->|]; [|by rewrite lookup_insert_ne].
  rewrite lookup_insert_eq. rewrite Ho in H. destruct (om !! id) as [o0|]; [|done]. rewrite H. destruct o0. done.
Qed.

Lemma plan_ok_refilled om om' trade parts plan : refilled om om' -> plan_ok om (trade, parts, plan) -> plan_ok om' (trade, parts, plan).
Proof.
  intros H (buy & sell & Hb & Hs & Hc & Hp & Hl). pose proof (H (t_BuyOrderID trade)) as H1. pose proof (H (t_SellOrderID trade)) as H2.
  rewrite Hb in H1. rewrite Hs in H2. destruct (om' !! t_BuyOrderID trade) as [b|] eqn:Eb; [|done]. destruct (om' !! t_SellOrderID trade) as [s|] eqn:Es; [|done].
  exists b, s. rewrite Eb, Es. split; [done|]. split; [done|]. rewrite H1, H2. by destruct buy, sell.
Qed.

(** The ledger, keys, commands and transfers of two stores agree. *)
Definition alike (t t' : Tables) : Prop :=
  (forall k, balance_of t k == balance_of t' k) /\ (forall k, find_journal t k = find_journal t' k)
  /\ tb_idempotency t = tb_idempotency t' /\ others_kept t' t.

(** The store as it is, with the orders in memory, the trades settled so far and
    the outbox of [ob]. *)
Definition seen (t : Tables) (orders : gmap N OrderRow) (trades : list Trade) (ob : gmap N TradeOutboxEvent) : Tables :=
  t <| tb_orders := orders |> <| tb_trades := trades |> <| tb_outbox := ob |>.

Lemma seen_alike t orders trades ob : alike (seen t orders trades ob) t.
Proof. by repeat split. Qed.

Lemma settle_next_spec om trade parts plan t s : store_ok t s -> plannable trade -> map_Forall (order_ok s) om ->
  plan_ok om (trade, parts, plan) -> t_IdempotencyKey trade ∈ map t_IdempotencyKey (tb_trades t) -> find_journal t (trade_journal_key trade) = None ->
  wp (settle_next om trade parts plan)
    (fun om' t' s' => store_ok t' s' /\ tb_orders t' = tb_orders t /\ tb_trades t' = tb_trades t /\ tb_outbox t' = tb_outbox t
       /\ map_Forall (order_ok s') om' /\ refilled om om'
       /\ (forall k, find_journal t' k <> None -> find_journal t k <> None \/ k = trade_journal_key trade)
       /\ forall tA orders trades ob, alike tA t -> tb_orders tA = om ∪ orders -> trade_settled trade tA (seen t' (om' ∪ orders) trades ob))
    (fun _ => True) t s.
Proof.
  intros Hok Hp Hom Hplan Hkey Hnew. pose proof (quote_positive _ Hp) as Hv. pose proof Hp as (_ & _ & Hq & _).
  destruct Hplan as (buy & sell & Hb & Hs & Hc & Hpa & Hpl). unfold settle_next, order_of. rewrite Hb, Hs. apply wp_bind, wp_lift. apply wp_bind, wp_lift.
  apply wp_bind, wp_lift. destruct (validateOrderStatusForSettlement buy _) as [[]|] eqn:E1; [|done]. apply validateOrderStatus_Ok in E1.
  apply wp_bind, wp_lift. destruct (validateOrderStatusForSettlement sell _) as [[]|] eqn:E2; [|done]. apply validateOrderStatus_Ok in E2.
  pose proof (fill_spec trade buy Hq Hv) as F1. pose proof (fill_spec trade sell Hq Hv) as F2.
  apply wp_bind, wp_lift. destruct (applyTradeFill buy _ _) as [[[fa fq] st]|]; cbn [wrap_err]; [|done].
  apply wp_bind, wp_lift. destruct (applyTradeFill sell _ _) as [[[fa' fq'] st']|]; cbn [wrap_err]; [|done].
  apply wp_bind. eapply wp_mono; [by apply (post_trade_spec trade buy parts plan)| |done].
  intros u t' s' Hs' (Hok' & Ho & Ht & Hob & (Hi & Hot) & Hex & Hj & Hbal). apply wp_ret.
  apply check_trade_orders_Ok in Hc as (Hsb & Hss & Hcb & Hcs). apply settlementParticipants_Ok in Hpa as (-> & _ & _ & Hu1 & Hu2 & Hu3).
  assert (Hne : t_BuyOrderID trade <> t_SellOrderID trade) by (intros E; rewrite E in Hb; simplify_eq; congruence).
  pose proof (plan_exists trade buy (mkParticipants (r_UserID buy) (r_UserID sell)) Hp) as Hfee. rewrite Hpl in Hfee.
  split; [done|]. split; [done|]. split; [done|]. split; [done|]. split; [|split; [|split; [done|]]].
  - assert (Hom' : map_Forall (order_ok s') om) by (intros id o Hio; eapply order_ok_seq; [done|by apply Hom]).
    apply map_Forall_insert_2; [eapply order_ok_filled; [by apply Hom'|done|done|done]|].
    apply map_Forall_insert_2; [eapply order_ok_filled; [by apply Hom'|done|done|done]|done].
  - apply refilled_insert; [apply refilled_insert; [apply refilled_refl|done]|]. by rewrite lookup_insert_ne.
  - intros tA orders trades ob (Ab & Aj & Ai & Ac) Ao. apply (TradeSettled trade tA _ buy sell (with_execution buy fa fq st) (with_execution sell fa' fq' st')); try done.
    + rewrite Ao. by apply lookup_union_Some_l.
    + rewrite Ao. by apply lookup_union_Some_l.
    + cbn [tb_orders seen set_field const_to]. rewrite Ao. unfold seen. cbn. by rewrite !insert_union_l.
    + intros k. rewrite Ab. exact (Hbal k).
    + intros k. rewrite Aj. exact (Hj k).
    + rewrite Ai. exact Hi.
    + destruct Hot as (H1 & H2 & H3), Ac as (H4 & H5 & H6). unfold others_kept. rewrite H4, H5. split; [done|]. split; [done|]. exact (transitivity (R := same_records) (symmetry H6) H3).
Qed.

Lemma refilled_trans om1 om2 om3 : refilled om1 om2 -> refilled om2 om3 -> refilled om1 om3.
Proof.
  intros H1 H2 id. specialize (H1 id). specialize (H2 id). destruct (om1 !! id) as [[]|], (om2 !! id), (om3 !! id); try done. by rewrite H2, H1.
Qed.

(** ** The loop *)

Inductive news_settled (s : Seqs) : list Trade -> Tables -> Tables -> Prop :=
| news_nil t : news_settled s [] t t
| news_cons row rows t t1 t' : trade_settled row t t1 -> tb_trades t1 = tb_trades t ++ [row] -> tb_outbox t1 = tb_outbox t -> store_ok t1 s ->
    news_settled s rows t1 t' -> news_settled s (row :: rows) t t'.

Lemma keyed_ok_next t t' row : keyed_ok (tb_journals t) (tb_trades t) ->
  (forall k, find_journal t' k <> None -> find_journal t k <> None \/ k = trade_journal_key row) -> keyed_ok (tb_journals t') (tb_trades t ++ [row]).
Proof.
  intros Hk Hj. apply Forall_forall. intros e He key Ek. rewrite map_app, elem_of_app. destruct (Hj (j_IdempotencyKey e)) as [Hf|E].
  - intros Hn. apply find_journal_None in Hn. apply Hn. by apply (list_elem_of_fmap_2 j_IdempotencyKey).
  - left. destruct (find_journal t _) as [e'|] eqn:E'; [|done]. apply find_journal_Some in E' as [He' Ek']. unfold keyed_ok in Hk. rewrite Forall_forall in Hk.
    apply (Hk e' He'). congruence.
  - right. rewrite Ek in E. unfold trade_journal_key in E. simplify_eq. by left.
Qed.

Lemma seen_store tA t' s orders row ob : store_ok t' s -> store_ok tA s -> map_Forall (order_ok s) orders ->
  t_IdempotencyKey row ∉ map t_IdempotencyKey (tb_trades tA) -> (t_ID row <= seq_value s "trades")%N ->
  (forall k, find_journal t' k <> None -> find_journal tA k <> None \/ k = trade_journal_key row) -> store_ok (seen t' orders (tb_trades tA ++ [row]) ob) s.
Proof.
  intros [H1 _ _ _ _] [_ Hk _ H4 H5] Ho Hn Hid Hj. split.
  - eapply ledger_ok_same; [|exact H1]. done.
  - exact (keyed_ok_next tA t' row Hk Hj).
  - done.
  - cbn. rewrite map_app. apply NoDup_app. split; [done|]. split; [|apply NoDup_singleton]. intros x Hx ->%list_elem_of_singleton. done.
  - cbn. apply Forall_app. split; [done|]. by apply Forall_singleton.
Qed.

Lemma news_seq s s' rows t t' : seq_le s s' -> news_settled s rows t t' -> news_settled s' rows t t'.
Proof. intros Hs. induction 1; [constructor|]. econstructor; try done. by eapply store_ok_seq. Qed.

Definition applied_result (row : Trade) : SettlementResult := mkSettlementResult true false (t_ID row).

(** The trades of the loop are in place, without their journals. *)
Definition unposted (rows : list Trade) (t : Tables) : Prop :=
  NoDup (map t_IdempotencyKey rows) /\ forall row, row ∈ rows ->
    plannable row /\ t_IdempotencyKey row ∈ map t_IdempotencyKey (tb_trades t) /\ find_journal t (trade_journal_key row) = None.

Lemma unposted_next row rows t t' : unposted (row :: rows) t -> tb_trades t' = tb_trades t ->
  (forall k, find_journal t' k <> None -> find_journal t k <> None \/ k = trade_journal_key row) -> unposted rows t'.
Proof.
  intros [Hnd H] Et Hj. cbn in Hnd. apply NoDup_cons in Hnd as [Hn Hnd]. split; [done|]. intros r Hr.
  destruct (H r (list_elem_of_further _ _ _ Hr)) as (H1 & H2 & H3). rewrite Et. split; [done|]. split; [done|].
  destruct (find_journal t' _) eqn:E; [|done]. destruct (Hj (trade_journal_key r)) as [H4|H4]; [by rewrite E|by rewrite H3 in H4|].
  exfalso. apply Hn. unfold trade_journal_key in H4. simplify_eq. rewrite <- H4. by apply (list_elem_of_fmap_2 t_IdempotencyKey).
Qed.

Lemma settle_each_spec l om t s : store_ok t s -> map_Forall (order_ok s) om -> Forall (plan_ok om) l -> unposted (l.*1.*1) t ->
  wp (settle_each om l)
    (fun '(om', rs) t' s' => rs = map applied_result (l.*1.*1) /\ store_ok t' s'
       /\ tb_orders t' = tb_orders t /\ tb_trades t' = tb_trades t /\ tb_outbox t' = tb_outbox t
       /\ map_Forall (order_ok s') om' /\ refilled om om' /\ (l = [] -> t' = t /\ om' = om)
       /\ forall tA orders, alike tA t -> tb_orders tA = om ∪ orders -> store_ok tA s ->
            NoDup (map t_IdempotencyKey (tb_trades tA ++ l.*1.*1)) -> Forall (fun row => t_ID row <= seq_value s "trades")%N (l.*1.*1) ->
            exists tZ, news_settled s' (l.*1.*1) tA tZ
              /\ tZ = match l with [] => tA | _ => seen t' (om' ∪ orders) (tb_trades tA ++ l.*1.*1) (tb_outbox tA) end)
    (fun _ => True) t s.
Proof.
  revert om t s. induction l as [|[[trade parts] plan] l IH]; intros om t s Hok Hom Hpl Hun; cbn [settle_each].
  - apply wp_ret. split; [done|]. split_and!; try done; [apply refilled_refl|]. intros tA orders _ _ _ _ _. exists tA. split; [constructor|done].
  - apply Forall_cons in Hpl as [Hp Hpl]. pose proof Hun as [_ Hrow]. destruct (Hrow trade (list_elem_of_here _ _)) as (H1 & H2 & H3).
    apply wp_bind. eapply wp_mono; [by apply settle_next_spec| |done].
    intros om1 t1 s1 Hs1 (Hok1 & Ho1 & Ht1 & Hb1 & Hom1 & Hr1 & Hj1 & Hset). apply wp_bind.
    assert (Hpl1 : Forall (plan_ok om1) l) by (eapply Forall_impl; [exact Hpl|]; intros [[? ?] ?]; by apply plan_ok_refilled).
    eapply wp_mono; [apply (IH om1 t1 s1 Hok1 Hom1 Hpl1); exact (unposted_next _ _ _ _ Hun Ht1 Hj1)| |done].
    intros [om2 rs] t2 s2 Hs2 (-> & Hok2 & Ho2 & Ht2 & Hb2 & Hom2 & Hr2 & Hl2 & Hchain). apply wp_ret.
    split; [done|]. split; [done|]. split; [congruence|]. split; [congruence|]. split; [congruence|]. split; [done|].
    split; [by eapply refilled_trans|]. split; [done|]. intros tA orders Ha Hor HokA Hnd Hids. cbn in Hnd, Hids. apply Forall_cons in Hids as [Hid Hids].
    set (tB := seen t1 (om1 ∪ orders) (tb_trades tA ++ [trade]) (tb_outbox tA)).
    assert (Hmono : (seq_value s "trades" <= seq_value s1 "trades")%N) by apply Hs1.
    assert (Hkey : t_IdempotencyKey trade ∉ map t_IdempotencyKey (tb_trades tA)).
    { intros Hin. rewrite map_app in Hnd. apply NoDup_app in Hnd as (_ & Hnd & _). apply (Hnd _ Hin). left. }
    assert (HokB : store_ok tB s1).
    { apply seen_store; [done|by eapply store_ok_seq| |done|lia|].
      - intros id o [Ho|[Hno Ho]]%lookup_union_Some_raw; [by apply Hom1|]. eapply order_ok_seq; [exact Hs1|].
        destruct (om !! id) as [o'|] eqn:Eo; [pose proof (Hr1 id) as Hr; rewrite Eo in Hr|].
        + by rewrite Hno in Hr.
        + apply (so_orders _ _ HokA). rewrite Hor. by apply lookup_union_Some_raw; right.
      - intros k Hk. destruct Ha as (_ & -> & _). by apply Hj1. }
    destruct (Hchain tB orders (seen_alike _ _ _ _) eq_refl HokB) as (tZ & Hn & HZ).
    { unfold tB. cbn. by rewrite <- app_assoc. }
    { eapply Forall_impl; [exact Hids|]. cbn. intros x Hx. lia. }
    exists tZ.
    split; [econstructor; [by apply Hset|done|done|by eapply store_ok_seq|done]|]. destruct l as [|x l]; [by destruct (Hl2 eq_refl) as [-> ->]|].
    rewrite HZ. cbn [tb_trades tb_outbox seen set_field const_to tB fmap list_fmap]. unfold tB, seen. cbn. by rewrite <- app_assoc.
Qed.

(** ** The orders are written *)

Definition put_orders (om : gmap N OrderRow) (m : gmap N OrderRow) (ids : list N) : gmap N OrderRow :=
  foldl (fun m id => match om !! id with Some o => <[id := o]> m | None => m end) m ids.

Lemma put_orders_lookup om ids : forall m id, put_orders om m ids !! id = (if decide (id ∈ ids /\ is_Some (om !! id)) then om !! id else m !! id).
Proof.
  induction ids as [|x ids IH]; intros m id; cbn [put_orders foldl]; [rewrite decide_False; [done|by intros [?%elem_of_nil _]]|].
  change (foldl _ ?m' ids) with (put_orders om m' ids). rewrite IH. destruct (decide (id ∈ ids /\ is_Some (om !! id))) as [[H1 H2]|Hn].
  - rewrite decide_True; [done|]. split; [by right|done].
  - destruct (decide (id = x)) as [->|Hne].
    + destruct (om !! x) as [o|] eqn:E; [rewrite decide_True by (split; [left|by eexists]); by rewrite lookup_insert_eq|].
      rewrite decide_False; [done|]. by intros [_ []].
    + rewrite decide_False; [|by intros [[?|?]%elem_of_cons ?]; [|apply Hn]]. destruct (om !! x); [by rewrite lookup_insert_ne|done].
Qed.

(** A row of [om] differs from the stored one by its fills. *)
Definition rewrites (om m : gmap N OrderRow) (id : N) : Prop :=
  exists o o0, om !! id = Some o /\ r_ID o = id /\ m !! id = Some o0 /\ o = with_execution o0 (r_FilledAmount o) (r_FilledQuoteAmount o) (r_Status o).

Lemma updates_fold om ids : forall m n, NoDup ids -> (forall id, id ∈ ids -> rewrites om m id) ->
  foldl apply_execution (m, n) (execution_updates om ids) = (put_orders om m ids, (n + Z.of_nat (length ids))%Z)
  /\ length (execution_updates om ids) = length ids.
Proof.
  induction ids as [|id ids IH]; intros m n Hnd H; [cbn; split; [f_equal; lia|done]|]. apply NoDup_cons in Hnd as [Hn Hnd].
  destruct (H id (list_elem_of_here _ _)) as (o & o0 & Ho & Hid & Hm & E). cbn [execution_updates omap list_omap]. rewrite Ho. cbn [mbind option_bind foldl].
  unfold apply_execution at 2. cbn [fst snd ou_OrderID ou_FilledAmount ou_FilledQuoteAmount ou_Status]. rewrite Hid, Hm, <- E.
  destruct (IH (<[id := o]> m) (n + 1)%Z Hnd) as [E1 E2].
  { intros id' Hin. destruct (H id' (list_elem_of_further _ _ _ Hin)) as (o' & o0' & ? & ? & ? & ?). exists o', o0'.
    rewrite lookup_insert_ne; [done|]. intros ->. done. }
  cbn [put_orders foldl]. rewrite Ho. unfold execution_updates in *. cbn [mbind option_bind] in *. rewrite E1. split; [f_equal; cbn; lia|cbn; by f_equal].
Qed.

Lemma BatchUpdate_spec om0 om ids t s : store_ok t s -> locked (tb_orders t) ids om0 -> refilled om0 om -> map_Forall (order_ok s) om ->
  wp (BatchUpdateExecutions (execution_updates om (elements ids)))
    (fun _ t' s' => s' = s /\ t' = t <| tb_orders := om ∪ tb_orders t |> /\ store_ok t' s') (fun _ => True) t s.
Proof.
  intros Hok [Hall Hlk] Href Hom.
  assert (Hrw : forall id, id ∈ elements ids -> rewrites om (tb_orders t) id).
  { intros id Hid. apply elem_of_elements in Hid. destruct (Hall id Hid) as [o0 Ho0]. pose proof (Href id) as Hr. rewrite Ho0 in Hr.
    destruct (om !! id) as [o|] eqn:Eo; [|done]. exists o, o0. split; [done|]. split; [by apply (Hom id o Eo)|]. split; [by apply Hlk|done]. }
  assert (Hput : put_orders om (tb_orders t) (elements ids) = om ∪ tb_orders t).
  { apply map_eq. intros id. rewrite put_orders_lookup, lookup_union. destruct (om !! id) as [o|] eqn:Eo.
    - rewrite decide_True; [by rewrite union_Some_l|]. split; [|by eexists]. apply elem_of_elements. pose proof (Href id) as Hr. rewrite Eo in Hr.
      destruct (om0 !! id) as [o0|] eqn:E0; [|done]. by apply Hlk in E0 as [? _].
    - rewrite decide_False by (intros [_ []]; done). by rewrite (left_id_L None _). }
  assert (Hst : store_ok (t <| tb_orders := om ∪ tb_orders t |>) s).
  { destruct Hok as [H1 Hk H3 H4 H5]. split; try done; [eapply ledger_ok_same; [|exact H1]; done|]. cbn. intros id o [Ho|[_ Ho]]%lookup_union_Some_raw; [by apply Hom|by apply H3]. }
  destruct (updates_fold om (elements ids) (tb_orders t) 0 (NoDup_elements ids) Hrw) as [Hf Hlen].
  unfold BatchUpdateExecutions. destruct (execution_updates om (elements ids)) as [|u us] eqn:Eu.
  - apply wp_ret. split; [done|]. cbn in Hf. assert (He : tb_orders t = om ∪ tb_orders t) by (rewrite <- Hput; congruence).
    rewrite <- He. destruct t; done.
  - rewrite <- Eu in *. apply wp_bind, wp_stmt, wp_bind, wp_get. rewrite Hf, Hput. apply wp_bind, wp_put. rewrite decide_False by lia. by apply wp_ret.
Qed.

(** ** The outbox events are marked *)

Definition mark (ob : gmap N TradeOutboxEvent) (id : N) : gmap N TradeOutboxEvent :=
  if decide (id = 0%N) then ob else match ob !! id with None => ob | Some row => <[id := processed row]> ob end.
Definition mark_all (ob : gmap N TradeOutboxEvent) (items : list PreparedItem) : gmap N TradeOutboxEvent := foldl (fun ob item => mark ob (pr_OutboxEventID item)) ob items.

Lemma processed_twice row : processed (processed row) = processed row.
Proof. by destruct row. Qed.

Lemma mark_lookup ob x id : mark ob x !! id = (if decide (id <> 0%N /\ x = id) then processed <$> ob !! id else ob !! id).
Proof.
  unfold mark. destruct (decide (x = 0%N)) as [->|Hx]; [rewrite decide_False; [done|by intros (? & <-)]|].
  destruct (decide (x = id)) as [<-|Hne].
  - rewrite decide_True by done. destruct (ob !! x) eqn:E; [by rewrite lookup_insert_eq|by rewrite E].
  - rewrite decide_False by tauto. destruct (ob !! x); [by rewrite lookup_insert_ne|done].
Qed.

Lemma mark_all_lookup items : forall ob id, mark_all ob items !! id
  = (if decide (id <> 0%N /\ id ∈ map pr_OutboxEventID items) then processed <$> ob !! id else ob !! id).
Proof.
  induction items as [|item items IH]; intros ob id; cbn [mark_all foldl].
  { rewrite decide_False; [done|]. by intros (_ & ?%elem_of_nil). }
  change (foldl _ ?m' items) with (mark_all m' items). rewrite IH, mark_lookup. cbn [map].
  destruct (decide (id <> 0%N /\ pr_OutboxEventID item = id)) as [(H1 & <-)|H1].
  - rewrite (decide_True _ _ (P := pr_OutboxEventID item <> 0%N /\ _ ∈ _ :: _)) by (split; [done|left]). case_decide; [|done].
    destruct (ob !! pr_OutboxEventID item); [cbn; by rewrite processed_twice|done].
  - apply decide_ext. rewrite elem_of_cons. naive_solver.
Qed.

Lemma mark_processed_lookup ids : forall rows id, mark_processed rows ids !! id = (if decide (id ∈ ids) then processed <$> rows !! id else rows !! id).
Proof.
  induction ids as [|x ids IH]; intros rows id; cbn [mark_processed foldl]; [by rewrite decide_False by apply not_elem_of_nil|].
  change (foldl _ ?m' ids) with (mark_processed m' ids). rewrite IH. destruct (decide (id = x)) as [->|Hne].
  - rewrite (decide_True _ _ (P := x ∈ x :: ids)) by left. rewrite lookup_alter_eq. case_decide; [|done]. destruct (rows !! x); [cbn; by rewrite processed_twice|done].
  - rewrite lookup_alter_ne by done. apply decide_ext. rewrite elem_of_cons. naive_solver.
Qed.

Lemma collect_spec items ids id : id ∈ foldl add_outbox ids items <-> id ∈ ids \/ id <> 0%N /\ id ∈ map pr_OutboxEventID items.
Proof.
  revert ids. induction items as [|x items IH]; intros ids; cbn [foldl map].
  - rewrite elem_of_nil. tauto.
  - rewrite IH, elem_of_cons. unfold add_outbox. case_decide as Hd; [|rewrite elem_of_app, list_elem_of_singleton]; naive_solver.
Qed.

Lemma markSettledOutboxBatch_spec items t s :
  wp (markSettledOutboxBatch (collectOutboxIDs items)) (fun _ t' s' => s' = s /\ t' = t <| tb_outbox := mark_all (tb_outbox t) items |>) (fun _ => True) t s.
Proof.
  assert (Hm : mark_processed (tb_outbox t) (collectOutboxIDs items) = mark_all (tb_outbox t) items).
  { apply map_eq. intros id. rewrite mark_processed_lookup, mark_all_lookup. apply decide_ext.
    unfold collectOutboxIDs. rewrite collect_spec, elem_of_nil. tauto. }
  destruct (collectOutboxIDs items) as [|i0 l0]; cbn [markSettledOutboxBatch].
  - apply wp_ret. split; [done|]. rewrite <- Hm. by destruct t.
  - apply wp_bind, wp_stmt, wp_bind, wp_get. rewrite Hm. apply wp_bind, wp_put. case_decide; [by apply wp_throw|by apply wp_ret].
Qed.

(** ** Duplicates and new trades, in the order of the items *)

Lemma settled_outbox row t t' ob ob' : trade_settled row t t' -> trade_settled row (t <| tb_outbox := ob |>) (t' <| tb_outbox := ob' |>).
Proof. intros [buy sell buy' sell' H1 H2 H3 H4 H5 H6 H7 H8 H9 H10 H11 H12]. by apply (TradeSettled row _ _ buy sell buy' sell'). Qed.

Lemma settled_marked row t t' ob' : trade_settled row t t' -> trade_settled row t (t' <| tb_outbox := ob' |>).
Proof. intros [buy sell buy' sell' H1 H2 H3 H4 H5 H6 H7 H8 H9 H10 H11 H12]. by apply (TradeSettled row _ _ buy sell buy' sell'). Qed.

Lemma store_ok_outbox t s ob : store_ok t s -> store_ok (t <| tb_outbox := ob |>) s.
Proof. by apply store_ok_same. Qed.

Lemma news_outbox s rows t t' ob : news_settled s rows t t' -> news_settled s rows (t <| tb_outbox := ob |>) (t' <| tb_outbox := ob |>).
Proof. induction 1 as [|row rows t t1 t' H1 H2 H3 H4 H5 IH]; [constructor|]. by eapply news_cons; [apply settled_outbox, H1|..|apply store_ok_outbox, H4|]. Qed.

Lemma find_trade_app t l key trade : find_trade t key = Some trade -> find_trade (t <| tb_trades := tb_trades t ++ l |>) key = Some trade.
Proof.
  unfold find_trade. cbn. destruct (list_find _ (tb_trades t)) as [[i x]|] eqn:E; [|done]. intros [= <-]. by erewrite list_find_app_l.
Qed.

Lemma interleave s t0 items known rows : Forall2 (known_ok t0) items known -> Forall2 row_of (new_trades known items) rows ->
  forall settled tA tZ, NoDup (map t_IdempotencyKey (tb_trades t0 ++ settled ++ rows)) -> tb_trades tA = tb_trades t0 ++ settled -> store_ok tA s -> news_settled s rows tA tZ ->
  settles s items (fill_results known (map applied_result rows)) tA (tZ <| tb_outbox := mark_all (tb_outbox tA) items |>).
Proof.
  intros Hk. revert rows. induction Hk as [|item known1 items known Hi Hk IH]; intros rows Hrow settled tA tZ Hnd Htr HokA Hnews; cbn [new_trades fill_results] in *.
  { inversion Hrow; subst. inversion Hnews; subst. cbn. destruct tZ. cbn. constructor. }
  destruct known1 as [r|].
  - destruct Hi as (existing & Hf & -> & Hv). set (ob := mark (tb_outbox tA) (pr_OutboxEventID item)). apply (settles_cons _ _ _ _ _ _ (tA <| tb_outbox := ob |>)).
    + split; [unfold ob, outbox_marked, mark; cbn; by case_decide|]. assert (Hf' : find_trade tA (t_IdempotencyKey (pr_Trade item)) = Some existing).
      { apply (find_trade_app t0 settled) in Hf. unfold find_trade in *. cbn in Hf. by rewrite Htr. }
      rewrite Hf'. by split.
    + by apply store_ok_outbox.
    + set (tB := tA <| tb_outbox := ob |>). set (tY := tZ <| tb_outbox := ob |>). exact (IH rows Hrow settled tB tY Hnd Htr (store_ok_outbox _ _ ob HokA) (news_outbox _ _ _ _ ob Hnews)).
  - inversion Hrow as [|? row ? rows' [id ->] Hrow' E1 E2]; subst. inversion Hnews as [|? ? ? t1 ? Hset Htr1 Hob1 Hok1 Hnews1]; subst.
    set (row := (pr_Trade item) <| t_ID := id |>) in *. set (ob := mark (tb_outbox tA) (pr_OutboxEventID item)). cbn [map].
    apply (settles_cons _ _ _ _ _ _ (t1 <| tb_outbox := ob |>)).
    + split; [unfold ob, outbox_marked, mark; cbn; by case_decide|]. assert (Hf : find_trade tA (t_IdempotencyKey (pr_Trade item)) = None).
      { apply find_trade_None. rewrite Htr. intros Hin. rewrite app_assoc, map_app in Hnd. apply NoDup_app in Hnd as (_ & Hnd & _).
        apply (Hnd _ Hin). cbn [map]. left. }
      rewrite Hf. exists id. split; [done|]. split; [exact Htr1|]. by apply settled_marked.
    + by apply store_ok_outbox.
    + set (tB := t1 <| tb_outbox := ob |>). set (tY := tZ <| tb_outbox := ob |>).
      refine (IH rows' Hrow' (settled ++ [row]) tB tY _ _ (store_ok_outbox _ _ ob Hok1) (news_outbox _ _ _ _ ob Hnews1)).
      * by rewrite <- app_assoc.
      * cbn. by rewrite Htr1, Htr, app_assoc.
Qed.

(** ** The transaction *)

Lemma LockBalances_reads ids t s : wp (LockBalances ids) (fun _ t' s' => t' = t /\ s' = s) (fun _ => True) t s.
Proof. unfold LockBalances. destruct ids; [by apply wp_ret|]. apply wp_bind, wp_query. case_decide; [by apply wp_throw|by apply wp_ret]. Qed.

Lemma lock_accounts_spec plans t s : store_ok t s ->
  wp (lock_accounts plans) (fun _ t' s' => store_ok t' s' /\ alike t t' /\ tb_orders t' = tb_orders t /\ tb_trades t' = tb_trades t
       /\ tb_outbox t' = tb_outbox t /\ (plans = [] -> t' = t)) (fun _ => True) t s.
Proof.
  intros Hok. destruct plans as [|plan plans]; [by apply wp_bind, wp_ret, wp_bind, wp_ret, wp_ret|]. unfold lock_accounts.
  apply wp_bind. eapply wp_mono; [apply EnsureAccounts_spec, Hok| |done]. intros accounts t1 s1 Hs1 (Hl1 & Hpv & _).
  apply wp_bind. eapply wp_mono; [apply LockBalances_reads| |done]. intros ? ? ? _ [-> ->]. apply wp_ret.
  pose proof (pv_rest _ _ _ Hpv) as (_ & Ho & Ht & Hob & Hi & Hc & Hx & Hy).
  split; [|split; [|by repeat split]].
  - destruct (store_ok_seq _ _ _ Hs1 Hok) as [H1 Hk H3 H4 H5]. split; rewrite ?Ho, ?Ht, ?(pv_journals _ _ _ Hpv); done.
  - split; [intros k; by rewrite (balance_of_provides _ _ _ _ _ k (so_ledger _ _ Hok) Hl1 Hpv)|].
    split; [intros k; unfold find_journal; by rewrite (pv_journals _ _ _ Hpv)|]. done.
Qed.

Lemma rows_unposted t s rows t1 : store_ok t s -> t1 = t <| tb_trades := tb_trades t ++ rows |> -> store_ok t1 s -> Forall plannable rows -> unposted rows t1.
Proof.
  intros Hok -> Hok1 Hp. pose proof (so_trade_keys _ _ Hok1) as Hnd. cbn in Hnd. rewrite map_app in Hnd. apply NoDup_app in Hnd as (_ & Hsep & Hnd).
  split; [done|]. intros row Hrow. rewrite Forall_forall in Hp. split; [by apply Hp|]. cbn. rewrite map_app.
  assert (Hin : t_IdempotencyKey row ∈ map t_IdempotencyKey rows) by by apply (list_elem_of_fmap_2 t_IdempotencyKey).
  split; [apply elem_of_app; by right|]. apply (new_trade_no_journal t s row Hok). apply find_trade_None. intros Hin'. by apply (Hsep _ Hin').
Qed.

Lemma unposted_alike rows t t' : alike t t' -> tb_trades t' = tb_trades t -> unposted rows t -> unposted rows t'.
Proof. intros (_ & Hj & _) Ht [H1 H2]. split; [done|]. intros row Hrow. rewrite Ht, <- Hj. by apply H2. Qed.

Lemma locked_union orders ids om : locked orders ids om -> om ∪ orders = orders.
Proof.
  intros [_ H]. apply map_eq. intros id. rewrite lookup_union. destruct (om !! id) as [o|] eqn:E; [|by rewrite (left_id_L None _)].
  apply H in E as [_ E]. rewrite E. by rewrite union_Some_l.
Qed.

Lemma settle_batch_spec items t s : store_ok t s -> Forall (fun item => prepared (pr_Trade item)) items ->
  wp (settle_batch_body items) (fun rs t' s' => store_ok t' s' /\ settles s' items rs t t') (fun _ => True) t s.
Proof.
  intros Hok Hprep. unfold settle_batch_body. apply wp_bind. eapply wp_mono; [by apply find_existing_spec| |done]. intros existing ? ? _ (-> & -> & Hex).
  apply wp_bind, wp_lift. destruct (split_duplicates existing items) as [known|] eqn:Ek; [|done]. pose proof (split_spec _ _ _ _ Ek Hex) as Hknown.
  assert (Hpn : Forall prepared (new_trades known items)).
  { clear - Hprep Hknown. induction Hknown as [|item k items known _ _ IH]; [constructor|]. apply Forall_cons in Hprep as [Hp Hprep].
    cbn. destruct k; [by apply IH|constructor; [done|by apply IH]]. }
  apply wp_bind. eapply wp_mono; [by apply insert_new_trades_spec| |done]. intros rows t1 s1 Hs1 (Hok1 & Et1 & Hpl & Hrows).
  apply wp_bind. eapply wp_mono; [by apply LockByIDs_spec| |done]. intros orders ? ? _ (-> & -> & Hlk). set (om := index_orders orders) in *.
  apply wp_bind, wp_lift. destruct (check_participants om rows) as [parts|] eqn:Ep; [|done].
  apply wp_bind, wp_lift. destruct (plan_trades om (zip rows parts)) as [plans|] eqn:Epl; [|done].
  destruct (plans_ok _ _ _ _ Ep Epl) as [El Hplans]. set (l := zip (zip rows parts) plans) in *.
  apply wp_bind. eapply wp_mono; [by apply lock_accounts_spec| |done]. intros u1 t2 s2 Hs2 (Hok2 & Ha2 & Ho2 & Ht2 & Hb2 & Hnone).
  assert (Hom : map_Forall (order_ok s2) om).
  { intros id o Ho. apply Hlk in Ho as [_ Ho]. rewrite <- Ho2 in Ho. by apply (so_orders _ _ Hok2). }
  assert (Hun : unposted (l.*1.*1) t2).
  { rewrite El. apply (unposted_alike _ t1); [done|done|]. apply (rows_unposted t s1); [by eapply store_ok_seq|done|done|done]. }
  apply wp_bind. eapply wp_mono; [by apply settle_each_spec| |done]. intros [om' rs] t3 s3 Hs3 (-> & Hok3 & Ho3 & Ht3 & Hb3 & Hom3 & Href & Hl3 & Hchain).
  assert (Eord : tb_orders t1 = tb_orders t) by by rewrite Et1.
  apply wp_bind. eapply wp_mono; [apply (BatchUpdate_spec om om' (order_ids rows) t3 s3); [done|by rewrite Ho3, Ho2|done|done]| |done].
  intros u4 t4 s4 _ (-> & -> & Hok4). apply wp_bind. eapply wp_mono; [apply markSettledOutboxBatch_spec| |done]. intros u5 t5 s5 _ [-> ->]. apply wp_ret.
  split; [by eapply store_ok_same; [..|exact Hok4]|].
  destruct (Hchain t (tb_orders t)) as (tZ & Hnews & HZ).
  { rewrite Et1 in Ha2. exact Ha2. }
  { rewrite <- Eord at 2. symmetry. rewrite <- Eord. by apply (locked_union _ (order_ids rows)). }
  { eapply store_ok_seq, Hok. by eapply seq_le_trans. }
  { rewrite El. pose proof (so_trade_keys _ _ Hok1) as Hnd. by rewrite Et1 in Hnd. }
  { rewrite El. pose proof (so_trade_ids _ _ Hok2) as Hids. rewrite Ht2, Et1 in Hids. by apply Forall_app in Hids as [_ ?]. }
  rewrite El in *. match goal with |- settles _ _ _ _ ?t' => assert (Efin : t' = tZ <| tb_outbox := mark_all (tb_outbox t) items |>) end.
  - assert (H1 : tb_trades t3 = tb_trades t ++ rows) by (by rewrite Ht3, Ht2, Et1). assert (H2 : tb_orders t3 = tb_orders t) by congruence.
    assert (H3 : tb_outbox t3 = tb_outbox t) by (by rewrite Hb3, Hb2, Et1). rewrite HZ. clear - H1 H2 H3 El Ep Epl Hl3 Hnone Et1 Hlk Eord.
    destruct l as [|x l'] eqn:Ex; [|by destruct t3; cbn in *; subst].
    destruct rows; [|done]. cbn in Ep. injection Ep as <-. cbn in Epl. injection Epl as <-. destruct (Hl3 eq_refl) as [-> ->].
    rewrite (Hnone eq_refl) in *. rewrite (locked_union _ _ _ Hlk), Et1. destruct t; cbn. by rewrite app_nil_r.
  - rewrite Efin. apply (interleave s3 t items known rows Hknown Hrows []); [|by rewrite app_nil_r| |done].
    + pose proof (so_trade_keys _ _ Hok1) as Hnd. by rewrite Et1 in Hnd.
    + eapply store_ok_seq, Hok. eapply seq_le_trans; [exact Hs1|]. by eapply seq_le_trans.
Qed.

(** ** [SettleTradeBatch] *)

(** The items as [SettleTrade] would prepare their trades. *)
Definition prepared_as (item : TradeBatchItem) (p : PreparedItem) : Prop :=
  exists trade0, ti_Trade item = Some trade0 /\ settlement_input trade0 = Ok (pr_Trade p) /\ pr_OutboxEventID p = ti_OutboxEventID item.

Lemma prepare_items_spec items ps : prepare_items items = Ok ps -> Forall2 prepared_as items ps.
Proof.
  revert ps. induction items as [|item items IH]; intros ps; cbn [prepare_items]; [by intros [= <-]|]. destruct (ti_Trade item) as [trade0|] eqn:Et; [|done].
  destruct (prepareTradeForSettlement trade0) as [t1|] eqn:E1; [|done]. cbn. destruct (applyTradeFeePolicy t1) as [t2|] eqn:E2; [|done]. cbn.
  destruct (prepare_items items) as [rest|]; [|done]. cbn. intros [= <-]. constructor; [|by apply IH]. exists trade0. split; [done|]. split; [|done].
  unfold settlement_input. rewrite E1. exact E2.
Qed.

Lemma prepared_as_prepared items ps : Forall2 prepared_as items ps -> Forall (fun p => prepared (pr_Trade p)) ps.
Proof. induction 1 as [|item p items ps (trade0 & _ & Hi & _) _ IH]; constructor; [by eapply settlement_input_prepared|done]. Qed.

(** What a call of [SettleTradeBatch] has done to the store [t]. *)
Definition batch_settled (items : list TradeBatchItem) (rs : list SettlementResult) (t : Tables) (w' : World) : Prop :=
  exists ps, Forall2 prepared_as items ps /\ settles (w_seqs w') ps rs t (w_tables w').

(** What a call leaves behind. *)
Lemma SettleTradeBatch_run items w : store_ok (w_tables w) (w_seqs w) ->
  let '(r, w') := SettleTradeBatch items w in
  seq_le (w_seqs w) (w_seqs w') /\ store_ok (w_tables w') (w_seqs w') /\
  match r with
  | Ok rs => batch_settled items rs (w_tables w) w'
  | Err e => w_tables w' = w_tables w \/ (e = DBError "" /\ exists rs, batch_settled items rs (w_tables w) w')
  end.
Proof.
  intros Hok. unfold SettleTradeBatch. destruct items as [|item0 items0] eqn:Ei; [split; [apply seq_le_refl|]; split; [done|]; exists []; split; constructor|]. rewrite <- Ei. clear Ei.
  unfold mbind, M_bind, lift. destruct (prepare_items _) as [ps|e] eqn:Ep; [|by pose proof (seq_le_refl (w_seqs w)); auto]. apply prepare_items_spec in Ep.
  destruct w as [t s fs]. pose proof (transaction_wp _ _ _ t s fs (settle_batch_spec ps t s Hok (prepared_as_prepared _ _ Ep))) as Ht.
  destruct (transaction _ _) as [[rs|e] w']; destruct Ht as (Hs & _ & Ht); cbn [w_tables w_seqs] in *; (split; [done|]).
  - destruct Ht as [Hok' Ho]. split; [done|]. by exists ps.
  - destruct Ht as [[E _]|(-> & _ & rs & Hok' & Ho)].
    + rewrite E. split; [by eapply store_ok_seq|by left].
    + split; [done|]. right. split; [done|]. by exists rs, ps.
Qed.

(** C7 Settling a batch is settling its trades one after the other: whatever
    statements fail, [SettleTradeBatch] keeps the store's invariant and either
    leaves every table as it was or leaves what settling each trade in turn, as
    [SettleTrade] does, leaves: trades settled before are recognised and reported
    as duplicates, each new trade fills its two orders, moves its money and is
    reported applied under its id, each event is marked.  The results come in the
    order of the items.  Success is reported only in that case; after an error
    nothing is in place unless the acknowledgement of the commit was lost. *)
Theorem batch_is_its_trades items w : store_ok (w_tables w) (w_seqs w) ->
  let '(r, w') := SettleTradeBatch items w in
  store_ok (w_tables w') (w_seqs w') /\
  match r with
  | Ok rs => batch_settled items rs (w_tables w) w'
  | Err e => w_tables w' = w_tables w \/ (e = DBError "" /\ exists rs, batch_settled items rs (w_tables w) w')
  end.
Proof. intros Hok. pose proof (SettleTradeBatch_run items w Hok) as H. destruct (SettleTradeBatch _ _) as [r w']. apply H. Qed.
End SettlementBatchProofs.
