(* ===== verification/Idempotency.v ===== *)
(** * Identifying a retried order request

    [service/order_fingerprint.go] and
    [repository/order_idempotency_repository.go]: the fingerprint of a request,
    and the table that remembers which key stands for which order. *)
From S2P Require Import Prelude Decimal Model Errors Fee Database Ledger Sha256.
From Stdlib Require Import Lia Ascii.

(** ** Fingerprints *)

Definition CurrentOrderFingerprintVersion : Z := 1.

(** [binary.BigEndian.PutUint32] of [uint32(len(value))] *)
Definition length_prefix (value : string) : list Z := be_bytes 4 (w32 (Z.of_nat (String.length value))).
(** What one [write] adds to the hash. *)
Definition framed (value : string) : list Z := length_prefix value ++ bytes_of value.

(** A user and one of the user's keys. *)
Notation UserKeyPair := (N * string)%type.

Section Idempotency.
Context {DL : DecimalLib}.

Record OrderFingerprintInput := mkFingerprintInput {
  fi_UserID : N; fi_CoinSymbol : string; fi_Side : string; fi_OrderType : string;
  fi_Price : decimal; fi_Amount : decimal; fi_QuoteAmount : decimal }.

Definition fingerprint_fields (i : OrderFingerprintInput) : list string :=
  ["v1"; pretty (fi_UserID i); fi_CoinSymbol i; fi_Side i; fi_OrderType i;
   DString (fi_Price i); DString (fi_Amount i); DString (fi_QuoteAmount i)].

Definition fingerprint_bytes (i : OrderFingerprintInput) : list Z := concat (map framed (fingerprint_fields i)).

Definition computeOrderFingerprintV1 (i : OrderFingerprintInput) : string := EncodeToString (Sum256 (fingerprint_bytes i)).

Definition ComputeOrderFingerprint (i : OrderFingerprintInput) (version : Z) : result error string :=
  if decide (version = 1) then Ok (computeOrderFingerprintV1 i)
  else Err (Errorf "unsupported order fingerprint version %d" [pretty version]).

(** ** Repository *)

Definition record_pair (r : OrderIdempotencyKey) : UserKeyPair := (k_UserID r, k_IdempotencyKey r).

#[export] Instance OrderIdempotencyKey_settable : Settable OrderIdempotencyKey := fun k =>
  mkIdempotencyKey (k_ID k) (k_UserID k) (k_IdempotencyKey k) (k_Fingerprint k) (k_FingerprintVersion k)
    (k_OrderID k) (k_Outcome k).

(** The rows in the order of their ids. *)
Definition idempotency_rows (t : Tables) : list OrderIdempotencyKey := map snd (map_to_list (tb_idempotency t)).

Definition pair_taken (t : Tables) (pair : UserKeyPair) : bool :=
  bool_decide (pair ∈ map record_pair (idempotency_rows t)).

(** CHECK (length(btrim(idempotency_key)) BETWEEN 1 AND 128); btrim removes
    blanks and length counts characters. *)
Definition is_blank (c : ascii) : bool := bool_decide (c = " "%char).
Fixpoint btrim_left (s : string) : string :=
  match s with String c s' => if is_blank c then btrim_left s' else s | EmptyString => "" end.
Fixpoint all_blank (s : string) : bool :=
  match s with EmptyString => true | String c s' => is_blank c && all_blank s' end.
Fixpoint btrim_right (s : string) : string :=
  match s with
  | EmptyString => ""
  | String c s' => if is_blank c && all_blank s' then "" else String c (btrim_right s')
  end.

(** [utf8.RuneCountInString]: a valid sequence counts once, every other byte for
    itself. *)
Definition within (lo hi : N) (c : ascii) : bool := ((lo <=? N_of_ascii c) && (N_of_ascii c <=? hi))%N.
Definition tail_byte : ascii -> bool := within 128 191.
Fixpoint RuneCountInString (s : string) : nat :=
  match s with
  | EmptyString => O
  | String a s1 =>
      let one := S (RuneCountInString s1) in
      if within 194 223 a then
        match s1 with String b s2 => if tail_byte b then S (RuneCountInString s2) else one | _ => one end
      else if within 224 239 a then
        match s1 with
        | String b (String c s3) =>
            if within (if within 224 224 a then 160 else 128) (if within 237 237 a then 159 else 191) b && tail_byte c
            then S (RuneCountInString s3) else one
        | _ => one
        end
      else if within 240 244 a then
        match s1 with
        | String b (String c (String d s4)) =>
            if within (if within 240 240 a then 144 else 128) (if within 244 244 a then 143 else 191) b
               && tail_byte c && tail_byte d
            then S (RuneCountInString s4) else one
        | _ => one
        end
      else one
  end.

Definition key_length_check (key : string) : bool :=
  let n := RuneCountInString (btrim_right (btrim_left key)) in (1 <=? n)%nat && (n <=? 128)%nat.

(** INSERT ... ON CONFLICT (user_id, idempotency_key) DO NOTHING RETURNING id,
    user_id, idempotency_key: the returned rows. *)
Fixpoint insert_keys (records : list OrderIdempotencyKey) : M (list (N * UserKeyPair)) :=
  match records with
  | [] => mret []
  | record :: records' =>
      id ← nextval "order_idempotency_keys";
      if negb (key_length_check (k_IdempotencyKey record))
      then throw (ConstraintViolation "order_idempotency_keys_key_length")
      else
        t ← get_db;
        if pair_taken t (record_pair record) then insert_keys records'
        else
          _ ← put_db (t <| tb_idempotency := <[id := record <| k_ID := id |>]> (tb_idempotency t) |>);
          rows ← insert_keys records';
          mret ((id, record_pair record) :: rows)
  end.

(** Give the returned ids to the records, each id once. *)
Fixpoint assign_ids (byKey : gmap UserKeyPair N) (records : list OrderIdempotencyKey) : list OrderIdempotencyKey :=
  match records with
  | [] => []
  | record :: records' =>
      match byKey !! record_pair record with
      | None => record :: assign_ids byKey records'
      | Some id => (record <| k_ID := id |>) :: assign_ids (delete (record_pair record) byKey) records'
      end
  end.

(** The records with the ids they received, 0 for those not inserted; the Go
    function also returns the list of non-zero ids. *)
Definition InsertNew (records : list OrderIdempotencyKey) : M (list OrderIdempotencyKey) :=
  match records with
  | [] => mret []
  | _ =>
      _ ← stmt;
      rows ← insert_keys records;
      mret (assign_ids (list_to_map (map (fun '(id, key) => (key, id)) rows)) records)
  end.

(** WHERE (user_id, idempotency_key) IN pairs *)
Definition find_pairs (pairs : list UserKeyPair) (t : Tables) : list OrderIdempotencyKey :=
  filter (fun r => record_pair r ∈ pairs) (idempotency_rows t).
Definition FindByUserKeys (pairs : list UserKeyPair) : M (list OrderIdempotencyKey) :=
  match pairs with
  | [] => mret []
  | _ => query (find_pairs pairs)
  end.

Definition update_key (id : N) (f : OrderIdempotencyKey -> OrderIdempotencyKey) (format : string) : M unit :=
  _ ← stmt;
  t ← get_db;
  match tb_idempotency t !! id with
  | None => throw (Errorf format [pretty id])
  | Some record => put_db (t <| tb_idempotency := <[id := f record]> (tb_idempotency t) |>)
  end.

Definition SetOrderAndOutcome (id orderID : N) (outcome : OrderIdempotencyOutcome) : M unit :=
  update_key id (fun r => r <| k_OrderID := Some orderID |> <| k_Outcome := outcome |>)
    "set order and outcome affected 0 rows for idempotency key %d, expected 1".

Definition UpdateOutcome (id : N) (outcome : OrderIdempotencyOutcome) : M unit :=
  update_key id (fun r => r <| k_Outcome := outcome |>)
    "update outcome affected 0 rows for idempotency key %d, expected 1".

Definition DeleteByIDs (ids : list N) : M unit :=
  match ids with
  | [] => mret tt
  | _ =>
      if decide (0%N ∈ ids) then throw (Errorf "refusing to delete idempotency keys: id 0 in %d ids" [pretty (length ids)])
      else
        let deduped := remove_dups ids in
        _ ← stmt;
        t ← get_db;
        let removed := length (filter (fun id => is_Some (tb_idempotency t !! id)) deduped) in
        _ ← put_db (t <| tb_idempotency := foldr delete (tb_idempotency t) deduped |>);
        if decide (removed <> length deduped)
        then throw (Errorf "delete idempotency keys removed %d rows, expected %d" [pretty removed; pretty (length deduped)])
        else mret tt
  end.

(** ** A fingerprint stands for one request *)

Context {DLaws : DecimalLaws DL}.

(** Two requests that ask for the same order. *)
Definition same_request (i j : OrderFingerprintInput) : Prop :=
  fi_UserID i = fi_UserID j /\ fi_CoinSymbol i = fi_CoinSymbol j /\ fi_Side i = fi_Side j /\ fi_OrderType i = fi_OrderType j
  /\ (dval (fi_Price i) == dval (fi_Price j))%Q /\ (dval (fi_Amount i) == dval (fi_Amount j))%Q
  /\ (dval (fi_QuoteAmount i) == dval (fi_QuoteAmount j))%Q.

(** The length of every field fits the 32-bit prefix. *)
Definition short_fields (i : OrderFingerprintInput) : Prop :=
  Forall (fun f => Z.of_nat (String.length f) < 2 ^ 32) (fingerprint_fields i).

Lemma w32_small x : 0 <= x < 2 ^ 32 -> w32 x = x.
Proof. intros H. unfold w32. change 4294967295 with (Z.ones 32). rewrite Z.land_ones by lia. by apply Z.mod_small. Qed.

Lemma be_bytes_4_inj x y : 0 <= x < 2 ^ 32 -> 0 <= y < 2 ^ 32 -> be_bytes 4 x = be_bytes 4 y -> x = y.
Proof.
  intros Hx Hy H. cbn in H. change 255 with (Z.ones 8) in H. rewrite !Z.land_ones, !Z.shiftr_div_pow2 in H by lia.
  injection H as H3 H2 H1 H0.
  change (2 ^ (8 * Z.of_nat 3)) with 16777216 in *. change (2 ^ (8 * Z.of_nat 2)) with 65536 in *.
  change (2 ^ (8 * Z.of_nat 1)) with 256 in *. change (2 ^ (8 * Z.of_nat 0)) with 1 in *. change (2 ^ 8) with 256 in *.
  assert (E : forall z, 0 <= z < 2 ^ 32 -> z = ((z / 16777216) mod 256) * 16777216 + ((z / 65536) mod 256) * 65536 + ((z / 256) mod 256) * 256 + (z / 1) mod 256).
  { intros z Hz. clear -Hz. rewrite Z.div_1_r. Z.to_euclidean_division_equations. lia. }
  rewrite (E x Hx), (E y Hy). congruence.
Qed.

Lemma bytes_of_inj a b : bytes_of a = bytes_of b -> a = b.
Proof.
  revert b. induction a as [|c a IH]; intros [|d b] H; cbn in H; try done. injection H as Hc Hr. f_equal; [|by apply IH].
  apply (f_equal Z.to_N) in Hc. rewrite !N2Z.id in Hc. by rewrite <- (ascii_N_embedding c), <- (ascii_N_embedding d), Hc.
Qed.
Lemma bytes_of_length a : length (bytes_of a) = String.length a.
Proof. induction a as [|c a IH]; [done|]. cbn. by rewrite IH. Qed.

Lemma frames_inj l k : Forall (fun f => Z.of_nat (String.length f) < 2 ^ 32) l ->
  Forall (fun f => Z.of_nat (String.length f) < 2 ^ 32) k -> length l = length k ->
  concat (map framed l) = concat (map framed k) -> l = k.
Proof.
  revert k. induction l as [|a l IH]; intros [|b k] Hl Hk Hlen H; cbn [length] in Hlen; try done.
  apply Forall_cons in Hl as [Ha Hl], Hk as [Hb Hk]. cbn [map concat] in H. unfold framed in H. rewrite <- !(assoc_L (++)) in H.
  apply app_inj_1 in H as [Hp H]; [|done]. unfold length_prefix in Hp.
  rewrite !w32_small in Hp by lia. apply be_bytes_4_inj in Hp; [|lia ..]. apply app_inj_1 in H as [Hab H]; [|rewrite !bytes_of_length; lia].
  apply bytes_of_inj in Hab as ->. f_equal. apply IH; [done | done | lia | done].
Qed.

(** The bytes a fingerprint hashes identify the request: two requests give the
    same bytes exactly when they name the same user, coin, side and type and the
    same price, amount and quote amount as numbers (so 100.50 and 100.5 agree).
    Two different requests can share a fingerprint only by a collision of
    SHA-256. *)
Theorem fingerprint_identifies i j : short_fields i -> short_fields j ->
  fingerprint_bytes i = fingerprint_bytes j <-> same_request i j.
Proof.
  intros Hi Hj. unfold fingerprint_bytes. split.
  - intros H. apply frames_inj in H; [|done ..]. unfold fingerprint_fields in H. injection H as H1 H2 H3 H4 H5 H6 H7.
    apply (inj pretty) in H1. apply DString_dval in H5, H6, H7. by repeat split.
  - intros (H1 & H2 & H3 & H4 & H5 & H6 & H7). apply DString_dval in H5, H6, H7. unfold fingerprint_fields. congruence.
Qed.
End Idempotency.
