(* ===== verification/HoldCoordinator.v ===== *)
(** * Holding the assets of new orders: [service/hold_coordinator.go]

    The single path [persistAndHold]/[persistAndHoldIdempotent], the batch path
    [HoldBatch] and the fallback from one to the other.  Go's indices into the
    request slice are kept; what a call writes through the requests' pointers
    (the order's id, the idempotency record's id) comes back in the result. *)
From S2P Require Import Prelude Decimal Model Errors Fee Database Ledger OrderLedger Sha256 Idempotency.
From Stdlib Require Import Lia.

Section HoldCoordinator.
Context {DL : DecimalLib}.

Inductive holdRole := holdRoleOwner | holdRoleFollower.

Record idempotencyContext := mkIdem { ic_Key : string; ic_Fingerprint : string; ic_Version : Z }.
Record holdRequest := mkHoldRequest { hq_order : OrderRow; hq_idem : option idempotencyContext }.
Record holdResult := mkHoldResult {
  hr_Order : option OrderRow; hr_Err : option error; hr_Role : holdRole;
  hr_Existing : option OrderIdempotencyKey; hr_RecordID : N }.
Definition emptyResult : holdResult := mkHoldResult None None holdRoleOwner None 0.
Definition failedResult (err : error) : holdResult := mkHoldResult None (Some err) holdRoleOwner None 0.

(** ** Duplicates inside a batch *)

Record grouping := mkGrouping { g_owners : list nat; g_followers : list (nat * nat); g_conflicts : list nat }.

Definition group_step (reqs : list holdRequest) (acc : gmap UserKeyPair nat * grouping) (ir : nat * holdRequest)
    : gmap UserKeyPair nat * grouping :=
  let '(first, g) := acc in
  let '(i, req) := ir in
  match hq_idem req with
  | None => (first, mkGrouping (g_owners g ++ [i]) (g_followers g) (g_conflicts g))
  | Some idem =>
      let gk := (r_UserID (hq_order req), ic_Key idem) in
      match first !! gk with
      | None => (<[gk := i]> first, mkGrouping (g_owners g ++ [i]) (g_followers g) (g_conflicts g))
      | Some leader =>
          let leaderPrint := (reqs !! leader) ≫= hq_idem in
          if decide (ic_Fingerprint <$> leaderPrint = Some (ic_Fingerprint idem))
          then (first, mkGrouping (g_owners g) (g_followers g ++ [(i, leader)]) (g_conflicts g))
          else (first, mkGrouping (g_owners g) (g_followers g) (g_conflicts g ++ [i]))
      end
  end.

Definition groupIdempotentRequests (reqs : list holdRequest) : grouping :=
  snd (foldl (group_step reqs) (∅, mkGrouping [] [] []) (imap pair reqs)).

Definition conflict_error : error := NewConflictErrorf "idempotency key reused with a different request" [].

Definition set_conflicts (conflicts : list nat) (results : list holdResult) : list holdResult :=
  foldl (fun results i => <[i := failedResult conflict_error]> results) results conflicts.

(** Go ranges over a map: the followers are distinct and their leaders are not
    followers, so the order does not matter. *)
Definition applyFollowerResults (results : list holdResult) (followers : list (nat * nat)) : list holdResult :=
  foldl (fun results '(i, leader) =>
           match results !! leader with
           | None => results
           | Some r => <[i := mkHoldResult (hr_Order r) (hr_Err r) holdRoleFollower (hr_Existing r) 0]> results
           end) results followers.

(** ** One order *)

Definition persistAndHold (order : OrderRow) : M OrderRow :=
  transaction (order ← CreateOrder order; _ ← holdOrderAssets order; mret order).

Definition new_record (order : OrderRow) (idem : idempotencyContext) : OrderIdempotencyKey :=
  mkIdempotencyKey 0 (r_UserID order) (ic_Key idem) (ic_Fingerprint idem) (ic_Version idem) None OutcomePending.

Definition persist_body (order : OrderRow) (idem : idempotencyContext) : M holdResult :=
  records ← InsertNew [new_record order idem];
  match filter (fun r => k_ID r <> 0%N) records with
  | [] =>
      found ← FindByUserKeys [(r_UserID order, ic_Key idem)];
      match found with
      | [existing] => mret (mkHoldResult None None holdRoleFollower (Some existing) 0)
      | _ => throw (Errorf "idempotency lookup found %d rows for an existing key" [pretty (length found)])
      end
  | record :: _ =>
      order ← CreateOrder order;
      _ ← holdOrderAssets order;
      _ ← SetOrderAndOutcome (k_ID record) (r_ID order) OutcomePending;
      mret (mkHoldResult (Some order) None holdRoleOwner None (k_ID record))
  end.

(** A Go function that reports its error inside its result. *)
Definition catch {A} (m : M A) (handler : error -> A) : M A := fun w =>
  match m w with (Ok a, w') => (Ok a, w') | (Err e, w') => (Ok (handler e), w') end.

Definition persistAndHoldIdempotent (req : holdRequest) : M holdResult :=
  let order := hq_order req in
  match hq_idem req with
  | None => catch (order ← persistAndHold order; mret (mkHoldResult (Some order) None holdRoleOwner None 0))
              (fun e => mkHoldResult (Some order) (Some e) holdRoleOwner None 0)
  | Some idem => catch (transaction (persist_body order idem))
                   (fun e => mkHoldResult (Some (order <| r_ID := 0%N |>)) (Some e) holdRoleOwner None 0)
  end.

(** ** A batch *)

(** The requests at the given indices. *)
Definition at_indices {A} (l : list A) (idx : list nat) : list (nat * A) :=
  omap (fun i => pair i <$> l !! i) idx.

Definition owner_records (owners : list (nat * holdRequest)) : list (nat * OrderIdempotencyKey) :=
  omap (fun '(i, req) => (fun idem => (i, new_record (hq_order req) idem)) <$> hq_idem req) owners.

Definition sort_indices (idx : list nat) : list nat := merge_sort Nat.le idx.

(** Active owners, their record ids, and the results of keys that were taken. *)
Definition claimIdempotencyKeys (reqs : list holdRequest) (owners : list nat) (results : list holdResult)
    : M (list nat * gmap nat N * list holdResult) :=
  let requests := at_indices reqs owners in
  let plain := omap (fun '(i, req) => match hq_idem req with None => Some i | Some _ => None end) requests in
  let recordIdx := owner_records requests in
  match recordIdx with
  | [] => mret (plain, ∅, results)
  | _ =>
      records ← InsertNew (map snd recordIdx);
      let claimed := zip (map fst recordIdx) records in
      let inserted := filter (fun '(_, r) => k_ID r <> 0%N) claimed in
      let taken := filter (fun '(_, r) => k_ID r = 0%N) claimed in
      let lookup := map (fun '(_, r) => record_pair r) taken in
      let existingIdx : gmap UserKeyPair nat := foldl (fun m '(i, r) => <[record_pair r := i]> m) ∅ taken in
      let active := sort_indices (plain ++ map fst inserted) in
      let ids := list_to_map (map (fun '(i, r) => (i, k_ID r)) inserted) in
      match lookup with
      | [] => mret (active, ids, results)
      | _ =>
          found ← FindByUserKeys lookup;
          if decide (length found <> length lookup)
          then throw (Errorf "idempotency lookup found %d of %d existing keys" [pretty (length found); pretty (length lookup)])
          else
            let results := foldl (fun results record =>
                match existingIdx !! record_pair record with
                | None => results
                | Some i => <[i := mkHoldResult None None holdRoleFollower (Some record) 0]> results
                end) results found in
            mret (active, ids, results)
      end
  end.

Definition hold_specs (order : OrderRow) : list AccountSpec :=
  [mkAccountSpec AccountUserAvailable (Some (r_UserID order)) (orderHoldAsset order);
   mkAccountSpec AccountUserLocked (Some (r_UserID order)) (orderHoldAsset order)].

Record fold_state := mkFold {
  fs_available : gmap N decimal; fs_results : list holdResult; fs_failed : list N; fs_passing : list (nat * OrderRow) }.

(** One step of the sequential balance check. *)
Definition fold_check (ids : gmap nat N) (accountIDByKey : gmap accountKey N) (st : fold_state) (ir : nat * holdRequest)
    : fold_state :=
  let '(i, req) := ir in
  let order := hq_order req in
  let fail err :=
    mkFold (fs_available st) (<[i := failedResult err]> (fs_results st))
      (fs_failed st ++ match ids !! i with Some id => [id] | None => [] end) (fs_passing st) in
  match accountIDByKey !! newAccountKey AccountUserAvailable (Some (r_UserID order)) (orderHoldAsset order) with
  | None => fail (NewConflictErrorf "insufficient available balance" [])
  | Some accountID =>
      let remaining := Sub (default Zero (fs_available st !! accountID)) (holdAmountFor order) in
      if IsNegative remaining then fail (insufficientBalanceError (r_Side order))
      else mkFold (<[accountID := remaining]> (fs_available st)) (fs_results st) (fs_failed st) (fs_passing st ++ [(i, order)])
  end.

Definition hold_batch_body (reqs : list holdRequest) (owners : list nat) (results : list holdResult) : M (list holdResult) :=
  '(activeOwners, ids, results) ← claimIdempotencyKeys reqs owners results;
  let active := at_indices reqs activeOwners in
  accounts ← EnsureAccounts (flat_map (fun '(_, req) => hold_specs (hq_order req)) active);
  balances ← LockBalances (sort_ids (map a_ID accounts));
  let isAvailable := list_to_set (C := gset N)
        (map a_ID (filter (fun a => a_AccountType a = AccountUserAvailable) accounts)) in
  let available := list_to_map (map (fun '(id, b) => (id, b_Balance b)) (filter (fun '(id, _) => id ∈ isAvailable) balances)) in
  let accountIDByKey := list_to_map (map (fun a => (account_key a, a_ID a)) accounts) in
  let st := foldl (fold_check ids accountIDByKey) (mkFold available results [] []) active in
  _ ← DeleteByIDs (fs_failed st);
  match fs_passing st with
  | [] => mret (fs_results st)
  | passing =>
      orders ← CreateOrders (map snd passing);
      _ ← for_each holdOrderAssets orders;
      let created := zip (map fst passing) orders in
      _ ← for_each (fun '(i, order) => match ids !! i with
                                       | None => mret tt
                                       | Some id => SetOrderAndOutcome id (r_ID order) OutcomePending
                                       end) created;
      mret (foldl (fun results '(i, order) =>
              <[i := mkHoldResult (Some order) None holdRoleOwner None (default 0%N (ids !! i))]> results) (fs_results st) created)
  end.

Definition HoldBatch (reqs : list holdRequest) : M (list holdResult) :=
  let g := groupIdempotentRequests reqs in
  let results := set_conflicts (g_conflicts g) (replicate (length reqs) emptyResult) in
  results ← transaction (hold_batch_body reqs (g_owners g) results);
  mret (applyFollowerResults results (g_followers g)).

(** ** Falling back *)

Definition fallbackPerRequest (reqs : list holdRequest) : M (list holdResult) :=
  let g := groupIdempotentRequests reqs in
  let results := set_conflicts (g_conflicts g) (replicate (length reqs) emptyResult) in
  done ← map_each (fun '(i, req) => r ← persistAndHoldIdempotent req; mret (i, r)) (at_indices reqs (g_owners g));
  let results := foldl (fun results '(i, r) => <[i := r]> results) results done in
  mret (applyFollowerResults results (g_followers g)).

Definition pgCodeQueryCanceled : string := "57014".

(** The SQLSTATE of an error that a retry may clear. *)
Fixpoint settlementErrorSQLState (err : error) : string :=
  match err with
  | DBError code => if decide (code ∈ ["40001"; "40P01"; "55P03"; pgCodeQueryCanceled]%string) then code else ""
  | Wrapf _ inner => settlementErrorSQLState inner
  | _ => ""
  end.
Definition IsTransientSettlementError (err : error) : bool := negb (bool_decide (settlementErrorSQLState err = "")).

(** The results sent to the waiting requests. *)
Definition processBatch (reqs : list holdRequest) : M (list holdResult) := fun w =>
  match HoldBatch reqs w with
  | (Ok results, w') => (Ok results, w')
  | (Err e, w') =>
      if decide (settlementErrorSQLState e = pgCodeQueryCanceled)
      then (Ok (map (fun _ => failedResult (NewUnavailableErrorf "order intake is saturated, please retry shortly" [])) reqs), w')
      else fallbackPerRequest reqs w'
  end.
End HoldCoordinator.
