(* ===== verification/OrderService.v ===== *)
(** * Orders: [service/order_service.go], [repository/cancel_command_repository.go], [service/dev_wallet_service.go]

    Parsing and checking a request, creating an order and handing it to the
    engine, recording the intent to cancel, and the two ways an order ends
    outside settlement: the engine removed it, or a market order is complete. *)
From S2P Require Import Prelude Decimal Containers Model Errors Fee MarketRules Database Ledger OrderLedger Queries Settlement Sha256 Idempotency HoldCoordinator Engine.
From Stdlib Require Import Lia.

(** What the service uses of [matching.Engine]. *)
Class MatchingAPI {DL : DecimalLib} := {
  engine : Type;
  api_IsIntakeAdmissible : string -> engine -> bool;
  api_TrySubmitOrder : Order -> engine -> bool * engine }.

(** The in-process engine; the acceptance timer fires when the channel is full. *)
#[export] Instance MatchingEngine_api {DL : DecimalLib} {CL : ContainerLib} : MatchingAPI := {|
  engine := MatchingEngine;
  api_IsIntakeAdmissible := IsIntakeAdmissible;
  api_TrySubmitOrder := fun order e => default (false, e) (TrySubmitOrder (Some order) true e) |}.

Section OrderService.
Context {DL : DecimalLib}.

(** ** Requests *)

Record CreateOrderInput := mkCreateOrderInput {
  ci_UserID : N; ci_CoinSymbol : string; ci_Side : string; ci_OrderType : string;
  ci_Price : string; ci_Amount : string; ci_QuoteAmount : string; ci_IdempotencyKey : string }.

Definition maxIdempotencyKeyLength : nat := 128.

Definition normalizeIdempotencyKey (raw : string) : result error string :=
  let key := TrimSpace raw in
  if bool_decide (key = "") || (maxIdempotencyKeyLength <? RuneCountInString key)%nat
  then Err (NewValidationErrorf "idempotency_key is required and must be 1..%d characters" [pretty maxIdempotencyKeyLength])
  else Ok key.

Definition parseOrderSide (value : string) : result error OrderSide :=
  let s := ToUpper (TrimSpace value) in
  if decide (s = "BUY") then Ok OrderSideBuy
  else if decide (s = "SELL") then Ok OrderSideSell
  else Err (NewValidationErrorf "invalid order side" []).

Definition parseOrderType (value : string) : result error OrderType :=
  let s := ToUpper (TrimSpace value) in
  if decide (s = "") then Ok OrderTypeLimit
  else if decide (s = "LIMIT") then Ok OrderTypeLimit
  else if decide (s = "MARKET") then Ok OrderTypeMarket
  else Err (NewValidationErrorf "invalid order type" []).

Definition parseOrderStatus (value : string) : result error OrderStatus :=
  let s := ToUpper (TrimSpace value) in
  if decide (s = "PENDING") then Ok OrderStatusPending
  else if decide (s = "PARTIAL") then Ok OrderStatusPartial
  else if decide (s = "FILLED") then Ok OrderStatusFilled
  else if decide (s = "CANCELLED") then Ok OrderStatusCancelled
  else Err (NewValidationErrorf "invalid order status" []).

Definition parsePositiveDecimal (value field : string) : result error decimal :=
  match NewFromString (TrimSpace value) with
  | None => Err (NewValidationErrorf "invalid %s" [field])
  | Some parsed =>
      if negb (GreaterThan parsed Zero) then Err (NewValidationErrorf "%s must be greater than zero" [field])
      else Ok parsed
  end.

Definition DefaultQueryLimit : Z := 50.
Definition MaxQueryLimit : Z := 200.
Definition normalizeQueryLimit (limit : Z) : Z :=
  if limit <=? 0 then DefaultQueryLimit else if MaxQueryLimit <? limit then MaxQueryLimit else limit.

Definition new_order (userID : N) (coinSymbol : string) (side : OrderSide) (orderType : OrderType)
    (price amount quoteAmount : decimal) : OrderRow :=
  mkOrderRow 0 userID amount quoteAmount coinSymbol side OrderStatusPending Zero Zero 0 orderType price.

Definition parseOrderRequest (input : CreateOrderInput) : result error OrderRow :=
  if decide (ci_UserID input = 0%N) then Err (NewValidationErrorf "user_id is required" [])
  else
    let coinSymbol := normalizeCoinSymbol (ci_CoinSymbol input) in
    if decide (coinSymbol = "") then Err (NewValidationErrorf "coin_symbol is required" [])
    else
      side ← parseOrderSide (ci_Side input);
      orderType ← parseOrderType (ci_OrderType input);
      match orderType with
      | OrderTypeLimit =>
          price ← parsePositiveDecimal (ci_Price input) "price";
          amount ← parsePositiveDecimal (ci_Amount input) "amount";
          Ok (new_order (ci_UserID input) coinSymbol side orderType price amount Zero)
      | OrderTypeMarket =>
          match side with
          | OrderSideBuy =>
              quoteAmount ← parsePositiveDecimal (ci_QuoteAmount input) "quote_amount";
              Ok (new_order (ci_UserID input) coinSymbol side orderType Zero Zero quoteAmount)
          | OrderSideSell =>
              amount ← parsePositiveDecimal (ci_Amount input) "amount";
              Ok (new_order (ci_UserID input) coinSymbol side orderType Zero amount Zero)
          | _ => Ok (new_order (ci_UserID input) coinSymbol side orderType Zero Zero Zero)
          end
      | _ => Err (NewValidationErrorf "invalid order type" [])
      end.

Definition validateMarketPolicy (order : OrderRow) (marketRules : option MarketRulesRegistry) : result error unit :=
  let rules := default defaultMarketRulesRegistry marketRules in
  match r_OrderType order with
  | OrderTypeLimit => ValidateLimitOrder rules (r_CoinSymbol order) (r_Price order) (r_Amount order)
  | OrderTypeMarket =>
      match r_Side order with
      | OrderSideBuy => ValidateMarketBuyOrder rules (r_CoinSymbol order) (r_QuoteAmount order)
      | OrderSideSell => ValidateMarketSellOrder rules (r_CoinSymbol order) (r_Amount order)
      | _ => Ok tt
      end
  | _ => Ok tt
  end.

Definition BuildOrderWithRegistry (input : CreateOrderInput) (marketRules : option MarketRulesRegistry) : result error OrderRow :=
  order ← parseOrderRequest input; _ ← validateMarketPolicy order marketRules; Ok order.

(** ** Creating an order *)

Record CreateOrderResult := mkCreateOrderResult {
  co_Order : OrderRow; co_Replay : bool; co_Outcome : OrderIdempotencyOutcome }.

Definition fingerprint_input (order : OrderRow) : OrderFingerprintInput :=
  mkFingerprintInput (r_UserID order) (r_CoinSymbol order) (OrderSide_string (r_Side order))
    (OrderType_string (r_OrderType order)) (r_Price order) (r_Amount order) (r_QuoteAmount order).

(** [&model.Order{}] with an id. *)
Definition order_with_id (id : N) : OrderRow :=
  mkOrderRow id 0 Zero Zero "" (OrderSideOther "") (OrderStatusOther "") Zero Zero 0 (OrderTypeOther "") Zero.

Definition replayResult (record : option OrderIdempotencyKey) (i : OrderFingerprintInput) : result error CreateOrderResult :=
  match record with
  | None => Err (NewUnavailableErrorf "idempotency record is unavailable, please retry" [])
  | Some record =>
      match ComputeOrderFingerprint i (k_FingerprintVersion record) with
      | Err _ => Err (NewUnavailableErrorf "idempotency record uses fingerprint version %d, which this server cannot verify"
                        [pretty (k_FingerprintVersion record)])
      | Ok stored =>
          if negb (bool_decide (k_Fingerprint record = stored))
          then Err (NewConflictErrorf "idempotency key was used with a different request" [])
          else Ok (mkCreateOrderResult (order_with_id (default 0%N (k_OrderID record))) true (k_Outcome record))
      end
  end.

(** [None]: the key is new. *)
Definition replayExistingKey (userID : N) (key : string) (i : OrderFingerprintInput) : M (option CreateOrderResult) :=
  found ← map_err (fun _ => NewUnavailableErrorf "idempotency lookup failed, please retry" []) (FindByUserKeys [(userID, key)]);
  match found with
  | [] => mret None
  | record :: _ => r ← lift (replayResult (Some record) i); mret (Some r)
  end.

Definition rejectUnlessReplay (userID : N) (key : string) (i : OrderFingerprintInput) (rejection : error) : M CreateOrderResult :=
  replay ← replayExistingKey userID key i;
  match replay with Some r => mret r | None => throw rejection end.

Definition followerResult (res : holdResult) (i : OrderFingerprintInput) : result error CreateOrderResult :=
  match hr_Existing res with
  | Some record => replayResult (Some record) i
  | None =>
      match hr_Order res with
      | Some order => Ok (mkCreateOrderResult order true OutcomePending)
      | None => Err (NewUnavailableErrorf "idempotency record is unavailable, please retry" [])
      end
  end.

Definition releaseInitialHold (order : OrderRow) : M unit :=
  releaseOrderAssets order (holdAmountFor order) releaseReasonRejected.

Definition reject_body (order : OrderRow) (recordID : N) : M unit :=
  _ ← releaseInitialHold order;
  _ ← UpdateOrderExecution (r_ID order) (r_FilledAmount order) (r_FilledQuoteAmount order) OrderStatusRejected;
  UpdateOutcome recordID OutcomeRejected.

(** A result and an error at once, as the Go function returns them.  A single
    gorm update outside a transaction runs in one of its own. *)
Definition rejectAcceptedOrderWithIdempotency (order : OrderRow) (recordID : N) (w : World)
    : (CreateOrderResult * error) * World :=
  match transaction (reject_body order recordID) w with
  | (Ok _, w1) =>
      ((mkCreateOrderResult order false OutcomeRejected,
        NewUnavailableErrorf "order intake is saturated, please retry shortly" []), w1)
  | (Err _, w1) =>
      let '(r, w2) := transaction (UpdateOutcome recordID OutcomeUnknown) w1 in
      let outcome := match r with Ok _ => OutcomeUnknown | Err _ => OutcomePending end in
      ((mkCreateOrderResult order false outcome,
        NewUnavailableErrorf "order intake saturated and hold release failed for order %d" [pretty (r_ID order)]), w2)
  end.

Definition matchingQuoteAmountForOrder (order : OrderRow) : result error decimal :=
  if decide (r_Side order = OrderSideBuy /\ r_OrderType order = OrderTypeMarket)
  then marketBuyExecutableQuoteAmount (r_QuoteAmount order)
  else Ok (r_QuoteAmount order).

(** The order as the engine gets it. *)
Definition engine_order (order : OrderRow) (quoteAmount : decimal) (now : Z) : Order :=
  mkOrder (r_ID order) (r_UserID order) (r_Amount order) quoteAmount (r_CoinSymbol order) (r_Side order)
    (r_FilledAmount order) (r_FilledQuoteAmount order) (r_CreatedAt order) now (r_OrderType order) (r_Price order).

(** What [CreateOrder] returns: a result, an error, or both. *)
Record CreateOrderReply := mkReply { rp_Result : option CreateOrderResult; rp_Err : option error }.
Definition reply_of (r : result error CreateOrderResult) : CreateOrderReply :=
  match r with Ok a => mkReply (Some a) None | Err e => mkReply None (Some e) end.

Context {API : MatchingAPI}.

(** Where the hold of a request takes place: in a service without a coordinator, not at
    all because the input of the coordinator is full, or in a batch of the coordinator,
    after and before other requests.  The running program has a coordinator. *)
Inductive hold_place :=
| NoCoordinator
| InputFull
| InBatch (before after : list holdRequest).

(** With [SubmitWithIdempotency]: the request waits for its result, which the batch it is
    collected in gives under its index. *)
Definition holdWithIdempotency (place : hold_place) (req : holdRequest) : M holdResult :=
  match place with
  | NoCoordinator => persistAndHoldIdempotent req
  | InputFull => mret (failedResult (NewUnavailableErrorf "order intake is saturated, please retry shortly" []))
  | InBatch before after =>
      results ← processBatch (before ++ req :: after);
      mret (default emptyResult (results !! length before))
  end.

(** What follows the hold; [CreateOrder] takes [holdWithIdempotency] at a place as its
    argument [hold]. *)
Definition submit_held (order : OrderRow) (recordID : N) (now : Z) (w : World) (me : engine)
    : CreateOrderReply * World * engine :=
  match matchingQuoteAmountForOrder order with
  | Err e => (mkReply None (Some e), w, me)
  | Ok quoteAmount =>
      let '(submitted, me) := api_TrySubmitOrder (engine_order order quoteAmount now) me in
      if negb submitted then
        let '((res, e), w) := rejectAcceptedOrderWithIdempotency order recordID w in
        (mkReply (Some res) (Some e), w, me)
      else
        let '(_, w) := transaction (UpdateOutcome recordID OutcomeAccepted) w in
        (mkReply (Some (mkCreateOrderResult order false OutcomeAccepted)) None, w, me)
  end.

Definition parse_request (input : CreateOrderInput) : result error (string * OrderRow * string) :=
  key ← normalizeIdempotencyKey (ci_IdempotencyKey input);
  order ← parseOrderRequest input;
  fingerprint ← ComputeOrderFingerprint (fingerprint_input order) CurrentOrderFingerprintVersion;
  Ok (key, order, fingerprint).

(** Refuse a new request; answer a known one. *)
Definition refuse (order : OrderRow) (key : string) (rejection : error) (w : World) : CreateOrderReply * World :=
  let '(r, w) := rejectUnlessReplay (r_UserID order) key (fingerprint_input order) rejection w in (reply_of r, w).

Definition CreateOrder (hold : holdRequest -> M holdResult) (rules : option MarketRulesRegistry) (now : Z)
    (input : CreateOrderInput) (w : World) (me : option engine) : CreateOrderReply * World * option engine :=
  match parse_request input with
  | Err e => (mkReply None (Some e), w, me)
  | Ok (key, order, fingerprint) =>
      match validateMarketPolicy order rules, me with
      | Err e, _ => let '(r, w) := refuse order key e w in (r, w, me)
      | Ok _, None =>
          let '(r, w) := refuse order key (NewUnavailableErrorf "matching engine is not configured" []) w in (r, w, me)
      | Ok _, Some e =>
          if negb (api_IsIntakeAdmissible (r_CoinSymbol order) e) then
            let '(r, w) := refuse order key (NewUnavailableErrorf "order intake is saturated, please retry shortly" []) w in
            (r, w, me)
          else
            let idem := mkIdem key fingerprint CurrentOrderFingerprintVersion in
            match hold (mkHoldRequest order (Some idem)) w with
            | (Err err, w) => (mkReply None (Some err), w, me)
            | (Ok res, w) =>
                match hr_Err res, hr_Role res, hr_Order res with
                | Some err, _, _ => (mkReply None (Some err), w, me)
                | None, holdRoleFollower, _ => (reply_of (followerResult res (fingerprint_input order)), w, me)
                | None, holdRoleOwner, Some held =>
                    let '(r, w, e) := submit_held held (hr_RecordID res) now w e in (r, w, Some e)
                | None, holdRoleOwner, None => (mkReply None (Some GoPanic), w, me)
                end
            end
      end
  end.

(** ** Cancelling *)

Definition isCancellableOrderStatus (status : OrderStatus) : bool :=
  bool_decide (status = OrderStatusPending) || bool_decide (status = OrderStatusPartial).

Definition command_of_order (t : Tables) (orderID : N) : option CancelCommandRow :=
  head (filter (fun c => cmd_OrderID c = orderID) (map snd (map_to_list (tb_commands t)))).

#[export] Instance CancelCommandRow_settable : Settable CancelCommandRow := fun c =>
  mkCancelCommand (cmd_ID c) (cmd_OrderID c) (cmd_UserID c) (cmd_CoinSymbol c) (cmd_Side c) (cmd_Price c) (cmd_Status c)
    (cmd_AttemptCount c) (cmd_LastError c).

Definition CreateOrGet (command : CancelCommandRow) : M (CancelCommandRow * bool) :=
  _ ← stmt;
  id ← nextval "cancel_commands";
  t ← get_db;
  match command_of_order t (cmd_OrderID command) with
  | None =>
      let row := command <| cmd_ID := id |> in
      _ ← put_db (t <| tb_commands := <[id := row]> (tb_commands t) |>);
      mret (row, true)
  | Some _ =>
      existing ← query (fun t => command_of_order t (cmd_OrderID command));
      match existing with Some row => mret (row, false) | None => throw ErrRecordNotFound end
  end.

Definition CancelOrderAcceptedStatus : string := "ACCEPTED".
Record CancelOrderReply := mkCancelOrderReply { ca_OrderID : N; ca_CommandID : N; ca_Status : string }.

Definition cancel_body (userID orderID : N) : M CancelCommandRow :=
  order ← FindByIDForUpdate orderID;
  if negb (bool_decide (r_UserID order = userID)) then throw (NewForbiddenErrorf "order does not belong to user" [])
  else if negb (isCancellableOrderStatus (r_Status order))
  then throw (NewConflictErrorf "order status %s cannot be cancelled" [OrderStatus_string (r_Status order)])
  else if decide (r_OrderType order = OrderTypeMarket) then throw (NewConflictErrorf "market orders cannot be cancelled" [])
  else
    '(persisted, _) ← CreateOrGet (mkCancelCommand 0 (r_ID order) (r_UserID order) (r_CoinSymbol order) (r_Side order)
                                     (r_Price order) CommandPending 0 "");
    mret persisted.

Definition cancel_error (err : error) : error :=
  match DomainErrorKind err with
  | Some _ => err
  | None => if IsRecordNotFound err then err
            else NewUnavailableErrorf "cancel command could not be recorded, please retry: %v" []
  end.

Definition CancelOrder (userID orderID : N) : M CancelOrderReply :=
  if decide (userID = 0%N) then throw (NewValidationErrorf "user_id is required" [])
  else if decide (orderID = 0%N) then throw (NewValidationErrorf "order_id is required" [])
  else
    command ← map_err cancel_error (transaction (cancel_body userID orderID));
    mret (mkCancelOrderReply (cmd_OrderID command) (cmd_ID command) CancelOrderAcceptedStatus).

Definition releaseOrderHold (order : OrderRow) (remaining : decimal) : M unit :=
  match r_Side order with
  | OrderSideBuy => releaseOrderAssets order (quoteAmountWithTradingFee (Mul (r_Price order) remaining)) releaseReasonCancel
  | OrderSideSell => releaseOrderAssets order remaining releaseReasonCancel
  | _ => throw (NewValidationErrorf "invalid order side" [])
  end.

Definition cancellation_body (orderID : N) : M unit :=
  order ← FindByIDForUpdate orderID;
  if negb (isCancellableOrderStatus (r_Status order)) then mret tt
  else
    let remaining := Sub (r_Amount order) (r_FilledAmount order) in
    if negb (GreaterThan remaining Zero) then mret tt
    else
      _ ← releaseOrderHold order remaining;
      UpdateOrderExecution (r_ID order) (r_FilledAmount order) (r_FilledQuoteAmount order) OrderStatusCancelled.

Definition ProcessOrderCancellation (orderID : N) : M unit :=
  if decide (orderID = 0%N) then throw (NewValidationErrorf "order_id is required" [])
  else transaction (cancellation_body orderID).

(** ** Market orders *)

Record CompleteMarketOrderInput := mkCompleteInput {
  cm_OrderID : N; cm_FilledAmount : decimal; cm_FilledQuoteAmount : decimal; cm_RemainingQuoteAmount : decimal }.

Definition completeMarketBuyOrder (order : OrderRow) (input : CompleteMarketOrderInput) : M unit :=
  buyerFeeTotal ← SumBuyerFeesByBuyOrderID (r_ID order);
  let spentQuoteWithFees := Add (r_FilledQuoteAmount order) buyerFeeTotal in
  if GreaterThan spentQuoteWithFees (r_QuoteAmount order)
  then throw (NewConflictErrorf "market buy order %d spent quote amount %s exceeds quote budget %s"
                [pretty (r_ID order); DString spentQuoteWithFees; DString (r_QuoteAmount order)])
  else
    let remainingQuote := Sub (r_QuoteAmount order) spentQuoteWithFees in
    _ ← (if GreaterThan remainingQuote Zero then releaseOrderAssets order remainingQuote releaseReasonMarketRemain else mret tt);
    UpdateOrderExecution (r_ID order) (r_FilledAmount order) (r_FilledQuoteAmount order)
      (if negb (GreaterThan (cm_RemainingQuoteAmount input) Zero) then OrderStatusFilled else OrderStatusCancelled).

Definition remainingOrderQuantity (order : OrderRow) : result error decimal :=
  let remaining := Sub (r_Amount order) (r_FilledAmount order) in
  if negb (GreaterThan remaining Zero) then Err (NewConflictErrorf "order has no remaining quantity" []) else Ok remaining.

Definition remainingMarketSellQuantity (order : OrderRow) : result error decimal :=
  let remaining := Sub (r_Amount order) (r_FilledAmount order) in
  if IsNegative remaining then Err (NewConflictErrorf "order filled amount exceeds order amount" []) else Ok remaining.

Definition completeMarketSellOrder (order : OrderRow) : M unit :=
  remaining ← lift (remainingMarketSellQuantity order);
  _ ← (if GreaterThan remaining Zero then releaseOrderAssets order remaining releaseReasonMarketRemain else mret tt);
  UpdateOrderExecution (r_ID order) (r_FilledAmount order) (r_FilledQuoteAmount order)
    (if Equal (r_FilledAmount order) (r_Amount order) then OrderStatusFilled else OrderStatusCancelled).

Definition complete_body (input : CompleteMarketOrderInput) : M unit :=
  order ← FindByIDForUpdate (cm_OrderID input);
  if negb (bool_decide (r_OrderType order = OrderTypeMarket))
  then throw (NewValidationErrorf "order %d is not a market order" [pretty (r_ID order)])
  else if bool_decide (r_Status order = OrderStatusFilled) || bool_decide (r_Status order = OrderStatusCancelled) then mret tt
  else if LessThan (r_FilledAmount order) (cm_FilledAmount input)
          || LessThan (r_FilledQuoteAmount order) (cm_FilledQuoteAmount input)
  then throw (NewConflictErrorf "market order %d settlement is not complete" [pretty (r_ID order)])
  else match r_Side order with
       | OrderSideBuy => completeMarketBuyOrder order input
       | OrderSideSell => completeMarketSellOrder order
       | _ => throw (NewValidationErrorf "invalid order side" [])
       end.

Definition CompleteMarketOrder (input : CompleteMarketOrderInput) : M unit :=
  if decide (cm_OrderID input = 0%N) then throw (NewValidationErrorf "order_id is required" [])
  else transaction (complete_body input).

(** ** Development funds *)

Definition normalizeFundWalletInput (userID : N) (coin amount key : string) : result error (N * string * decimal * string) :=
  if decide (userID = 0%N) then Err (NewValidationErrorf "user_id is required" [])
  else
    let coinSymbol := normalizeCoinSymbol coin in
    if decide (coinSymbol = "") then Err (NewValidationErrorf "coin_symbol is required" [])
    else
      amount ← parsePositiveDecimal amount "amount";
      match normalizeIdempotencyKey key with
      | Err _ => Err (NewValidationErrorf "request_key is required and must be 1..%d characters" [pretty maxIdempotencyKeyLength])
      | Ok requestKey => Ok (userID, coinSymbol, amount, requestKey)
      end.

Definition fund_input (userID : N) (coinSymbol : string) (amount : decimal) (requestKey : string) : JournalInput :=
  mkJournalInput JournalEventDevFund ("devfund:" +:+ pretty userID +:+ ":" +:+ coinSymbol +:+ ":" +:+ requestKey)
    JournalReferenceDevFund userID None
    [mkPostingInput AccountDevMint None coinSymbol (Neg amount);
     mkPostingInput AccountUserAvailable (Some userID) coinSymbol amount].

Definition FundWallet (userID : N) (coin amount key : string) : M UserAssetBalance :=
  '(userID, coinSymbol, amount, requestKey) ← lift (normalizeFundWalletInput userID coin amount key);
  _ ← transaction (_ ← Record_ (fund_input userID coinSymbol amount requestKey); mret tt);
  balances ← ListUserBalances userID;
  match filter (fun b => ub_Asset b = coinSymbol) balances with
  | balance :: _ => mret balance
  | [] => throw (Errorf "funded balance for %s was not found" [coinSymbol])
  end.

(** ** Listings *)

Definition ListWallets (userID : N) : M (list UserAssetBalance) :=
  if decide (userID = 0%N) then throw (NewValidationErrorf "user_id is required" []) else ListUserBalances userID.

Definition ListOrders (userID : N) (status coinSymbol : string) (limit : Z) : M (list OrderRow) :=
  if decide (userID = 0%N) then throw (NewValidationErrorf "user_id is required" [])
  else
    status ← (if decide (TrimSpace status <> "") then st ← lift (parseOrderStatus status); mret (Some st) else mret None);
    ListByUserID userID (mkOrderListFilter status (normalizeCoinSymbol coinSymbol) (normalizeQueryLimit limit)).

Definition GetOrder (userID orderID : N) : M OrderRow :=
  if decide (userID = 0%N) then throw (NewValidationErrorf "user_id is required" [])
  else if decide (orderID = 0%N) then throw (NewValidationErrorf "order_id is required" [])
  else FindByUserIDAndID userID orderID.

Definition ListTrades (userID : N) (coinSymbol : string) (limit : Z) : M (list (Trade * OrderSide)) :=
  if decide (userID = 0%N) then throw (NewValidationErrorf "user_id is required" [])
  else ListTradesByUserID userID (mkTradeListFilter (normalizeCoinSymbol coinSymbol) (normalizeQueryLimit limit)).
End OrderService.
