(* ===== verification/Transfers.v ===== *)
(** * Deposits and withdrawals

    [service/transfer_service.go], [repository/transfer_repository.go],
    [service/fake_transfer_processor.go] and [service/transfer_status_poller.go]:
    accepting a request, submitting it to the outside, and resolving it by
    callbacks and polls.  Times are nanoseconds. *)
From S2P Require Import Prelude Decimal Model Errors Fee Database Ledger OrderLedger Idempotency OrderService.
From Stdlib Require Import Lia.

Definition IsTerminalStatus (s : TransferStatus) : bool :=
  bool_decide (s = TransferStatusCompleted) || bool_decide (s = TransferStatusFailed).
Definition IsTerminalOutcome (o : TransferOutcome) : bool :=
  bool_decide (o = TransferOutcomeSuccess) || bool_decide (o = TransferOutcomeFailure).

Definition TransferOutcome_string (o : TransferOutcome) : string :=
  match o with
  | TransferOutcomeSuccess => "SUCCESS" | TransferOutcomeFailure => "FAILURE" | TransferOutcomePending => "PENDING"
  | TransferOutcomeUnknown => "UNKNOWN" | TransferOutcomeOther value => value
  end.
Definition TransferDirection_string (d : TransferDirection) : string :=
  match d with TransferDirectionDeposit => "DEPOSIT" | TransferDirectionWithdrawal => "WITHDRAWAL" end.
Definition TransferRail_string (r : TransferRail) : string :=
  match r with TransferRailBank => "BANK" | TransferRailChain => "CHAIN" | TransferRailOther value => value end.

Definition ReviewReasonExternalUnknown : string := "EXTERNAL_UNKNOWN".
Definition ReviewReasonExternalUnreachable : string := "EXTERNAL_UNREACHABLE".
Definition ReviewReasonPendingTooLong : string := "PENDING_TOO_LONG".
Definition ReviewReasonConflictingTerminalOutcome : string := "CONFLICTING_TERMINAL_OUTCOME".
Definition ReviewReasonTerminalBeforeDispatch : string := "TERMINAL_BEFORE_DISPATCH".

(** ** Poll schedule *)

Definition second : Z := 1000000000.
Definition pollBaseInterval : Z := 10 * second.
Definition pollMaxInterval : Z := 3600 * second.
Definition pollReviewThreshold : Z := 30 * 60 * second.

Fixpoint double_interval (n : nat) (interval : Z) : Z :=
  match n with
  | O => interval
  | S n' => let interval := interval * 2 in if pollMaxInterval <=? interval then pollMaxInterval else double_interval n' interval
  end.
Definition backoffInterval (attempts : Z) : Z :=
  if attempts <=? 1 then pollBaseInterval else double_interval (Z.to_nat (attempts - 1)) pollBaseInterval.

Inductive pollFailureKind := pollFailureUnknown | pollFailurePending | pollFailureUnreachable.

Definition reviewReasonForPollFailure (kind : pollFailureKind) (now createdAt : Z) : option string :=
  match kind with
  | pollFailureUnknown => Some ReviewReasonExternalUnknown
  | pollFailurePending => if pollReviewThreshold <=? now - createdAt then Some ReviewReasonPendingTooLong else None
  | pollFailureUnreachable => if pollReviewThreshold <=? now - createdAt then Some ReviewReasonExternalUnreachable else None
  end.

Definition transferPayloadAllowedFields : list string :=
  ["external_id"; "status_code"; "reason"; "amount"; "asset"; "external_timestamp"].
(** The object stored; [None] stands for NULL. *)
Definition encodeTransferPayload (payload : Payload) : option Payload :=
  let allowed := filter (fun '(key, _) => key ∈ transferPayloadAllowedFields) payload in
  if decide (allowed = ∅) then None else Some allowed.
Definition failureReasonFromPayload (payload : Payload) : string :=
  match payload !! "reason" with Some (JString s) => s | _ => "" end.

Section Transfers.
Context {DL : DecimalLib}.

(** ** Repository *)

(** Columns of a limited length. *)
Definition too_long (s : string) (size : nat) : bool := (size <? RuneCountInString s)%nat.

(** CHECK constraints of transfer_requests. *)
Definition transfer_checks (r : TransferRequest) : bool :=
  bool_decide (tq_Rail r = TransferRailBank \/ tq_Rail r = TransferRailChain)
  && IsPositive (tq_Amount r) && negb (IsNegative (tq_FeeAmount r))
  && (bool_decide (tq_Rail r <> TransferRailBank) || bool_decide (tq_Asset r = KRWAssetSymbol))
  && (bool_decide (tq_Direction r <> TransferDirectionDeposit) || bool_decide (tq_HoldJournalID r = None))
  && (bool_decide (tq_Status r <> TransferStatusCompleted) || bool_decide (tq_ResolutionJournalID r <> None))
  && (bool_decide (tq_Status r <> TransferStatusFailed) || bool_decide (tq_Direction r <> TransferDirectionWithdrawal)
      || bool_decide (tq_ResolutionJournalID r <> None))
  && (bool_decide (tq_Status r = TransferStatusReceived) || bool_decide (tq_ExternalRef r <> None))
  && match tq_ReviewRequiredAt r, tq_ReviewReason r with
     | None, None => true
     | Some _, Some reason => bool_decide (reason <> "")
     | _, _ => false
     end.

Definition transfer_pair (r : TransferRequest) : N * string := (tq_UserID r, tq_ClientRequestKey r).
Definition transfers (t : Tables) : list TransferRequest := map snd (map_to_list (tb_transfers t)).
Definition find_request (t : Tables) (pair : N * string) : option TransferRequest :=
  snd <$> list_find (fun r => transfer_pair r = pair) (transfers t).

(** INSERT ... ON CONFLICT (user_id, client_request_key) DO NOTHING: the row with
    its id, if one was inserted. *)
Definition insert_request (request : TransferRequest) : M (option TransferRequest) :=
  _ ← stmt;
  id ← nextval "transfer_requests";
  t ← get_db;
  let row := request <| tq_ID := id |> in
  if too_long (tq_Asset row) 16 || too_long (tq_FeeAsset row) 16 || too_long (tq_ClientRequestKey row) 128 then throw (DBError "22001")
  else if negb (transfer_checks row) then throw (ConstraintViolation "transfer_requests")
  else match find_request t (transfer_pair row) with
       | Some _ => mret None
       | None => _ ← put_db (t <| tb_transfers := <[id := row]> (tb_transfers t) |>); mret (Some row)
       end.

(** [tx] is how a single write runs: on its own, or in the caller's transaction. *)
Definition InsertOrGetByUserRequestKey (tx : M (option TransferRequest) -> M (option TransferRequest)) (request : TransferRequest)
    : M (bool * TransferRequest) :=
  created ← tx (insert_request request);
  match created with
  | Some row => mret (true, row)
  | None =>
      existing ← query (fun t => find_request t (transfer_pair request));
      match existing with
      | Some row => mret (false, row)
      | None => throw (Errorf "transfer request key %q conflicted but was not found" [tq_ClientRequestKey request])
      end
  end.

Definition LockByID (id : N) : M TransferRequest :=
  row ← query (fun t => tb_transfers t !! id);
  match row with Some request => mret request | None => throw ErrRecordNotFound end.

Definition FindByExternalRef (ref : string) : M TransferRequest :=
  row ← query (fun t => snd <$> list_find (fun r => tq_ExternalRef r = Some ref) (transfers t));
  match row with Some request => mret request | None => throw ErrRecordNotFound end.

Definition ref_taken (t : Tables) (id : N) (r : TransferRequest) : bool :=
  match tq_ExternalRef r with
  | None => false
  | Some ref => bool_decide (Exists (fun x => tq_ID x <> id /\ tq_ExternalRef x = Some ref) (transfers t))
  end.

(** UPDATE ... WHERE id = ? AND [guard], through [requireRowsAffected]. *)
Definition update_request (operation : string) (id : N) (guard : TransferRequest -> bool) (f : TransferRequest -> TransferRequest) : M unit :=
  _ ← stmt;
  t ← get_db;
  match tb_transfers t !! id with
  | Some r =>
      if guard r then
        let r' := f r in
        if match tq_ExternalRef r' with Some ref => too_long ref 128 | None => false end then throw (DBError "22001")
        else if negb (transfer_checks r') then throw (ConstraintViolation "transfer_requests")
        else if ref_taken t id r' then throw (ConstraintViolation "transfer_requests_external_ref_unique")
        else put_db (t <| tb_transfers := <[id := r']> (tb_transfers t) |>)
      else throw (Errorf "%s affected no rows" [operation])
  | None => throw (Errorf "%s affected no rows" [operation])
  end.

Definition has_status (status : TransferStatus) (r : TransferRequest) : bool := bool_decide (tq_Status r = status).

Definition SetHoldJournal (id journalID : N) : M unit :=
  update_request "transfer hold journal update" id (fun _ => true) (fun r => r <| tq_HoldJournalID := Some journalID |>).

Definition SetDispatched (id : N) (externalRef : string) (nextCheckAt : Z) : M unit :=
  update_request "transfer dispatch update" id (has_status TransferStatusReceived) (fun r =>
    r <| tq_Status := TransferStatusProcessing |> <| tq_ExternalRef := Some externalRef |>
      <| tq_NextCheckAt := Some nextCheckAt |> <| tq_CheckAttempts := 0 |>).

Definition AdvanceDispatchSchedule (id : N) (nextCheckAt attempts : Z) : M unit :=
  update_request "transfer dispatch schedule update" id (has_status TransferStatusReceived) (fun r =>
    r <| tq_NextCheckAt := Some nextCheckAt |> <| tq_CheckAttempts := attempts |>).

(** INSERT ... ON CONFLICT (event_key) DO NOTHING: whether a row was inserted. *)
Definition InsertEventIfAbsent (event : TransferStatusEvent) : M bool :=
  _ ← stmt;
  id ← nextval "transfer_status_events";
  t ← get_db;
  if too_long (te_EventKey event) 160 then throw (DBError "22001")
  else if match te_Outcome event with TransferOutcomeOther _ => true | _ => false end then throw (ConstraintViolation "transfer_status_events_enum_check")
  else if decide (Exists (fun e => te_EventKey e = te_EventKey event) (tb_transfer_events t)) then mret false
  else match tb_transfers t !! te_TransferRequestID event with
       | None => throw (ConstraintViolation "transfer_status_events_request_fk")
       | Some _ =>
           let row := mkTransferStatusEvent id (te_TransferRequestID event) (te_Source event) (te_EventKey event) (te_Outcome event)
                        (te_Payload event) (te_ReceivedAt event) in
           _ ← put_db (t <| tb_transfer_events := tb_transfer_events t ++ [row] |>); mret true
       end.

Definition repo_ConfirmTerminal (id : N) (status : TransferStatus) (journalID : option N) (failureReason : string) : M unit :=
  update_request "transfer confirm update" id (has_status TransferStatusProcessing) (fun r =>
    r <| tq_Status := status |> <| tq_ResolutionJournalID := journalID |> <| tq_ReviewRequiredAt := None |>
      <| tq_ReviewReason := None |> <| tq_NextCheckAt := None |> <| tq_FailureReason := failureReason |>).

Definition flagged (reason : string) (at_ : Z) (r : TransferRequest) : TransferRequest :=
  r <| tq_ReviewRequiredAt := Some (default at_ (tq_ReviewRequiredAt r)) |> <| tq_ReviewReason := Some reason |>.

Definition SetReviewRequired (id : N) (reason : string) (at_ : Z) : M unit :=
  update_request "transfer review flag update" id (fun _ => true) (flagged reason at_).

Definition UpdatePollSchedule (id : N) (checkedAt nextCheckAt attempts : Z) (reviewReason : option string) : M unit :=
  update_request "transfer poll schedule update" id (has_status TransferStatusProcessing) (fun r =>
    let r := r <| tq_LastCheckedAt := Some checkedAt |> <| tq_NextCheckAt := Some nextCheckAt |> <| tq_CheckAttempts := attempts |> in
    match reviewReason with Some reason => flagged reason checkedAt r | None => r end).

(** ORDER BY next_check_at ASC NULLS FIRST, id ASC *)
Definition due_before (x y : TransferRequest) : Prop :=
  match tq_NextCheckAt x, tq_NextCheckAt y with
  | None, None => (tq_ID x <= tq_ID y)%N
  | None, Some _ => True
  | Some _, None => False
  | Some a, Some b => a < b \/ (a = b /\ (tq_ID x <= tq_ID y)%N)
  end.
#[export] Instance due_before_dec : RelDecision due_before.
Proof. intros x y. unfold due_before. repeat case_match; apply _. Defined.

Definition is_due (now : Z) (r : TransferRequest) : Prop :=
  (tq_Status r = TransferStatusReceived \/ tq_Status r = TransferStatusProcessing)
  /\ match tq_NextCheckAt r with None => True | Some at_ => at_ <= now end.
#[export] Instance is_due_dec now r : Decision (is_due now r).
Proof. unfold is_due. case_match; apply _. Defined.

Definition DueForCheck (now limit : Z) : M (list TransferRequest) :=
  if limit <=? 0 then throw (Errorf "limit must be greater than zero" [])
  else query (fun t => take (Z.to_nat limit) (merge_sort due_before (filter (is_due now) (transfers t)))).

(** ORDER BY id DESC LIMIT ? *)
Definition by_id_desc (x y : TransferRequest) : Prop := (tq_ID y <= tq_ID x)%N.
#[export] Instance by_id_desc_dec : RelDecision by_id_desc.
Proof. intros x y. unfold by_id_desc. apply _. Defined.
Definition ListByUser (userID : N) (limit : Z) : M (list TransferRequest) :=
  query (fun t => take (Z.to_nat limit) (merge_sort by_id_desc (filter (fun r => tq_UserID r = userID) (transfers t)))).
(** ** Accepting requests *)

Definition normalizeTransferInput (userID : N) (rail : TransferRail) (asset rawAmount rawClientKey : string)
    : result error (string * decimal * string) :=
  if decide (userID = 0%N) then Err (NewValidationErrorf "user_id is required" [])
  else if negb (bool_decide (rail = TransferRailBank \/ rail = TransferRailChain)) then Err (NewValidationErrorf "invalid rail" [])
  else
    let normalizedAsset := normalizeCoinSymbol asset in
    if decide (normalizedAsset = "") then Err (NewValidationErrorf "asset is required" [])
    else if bool_decide (rail = TransferRailBank) && negb (bool_decide (normalizedAsset = KRWAssetSymbol))
    then Err (NewValidationErrorf "bank rail requires KRW" [])
    else
      amount ← parsePositiveDecimal rawAmount "amount";
      match normalizeIdempotencyKey rawClientKey with
      | Err _ => Err (NewValidationErrorf "client_request_key is required and must be 1..%d characters" [pretty maxIdempotencyKeyLength])
      | Ok clientKey => Ok (normalizedAsset, amount, clientKey)
      end.

Definition sameTransferBody (existing : TransferRequest) (direction : TransferDirection) (rail : TransferRail) (asset : string)
    (amount : decimal) : bool :=
  bool_decide (tq_Direction existing = direction) && bool_decide (tq_Rail existing = rail)
  && bool_decide (tq_Asset existing = asset) && Equal (tq_Amount existing) amount.

Definition new_request (now : Z) (userID : N) (direction : TransferDirection) (rail : TransferRail) (asset : string) (amount : decimal)
    (clientKey : string) : TransferRequest :=
  mkTransferRequest 0 userID direction rail asset amount Zero asset TransferStatusReceived clientKey None None None None None 0 None None "" now.

Definition reused_key (clientKey : string) : error :=
  NewConflictErrorf "client_request_key %q was already used with a different request" [clientKey].

(** The first half of [RequestDeposit]: the request row. *)
Definition accept_deposit (now : Z) (userID : N) (rail : TransferRail) (asset amount clientKey : string) : M TransferRequest :=
  '(asset, amount, clientKey) ← lift (normalizeTransferInput userID rail asset amount clientKey);
  '(created, result) ← InsertOrGetByUserRequestKey transaction (new_request now userID TransferDirectionDeposit rail asset amount clientKey);
  if negb created && negb (sameTransferBody result TransferDirectionDeposit rail asset amount) then throw (reused_key clientKey)
  else mret result.

Definition withdraw_hold_key (id : N) : string := "withdraw-hold:" +:+ pretty id.
Definition withdraw_hold_input (id userID : N) (asset : string) (locked : decimal) : JournalInput :=
  mkJournalInput JournalEventWithdrawal (withdraw_hold_key id) JournalReferenceTransfer id None
    [mkPostingInput AccountUserAvailable (Some userID) asset (Neg locked); mkPostingInput AccountUserLocked (Some userID) asset locked].

Definition withdrawal_body (now : Z) (userID : N) (rail : TransferRail) (asset : string) (amount : decimal) (clientKey : string)
    : M TransferRequest :=
  '(created, existing) ← InsertOrGetByUserRequestKey id (new_request now userID TransferDirectionWithdrawal rail asset amount clientKey);
  if negb created then
    if negb (sameTransferBody existing TransferDirectionWithdrawal rail asset amount) then throw (reused_key clientKey) else mret existing
  else
    let locked := Add amount (tq_FeeAmount existing) in
    '(entry, _) ← Record_ (withdraw_hold_input (tq_ID existing) userID asset locked);
    _ ← SetHoldJournal (tq_ID existing) (j_ID entry);
    mret existing.

(** The first half of [RequestWithdrawal]. *)
Definition accept_withdrawal (now : Z) (userID : N) (rail : TransferRail) (asset amount clientKey : string) : M TransferRequest :=
  '(asset, amount, clientKey) ← lift (normalizeTransferInput userID rail asset amount clientKey);
  transaction (withdrawal_body now userID rail asset amount clientKey).

(** ** Confirming *)

Definition matchesTerminalOutcome (status : TransferStatus) (outcome : TransferOutcome) : bool :=
  match status with
  | TransferStatusCompleted => bool_decide (outcome = TransferOutcomeSuccess)
  | TransferStatusFailed => bool_decide (outcome = TransferOutcomeFailure)
  | _ => false
  end.

Definition deposit_settle_key (ref : string) : string := "deposit-settle:" +:+ ref.
Definition withdraw_settle_key (ref : string) : string := "withdraw-settle:" +:+ ref.
Definition withdraw_refund_key (ref : string) : string := "withdraw-refund:" +:+ ref.

Definition externalAccountType (r : TransferRequest) : string :=
  if decide (tq_Rail r = TransferRailChain) then AccountExternalChain else AccountExternalBank.

Definition deposit_settle_input (r : TransferRequest) (ref : string) : JournalInput :=
  mkJournalInput JournalEventDeposit (deposit_settle_key ref) JournalReferenceTransfer (tq_ID r) None
    [mkPostingInput (externalAccountType r) None (tq_Asset r) (Neg (tq_Amount r));
     mkPostingInput AccountUserAvailable (Some (tq_UserID r)) (tq_Asset r) (tq_Amount r)].

Definition withdraw_settle_input (r : TransferRequest) (ref : string) : JournalInput :=
  let locked := Add (tq_Amount r) (tq_FeeAmount r) in
  mkJournalInput JournalEventWithdrawal (withdraw_settle_key ref) JournalReferenceTransfer (tq_ID r) None
    ([mkPostingInput AccountUserLocked (Some (tq_UserID r)) (tq_Asset r) (Neg locked);
      mkPostingInput (externalAccountType r) None (tq_Asset r) (tq_Amount r)]
     ++ if IsPositive (tq_FeeAmount r) then [mkPostingInput AccountFeeIncome None (tq_FeeAsset r) (tq_FeeAmount r)] else []).

Definition withdraw_refund_input (r : TransferRequest) (ref : string) : JournalInput :=
  let locked := Add (tq_Amount r) (tq_FeeAmount r) in
  mkJournalInput JournalEventWithdrawal (withdraw_refund_key ref) JournalReferenceTransfer (tq_ID r) None
    [mkPostingInput AccountUserLocked (Some (tq_UserID r)) (tq_Asset r) (Neg locked);
     mkPostingInput AccountUserAvailable (Some (tq_UserID r)) (tq_Asset r) locked].

(** The journal of a confirmation; [None] when nothing moves. *)
Definition confirmation_input (r : TransferRequest) (ref : string) (outcome : TransferOutcome) : result error (option JournalInput) :=
  match tq_Direction r, outcome with
  | TransferDirectionDeposit, TransferOutcomeSuccess => Ok (Some (deposit_settle_input r ref))
  | TransferDirectionDeposit, TransferOutcomeFailure => Ok None
  | TransferDirectionWithdrawal, TransferOutcomeSuccess => Ok (Some (withdraw_settle_input r ref))
  | TransferDirectionWithdrawal, TransferOutcomeFailure => Ok (Some (withdraw_refund_input r ref))
  | _, _ => Err (Errorf "unhandled direction/outcome combination: %s/%s" [TransferDirection_string (tq_Direction r); TransferOutcome_string outcome])
  end.

Definition recordConfirmationJournal (r : TransferRequest) (outcome : TransferOutcome) : M (option N) :=
  match tq_ExternalRef r with
  | None => throw (Errorf "transfer request %d is PROCESSING without an external_ref" [pretty (tq_ID r)])
  | Some ref =>
      input ← lift (confirmation_input r ref outcome);
      match input with
      | None => mret None
      | Some i => '(entry, _) ← Record_ i; mret (Some (j_ID entry))
      end
  end.

Definition confirmTerminal (r : TransferRequest) (outcome : TransferOutcome) (payload : Payload) : M unit :=
  journalID ← recordConfirmationJournal r outcome;
  if decide (outcome = TransferOutcomeSuccess) then repo_ConfirmTerminal (tq_ID r) TransferStatusCompleted journalID ""
  else repo_ConfirmTerminal (tq_ID r) TransferStatusFailed journalID (failureReasonFromPayload payload).

Record ResolveInput := mkResolveInput {
  ri_TransferRequestID : N; ri_Source : TransferEventSource; ri_EventKey : string; ri_Outcome : TransferOutcome; ri_Payload : Payload }.

Definition resolve_event (i : ResolveInput) (now : Z) : TransferStatusEvent :=
  mkTransferStatusEvent 0 (ri_TransferRequestID i) (ri_Source i) (ri_EventKey i) (ri_Outcome i) (encodeTransferPayload (ri_Payload i)) now.

Definition resolve_body (now : Z) (i : ResolveInput) : M unit :=
  request ← LockByID (ri_TransferRequestID i);
  created ← InsertEventIfAbsent (resolve_event i now);
  if negb created then mret tt
  else match tq_Status request with
       | TransferStatusReceived => SetReviewRequired (tq_ID request) ReviewReasonTerminalBeforeDispatch now
       | TransferStatusProcessing => confirmTerminal request (ri_Outcome i) (ri_Payload i)
       | status =>
           if matchesTerminalOutcome status (ri_Outcome i) then mret tt
           else SetReviewRequired (tq_ID request) ReviewReasonConflictingTerminalOutcome now
       end.

Definition ResolveTransfer (now : Z) (i : ResolveInput) : M unit :=
  if negb (IsTerminalOutcome (ri_Outcome i)) then throw (Errorf "ResolveTransfer requires a terminal outcome, got %s" [TransferOutcome_string (ri_Outcome i)])
  else if decide (ri_TransferRequestID i = 0%N \/ ri_EventKey i = "") then throw (Errorf "transfer_request_id and event_key are required" [])
  else transaction (resolve_body now i).

(** ** Observing *)

Definition advancePollSchedule (now : Z) (request : TransferRequest) (kind : pollFailureKind) : M unit :=
  let attempts := tq_CheckAttempts request + 1 in
  UpdatePollSchedule (tq_ID request) now (now + backoffInterval attempts) attempts
    (reviewReasonForPollFailure kind now (tq_CreatedAt request)).

Definition updatePollSchedule (now : Z) (request : TransferRequest) (outcome : TransferOutcome) : M unit :=
  advancePollSchedule now request (if decide (outcome = TransferOutcomeUnknown) then pollFailureUnknown else pollFailurePending).

Record ObservationInput := mkObservationInput {
  oi_TransferRequestID : N; oi_EventKey : string; oi_Outcome : TransferOutcome; oi_Payload : Payload }.

Definition observe_body (now : Z) (i : ObservationInput) : M unit :=
  request ← LockByID (oi_TransferRequestID i);
  created ← InsertEventIfAbsent (mkTransferStatusEvent 0 (oi_TransferRequestID i) TransferEventSourcePoll (oi_EventKey i) (oi_Outcome i)
    (encodeTransferPayload (oi_Payload i)) now);
  if negb created then mret tt
  else match tq_Status request with
       | TransferStatusProcessing => updatePollSchedule now request (oi_Outcome i)
       | TransferStatusReceived =>
           throw (Errorf "RecordObservation called for transfer request %d that has not been dispatched yet" [pretty (tq_ID request)])
       | _ => mret tt
       end.

Definition RecordObservation (now : Z) (i : ObservationInput) : M unit :=
  if IsTerminalOutcome (oi_Outcome i) then throw (Errorf "RecordObservation requires a non-terminal outcome, got %s" [TransferOutcome_string (oi_Outcome i)])
  else if decide (oi_TransferRequestID i = 0%N \/ oi_EventKey i = "") then throw (Errorf "transfer_request_id and event_key are required" [])
  else transaction (observe_body now i).

Definition check_failure_body (now : Z) (id : N) : M unit :=
  request ← LockByID id;
  if negb (has_status TransferStatusProcessing request) then mret tt
  else advancePollSchedule now request pollFailureUnreachable.
Definition HandleStatusCheckFailure (now : Z) (id : N) : M unit := transaction (check_failure_body now id).

Definition dispatch_failure_body (now : Z) (id : N) : M unit :=
  request ← LockByID id;
  if negb (has_status TransferStatusReceived request) then mret tt
  else
    let attempts := tq_CheckAttempts request + 1 in
    AdvanceDispatchSchedule (tq_ID request) (now + backoffInterval attempts) attempts.
Definition HandleDispatchFailure (now : Z) (id : N) : M unit := transaction (dispatch_failure_body now id).
End Transfers.

(** ** The outside *)

(** [ExternalTransferProcessor]; its state is its own. *)
Class ExternalTransferProcessor {DL : DecimalLib} := {
  processor : Type;
  Submit : string -> TransferRequest -> processor -> result error string * processor;
  GetTransferStatus : string -> processor -> result error (TransferOutcome * Payload) * processor }.

(** [FakeTransferProcessor]: the outcomes by reference. *)
#[export] Instance FakeTransferProcessor {DL : DecimalLib} : ExternalTransferProcessor := {|
  processor := gmap string (TransferOutcome * Payload);
  Submit := fun dispatchKey req p =>
    let ref := "FAKE-" +:+ TransferRail_string (tq_Rail req) +:+ "-" +:+ dispatchKey in
    (Ok ref, match p !! ref with Some _ => p | None => <[ref := (TransferOutcomePending, ∅)]> p end);
  GetTransferStatus := fun externalRef p => (Ok (default (TransferOutcomePending, ∅) (p !! externalRef)), p) |}.

Definition SetResult {DL : DecimalLib} (externalRef : string) (outcome : TransferOutcome) (payload : Payload)
    (p : processor (ExternalTransferProcessor := FakeTransferProcessor)) : processor (ExternalTransferProcessor := FakeTransferProcessor) :=
  <[externalRef := (outcome, payload)]> (p : gmap string (TransferOutcome * Payload)).

Section Outside.
Context {DL : DecimalLib} {ETP : ExternalTransferProcessor}.

(** The second half of [Dispatch]: what the answer of [Submit] leads to. *)
Definition dispatched (now : Z) (request : TransferRequest) (answer : result error string) : M unit :=
  match answer with
  | Err err => _ ← HandleDispatchFailure now (tq_ID request); throw err
  | Ok externalRef => transaction (SetDispatched (tq_ID request) externalRef (now + pollBaseInterval))
  end.

Definition Dispatch (now : Z) (request : TransferRequest) (w : World) (p : processor) : result error unit * World * processor :=
  if negb (has_status TransferStatusReceived request) then (Ok tt, w, p)
  else
    let '(answer, p) := Submit ("transfer:" +:+ pretty (tq_ID request)) request p in
    let '(r, w) := dispatched now request answer w in (r, w, p).

Definition dispatchAndReload (now : Z) (request : TransferRequest) (w : World) (p : processor) : result error TransferRequest * World * processor :=
  let '(_, w, p) := Dispatch now request w p in
  let '(r, w) := LockByID (tq_ID request) w in (r, w, p).

Definition RequestDeposit (now : Z) (userID : N) (rail : TransferRail) (asset amount clientKey : string) (w : World) (p : processor)
    : result error TransferRequest * World * processor :=
  match accept_deposit now userID rail asset amount clientKey w with
  | (Err e, w) => (Err e, w, p)
  | (Ok request, w) => dispatchAndReload now request w p
  end.

Definition RequestWithdrawal (now : Z) (userID : N) (rail : TransferRail) (asset amount clientKey : string) (w : World) (p : processor)
    : result error TransferRequest * World * processor :=
  match accept_withdrawal now userID rail asset amount clientKey w with
  | (Err e, w) => (Err e, w, p)
  | (Ok request, w) => dispatchAndReload now request w p
  end.

(** ** The poller *)

Definition defaultTransferPollBatch : Z := 64.

Definition checkStatus (now : Z) (request : TransferRequest) (w : World) (p : processor) : World * processor :=
  match tq_ExternalRef request with
  | None => (w, p)
  | Some ref =>
      let '(answer, p) := GetTransferStatus ref p in
      match answer with
      | Err _ => ((HandleStatusCheckFailure now (tq_ID request) w).2, p)
      | Ok (outcome, payload) =>
          let eventKey := "poll:" +:+ pretty (tq_ID request) +:+ ":" +:+ pretty (tq_CheckAttempts request + 1) in
          if IsTerminalOutcome outcome
          then ((ResolveTransfer now (mkResolveInput (tq_ID request) TransferEventSourcePoll eventKey outcome payload) w).2, p)
          else ((RecordObservation now (mkObservationInput (tq_ID request) eventKey outcome payload) w).2, p)
      end
  end.

Definition poll_one (now : Z) (wp : World * processor) (request : TransferRequest) : World * processor :=
  let '(w, p) := wp in
  match tq_Status request with
  | TransferStatusReceived => let '(_, w, p) := Dispatch now request w p in (w, p)
  | TransferStatusProcessing => checkStatus now request w p
  | _ => (w, p)
  end.

Definition poll_batch (batch : Z) : Z := if 0 <? batch then batch else defaultTransferPollBatch.

Definition RunOnce (now batch : Z) (w : World) (p : processor) : World * processor :=
  match DueForCheck now (poll_batch batch) w with
  | (Err _, w) => (w, p)
  | (Ok requests, w) => foldl (poll_one now) (w, p) requests
  end.
End Outside.

(** ** The schedule *)

Lemma double_interval_value n i : 0 < i < pollMaxInterval -> double_interval n i = Z.min pollMaxInterval (i * 2 ^ Z.of_nat n).
Proof.
  revert i. induction n as [|n IH]; intros i Hi; cbn [double_interval].
  - rewrite Z.mul_1_r. lia.
  - rewrite Nat2Z.inj_succ, Z.pow_succ_r by lia. assert (0 < 2 ^ Z.of_nat n) by (apply Z.pow_pos_nonneg; lia).
    destruct (Z.leb_spec pollMaxInterval (i * 2)); [rewrite Z.min_l by nia; done|].
    rewrite IH by lia. f_equal. lia.
Qed.

(** Polls and submissions back off as documented: ten seconds for the first
    attempt, twice as long after each one, and never more than an hour, so the
    interval stays far below the range of a [time.Duration] however many attempts
    were made. *)
Theorem backoff_doubles attempts :
  backoffInterval attempts = Z.min pollMaxInterval (pollBaseInterval * 2 ^ Z.max 0 (attempts - 1)).
Proof.
  unfold backoffInterval. destruct (Z.leb_spec attempts 1) as [Hle|Hlt].
  - rewrite Z.max_l by lia. done.
  - rewrite double_interval_value by done. rewrite Z2Nat.id, Z.max_r by lia. done.
Qed.
