(* ===== verification/TransferInv.v ===== *)
(** * Transfers in a well-formed store

    What holds of the transfer tables between calls: requests are stored under
    their ids, client keys and external references are unique, a request has a
    reference exactly when it has been submitted, and the journals of transfers
    belong to requests, those that confirm one to a request that is closed. *)
From S2P Require Import Prelude Decimal Model Errors Fee Database Ledger LedgerInv OrderLedger Transfers.
From Stdlib Require Import Lia.

Section TransferInv.
Context {DL : DecimalLib} {DLaws : DecimalLaws DL}.
Local Open Scope Q_scope.

(** ** What a withdrawal holds *)

Definition locked_amount (r : TransferRequest) : Q := dval (tq_Amount r) + dval (tq_FeeAmount r).

Definition pending_withdrawal (r : TransferRequest) : Prop :=
  tq_Direction r = TransferDirectionWithdrawal /\ (tq_Status r = TransferStatusReceived \/ tq_Status r = TransferStatusProcessing).
#[export] Instance pending_withdrawal_dec r : Decision (pending_withdrawal r).
Proof. unfold pending_withdrawal. apply _. Defined.

Definition withheld (u : N) (a : string) (r : TransferRequest) : Q :=
  if decide (tq_UserID r = u /\ tq_Asset r = a /\ pending_withdrawal r) then locked_amount r else 0.

(** ** Journals of transfers *)

Definition confirm_keys (ref : string) : list string := [deposit_settle_key ref; withdraw_settle_key ref; withdraw_refund_key ref].

Definition transfer_key (k : string) : Prop := (exists id, k = withdraw_hold_key id) \/ exists ref, k ∈ confirm_keys ref.

Lemma withdraw_hold_key_inj i j : withdraw_hold_key i = withdraw_hold_key j -> i = j.
Proof. unfold withdraw_hold_key. intros H. apply (inj pretty). by simplify_eq/=. Qed.

Lemma confirm_keys_inj k ref ref' : k ∈ confirm_keys ref -> k ∈ confirm_keys ref' -> ref = ref'.
Proof.
  unfold confirm_keys, deposit_settle_key, withdraw_settle_key, withdraw_refund_key. rewrite !elem_of_cons, !elem_of_nil.
  intros [->|[->|[->|[]]]] [E|[E|[E|[]]]]; by injection E.
Qed.

Lemma hold_not_confirm id ref : withdraw_hold_key id ∉ confirm_keys ref.
Proof. unfold confirm_keys. rewrite !elem_of_cons, elem_of_nil. by intros [E|[E|[E|[]]]]. Qed.

(** ** The invariant *)

(** What the database enforces of a row. *)
Definition columns_ok (r : TransferRequest) : Prop :=
  transfer_checks r = true /\ match tq_ExternalRef r with Some ref => too_long ref 128 = false | None => True end.

Record request_wf (r : TransferRequest) : Prop := {
  rw_user : tq_UserID r <> 0%N;
  rw_rail : tq_Rail r = TransferRailBank \/ tq_Rail r = TransferRailChain;
  rw_asset : tq_Asset r <> "";
  rw_amount : 0 < dval (tq_Amount r);
  rw_fee : 0 <= dval (tq_FeeAmount r) /\ tq_FeeAsset r = tq_Asset r;
  rw_ref : tq_ExternalRef r = None <-> tq_Status r = TransferStatusReceived;
  rw_columns : columns_ok r }.

Record transfers_ok (t : Tables) (s : Seqs) : Prop := {
  tr_ids : map_Forall (fun id r => tq_ID r = id /\ (0 < id <= seq_value s "transfer_requests")%N) (tb_transfers t);
  tr_wf : map_Forall (fun _ r => request_wf r) (tb_transfers t);
  tr_pairs : forall i j r r', tb_transfers t !! i = Some r -> tb_transfers t !! j = Some r' -> transfer_pair r = transfer_pair r' -> i = j;
  tr_refs : forall i j r r' ref, tb_transfers t !! i = Some r -> tb_transfers t !! j = Some r' ->
    tq_ExternalRef r = Some ref -> tq_ExternalRef r' = Some ref -> i = j;
  tr_held : forall id, find_journal t (withdraw_hold_key id) <> None -> is_Some (tb_transfers t !! id);
  tr_closed : forall ref k, k ∈ confirm_keys ref -> find_journal t k <> None ->
    exists id r, tb_transfers t !! id = Some r /\ tq_ExternalRef r = Some ref /\ IsTerminalStatus (tq_Status r) = true }.

Lemma transfers_ok_empty s : transfers_ok empty_tables s.
Proof. split; try done; intros ? ? ? ?; by rewrite lookup_empty. Qed.

(** Everything else leaves the transfers alone. *)
Lemma transfers_ok_frame t t' s s' : seq_le s s' -> tb_transfers t' = tb_transfers t ->
  (forall k, find_journal t' k <> None -> find_journal t k <> None \/ ~ transfer_key k) -> transfers_ok t s -> transfers_ok t' s'.
Proof.
  intros Hs Ht Hk [H1 H2 H3 H4 H5 H6]. split; rewrite ?Ht; try done.
  - intros id r Hr. destruct (H1 id r Hr) as [E Hle]. split; [done|]. specialize (Hs "transfer_requests"%string). lia.
  - intros id Hf. apply Hk in Hf as [Hf|Hn]; [by apply H5|]. destruct Hn. left. by exists id.
  - intros ref k Hin Hf. apply Hk in Hf as [Hf|Hn]; [by apply (H6 ref k)|]. destruct Hn. right. by exists ref.
Qed.

Lemma locked_amount_pos r : request_wf r -> 0 < locked_amount r.
Proof. intros Hr. unfold locked_amount. pose proof (rw_amount _ Hr). destruct (rw_fee _ Hr). lra. Qed.

Lemma withheld_nonneg t s u a : transfers_ok t s -> map_Forall (fun _ r => 0 <= withheld u a r) (tb_transfers t).
Proof.
  intros Hok id r Hr. unfold withheld. case_decide; [|lra]. pose proof (locked_amount_pos r (tr_wf _ _ Hok id r Hr)). lra.
Qed.
End TransferInv.
