(* ===== verification/LockedFunds.v ===== *)
(** * Locked funds are the holds of open orders and withdrawals

    The invariant of the whole service layer: on top of [store_ok], what is
    locked for a user in an asset is exactly what the user's open orders still
    need of it and what the user's pending withdrawals hold, and what an order has received is exactly the sum of its
    trades. *)
From S2P Require Import Prelude Decimal Model Errors Fee MarketRules Database Ledger LedgerInv LedgerSpec LedgerTheorems Sha256 OrderLedger Settlement TradePlan Store SettlementProofs Idempotency HoldCoordinator OrderService Transfers TransferInv.
From Stdlib Require Import Lia Ascii.

(** ** Idempotency keys of orders do not collide *)

Fixpoint before_colon (s : string) : string :=
  match s with
  | EmptyString => ""
  | String c s' => if decide (c = ":"%char) then "" else String c (before_colon s')
  end.
Fixpoint no_colon (s : string) : bool :=
  match s with EmptyString => true | String c s' => negb (bool_decide (c = ":"%char)) && no_colon s' end.

Lemma before_colon_app d r : no_colon d = true -> before_colon (d +:+ ":" +:+ r) = d.
Proof.
  induction d as [|c d IH]; intros H; [done|]. cbn [no_colon] in H. apply andb_true_iff in H as [Hc H].
  change (before_colon (String c (d +:+ ":" +:+ r)) = String c d). cbn [before_colon]. case_bool_decide as Hd; [done|].
  destruct (decide (c = ":"%char)); [done|]. by rewrite IH.
Qed.

Lemma no_colon_pretty (n : N) : no_colon (pretty n) = true.
Proof.
  unfold pretty, pretty_N. case_decide; [done|]. clear.
  assert (Hgen : forall s, no_colon s = true -> no_colon (pretty_N_go n s) = true); [|by apply Hgen].
  induction (N.lt_wf_0 n) as [n _ IH]. intros s Hs. destruct (decide (n = 0%N)) as [->|Hn]; [by rewrite pretty_N_go_0|].
  rewrite pretty_N_go_step by lia. apply IH; [apply N.div_lt; lia|]. cbn. rewrite Hs, andb_true_r.
  unfold pretty_N_char. by repeat case_match.
Qed.

Lemma order_release_key_inj a r b r' : order_release_key a r = order_release_key b r' -> a = b.
Proof.
  unfold order_release_key. intros H. assert (H' : pretty a +:+ ":" +:+ r = pretty b +:+ ":" +:+ r') by (by simplify_eq/=).
  apply (f_equal before_colon) in H'. rewrite !before_colon_app in H' by apply no_colon_pretty. by apply (inj pretty).
Qed.

Lemma order_hold_key_inj a b : order_hold_key a = order_hold_key b -> a = b.
Proof. unfold order_hold_key. intros H. apply (inj pretty). by simplify_eq/=. Qed.

Section LockedFunds.
Context {DL : DecimalLib} {DLaws : DecimalLaws DL}.
Local Open Scope Q_scope.

(** ** What an open order still holds *)

Definition rest (o : OrderRow) : Q :=
  if decide (r_OrderType o = OrderTypeMarket /\ r_Side o = OrderSideBuy)
  then dval (r_QuoteAmount o) - (1 + fee_rate) * dval (r_FilledQuoteAmount o)
  else if decide (r_Side o = OrderSideBuy)
  then (1 + fee_rate) * (dval (r_Price o) * (dval (r_Amount o) - dval (r_FilledAmount o)))
  else dval (r_Amount o) - dval (r_FilledAmount o).

Definition outstanding (o : OrderRow) : Q := if isCancellableOrderStatus (r_Status o) then rest o else 0.

Definition held (u : N) (a : string) (o : OrderRow) : Q :=
  if decide (r_UserID o = u /\ orderHoldAsset o = a) then outstanding o else 0.

Definition locked (t : Tables) (u : N) (a : string) : Q := balance_of t (key_user AccountUserLocked u a).

(** ** What an order received *)

Definition tsum (P : Trade -> Prop) `{DP : !forall x, Decision (P x)} (f : Trade -> Q) (l : list Trade) : Q :=
  Qsum (map (fun tr => if decide (P tr) then f tr else 0) l).

Lemma tsum_snoc (P : Trade -> Prop) `{DP : !forall x, Decision (P x)} f l tr :
  tsum P f (l ++ [tr]) == tsum P f l + (if decide (P tr) then f tr else 0).
Proof. unfold tsum. rewrite map_app, Qsum_app. cbn [map]. rewrite Qsum_cons, Qsum_nil. lra. Qed.
Lemma tsum_none (P : Trade -> Prop) `{DP : !forall x, Decision (P x)} f l : Forall (fun tr => ~ P tr) l -> tsum P f l == 0.
Proof.
  unfold tsum. induction 1 as [|tr l Hn _ IH]; cbn [map]; rewrite ?Qsum_nil, ?Qsum_cons; [done|].
  rewrite decide_False by done. lra.
Qed.

Definition of_order (id : N) (tr : Trade) : Prop := t_BuyOrderID tr = id \/ t_SellOrderID tr = id.

(** Filled amounts and buyer's fees are those of the order's trades. *)
Definition fills_ok (t : Tables) (id : N) (o : OrderRow) : Prop :=
  dval (r_FilledAmount o) == tsum (of_order id) (fun tr => dval (t_Quantity tr)) (tb_trades t)
  /\ dval (r_FilledQuoteAmount o) == tsum (of_order id) quote_of (tb_trades t)
  /\ (r_Side o = OrderSideBuy ->
        tsum (fun tr => t_BuyOrderID tr = id) (fun tr => dval (t_BuyerFee tr)) (tb_trades t)
        == fee_rate * dval (r_FilledQuoteAmount o)).

(** ** Well-formed orders *)

Definition closed_status (st : OrderStatus) : Prop :=
  st = OrderStatusFilled \/ st = OrderStatusCancelled \/ st = OrderStatusRejected.

(** An order as the parser makes it: positive in what it asks for. *)
Record order_wf (o : OrderRow) : Prop := {
  ow_user : r_UserID o <> 0%N;
  ow_coin : r_CoinSymbol o <> "";
  ow_side : r_Side o = OrderSideBuy \/ r_Side o = OrderSideSell;
  ow_type : r_OrderType o = OrderTypeLimit \/ r_OrderType o = OrderTypeMarket;
  ow_price : 0 <= dval (r_Price o) /\ (r_OrderType o = OrderTypeLimit -> 0 < dval (r_Price o));
  ow_amount : if decide (r_OrderType o = OrderTypeMarket /\ r_Side o = OrderSideBuy)
              then dval (r_Amount o) == 0 else 0 < dval (r_Amount o);
  ow_quote : 0 <= dval (r_QuoteAmount o) /\ (r_OrderType o = OrderTypeMarket -> r_Side o = OrderSideBuy -> 0 < dval (r_QuoteAmount o));
  ow_status : open_status o \/ closed_status (r_Status o) }.

Record sys_ok (t : Tables) (s : Seqs) : Prop := {
  sy_store : store_ok t s;
  sy_orders : map_Forall (fun _ o => order_wf o) (tb_orders t);
  sy_locked : forall u a, locked t u a == map_sum (held u a) (tb_orders t) + map_sum (withheld u a) (tb_transfers t);
  sy_fills : map_Forall (fills_ok t) (tb_orders t);
  sy_trades : Forall (fun tr => is_Some (tb_orders t !! t_BuyOrderID tr) /\ is_Some (tb_orders t !! t_SellOrderID tr)) (tb_trades t);
  sy_releases : forall id reason, find_journal t (order_release_key id reason) <> None ->
    exists o, tb_orders t !! id = Some o /\ isCancellableOrderStatus (r_Status o) = false;
  sy_holds : forall id, find_journal t (order_hold_key id) <> None -> is_Some (tb_orders t !! id);
  sy_transfers : transfers_ok t s }.

(** ** Moving funds between a user's two accounts *)

(** The journals of holds and releases. *)
Definition transfer (event key : string) (id u : N) (a source target : string) (x : decimal) : JournalInput :=
  mkJournalInput event key JournalReferenceOrder id None
    [mkPostingInput source (Some u) a (Neg x); mkPostingInput target (Some u) a x].

Definition user_types (source target : string) : Prop :=
  (source = AccountUserAvailable /\ target = AccountUserLocked) \/ (source = AccountUserLocked /\ target = AccountUserAvailable).
Definition order_event (event : string) : Prop := event = JournalEventOrderHold \/ event = JournalEventOrderRelease.

Lemma transfer_key_sum event key id u a source target x k :
  key_sum k (in_Postings (transfer event key id u a source target x))
  == on k (key_user target u a) (dval x) - on k (key_user source u a) (dval x).
Proof.
  cbn [in_Postings transfer]. rewrite !key_sum_cons, key_sum_nil. cbn [pi_Amount posting_key pi_AccountType pi_OwnerUserID pi_Asset].
  rewrite (on_eq _ _ _ _ (dval_Neg x)). unfold posting_key, newAccountKey, key_user. cbn. unfold on. ring.
Qed.

Lemma transfer_valid event key id u a source target x : key <> "" -> order_event event -> user_types source target ->
  a <> "" -> 0 < dval x -> valid_journal (transfer event key id u a source target x).
Proof.
  intros Hk He Ht Ha Hx. unfold valid_journal, transfer. cbn [in_IdempotencyKey in_EventType in_ReferenceType in_Postings in_ReversesJournalID].
  destruct system_types as (Hlk & Hav & _).
  assert (Hty : source ∉ SystemAccountTypes /\ target ∉ SystemAccountTypes) by (destruct Ht as [[-> ->] | [-> ->]]; done).
  split; [done|]. split; [by destruct He as [-> | ->]|]. split; [done|]. split; [cbn; lia|].
  split; [destruct He as [-> | ->]; (split; [done | intros Hn; by destruct Hn])|]. split.
  - assert (Hn : ~ dval (Neg x) == 0) by (intros E; rewrite dval_Neg in E; lra). assert (Hp : ~ dval x == 0) by lra.
    rewrite !Forall_cons. split; [|split; [|done]]; (apply posting_user_ok; [apply Hty | done | done]).
  - intros b. unfold asset_sum. rewrite !sum_where_cons, sum_where_nil. cbn [pi_Asset pi_Amount]. case_decide; [rewrite dval_Neg|]; lra.
Qed.

Lemma transfer_known event key id u a source target x : order_event event -> user_types source target ->
  known_kinds (transfer event key id u a source target x).
Proof.
  intros He Ht. unfold known_kinds, transfer. cbn [in_EventType in_ReferenceType in_Postings in_ReversesJournalID].
  split; [destruct He as [-> | ->]; vm_compute; set_solver|]. split; [vm_compute; set_solver|]. split; [done|].
  destruct Ht as [[-> ->] | [-> ->]]; by repeat constructor.
Qed.

(** Recording a new transfer succeeds when the source holds the amount. *)
Lemma transfer_spec event key id u a source target x t s : store_ok t s -> key <> "" -> order_event event -> user_types source target ->
  a <> "" -> 0 < dval x -> find_journal t key = None -> key_ok (transfer event key id u a source target x) t ->
  wp (Record_ (transfer event key id u a source target x))
    (fun _ t' s' => store_ok t' s' /\ same_rest t t' /\ posted (transfer event key id u a source target x) t t')
    (fun e => DomainErrorKind e = Some ErrorKindConflict /\ balance_of t (key_user source u a) < dval x) t s.
Proof.
  intros Hok Hk He Ht Ha Hx Hnew Hkey. pose proof (transfer_valid event key id u a source target x Hk He Ht Ha Hx) as Hv.
  pose proof (transfer_known event key id u a source target x He Ht) as Hkn.
  eapply wp_mono; [by apply Record_store | |].
  - intros [e c] t' s' _ (Hok' & Hrest & Hdone & _). split; [done|]. split; [done|]. unfold journal_done in Hdone.
    destruct c; [done|]. destruct Hdone as (_ & e' & Hf & _). cbn in Hf. congruence.
  - intros err Hfail. destruct Hfail as [Hi|e _ Hf|name _ _ Hj|_ _ Hb|_ _ (p & Hp & Hneg & Hlt) Hc].
    + by rewrite (proj2 (validateJournalInput_Ok _) Hv) in Hi.
    + cbn in Hf. congruence.
    + by destruct (known_kinds_journal t _ name Hv Hkn).
    + by destruct (known_kinds_accounts _ err Hkn).
    + split; [done|]. rewrite transfer_key_sum in Hlt. pose proof (balance_nonneg t s (posting_key p) (so_ledger _ _ Hok) Hneg) as Hb.
      unfold on in Hlt. destruct (decide (key_user source u a = posting_key p)) as [E|E]; [|repeat case_decide; lra].
      rewrite E. repeat case_decide; lra.
Qed.

(** ** Closing an order *)

Lemma wf_hold_asset o : order_wf o -> orderHoldAsset o <> "".
Proof. intros H. unfold orderHoldAsset. case_decide; [done | apply H]. Qed.

Lemma wf_valid_side o : order_wf o -> valid_side o = true.
Proof. intros H. unfold valid_side. destruct (ow_side o H) as [-> | ->]; by rewrite ?bool_decide_eq_true_2, ?orb_true_r by done. Qed.

(** Nothing but the status changes. *)
Definition closed_as (o o' : OrderRow) : Prop :=
  o' = with_execution o (r_FilledAmount o) (r_FilledQuoteAmount o) (r_Status o')
  /\ closed_status (r_Status o').

Lemma closed_not_open st : closed_status st -> isCancellableOrderStatus st = false.
Proof. by intros [-> | [-> | ->]]. Qed.
Lemma open_cancellable o : open_status o <-> isCancellableOrderStatus (r_Status o) = true.
Proof.
  unfold open_status, isCancellableOrderStatus. rewrite orb_true_iff, !bool_decide_eq_true. done.
Qed.

Lemma held_closed u a o o' : closed_as o o' -> held u a o' = 0.
Proof. intros [_ Hc]. unfold held, outstanding. rewrite (closed_not_open _ Hc). by case_decide. Qed.

Lemma order_keys_not_transfer id reason : ~ transfer_key (order_hold_key id) /\ ~ transfer_key (order_release_key id reason).
Proof.
  split; intros [[i E]|[ref E]]; try done; unfold confirm_keys in E; rewrite !elem_of_cons, elem_of_nil in E; by destruct E as [E|[E|[E|[]]]].
Qed.

Lemma sys_close t s t' s' id o o' : sys_ok t s -> store_ok t' s' -> seq_le s s' -> tb_transfers t' = tb_transfers t -> tb_orders t !! id = Some o -> closed_as o o' ->
  tb_orders t' = <[id := o']> (tb_orders t) -> tb_trades t' = tb_trades t ->
  (forall u a, locked t' u a == locked t u a - held u a o) ->
  (forall k, find_journal t' k <> None -> find_journal t k <> None \/ exists reason, k = order_release_key id reason) ->
  sys_ok t' s'.
Proof.
  intros Hsys Hok Hs Htf Ho Hc Hor Htr Hl Hk. pose proof Hc as [Ho' Hst]. split; rewrite ?Hor, ?Htr, ?Htf.
  - done.
  - apply map_Forall_insert_2; [|apply Hsys]. rewrite Ho'. destruct (sy_orders _ _ Hsys id o Ho). split; try done. by right.
  - intros u a. rewrite Hl, (map_sum_update _ _ _ _ _ Ho), (sy_locked _ _ Hsys), (held_closed u a o o' Hc). lra.
  - apply map_Forall_insert_2.
    + rewrite Ho'. unfold fills_ok. rewrite Htr. apply (sy_fills _ _ Hsys id o Ho).
    + intros id' x Hx. unfold fills_ok. rewrite Htr. by apply (sy_fills _ _ Hsys).
  - eapply Forall_impl; [apply (sy_trades _ _ Hsys)|]. intros tr [H1 H2]. split; rewrite lookup_insert_is_Some'; by right.
  - intros id' reason Hf. apply Hk in Hf as [Hf|[reason' E]].
    + destruct (sy_releases _ _ Hsys id' reason Hf) as (x & Hx & Hcl). destruct (decide (id' = id)) as [->|Hne].
      * exists o'. rewrite lookup_insert_eq. split; [done | by apply closed_not_open].
      * exists x. by rewrite lookup_insert_ne.
    + apply order_release_key_inj in E as ->. exists o'. rewrite lookup_insert_eq. split; [done | by apply closed_not_open].
  - intros id' Hf. rewrite lookup_insert_is_Some'. apply Hk in Hf as [Hf|[reason E]]; [right; by apply (sy_holds _ _ Hsys)|done].
  - apply (transfers_ok_frame t t' s s'); [done | done | | apply Hsys]. intros k Hf. apply Hk in Hf as [Hf|[reason ->]]; [by left|].
    right. apply (order_keys_not_transfer id reason).
Qed.

(** The hold of an open order that is closed with [amount] released. *)
Lemma release_close o id amount reason st t s : sys_ok t s -> tb_orders t !! id = Some o ->
  isCancellableOrderStatus (r_Status o) = true -> closed_status st ->
  dval amount == rest o -> 0 < dval amount -> reason <> "" ->
  wp (_ ← releaseOrderAssets o amount reason; UpdateOrderExecution (r_ID o) (r_FilledAmount o) (r_FilledQuoteAmount o) st)
    (fun _ t' s' => sys_ok t' s' /\ tb_orders t' = <[id := with_execution o (r_FilledAmount o) (r_FilledQuoteAmount o) st]> (tb_orders t)
       /\ posted (release_input o amount reason) t t' /\ same_rest (t <| tb_orders := tb_orders t' |>) t')
    (fun e => DomainErrorKind e = Some ErrorKindConflict /\ locked t (r_UserID o) (orderHoldAsset o) < rest o) t s.
Proof.
  intros Hsys Ho Hopen Hst Hamt Hpos Hr. pose proof (sy_orders _ _ Hsys id o Ho) as Hwf.
  pose proof (so_orders _ _ (sy_store _ _ Hsys) id o Ho) as (Hid & Hseq & Hfill).
  unfold releaseOrderAssets. rewrite (wf_valid_side o Hwf), (proj2 (IsPositive_true _) Hpos). cbn [negb].
  destruct (decide (reason = "")) as [|_]; [done|]. apply wp_bind, wp_bind.
  assert (Hnew : find_journal t (order_release_key (r_ID o) reason) = None).
  { destruct (find_journal t _) eqn:E; [|done]. destruct (sy_releases _ _ Hsys (r_ID o) reason) as (x & Hx & Hcl); [by rewrite E|].
    rewrite Hid, Ho in Hx. simplify_eq. congruence. }
  eapply wp_mono; [apply (transfer_spec JournalEventOrderRelease (order_release_key (r_ID o) reason) (r_ID o) (r_UserID o)
    (orderHoldAsset o) AccountUserLocked AccountUserAvailable amount t s (sy_store _ _ Hsys))| |].
  all: try done; try (by right); try (by apply wf_hold_asset).
  - intros _ t1 s1 Hs1 (Hok1 & Hrest & Hpost). apply wp_ret. pose proof Hrest as (_ & Ho1 & Ht1 & _ & _ & _ & Htf1 & _).
    apply (UpdateOrderExecution_spec _ _ _ _ _ _ _ _ o); [by rewrite Ho1, Hid|]. rewrite Ho1, Hid.
    set (o' := with_execution _ _ _ _). set (t2 := t1 <| tb_orders := _ |>).
    assert (Hl2 : same_ledger t1 t2) by done. assert (Hc : closed_as o o') by done.
    assert (Hpost2 : posted (release_input o amount reason) t t2).
    { destruct Hpost as (e & ta & tb & Ha & Hb & Hcc). exists e, ta, tb. split; [done|]. split; [done|]. by etrans. }
    split; [|by repeat split; try apply Hrest]. apply (sys_close t s t2 s1 id o o' Hsys); try done.
    + unfold t2. rewrite <- Ho1. apply store_ok_update_order; [done|].
      split; [done|]. split; [specialize (Hs1 "orders"%string); lia|]. destruct Hfill as (H1 & H2 & H3). by split_and!.
    + intros u a. unfold locked. rewrite (posted_balance _ _ _ _ Hpost2).
      change (in_Postings (release_input o amount reason)) with (in_Postings (transfer JournalEventOrderRelease (order_release_key (r_ID o) reason)
        (r_ID o) (r_UserID o) (orderHoldAsset o) AccountUserLocked AccountUserAvailable amount)).
      rewrite transfer_key_sum. unfold held, outstanding, on, key_user. rewrite Hopen.
      repeat case_decide; simplify_eq; try lra; exfalso; intuition congruence.
    + intros k Hf. apply (posted_find _ _ _ _ Hpost2) in Hf as [Hf | ->]; [by left|]. right. exists reason. by rewrite <- Hid.
  - intros e [He Hlt]. split; [done|]. unfold locked. by rewrite <- Hamt.
Qed.

(** What ending an order leaves alone, besides the ledger. *)
Definition besides_orders (t t' : Tables) : Prop :=
  tb_trades t' = tb_trades t /\ tb_outbox t' = tb_outbox t /\ tb_idempotency t' = tb_idempotency t /\ same_records t t'.

(** Closing an order that holds nothing any more. *)
Lemma close_empty o id st t s (E : error -> Prop) : sys_ok t s -> tb_orders t !! id = Some o -> closed_status st -> rest o == 0 ->
  wp (UpdateOrderExecution (r_ID o) (r_FilledAmount o) (r_FilledQuoteAmount o) st)
    (fun _ t' s' => sys_ok t' s' /\ tb_orders t' = <[id := with_execution o (r_FilledAmount o) (r_FilledQuoteAmount o) st]> (tb_orders t)
       /\ same_ledger t t' /\ besides_orders t t') E t s.
Proof.
  intros Hsys Ho Hst Hz. pose proof (so_orders _ _ (sy_store _ _ Hsys) id o Ho) as (Hid & Hseq & Hfill). rewrite Hid.
  apply (UpdateOrderExecution_spec _ _ _ _ _ _ _ _ o); [done|]. set (t2 := t <| tb_orders := _ |>).
  split; [|done]. eapply (sys_close t s t2 s id o _ Hsys); [| apply seq_le_refl | done | done | | reflexivity | done | | by auto].
  - apply store_ok_update_order; [apply Hsys|]. split; [done|]. split; [done|]. destruct Hfill as (H1 & H2 & H3). by split_and!.
  - by split.
  - intros u a. change (locked t2 u a) with (locked t u a). unfold held, outstanding. repeat case_match; lra.
Qed.

Lemma rest_limit o : ~ (r_OrderType o = OrderTypeMarket /\ r_Side o = OrderSideBuy) ->
  rest o == (if decide (r_Side o = OrderSideBuy) then (1 + fee_rate) * dval (r_Price o) else 1)
            * (dval (r_Amount o) - dval (r_FilledAmount o)).
Proof. intros H. unfold rest. destruct (decide (_ /\ _)) as [|_]; [done|]. case_decide; lra. Qed.

Lemma fee_rate_pos : 0 < 1 + fee_rate.
Proof. reflexivity. Qed.

(** Cancelling releases what the order still holds, or does nothing. *)
Definition cancel_effect (id : N) (t t' : Tables) : Prop :=
  exists o, tb_orders t !! id = Some o /\
    ((open_status o /\ dval (r_FilledAmount o) < dval (r_Amount o)
      /\ tb_orders t' = <[id := with_execution o (r_FilledAmount o) (r_FilledQuoteAmount o) OrderStatusCancelled]> (tb_orders t)
      /\ exists amount, dval amount == rest o /\ posted (release_input o amount releaseReasonCancel) t t')
     \/ (~ (open_status o /\ dval (r_FilledAmount o) < dval (r_Amount o)) /\ t' = t)).

Lemma cancellation_spec id t s : sys_ok t s ->
  wp (cancellation_body id) (fun _ t' s' => sys_ok t' s' /\ cancel_effect id t t' /\ besides_orders t t')
    (fun e => tb_orders t !! id = None
       \/ DomainErrorKind e = Some ErrorKindConflict
          /\ exists o, tb_orders t !! id = Some o /\ locked t (r_UserID o) (orderHoldAsset o) < rest o) t s.
Proof.
  intros Hsys. unfold cancellation_body. apply wp_bind, FindByIDForUpdate_spec; [|by left].
  intros o Ho. rewrite Ho.
  assert (Hskip : ~ (open_status o /\ dval (r_FilledAmount o) < dval (r_Amount o)) -> sys_ok t s /\ cancel_effect id t t /\ besides_orders t t).
  { intros Hn. split; [done|]. split; [|done]. exists o. split; [done|]. by right. }
  destruct (isCancellableOrderStatus (r_Status o)) eqn:Hopen; cbn [negb].
  2: { apply wp_ret, Hskip. intros [Hop _]. apply open_cancellable in Hop. congruence. }
  pose proof (sy_orders _ _ Hsys id o Ho) as Hwf. pose proof (so_orders _ _ (sy_store _ _ Hsys) id o Ho) as (_ & _ & Hfa & _).
  set (remaining := Sub (r_Amount o) (r_FilledAmount o)).
  assert (Hrem : dval remaining == dval (r_Amount o) - dval (r_FilledAmount o)) by apply dval_Sub.
  destruct (GreaterThan remaining Zero) eqn:Eg; dec_prop; rewrite dval_Zero, Hrem in Eg; cbn [negb].
  2: { apply wp_ret, Hskip. intros [_ Hlt]. lra. }
  assert (Hnm : ~ (r_OrderType o = OrderTypeMarket /\ r_Side o = OrderSideBuy)).
  { intros Hm. pose proof (ow_amount o Hwf) as Ha. rewrite decide_True in Ha by done. lra. }
  pose proof (rest_limit o Hnm) as Hrest.
  assert (Hgo : forall amount, dval amount == rest o -> 0 < dval amount ->
    wp (_ ← releaseOrderAssets o amount releaseReasonCancel;
        UpdateOrderExecution (r_ID o) (r_FilledAmount o) (r_FilledQuoteAmount o) OrderStatusCancelled)
      (fun _ t' s' => sys_ok t' s' /\ cancel_effect id t t' /\ besides_orders t t')
      (fun e => Some o = None \/ DomainErrorKind e = Some ErrorKindConflict
          /\ exists o', Some o = Some o' /\ locked t (r_UserID o') (orderHoldAsset o') < rest o') t s).
  { intros amount Ha Hpos. eapply wp_mono; [apply (release_close o id amount releaseReasonCancel OrderStatusCancelled t s); try done|..].
    - by right; left.
    - intros u t' s' _ (H1 & H2 & H3 & (_ & _ & Ht & Hob & Hi & _ & _ & Hr')). split; [done|]. split; [|done]. exists o. split; [done|]. left. split; [by apply open_cancellable|].
      split; [lra|]. split; [done|]. by exists amount.
    - intros e [H1 H2]. right. split; [done|]. by exists o. }
  unfold releaseOrderHold. destruct (ow_side o Hwf) as [Hs|Hs]; rewrite Hs in Hrest |- *; cbn [decide] in Hrest.
  - apply Hgo; rewrite dval_quoteAmountWithTradingFee, dval_Mul, Hrem; [rewrite Hrest, decide_True by done; ring|].
    assert (0 < dval (r_Price o)). { apply (ow_price o Hwf). destruct (ow_type o Hwf) as [|Hm]; [done|]. by destruct Hnm. }
    apply Qmult_lt_0_compat; [|done]. apply Qmult_lt_0_compat; [done | lra].
  - apply Hgo; rewrite Hrem; [rewrite Hrest, decide_False by done; ring | lra].
Qed.

(** ** Completing a market order *)

Lemma buyer_fees_sum t id :
  dval (foldl (fun total trade => Add total (t_BuyerFee trade)) Zero (filter (fun trade => t_BuyOrderID trade = id) (tb_trades t)))
  == tsum (fun tr => t_BuyOrderID tr = id) (fun tr => dval (t_BuyerFee tr)) (tb_trades t).
Proof.
  assert (Hgen : forall l acc, dval (foldl (fun total trade => Add total (t_BuyerFee trade)) acc (filter (fun trade => t_BuyOrderID trade = id) l))
    == dval acc + tsum (fun tr => t_BuyOrderID tr = id) (fun tr => dval (t_BuyerFee tr)) l).
  { unfold tsum. induction l as [|tr l IH]; intros acc; [cbn; lra|]. rewrite filter_cons. cbn [map]. rewrite Qsum_cons.
    case_decide; [cbn [foldl]; rewrite IH, dval_Add | rewrite IH]; lra. }
  rewrite Hgen, dval_Zero. lra.
Qed.

Definition complete_effect (id : N) (t t' : Tables) : Prop :=
  exists o, tb_orders t !! id = Some o /\
    ((open_status o /\ exists st, (st = OrderStatusFilled \/ st = OrderStatusCancelled)
        /\ tb_orders t' = <[id := with_execution o (r_FilledAmount o) (r_FilledQuoteAmount o) st]> (tb_orders t)
        /\ ((rest o == 0 /\ same_ledger t t')
            \/ exists amount, dval amount == rest o /\ 0 < dval amount /\ posted (release_input o amount releaseReasonMarketRemain) t t'))
     \/ (~ open_status o /\ t' = t)).

(** The end of both branches: release what is left, if anything, and close. *)
Lemma complete_close o id remaining st t s : sys_ok t s -> tb_orders t !! id = Some o -> open_status o ->
  (st = OrderStatusFilled \/ st = OrderStatusCancelled) -> dval remaining == rest o -> 0 <= dval remaining ->
  wp (_ ← (if GreaterThan remaining Zero then releaseOrderAssets o remaining releaseReasonMarketRemain else mret tt);
      UpdateOrderExecution (r_ID o) (r_FilledAmount o) (r_FilledQuoteAmount o) st)
    (fun _ t' s' => sys_ok t' s' /\ complete_effect id t t' /\ besides_orders t t')
    (fun e => DomainErrorKind e = Some ErrorKindConflict /\ locked t (r_UserID o) (orderHoldAsset o) < rest o) t s.
Proof.
  intros Hsys Ho Hopen Hst Hr Hn. assert (Hcl : closed_status st) by (destruct Hst; [by left | by right; left]).
  pose proof (proj1 (open_cancellable o) Hopen) as Hc. destruct (GreaterThan remaining Zero) eqn:Eg; dec_prop; rewrite dval_Zero in Eg.
  - eapply wp_mono; [by apply (release_close o id remaining releaseReasonMarketRemain st t s)| |done].
    intros u t' s' _ (H1 & H2 & H3 & (_ & _ & Ht & Hob & Hi & _ & _ & Hr')). split; [done|]. split; [|done]. exists o. split; [done|]. left. split; [done|]. exists st. split; [done|].
    split; [done|]. right. by exists remaining.
  - apply wp_bind, wp_ret. eapply wp_mono; [apply (close_empty o id st t s (fun _ => False)); try done; lra| |done].
    intros u t' s' _ (H1 & H2 & H3 & Hi). split; [done|]. split; [|done]. exists o. split; [done|]. left. split; [done|]. exists st. split; [done|].
    split; [done|]. left. split; [lra | done].
Qed.

Lemma complete_spec input t s : sys_ok t s ->
  (forall o, tb_orders t !! cm_OrderID input = Some o -> r_Status o <> OrderStatusRejected) ->
  wp (complete_body input) (fun _ t' s' => sys_ok t' s' /\ complete_effect (cm_OrderID input) t t' /\ besides_orders t t')
    (fun e => IsRecordNotFound e = true \/ DomainErrorKind e <> None) t s.
Proof.
  intros Hsys Hnr. unfold complete_body. apply wp_bind, FindByIDForUpdate_spec; [|by left]. intros o Ho.
  specialize (Hnr o Ho). pose proof (sy_orders _ _ Hsys _ o Ho) as Hwf.
  pose proof (so_orders _ _ (sy_store _ _ Hsys) _ o Ho) as (Hid & _ & Hfa & Hfq & Hlim). set (id := cm_OrderID input) in *.
  case_bool_decide as Hm; cbn [negb]; [|apply wp_throw; by right].
  destruct (ow_status o Hwf) as [Hopen|Hclosed].
  2: { assert (Hdone : bool_decide (r_Status o = OrderStatusFilled) || bool_decide (r_Status o = OrderStatusCancelled) = true).
       { apply orb_true_iff. rewrite !bool_decide_eq_true. destruct Hclosed as [|[|]]; [by left | by right | done]. }
       rewrite Hdone. apply wp_ret. split; [done|]. split; [|done]. exists o. split; [done|]. right. split; [|done].
       intros Hop. apply open_cancellable in Hop. by rewrite (closed_not_open _ Hclosed) in Hop. }
  assert (Hnot : bool_decide (r_Status o = OrderStatusFilled) || bool_decide (r_Status o = OrderStatusCancelled) = false).
  { apply orb_false_iff. rewrite !bool_decide_eq_false. destruct Hopen as [-> | ->]; done. }
  rewrite Hnot. clear Hnot. destruct (LessThan _ _ || LessThan _ _); [apply wp_throw; by right|].
  destruct (ow_side o Hwf) as [Hs|Hs]; rewrite Hs.
  - unfold completeMarketBuyOrder, SumBuyerFeesByBuyOrderID. apply wp_bind, wp_query.
    set (fees := foldl _ _ _). assert (Hfees : dval fees == fee_rate * dval (r_FilledQuoteAmount o)).
    { unfold fees. rewrite Hid, buyer_fees_sum. by apply (sy_fills _ _ Hsys _ o Ho). }
    destruct (GreaterThan _ _) eqn:Eg; [apply wp_throw; by right|]. dec_prop. rewrite dval_Add in Eg.
    assert (Hr : dval (Sub (r_QuoteAmount o) (Add (r_FilledQuoteAmount o) fees)) == rest o).
    { rewrite dval_Sub, dval_Add, Hfees. unfold rest. rewrite decide_True by done. lra. }
    eapply wp_mono; [apply (complete_close o id _ _ t s Hsys Ho Hopen); [by destruct (negb _); auto | exact Hr |]| |].
    + rewrite dval_Sub, dval_Add. lra.
    + done.
    + intros e [He _]. right. by rewrite He.
  - unfold completeMarketSellOrder. assert (Hnb : ~ (r_OrderType o = OrderTypeMarket /\ r_Side o = OrderSideBuy)) by (rewrite Hs; by intros [_ ?]).
    unfold within_limit in Hlim. rewrite decide_False in Hlim by done.
    assert (Hr : dval (Sub (r_Amount o) (r_FilledAmount o)) == rest o).
    { rewrite dval_Sub, (rest_limit o Hnb), decide_False by (by rewrite Hs). lra. }
    unfold remainingMarketSellQuantity. destruct (IsNegative _) eqn:En; dec_prop.
    { rewrite dval_Sub in En. lra. }
    apply wp_bind, wp_lift. eapply wp_mono; [apply (complete_close o id _ _ t s Hsys Ho Hopen); [by destruct (Equal _ _); auto | exact Hr | done]|done|].
    intros e [He _]. right. by rewrite He.
Qed.

(** ** Creating an order *)

Record new_order_ok (o : OrderRow) : Prop := {
  no_wf : order_wf o;
  no_status : r_Status o = OrderStatusPending;
  no_filled : dval (r_FilledAmount o) == 0 /\ dval (r_FilledQuoteAmount o) == 0 }.

Lemma hold_is_rest o : new_order_ok o -> dval (holdAmountFor o) == rest o /\ 0 < rest o.
Proof.
  intros [Hwf _ [Ha Hq]]. pose proof fee_rate_pos as Hf. unfold holdAmountFor, rest.
  destruct (decide (r_Side o = OrderSideBuy)) as [Hs|Hs].
  - destruct (decide (r_OrderType o = OrderTypeMarket)) as [Hm|Hm].
    + rewrite decide_True by done. pose proof (proj2 (ow_quote o Hwf) Hm Hs). rewrite Hq. split; lra.
    + rewrite decide_False by (by intros [? _]). pose proof (ow_amount o Hwf) as Ham. rewrite decide_False in Ham by (by intros [? _]).
      assert (Hp : 0 < dval (r_Price o)) by (apply (ow_price o Hwf); by destruct (ow_type o Hwf)).
      rewrite dval_quoteAmountWithTradingFee, dval_Mul, Ha. split; [ring|].
      apply Qmult_lt_0_compat; [done|]. apply Qmult_lt_0_compat; lra.
  - rewrite decide_False by (by intros [_ ?]). pose proof (ow_amount o Hwf) as Ham. rewrite decide_False in Ham by (by intros [_ ?]). split; lra.
Qed.

Lemma wp_map_err {A} f (m : M A) Q (E E' : error -> Prop) t s : wp m Q E t s -> (forall e, is_db e -> f e = e) ->
  (forall e, E e -> E' (f e)) -> wp (map_err f m) Q E' t s.
Proof.
  intros Hm Hdb He fs. specialize (Hm fs). unfold map_err. destruct (m _) as [[a|e] w']; [done|]. destruct Hm as (H1 & H2 & H3).
  split; [done|]. split; [done|]. destruct H3 as [[Hd Hn]|H3]; [left; by rewrite (Hdb e Hd) | right; by apply He].
Qed.

Lemma wf_checks o : new_order_ok o -> order_checks o = true.
Proof.
  intros [Hwf _ [Ha Hq]]. unfold order_checks. rewrite !andb_true_iff, !negb_true_iff, !IsNegative_false.
  pose proof (ow_amount o Hwf) as H1. pose proof (ow_price o Hwf) as [H2 _]. pose proof (ow_quote o Hwf) as [H3 _].
  repeat split; try lra. case_decide; lra.
Qed.

Lemma sys_create t s t' s' id row : sys_ok t s -> store_ok t' s' -> seq_le s s' -> tb_transfers t' = tb_transfers t -> tb_orders t !! id = None -> new_order_ok row ->
  tb_orders t' = <[id := row]> (tb_orders t) -> tb_trades t' = tb_trades t ->
  (forall u a, locked t' u a == locked t u a + held u a row) ->
  (forall k, find_journal t' k <> None -> find_journal t k <> None \/ k = order_hold_key id) -> sys_ok t' s'.
Proof.
  intros Hsys Hok Hs Htf Hn Hnew Hor Htr Hl Hk. destruct (no_filled _ Hnew) as [Ha Hq].
  assert (Hnone : Forall (fun tr => ~ of_order id tr) (tb_trades t)).
  { eapply Forall_impl; [apply (sy_trades _ _ Hsys)|]. cbn. intros tr [H1 H2] [E|E]; rewrite E, Hn in *; by destruct H1, H2. }
  assert (Hnone' : Forall (fun tr => ~ t_BuyOrderID tr = id) (tb_trades t)).
  { eapply Forall_impl; [exact Hnone|]. cbn. intros tr H E. apply H. by left. }
  split; rewrite ?Hor, ?Htr, ?Htf.
  - done.
  - apply map_Forall_insert_2; [apply Hnew | apply Hsys].
  - intros u a. rewrite Hl, (map_sum_new _ _ _ _ Hn), (sy_locked _ _ Hsys). lra.
  - apply map_Forall_insert_2.
    + unfold fills_ok. rewrite Htr, !tsum_none by done. split; [done|]. split; [done|]. intros _. rewrite Hq. lra.
    + intros id' x Hx. unfold fills_ok. rewrite Htr. by apply (sy_fills _ _ Hsys).
  - eapply Forall_impl; [apply (sy_trades _ _ Hsys)|]. intros tr [H1 H2]. split; rewrite lookup_insert_is_Some'; by right.
  - intros id' reason Hf. apply Hk in Hf as [Hf|E]; [|done].
    destruct (sy_releases _ _ Hsys id' reason Hf) as (x & Hx & Hcl). exists x. rewrite lookup_insert_ne; [done|]. congruence.
  - intros id' Hf. rewrite lookup_insert_is_Some'. apply Hk in Hf as [Hf|E]; [right; by apply (sy_holds _ _ Hsys)|].
    apply order_hold_key_inj in E. by left.
  - apply (transfers_ok_frame t t' s s'); [done | done | | apply Hsys]. intros k Hf. apply Hk in Hf as [Hf| ->]; [by left|].
    right. apply (order_keys_not_transfer id "").
Qed.

(** The order is there and its hold is posted. *)
Definition create_effect (o row : OrderRow) (t t' : Tables) : Prop :=
  row = o <| r_ID := r_ID row |> /\ tb_orders t !! r_ID row = None /\ tb_orders t' = <[r_ID row := row]> (tb_orders t)
  /\ tb_trades t' = tb_trades t /\ posted (hold_input row) t t' /\ same_rest (t <| tb_orders := tb_orders t' |>) t'.

Lemma create_spec o t s : sys_ok t s -> new_order_ok o ->
  wp (row ← OrderLedger.CreateOrder o; _ ← holdOrderAssets row; mret row)
    (fun row t' s' => sys_ok t' s' /\ create_effect o row t t')
    (fun e => e = insufficientBalanceError (r_Side o)
       /\ balance_of t (key_user AccountUserAvailable (r_UserID o) (orderHoldAsset o)) < dval (holdAmountFor o)) t s.
Proof.
  intros Hsys Hnew. unfold OrderLedger.CreateOrder, insert_order. apply wp_bind, wp_bind, wp_stmt, wp_bind, wp_nextval.
  intros s1 Hs1 _ Hseq. rewrite (wf_checks o Hnew). cbn [negb]. apply wp_bind, wp_modify, wp_ret.
  set (id := (seq_value s "orders" + 1)%N) in *. set (row := o <| r_ID := id |>). set (t1 := t <| tb_orders := _ |>).
  assert (Hfresh : tb_orders t !! id = None).
  { destruct (tb_orders t !! id) as [x|] eqn:E; [|done]. destruct (so_orders _ _ (sy_store _ _ Hsys) id x E) as (_ & Hle & _). unfold id in Hle. lia. }
  assert (Hrow : new_order_ok row) by (destruct Hnew as [[] ? ?]; split; [by split | done | done]).
  destruct (hold_is_rest row Hrow) as [Hhold Hpos].
  assert (Hok1 : store_ok t1 s1).
  { apply store_ok_update_order; [eapply store_ok_seq; [exact Hs1 | apply Hsys]|]. split; [done|]. split; [lia|].
    destruct (no_filled _ Hnew) as [Ha Hq]. split; [cbn; lra|]. split; [cbn; lra|]. unfold within_limit. cbn.
    pose proof (ow_amount _ (no_wf _ Hrow)) as H1. pose proof (ow_quote _ (no_wf _ Hrow)) as [H2 _]. cbn in H1, H2. case_decide; lra. }
  apply wp_bind. unfold holdOrderAssets. rewrite (wf_valid_side row (no_wf _ Hrow)).
  rewrite (proj2 (IsPositive_true _)) by (by rewrite Hhold). cbn [negb].
  assert (Hj : find_journal t1 (order_hold_key id) = None).
  { change (find_journal t1 (order_hold_key id)) with (find_journal t (order_hold_key id)). destruct (find_journal t _) eqn:E; [|done].
    destruct (sy_holds _ _ Hsys id) as [x Hx]; [by rewrite E | congruence]. }
  eapply wp_map_err; [apply wp_bind; eapply wp_mono; [apply (transfer_spec JournalEventOrderHold (order_hold_key id) id (r_UserID row)
    (orderHoldAsset row) AccountUserAvailable AccountUserLocked (holdAmountFor row) t1 s1 Hok1)| |]|..].
  all: try done; try (by left); try (by apply wf_hold_asset, Hrow); try (by rewrite Hhold).
  - intros u t2 s2 Hs2 (Hok2 & Hrest & Hpost). apply wp_ret, wp_ret. pose proof Hrest as (_ & Ho2 & Ht2 & _ & _ & _ & Htf2 & _).
    assert (Hs02 : seq_le s s2) by (by eapply seq_le_trans).
    assert (Hpost2 : posted (hold_input row) t t2).
    { destruct Hpost as (e & ta & tb & Ha & Hb & Hcc). exists e, ta, tb. split; [by etrans|]. by split. }
    split; [|by repeat split; try apply Hrest].
    apply (sys_create t s t2 s2 id row); try done.
    + intros v a. unfold locked. rewrite (posted_balance _ _ _ _ Hpost2).
      change (in_Postings (hold_input row)) with (in_Postings (transfer JournalEventOrderHold (order_hold_key id) id (r_UserID row)
        (orderHoldAsset row) AccountUserAvailable AccountUserLocked (holdAmountFor row))).
      rewrite transfer_key_sum. unfold held, outstanding, on, key_user. rewrite (proj1 (open_cancellable row)) by (left; apply Hrow).
      repeat case_decide; simplify_eq; try lra; exfalso; intuition congruence.
    + intros k. apply (posted_find _ _ _ _ Hpost2).
  - intros e [code ->]. done.
  - intros e [He Hlt]. unfold asInsufficientBalance. rewrite decide_True by done. done.
Qed.

(** ** Settling a trade *)

(** A trade leaves part of a market buy's quote amount: the engine is given the
    amount without fees. *)
Definition leaves_budget (trade : Trade) (buy : OrderRow) : Prop :=
  r_OrderType buy = OrderTypeMarket -> dval (r_FilledQuoteAmount buy) + quote_of trade < dval (r_QuoteAmount buy).

(** What a fill takes out of an order's hold. *)
Definition taken (trade : Trade) (o : OrderRow) : Q :=
  if decide (r_Side o = OrderSideBuy) then reserved_debit o trade else dval (t_Quantity trade).

Lemma reserved_debit_value o trade :
  reserved_debit o trade == (1 + fee_rate) * ((if decide (r_OrderType o = OrderTypeMarket) then dval (t_Price trade) else dval (r_Price o)) * dval (t_Quantity trade)).
Proof.
  unfold reserved_debit, reservedBuyDebitAmount. case_decide; rewrite dval_quoteAmountWithTradingFee, ?dval_tradeQuoteAmount, ?dval_Mul; ring.
Qed.

Lemma filled_outstanding trade o o' : order_wf o -> open_status o -> filled_by trade o o' ->
  (r_Side o = OrderSideBuy -> leaves_budget trade o) -> outstanding o' == outstanding o - taken trade o.
Proof.
  intros Hwf Hop (fa & fq & st & -> & Ha & Hq & Hle & Hst & Hor) Hb.
  assert (Hr : rest (with_execution o fa fq st) == rest o - taken trade o).
  { unfold rest, taken. change (r_OrderType (with_execution o fa fq st)) with (r_OrderType o). change (r_Side (with_execution o fa fq st)) with (r_Side o).
    cbn [with_execution r_FilledAmount r_FilledQuoteAmount]. unfold quote_of in Hq.
    destruct (decide (_ /\ _)) as [[Hm Hs]|Hn].
    - rewrite decide_True by done. rewrite reserved_debit_value, decide_True by done. cbn. rewrite Hq. ring.
    - case_decide as Hs; [rewrite reserved_debit_value; destruct (decide (r_OrderType o = OrderTypeMarket)); [by destruct Hn|]|]; cbn; rewrite Ha; ring. }
  unfold outstanding. rewrite (proj1 (open_cancellable o) Hop).
  destruct Hor as [-> | ->]; [|exact Hr]. cbn [isCancellableOrderStatus with_execution]. change (isCancellableOrderStatus (r_Status (with_execution o fa fq OrderStatusFilled))) with false.
  rewrite <- Hr. destruct Hst as [Hst _]. specialize (Hst eq_refl). unfold progress_of, limit_of in Hst. unfold rest.
  destruct (decide _) as [[Hm Hs]|Hn].
  - exfalso. cbn in Hst, Hm, Hs. specialize (Hb Hs Hm). rewrite Hq in Hst. lra.
  - case_decide; cbn in *; rewrite Hst; ring.
Qed.

Lemma order_wf_filled trade o o' : order_wf o -> filled_by trade o o' -> order_wf o'.
Proof.
  intros [] (fa & fq & st & -> & _ & _ & _ & _ & Hor). split; try done. destruct Hor as [-> | ->]; [right; by left | left; by right].
Qed.

Lemma held_diff u a o o' x : r_UserID o' = r_UserID o -> orderHoldAsset o' = orderHoldAsset o ->
  outstanding o' == outstanding o - x ->
  held u a o' == held u a o - on (key_user AccountUserLocked u a) (key_user AccountUserLocked (r_UserID o) (orderHoldAsset o)) x.
Proof.
  intros E1 E2 Hx. unfold held, on, key_user. rewrite E1, E2. repeat case_decide; simplify_eq; try lra; exfalso; intuition congruence.
Qed.

(** The locked accounts under a trade. *)
Lemma locked_effect trade reserved b s0 u a : 
  trade_effect trade reserved b s0 (key_user AccountUserLocked u a)
  == - on (key_user AccountUserLocked u a) (key_user AccountUserLocked b KRWAssetSymbol) reserved
     - on (key_user AccountUserLocked u a) (key_user AccountUserLocked s0 (t_CoinSymbol trade)) (dval (t_Quantity trade)).
Proof.
  unfold trade_effect. assert (Hoff : forall v c x, on (key_user AccountUserLocked u a) (key_user AccountUserAvailable v c) x == 0).
  { intros v c x. unfold on. rewrite decide_False by (unfold key_user; intros E; by simplify_eq). lra. }
  assert (Hfee : forall x, on (key_user AccountUserLocked u a) fee_key x == 0).
  { intros x. unfold on. rewrite decide_False by (unfold key_user, fee_key; intros E; by simplify_eq). lra. }
  rewrite !Hoff, Hfee. unfold on. ring.
Qed.

Lemma fills_snoc t t' row id o : tb_trades t' = tb_trades t ++ [row] -> ~ of_order id row -> fills_ok t id o -> fills_ok t' id o.
Proof.
  intros Ht Hn (H1 & H2 & H3). unfold fills_ok. rewrite Ht, !tsum_snoc, !(decide_False (P := of_order id row)) by done.
  split; [lra|]. split; [lra|]. intros Hs. specialize (H3 Hs). destruct (decide (t_BuyOrderID row = id)) as [E|]; [destruct Hn; by left|]. lra.
Qed.

Lemma fills_filled t t' row id o o' : tb_trades t' = tb_trades t ++ [row] -> of_order id row -> filled_by row o o' ->
  dval (t_BuyerFee row) == fee_rate * quote_of row -> (r_Side o = OrderSideBuy -> t_BuyOrderID row = id) ->
  fills_ok t id o -> fills_ok t' id o'.
Proof.
  intros Ht Hof (fa & fq & st & -> & Ha & Hq & _) Hfee Hb (H1 & H2 & H3). unfold fills_ok.
  change (r_FilledAmount (with_execution o fa fq st)) with fa. change (r_FilledQuoteAmount (with_execution o fa fq st)) with fq.
  change (r_Side (with_execution o fa fq st)) with (r_Side o).
  rewrite Ht, !tsum_snoc, !(decide_True (P := of_order id row)) by done. cbn beta. split; [lra|]. split; [lra|].
  intros Hs. specialize (H3 Hs). rewrite decide_True by auto. rewrite H3, Hfee, Hq. ring.
Qed.

Lemma trade_key_not_transfer trade : ~ transfer_key (trade_journal_key trade).
Proof.
  intros [[i E]|[ref E]]; [done|]. unfold confirm_keys in E. rewrite !elem_of_cons, elem_of_nil in E. by destruct E as [E|[E|[E|[]]]].
Qed.

Lemma sys_settle t s t' s' row : sys_ok t s -> store_ok t' s' -> seq_le s s' -> tb_trades t' = tb_trades t ++ [row] ->
  trade_settled row t t' -> dval (t_BuyerFee row) == fee_rate * quote_of row ->
  (forall buy, tb_orders t !! t_BuyOrderID row = Some buy -> leaves_budget row buy) -> sys_ok t' s'.
Proof.
  intros Hsys Hok Hs Htr [buy sell buy' sell' Hbuy Hsell Hm Hfb Hfs _ _ Hor Hbal Hk _ (_ & Htf & _)] Hfee Hbud.
  pose proof Hm as (Hbs & Hss & Hbc & Hsc & Hbo & Hso & _).
  assert (Hne : t_SellOrderID row <> t_BuyOrderID row) by (intros E; rewrite E, Hbuy in Hsell; congruence).
  assert (Hsell1 : <[t_BuyOrderID row := buy']> (tb_orders t) !! t_SellOrderID row = Some sell) by (by rewrite lookup_insert_ne).
  pose proof (sy_orders _ _ Hsys _ _ Hbuy) as Hwb. pose proof (sy_orders _ _ Hsys _ _ Hsell) as Hws.
  pose proof (filled_outstanding row buy buy' Hwb Hbo Hfb (fun _ => Hbud buy Hbuy)) as Hob.
  pose proof (filled_outstanding row sell sell' Hws Hso Hfs) as Hos. rewrite Hss in Hos. specialize (Hos ltac:(done)).
  unfold taken in Hob, Hos. rewrite decide_True in Hob by done. rewrite decide_False in Hos by (by rewrite Hss).
  assert (Hsame : forall o o', filled_by row o o' -> r_UserID o' = r_UserID o /\ orderHoldAsset o' = orderHoldAsset o).
  { by intros o o' (fa & fq & st & -> & _). }
  split; rewrite ?Hor, ?Htr, ?Htf.
  - done.
  - apply map_Forall_insert_2; [by apply (order_wf_filled row sell sell')|].
    apply map_Forall_insert_2; [by apply (order_wf_filled row buy buy') | apply Hsys].
  - intros u a. unfold locked. rewrite Hbal, locked_effect, (map_sum_update _ _ _ _ _ Hsell1), (map_sum_update _ _ _ _ _ Hbuy).
    destruct (Hsame _ _ Hfb) as [Eb1 Eb2], (Hsame _ _ Hfs) as [Es1 Es2].
    rewrite (held_diff u a _ _ _ Eb1 Eb2 Hob), (held_diff u a _ _ _ Es1 Es2 Hos).
    fold (locked t u a). rewrite (sy_locked _ _ Hsys).
    assert (orderHoldAsset buy = KRWAssetSymbol) as -> by (unfold orderHoldAsset; by rewrite decide_True).
    assert (orderHoldAsset sell = t_CoinSymbol row) as -> by (unfold orderHoldAsset; rewrite decide_False; [done | by rewrite Hss]). lra.
  - intros id o Ho. apply lookup_insert_Some in Ho as [[<- <-]|[Hn Ho]].
    { apply (fills_filled t t' row _ sell sell'); [done | by right | done | done | by rewrite Hss | by apply (sy_fills _ _ Hsys)]. }
    apply lookup_insert_Some in Ho as [[<- <-]|[Hn' Ho]].
    { apply (fills_filled t t' row _ buy buy'); [done | by left | done | done | done | by apply (sy_fills _ _ Hsys)]. }
    apply (fills_snoc t t' row); [done | by intros [?|?] | by apply (sy_fills _ _ Hsys)].
  - apply Forall_app. split.
    + eapply Forall_impl; [apply (sy_trades _ _ Hsys)|]. cbn. intros tr [H1 H2]. rewrite !lookup_insert_is_Some'. by auto.
    + apply Forall_singleton. rewrite !lookup_insert_is_Some'. auto.
  - intros id reason Hf. apply Hk in Hf as [Hf|E]; [|done]. destruct (sy_releases _ _ Hsys id reason Hf) as (x & Hx & Hcl).
    exists x. split; [|done]. rewrite !lookup_insert_ne; [done | |]; intros <-; [rewrite Hx in Hbuy | rewrite Hx in Hsell]; simplify_eq;
      apply open_cancellable in Hbo, Hso; congruence.
  - intros id Hf. apply Hk in Hf as [Hf|E]; [|done]. rewrite !lookup_insert_is_Some'. right. right. by apply (sy_holds _ _ Hsys).
  - apply (transfers_ok_frame t t' s s'); [done | done | | apply Hsys]. intros k Hf. apply Hk in Hf as [Hf| ->]; [by left|].
    right. apply trade_key_not_transfer.
Qed.
End LockedFunds.
