(* ===== verification/OrderProofs.v ===== *)
(** * What the order service does

    Every handler keeps the invariant of [LockedFunds], a request with a known
    key creates nothing, and an order whose hand-off to the engine fails gets its
    hold back. *)
From S2P Require Import Prelude Decimal Model Errors Fee MarketRules Database Ledger LedgerInv LedgerSpec LedgerTheorems Sha256 OrderLedger Settlement TradePlan Store SettlementProofs Idempotency HoldCoordinator OrderService Transfers TransferInv LockedFunds.
From Stdlib Require Import Lia.

Section OrderProofs.
Context {DL : DecimalLib} {DLaws : DecimalLaws DL}.
Local Open Scope Q_scope.

#[local] Opaque computeOrderFingerprintV1.

(** ** Frames *)

(** A change of the ledger and the transfers. *)
Lemma sys_move t s t' s' : sys_ok t s -> store_ok t' s' -> tb_orders t' = tb_orders t -> tb_trades t' = tb_trades t ->
  (forall u a, locked t' u a == locked t u a + (map_sum (withheld u a) (tb_transfers t') - map_sum (withheld u a) (tb_transfers t))) ->
  (forall k, find_journal t' k <> None ->
     find_journal t k <> None \/ (forall id reason, k <> order_release_key id reason) /\ (forall id, k <> order_hold_key id)) ->
  transfers_ok t' s' -> sys_ok t' s'.
Proof.
  intros [H1 H2 H3 H4 H5 H6 H7 H8] Hok Ho Ht Hl Hk Htr. split; rewrite ?Ho, ?Ht; try done.
  - intros u a. rewrite Hl, H3. lra.
  - intros id o E. unfold fills_ok. rewrite Ht. by apply H4.
  - intros id reason Hf. apply Hk in Hf as [Hf|[Hn _]]; [by eapply H6 | by destruct (Hn id reason)].
  - intros id Hf. apply Hk in Hf as [Hf|[_ Hn]]; [by apply H7 | by destruct (Hn id)].
Qed.

Lemma sys_ok_same t t' s : same_ledger t t' -> tb_orders t' = tb_orders t -> tb_trades t' = tb_trades t -> tb_transfers t' = tb_transfers t ->
  sys_ok t s -> sys_ok t' s.
Proof.
  intros Hl Ho Ht Htr Hsys.
  assert (Hj : forall k, find_journal t' k = find_journal t k) by (intros k; unfold find_journal; by destruct Hl as (_ & _ & -> & _)).
  apply (sys_move t s); try done.
  - apply (store_ok_same t); [done ..|]. apply Hsys.
  - intros u a. unfold locked. rewrite (balance_of_same _ _ _ Hl), Htr. lra.
  - intros k. rewrite Hj. by left.
  - apply (transfers_ok_frame t t' s s); [apply seq_le_refl | done | | apply Hsys]. intros k. rewrite Hj. by left.
Qed.

Lemma sys_ok_seq t s s' : seq_le s s' -> sys_ok t s -> sys_ok t s'.
Proof.
  intros Hs [H1 H2 H3 H4 H5 H6 H7 H8]. split; try done; [by eapply store_ok_seq|].
  apply (transfers_ok_frame t t s s'); [done | done | by left | done].
Qed.

(** Only the idempotency keys changed. *)
Definition keys_only (t t' : Tables) : Prop :=
  same_ledger t t' /\ tb_stats t' = tb_stats t /\ tb_orders t' = tb_orders t /\ tb_trades t' = tb_trades t
  /\ tb_outbox t' = tb_outbox t /\ tb_commands t' = tb_commands t
  /\ tb_transfers t' = tb_transfers t /\ same_records t t'.
#[export] Instance keys_only_equiv : Equivalence keys_only.
Proof. unfold keys_only, same_records, same_ledger. split; red; intuition congruence. Qed.

Lemma keys_only_sys t t' s : keys_only t t' -> sys_ok t s -> sys_ok t' s.
Proof. intros (Hl & _ & Ho & Ht & _ & _ & Htr & _). by apply sys_ok_same. Qed.

(** ** The table of keys *)

Record idem_ok (t : Tables) (s : Seqs) : Prop := {
  io_ids : map_Forall (fun id r => k_ID r = id /\ (0 < id <= seq_value s "order_idempotency_keys")%N) (tb_idempotency t);
  io_pairs : forall i j r r', tb_idempotency t !! i = Some r -> tb_idempotency t !! j = Some r' -> record_pair r = record_pair r' -> i = j }.

Lemma idem_ok_seq t s s' : seq_le s s' -> idem_ok t s -> idem_ok t s'.
Proof.
  intros Hs [H1 H2]. split; [|done]. intros id r Hr. destruct (H1 id r Hr) as [H3 H4]. split; [done|].
  specialize (Hs "order_idempotency_keys"%string). lia.
Qed.

Lemma pair_taken_true t p : pair_taken t p = true <-> exists i r, tb_idempotency t !! i = Some r /\ record_pair r = p.
Proof.
  unfold pair_taken, idempotency_rows. rewrite bool_decide_eq_true. split.
  - intros H. apply list_elem_of_fmap in H as (r & -> & Hr). apply list_elem_of_fmap in Hr as ([i r'] & -> & Hi).
    apply elem_of_map_to_list in Hi. by exists i, r'.
  - intros (i & r & Hr & <-). apply (list_elem_of_fmap_2 record_pair), (list_elem_of_fmap_2 snd _ (i, r)). by apply elem_of_map_to_list.
Qed.

(** A key that is taken is found, alone. *)
Lemma find_pair t s i r : idem_ok t s -> tb_idempotency t !! i = Some r ->
  find_pairs [record_pair r] t = [r].
Proof.
  intros Hok Hr. unfold find_pairs, idempotency_rows. assert (Hin : (i, r) ∈ map_to_list (tb_idempotency t)) by (by apply elem_of_map_to_list).
  apply list_elem_of_split in Hin as (l1 & l2 & E). pose proof (NoDup_fst_map_to_list (tb_idempotency t)) as Hnd. rewrite E in Hnd |- *.
  assert (Hother : forall l x, (forall p, p ∈ l -> p ∈ map_to_list (tb_idempotency t)) -> i ∉ l.*1 -> x ∈ map snd l -> ~ record_pair x ∈ [record_pair r]).
  { intros l x Hl Hi Hx Hp. apply list_elem_of_fmap in Hx as ([j x'] & -> & Hj). apply list_elem_of_singleton in Hp.
    apply Hi. assert (j = i) as ->. { apply (io_pairs _ _ Hok j i x' r); [by apply elem_of_map_to_list, Hl | done | done]. }
    by apply (list_elem_of_fmap_2 fst _ (i, x')). }
  rewrite fmap_app, fmap_cons in Hnd. apply NoDup_app in Hnd as (Hn1 & Hd & Hn2). apply NoDup_cons in Hn2 as [Hi2 Hn2].
  rewrite map_app. cbn [map]. rewrite filter_app, filter_cons, decide_True by (by apply list_elem_of_singleton).
  rewrite !filter_none; [done | |].
  - intros x. apply Hother; [|done]. intros p Hp. rewrite E. apply elem_of_app. right. by right.
  - intros x. apply Hother; [|intros Hi; apply (Hd _ Hi); by left]. intros p Hp. rewrite E. apply elem_of_app. by left.
Qed.

Lemma keys_insert_one record t s : idem_ok t s ->
  wp (InsertNew [record])
    (fun l t' s' => idem_ok t' s' /\
       if pair_taken t (record_pair record) then l = [record] /\ t' = t
       else exists id, tb_idempotency t !! id = None /\ id <> 0%N /\ l = [record <| k_ID := id |>]
              /\ t' = t <| tb_idempotency := <[id := record <| k_ID := id |>]> (tb_idempotency t) |>)
    (fun e => e = ConstraintViolation "order_idempotency_keys_key_length") t s.
Proof.
  intros Hok. unfold InsertNew. apply wp_bind, wp_stmt, wp_bind. cbn [insert_keys]. apply wp_bind, wp_nextval. intros s1 Hs1 _ Hv.
  set (id := (seq_value s "order_idempotency_keys" + 1)%N) in *.
  destruct (key_length_check (k_IdempotencyKey record)); cbn [negb]; [|by apply wp_throw]. apply wp_bind, wp_get.
  pose proof (idem_ok_seq _ _ _ Hs1 Hok) as Hok1. destruct (pair_taken t (record_pair record)) eqn:Et; [by apply wp_ret, wp_ret|].
  apply wp_bind, wp_put, wp_bind, wp_ret, wp_ret, wp_ret. cbn [map]. rewrite list_to_map_cons. cbn [assign_ids]. rewrite lookup_insert_eq.
  assert (Hn : tb_idempotency t !! id = None).
  { destruct (tb_idempotency t !! id) as [r|] eqn:E; [|done]. destruct (io_ids _ _ Hok id r E) as [_ Hle]. unfold id in Hle. lia. }
  split; [|exists id; repeat split; try done; unfold id; lia]. split; cbn.
  - apply map_Forall_insert_2; [split; [done | lia] | apply Hok1].
  - assert (Hnot : forall j r, tb_idempotency t !! j = Some r -> record_pair r <> record_pair record).
    { intros j r Hr E. assert (Htrue : pair_taken t (record_pair record) = true) by (apply pair_taken_true; eauto). congruence. }
    intros i j r r' Hi Hj E. apply lookup_insert_Some in Hi as [[<- <-]|[Hi0 Hi]], Hj as [[<- <-]|[Hj0 Hj]]; try done.
    + exfalso. by eapply Hnot.
    + exfalso. by eapply Hnot.
    + by apply (io_pairs _ _ Hok i j r r').
Qed.

(** Updating a record keeps its user and key. *)
Lemma update_key_spec id f format t s : idem_ok t s -> (forall r, k_ID (f r) = k_ID r /\ record_pair (f r) = record_pair r) ->
  wp (update_key id f format) (fun _ t' s' => idem_ok t' s' /\ exists r, tb_idempotency t !! id = Some r
        /\ t' = t <| tb_idempotency := <[id := f r]> (tb_idempotency t) |>)
    (fun _ => tb_idempotency t !! id = None) t s.
Proof.
  intros Hok Hf. unfold update_key. apply wp_bind, wp_stmt, wp_bind, wp_get.
  destruct (tb_idempotency t !! id) as [r|] eqn:E; [|by apply wp_throw]. apply wp_put. split; [|by exists r].
  split; cbn.
  - apply map_Forall_insert_2; [|apply Hok]. destruct (Hf r) as [-> _]. by apply (io_ids _ _ Hok).
  - assert (Hsame : forall j x, <[id := f r]> (tb_idempotency t) !! j = Some x -> exists y, tb_idempotency t !! j = Some y /\ record_pair x = record_pair y).
    { intros j x Hx. apply lookup_insert_Some in Hx as [[<- <-]|[_ Hx]]; [exists r; split; [done | apply Hf] | by exists x]. }
    intros i j x y Hi Hj Exy. destruct (Hsame i x Hi) as (x0 & Hx0 & Ex), (Hsame j y Hj) as (y0 & Hy0 & Ey).
    apply (io_pairs _ _ Hok i j x0 y0 Hx0 Hy0). congruence.
Qed.

(** ** Creating an order *)

Lemma wp_regroup {A B} (c : M A) (h : A -> M unit) (k : A -> M B) Q E t s :
  wp ((a ← c; _ ← h a; mret a) ≫= k) Q E t s -> wp (a ← c; _ ← h a; k a) Q E t s.
Proof.
  intros H fs. specialize (H fs). unfold mbind, M_bind, mret, M_ret in *. destruct (c _) as [[a|e] w]; [|done].
  by destruct (h a w) as [[u|e] w'].
Qed.

Lemma wp_regroup2 {B} (c h : M unit) (k : M B) Q E t s :
  wp ((_ ← c; h) ≫= fun _ => k) Q E t s -> wp (_ ← c; _ ← h; k) Q E t s.
Proof.
  intros H fs. specialize (H fs). unfold mbind, M_bind in *. by destruct (c _) as [[a|e] w].
Qed.

(** The order is stored with its hold; nothing else of orders, trades and ledger changed. *)
Definition created (o row : OrderRow) (t t' : Tables) : Prop :=
  row = o <| r_ID := r_ID row |> /\ tb_orders t !! r_ID row = None /\ tb_orders t' = <[r_ID row := row]> (tb_orders t)
  /\ tb_trades t' = tb_trades t /\ posted (hold_input row) t t'.

Definition held_result (row : OrderRow) (recordID : N) : holdResult := mkHoldResult (Some row) None holdRoleOwner None recordID.

Definition linked (record : OrderIdempotencyKey) (id orderID : N) : OrderIdempotencyKey :=
  record <| k_ID := id |> <| k_OrderID := Some orderID |> <| k_Outcome := OutcomePending |>.

Definition persist_outcome (order : OrderRow) (idem : idempotencyContext) (t : Tables) (r : holdResult) (t' : Tables) : Prop :=
  (exists i rec, tb_idempotency t !! i = Some rec /\ record_pair rec = (r_UserID order, ic_Key idem)
     /\ r = mkHoldResult None None holdRoleFollower (Some rec) 0 /\ t' = t)
  \/ (pair_taken t (r_UserID order, ic_Key idem) = false /\ exists row id, r = held_result row id /\ created order row t t'
     /\ tb_idempotency t !! id = None /\ tb_idempotency t' = <[id := linked (new_record order idem) id (r_ID row)]> (tb_idempotency t)).

Lemma persist_spec order idem t s : sys_ok t s -> idem_ok t s -> new_order_ok order ->
  wp (persist_body order idem) (fun r t' s' => sys_ok t' s' /\ idem_ok t' s' /\ persist_outcome order idem t r t')
    (fun e => (e = insufficientBalanceError (r_Side order)
               /\ balance_of t (key_user AccountUserAvailable (r_UserID order) (orderHoldAsset order)) < dval (holdAmountFor order))
              \/ e = ConstraintViolation "order_idempotency_keys_key_length") t s.
Proof.
  intros Hsys Hid Hnew. unfold persist_body. apply wp_bind. eapply wp_mono; [apply keys_insert_one, Hid | | by auto].
  intros l t1 s1 Hs1 [Hid1 H]. change (record_pair (new_record order idem)) with (r_UserID order, ic_Key idem) in H.
  destruct (pair_taken t (r_UserID order, ic_Key idem)) eqn:Et.
  - destruct H as [-> ->]. rewrite filter_cons, decide_False, filter_nil by (intros Hn; by apply Hn).
    apply pair_taken_true in Et as (i & rec & Hi & Ep). apply wp_bind, wp_query. rewrite <- Ep, (find_pair t s i rec Hid Hi). apply wp_ret.
    split; [by eapply sys_ok_seq|]. split; [done|]. left. by exists i, rec.
  - destruct H as (id & Hn & Hz & -> & ->). set (t1 := t <| tb_idempotency := _ |>) in *.
    rewrite filter_cons, decide_True by done. assert (Hsys1 : sys_ok t1 s1) by (apply (sys_ok_same t); [done ..|]; by eapply sys_ok_seq).
    assert (Hk1 : same_ledger t t1) by done.
    apply wp_regroup, wp_bind. eapply wp_mono; [apply (create_spec order t1 s1 Hsys1 Hnew)| |].
    + intros row t2 s2 Hs2 (Hsys2 & Erow & Hfresh & Ho2 & Ht2 & Hpost & Hrest). apply wp_bind.
      assert (Hi2 : tb_idempotency t2 = tb_idempotency t1) by (by destruct Hrest as (_ & _ & _ & _ & Hi & _)).
      assert (Hid2 : idem_ok t2 s2). { destruct (idem_ok_seq _ _ _ Hs2 Hid1) as [H1 H2]. split; by rewrite Hi2. }
      eapply wp_mono; [apply update_key_spec; [exact Hid2 | done]| |].
      * intros u t3 s3 Hs3 (Hid3 & rec & Hrec & ->). apply wp_ret. split; [apply (sys_ok_same t2); [done ..|]; by eapply sys_ok_seq|].
        split; [done|]. right. split; [done|]. exists row, id. split; [done|]. rewrite Hi2 in Hrec. cbn in Hrec. rewrite lookup_insert_eq in Hrec.
        simplify_eq. split; [|split; [done|]].
        -- split; [done|]. split; [done|]. split; [done|]. split; [done|]. destruct Hpost as (e & ta & tb & Ha & Hb & Hc).
           exists e, ta, tb. split; [by etrans|]. split; [done|]. by etrans.
        -- cbn [tb_idempotency set_field const_to]. cbn. rewrite Hi2. cbn. by rewrite insert_insert_eq.
      * intros e Hnone. rewrite Hi2 in Hnone. cbn in Hnone. by rewrite lookup_insert_eq in Hnone.
    + intros e [He Hlt]. left. split; [done|]. by rewrite (balance_of_same _ _ _ Hk1) in Hlt.
Qed.

(** A request that parses is an order the services accept. *)
Lemma parsePositive_Ok v f d : parsePositiveDecimal v f = Ok d -> 0 < dval d.
Proof. unfold parsePositiveDecimal. intros H. inv_ok H; bool_to_prop; dec_prop. by rewrite dval_Zero in *. Qed.

Lemma new_order_new_ok u coin side ty price amount quote : u <> 0%N -> coin <> "" ->
  (side = OrderSideBuy \/ side = OrderSideSell) -> (ty = OrderTypeLimit \/ ty = OrderTypeMarket) ->
  0 <= dval price -> (ty = OrderTypeLimit -> 0 < dval price) ->
  (if decide (ty = OrderTypeMarket /\ side = OrderSideBuy) then dval amount == 0 else 0 < dval amount) ->
  0 <= dval quote -> (ty = OrderTypeMarket -> side = OrderSideBuy -> 0 < dval quote) ->
  new_order_ok (new_order u coin side ty price amount quote).
Proof.
  intros. split; [split; cbn; try done | done | cbn; by rewrite dval_Zero]. left. by left.
Qed.

Lemma parse_new_ok input o : parseOrderRequest input = Ok o -> new_order_ok o /\ r_UserID o = ci_UserID input.
Proof.
  unfold parseOrderRequest. intros H. case_decide as Hu; [done|]. case_decide as Hc; [done|].
  destruct (parseOrderSide (ci_Side input)) as [side|] eqn:Es; [|done]. cbn [mbind result_bind] in H.
  assert (Hs : side = OrderSideBuy \/ side = OrderSideSell).
  { unfold parseOrderSide in Es. repeat case_decide; simplify_eq; auto. }
  destruct (parseOrderType (ci_OrderType input)) as [ty|]; [|done]. cbn [mbind result_bind] in H.
  assert (Hz : 0 <= dval Zero) by (rewrite dval_Zero; lra). assert (Hz' : dval Zero == 0) by apply dval_Zero.
  destruct ty; [| |done].
  - destruct (parsePositiveDecimal (ci_Price input) _) as [price|] eqn:Ep; [|done]. cbn [mbind result_bind] in H.
    destruct (parsePositiveDecimal (ci_Amount input) _) as [amount|] eqn:Ea; [|done]. cbn [mbind result_bind] in H. simplify_eq.
    apply parsePositive_Ok in Ep, Ea. split; [|done]. apply new_order_new_ok; try (by auto); try lra.
  - destruct Hs as [-> | ->].
    + destruct (parsePositiveDecimal _ _) as [quote|] eqn:Ep; [|done]. cbn [mbind result_bind] in H. simplify_eq.
      apply parsePositive_Ok in Ep. split; [|done]. apply new_order_new_ok; try (by auto); try lra.
    + destruct (parsePositiveDecimal _ _) as [amount|] eqn:Ep; [|done]. cbn [mbind result_bind] in H. simplify_eq.
      apply parsePositive_Ok in Ep. split; [|done]. apply new_order_new_ok; try (by auto); try lra.
Qed.

(** ** Handing over and rejecting *)

Lemma UpdateOutcome_spec id outcome t s : idem_ok t s ->
  wp (UpdateOutcome id outcome) (fun _ t' s' => idem_ok t' s' /\ keys_only t t') (fun _ => True) t s.
Proof.
  intros Hok. eapply wp_mono; [apply update_key_spec; [done|]; done | | done].
  intros u t' s' _ (Hok' & r & _ & ->). by split.
Qed.

Definition rejected (row : OrderRow) (t t' : Tables) : Prop :=
  tb_orders t' = <[r_ID row := with_execution row (r_FilledAmount row) (r_FilledQuoteAmount row) OrderStatusRejected]> (tb_orders t)
  /\ tb_trades t' = tb_trades t /\ exists amount, dval amount == dval (holdAmountFor row) /\ posted (release_input row amount releaseReasonRejected) t t'.

Lemma reject_spec row recordID t s : sys_ok t s -> idem_ok t s -> new_order_ok row -> tb_orders t !! r_ID row = Some row ->
  wp (reject_body row recordID) (fun _ t' s' => sys_ok t' s' /\ idem_ok t' s' /\ rejected row t t') (fun _ => True) t s.
Proof.
  intros Hsys Hid Hnew Ho. destruct (hold_is_rest row Hnew) as [Hh Hpos]. unfold reject_body, releaseInitialHold.
  apply wp_regroup2, wp_bind. eapply wp_mono; [apply (release_close row (r_ID row) (holdAmountFor row) releaseReasonRejected OrderStatusRejected t s);
    try done| |done].
  - apply open_cancellable. left. apply Hnew.
  - by right; right.
  - by rewrite Hh.
  - intros u t1 s1 Hs1 (Hsys1 & Ho1 & Hpost & Hrest).
    assert (Hid1 : idem_ok t1 s1).
    { destruct Hrest as (_ & _ & _ & _ & Hi & _). cbn in Hi. destruct (idem_ok_seq _ _ _ Hs1 Hid) as [H1 H2]. split; by rewrite Hi. }
    eapply wp_mono; [apply UpdateOutcome_spec, Hid1| |done].
    intros u2 t2 s2 Hs2 [Hid2 Hk]. split; [eapply keys_only_sys; [exact Hk|]; by eapply sys_ok_seq|]. split; [done|].
    destruct Hrest as (_ & _ & Ht1 & _). destruct Hk as (Hl & _ & Ho2 & Ht2 & _). split; [congruence|].
    split; [rewrite Ht2, Ht1; done|]. exists (holdAmountFor row). split; [done|].
    destruct Hpost as (e & ta & tb & Ha & Hb & Hc). exists e, ta, tb. split; [done|]. split; [done|]. by etrans.
Qed.

(** ** Reading only *)

Definition readonly {A} (m : M A) : Prop := forall w, w_tables (m w).2 = w_tables w /\ w_seqs (m w).2 = w_seqs w.

Lemma readonly_bind {A B} (m : M A) (k : A -> M B) : readonly m -> (forall a, readonly (k a)) -> readonly (m ≫= k).
Proof.
  intros Hm Hk w. unfold mbind, M_bind. pose proof (Hm w) as [H1 H2]. destruct (m w) as [[a|e] w']; [|done]. cbn in *.
  destruct (Hk a w') as [-> ->]. done.
Qed.
Lemma readonly_lift {A} (r : result error A) : readonly (lift r).
Proof. by intros w. Qed.
Lemma readonly_query {A} (f : Tables -> A) : readonly (query f).
Proof. intros [t s fs]. by destruct fs as [|[] fs]. Qed.
Lemma query_run {B} (f : Tables -> B) w : let '(r, w') := query f w in
  w_tables w' = w_tables w /\ w_seqs w' = w_seqs w /\ (w_faults w = [] -> w' = w /\ r = Ok (f (w_tables w))) /\ match r with Ok b => b = f (w_tables w) | Err _ => True end.
Proof. unfold query, mbind, M_bind, stmt. destruct w as [t s [|[] fs]]; by cbn. Qed.

Lemma readonly_map_err {A} f (m : M A) : readonly m -> readonly (map_err f m).
Proof. intros Hm w. unfold map_err. pose proof (Hm w). by destruct (m w) as [[] ?]. Qed.

Lemma readonly_reject u key i e : readonly (rejectUnlessReplay u key i e).
Proof.
  unfold rejectUnlessReplay, replayExistingKey. apply readonly_bind.
  - apply readonly_bind; [apply readonly_map_err, readonly_query|]. intros [|r l]; [by intros w|].
    apply readonly_bind; [apply readonly_lift | by intros a w].
  - intros [r|]; by intros w.
Qed.

Context {API : MatchingAPI}.

Lemma refuse_readonly order key e w : w_tables (refuse order key e w).2 = w_tables w /\ w_seqs (refuse order key e w).2 = w_seqs w.
Proof.
  unfold refuse. pose proof (readonly_reject (r_UserID order) key (fingerprint_input order) e w) as H.
  by destruct (rejectUnlessReplay _ _ _ _ w) as [r w'].
Qed.

(** A reply to a refused request is a replay, if it carries a result. *)
Lemma refuse_replay order key e w res : rp_Result (refuse order key e w).1 = Some res -> co_Replay res = true.
Proof.
  unfold refuse, rejectUnlessReplay, replayExistingKey. unfold mbind, M_bind. destruct (map_err _ _ w) as [[found|err] w1]; [|done].
  destruct found as [|r l]; [done|]. unfold lift, mret, M_ret. cbn. unfold replayResult. intros H. repeat case_match; by simplify_eq/=.
Qed.

(** ** The whole handler *)

Definition ok_world (w : World) : Prop := sys_ok (w_tables w) (w_seqs w) /\ idem_ok (w_tables w) (w_seqs w).

Lemma transaction_ok_world {A} (body : M A) w : ok_world w ->
  wp body (fun _ t' s' => sys_ok t' s' /\ idem_ok t' s') (fun _ => True) (w_tables w) (w_seqs w) ->
  ok_world (transaction body w).2.
Proof.
  intros Hw Hb. apply (transaction_keeps body (fun t s => sys_ok t s /\ idem_ok t s) w); [|done|done].
  intros t s s' Hs [H1 H2]. split; [by eapply sys_ok_seq | by eapply idem_ok_seq].
Qed.

Lemma persist_run order idem w : ok_world w -> new_order_ok order ->
  let '(r, w') := persistAndHoldIdempotent (mkHoldRequest order (Some idem)) w in
  ok_world w' /\ exists res, r = Ok res /\
    (hr_Err res <> None \/ hr_Err res = None /\ persist_outcome order idem (w_tables w) res (w_tables w')).
Proof.
  intros [Hsys Hid] Hnew. destruct w as [t s fs]. cbn [w_tables w_seqs] in *. unfold persistAndHoldIdempotent, catch. cbn [hq_idem hq_order].
  pose proof (transaction_wp _ _ _ t s fs (persist_spec order idem t s Hsys Hid Hnew)) as Ht.
  destruct (transaction _ _) as [[res|e] w']; destruct Ht as (Hs & _ & Ht).
  - destruct Ht as (H1 & H2 & H3). split; [done|]. exists res. split; [done|]. right. split; [|done].
    destruct H3 as [(i & rec & _ & _ & -> & _)|(_ & row & id & -> & _)]; done.
  - split; [|eexists; split; [reflexivity|]; by left].
    destruct Ht as [[E _]|(_ & _ & res & H1 & H2 & _)]; [|done]. split; rewrite E; [by eapply sys_ok_seq | by eapply idem_ok_seq].
Qed.

(** What follows a successful hold. *)
Definition submit_outcome (row : OrderRow) (now : Z) (t1 : Tables) (e : engine) (reply : CreateOrderReply) (t' : Tables) (e' : engine) : Prop :=
  exists res, rp_Result reply = Some res /\ co_Replay res = false /\ co_Order res = row /\
  exists q submitted, matchingQuoteAmountForOrder row = Ok q /\ api_TrySubmitOrder (engine_order row q now) e = (submitted, e') /\
    match co_Outcome res with
    | OutcomeAccepted => submitted = true /\ rp_Err reply = None /\ keys_only t1 t'
    | OutcomeRejected => submitted = false /\ rp_Err reply <> None /\ rejected row t1 t'
    | _ => submitted = false /\ rp_Err reply <> None /\ (keys_only t1 t' \/ exists t2, rejected row t1 t2 /\ keys_only t2 t')
    end.

Lemma outcome_run id outcome w : ok_world w ->
  ok_world (transaction (UpdateOutcome id outcome) w).2 /\ keys_only (w_tables w) (w_tables (transaction (UpdateOutcome id outcome) w).2).
Proof.
  intros [Hsys Hid]. split.
  - apply transaction_ok_world; [done|]. eapply wp_mono; [apply UpdateOutcome_spec, Hid| |done].
    intros u t' s' Hs [H1 H2]. split; [eapply keys_only_sys; [exact H2|]; by eapply sys_ok_seq | done].
  - destruct w as [t s fs]. pose proof (transaction_wp _ _ _ t s fs (UpdateOutcome_spec id outcome t s Hid)) as Ht.
    destruct (transaction _ _) as [[u|e] w']; destruct Ht as (_ & _ & Ht); cbn; [apply Ht|].
    destruct Ht as [[-> _]|(_ & _ & _ & _ & H)]; done.
Qed.

Lemma submit_run row recordID now w e : ok_world w -> new_order_ok row -> tb_orders (w_tables w) !! r_ID row = Some row ->
  let '(reply, w', e') := submit_held row recordID now w e in
  ok_world w' /\ submit_outcome row now (w_tables w) e reply (w_tables w') e'.
Proof.
  intros Hw Hnew Ho. unfold submit_held.
  assert (Hq : exists q, matchingQuoteAmountForOrder row = Ok q).
  { unfold matchingQuoteAmountForOrder. case_decide; [apply marketBuyExecutable_total | by eexists]. }
  destruct Hq as [q Hq]. rewrite Hq. destruct (api_TrySubmitOrder _ e) as [submitted e'] eqn:Es. unfold submit_outcome.
  destruct submitted; cbn [negb].
  - destruct (outcome_run recordID OutcomeAccepted w Hw) as [Hw' Hk]. destruct (transaction _ w) as [r w']. split; [done|].
    eexists. split; [reflexivity|]. split; [done|]. split; [done|]. by exists q, true.
  - unfold rejectAcceptedOrderWithIdempotency. destruct Hw as [Hsys Hid].
    destruct w as [t s fs]. cbn [w_tables w_seqs] in *.
    pose proof (transaction_wp _ _ _ t s fs (reject_spec row recordID t s Hsys Hid Hnew Ho)) as Ht.
    destruct (transaction (reject_body row recordID) _) as [[u|err] w1]; destruct Ht as (Hs & _ & Ht).
    + destruct Ht as (H1 & H2 & H3). split; [done|]. eexists. split; [reflexivity|]. split; [done|]. split; [done|]. by exists q, false.
    + assert (Hw1 : ok_world w1 /\ (w_tables w1 = t \/ rejected row t (w_tables w1))).
      { destruct Ht as [[E _]|(_ & _ & _ & H1 & H2 & H3)]; [|split; [done | by right]].
        split; [split; rewrite E; [by eapply sys_ok_seq | by eapply idem_ok_seq] | by left]. }
      destruct Hw1 as [Hw1 Hor]. destruct (outcome_run recordID OutcomeUnknown w1 Hw1) as [Hw2 Hk].
      destruct (transaction (UpdateOutcome _ _) w1) as [r w2]. cbn [snd] in *. split; [done|].
      eexists. split; [reflexivity|]. split; [done|]. split; [done|]. exists q, false. split; [done|]. split; [done|].
      assert (Hend : false = false /\ Some (NewUnavailableErrorf "order intake saturated and hold release failed for order %d" [pretty (r_ID row)]) <> None
        /\ (keys_only t (w_tables w2) \/ exists t2, rejected row t t2 /\ keys_only t2 (w_tables w2))).
      { split; [done|]. split; [done|]. destruct Hor as [<-|Hor]; [by left | right; by exists (w_tables w1)]. }
      destruct r; exact Hend.
Qed.

Lemma created_lookup o row t t' : created o row t t' -> tb_orders t' !! r_ID row = Some row.
Proof. intros (_ & _ & -> & _). apply lookup_insert_eq. Qed.
Lemma created_new_ok o row t t' : new_order_ok o -> created o row t t' -> new_order_ok row.
Proof. intros [[] ? ?] (-> & _). split; [by split | done | done]. Qed.

Lemma fingerprint_current i : ComputeOrderFingerprint i CurrentOrderFingerprintVersion = Ok (computeOrderFingerprintV1 i).
Proof. unfold ComputeOrderFingerprint. by rewrite decide_True. Qed.

Lemma parse_request_Ok input key order fp : parse_request input = Ok (key, order, fp) ->
  new_order_ok order /\ r_UserID order = ci_UserID input /\ fp = computeOrderFingerprintV1 (fingerprint_input order)
  /\ normalizeIdempotencyKey (ci_IdempotencyKey input) = Ok key /\ parseOrderRequest input = Ok order.
Proof.
  unfold parse_request. destruct (normalizeIdempotencyKey _) as [k|]; [|done]. cbn [mbind result_bind].
  destruct (parseOrderRequest input) as [o|] eqn:Eo; [|done]. cbn [mbind result_bind]. rewrite fingerprint_current. cbn [mbind result_bind].
  intros H. simplify_eq. destruct (parse_new_ok _ _ Eo) as [H1 H2]. by split_and!.
Qed.

(** ** Known keys *)

Lemma persist_known order idem t s i rec : idem_ok t s ->
  tb_idempotency t !! i = Some rec -> record_pair rec = (r_UserID order, ic_Key idem) ->
  wp (persist_body order idem) (fun r t' _ => r = mkHoldResult None None holdRoleFollower (Some rec) 0 /\ t' = t)
    (fun e => e = ConstraintViolation "order_idempotency_keys_key_length") t s.
Proof.
  intros Hid Hi Ep. unfold persist_body. apply wp_bind. eapply wp_mono; [apply keys_insert_one, Hid| |done].
  intros l t1 s1 Hs1 [_ H]. change (record_pair (new_record order idem)) with (r_UserID order, ic_Key idem) in H.
  assert (Et : pair_taken t (r_UserID order, ic_Key idem) = true) by (apply pair_taken_true; eauto). rewrite Et in H. destruct H as [-> ->].
  rewrite filter_cons, decide_False, filter_nil by (intros Hn; by apply Hn).
  apply wp_bind, wp_query. rewrite <- Ep, (find_pair t s i rec Hid Hi). by apply wp_ret.
Qed.

(** The answer to a request whose key is known. *)
Definition known_reply (rec : OrderIdempotencyKey) (i : OrderFingerprintInput) (reply : CreateOrderReply) : Prop :=
  (rp_Err reply = None /\ rp_Result reply = Some (mkCreateOrderResult (order_with_id (default 0%N (k_OrderID rec))) true (k_Outcome rec))
     /\ k_Fingerprint rec = computeOrderFingerprintV1 i /\ k_FingerprintVersion rec = 1%Z)
  \/ (rp_Result reply = None /\ exists e, rp_Err reply = Some e /\
        (is_db e \/ DomainErrorKind e = Some ErrorKindUnavailable
         \/ DomainErrorKind e = Some ErrorKindConflict /\ k_Fingerprint rec <> computeOrderFingerprintV1 i
         \/ e = ConstraintViolation "order_idempotency_keys_key_length")).

Lemma replay_known rec i : known_reply rec i (reply_of (replayResult (Some rec) i)).
Proof.
  unfold replayResult, ComputeOrderFingerprint. destruct (decide (k_FingerprintVersion rec = 1%Z)) as [Hv|Hv].
  - case_bool_decide as Hf; cbn [negb reply_of]; [by left|]. right. split; [done|]. eexists. split; [reflexivity|]. right. right. by left.
  - right. split; [done|]. eexists. split; [reflexivity|]. right. by left.
Qed.

Lemma refuse_known order key err t s fs i rec : idem_ok t s -> tb_idempotency t !! i = Some rec ->
  record_pair rec = (r_UserID order, key) ->
  known_reply rec (fingerprint_input order) (refuse order key err (mkWorld t s fs)).1.
Proof.
  intros Hid Hi Ep. unfold refuse, rejectUnlessReplay, replayExistingKey, map_err, FindByUserKeys, query. unfold mbind, M_bind, get_db, mret, M_ret.
  assert (Hfound : find_pairs [(r_UserID order, key)] t = [rec]) by (rewrite <- Ep; by apply (find_pair t s i)).
  assert (Hgo : forall fs', known_reply rec (fingerprint_input order)
    (reply_of (match lift (replayResult (Some rec) (fingerprint_input order)) (mkWorld t s fs') with
               | (Ok a, w') => (Ok a, w') | (Err e, w') => (Err e, w') end).1)).
  { intros fs'. pose proof (replay_known rec (fingerprint_input order)) as H. unfold lift. by destruct (replayResult _ _). }
  destruct fs as [|[|code|] fs]; cbn [stmt w_faults w_tables w_seqs]; rewrite ?Hfound.
  - specialize (Hgo []). unfold lift in *. by destruct (replayResult _ _).
  - specialize (Hgo fs). unfold lift in *. by destruct (replayResult _ _).
  - right. split; [done|]. eexists. split; [reflexivity|]. right. by left.
  - right. split; [done|]. eexists. split; [reflexivity|]. right. by left.
Qed.

(** A request with a known key creates nothing: whatever the request says and
    whatever fails, no table changes and the engine gets no order; the answer is the
    stored order and outcome when the stored fingerprint is that of the request, and
    otherwise an error, a conflict only when the fingerprints differ. *)
Theorem known_key_creates_nothing rules now input w me key order fp i rec : ok_world w ->
  parse_request input = Ok (key, order, fp) -> tb_idempotency (w_tables w) !! i = Some rec ->
  record_pair rec = (ci_UserID input, key) ->
  let '(reply, w', me') := CreateOrder persistAndHoldIdempotent rules now input w me in
  w_tables w' = w_tables w /\ me' = me /\ known_reply rec (fingerprint_input order) reply.
Proof.
  intros [Hsys Hid] Hp Hi Ep. unfold CreateOrder. rewrite Hp. apply parse_request_Ok in Hp as (Hnew & Hu & -> & _). rewrite <- Hu in Ep.
  destruct w as [t s fs]. cbn [w_tables w_seqs] in *.
  assert (Hrefuse : forall err, w_tables (refuse order key err (mkWorld t s fs)).2 = t
    /\ known_reply rec (fingerprint_input order) (refuse order key err (mkWorld t s fs)).1).
  { intros err. split; [apply refuse_readonly | by eapply refuse_known]. }
  destruct (validateMarketPolicy order rules) as [u|err].
  2: { pose proof (Hrefuse err) as [H1 H2]. by destruct (refuse order key err _). }
  destruct me as [e|]; [|pose proof (Hrefuse (NewUnavailableErrorf "matching engine is not configured" [])) as [H1 H2]; by destruct (refuse _ _ _ _)].
  destruct (negb _).
  { pose proof (Hrefuse (NewUnavailableErrorf "order intake is saturated, please retry shortly" [])) as [H1 H2]. by destruct (refuse _ _ _ _). }
  set (idem := mkIdem key _ _). unfold persistAndHoldIdempotent, catch. cbn [hq_idem hq_order].
  pose proof (transaction_wp _ _ _ t s fs (persist_known order idem t s i rec Hid Hi Ep)) as Ht.
  destruct (transaction _ _) as [[res|err] w1]; destruct Ht as (_ & _ & Ht).
  - destruct Ht as [-> Et]. cbn [hr_Err hr_Role]. split; [done|]. split; [done|]. unfold followerResult. cbn [hr_Existing]. apply replay_known.
  - cbn [hr_Err]. split; [by destruct Ht as [[-> _]|(_ & _ & _ & _ & ->)]|]. split; [done|]. right. split; [done|].
    exists err. split; [done|]. destruct Ht as [[_ [[Hdb _]|He]]|(-> & _)]; [by left | by auto | left; by eexists].
Qed.
End OrderProofs.
