(* ===== verification/HoldBatchProofs.v ===== *)
(** * Orders held in batches

    The coordinator creates the orders of a batch in one transaction: all rows first,
    then their holds one by one.  In between, the rows whose hold is not yet posted are
    [pending_rows]; without them the invariant of [LockedFunds] holds.  With the batches
    the replies of [CreateOrder] are shown to be true wherever a request is held. *)
From S2P Require Import Prelude Decimal Model Errors Fee MarketRules Database Ledger LedgerInv LedgerSpec LedgerTheorems Sha256 OrderLedger Settlement TradePlan Store SettlementProofs Idempotency SettlementBatch SettlementBatchProofs HoldCoordinator OrderService Transfers TransferInv LockedFunds OrderProofs.
From Stdlib Require Import Lia.

Section HoldBatchProofs.
Context {DL : DecimalLib} {DLaws : DecimalLaws DL}.
Local Open Scope Q_scope.

(** ** One hold *)

Lemma hold_row_spec row t s : store_ok t s -> new_order_ok row -> find_journal t (order_hold_key (r_ID row)) = None ->
  wp (holdOrderAssets row) (fun _ t' s' => store_ok t' s' /\ same_rest t t' /\ posted (hold_input row) t t') (fun _ => True) t s.
Proof.
  intros Hok Hrow Hj. destruct (hold_is_rest row Hrow) as [Hhold Hpos]. unfold holdOrderAssets. rewrite (wf_valid_side row (no_wf _ Hrow)).
  rewrite (proj2 (IsPositive_true _)) by (by rewrite Hhold). cbn [negb].
  eapply wp_map_err; [apply wp_bind; eapply wp_mono; [apply (transfer_spec JournalEventOrderHold (order_hold_key (r_ID row)) (r_ID row) (r_UserID row)
    (orderHoldAsset row) AccountUserAvailable AccountUserLocked (holdAmountFor row) t s Hok)| |]|..].
  all: try done; try (by left); try (by apply wf_hold_asset, Hrow); try (by rewrite Hhold).
  - intros u t2 s2 Hs2 (Hok2 & Hrest & Hpost). by apply wp_ret.
  - intros e [code ->]. done.
Qed.

Lemma hold_locks row t t' u a : new_order_ok row -> posted (hold_input row) t t' -> locked t' u a == locked t u a + held u a row.
Proof.
  intros Hrow Hpost. destruct (hold_is_rest row Hrow) as [Hhold _]. unfold locked. rewrite (posted_balance _ _ _ _ Hpost).
  change (in_Postings (hold_input row)) with (in_Postings (transfer JournalEventOrderHold (order_hold_key (r_ID row)) (r_ID row) (r_UserID row)
    (orderHoldAsset row) AccountUserAvailable AccountUserLocked (holdAmountFor row))).
  rewrite transfer_key_sum. unfold held, outstanding, on, key_user. rewrite (proj1 (open_cancellable row)) by (left; apply Hrow).
  repeat case_decide; simplify_eq; try lra; exfalso; intuition congruence.
Qed.

(** What the holds of some orders do to an account. *)
Definition hold_sum (k : accountKey) (rows : list OrderRow) : Q := Qsum (map (fun row => key_sum k (in_Postings (hold_input row))) rows).

Lemma hold_sum_cons k row rows : hold_sum k (row :: rows) == key_sum k (in_Postings (hold_input row)) + hold_sum k rows.
Proof. unfold hold_sum. cbn [map]. by rewrite Qsum_cons. Qed.
Lemma hold_sum_app k rows rows' : hold_sum k (rows ++ rows') == hold_sum k rows + hold_sum k rows'.
Proof. unfold hold_sum. by rewrite map_app, Qsum_app. Qed.
Lemma hold_sum_perm k rows rows' : rows ≡ₚ rows' -> hold_sum k rows == hold_sum k rows'.
Proof. apply Qsum_map_perm. Qed.

(** The accounts change by the holds of [rows]. *)
Definition holds_posted (rows : list OrderRow) (t t' : Tables) : Prop := forall k, balance_of t' k == balance_of t k + hold_sum k rows.

Lemma holds_none t t' : same_ledger t t' -> holds_posted [] t t'.
Proof. intros Hl k. rewrite (balance_of_same _ _ _ Hl). unfold hold_sum. cbn. lra. Qed.
Lemma holds_one row t t' : posted (hold_input row) t t' -> holds_posted [row] t t'.
Proof. intros Hp k. rewrite (posted_balance _ _ _ k Hp), hold_sum_cons. unfold hold_sum. cbn. lra. Qed.
Lemma holds_trans rows rows' t t1 t' : holds_posted rows t t1 -> holds_posted rows' t1 t' -> holds_posted (rows ++ rows') t t'.
Proof. intros H1 H2 k. rewrite (H2 k), (H1 k), hold_sum_app. lra. Qed.
Lemma holds_perm rows rows' t t' : rows ≡ₚ rows' -> holds_posted rows t t' -> holds_posted rows' t t'.
Proof. intros Hp H k. by rewrite (H k), (hold_sum_perm k _ _ Hp). Qed.

(** ** Rows before their holds *)

Definition with_orders (orders : gmap N OrderRow) (t : Tables) : Tables := t <| tb_orders := orders |>.
Definition rows_map (rows : list OrderRow) : gmap N OrderRow := list_to_map (map (fun o => (r_ID o, o)) rows).

Record pending_rows (base : gmap N OrderRow) (rows : list OrderRow) (t : Tables) (s : Seqs) : Prop := mkPending {
  pd_sys : sys_ok (with_orders base t) s;
  pd_store : store_ok t s;
  pd_orders : tb_orders t = rows_map rows ∪ base;
  pd_fresh : Forall (fun o => base !! r_ID o = None /\ new_order_ok o) rows;
  pd_ids : NoDup (map r_ID rows) }.

Lemma store_ok_orders t s orders : store_ok t s -> orders ⊆ tb_orders t -> store_ok (with_orders orders t) s.
Proof.
  intros [H1 Hk H3 H4 H5] Hsub. split; try done; [eapply ledger_ok_same; [|exact H1]; done|]. cbn. intros id o Ho. apply H3. by eapply lookup_weaken.
Qed.

(** Posting the hold of the first row. *)
Lemma pending_hold base row rows t s : pending_rows base (row :: rows) t s ->
  wp (holdOrderAssets row) (fun _ t' s' => pending_rows (<[r_ID row := row]> base) rows t' s' /\ same_rest t t' /\ holds_posted [row] t t') (fun _ => True) t s.
Proof.
  intros [Hsys Hok Hor Hfr Hnd]. apply Forall_cons in Hfr as [[Hn Hrow] Hfr]. cbn in Hnd. apply NoDup_cons in Hnd as [Hni Hnd].
  eapply wp_mono; [apply (hold_row_spec row t s Hok Hrow)| |done].
  { change (find_journal t (order_hold_key (r_ID row))) with (find_journal (with_orders base t) (order_hold_key (r_ID row))). destruct (find_journal _ _) eqn:E; [|done].
    destruct (sy_holds _ _ Hsys (r_ID row)) as [x Hx]; [by rewrite E|]. cbn in Hx. congruence. }
  intros _ t' s' Hs (Hok' & Hrest & Hpost). split; [|split; [done|by apply holds_one]]. pose proof Hrest as (_ & Ho' & Ht' & _ & _ & _ & Htf' & _).
  assert (Hor' : tb_orders t' = rows_map rows ∪ <[r_ID row := row]> base).
  { rewrite Ho', Hor. unfold rows_map. cbn [map]. rewrite list_to_map_cons, <- insert_union_l. rewrite insert_union_r; [done|]. apply not_elem_of_list_to_map. by rewrite map_map. }
  split; try done.
  - apply (sys_create (with_orders base t) s (with_orders (<[r_ID row := row]> base) t') s' (r_ID row) row); try done.
    + apply store_ok_orders; [done|]. rewrite Hor'. apply map_union_subseteq_r. apply map_disjoint_spec. intros k x y Hx Hy.
      apply elem_of_list_to_map_2, list_elem_of_fmap in Hx as (o & E & Hin). injection E as -> ->. apply lookup_insert_Some in Hy as [[E _]|[_ Hy]].
      * apply Hni. rewrite E. by apply list_elem_of_fmap_2.
      * rewrite Forall_forall in Hfr. destruct (Hfr o Hin). congruence.
    + intros u a. exact (hold_locks row t t' u a Hrow Hpost).
    + intros k. exact (posted_find _ _ _ k Hpost).
  - apply Forall_forall. intros o Ho. rewrite Forall_forall in Hfr. destruct (Hfr o Ho) as [Hb Hnew]. split; [|done].
    rewrite lookup_insert_ne; [done|]. intros E. apply Hni. rewrite E. by apply list_elem_of_fmap_2.
Qed.

Lemma pending_holds rows : forall base t s, pending_rows base rows t s ->
  wp (for_each holdOrderAssets rows) (fun _ t' s' => sys_ok t' s' /\ tb_orders t' = rows_map rows ∪ base /\ same_rest t t' /\ holds_posted rows t t') (fun _ => True) t s.
Proof.
  induction rows as [|row rows IH]; intros base t s Hp; cbn [for_each].
  - apply wp_ret. destruct Hp as [Hsys _ Hor _ _]. change (rows_map []) with (∅ : gmap N OrderRow) in *. rewrite (left_id_L ∅ (∪)) in Hor |- *. split.
    + by apply (sys_ok_same (with_orders base t)).
    + split; [done|]. split; [done|]. by apply holds_none.
  - apply wp_bind. eapply wp_mono; [apply (pending_hold base row rows t s Hp)| |done]. intros _ t1 s1 Hs1 (Hp1 & Hr1 & Hh1).
    eapply wp_mono; [apply (IH _ _ _ Hp1)| |done]. intros _ t2 s2 Hs2 (Hsys2 & Ho2 & Hr2 & Hh2). split; [done|]. split; [|split; [by etrans|exact (holds_trans [row] rows t t1 t2 Hh1 Hh2)]]. rewrite Ho2.
    pose proof (pd_ids _ _ _ _ Hp) as Hnd. cbn in Hnd. apply NoDup_cons in Hnd as [Hni _].
    unfold rows_map. cbn [map]. rewrite list_to_map_cons, <- insert_union_l, insert_union_r; [done|]. apply not_elem_of_list_to_map. by rewrite map_map.
Qed.

(** Storing the rows. *)
Definition numbered (o row : OrderRow) : Prop := row = o <| r_ID := r_ID row |>.
Definition order_frame (t t' : Tables) : Prop := same_rest (with_orders (tb_orders t') t) t'.

Lemma order_frame_trans t1 t2 t3 : order_frame t1 t2 -> order_frame t2 t3 -> order_frame t1 t3.
Proof. unfold order_frame, same_rest, same_records. cbn. intuition congruence. Qed.

Lemma pending_insert base rows o t s : pending_rows base rows t s -> new_order_ok o ->
  wp (insert_order o) (fun row t' s' => numbered o row /\ pending_rows base (rows ++ [row]) t' s' /\ order_frame t t' /\ same_ledger t t') (fun _ => True) t s.
Proof.
  intros [Hsys Hok Hor Hfr Hnd] Hnew. unfold insert_order. apply wp_bind, wp_nextval. intros s1 Hs1 _ Hseq. rewrite (wf_checks o Hnew). cbn [negb]. apply wp_bind, wp_modify, wp_ret.
  set (id := (seq_value s "orders" + 1)%N) in *. set (row := o <| r_ID := id |>).
  assert (Hfresh : tb_orders t !! id = None).
  { destruct (tb_orders t !! id) as [x|] eqn:E; [|done]. destruct (so_orders _ _ Hok id x E) as (_ & Hle & _). unfold id in Hle. lia. }
  assert (Hrow : new_order_ok row) by (destruct Hnew as [[] ? ?]; split; [by split | done | done]).
  rewrite Hor in Hfresh. apply lookup_union_None in Hfresh as [Hf1 Hf2].
  assert (Hni : id ∉ map r_ID rows).
  { intros Hin. apply list_elem_of_fmap in Hin as (x & E & Hx). apply not_elem_of_list_to_map_2 in Hf1. apply Hf1. rewrite map_map, E. cbn. by apply list_elem_of_fmap_2. }
  split; [done|]. split; [|done]. split.
  - change (sys_ok (with_orders base t) s1). by eapply sys_ok_seq.
  - apply store_ok_update_order; [by eapply store_ok_seq|]. split; [done|]. split; [lia|]. destruct (no_filled _ Hnew) as [Ha Hq]. split; [cbn; lra|]. split; [cbn; lra|]. unfold within_limit. cbn.
    pose proof (ow_amount _ (no_wf _ Hrow)) as H1. pose proof (ow_quote _ (no_wf _ Hrow)) as [H2 _]. cbn in H1, H2. case_decide; lra.
  - cbn [tb_orders set_field]. change (<[id := row]> (tb_orders t) = rows_map (rows ++ [row]) ∪ base). rewrite Hor. unfold rows_map. rewrite map_app. cbn [map].
    change (r_ID row) with id. rewrite list_to_map_snoc by (by rewrite map_map). by rewrite insert_union_l.
  - apply Forall_app. split; [done|]. by apply Forall_singleton.
  - rewrite map_app. apply NoDup_app. split; [done|]. split; [|apply NoDup_singleton]. intros x Hx ->%list_elem_of_singleton. done.
Qed.

Lemma pending_inserts os : forall base rows t s, pending_rows base rows t s -> Forall new_order_ok os ->
  wp (map_each insert_order os) (fun new t' s' => Forall2 numbered os new /\ pending_rows base (rows ++ new) t' s' /\ order_frame t t' /\ same_ledger t t') (fun _ => True) t s.
Proof.
  induction os as [|o os IH]; intros base rows t s Hp Hnew; cbn [map_each].
  - apply wp_ret. rewrite app_nil_r. split; [constructor|]. by split.
  - apply Forall_cons in Hnew as [Ho Hnew]. apply wp_bind. eapply wp_mono; [apply (pending_insert base rows o t s Hp Ho)| |done]. intros row t1 s1 Hs1 (Hn & Hp1 & Hf1 & Hl1).
    apply wp_bind. eapply wp_mono; [apply (IH base (rows ++ [row]) t1 s1 Hp1 Hnew)| |done]. intros new t2 s2 Hs2 (Hn2 & Hp2 & Hf2 & Hl2). apply wp_ret.
    rewrite <- app_assoc in Hp2. split; [by constructor|]. split; [done|]. split; [by eapply order_frame_trans|by etrans].
Qed.

Lemma pending_none t s : sys_ok t s -> pending_rows (tb_orders t) [] t s.
Proof.
  intros Hsys. split; try done.
  - by apply (sys_ok_same t).
  - apply Hsys.
  - change (rows_map []) with (∅ : gmap N OrderRow). by rewrite (left_id_L ∅ (∪)).
  - constructor.
Qed.

(** Storing and holding a list of new orders. *)
Lemma create_orders_spec os t s : sys_ok t s -> Forall new_order_ok os ->
  wp (rows ← CreateOrders os; _ ← for_each holdOrderAssets rows; mret rows)
    (fun rows t' s' => sys_ok t' s' /\ Forall2 numbered os rows /\ NoDup (map r_ID rows) /\ Forall (fun o => tb_orders t !! r_ID o = None) rows
       /\ tb_orders t' = rows_map rows ∪ tb_orders t /\ order_frame t t' /\ holds_posted rows t t') (fun _ => True) t s.
Proof.
  intros Hsys Hnew. apply wp_bind.
  assert (Hins : wp (CreateOrders os) (fun new t' s' => Forall2 numbered os new /\ pending_rows (tb_orders t) new t' s' /\ order_frame t t' /\ same_ledger t t') (fun _ => True) t s).
  { destruct os as [|o os]; [apply wp_ret; split; [done|]; split; [by apply pending_none|done]|]. unfold CreateOrders. apply wp_bind, wp_stmt.
    exact (pending_inserts (o :: os) (tb_orders t) [] t s (pending_none t s Hsys) Hnew). }
  eapply wp_mono; [exact Hins| |done]. intros rows t1 s1 Hs1 (Hn & Hp & Hf & Hl). apply wp_bind.
  eapply wp_mono; [apply (pending_holds rows _ _ _ Hp)| |done]. intros _ t2 s2 Hs2 (Hsys2 & Ho2 & Hr2 & Hh2). apply wp_ret.
  split; [done|]. split; [done|]. split; [apply Hp|]. split; [eapply Forall_impl; [apply Hp|]; by intros o [? _]|]. split; [done|].
  split; [|exact (holds_trans [] rows t t1 t2 (holds_none _ _ Hl) Hh2)]. eapply order_frame_trans; [exact Hf|]. unfold order_frame, same_rest, same_records in *. cbn. intuition congruence.
Qed.

(** ** Keys and accounts *)

Lemma idem_ok_insert record id t s : idem_ok t s -> tb_idempotency t !! id = None -> (0 < id <= seq_value s "order_idempotency_keys")%N ->
  pair_taken t (record_pair record) = false -> idem_ok (t <| tb_idempotency := <[id := record <| k_ID := id |>]> (tb_idempotency t) |>) s.
Proof.
  intros Hok Hn Hid Et. split; cbn.
  - apply map_Forall_insert_2; [by split | apply Hok].
  - assert (Hnot : forall j r, tb_idempotency t !! j = Some r -> record_pair r <> record_pair record).
    { intros j r Hr E. assert (Htrue : pair_taken t (record_pair record) = true) by (apply pair_taken_true; eauto). congruence. }
    intros i j r r' Hi Hj E. apply lookup_insert_Some in Hi as [[<- <-]|[Hi0 Hi]], Hj as [[<- <-]|[Hj0 Hj]]; try done.
    + exfalso. by eapply Hnot.
    + exfalso. by eapply Hnot.
    + by apply (io_pairs _ _ Hok i j r r').
Qed.

Lemma insert_keys_spec records : forall t s, idem_ok t s ->
  wp (insert_keys records) (fun _ t' s' => idem_ok t' s' /\ keys_only t t') (fun _ => True) t s.
Proof.
  induction records as [|record records IH]; intros t s Hok; cbn [insert_keys]; [by apply wp_ret|].
  apply wp_bind, wp_nextval. intros s1 Hs1 _ Hv. destruct (key_length_check _); cbn [negb]; [|by apply wp_throw]. apply wp_bind, wp_get.
  pose proof (idem_ok_seq _ _ _ Hs1 Hok) as Hok1. destruct (pair_taken t (record_pair record)) eqn:Et; [by apply IH|].
  apply wp_bind, wp_put, wp_bind. set (id := (seq_value s "order_idempotency_keys" + 1)%N) in *. set (t1 := t <| tb_idempotency := _ |>).
  assert (Hn : tb_idempotency t !! id = None).
  { destruct (tb_idempotency t !! id) as [r|] eqn:E; [|done]. destruct (io_ids _ _ Hok id r E) as [_ Hle]. unfold id in Hle. lia. }
  eapply wp_mono; [apply (IH t1 s1); apply idem_ok_insert; [done|done|unfold id in *; lia|done]| |done].
  intros rows t2 s2 _ [Hok2 Hk2]. apply wp_ret. split; [done|]. by transitivity t1.
Qed.

Lemma assign_ids_length records : forall ids, length (assign_ids ids records) = length records.
Proof. induction records as [|r records IH]; intros ids; [done|]. cbn. by destruct (ids !! record_pair r); cbn; rewrite IH. Qed.

Lemma InsertNew_spec records t s : idem_ok t s ->
  wp (InsertNew records) (fun l t' s' => idem_ok t' s' /\ keys_only t t' /\ length l = length records) (fun _ => True) t s.
Proof.
  intros Hok. unfold InsertNew. destruct records as [|r records]; [by apply wp_ret|]. apply wp_bind, wp_stmt, wp_bind.
  eapply wp_mono; [by apply insert_keys_spec| |done]. intros rows t1 s1 _ [H1 H2]. apply wp_ret. by rewrite assign_ids_length.
Qed.

Lemma FindByUserKeys_reads pairs t s : wp (FindByUserKeys pairs) (fun _ t' s' => t' = t /\ s' = s) (fun _ => True) t s.
Proof. unfold FindByUserKeys. destruct pairs; [by apply wp_ret|by apply wp_query]. Qed.

Lemma idem_ok_sub t t' s : tb_idempotency t' ⊆ tb_idempotency t -> idem_ok t s -> idem_ok t' s.
Proof.
  intros Hsub [H1 H2]. split.
  - intros id r Hr. apply H1. by eapply lookup_weaken.
  - intros i j r r' Hi Hj. by apply (H2 i j r r'); eapply lookup_weaken.
Qed.

Lemma DeleteByIDs_spec ids t s : idem_ok t s -> wp (DeleteByIDs ids) (fun _ t' s' => idem_ok t' s' /\ keys_only t t') (fun _ => True) t s.
Proof.
  intros Hok. unfold DeleteByIDs. destruct ids as [|id ids]; [by apply wp_ret|]. destruct (decide _); [by apply wp_throw|].
  apply wp_bind, wp_stmt, wp_bind, wp_get, wp_bind, wp_put. destruct (decide _); [by apply wp_throw|]. apply wp_ret. split; [|done].
  eapply idem_ok_sub; [|exact Hok]. change (foldr delete (tb_idempotency t) (remove_dups (id :: ids)) ⊆ tb_idempotency t). generalize (remove_dups (id :: ids)). intros l.
  induction l as [|x l IH]; [reflexivity|]. cbn [foldr]. etrans; [apply delete_subseteq|exact IH].
Qed.

Lemma ensure_accounts_sys specs t s : sys_ok t s -> idem_ok t s ->
  wp (EnsureAccounts specs) (fun _ t' s' => sys_ok t' s' /\ idem_ok t' s' /\ same_rest t t' /\ holds_posted [] t t') (fun _ => True) t s.
Proof.
  intros Hsys Hid. pose proof (sy_store _ _ Hsys) as Hok. eapply wp_mono; [apply EnsureAccounts_spec, Hok| |done]. intros accounts t1 s1 Hs1 (Hl1 & Hpv & _).
  pose proof (pv_rest _ _ _ Hpv) as Hrest. pose proof Hrest as (_ & Ho & Ht & _ & Hi & _ & Htf & _).
  assert (Hj : forall k, find_journal t1 k = find_journal t k) by (intros k; unfold find_journal; by rewrite (pv_journals _ _ _ Hpv)).
  assert (Hbal : holds_posted [] t t1) by (intros k; rewrite (balance_of_provides _ _ _ _ _ _ (so_ledger _ _ Hok) Hl1 Hpv); unfold hold_sum; cbn; lra).
  split; [|split; [|by split]].
  - apply (sys_move t s); try done.
    + destruct (store_ok_seq _ _ _ Hs1 Hok) as [H1 Hk H3 H4 H5]. split; rewrite ?Ho, ?Ht, ?(pv_journals _ _ _ Hpv); done.
    + intros u a. unfold locked. rewrite (balance_of_provides _ _ _ _ _ _ (so_ledger _ _ Hok) Hl1 Hpv), Htf. lra.
    + intros k. rewrite Hj. by left.
    + apply (transfers_ok_frame t t1 s s1); [done | done | | apply Hsys]. intros k. rewrite Hj. by left.
  - eapply idem_ok_sub; [by rewrite Hi|]. by eapply idem_ok_seq.
Qed.

(** ** Indices *)

Lemma at_indices_fst {A} (l : list A) idx : (at_indices l idx).*1 `sublist_of` idx.
Proof. induction idx as [|i idx IH]; [constructor|]. unfold at_indices in *. cbn. destruct (l !! i); cbn; by constructor. Qed.

Lemma at_indices_lookup {A} (l : list A) idx i x : (i, x) ∈ at_indices l idx -> i ∈ idx /\ l !! i = Some x.
Proof. intros H. apply list_elem_of_omap in H as (j & Hj & E). destruct (l !! j) as [y|] eqn:El; [|done]. cbn in E. by simplify_eq. Qed.

(** Owners with and without a key. *)
Lemma split_owners (requests : list (nat * holdRequest)) :
  omap (fun '(i, req) => match hq_idem req with None => Some i | Some _ => None end) requests ++ map fst (owner_records requests) ≡ₚ requests.*1.
Proof.
  induction requests as [|[i req] requests IH]; [done|]. unfold owner_records in *. cbn. destruct (hq_idem req) as [idem|]; cbn.
  - rewrite <- IH. symmetry. apply Permutation_middle.
  - by rewrite <- IH.
Qed.

Definition quiet (r : holdResult) : Prop := hr_Order r = None.

Lemma insert_quiet {A} (f : list holdResult -> A -> list holdResult) (l : list A) :
  (forall results x, length (f results x) = length results /\ (Forall quiet results -> Forall quiet (f results x))) ->
  forall results, length (foldl f results l) = length results /\ (Forall quiet results -> Forall quiet (foldl f results l)).
Proof.
  intros Hf. induction l as [|x l IH]; intros results; [done|]. cbn. destruct (IH (f results x)) as [IH1 IH2], (Hf results x) as [H1 H2]. split; [congruence|auto].
Qed.

Lemma set_quiet results i r : quiet r -> length (<[i := r]> results) = length results /\ (Forall quiet results -> Forall quiet (<[i := r]> results)).
Proof. intros Hr. split; [apply length_insert|]. intros H. by apply Forall_insert. Qed.

Lemma claim_spec reqs owners results t s : idem_ok t s ->
  wp (claimIdempotencyKeys reqs owners results)
    (fun '(active, ids, results') t' s' => idem_ok t' s' /\ keys_only t t' /\ (NoDup owners -> NoDup active) /\ active ⊆ owners
       /\ length results' = length results /\ (Forall quiet results -> Forall quiet results')) (fun _ => True) t s.
Proof.
  intros Hok. unfold claimIdempotencyKeys. cbv zeta. set (requests := at_indices reqs owners). set (plain := omap _ requests).
  pose proof (at_indices_fst reqs owners) as Hsub. fold requests in Hsub. pose proof (split_owners requests) as Hsp. fold plain in Hsp.
  set (recordIdx := owner_records requests) in *.
  assert (Hact : forall claimed : list (nat * OrderIdempotencyKey), map fst claimed `sublist_of` map fst recordIdx -> forall active, active ≡ₚ plain ++ map fst claimed -> (NoDup owners -> NoDup active) /\ active ⊆ owners).
  { intros claimed Hc active Ha. assert (Hs2 : plain ++ map fst claimed `sublist_of` plain ++ map fst recordIdx) by by apply sublist_app. split.
    - intros Hnd. rewrite Ha. eapply sublist_NoDup; [|exact Hs2]. rewrite Hsp. by eapply sublist_NoDup.
    - intros x Hx. rewrite Ha in Hx. apply (sublist_subseteq _ _ Hs2) in Hx. rewrite Hsp in Hx. exact (sublist_subseteq _ _ Hsub _ Hx). }
  destruct recordIdx as [|r0 rest] eqn:Er.
  { apply wp_ret. destruct (Hact [] ltac:(done) plain) as [H1 H2]; [by rewrite app_nil_r|]. by split_and!. }
  rewrite <- Er in *. clear Er. apply wp_bind. eapply wp_mono; [by apply InsertNew_spec| |done]. intros records t1 s1 Hs1 (Hok1 & Hk1 & Hlen).
  set (claimed := zip (map fst recordIdx) records). set (inserted := filter (fun '(_, r) => k_ID r <> 0%N) claimed). set (taken := filter _ claimed).
  assert (Hins : map fst inserted `sublist_of` map fst recordIdx).
  { etrans; [apply (fmap_sublist fst), sublist_filter|]. unfold claimed. rewrite fst_zip; [done|]. rewrite Hlen, !length_map. done. }
  destruct (Hact inserted Hins (sort_indices (plain ++ map fst inserted))) as [Hnd Hsubs]; [apply merge_sort_Permutation|].
  destruct (map _ taken) as [|p0 ps]; [apply wp_ret; by split_and!|]. apply wp_bind. eapply wp_mono; [apply FindByUserKeys_reads| |done].
  intros found t2 s2 Hs2 [-> ->]. destruct (decide _); [by apply wp_throw|]. apply wp_ret.
  match goal with |- context [foldl ?f results found] => destruct (insert_quiet f found) with (results := results) as [Hl Hq] end.
  { intros rs record. destruct (_ !! record_pair record); [by apply set_quiet|done]. }
  by split_and!.
Qed.

(** The balance check keeps requests in order and reports only failures. *)
Lemma fold_check_spec ids keys active : forall st,
  let st' := foldl (fold_check ids keys) st active in
  (exists picked, fs_passing st' = fs_passing st ++ map (fun '(i, req) => (i, hq_order req)) picked /\ picked `sublist_of` active)
  /\ length (fs_results st') = length (fs_results st) /\ (Forall quiet (fs_results st) -> Forall quiet (fs_results st')).
Proof.
  induction active as [|[i req] active IH]; intros st; cbn [foldl].
  - split; [exists []; cbn; by rewrite app_nil_r|done].
  - set (st1 := fold_check ids keys st (i, req)). destruct (IH st1) as ((picked & Hp & Hs) & Hl & Hq).
    assert (H1 : (fs_passing st1 = fs_passing st \/ fs_passing st1 = fs_passing st ++ [(i, hq_order req)]) /\ length (fs_results st1) = length (fs_results st) /\ (Forall quiet (fs_results st) -> Forall quiet (fs_results st1))).
    { unfold st1, fold_check. destruct (keys !! _) as [accountID|]; [|cbn; split; [by left|by apply set_quiet]]. destruct (IsNegative _); cbn; (split; [by auto|]); [by apply set_quiet|done]. }
    destruct H1 as (Hpass & Hl1 & Hq1). split; [|split; [congruence|by auto]]. destruct Hpass as [E|E]; rewrite E in Hp.
    + exists picked. split; [done|]. by constructor.
    + exists ((i, req) :: picked). split; [by rewrite Hp, <- app_assoc|]. by constructor.
Qed.

(** ** The transaction *)

Definition report (ids : gmap nat N) (results : list holdResult) (created : list (nat * OrderRow)) : list holdResult :=
  foldl (fun results '(i, order) => <[i := mkHoldResult (Some order) None holdRoleOwner None (default 0%N (ids !! i))]> results) results created.

(** The rows of [created] and nothing else are new, each is the order of its request with
    an id of its own, and the results name them. *)
Record batch_report (reqs : list holdRequest) (owners : list nat) (results : list holdResult) (t t' : Tables)
    (created : list (nat * OrderRow)) (ids : gmap nat N) (base : list holdResult) : Prop := mkReport {
  br_base : Forall quiet base /\ length base = length reqs;
  br_results : results = report ids base created;
  br_indices : NoDup created.*1;
  br_rows : Forall (fun '(i, row) => i ∈ owners /\ (exists req, reqs !! i = Some req /\ numbered (hq_order req) row) /\ tb_orders t !! r_ID row = None) created;
  br_ids : NoDup (map r_ID created.*2);
  br_orders : tb_orders t' = rows_map created.*2 ∪ tb_orders t;
  br_trades : tb_trades t' = tb_trades t;
  br_holds : holds_posted created.*2 t t' }.

Lemma set_outcomes_spec (ids : gmap nat N) created t s : idem_ok t s ->
  wp (for_each (fun '(i, order) => match ids !! i with None => mret tt | Some id => SetOrderAndOutcome id (r_ID order) OutcomePending end) created)
    (fun _ t' s' => idem_ok t' s' /\ keys_only t t') (fun _ => True) t s.
Proof.
  intros Hok. apply (wp_for_each _ (fun (_ : list (nat * OrderRow)) t' s' => idem_ok t' s' /\ keys_only t t')); [|by split].
  intros [i order] l t1 s1 [Hok1 Hk1]. destruct (ids !! i) as [id|]; [|by apply wp_ret].
  eapply wp_mono; [apply update_key_spec; [exact Hok1|done]| |done]. intros _ t2 s2 _ (Hok2 & r & _ & ->). split; [done|]. by etrans.
Qed.

Lemma picked_rows reqs active picked rows : picked `sublist_of` at_indices reqs active -> Forall2 numbered (map snd (map (fun '(i, req) => (i, hq_order req)) picked)) rows ->
  let created := zip (map fst (map (fun '(i, req) => (i, hq_order req)) picked)) rows in
  created.*1 `sublist_of` active /\ created.*2 = rows /\ Forall (fun '(i, row) => i ∈ active /\ exists req, reqs !! i = Some req /\ numbered (hq_order req) row) created.
Proof.
  intros Hs Hn. cbv zeta. rewrite !map_map in *.
  assert (Hmap : map (fun x : nat * holdRequest => (let '(i, req) := x in (i, hq_order req)).1) picked = picked.*1) by (apply map_ext; by intros []).
  assert (Hmap2 : map (fun x : nat * holdRequest => (let '(i, req) := x in (i, hq_order req)).2) picked = map (hq_order ∘ snd) picked) by (apply map_ext; by intros []).
  rewrite Hmap. rewrite Hmap2 in Hn. pose proof (Forall2_length _ _ _ Hn) as Hlen. rewrite length_map in Hlen. split; [|split].
  - rewrite fst_zip by (rewrite length_fmap; lia). etrans; [by apply fmap_sublist|]. apply at_indices_fst.
  - apply snd_zip. rewrite length_fmap. lia.
  - assert (Hall : Forall (fun '(i, req) => i ∈ active /\ reqs !! i = Some req) picked).
    { apply Forall_forall. intros [i req] Hin. apply at_indices_lookup. by eapply sublist_subseteq. }
    clear -Hn Hall. revert rows Hn. induction Hall as [|[i req] picked [Hi Hr] _ IH]; intros rows Hn; [constructor|]. inversion Hn; subst. constructor; [|by apply IH]. split; [done|]. by exists req.
Qed.

Lemma hold_batch_spec reqs owners results t s : sys_ok t s -> idem_ok t s -> Forall (fun req => new_order_ok (hq_order req)) reqs ->
  NoDup owners -> Forall quiet results -> length results = length reqs ->
  wp (hold_batch_body reqs owners results) (fun results' t' s' => sys_ok t' s' /\ idem_ok t' s' /\ exists created ids base, batch_report reqs owners results' t t' created ids base) (fun _ => True) t s.
Proof.
  intros Hsys Hid Hnew Hnd Hq Hlen. unfold hold_batch_body. apply wp_bind. eapply wp_mono; [by apply claim_spec| |done].
  intros [[active ids] results1] t1 s1 Hs1 (Hid1 & Hk1 & Hact & Hsub & Hl1 & Hq1). cbv zeta.
  assert (Hsys1 : sys_ok t1 s1) by (eapply keys_only_sys; [exact Hk1|]; by eapply sys_ok_seq).
  apply wp_bind. eapply wp_mono; [by apply ensure_accounts_sys| |done]. intros accounts t2 s2 Hs2 (Hsys2 & Hid2 & Hr2 & Hb2).
  apply wp_bind. eapply wp_mono; [apply LockBalances_reads| |done]. intros balances ? ? _ [-> ->].
  match goal with |- context [foldl (fold_check ids ?k) ?st0 ?act] => destruct (fold_check_spec ids k act st0) as ((picked & Hpass & Hpick) & Hlst & Hqst); set (st := foldl (fold_check ids k) st0 act) in * end.
  cbn [fs_passing fs_results] in Hpass, Hlst, Hqst. rewrite app_nil_l in Hpass. apply wp_bind. eapply wp_mono; [by apply DeleteByIDs_spec| |done]. intros _ t3 s3 Hs3 [Hid3 Hk3].
  assert (Hsys3 : sys_ok t3 s3) by (eapply keys_only_sys; [exact Hk3|]; by eapply sys_ok_seq).
  assert (Ho3 : tb_orders t3 = tb_orders t /\ tb_trades t3 = tb_trades t).
  { destruct Hk1 as (_ & _ & E1 & E1' & _), Hr2 as (_ & E2 & E2' & _), Hk3 as (_ & _ & E3 & E3' & _). split; congruence. }
  assert (Hb3 : holds_posted [] t t3).
  { refine (holds_trans [] [] t t1 t3 (holds_none _ _ (proj1 Hk1)) _). exact (holds_trans [] [] t1 t2 t3 Hb2 (holds_none _ _ (proj1 Hk3))). }
  assert (Hbase : Forall quiet (fs_results st) /\ length (fs_results st) = length reqs) by (split; [by auto|congruence]).
  destruct (fs_passing st) as [|p0 ps] eqn:Ep.
  { apply wp_ret. split; [done|]. split; [done|]. exists [], ids, (fs_results st). destruct Ho3 as [Ho3 Ht3].
    split; [done|done|constructor|constructor|constructor| |done|exact Hb3]. change (rows_map [].*2) with (∅ : gmap N OrderRow). by rewrite (left_id_L ∅ (∪)). }
  rewrite Hpass. set (passing := map _ picked).
  assert (Hnews : Forall new_order_ok (map snd passing)).
  { unfold passing. rewrite map_map. apply Forall_map, Forall_forall. intros [i req] Hin. cbn. apply (sublist_subseteq _ _ Hpick) in Hin. apply at_indices_lookup in Hin as [_ Hreq]. rewrite Forall_forall in Hnew. apply Hnew. by eapply list_elem_of_lookup_2. }
  apply wp_regroup, wp_bind. eapply wp_mono; [apply (create_orders_spec _ t3 s3 Hsys3 Hnews)| |done]. intros rows t4 s4 Hs4 (Hsys4 & Hnum & Hids & Hfresh & Ho4 & Hf4 & Hb4).
  assert (Hid4 : idem_ok t4 s4). { eapply idem_ok_sub; [|eapply idem_ok_seq; [exact Hs4|exact Hid3]]. destruct Hf4 as (_ & _ & _ & _ & Hi & _). cbn in Hi. by rewrite Hi. }
  apply wp_bind. eapply wp_mono; [by apply set_outcomes_spec| |done]. intros _ t5 s5 Hs5 [Hid5 Hk5]. apply wp_ret.
  split; [eapply keys_only_sys; [exact Hk5|]; by eapply sys_ok_seq|]. split; [done|].
  destruct (picked_rows reqs active picked rows Hpick Hnum) as (Hc1 & Hc2 & Hc3). fold passing in Hc1, Hc2, Hc3. set (created := zip (map fst passing) rows) in *.
  destruct Ho3 as [Ho3 Ht3]. exists created, ids, (fs_results st). split.
  - done.
  - done.
  - eapply sublist_NoDup; [|exact Hc1]. by apply Hact.
  - apply Forall_forall. intros [i row] Hin. rewrite Forall_forall in Hc3. destruct (Hc3 _ Hin) as [Hi Hreq]. split; [by apply Hsub|]. split; [done|].
    rewrite Forall_forall in Hfresh. rewrite <- Ho3. apply Hfresh. rewrite <- Hc2. by apply (list_elem_of_fmap_2 snd _ (i, row)).
  - by rewrite Hc2.
  - rewrite Hc2. destruct Hk5 as (_ & _ & -> & _). by rewrite Ho4, Ho3.
  - destruct Hk5 as (_ & _ & _ & -> & _), Hf4 as (_ & _ & -> & _). done.
  - rewrite Hc2. pose proof (holds_trans [] rows t t3 t4 Hb3 Hb4) as Hb. pose proof (holds_trans rows [] t t4 t5 Hb (holds_none _ _ (proj1 Hk5))) as Hb'. by rewrite app_nil_r in Hb'.
Qed.

(** ** Groups and results *)

Lemma group_partition full l : let g := (foldl (group_step full) (∅, mkGrouping [] [] []) (imap pair l)).2 in
  g_owners g ++ map fst (g_followers g) ++ g_conflicts g ≡ₚ seq 0 (length l).
Proof.
  cbv zeta. induction l as [|req l IH] using rev_ind; [done|]. rewrite imap_app, foldl_app, length_app, seq_app. cbn [imap foldl length seq plus].
  destruct (foldl _ _ (imap pair l)) as [first g]. cbn [snd] in IH. cbn [compose]. rewrite Nat.add_0_r. unfold group_step.
  set (n := length l) in *. rewrite <- IH. destruct (hq_idem req) as [idem|]; [destruct (first !! _) as [leader|]; [destruct (decide _)|]|]; cbn [snd g_owners g_followers g_conflicts].
  all: rewrite ?map_app; cbn [map fst]; rewrite <- ?app_assoc; solve_Permutation.
Qed.

Lemma groups reqs : let g := groupIdempotentRequests reqs in NoDup (g_owners g) /\ (forall i leader, (i, leader) ∈ g_followers g -> i ∉ g_owners g).
Proof.
  cbv zeta. pose proof (group_partition reqs reqs) as Hp. cbv zeta in Hp. fold (groupIdempotentRequests reqs) in Hp. set (g := groupIdempotentRequests reqs) in *.
  pose proof (NoDup_seq 0 (length reqs)) as Hnd. rewrite <- Hp in Hnd. apply NoDup_app in Hnd as (H1 & H2 & _). split; [done|].
  intros i leader Hin Hown. apply (H2 i Hown). apply elem_of_app. left. by apply (list_elem_of_fmap_2 fst _ (i, leader)).
Qed.

(** The row a result hands to its request for the engine. *)
Definition owner_of (r : holdResult) : option OrderRow :=
  match hr_Err r, hr_Role r with None, holdRoleOwner => hr_Order r | _, _ => None end.

Lemma report_lookup ids created : forall base i r, NoDup created.*1 -> Forall (fun '(i, _) => (i < length base)%nat) created ->
  report ids base created !! i = Some r <->
  (exists row, (i, row) ∈ created /\ r = mkHoldResult (Some row) None holdRoleOwner None (default 0%N (ids !! i))) \/ (i ∉ created.*1 /\ base !! i = Some r).
Proof.
  unfold report. induction created as [|[j row] created IH]; intros base i r Hnd Hlt; cbn [foldl].
  - split; [intros H; right; split; [apply not_elem_of_nil|done]|]. intros [(row & Hin & _)|[_ H]]; [by apply elem_of_nil in Hin|done].
  - cbn in Hnd. apply NoDup_cons in Hnd as [Hj Hnd]. apply Forall_cons in Hlt as [Hjl Hlt]. rewrite IH; [|done|by rewrite length_insert].
    change (((j, row) :: created).*1) with (j :: created.*1). rewrite not_elem_of_cons. setoid_rewrite elem_of_cons. destruct (decide (i = j)) as [->|Hne].
    + rewrite list_lookup_insert_eq by done. split.
      * intros [(row' & Hin & _)|[_ [= <-]]]; [destruct Hj; by apply (list_elem_of_fmap_2 fst _ (j, row'))|left; exists row; by auto].
      * intros [(row' & [[= ->]|Hin] & ->)|[[? _] _]]; [by right|destruct Hj; by apply (list_elem_of_fmap_2 fst _ (j, row'))|done].
    + rewrite list_lookup_insert_ne by done. naive_solver.
Qed.

Lemma report_owners ids base created i r row : NoDup created.*1 -> Forall (fun '(i, _) => (i < length base)%nat) created -> Forall quiet base ->
  report ids base created !! i = Some r -> owner_of r = Some row -> (i, row) ∈ created.
Proof.
  intros Hnd Hlt Hq Hr Ho. apply report_lookup in Hr as [(row' & Hin & ->)|[_ Hb]]; [|rewrite Forall_lookup in Hq; specialize (Hq _ _ Hb)|done|done].
  - cbn in Ho. by simplify_eq.
  - unfold owner_of in Ho. unfold quiet in Hq. rewrite Hq in Ho. by destruct (hr_Err r), (hr_Role r).
Qed.

(** Followers take over a result without its role. *)
Lemma follower_results followers : forall results i r,
  applyFollowerResults results followers !! i = Some r -> results !! i = Some r \/ owner_of r = None.
Proof.
  unfold applyFollowerResults. induction followers as [|[j leader] followers IH]; intros results i r H; cbn [foldl] in H; [by left|].
  apply IH in H as [H|H]; [|by right]. destruct (results !! leader) as [x|]; [|by left].
  apply list_lookup_insert_Some in H as [(_ & <- & _)|[_ H]]; [right|by left]. unfold owner_of. cbn. by destruct (hr_Err _).
Qed.

Lemma other_results followers : forall results i, i ∉ followers.*1 -> applyFollowerResults results followers !! i = results !! i.
Proof.
  unfold applyFollowerResults. induction followers as [|[j leader] followers IH]; intros results i H; cbn [foldl]; [done|].
  change (((j, leader) :: followers).*1) with (j :: followers.*1) in H. apply not_elem_of_cons in H as [Hj Hi]. rewrite IH by done.
  destruct (results !! leader); [|done]. by apply list_lookup_insert_ne.
Qed.

Lemma follower_length followers : forall results, length (applyFollowerResults results followers) = length results.
Proof.
  unfold applyFollowerResults. induction followers as [|[j leader] followers IH]; intros results; cbn [foldl]; [done|].
  rewrite IH. destruct (results !! leader); [by rewrite length_insert|done].
Qed.

(** No two owners carry the same key of the same user. *)
Definition request_key (req : holdRequest) : option (N * string) := (fun idem => (r_UserID (hq_order req), ic_Key idem)) <$> hq_idem req.

Lemma group_first full l : let '(first, g) := foldl (group_step full) (∅, mkGrouping [] [] []) (imap pair l) in
  forall i req k, i ∈ g_owners g -> l !! i = Some req -> request_key req = Some k -> first !! k = Some i.
Proof.
  induction l as [|req l IH] using rev_ind; [by intros i req k Hi; apply elem_of_nil in Hi|]. rewrite imap_app, foldl_app. cbn [imap foldl compose].
  pose proof (group_partition full l) as Hp. cbv zeta in Hp.
  destruct (foldl _ _ (imap pair l)) as [first g]. cbn [snd] in Hp. rewrite Nat.add_0_r. unfold group_step.
  assert (Hlt : forall i, i ∈ g_owners g -> (i < length l)%nat).
  { intros i Hi. assert (Hin : i ∈ seq 0 (length l)) by (rewrite <- Hp; apply elem_of_app; by left). apply elem_of_seq in Hin. lia. }
  assert (Hold : forall i r k, i ∈ g_owners g -> (l ++ [req]) !! i = Some r -> request_key r = Some k -> first !! k = Some i).
  { intros i r k Hi Hr. apply IH; [done|]. rewrite lookup_app_l in Hr by (by apply Hlt). done. }
  assert (Hnew : forall r, (l ++ [req]) !! length l = Some r -> r = req). { intros r Hr. rewrite list_lookup_middle in Hr by done. congruence. }
  destruct (hq_idem req) as [idem|] eqn:Ei; [destruct (first !! _) as [leader|] eqn:El; [destruct (decide _)|]|]; cbn [g_owners g_followers g_conflicts]; try done.
  - intros i r k Hi Hr Hk. apply elem_of_app in Hi as [Hi|Hi].
    + specialize (Hold i r k Hi Hr Hk). rewrite lookup_insert_ne; [done|]. intros <-. congruence.
    + apply list_elem_of_singleton in Hi as ->. apply Hnew in Hr as ->. unfold request_key in Hk. rewrite Ei in Hk. cbn in Hk. injection Hk as <-. apply lookup_insert_eq.
  - intros i r k Hi Hr Hk. apply elem_of_app in Hi as [Hi|Hi]; [by eapply Hold|].
    apply list_elem_of_singleton in Hi as ->. apply Hnew in Hr as ->. unfold request_key in Hk. by rewrite Ei in Hk.
Qed.

Lemma owners_differ reqs i j req req' k : let g := groupIdempotentRequests reqs in
  i ∈ g_owners g -> j ∈ g_owners g -> reqs !! i = Some req -> reqs !! j = Some req' -> request_key req = Some k -> request_key req' = Some k -> i = j.
Proof.
  cbv zeta. unfold groupIdempotentRequests. pose proof (group_first reqs reqs) as H. destruct (foldl _ _ _) as [first g]. cbn [snd].
  intros Hi Hj Hr Hr' Hk Hk'. pose proof (H _ _ _ Hi Hr Hk). pose proof (H _ _ _ Hj Hr' Hk'). congruence.
Qed.

(** ** The whole batch *)

(** The orders a batch created: the rows its results hand to their requests. *)
Record batch_created (reqs : list holdRequest) (results : list holdResult) (t t' : Tables) (created : list (nat * OrderRow)) : Prop := mkCreated {
  bc_length : length results = length reqs;
  bc_results : forall i row, (i, row) ∈ created <-> exists r, results !! i = Some r /\ owner_of r = Some row;
  bc_indices : NoDup created.*1;
  bc_ids : NoDup (map r_ID created.*2);
  bc_rows : forall i row, (i, row) ∈ created -> exists req, reqs !! i = Some req /\ row = (hq_order req) <| r_ID := r_ID row |> /\ tb_orders t !! r_ID row = None;
  bc_keys : forall i j req req' k, i ∈ created.*1 -> j ∈ created.*1 -> reqs !! i = Some req -> reqs !! j = Some req' ->
    request_key req = Some k -> request_key req' = Some k -> i = j;
  bc_orders : tb_orders t' = rows_map created.*2 ∪ tb_orders t;
  bc_trades : tb_trades t' = tb_trades t;
  bc_holds : holds_posted created.*2 t t' }.

Lemma set_conflicts_quiet conflicts n : Forall quiet (set_conflicts conflicts (replicate n emptyResult)) /\ length (set_conflicts conflicts (replicate n emptyResult)) = n.
Proof.
  unfold set_conflicts. destruct (insert_quiet (fun results i => <[i := failedResult conflict_error]> results) conflicts) with (results := replicate n emptyResult) as [Hl Hq].
  - intros results i. split; [apply length_insert|]. intros H. by apply Forall_insert.
  - split; [|by rewrite Hl, length_replicate]. apply Hq, Forall_replicate. done.
Qed.

Lemma created_of_report reqs results t t' created ids base : let g := groupIdempotentRequests reqs in
  batch_report reqs (g_owners g) results t t' created ids base -> batch_created reqs (applyFollowerResults results (g_followers g)) t t' created.
Proof.
  cbv zeta. intros [[Hq Hlen] -> Hnd Hrows Hids Hor Htr Hhp]. pose proof (groups reqs) as Hg. cbv zeta in Hg. destruct Hg as [Hno Hfo]. rewrite Forall_forall in Hrows.
  assert (Hlt : Forall (fun '(i, _) => (i < length base)%nat) created).
  { apply Forall_forall. intros [i row] Hin. destruct (Hrows _ Hin) as (_ & (req & Hr & _) & _). rewrite Hlen. by eapply lookup_lt_Some. }
  assert (Hown : forall i, i ∈ created.*1 -> i ∈ g_owners (groupIdempotentRequests reqs)).
  { intros i Hi. apply list_elem_of_fmap in Hi as ([i' row] & -> & Hin). by destruct (Hrows _ Hin). }
  split; [| |done|done| | |done|done|done].
  - rewrite follower_length. rewrite <- Hlen. unfold report. clear. revert base. induction created as [|[i row] l IH]; intros base; [done|]. cbn [foldl]. by rewrite IH, length_insert.
  - intros i row. split.
    + intros Hin. exists (mkHoldResult (Some row) None holdRoleOwner None (default 0%N (ids !! i))). split; [|done]. rewrite other_results.
      * apply report_lookup; [done|done|]. left. by exists row.
      * intros Hf. apply list_elem_of_fmap in Hf as ([i' leader] & -> & Hf). apply (Hfo _ _ Hf), Hown. by apply (list_elem_of_fmap_2 fst _ (i', row)).
    + intros (r & Hr & Ho). apply follower_results in Hr as [Hr|Hr]; [|congruence]. by eapply report_owners.
  - intros i row Hin. destruct (Hrows _ Hin) as (_ & (req & Hr & Hn) & Hfr). by exists req.
  - intros i j req req' k Hi Hj. apply owners_differ; by apply Hown.
Qed.

Lemma rows_map_lookup rows row : NoDup (map r_ID rows) -> row ∈ rows -> rows_map rows !! r_ID row = Some row.
Proof.
  intros Hnd Hin. apply elem_of_list_to_map; [by rewrite map_map|]. apply list_elem_of_fmap. by exists row.
Qed.

Lemma rows_map_grows rows (base : gmap N OrderRow) : (forall row, row ∈ rows -> base !! r_ID row = None) -> base ⊆ rows_map rows ∪ base.
Proof.
  intros Hf. apply map_union_subseteq_r, map_disjoint_dom. intros id Hin Hb. unfold rows_map in Hin. rewrite dom_list_to_map_L in Hin. apply elem_of_list_to_set in Hin.
  change (_.*1) with (map fst (map (fun o => (r_ID o, o)) rows)) in Hin. rewrite map_map in Hin. apply list_elem_of_fmap in Hin as (row & -> & Hr). apply elem_of_dom in Hb as [x Hx]. cbn in Hx. rewrite Hf in Hx; done.
Qed.

Lemma created_grows reqs results t t' created : batch_created reqs results t t' created -> tb_orders t ⊆ tb_orders t'.
Proof.
  intros H. rewrite (bc_orders _ _ _ _ _ H). apply rows_map_grows. intros row Hin. apply list_elem_of_fmap in Hin as ([i row'] & -> & Hin).
  by destruct (bc_rows _ _ _ _ _ H _ _ Hin) as (req & _ & _ & Hf).
Qed.

Lemma hold_batch_run reqs w : ok_world w -> Forall (fun req => new_order_ok (hq_order req)) reqs ->
  let '(r, w') := HoldBatch reqs w in ok_world w' /\ w_faults w' `suffix_of` w_faults w /\
    match r with Ok results => exists created, batch_created reqs results (w_tables w) (w_tables w') created
               | Err e => w_tables w' = w_tables w \/ e = DBError "" /\ Lost ∈ w_faults w /\ tb_orders (w_tables w) ⊆ tb_orders (w_tables w') end.
Proof.
  intros Hw Hnew. destruct w as [t s fs]. pose proof Hw as [Hsys Hid]. cbn [w_tables w_seqs w_faults] in *. unfold HoldBatch.
  set (g := groupIdempotentRequests reqs). destruct (set_conflicts_quiet (g_conflicts g) (length reqs)) as [Hq Hl]. set (results := set_conflicts _ _) in *.
  pose proof (groups reqs) as Hg. cbv zeta in Hg. fold g in Hg. destruct Hg as [Hno _].
  pose proof (hold_batch_spec reqs (g_owners g) results t s Hsys Hid Hnew Hno Hq Hl) as Hspec.
  pose proof (transaction_wp_lost _ _ _ t s fs Hspec) as Ht. unfold mbind, M_bind. destruct (transaction _ _) as [[res|e] w']; destruct Ht as (Hs & Hf & Ht).
  - destruct Ht as (H1 & H2 & created & ids & base & Hrep). split; [done|]. split; [done|]. exists created. by eapply created_of_report.
  - destruct Ht as [[E _]|(-> & Hlost & res & H1 & H2 & created & ids & base & Hrep)].
    + split; [|split; [done|by left]]. split; rewrite E; [by eapply sys_ok_seq | by eapply idem_ok_seq].
    + split; [done|]. split; [done|]. right. split; [done|]. split; [done|]. apply created_of_report in Hrep. by eapply created_grows.
Qed.

(** ** One by one, after a failed batch *)

(** A row handed out is the stored order of its request, under an id that was not used. *)
Definition handed_out (req : holdRequest) (row : OrderRow) (t t' : Tables) : Prop :=
  row = (hq_order req) <| r_ID := r_ID row |> /\ tb_orders t !! r_ID row = None /\ tb_orders t' !! r_ID row = Some row.
Definition single_outcome (req : holdRequest) (res : holdResult) (t t' : Tables) : Prop :=
  tb_orders t ⊆ tb_orders t' /\ forall row, owner_of res = Some row -> handed_out req row t t'.

(** Every order that is new was handed out, and the accounts changed by its hold. *)
Definition exactly_handed (results : list holdResult) (t t' : Tables) : Prop :=
  (forall id row, tb_orders t' !! id = Some row -> tb_orders t !! id = Some row \/ exists i r, results !! i = Some r /\ owner_of r = Some row)
  /\ holds_posted (omap owner_of results) t t'.

Lemma created_exact o row res t t' : created o row t t' -> owner_of res = Some row -> exactly_handed [res] t t'.
Proof.
  intros (_ & _ & Ho & _ & Hp) Eo. split; [|cbn; rewrite Eo; by apply holds_one]. intros id row' Hr. rewrite Ho in Hr.
  apply lookup_insert_Some in Hr as [[_ <-]|[_ Hr]]; [|by left]. right. by exists 0%nat, res.
Qed.
Lemma unchanged_exact results t : omap owner_of results = [] -> exactly_handed results t t.
Proof. intros E. split; [by left|]. rewrite E. by apply holds_none. Qed.

(** The orders handed out, when no two results name the same. *)
Lemma NoDup_omap_index {A B} (g : A -> option B) l :
  (forall i j x y b, l !! i = Some x -> l !! j = Some y -> g x = Some b -> g y = Some b -> i = j) -> NoDup (omap g l).
Proof.
  induction l as [|z l IH]; intros H; [constructor|]. assert (Hl : NoDup (omap g l)) by (apply IH; intros i j x y b Hx Hy Ea Eb; by injection (H (S i) (S j) x y b Hx Hy Ea Eb)).
  cbn. destruct (g z) as [b|] eqn:Ez; [|done]. constructor; [|done]. intros Hin. apply list_elem_of_omap in Hin as (y & Hy & Eb). apply list_elem_of_lookup in Hy as [j Hj].
  discriminate (H 0%nat (S j) z y b eq_refl Hj Ez Eb).
Qed.

Lemma owners_perm results rows : NoDup rows -> (forall i j r r' row, results !! i = Some r -> results !! j = Some r' -> owner_of r = Some row -> owner_of r' = Some row -> i = j) ->
  (forall row, row ∈ rows <-> exists i r, results !! i = Some r /\ owner_of r = Some row) -> rows ≡ₚ omap owner_of results.
Proof.
  intros Hnd Hdis Hin. apply NoDup_Permutation; [done|by apply NoDup_omap_index|]. intros row. rewrite Hin, list_elem_of_omap. split.
  - intros (i & r & Hr & Ho). exists r. split; [by eapply list_elem_of_lookup_2|done].
  - intros (r & Hr & Ho). apply list_elem_of_lookup in Hr as [i Hi]. by exists i, r.
Qed.

Lemma created_outcome req row res t t' : created (hq_order req) row t t' -> (forall row', owner_of res = Some row' -> row' = row) -> single_outcome req res t t'.
Proof.
  intros (Hn & Hf & Ho & _) Hres. split; [rewrite Ho; by apply insert_subseteq|]. intros row' E. rewrite (Hres _ E). split; [done|]. split; [done|]. rewrite Ho. apply lookup_insert_eq.
Qed.

Lemma failed_outcome req res t : hr_Err res <> None -> single_outcome req res t t.
Proof. intros He. split; [done|]. intros row. unfold owner_of. by destruct (hr_Err res). Qed.

Lemma single_run req w : ok_world w -> new_order_ok (hq_order req) ->
  exists res w', persistAndHoldIdempotent req w = (Ok res, w') /\ ok_world w' /\ single_outcome req res (w_tables w) (w_tables w')
    /\ w_faults w' `suffix_of` w_faults w /\ (Lost ∉ w_faults w -> exactly_handed [res] (w_tables w) (w_tables w')).
Proof.
  intros Hw Hnew. pose proof Hw as [Hsys Hid]. destruct w as [t s fs]. cbn [w_tables w_seqs w_faults] in *.
  assert (Hroll : forall w', seq_le s (w_seqs w') -> w_tables w' = t -> ok_world w').
  { intros w' Hs E. split; rewrite E; [by eapply sys_ok_seq | by eapply idem_ok_seq]. }
  destruct req as [order [idem|]]; unfold persistAndHoldIdempotent, catch; cbn [hq_idem hq_order] in *.
  - pose proof (transaction_wp_lost _ _ _ t s fs (persist_spec order idem t s Hsys Hid Hnew)) as Ht.
    assert (Hout : forall res t', persist_outcome order idem t res t' -> single_outcome (mkHoldRequest order (Some idem)) res t t' /\ exactly_handed [res] t t').
    { intros res t' [(i & rec & _ & _ & -> & ->)|(_ & row & id & -> & Hc & _)]; [split; [by split|by apply unchanged_exact]|].
      split; [eapply created_outcome; [exact Hc|]; cbn; intros; by simplify_eq|]. by eapply created_exact. }
    destruct (transaction _ _) as [[res|e] w'] eqn:E; destruct Ht as (Hs & Hf & Ht); (eexists _, w'; split; [reflexivity|]).
    + destruct Ht as (H1 & H2 & H3). apply Hout in H3 as [H3 H4]. by split_and!.
    + destruct Ht as [[Et _]|(_ & Hl & res & H1 & H2 & H3)].
      * split; [by apply Hroll|]. rewrite Et. split; [by apply failed_outcome|]. split; [done|]. intros _. by apply unchanged_exact.
      * apply Hout in H3 as [[H3 _] _]. split; [done|]. split; [by split|]. split; [done|]. by intros Hn.
  - unfold persistAndHold. pose proof (transaction_wp_lost _ _ _ t s fs (create_spec order t s Hsys Hnew)) as Ht. unfold mbind at 1, M_bind at 1.
    assert (Hidem : forall row t' s', seq_le s s' -> create_effect order row t t' -> idem_ok t' s').
    { intros row t' s' Hs (_ & _ & _ & _ & _ & (_ & _ & _ & _ & Hi & _)). cbn in Hi. eapply idem_ok_sub; [|by eapply idem_ok_seq]. by rewrite Hi. }
    assert (Hcr : forall row t', create_effect order row t t' -> created order row t t') by (intros row t' (H1 & H2 & H3 & H4 & H5 & _); by repeat split).
    destruct (transaction _ _) as [[row|e] w'] eqn:E; destruct Ht as (Hs & Hf & Ht); (eexists _, w'; split; [reflexivity|]).
    + destruct Ht as (H1 & H2). split; [split; [done|by eapply Hidem]|]. apply Hcr in H2. split; [eapply created_outcome; [exact H2|]; cbn; intros; by simplify_eq|].
      split; [done|]. intros _. by eapply created_exact.
    + destruct Ht as [[Et _]|(_ & Hl & row & H1 & H2)].
      * split; [by apply Hroll|]. rewrite Et. split; [by apply failed_outcome|]. split; [done|]. intros _. by apply unchanged_exact.
      * split; [split; [done|by eapply Hidem]|]. apply Hcr in H2 as (_ & Hfr & Ho & _). split; [split; [|done]; rewrite Ho; by apply insert_subseteq|]. split; [done|]. by intros Hn.
Qed.

(** The rows handed out to the requests of a batch. *)
Record handed_results (reqs : list holdRequest) (results : list holdResult) (t t' : Tables) : Prop := mkHanded {
  hd_length : length results = length reqs;
  hd_grown : tb_orders t ⊆ tb_orders t';
  hd_rows : forall i r row, results !! i = Some r -> owner_of r = Some row -> exists req, reqs !! i = Some req /\ handed_out req row t t';
  hd_distinct : forall i j r r' row row', results !! i = Some r -> owner_of r = Some row -> results !! j = Some r' -> owner_of r' = Some row' ->
    r_ID row = r_ID row' -> i = j }.

Lemma created_handed reqs results t t' created : batch_created reqs results t t' created -> handed_results reqs results t t'.
Proof.
  intros H. pose proof (bc_ids _ _ _ _ _ H) as Hids. split; [apply H|by eapply created_grows| |].
  - intros i r row Hr Ho. assert (Hin : (i, row) ∈ created) by (apply (bc_results _ _ _ _ _ H); by exists r).
    destruct (bc_rows _ _ _ _ _ H _ _ Hin) as (req & Hq & Hn & Hf). exists req. split; [done|]. split; [done|]. split; [done|].
    rewrite (bc_orders _ _ _ _ _ H). apply lookup_union_Some_l, rows_map_lookup; [done|]. by apply (list_elem_of_fmap_2 snd _ (i, row)).
  - intros i j r r' row row' Hr Ho Hr' Ho' E. assert ((i, row) = (j, row')) as Heq; [|by injection Heq].
    change (map r_ID created.*2) with (map r_ID (map snd created)) in Hids. rewrite map_map in Hids.
    apply (NoDup_map_inj (fun p : nat * OrderRow => r_ID p.2) created); [done| | |done]; apply (bc_results _ _ _ _ _ H); by eexists.
Qed.

Lemma created_exactly reqs results t t' created : batch_created reqs results t t' created -> exactly_handed results t t'.
Proof.
  intros H. pose proof (created_handed _ _ _ _ _ H) as Hh. split.
  - intros id row Hr. rewrite (bc_orders _ _ _ _ _ H) in Hr. apply lookup_union_Some_raw in Hr as [Hr|[_ Hr]]; [|by left]. right.
    apply elem_of_list_to_map_2, list_elem_of_fmap in Hr as (o & [= -> ->] & Hin). apply list_elem_of_fmap in Hin as ([i row] & -> & Hin).
    apply (bc_results _ _ _ _ _ H) in Hin as (r & Hr & Ho). by exists i, r.
  - eapply holds_perm; [|exact (bc_holds _ _ _ _ _ H)]. apply owners_perm.
    + eapply NoDup_fmap_1, (bc_ids _ _ _ _ _ H).
    + intros i j r r' row Hr Hr' Ho Ho'. by eapply (hd_distinct _ _ _ _ Hh).
    + intros row. rewrite list_elem_of_fmap. split.
      * intros ([i row'] & -> & Hin). exists i. by apply (bc_results _ _ _ _ _ H).
      * intros (i & Hi). exists (i, row). split; [done|]. by apply (bc_results _ _ _ _ _ H).
Qed.

Lemma single_weaken req t0 t t' t1 : tb_orders t0 ⊆ tb_orders t -> tb_orders t' ⊆ tb_orders t1 -> forall row, handed_out req row t t' -> handed_out req row t0 t1.
Proof.
  intros H0 H1 row (Hn & Hf & Ho). split; [done|]. split; [by eapply lookup_weaken_None|by eapply lookup_weaken].
Qed.

Lemma map_each_cons {A B} (f : A -> M B) x l y ys w w1 w2 :
  f x w = (Ok y, w1) -> map_each f l w1 = (Ok ys, w2) -> map_each f (x :: l) w = (Ok (y :: ys), w2).
Proof. intros E1 E2. cbn [map_each]. unfold mbind, M_bind. by rewrite E1, E2. Qed.

Lemma each_run l : forall w, ok_world w -> Forall (fun '(_, req) => new_order_ok (hq_order req)) l ->
  exists res w', map_each (fun '(i, req) => r ← persistAndHoldIdempotent req; mret (i, r)) l w = (Ok res, w') /\ ok_world w'
    /\ tb_orders (w_tables w) ⊆ tb_orders (w_tables w')
    /\ Forall2 (fun (ir : nat * holdRequest) (jr : nat * holdResult) => jr.1 = ir.1 /\ forall row, owner_of jr.2 = Some row -> handed_out ir.2 row (w_tables w) (w_tables w')) l res
    /\ NoDup (map r_ID (omap owner_of res.*2)) /\ (Lost ∉ w_faults w -> exactly_handed res.*2 (w_tables w) (w_tables w')).
Proof.
  induction l as [|[i req] l IH]; intros w Hw Hnew.
  { exists [], w. split; [done|]. split; [done|]. split; [done|]. split; [constructor|]. split; [constructor|]. intros _. by apply unchanged_exact. }
  apply Forall_cons in Hnew as [Hn Hnew]. destruct (single_run req w Hw Hn) as (r & w1 & E & Hw1 & [Hg1 Hr] & Hf1 & He1).
  destruct (IH w1 Hw1 Hnew) as (res & w2 & E2 & Hw2 & Hg2 & Hall & Hnd & He2). exists ((i, r) :: res), w2.
  split; [apply (map_each_cons _ _ _ _ _ w w1 w2); [unfold mbind, M_bind; by rewrite E|exact E2]|]. split; [done|]. split; [by etrans|]. split; [|split].
  - constructor.
    + split; [done|]. intros row Ho. eapply single_weaken; [reflexivity|exact Hg2|by apply Hr].
    + eapply Forall2_impl; [exact Hall|]. intros [j q] [j' x] [-> Hx]. split; [done|]. intros row Ho. eapply single_weaken; [exact Hg1|reflexivity|by apply Hx].
  - cbn. destruct (owner_of r) as [row|] eqn:Eo; [|done]. cbn. constructor; [|done]. destruct (Hr row eq_refl) as (_ & _ & Hst).
    intros Hin. apply list_elem_of_fmap in Hin as (row' & Eid & Hin). apply list_elem_of_omap in Hin as (x & Hx & Ho).
    apply list_elem_of_fmap in Hx as ([j x'] & -> & Hx). apply list_elem_of_lookup in Hx as [k Hk].
    destruct (Forall2_lookup_r _ _ _ _ _ Hall Hk) as ([j' q] & _ & _ & Hh). destruct (Hh _ Ho) as (_ & Hf & _). rewrite <- Eid in Hf. congruence.
  - intros Hl. assert (Hl1 : Lost ∉ w_faults w1) by (intros Hin; apply Hl; by eapply suffix_elem_of). destruct (He1 Hl) as [Hx1 Hh1], (He2 Hl1) as [Hx2 Hh2]. split.
    2: { pose proof (holds_trans _ _ _ _ _ Hh1 Hh2) as Hh. revert Hh. change (((i, r) :: res).*2) with ([r] ++ res.*2). by rewrite omap_app. }
    intros id row Hrow. destruct (Hx2 id row Hrow) as [H1|(k & x & Hk & Ho)]; [|right; by exists (S k), x].
    destruct (Hx1 id row H1) as [H0|([|k] & x & Hk & Ho)]; [by left| |done]. right. by exists 0%nat, x.
Qed.

Lemma NoDup_omap_inj {A B C} (g : A -> option B) (f : B -> C) l : NoDup (map f (omap g l)) ->
  forall i j x y a b, l !! i = Some x -> l !! j = Some y -> g x = Some a -> g y = Some b -> f a = f b -> i = j.
Proof.
  induction l as [|z l IH]; [done|]. cbn. intros Hnd. assert (Hin : forall j y b, l !! j = Some y -> g y = Some b -> f b ∈ map f (omap g l)).
  { intros j y b Hj Hb. apply list_elem_of_fmap_2, list_elem_of_omap. exists y. split; [by eapply list_elem_of_lookup_2|done]. }
  intros [|i] [|j] x y a b Hx Hy Ha Hb E; cbn in Hx, Hy; [done|..].
  - injection Hx as ->. rewrite Ha in Hnd. cbn in Hnd. apply NoDup_cons in Hnd as [Hni _]. destruct Hni. rewrite E. by eapply Hin.
  - injection Hy as ->. rewrite Hb in Hnd. cbn in Hnd. apply NoDup_cons in Hnd as [Hni _]. destruct Hni. rewrite <- E. by eapply Hin.
  - f_equal. eapply IH; [|exact Hx|exact Hy|exact Ha|exact Hb|exact E]. destruct (g z); [|done]. cbn in Hnd. by apply NoDup_cons in Hnd as [_ Hnd].
Qed.

Definition put_results (results : list holdResult) (filled : list (nat * holdResult)) : list holdResult :=
  foldl (fun results '(i, r) => <[i := r]> results) results filled.

Lemma put_results_lookup filled : forall results i r, put_results results filled !! i = Some r -> (i, r) ∈ filled \/ results !! i = Some r.
Proof.
  unfold put_results. induction filled as [|[j x] filled IH]; intros results i r H; cbn [foldl] in H; [by right|]. apply IH in H as [H|H]; [left; by right|].
  apply list_lookup_insert_Some in H as [(-> & -> & _)|[_ H]]; [left; by left|by right].
Qed.

Lemma put_results_length filled : forall results, length (put_results results filled) = length results.
Proof. unfold put_results. induction filled as [|[j x] filled IH]; intros results; cbn [foldl]; [done|]. by rewrite IH, length_insert. Qed.

Lemma put_results_in filled : forall results i r, NoDup filled.*1 -> (i < length results)%nat -> (i, r) ∈ filled -> put_results results filled !! i = Some r.
Proof.
  unfold put_results. induction filled as [|[j x] filled IH]; intros results i r Hnd Hi Hin; [by apply elem_of_nil in Hin|]. cbn in Hnd. apply NoDup_cons in Hnd as [Hj Hnd]. cbn [foldl].
  apply elem_of_cons in Hin as [[= -> ->]|Hin]; [|apply IH; [done|by rewrite length_insert|done]].
  destruct (foldl _ _ filled !! j) as [y|] eqn:E.
  - apply (put_results_lookup filled) in E as [E|E]; [destruct Hj; by apply (list_elem_of_fmap_2 fst _ (j, y))|]. by rewrite list_lookup_insert_eq in E.
  - apply lookup_ge_None in E. rewrite (put_results_length filled), length_insert in E. lia.
Qed.

(** What was handed out one by one is in the results. *)
Lemma fallback_exact reqs base res (R : nat * holdRequest -> nat * holdResult -> Prop) t t' : let g := groupIdempotentRequests reqs in
  let results := applyFollowerResults (put_results base res) (g_followers g) in
  length base = length reqs -> Forall2 (fun ir jr => jr.1 = ir.1 /\ R ir jr) (at_indices reqs (g_owners g)) res -> NoDup (map r_ID (omap owner_of res.*2)) ->
  (forall i r row, results !! i = Some r -> owner_of r = Some row -> exists k, res !! k = Some (i, r)) ->
  exactly_handed res.*2 t t' -> exactly_handed results t t'.
Proof.
  cbv zeta. set (g := groupIdempotentRequests reqs). intros Hlen Hall Hnd Hfind [Hex Hh]. pose proof (groups reqs) as [Hno Hfo]. fold g in Hno, Hfo.
  assert (Hback : forall k r row, res.*2 !! k = Some r -> owner_of r = Some row -> exists i, applyFollowerResults (put_results base res) (g_followers g) !! i = Some r).
  { intros k r row Hk Ho. apply list_lookup_fmap_Some in Hk as ([i r'] & -> & Hk). cbn in Ho.
    destruct (Forall2_lookup_r _ _ _ _ _ Hall Hk) as ([i' req] & Hsel & Ei & _). cbn in Ei. subst i'. apply list_elem_of_lookup_2, at_indices_lookup in Hsel as [Hi Hreq].
    exists i. rewrite other_results.
    - apply put_results_in; [|rewrite Hlen; by eapply lookup_lt_Some|by eapply list_elem_of_lookup_2].
      assert (res.*1 = (at_indices reqs (g_owners g)).*1) as ->; [|eapply sublist_NoDup; [exact Hno|apply at_indices_fst]].
      clear -Hall. induction Hall as [|[a x] [b y] l l' [E _] _ IH]; [done|]. cbn in E. subst. cbn. by f_equal.
    - intros Hin. apply list_elem_of_fmap in Hin as ([i'' leader] & -> & Hin). by apply (Hfo _ _ Hin). }
  split.
  - intros id row Hrow. destruct (Hex id row Hrow) as [H|(k & r & Hk & Ho)]; [by left|]. right. destruct (Hback k r row Hk Ho) as [i Hi]. by exists i, r.
  - eapply holds_perm; [|exact Hh]. apply owners_perm; [by eapply NoDup_fmap_1| |].
    + intros i j r r' row Hr Hr' Ho Ho'. destruct (Hfind _ _ _ Hr Ho) as [k Hk], (Hfind _ _ _ Hr' Ho') as [k' Hk'].
      assert (k = k') as <-; [|congruence]. eapply (NoDup_omap_inj owner_of r_ID res.*2 Hnd); [by rewrite list_lookup_fmap, Hk|by rewrite list_lookup_fmap, Hk'|exact Ho|exact Ho'|done].
    + intros row. rewrite list_elem_of_omap. split.
      * intros (r & Hr & Ho). apply list_elem_of_lookup in Hr as [k Hk]. destruct (Hback k r row Hk Ho) as [i Hi]. by exists i, r.
      * intros (i & r & Hr & Ho). destruct (Hfind _ _ _ Hr Ho) as [k Hk]. exists r. split; [|done]. apply (list_elem_of_lookup_2 _ k). by rewrite list_lookup_fmap, Hk.
Qed.

Lemma fallback_run reqs w : ok_world w -> Forall (fun req => new_order_ok (hq_order req)) reqs ->
  exists results w', fallbackPerRequest reqs w = (Ok results, w') /\ ok_world w' /\ handed_results reqs results (w_tables w) (w_tables w')
    /\ (Lost ∉ w_faults w -> exactly_handed results (w_tables w) (w_tables w')).
Proof.
  intros Hw Hnew. set (g := groupIdempotentRequests reqs). destruct (set_conflicts_quiet (g_conflicts g) (length reqs)) as [Hq Hl]. set (base := set_conflicts _ _) in *.
  assert (Hsel : Forall (fun '(_, req) => new_order_ok (hq_order req)) (at_indices reqs (g_owners g))).
  { apply Forall_forall. intros [i req] Hin. apply at_indices_lookup in Hin as [_ Hr]. rewrite Forall_forall in Hnew. apply Hnew. by eapply list_elem_of_lookup_2. }
  destruct (each_run _ w Hw Hsel) as (res & w' & E & Hw' & Hg & Hall & Hnd & Hex). exists (applyFollowerResults (put_results base res) (g_followers g)), w'.
  split; [unfold fallbackPerRequest, mbind at 1, M_bind at 1; fold g base; by rewrite E|]. split; [done|].
  assert (Hfind : forall i r row, applyFollowerResults (put_results base res) (g_followers g) !! i = Some r -> owner_of r = Some row -> exists k, res !! k = Some (i, r)).
  { intros i r row Hr Ho. apply follower_results in Hr as [Hr|Hr]; [|congruence]. apply put_results_lookup in Hr as [Hr|Hr]; [by apply list_elem_of_lookup|].
    rewrite Forall_lookup in Hq. specialize (Hq _ _ Hr). unfold quiet in Hq. unfold owner_of in Ho. rewrite Hq in Ho. by destruct (hr_Err r), (hr_Role r). }
  split; [|intros Hl0; eapply (fallback_exact reqs base res _ _ _ Hl Hall Hnd Hfind), Hex, Hl0].
  split; [by rewrite follower_length, put_results_length|done| |].
  - intros i r row Hr Ho. destruct (Hfind _ _ _ Hr Ho) as [k Hk]. destruct (Forall2_lookup_r _ _ _ _ _ Hall Hk) as ([i' req] & Hs & Hi & Hh). cbn in Hi, Hh. subst i'.
    exists req. split; [|by apply Hh]. apply list_elem_of_lookup_2, at_indices_lookup in Hs. apply Hs.
  - intros i j r r' row row' Hr Ho Hr' Ho' Eid. destruct (Hfind _ _ _ Hr Ho) as [k Hk], (Hfind _ _ _ Hr' Ho') as [k' Hk'].
    assert (k = k') as <-; [|congruence]. eapply (NoDup_omap_inj owner_of r_ID res.*2 Hnd); [by rewrite list_lookup_fmap, Hk|by rewrite list_lookup_fmap, Hk'|exact Ho|exact Ho'|done].
Qed.

Lemma handed_before reqs results t0 t t' : tb_orders t0 ⊆ tb_orders t -> handed_results reqs results t t' -> handed_results reqs results t0 t'.
Proof.
  intros H0 [Hl Hg Hr Hd]. split; [done|by etrans| |done]. intros i r row Hi Ho. destruct (Hr _ _ _ Hi Ho) as (req & Hq & Hh). exists req. split; [done|]. by apply (single_weaken req t0 t t' t').
Qed.

(** What the coordinator does to the database and what it answers. *)
Lemma process_batch_run reqs w : ok_world w -> Forall (fun req => new_order_ok (hq_order req)) reqs ->
  exists results w', processBatch reqs w = (Ok results, w') /\ ok_world w' /\ handed_results reqs results (w_tables w) (w_tables w')
    /\ (Lost ∉ w_faults w -> exactly_handed results (w_tables w) (w_tables w')).
Proof.
  intros Hw Hnew. unfold processBatch. pose proof (hold_batch_run reqs w Hw Hnew) as H. destruct (HoldBatch reqs w) as [[results|e] w1]; destruct H as (Hw1 & Hf & H).
  - destruct H as [created H]. exists results, w1. split; [done|]. split; [done|]. split; [by eapply created_handed|]. intros _. by eapply created_exactly.
  - assert (Hg : tb_orders (w_tables w) ⊆ tb_orders (w_tables w1)) by (destruct H as [-> | (_ & _ & H)]; done).
    assert (Hsame : Lost ∉ w_faults w -> w_tables w1 = w_tables w) by (intros Hl; by destruct H as [? | (_ & ? & _)]). case_decide.
    + eexists _, w1. split; [reflexivity|]. split; [done|]. split; [|intros Hl; rewrite Hsame by done; apply unchanged_exact; clear; induction reqs; [done|]; by cbn].
      split; [apply length_map|done| |]; intros i *; rewrite list_lookup_fmap; destruct (reqs !! i); cbn; intros; by simplify_eq.
    + destruct (fallback_run reqs w1 Hw1 Hnew) as (results & w' & E & Hw' & Hh & Hex). exists results, w'. split; [done|]. split; [done|]. split; [by eapply handed_before|].
      intros Hl. rewrite <- (Hsame Hl). apply Hex. intros Hin. apply Hl. by eapply suffix_elem_of.
Qed.

(** C9 The hold coordinator.  Whatever the database does, a batch answers every request
    once; each order it hands to a request for the engine is the order of that request,
    stored under an id that was not used before; no two requests get the same order; and
    the invariant of all the services (locked funds, ledger, keys) holds afterwards.
    When no acknowledgement of a commit is lost, the orders that are new afterwards are
    exactly those handed out, also when the batch failed and its requests were taken one
    by one.  A batch whose transaction commits creates the orders its results name and no
    others, at most one per user and idempotency key, and no trade; one that fails leaves
    the tables as they were, unless the acknowledgement of its commit was lost. *)
Theorem batches_create_what_they_report reqs w : ok_world w -> Forall (fun req => new_order_ok (hq_order req)) reqs ->
  (exists results w', processBatch reqs w = (Ok results, w') /\ ok_world w' /\ handed_results reqs results (w_tables w) (w_tables w')
     /\ (Lost ∉ w_faults w -> exactly_handed results (w_tables w) (w_tables w')))
  /\ forall r w', HoldBatch reqs w = (r, w') -> ok_world w' /\
     match r with
     | Ok results => exists created, batch_created reqs results (w_tables w) (w_tables w') created
     | Err e => w_tables w' = w_tables w \/ e = DBError "" /\ Lost ∈ w_faults w
     end.
Proof.
  intros Hw Hnew. split; [by apply process_batch_run|]. intros r w' E. pose proof (hold_batch_run reqs w Hw Hnew) as H.
  rewrite E in H. destruct H as (H1 & _ & H2). split; [done|]. destruct r as [results|e]; [done|]. destruct H2 as [H2|(H2 & H3 & _)]; by auto.
Qed.

(** ** Creating an order, wherever its hold takes place *)

(** The requests that share the batch of this one. *)
Definition batch_mates (place : hold_place) : list holdRequest := match place with InBatch before after => before ++ after | _ => [] end.
Definition place_ok (place : hold_place) : Prop := Forall (fun req => new_order_ok (hq_order req)) (batch_mates place).

(** The orders that are new are those of [mine] and some that were handed to other requests
    of the batch, and the accounts changed by their holds. *)
Definition all_accounted (place : hold_place) (mine : list OrderRow) (t t' : Tables) : Prop :=
  exists rows, Forall (fun row => exists req, req ∈ batch_mates place /\ handed_out req row t t') rows
    /\ (forall id row, tb_orders t' !! id = Some row -> tb_orders t !! id = Some row \/ row ∈ mine ++ rows)
    /\ holds_posted (mine ++ rows) t t'.

Lemma accounted_single place res t t' : exactly_handed [res] t t' -> all_accounted place (option_list (owner_of res)) t t'.
Proof.
  intros [Hex Hh]. exists []. split; [constructor|]. rewrite app_nil_r. split.
  - intros id row Hr. destruct (Hex id row Hr) as [H|([|i] & r & Hi & Ho)]; [by left| |done]. injection Hi as <-. right. rewrite Ho. by left.
  - cbn in Hh. by destruct (owner_of res).
Qed.

Lemma others_row before req after results l1 res l2 t t' row : handed_results (before ++ req :: after) results t t' -> results = l1 ++ res :: l2 -> length l1 = length before ->
  row ∈ omap owner_of (l1 ++ l2) -> exists q, q ∈ before ++ after /\ handed_out q row t t'.
Proof.
  intros Hh Er El Hin. apply list_elem_of_omap in Hin as (r & Hr & Ho). apply elem_of_app in Hr as [Hr|Hr]; apply list_elem_of_lookup in Hr as [i Hi].
  - assert (Hlt : (i < length before)%nat) by (rewrite <- El; by eapply lookup_lt_Some).
    destruct (hd_rows _ _ _ _ Hh i r row) as (q & Hq & Hout); [rewrite Er; by apply lookup_app_l_Some|done|]. exists q. split; [|done].
    rewrite lookup_app_l in Hq by done. apply elem_of_app. left. by eapply list_elem_of_lookup_2.
  - destruct (hd_rows _ _ _ _ Hh (length l1 + S i)%nat r row) as (q & Hq & Hout); [rewrite Er, lookup_app_r by lia; by replace (length l1 + S i - length l1)%nat with (S i) by lia|done|].
    exists q. split; [|done]. rewrite El, lookup_app_r in Hq by lia. replace (length before + S i - length before)%nat with (S i) in Hq by lia. apply elem_of_app. right. by eapply list_elem_of_lookup_2.
Qed.

Lemma accounted_batch before req after results res t t' : handed_results (before ++ req :: after) results t t' -> exactly_handed results t t' ->
  results !! length before = Some res -> all_accounted (InBatch before after) (option_list (owner_of res)) t t'.
Proof.
  intros Hh [Hex Hp] Hres. apply list_elem_of_split_length in Hres as (l1 & l2 & Er & El). exists (omap owner_of (l1 ++ l2)).
  assert (Hperm : omap owner_of results ≡ₚ option_list (owner_of res) ++ omap owner_of (l1 ++ l2)).
  { rewrite Er, !omap_app. cbn. destruct (owner_of res) as [row|]; cbn; [by rewrite <- Permutation_middle|done]. }
  split; [apply Forall_forall; intros row Hin; by eapply others_row|]. split; [|by eapply holds_perm].
  intros id row Hr. destruct (Hex id row Hr) as [H|(i & r & Hi & Ho)]; [by left|]. right. rewrite <- Hperm. apply list_elem_of_omap. exists r. split; [by eapply list_elem_of_lookup_2|done].
Qed.

Lemma hold_run place req w : ok_world w -> new_order_ok (hq_order req) -> place_ok place ->
  exists res w', holdWithIdempotency place req w = (Ok res, w') /\ ok_world w' /\ single_outcome req res (w_tables w) (w_tables w')
    /\ (Lost ∉ w_faults w -> all_accounted place (option_list (owner_of res)) (w_tables w) (w_tables w')).
Proof.
  intros Hw Hnew Hp. destruct place as [| |before after]; cbn [holdWithIdempotency].
  - destruct (single_run req w Hw Hnew) as (res & w' & E & Hw' & Ho & _ & Hex). exists res, w'. split; [done|]. split; [done|]. split; [done|]. intros Hl. by apply accounted_single, Hex.
  - eexists _, w. split; [reflexivity|]. split; [done|]. split; [by apply failed_outcome|]. intros _. apply accounted_single. by apply unchanged_exact.
  - assert (Hall : Forall (fun q => new_order_ok (hq_order q)) (before ++ req :: after)).
    { unfold place_ok in Hp. cbn in Hp. apply Forall_app in Hp as [H1 H2]. apply Forall_app. split; [done|]. by constructor. }
    destruct (process_batch_run _ w Hw Hall) as (results & w' & E & Hw' & Hh & Hex). unfold mbind, M_bind. rewrite E.
    destruct (results !! length before) as [res|] eqn:Er.
    2: { apply lookup_ge_None in Er. rewrite (hd_length _ _ _ _ Hh), length_app in Er. cbn in Er. lia. }
    exists res, w'. split; [done|]. split; [done|]. split; [|intros Hl; eapply accounted_batch; [exact Hh|by apply Hex|done]].
    split; [apply Hh|]. intros row Ho. destruct (hd_rows _ _ _ _ Hh _ _ _ Er Ho) as (q & Hq & Hout). by rewrite list_lookup_middle in Hq by done; simplify_eq.
Qed.

Context {API : MatchingAPI}.

(** What [CreateOrder] did, told from its reply: a new order is stored, with its hold, in
    a state [t1] the invariant holds of, and goes to the engine from there; otherwise the
    engine gets nothing. *)
Definition create_outcome (place : hold_place) (now : Z) (input : CreateOrderInput) (w : World) (me : option engine)
    (reply : CreateOrderReply) (t' : Tables) (me' : option engine) : Prop :=
  let nothing := me' = me /\ tb_orders (w_tables w) ⊆ tb_orders t' /\ (Lost ∉ w_faults w -> all_accounted place [] (w_tables w) t') in
  match rp_Result reply with
  | None => nothing
  | Some res =>
      if co_Replay res then nothing
      else exists order idem row t1 s1 e e', parseOrderRequest input = Ok order /\ sys_ok t1 s1
             /\ handed_out (mkHoldRequest order (Some idem)) row (w_tables w) t1 /\ (Lost ∉ w_faults w -> all_accounted place [row] (w_tables w) t1)
             /\ me = Some e /\ me' = Some e' /\ submit_outcome row now t1 e reply t' e'
  end.

Lemma handed_new_ok req row t t' : new_order_ok (hq_order req) -> handed_out req row t t' -> new_order_ok row.
Proof. intros [[] ? ?] (-> & _). split; [by split | done | done]. Qed.

Lemma nothing_handed place t : all_accounted place [] t t.
Proof. exact (accounted_single place emptyResult t t (unchanged_exact [emptyResult] t eq_refl)). Qed.

Lemma follower_replays res i r : rp_Result (reply_of (followerResult res i)) = Some r -> co_Replay r = true.
Proof. unfold followerResult, replayResult, reply_of. intros H. by repeat case_match; simplify_eq/=. Qed.

Lemma create_order_run place rules now input w me : ok_world w -> place_ok place ->
  let '(reply, w', me') := CreateOrder (holdWithIdempotency place) rules now input w me in
  ok_world w' /\ create_outcome place now input w me reply (w_tables w') me'.
Proof.
  intros Hw Hp. unfold CreateOrder. assert (Hnone : forall e, create_outcome place now input w me (mkReply None (Some e)) (w_tables w) me).
  { intros e. split; [done|]. split; [done|]. intros _. apply nothing_handed. }
  destruct (parse_request input) as [[[key order] fp]|e] eqn:Ep; [|done].
  apply parse_request_Ok in Ep as (Hnew & _ & _ & _ & Hparse).
  assert (Hrefuse : forall err, ok_world (refuse order key err w).2
    /\ create_outcome place now input w me (refuse order key err w).1 (w_tables (refuse order key err w).2) me).
  { intros err. destruct (refuse_readonly order key err w) as [E1 E2]. split; [unfold ok_world; by rewrite E1, E2|]. rewrite E1.
    unfold create_outcome. destruct (rp_Result _) as [res|] eqn:Er; [|exact (Hnone err)]. rewrite (refuse_replay _ _ _ _ _ Er). exact (Hnone err). }
  destruct (validateMarketPolicy order rules) as [u|err].
  2: { pose proof (Hrefuse err) as H. by destruct (refuse order key err w). }
  destruct me as [e|]; [|pose proof (Hrefuse (NewUnavailableErrorf "matching engine is not configured" [])) as H; by destruct (refuse _ _ _ w)].
  destruct (negb _).
  { pose proof (Hrefuse (NewUnavailableErrorf "order intake is saturated, please retry shortly" [])) as H. by destruct (refuse _ _ _ w). }
  set (idem := mkIdem key fp CurrentOrderFingerprintVersion). destruct (hold_run place (mkHoldRequest order (Some idem)) w Hw Hnew Hp) as (res & w1 & E & Hw1 & [Hg Hrow] & Hex).
  rewrite E. unfold owner_of in Hrow, Hex. destruct (hr_Err res) as [err|]; [split; [done|by split]|].
  destruct (hr_Role res); [destruct (hr_Order res) as [row|]; [|split; [done|by split]]|].
  - pose proof (Hrow row eq_refl) as Hout. pose proof (submit_run row (hr_RecordID res) now w1 e Hw1 (handed_new_ok (mkHoldRequest order (Some idem)) _ _ _ Hnew Hout) (proj2 (proj2 Hout))) as Hs.
    destruct (submit_held _ _ now w1 e) as [[reply w2] e2]. destruct Hs as [Hw2 Hs]. split; [done|].
    unfold create_outcome. pose proof Hs as (r & Er & Erep & _). rewrite Er, Erep. exists order, idem, row, (w_tables w1), (w_seqs w1), e, e2. by destruct Hw1.
  - split; [done|]. unfold create_outcome. destruct (rp_Result _) as [r|] eqn:Er; [|by split]. rewrite (follower_replays _ _ _ Er). by split.
Qed.

Lemma rejected_returns row t1 t' k : rejected row t1 t' -> balance_of t' k + key_sum k (in_Postings (hold_input row)) == balance_of t1 k.
Proof.
  intros (_ & _ & amount & Hamt & Hpost). rewrite (posted_balance _ _ _ k Hpost).
  change (in_Postings (hold_input row)) with (in_Postings (transfer JournalEventOrderHold (order_hold_key (r_ID row)) (r_ID row) (r_UserID row)
    (orderHoldAsset row) AccountUserAvailable AccountUserLocked (holdAmountFor row))).
  change (in_Postings (release_input row amount releaseReasonRejected)) with (in_Postings (transfer JournalEventOrderRelease
    (order_release_key (r_ID row) releaseReasonRejected) (r_ID row) (r_UserID row) (orderHoldAsset row) AccountUserLocked AccountUserAvailable amount)).
  rewrite !transfer_key_sum. unfold on. repeat case_decide; lra.
Qed.

(** C8 What [CreateOrder] reports is what happened, wherever the hold takes place: in a batch
    of the coordinator with any other requests, as in the running program, refused by a
    full coordinator, or alone; and whatever the database does.  The invariant of
    accounts, orders and keys holds afterwards.  An order in the reply that is not a
    replay was stored, under a new id, with its assets held, and was submitted to the
    engine once, with the fee-free quote amount; accepted means that the engine took it;
    rejected, that the engine refused it and that it is stored as rejected with its hold
    given back in full.  A replay, and an error without a result, submitted nothing; and
    if no acknowledgement of a commit was lost, then it also stored nothing and moved
    nothing: all that is new belongs to the other requests of the batch. *)
Theorem create_order_truthful place rules now input w me : ok_world w -> place_ok place ->
  let '(reply, w', me') := CreateOrder (holdWithIdempotency place) rules now input w me in
  ok_world w' /\ create_outcome place now input w me reply (w_tables w') me'
  /\ forall res, rp_Result reply = Some res -> co_Replay res = false -> co_Outcome res = OutcomeRejected -> Lost ∉ w_faults w ->
       exists rows, Forall (fun row => exists req, req ∈ batch_mates place /\ numbered (hq_order req) row) rows /\ holds_posted rows (w_tables w) (w_tables w').
Proof.
  intros Hw Hp. pose proof (create_order_run place rules now input w me Hw Hp) as H. destruct (CreateOrder _ _ _ _ _ _) as [[reply w'] me'].
  destruct H as [Hw' Hout]. split; [done|]. split; [done|]. intros res Hres Hrep Hrej Hl. unfold create_outcome in Hout. rewrite Hres, Hrep in Hout.
  destruct Hout as (order & idem & row & t1 & s1 & e & e' & _ & _ & _ & Hacc & _ & _ & (res' & E & _ & _ & q & b & _ & _ & Hcase)).
  rewrite Hres in E. simplify_eq. rewrite Hrej in Hcase. destruct Hcase as (_ & _ & Hrej'). destruct (Hacc Hl) as (rows & Hrows & _ & Hh). exists rows. split.
  - eapply Forall_impl; [exact Hrows|]. intros x (req & Hr & Hx & _). by exists req.
  - intros k. pose proof (rejected_returns _ _ _ k Hrej') as Hk. pose proof (Hh k) as Hk1. cbn [app] in Hk1. rewrite hold_sum_cons in Hk1. lra.
Qed.
End HoldBatchProofs.
