(* ===== verification/TransferProofs.v ===== *)
(** * Transfers move money once

    What every operation on transfers does to a well-formed store: accepting a
    withdrawal moves its amount to the locked account, observing moves nothing,
    and a transfer is confirmed at most once, whatever callbacks and polls
    arrive. *)
From S2P Require Import Prelude Decimal Model Errors Fee MarketRules Database Ledger LedgerInv LedgerSpec LedgerTheorems Sha256 OrderLedger Settlement TradePlan Store SettlementProofs Idempotency HoldCoordinator OrderService Transfers TransferInv LockedFunds OrderProofs.
From Stdlib Require Import Lia.

Section TransferProofs.
Context {DL : DecimalLib} {DLaws : DecimalLaws DL}.
Local Open Scope Q_scope.

(** ** The request table *)

Lemma elem_of_transfers t r : r ∈ transfers t <-> exists id, tb_transfers t !! id = Some r.
Proof.
  unfold transfers. rewrite list_elem_of_fmap. split.
  - intros ([id x] & -> & H). apply elem_of_map_to_list in H. by exists id.
  - intros [id H]. exists (id, r). split; [done|]. by apply elem_of_map_to_list.
Qed.

Lemma find_request_Some t pair r : find_request t pair = Some r -> transfer_pair r = pair /\ exists id, tb_transfers t !! id = Some r.
Proof.
  unfold find_request. destruct (list_find _ _) as [[i x]|] eqn:E; cbn; [|done]. intros; simplify_eq.
  apply list_find_Some in E as (Hl & Hp & _). split; [done|]. apply elem_of_transfers. by eapply list_elem_of_lookup_2.
Qed.
Lemma find_request_None t pair : find_request t pair = None -> forall id r, tb_transfers t !! id = Some r -> transfer_pair r <> pair.
Proof.
  unfold find_request. destruct (list_find _ _) as [[i x]|] eqn:E; cbn; [done|]. intros _ id r Hr Hp.
  apply list_find_None in E. rewrite Forall_forall in E. apply (E r); [|done]. apply elem_of_transfers. by exists id.
Qed.

Lemma ref_free t s id r : transfers_ok t s -> ref_taken t id r = false ->
  forall j x ref, tb_transfers t !! j = Some x -> tq_ExternalRef x = Some ref -> tq_ExternalRef r = Some ref -> j = id.
Proof.
  intros Hok Hf j x ref Hj Hx Hr. unfold ref_taken in Hf. rewrite Hr in Hf. apply bool_decide_eq_false in Hf.
  destruct (decide (j = id)) as [|Hne]; [done|]. destruct Hf. apply Exists_exists. exists x.
  split; [apply elem_of_transfers; by exists j|]. split; [|done]. by rewrite (proj1 (tr_ids _ _ Hok j x Hj)).
Qed.

(** The part of a request that never changes. *)
Record kept (r r' : TransferRequest) : Prop := {
  kp_id : tq_ID r' = tq_ID r; kp_user : tq_UserID r' = tq_UserID r; kp_direction : tq_Direction r' = tq_Direction r;
  kp_rail : tq_Rail r' = tq_Rail r; kp_asset : tq_Asset r' = tq_Asset r; kp_amount : tq_Amount r' = tq_Amount r;
  kp_fee : tq_FeeAmount r' = tq_FeeAmount r; kp_fee_asset : tq_FeeAsset r' = tq_FeeAsset r;
  kp_key : tq_ClientRequestKey r' = tq_ClientRequestKey r }.

Lemma kept_refl r : kept r r.
Proof. done. Qed.
Lemma kept_trans r1 r2 r3 : kept r1 r2 -> kept r2 r3 -> kept r1 r3.
Proof. intros [] []. split; congruence. Qed.

Lemma transfers_update t s t' s' id r r' : transfers_ok t s -> seq_le s s' -> tb_transfers t !! id = Some r ->
  tb_transfers t' = <[id := r']> (tb_transfers t) -> kept r r' ->
  (tq_ExternalRef r' = None <-> tq_Status r' = TransferStatusReceived) -> columns_ok r' ->
  tq_ExternalRef r' = tq_ExternalRef r \/ ref_taken t id r' = false ->
  (IsTerminalStatus (tq_Status r) = true -> IsTerminalStatus (tq_Status r') = true /\ tq_ExternalRef r' = tq_ExternalRef r) ->
  (forall k, find_journal t' k <> None -> find_journal t k <> None
     \/ exists ref, k ∈ confirm_keys ref /\ tq_ExternalRef r' = Some ref /\ IsTerminalStatus (tq_Status r') = true) ->
  transfers_ok t' s'.
Proof.
  intros Hok Hs Hr Ht Hk Href Hcol Hfree Hterm Hj. pose proof Hok as [H1 H2 H3 H4 H5 H6].
  assert (Hown : forall j x ref, tb_transfers t !! j = Some x -> tq_ExternalRef x = Some ref -> tq_ExternalRef r' = Some ref -> j = id).
  { intros j x ref Hx Ex Er. destruct Hfree as [E|Hf]; [|by eapply ref_free]. rewrite E in Er. by eapply (H4 j id). }
  split; rewrite ?Ht.
  - apply map_Forall_insert_2.
    + rewrite (kp_id _ _ Hk). destruct (H1 id r Hr). split; [done|]. specialize (Hs "transfer_requests"%string). lia.
    + intros j x Hx. destruct (H1 j x Hx). split; [done|]. specialize (Hs "transfer_requests"%string). lia.
  - apply map_Forall_insert_2; [|done]. destruct (H2 id r Hr), Hk. split; congruence.
  - assert (Hp : transfer_pair r' = transfer_pair r) by (destruct Hk; unfold transfer_pair; congruence).
    intros i j x y. rewrite !lookup_insert_Some. intros [[<- <-]|[Hi Hx]] [[<- <-]|[Hj' Hy]] E; try done.
    + by apply (H3 id j r y); [| |congruence].
    + by apply (H3 i id x r); [| |congruence].
    + by eapply (H3 i j).
  - intros i j x y ref. rewrite !lookup_insert_Some. intros [[<- <-]|[Hi Hx]] [[<- <-]|[Hj' Hy]] E E'; try done.
    + symmetry. by eapply Hown.
    + by eapply Hown.
    + by eapply (H4 i j).
  - intros j Hf. rewrite lookup_insert_is_Some'. right. apply H5. apply Hj in Hf as [Hf|(ref & Hin & _)]; [done|].
    by apply hold_not_confirm in Hin.
  - intros ref k Hin Hf. apply Hj in Hf as [Hf|(ref' & Hin' & Er & Hc)].
    + destruct (H6 ref k Hin Hf) as (j & x & Hx & Ex & Hc). destruct (decide (j = id)) as [->|Hne].
      * rewrite Hr in Hx. simplify_eq. destruct (Hterm Hc) as [Hc' E]. exists id, r'. rewrite lookup_insert_eq. by rewrite E.
      * exists j, x. by rewrite lookup_insert_ne.
    + exists id, r'. rewrite lookup_insert_eq. split; [done|]. split; [|done]. by rewrite (confirm_keys_inj k ref ref').
Qed.
Lemma update_request_wp op id guard f (Q : unit -> Tables -> Seqs -> Prop) t s r : tb_transfers t !! id = Some r ->
  (guard r = true -> columns_ok (f r) -> ref_taken t id (f r) = false -> Q tt (t <| tb_transfers := <[id := f r]> (tb_transfers t) |>) s) ->
  wp (update_request op id guard f) Q (fun _ => True) t s.
Proof.
  intros Hr HQ. unfold update_request. apply wp_bind, wp_stmt, wp_bind, wp_get. rewrite Hr.
  destruct (guard r); [|by apply wp_throw]. destruct (match tq_ExternalRef (f r) with Some _ => _ | None => _ end) eqn:El; [by apply wp_throw|].
  destruct (transfer_checks (f r)) eqn:Ec; [|by apply wp_throw]. destruct (ref_taken t id (f r)); [by apply wp_throw|].
  apply wp_put. apply HQ; try done. split; [done|]. by destruct (tq_ExternalRef (f r)).
Qed.


(** ** What transfers have moved *)

Definition key_outside (r : TransferRequest) : accountKey := newAccountKey (externalAccountType r) None (tq_Asset r).

(** The change of account [k] that a request stands for, by its status alone. *)
Definition transfer_effect (k : accountKey) (r : TransferRequest) : Q :=
  let user ty := on k (key_user ty (tq_UserID r) (tq_Asset r)) in
  match tq_Direction r, tq_Status r with
  | TransferDirectionDeposit, TransferStatusCompleted => on k (key_outside r) (- dval (tq_Amount r)) + user AccountUserAvailable (dval (tq_Amount r))
  | TransferDirectionDeposit, _ => 0
  | TransferDirectionWithdrawal, TransferStatusCompleted =>
      user AccountUserAvailable (- locked_amount r) + on k (key_outside r) (dval (tq_Amount r))
      + on k (newAccountKey AccountFeeIncome None (tq_FeeAsset r)) (dval (tq_FeeAmount r))
  | TransferDirectionWithdrawal, TransferStatusFailed => 0
  | TransferDirectionWithdrawal, _ => user AccountUserAvailable (- locked_amount r) + user AccountUserLocked (locked_amount r)
  end.

Definition status_step (x y : TransferStatus) : Prop :=
  (x = TransferStatusReceived /\ y = TransferStatusProcessing) \/ (x = TransferStatusProcessing /\ IsTerminalStatus y = true).

(** The ledger has moved by exactly what the requests stand for, requests are
    only closed, and nothing else has changed. *)
Record evolved (t t' : Tables) : Prop := {
  ev_balances : forall k, balance_of t' k
    == balance_of t k + (map_sum (transfer_effect k) (tb_transfers t') - map_sum (transfer_effect k) (tb_transfers t));
  ev_requests : forall id r, tb_transfers t !! id = Some r ->
    exists r', tb_transfers t' !! id = Some r' /\ kept r r' /\ rtc status_step (tq_Status r) (tq_Status r');
  ev_orders : tb_orders t' = tb_orders t;
  ev_trades : tb_trades t' = tb_trades t;
  ev_idempotency : tb_idempotency t' = tb_idempotency t }.

Lemma evolved_refl t : evolved t t.
Proof. split; try done; [intros k; lra|]. intros id r Hr. exists r. split; [done|]. split; [apply kept_refl | done]. Qed.

Lemma evolved_trans t1 t2 t3 : evolved t1 t2 -> evolved t2 t3 -> evolved t1 t3.
Proof.
  intros [B1 R1 O1 T1 I1] [B2 R2 O2 T2 I2]. split; try congruence.
  - intros k. rewrite B2, B1. lra.
  - intros id r Hr. destruct (R1 id r Hr) as (r' & Hr' & Hk & Hs). destruct (R2 id r' Hr') as (r'' & Hr'' & Hk' & Hs').
    exists r''. split; [done|]. split; [by eapply kept_trans | by etrans].
Qed.

Lemma on_zero_ne k x v : x <> k -> on k x v == 0.
Proof. intros H. unfold on. rewrite decide_False by done. lra. Qed.

Lemma outside_not_user r ty u a : key_outside r <> key_user ty u a \/ ty <> AccountUserAvailable /\ ty <> AccountUserLocked.
Proof.
  destruct (decide (ty = AccountUserAvailable)) as [-> |H1]; [|destruct (decide (ty = AccountUserLocked)) as [-> |H2]; [|by right]];
    left; unfold key_outside, externalAccountType; case_decide; by intros [=].
Qed.

(** On a locked account, what a request stands for is what it withholds. *)
Lemma effect_locked u a r : transfer_effect (key_user AccountUserLocked u a) r == withheld u a r.
Proof.
  assert (Hx : key_outside r <> key_user AccountUserLocked u a) by (by destruct (outside_not_user r AccountUserLocked u a) as [H|[_ H]]).
  assert (Ha : forall v, on (key_user AccountUserLocked u a) (key_user AccountUserAvailable (tq_UserID r) (tq_Asset r)) v == 0)
    by (intros v; apply on_zero_ne; by intros [=]).
  assert (Hp : pending_withdrawal r -> on (key_user AccountUserLocked u a) (key_user AccountUserLocked (tq_UserID r) (tq_Asset r)) (locked_amount r) == withheld u a r).
  { intros Hp. unfold withheld, on. destruct (decide (_ /\ _ /\ _)) as [(<- & <- & _)|Hn]; [rewrite decide_True by done; lra|].
    rewrite decide_False; [lra|]. intros [= E1 E2]. by apply Hn. }
  assert (Hn : ~ pending_withdrawal r -> withheld u a r = 0) by (intros Hn; unfold withheld; rewrite decide_False by tauto; done).
  unfold transfer_effect. unfold pending_withdrawal in *. destruct (tq_Direction r), (tq_Status r);
    try (rewrite Ha, Hp by auto; lra); rewrite Hn by (intuition congruence); rewrite ?Ha, ?(on_zero_ne _ (key_outside r)) by done; try lra.
  rewrite on_zero_ne by (by intros [=]). lra.
Qed.

Lemma sys_evolved t s t' s' : sys_ok t s -> store_ok t' s' -> evolved t t' ->
  (forall k, find_journal t' k <> None ->
     find_journal t k <> None \/ (forall id reason, k <> order_release_key id reason) /\ (forall id, k <> order_hold_key id)) ->
  transfers_ok t' s' -> sys_ok t' s'.
Proof.
  intros Hsys Hok Hev Hj Htr. apply (sys_move t s); try done; try apply Hev. intros u a. unfold locked. rewrite (ev_balances _ _ Hev).
  rewrite !(map_sum_ext (transfer_effect (key_user AccountUserLocked u a)) (withheld u a)) by apply effect_locked. done.
Qed.

Lemma evolved_update t t' id r r' : tb_transfers t !! id = Some r -> tb_transfers t' = <[id := r']> (tb_transfers t) -> kept r r' ->
  rtc status_step (tq_Status r) (tq_Status r') ->
  (forall k, balance_of t' k == balance_of t k + (transfer_effect k r' - transfer_effect k r)) ->
  tb_orders t' = tb_orders t -> tb_trades t' = tb_trades t -> tb_idempotency t' = tb_idempotency t -> evolved t t'.
Proof.
  intros Hr Ht Hk Hst Hb Ho Htr Hi. split; try done; rewrite Ht.
  - intros k. rewrite Hb, (map_sum_update _ _ _ _ _ Hr). lra.
  - intros j x Hx. destruct (decide (j = id)) as [-> |Hne].
    + rewrite Hr in Hx. simplify_eq. exists r'. by rewrite lookup_insert_eq.
    + exists x. rewrite lookup_insert_ne by done. split; [done|]. split; [apply kept_refl | done].
Qed.

(** ** Confirming *)

(** A confirmation moves the difference of what the request stands for. *)
Lemma confirm_effect r ref outcome input r' k : request_wf r -> tq_Status r = TransferStatusProcessing -> kept r r' ->
  confirmation_input r ref outcome = Ok input ->
  matchesTerminalOutcome (tq_Status r') outcome = true ->
  match input with Some i => key_sum k (in_Postings i) | None => 0 end == transfer_effect k r' - transfer_effect k r.
Proof.
  intros Hwf Hst [] Hi Hst'. unfold transfer_effect, key_outside, externalAccountType, locked_amount.
  rewrite Hst, kp_user0, kp_direction0, kp_rail0, kp_asset0, kp_amount0, kp_fee0, kp_fee_asset0. unfold confirmation_input in Hi.
  assert (Hlk : forall x, on k x (dval (Neg (Add (tq_Amount r) (tq_FeeAmount r)))) == - on k x (dval (tq_Amount r) + dval (tq_FeeAmount r)))
    by (intros x; unfold on; rewrite dval_Neg, dval_Add; lra).
  assert (Hneg : forall x v, on k x (- v) == - on k x v) by (intros x v; unfold on; lra).
  destruct (tq_Direction r), outcome; simplify_eq; destruct (tq_Status r'); try discriminate Hst'; try lra;
    unfold deposit_settle_input, withdraw_settle_input, withdraw_refund_input, in_Postings, app; rewrite !key_sum_cons;
    unfold posting_key, externalAccountType, pi_AccountType, pi_OwnerUserID, pi_Asset, pi_Amount, key_user.
  - rewrite key_sum_nil, (on_eq _ _ _ _ (dval_Neg _)). change (newAccountKey AccountUserAvailable (Some (tq_UserID r)) (tq_Asset r)) with (AccountUserAvailable, (tq_UserID r, tq_Asset r)). lra.
  - change (newAccountKey AccountUserLocked (Some (tq_UserID r)) (tq_Asset r)) with (AccountUserLocked, (tq_UserID r, tq_Asset r)).
    assert (Hfee : key_sum k (if IsPositive (tq_FeeAmount r) then [mkPostingInput AccountFeeIncome None (tq_FeeAsset r) (tq_FeeAmount r)] else [])
      == on k (newAccountKey AccountFeeIncome None (tq_FeeAsset r)) (dval (tq_FeeAmount r))).
    { destruct (IsPositive _) eqn:E; [rewrite key_sum_cons, key_sum_nil; apply Qplus_0_r|]. rewrite key_sum_nil, on_zero; [done|].
      destruct (rw_fee _ Hwf) as [Hf _]. apply IsPositive_false in E. lra. }
    unfold app in Hfee. rewrite Hfee, Hlk. lra.
  - change (newAccountKey AccountUserLocked (Some (tq_UserID r)) (tq_Asset r)) with (AccountUserLocked, (tq_UserID r, tq_Asset r)).
    change (newAccountKey AccountUserAvailable (Some (tq_UserID r)) (tq_Asset r)) with (AccountUserAvailable, (tq_UserID r, tq_Asset r)).
    rewrite key_sum_nil, Hlk, Hneg, (on_eq _ _ _ _ (dval_Add _ _)). lra.
Qed.
Lemma confirm_key_new t s id r ref k : transfers_ok t s -> tb_transfers t !! id = Some r -> tq_Status r = TransferStatusProcessing ->
  tq_ExternalRef r = Some ref -> k ∈ confirm_keys ref -> find_journal t k = None.
Proof.
  intros Hok Hr Hst Href Hk. destruct (find_journal t k) as [e|] eqn:E; [|done].
  destruct (tr_closed _ _ Hok ref k Hk) as (j & x & Hx & Ex & Hc); [by rewrite E|].
  assert (j = id) as -> by (by eapply (tr_refs _ _ Hok j id)). rewrite Hr in Hx. simplify_eq. by rewrite Hst in Hc.
Qed.

Lemma confirm_key_ok i ref t : in_IdempotencyKey i ∈ confirm_keys ref -> key_ok i t.
Proof. unfold confirm_keys. rewrite !elem_of_cons, elem_of_nil. intros [E|[E|[E|[]]]] key E'; by rewrite E in E'. Qed.

Lemma confirmation_key r ref outcome i : confirmation_input r ref outcome = Ok (Some i) -> in_IdempotencyKey i ∈ confirm_keys ref.
Proof.
  unfold confirmation_input, confirm_keys. rewrite !elem_of_cons. destruct (tq_Direction r), outcome; intros; simplify_eq; cbn; auto.
Qed.

Lemma recordConfirmationJournal_spec id r outcome t s : sys_ok t s -> tb_transfers t !! id = Some r ->
  tq_Status r = TransferStatusProcessing ->
  wp (recordConfirmationJournal r outcome)
    (fun _ t1 s1 => store_ok t1 s1 /\ same_rest t t1
       /\ (forall r' k, kept r r' -> matchesTerminalOutcome (tq_Status r') outcome = true ->
            balance_of t1 k == balance_of t k + (transfer_effect k r' - transfer_effect k r))
       /\ forall k, find_journal t1 k <> None -> find_journal t k <> None \/ exists ref, tq_ExternalRef r = Some ref /\ k ∈ confirm_keys ref)
    (fun _ => True) t s.
Proof.
  intros Hsys Hr Hst. pose proof (tr_wf _ _ (sy_transfers _ _ Hsys) id r Hr) as Hwf.
  unfold recordConfirmationJournal. destruct (tq_ExternalRef r) as [ref|] eqn:Eref; [|by apply wp_throw].
  apply wp_bind, wp_lift. destruct (confirmation_input r ref outcome) as [[i|]|] eqn:Ei; [| |done].
  - pose proof (confirmation_key _ _ _ _ Ei) as Hk. apply wp_bind.
    eapply wp_mono; [apply (Record_store i t s (sy_store _ _ Hsys)), (confirm_key_ok i ref t Hk)| |done].
    intros [e c] t1 s1 _ (Hok1 & Hrest & Hdone & _). apply wp_ret. split; [done|]. split; [done|].
    unfold journal_done in Hdone. destruct c; [|destruct Hdone as (_ & e' & Hf & _);
      rewrite (confirm_key_new t s id r ref _ (sy_transfers _ _ Hsys) Hr Hst Eref Hk) in Hf; done].
    split.
    + intros r' k Hkept Hm. rewrite (posted_balance _ _ _ k Hdone), (confirm_effect r ref outcome _ r' k Hwf Hst Hkept Ei Hm). done.
    + intros k Hf. apply (posted_find _ _ _ _ Hdone) in Hf as [Hf| ->]; [by left|]. right. by exists ref.
  - apply wp_ret. split; [apply Hsys|]. split; [done|]. split; [|by left].
    intros r' k Hkept Hm. rewrite <- (confirm_effect r ref outcome _ r' k Hwf Hst Hkept Ei Hm). lra.
Qed.

Lemma terminal_matches outcome : IsTerminalOutcome outcome = true ->
  matchesTerminalOutcome (if decide (outcome = TransferOutcomeSuccess) then TransferStatusCompleted else TransferStatusFailed) outcome = true
  /\ IsTerminalStatus (if decide (outcome = TransferOutcomeSuccess) then TransferStatusCompleted else TransferStatusFailed) = true.
Proof. by destruct outcome. Qed.

(** The outcome of a call about a transfer. *)
Abbreviation call_ok t := (fun _ t' s' => sys_ok t' s' /\ evolved t t').

Lemma confirm_spec id r outcome payload t s : sys_ok t s -> tb_transfers t !! id = Some r ->
  tq_Status r = TransferStatusProcessing -> IsTerminalOutcome outcome = true ->
  wp (confirmTerminal r outcome payload) (call_ok t) (fun _ => True) t s.
Proof.
  intros Hsys Hr Hst Ho. unfold confirmTerminal. apply wp_bind. pose proof (sy_transfers _ _ Hsys) as Htr.
  pose proof (tr_wf _ _ Htr id r Hr) as Hwf. pose proof (proj1 (tr_ids _ _ Htr id r Hr)) as Hid.
  eapply wp_mono; [by apply (recordConfirmationJournal_spec id r outcome t s)| |done].
  intros jid t1 s1 Hs1 (Hok1 & Hrest & Hbal & Hj). pose proof Hrest as (_ & Ho1 & Ht1 & _ & Hi1 & _ & Htf1 & _).
  set (status := if decide (outcome = TransferOutcomeSuccess) then TransferStatusCompleted else TransferStatusFailed).
  destruct (terminal_matches outcome Ho) as [Hm Hc]. fold status in Hm, Hc.
  assert (Hgen : forall reason, wp (repo_ConfirmTerminal (tq_ID r) status jid reason) (call_ok t) (fun _ => True) t1 s1).
  { intros reason. rewrite Hid. eapply update_request_wp; [by rewrite Htf1|]. intros _ Hcol _. rewrite Htf1.
    set (r' := _ <| tq_FailureReason := reason |>). set (t2 := t1 <| tb_transfers := _ |>).
    assert (Hk : kept r r') by done.
    assert (Href : tq_ExternalRef r' <> None) by (change (tq_ExternalRef r <> None); rewrite (rw_ref _ Hwf), Hst; done).
    assert (Hev : evolved t t2).
    { apply (evolved_update t t2 id r r'); try done; [|intros k; by apply Hbal]. apply rtc_once. by right. }
    split; [|done]. apply (sys_evolved t s); [done | by apply (store_ok_same t1) | done | |].
    - intros k Hf. apply Hj in Hf as [Hf|(ref & _ & Hk')]; [by left|]. right.
      unfold confirm_keys in Hk'. rewrite !elem_of_cons, elem_of_nil in Hk'. by destruct Hk' as [-> |[-> |[-> |[]]]].
    - apply (transfers_update t s t2 s1 id r r' Htr Hs1 Hr); [done | done | | done | by left | by intros E; rewrite Hst in E|].
      { split; [done|]. intros E. change (status = TransferStatusReceived) in E. by rewrite E in Hc. }
      intros k Hf. apply Hj in Hf as [Hf|(ref & E & Hk')]; [by left|]. right. by exists ref. }
  unfold status in Hgen. destruct (decide _); apply Hgen.
Qed.

(** ** Calls that move no money *)

(** A change of a request that only notes something, or submits it. *)
Definition quiet (r r' : TransferRequest) : Prop :=
  kept r r' /\ (tq_Status r' = tq_Status r /\ tq_ExternalRef r' = tq_ExternalRef r
                \/ tq_Status r = TransferStatusReceived /\ tq_Status r' = TransferStatusProcessing /\ tq_ExternalRef r' <> None).

Lemma effect_pending k r r' : kept r r' -> IsTerminalStatus (tq_Status r) = false -> IsTerminalStatus (tq_Status r') = false ->
  transfer_effect k r' = transfer_effect k r.
Proof.
  intros [] H H'. unfold transfer_effect, key_outside, externalAccountType, locked_amount.
  rewrite kp_user0, kp_direction0, kp_rail0, kp_asset0, kp_amount0, kp_fee0, kp_fee_asset0.
  by destruct (tq_Direction r), (tq_Status r), (tq_Status r').
Qed.
Lemma effect_status k r r' : kept r r' -> tq_Status r' = tq_Status r -> transfer_effect k r' = transfer_effect k r.
Proof.
  intros [] H. unfold transfer_effect, key_outside, externalAccountType, locked_amount.
  by rewrite kp_user0, kp_direction0, kp_rail0, kp_asset0, kp_amount0, kp_fee0, kp_fee_asset0, H.
Qed.
Lemma quiet_effect k r r' : quiet r r' -> transfer_effect k r' = transfer_effect k r.
Proof.
  intros [Hk [[Hs _]|(E & E' & _)]]; [by apply effect_status | apply effect_pending; [done | by rewrite E | by rewrite E']].
Qed.

Lemma quiet_update op id guard f t s r : sys_ok t s -> tb_transfers t !! id = Some r -> (guard r = true -> quiet r (f r)) ->
  wp (update_request op id guard f) (call_ok t) (fun _ => True) t s.
Proof.
  intros Hsys Hr Hq. apply (update_request_wp _ _ _ _ _ _ _ r Hr). intros Hg Hcol Hfree. pose proof (Hq Hg) as Hqu. pose proof Hqu as [Hk Hst].
  pose proof (rw_ref _ (tr_wf _ _ (sy_transfers _ _ Hsys) id r Hr)) as Href. set (t' := t <| tb_transfers := _ |>).
  assert (Hev : evolved t t').
  { apply (evolved_update t t' id r (f r)); try done.
    - destruct Hst as [[-> _]|(-> & -> & _)]; [done|]. apply rtc_once. by left.
    - intros k. rewrite (quiet_effect k r (f r) Hqu). change (balance_of t' k) with (balance_of t k). lra. }
  split; [|done]. apply (sys_evolved t s); [done | | done | by left|].
  - apply (store_ok_same t); [done ..|]. apply Hsys.
  - apply (transfers_update t s t' s id r (f r)); [apply Hsys | apply seq_le_refl | done | done | done | | done | by right | | by left].
    + destruct Hst as [[-> ->]|(H1 & -> & H3)]; [done | by split].
    + destruct Hst as [[-> ->]|(-> & _)]; done.
Qed.

(** The status events are a log beside the requests. *)
Lemma sys_events t s ev : sys_ok t s -> sys_ok (t <| tb_transfer_events := ev |>) s.
Proof. by apply sys_ok_same. Qed.

Lemma insert_event_wp e (Q : bool -> Tables -> Seqs -> Prop) t s : sys_ok t s ->
  (forall s', sys_ok t s' -> Q false t s') ->
  (forall ev s', sys_ok (t <| tb_transfer_events := ev |>) s' -> Q true (t <| tb_transfer_events := ev |>) s') ->
  wp (InsertEventIfAbsent e) Q (fun _ => True) t s.
Proof.
  intros Hsys H0 H1. unfold InsertEventIfAbsent. apply wp_bind, wp_stmt, wp_bind, wp_nextval. intros s' Hs _ _. apply wp_bind, wp_get.
  pose proof (sys_ok_seq _ _ _ Hs Hsys) as Hsys'. destruct (too_long _ _); [by apply wp_throw|].
  destruct (match te_Outcome e with TransferOutcomeOther _ => _ | _ => _ end); [by apply wp_throw|]. case_decide; [apply wp_ret; by apply H0|].
  destruct (tb_transfers t !! _); [|by apply wp_throw]. apply wp_bind, wp_put, wp_ret. by apply H1, sys_events.
Qed.

Lemma after_event {A} (m : M A) t ev s : wp m (call_ok (t <| tb_transfer_events := ev |>)) (fun _ => True) (t <| tb_transfer_events := ev |>) s ->
  wp m (call_ok t) (fun _ => True) (t <| tb_transfer_events := ev |>) s.
Proof. intros H. eapply wp_mono; [exact H| |done]. intros a t' s' _ [H1 [? ? ? ? ?]]. by split. Qed.

Lemma LockByID_wp id (Q : TransferRequest -> Tables -> Seqs -> Prop) t s :
  (forall r, tb_transfers t !! id = Some r -> Q r t s) -> wp (LockByID id) Q (fun _ => True) t s.
Proof. intros H. apply wp_bind, wp_query. destruct (tb_transfers t !! id); [by apply wp_ret, H | by apply wp_throw]. Qed.

Lemma flag_spec id r reason at_ t s : sys_ok t s -> tb_transfers t !! id = Some r ->
  wp (SetReviewRequired (tq_ID r) reason at_) (call_ok t) (fun _ => True) t s.
Proof.
  intros Hsys Hr. rewrite (proj1 (tr_ids _ _ (sy_transfers _ _ Hsys) id r Hr)). apply (quiet_update _ _ _ _ _ _ r Hsys Hr). intros _. split; [done|]. by left.
Qed.

Lemma resolve_spec now i t s : sys_ok t s -> IsTerminalOutcome (ri_Outcome i) = true ->
  wp (resolve_body now i) (call_ok t) (fun _ => True) t s.
Proof.
  intros Hsys Ho. apply wp_bind, LockByID_wp. intros r Hr. apply wp_bind, insert_event_wp; [done| |].
  - intros s' Hsys'. apply wp_ret. split; [done | apply evolved_refl].
  - intros ev s' Hsys'. cbn [negb]. set (t1 := t <| tb_transfer_events := ev |>) in *.
    apply after_event. fold t1.
    destruct (tq_Status r) eqn:Est; [by eapply flag_spec | by eapply confirm_spec | |];
      (destruct (matchesTerminalOutcome _ _); [apply wp_ret; split; [done | apply evolved_refl] | by eapply flag_spec]).
Qed.

Lemma schedule_spec now id r kind t s : sys_ok t s -> tb_transfers t !! id = Some r ->
  wp (advancePollSchedule now r kind) (call_ok t) (fun _ => True) t s.
Proof.
  intros Hsys Hr. unfold advancePollSchedule, UpdatePollSchedule. rewrite (proj1 (tr_ids _ _ (sy_transfers _ _ Hsys) id r Hr)).
  apply (quiet_update _ _ _ _ _ _ r Hsys Hr). intros _. destruct (reviewReasonForPollFailure _ _ _); (split; [done|]); by left.
Qed.

Lemma observe_spec now i t s : sys_ok t s -> wp (observe_body now i) (call_ok t) (fun _ => True) t s.
Proof.
  intros Hsys. apply wp_bind, LockByID_wp. intros r Hr. apply wp_bind, insert_event_wp; [done| |].
  - intros s' Hsys'. apply wp_ret. split; [done | apply evolved_refl].
  - intros ev s' Hsys'. cbn [negb]. set (t1 := t <| tb_transfer_events := ev |>) in *.
    apply after_event. fold t1.
    destruct (tq_Status r); [by apply wp_throw | by eapply schedule_spec | |]; (apply wp_ret; split; [done | apply evolved_refl]).
Qed.

Lemma check_failure_spec now id t s : sys_ok t s -> wp (check_failure_body now id) (call_ok t) (fun _ => True) t s.
Proof.
  intros Hsys. apply wp_bind, LockByID_wp. intros r Hr. destruct (negb _); [|by eapply schedule_spec]. apply wp_ret. split; [done | apply evolved_refl].
Qed.

Lemma dispatch_failure_spec now id t s : sys_ok t s -> wp (dispatch_failure_body now id) (call_ok t) (fun _ => True) t s.
Proof.
  intros Hsys. apply wp_bind, LockByID_wp. intros r Hr. destruct (negb _); [apply wp_ret; split; [done | apply evolved_refl]|].
  unfold AdvanceDispatchSchedule. rewrite (proj1 (tr_ids _ _ (sy_transfers _ _ Hsys) id r Hr)).
  apply (quiet_update _ _ _ _ _ _ r Hsys Hr). intros _. split; [done|]. by left.
Qed.

Lemma update_absent op id guard f Q t s : tb_transfers t !! id = None -> wp (update_request op id guard f) Q (fun _ => True) t s.
Proof. intros Hr. apply wp_bind, wp_stmt, wp_bind, wp_get. rewrite Hr. by apply wp_throw. Qed.

Lemma dispatch_spec id ref next t s : sys_ok t s -> wp (SetDispatched id ref next) (call_ok t) (fun _ => True) t s.
Proof.
  intros Hsys. unfold SetDispatched. destruct (tb_transfers t !! id) as [r|] eqn:Hr; [|by apply update_absent].
  apply (quiet_update _ _ _ _ _ _ r Hsys Hr). intros Hg. apply bool_decide_eq_true in Hg. split; [done|]. right. by split_and!.
Qed.

(** ** Accepting *)

Lemma normalize_Ok u rail asset amount key a m k : normalizeTransferInput u rail asset amount key = Ok (a, m, k) ->
  u <> 0%N /\ (rail = TransferRailBank \/ rail = TransferRailChain) /\ a <> "" /\ 0 < dval m.
Proof.
  unfold normalizeTransferInput. case_decide as Hu; [done|]. destruct (bool_decide _) eqn:Er; [|done]. apply bool_decide_eq_true in Er. cbn [negb].
  case_decide as Ha; [done|]. destruct (_ && _); [done|]. destruct (parsePositiveDecimal amount "amount") as [d|] eqn:Ed; [|done].
  cbn [mbind result_bind]. destruct (normalizeIdempotencyKey key); [|done]. intros; simplify_eq. split_and!; try done. by eapply parsePositive_Ok.
Qed.

Lemma new_request_wf row r' id now u direction rail a m k : row = (new_request now u direction rail a m k) <| tq_ID := id |> ->
  u <> 0%N -> rail = TransferRailBank \/ rail = TransferRailChain -> a <> "" -> 0 < dval m ->
  kept row r' -> tq_Status r' = TransferStatusReceived -> tq_ExternalRef r' = None -> transfer_checks r' = true -> request_wf r'.
Proof.
  intros -> Hu Hr Ha Hm [] Hs Href Hc. cbn in *. split; rewrite ?kp_user0, ?kp_rail0, ?kp_asset0, ?kp_amount0, ?kp_fee0, ?kp_fee_asset0; try done.
  - split; [|done]. rewrite dval_Zero. lra.
  - split; [done|]. by rewrite Href.
Qed.

Lemma transfers_insert t s t' s' id r : transfers_ok t s -> seq_le s s' -> id = (seq_value s "transfer_requests" + 1)%N ->
  (id <= seq_value s' "transfer_requests")%N -> tb_transfers t' = <[id := r]> (tb_transfers t) -> tq_ID r = id -> request_wf r ->
  tq_ExternalRef r = None -> find_request t (transfer_pair r) = None ->
  (forall k, find_journal t' k <> None -> find_journal t k <> None \/ k = withdraw_hold_key id) -> transfers_ok t' s'.
Proof.
  intros Hok Hs Hid Hle Ht Er Hwf Href Hp Hj. pose proof (find_request_None _ _ Hp) as Hpair. destruct Hok as [H1 H2 H3 H4 H5 H6].
  assert (Hnew : tb_transfers t !! id = None).
  { destruct (tb_transfers t !! id) as [x|] eqn:E; [|done]. destruct (H1 id x E). lia. }
  split; rewrite ?Ht.
  - apply map_Forall_insert_2; [split; [done | lia]|]. intros j x Hx. destruct (H1 j x Hx). split; [done|]. specialize (Hs "transfer_requests"%string). lia.
  - by apply map_Forall_insert_2.
  - intros i j x y. rewrite !lookup_insert_Some. intros [[<- <-]|[Hi Hx]] [[<- <-]|[Hj' Hy]] E; try done.
    + by destruct (Hpair j y Hy).
    + by destruct (Hpair i x Hx).
    + by eapply (H3 i j).
  - intros i j x y ref. rewrite !lookup_insert_Some. intros [[<- <-]|[Hi Hx]] [[<- <-]|[Hj' Hy]] E E'; try congruence. by eapply (H4 i j).
  - intros j Hf. rewrite lookup_insert_is_Some'. apply Hj in Hf as [Hf|E]; [right; by apply H5 | left; symmetry; by apply withdraw_hold_key_inj].
  - intros ref k Hin Hf. apply Hj in Hf as [Hf| ->]; [|by apply hold_not_confirm in Hin].
    destruct (H6 ref k Hin Hf) as (j & x & Hx & Ex & Hc). exists j, x. split; [|done]. rewrite lookup_insert_ne; [done|]. congruence.
Qed.

Lemma transfer_fresh t s : transfers_ok t s -> tb_transfers t !! (seq_value s "transfer_requests" + 1)%N = None.
Proof. intros Hok. destruct (tb_transfers t !! _) as [x|] eqn:E; [|done]. destruct (tr_ids _ _ Hok _ x E). lia. Qed.

(** The insertion of a request, when its key is new and when it is known. *)
Lemma insert_request_wp request (Q : option TransferRequest -> Tables -> Seqs -> Prop) t s :
  (forall s' row, seq_le s s' -> row = request <| tq_ID := (seq_value s "transfer_requests" + 1)%N |> ->
     (tq_ID row <= seq_value s' "transfer_requests")%N -> transfer_checks row = true -> find_request t (transfer_pair request) = None ->
     Q (Some row) (t <| tb_transfers := <[tq_ID row := row]> (tb_transfers t) |>) s') ->
  (forall s', seq_le s s' -> find_request t (transfer_pair request) <> None -> Q None t s') ->
  wp (insert_request request) Q (fun _ => True) t s.
Proof.
  intros H1 H0. unfold insert_request. apply wp_bind, wp_stmt, wp_bind, wp_nextval. intros s' Hs _ Hv. apply wp_bind, wp_get.
  destruct (_ || _); [by apply wp_throw|]. destruct (transfer_checks _) eqn:Ec; [|by apply wp_throw]. cbn [negb].
  change (transfer_pair (request <| tq_ID := _ |>)) with (transfer_pair request). destruct (find_request t _) eqn:E.
  - apply wp_ret. by apply H0.
  - apply wp_bind, wp_put, wp_ret. refine (H1 s' _ Hs eq_refl _ Ec eq_refl). by rewrite Hv.
Qed.

(** What an accepted request is: a new row, or the row of the same request
    accepted before. *)
Definition accepted (request res : TransferRequest) (t t' : Tables) : Prop :=
  tb_transfers t !! tq_ID res = None /\ res = request <| tq_ID := tq_ID res |>
    /\ (exists r', kept res r' /\ tq_Status r' = TransferStatusReceived /\ tb_transfers t' = <[tq_ID res := r']> (tb_transfers t))
  \/ tb_transfers t !! tq_ID res = Some res /\ transfer_pair res = transfer_pair request
    /\ sameTransferBody res (tq_Direction request) (tq_Rail request) (tq_Asset request) (tq_Amount request) = true /\ t' = t.

Lemma evolved_insert t t' id r : tb_transfers t !! id = None -> tb_transfers t' = <[id := r]> (tb_transfers t) ->
  (forall k, balance_of t' k == balance_of t k + transfer_effect k r) ->
  tb_orders t' = tb_orders t -> tb_trades t' = tb_trades t -> tb_idempotency t' = tb_idempotency t -> evolved t t'.
Proof.
  intros Hn Ht Hb Ho Htr Hi. split; try done; rewrite Ht.
  - intros k. rewrite Hb, (map_sum_new _ _ _ _ Hn). lra.
  - intros j x Hx. exists x. rewrite lookup_insert_ne by congruence. split; [done|]. split; [apply kept_refl | done].
Qed.

Lemma known_request t s pair r : transfers_ok t s -> find_request t pair = Some r -> tb_transfers t !! tq_ID r = Some r /\ transfer_pair r = pair.
Proof.
  intros Hok Hf. apply find_request_Some in Hf as [Hp [id Hr]]. by rewrite (proj1 (tr_ids _ _ Hok id r Hr)).
Qed.

Lemma insert_or_get_wp request (Q : bool * TransferRequest -> Tables -> Seqs -> Prop) t s : transfers_ok t s ->
  (forall s' row, seq_le s s' -> row = request <| tq_ID := (seq_value s "transfer_requests" + 1)%N |> ->
     (tq_ID row <= seq_value s' "transfer_requests")%N -> transfer_checks row = true -> find_request t (transfer_pair request) = None ->
     Q (true, row) (t <| tb_transfers := <[tq_ID row := row]> (tb_transfers t) |>) s') ->
  (forall s' r, seq_le s s' -> tb_transfers t !! tq_ID r = Some r -> transfer_pair r = transfer_pair request -> Q (false, r) t s') ->
  wp (InsertOrGetByUserRequestKey id request) Q (fun _ => True) t s.
Proof.
  intros Hok H1 H0. unfold InsertOrGetByUserRequestKey. apply wp_bind, insert_request_wp.
  - intros s' row Hs Erow Hle Hc Hf. apply wp_ret. by apply H1.
  - intros s' Hs Hf. apply wp_bind, wp_query. destruct (find_request t _) as [r|] eqn:E; [|done]. apply wp_ret.
    destruct (known_request t s _ r Hok E). by apply H0.
Qed.

Lemma hold_effect id u a amount k :
  key_sum k (in_Postings (withdraw_hold_input id u a amount))
  == on k (key_user AccountUserAvailable u a) (- dval amount) + on k (key_user AccountUserLocked u a) (dval amount).
Proof.
  cbn [in_Postings withdraw_hold_input]. rewrite !key_sum_cons, key_sum_nil. cbn [pi_Amount posting_key pi_AccountType pi_OwnerUserID pi_Asset].
  rewrite (on_eq _ _ _ _ (dval_Neg amount)). unfold posting_key, newAccountKey, key_user. cbn. unfold on. ring.
Qed.

Lemma hold_key_not_order id : (forall j reason, withdraw_hold_key id <> order_release_key j reason) /\ forall j, withdraw_hold_key id <> order_hold_key j.
Proof. done. Qed.

Lemma withdrawal_spec now u rail a m key t s : sys_ok t s -> u <> 0%N -> rail = TransferRailBank \/ rail = TransferRailChain -> a <> "" -> 0 < dval m ->
  wp (withdrawal_body now u rail a m key)
    (fun res t' s' => sys_ok t' s' /\ evolved t t' /\ accepted (new_request now u TransferDirectionWithdrawal rail a m key) res t t')
    (fun _ => True) t s.
Proof.
  intros Hsys Hu Hrail Ha Hm. pose proof (sy_transfers _ _ Hsys) as Htr. set (request := new_request _ _ _ _ _ _ _).
  apply wp_bind, insert_or_get_wp; [done| |].
  - intros s1 row Hs1 Erow Hle Hchk Hf. set (t1 := t <| tb_transfers := _ |>). cbn [negb].
    assert (Hid : tq_ID row = (seq_value s "transfer_requests" + 1)%N) by (by rewrite Erow).
    assert (Hnew : tb_transfers t !! tq_ID row = None) by (rewrite Hid; by apply transfer_fresh).
    assert (Hok1 : store_ok t1 s1) by (apply (store_ok_same t); [done ..|]; eapply store_ok_seq; [exact Hs1 | apply Hsys]).
    set (i := withdraw_hold_input _ _ _ _). apply wp_bind. eapply wp_mono; [apply (Record_store i t1 s1 Hok1); by intros ? [=]| |done].
    intros [e c] t2 s2 Hs2 (Hok2 & Hrest & Hdone & _). pose proof Hrest as (_ & Ho2 & Ht2 & _ & Hi2 & _ & Htf2 & _).
    unfold journal_done in Hdone. destruct c; [|destruct Hdone as (_ & e' & Hf' & _);
      destruct (tr_held _ _ Htr (tq_ID row)) as [x Hx]; [|congruence]; intros E; assert (X : Some e' = None) by (rewrite <- Hf'; exact E); done].
    apply wp_bind, (update_request_wp _ _ _ _ _ _ _ row); [by rewrite Htf2; apply lookup_insert_eq|]. intros _ [Hcol _] _. apply wp_ret.
    rewrite Htf2. set (r' := row <| tq_HoldJournalID := _ |>). set (t3 := t2 <| tb_transfers := _ |>).
    assert (Htf3 : tb_transfers t3 = <[tq_ID row := r']> (tb_transfers t)) by apply insert_insert_eq.
    assert (Hwf : request_wf r') by (eapply (new_request_wf row r'); [exact Erow | done .. | by unfold r'; rewrite Erow | by unfold r'; rewrite Erow | done]).
    assert (Hev : evolved t t3).
    { apply (evolved_insert t t3 (tq_ID row) r'); [done | done | | done | done | done]. intros k. change (balance_of t3 k) with (balance_of t2 k).
      rewrite (posted_balance _ _ _ k Hdone). change (balance_of t1 k) with (balance_of t k). unfold i. rewrite hold_effect.
      unfold r', transfer_effect, locked_amount. rewrite Erow. cbn [tq_Direction tq_Status tq_FeeAmount request new_request]. unfold on. rewrite dval_Add. cbn. lra. }
    assert (Hj : forall k, find_journal t3 k <> None -> find_journal t k <> None \/ k = withdraw_hold_key (tq_ID row)).
    { intros k Hk. by apply (posted_find _ _ _ _ Hdone) in Hk as [Hk| ->]; [left | right]. }
    split; [|split; [done|]; left; split; [done|]; split; [by rewrite Erow | exists r'; split; [done|]; split; [by unfold r'; rewrite Erow | done]]].
    apply (sys_evolved t s); [done | by apply (store_ok_same t2) | done | |].
    + intros k Hk. apply Hj in Hk as [Hk| ->]; [by left | right; apply hold_key_not_order].
    + apply (transfers_insert t s t3 s2 (tq_ID row) r'); try done; [by eapply seq_le_trans | specialize (Hs2 "transfer_requests"%string); lia | |];
        (unfold r'; by rewrite Erow).
  - intros s' r Hs Hr Hp. cbn [negb]. destruct (sameTransferBody _ _ _ _ _) eqn:Eb; [|by apply wp_throw]. apply wp_ret.
    split; [by eapply sys_ok_seq|]. split; [apply evolved_refl|]. right. by split_and!.
Qed.

(** A deposit is a row; nothing moves until it is confirmed. *)
Lemma deposit_spec now u rail a m key t s : sys_ok t s -> u <> 0%N -> rail = TransferRailBank \/ rail = TransferRailChain -> a <> "" -> 0 < dval m ->
  let request := new_request now u TransferDirectionDeposit rail a m key in
  wp (insert_request request)
    (fun o t' s' => sys_ok t' s' /\ evolved t t' /\ match o with Some row => accepted request row t t' | None => t' = t end) (fun _ => True) t s.
Proof.
  intros Hsys Hu Hrail Ha Hm request. pose proof (sy_transfers _ _ Hsys) as Htr. apply insert_request_wp.
  - intros s' row Hs Erow Hle Hchk Hf. set (t' := t <| tb_transfers := _ |>).
    assert (Hid : tq_ID row = (seq_value s "transfer_requests" + 1)%N) by (by rewrite Erow).
    assert (Hnew : tb_transfers t !! tq_ID row = None) by (rewrite Hid; by apply transfer_fresh).
    assert (Hev : evolved t t').
    { apply (evolved_insert t t' (tq_ID row) row); try done. intros k. rewrite Erow. change (balance_of t' k) with (balance_of t k). cbn. lra. }
    split; [|split; [done|]; left; split; [done|]; split; [by rewrite Erow | exists row; split; [done|]; split; [by rewrite Erow | done]]].
    apply (sys_evolved t s); [done | | done | by left|].
    + apply (store_ok_same t); [done ..|]. eapply store_ok_seq; [exact Hs | apply Hsys].
    + apply (transfers_insert t s t' s' (tq_ID row) row); try done; try (by rewrite Erow); [|by left]. eapply (new_request_wf row row); [exact Erow | done .. | by rewrite Erow | by rewrite Erow | done].
  - intros s' Hs Hf. split; [by eapply sys_ok_seq|]. split; [apply evolved_refl | done].
Qed.

(** ** Calls *)

(** What a call leaves behind, failed or not. *)
Definition ran (w w' : World) : Prop := ok_world w' /\ evolved (w_tables w) (w_tables w').

Lemma ran_refl w : ok_world w -> ran w w.
Proof. intros Hw. split; [done | apply evolved_refl]. Qed.
Lemma ran_trans w1 w2 w3 : ran w1 w2 -> (ok_world w2 -> ran w2 w3) -> ran w1 w3.
Proof. intros [H1 H2] H. destruct (H H1) as [H3 H4]. split; [done | by eapply evolved_trans]. Qed.
Lemma ran_same w w' : ok_world w -> w_tables w' = w_tables w -> w_seqs w' = w_seqs w -> ran w w'.
Proof. intros Hw Et Es. split; [unfold ok_world; by rewrite Et, Es | rewrite Et; apply evolved_refl]. Qed.

Lemma idem_evolved t t' s s' : seq_le s s' -> evolved t t' -> idem_ok t s -> idem_ok t' s'.
Proof. intros Hs Hev Hid. eapply idem_ok_seq; [exact Hs|]. destruct Hid. split; by rewrite (ev_idempotency _ _ Hev). Qed.

Lemma transaction_ran {A} (body : M A) (R : A -> Tables -> Prop) w : ok_world w ->
  wp body (fun a t' s' => sys_ok t' s' /\ evolved (w_tables w) t' /\ R a t') (fun _ => True) (w_tables w) (w_seqs w) ->
  let '(res, w') := transaction body w in ran w w' /\ match res with Ok a => R a (w_tables w') | Err _ => True end.
Proof.
  intros [Hsys Hid] Hb. destruct w as [t s fs]. pose proof (transaction_wp _ _ _ t s fs Hb) as Ht.
  destruct (transaction _ _) as [res w']. destruct Ht as (Hs & _ & Ht). cbn [w_tables w_seqs] in *.
  assert (Hok : forall t', sys_ok t' (w_seqs w') /\ evolved t t' -> w_tables w' = t' -> ran (mkWorld t s fs) w').
  { intros t' [H1 H2] <-. split; [split; [done | by eapply idem_evolved] | done]. }
  destruct res as [a|e].
  - destruct Ht as (H1 & H2 & H3). by split; [eapply Hok|].
  - split; [|done]. destruct Ht as [[E _]|(_ & _ & a & H1 & H2 & _)]; [|by eapply Hok].
    apply (Hok t); [|done]. split; [by eapply sys_ok_seq | apply evolved_refl].
Qed.

Lemma call_ran {A} (body : M A) w : ok_world w -> wp body (call_ok (w_tables w)) (fun _ => True) (w_tables w) (w_seqs w) -> ran w (transaction body w).2.
Proof.
  intros Hw Hb. pose proof (transaction_ran body (fun _ _ => True) w Hw) as H. destruct (transaction body w) as [res w']. apply H.
  eapply wp_mono; [exact Hb| |done]. intros a t' s' _ [H1 H2]. by split_and!.
Qed.

Lemma resolve_ran now i w : ok_world w -> ran w (ResolveTransfer now i w).2.
Proof.
  intros Hw. unfold ResolveTransfer. destruct (IsTerminalOutcome _) eqn:Eo; [|by apply ran_refl]. cbn [negb]. case_decide; [by apply ran_refl|].
  apply call_ran; [done|]. apply resolve_spec; [apply Hw | done].
Qed.
Lemma observation_ran now i w : ok_world w -> ran w (RecordObservation now i w).2.
Proof.
  intros Hw. unfold RecordObservation. destruct (IsTerminalOutcome _); [by apply ran_refl|]. case_decide; [by apply ran_refl|].
  apply call_ran; [done|]. apply observe_spec, Hw.
Qed.
Lemma dispatched_ran now request answer w : ok_world w -> ran w (dispatched now request answer w).2.
Proof.
  intros Hw. unfold dispatched. destruct answer as [ref|e].
  - apply call_ran; [done|]. apply dispatch_spec, Hw.
  - pose proof (call_ran (dispatch_failure_body now (tq_ID request)) w Hw) as H. unfold mbind, M_bind, HandleDispatchFailure.
    destruct (transaction _ w) as [[]]; apply H, dispatch_failure_spec, Hw.
Qed.

Lemma accept_withdrawal_ran now u rail a m key w : ok_world w ->
  let '(res, w') := accept_withdrawal now u rail a m key w in
  ran w w' /\ match res with
    | Ok r => exists asset amount k, normalizeTransferInput u rail a m key = Ok (asset, amount, k)
                /\ accepted (new_request now u TransferDirectionWithdrawal rail asset amount k) r (w_tables w) (w_tables w')
    | Err _ => True end.
Proof.
  intros Hw. unfold accept_withdrawal, lift. unfold mbind at 1, M_bind. destruct (normalizeTransferInput _ _ _ _ _) as [[[asset amount] k]|e] eqn:En; [|by split; [apply ran_refl|]].
  destruct (normalize_Ok _ _ _ _ _ _ _ _ En) as (Hu & Hr & Ha & Hm).
  set (request := new_request now u TransferDirectionWithdrawal rail asset amount k). pose proof (transaction_ran _ (fun r t' => accepted request r (w_tables w) t') w Hw
    (withdrawal_spec now u rail asset amount k _ _ (proj1 Hw) Hu Hr Ha Hm)) as H.
  destruct (transaction _ w) as [[r|e] w']; destruct H as [H1 H2]; (split; [done|]); [|done]. by exists asset, amount, k.
Qed.

Lemma query_ok {A} (f : Tables -> A) w a : (query f w).1 = Ok a -> f (w_tables w) = a.
Proof. unfold query, stmt, mbind, M_bind, get_db. destruct w as [t s fs]. by destruct fs as [|[] fs]; intros [=]. Qed.

Lemma accept_deposit_ran now u rail a m key w : ok_world w ->
  let '(res, w') := accept_deposit now u rail a m key w in
  ran w w' /\ match res with
    | Ok r => exists asset amount k, normalizeTransferInput u rail a m key = Ok (asset, amount, k)
                /\ accepted (new_request now u TransferDirectionDeposit rail asset amount k) r (w_tables w) (w_tables w')
    | Err _ => True end.
Proof.
  intros Hw. unfold accept_deposit, lift. unfold mbind at 1, M_bind. destruct (normalizeTransferInput _ _ _ _ _) as [[[asset amount] k]|e] eqn:En; [|by split; [apply ran_refl|]].
  destruct (normalize_Ok _ _ _ _ _ _ _ _ En) as (Hu & Hr & Ha & Hm). set (request := new_request now u TransferDirectionDeposit rail asset amount k).
  pose proof (transaction_ran _ (fun o t' => match o with Some row => accepted request row (w_tables w) t' | None => t' = w_tables w end) w Hw
    (deposit_spec now u rail asset amount k _ _ (proj1 Hw) Hu Hr Ha Hm)) as H.
  unfold InsertOrGetByUserRequestKey. unfold mbind, M_bind. destruct (transaction _ w) as [[[row|]|e] w1]; destruct H as [H1 H2]; cbn [mret M_ret negb andb].
  - split; [done|]. by exists asset, amount, k.
  - pose proof (readonly_query (fun t => find_request t (transfer_pair request)) w1) as [E1 E2].
    pose proof (query_ok (fun t => find_request t (transfer_pair request)) w1) as Eq.
    destruct (query _ w1) as [[[r|]|e] w2]; cbn [snd fst mret M_ret negb andb] in *; try (split; [|done]; eapply ran_trans; [exact H1|]; intros; by apply ran_same).
    destruct (sameTransferBody _ _ _ _ _) eqn:Eb; cbn; (split; [eapply ran_trans; [exact H1|]; intros; by apply ran_same|]); [|done].
    exists asset, amount, k. split; [done|]. right. rewrite E1, H2. pose proof (Eq (Some r) eq_refl) as Hf. rewrite H2 in Hf.
    destruct (known_request (w_tables w) (w_seqs w) _ r (sy_transfers _ _ (proj1 Hw)) Hf). by split_and!.
  - done.
Qed.

(** ** Entry points *)

Context {ETP : ExternalTransferProcessor}.

Lemma Dispatch_ran now request w p : ok_world w -> ran w (Dispatch now request w p).1.2.
Proof.
  intros Hw. unfold Dispatch. destruct (negb _); [by apply ran_refl|]. destruct (Submit _ _ _) as [answer p'].
  pose proof (dispatched_ran now request answer w Hw) as H. by destruct (dispatched _ _ _ _).
Qed.

Lemma readonly_lock id : readonly (LockByID id).
Proof. apply readonly_bind; [apply readonly_query|]. intros [r|]; by intros w. Qed.

Lemma dispatchAndReload_ran now request w p : ok_world w -> ran w (dispatchAndReload now request w p).1.2.
Proof.
  intros Hw. unfold dispatchAndReload. pose proof (Dispatch_ran now request w p Hw) as H. destruct (Dispatch _ _ _ _) as [[r w1] p1]. cbn [fst snd] in H.
  pose proof (readonly_lock (tq_ID request) w1) as [E1 E2]. destruct (LockByID _ w1) as [r2 w2]. cbn [fst snd] in *.
  eapply ran_trans; [exact H|]. intros. by apply ran_same.
Qed.

Lemma RequestDeposit_ran now u rail a m key w p : ok_world w -> ran w (RequestDeposit now u rail a m key w p).1.2.
Proof.
  intros Hw. unfold RequestDeposit. pose proof (accept_deposit_ran now u rail a m key w Hw) as H.
  destruct (accept_deposit _ _ _ _ _ _ _) as [[r|e] w1]; destruct H as [H _]; [|done]. eapply ran_trans; [exact H|]. by apply dispatchAndReload_ran.
Qed.
Lemma RequestWithdrawal_ran now u rail a m key w p : ok_world w -> ran w (RequestWithdrawal now u rail a m key w p).1.2.
Proof.
  intros Hw. unfold RequestWithdrawal. pose proof (accept_withdrawal_ran now u rail a m key w Hw) as H.
  destruct (accept_withdrawal _ _ _ _ _ _ _) as [[r|e] w1]; destruct H as [H _]; [|done]. eapply ran_trans; [exact H|]. by apply dispatchAndReload_ran.
Qed.

Lemma checkStatus_ran now request w p : ok_world w -> ran w (checkStatus now request w p).1.
Proof.
  intros Hw. unfold checkStatus. destruct (tq_ExternalRef request) as [ref|]; [|by apply ran_refl]. destruct (GetTransferStatus ref p) as [[[outcome payload]|e] p'].
  - destruct (IsTerminalOutcome outcome); [by apply resolve_ran | by apply observation_ran].
  - apply call_ran; [done|]. apply check_failure_spec, Hw.
Qed.

Lemma poll_one_ran now w p request : ok_world w -> ran w (poll_one now (w, p) request).1.
Proof.
  intros Hw. unfold poll_one. destruct (tq_Status request); [|by apply checkStatus_ran | by apply ran_refl ..].
  pose proof (Dispatch_ran now request w p Hw) as H. by destruct (Dispatch _ _ _ _) as [[] ?].
Qed.

Lemma poll_ran now l w p : ok_world w -> ran w (foldl (poll_one now) (w, p) l).1.
Proof.
  revert w p. induction l as [|request l IH]; intros w p Hw; cbn [foldl]; [by apply ran_refl|].
  pose proof (poll_one_ran now w p request Hw) as H. destruct (poll_one now (w, p) request) as [w1 p1].
  eapply ran_trans; [exact H|]. intros Hw1. by apply IH.
Qed.

Lemma readonly_due now limit : readonly (DueForCheck now limit).
Proof. unfold DueForCheck. destruct (limit <=? 0)%Z; [by intros w | apply readonly_query]. Qed.

Lemma RunOnce_ran now batch w p : ok_world w -> ran w (RunOnce now batch w p).1.
Proof.
  intros Hw. unfold RunOnce. pose proof (readonly_due now (poll_batch batch) w) as [E1 E2].
  assert (H : ran w (DueForCheck now (poll_batch batch) w).2) by (by apply ran_same). destruct (DueForCheck _ _ w) as [[l|e] w1]; [|done].
  eapply ran_trans; [exact H|]. by apply poll_ran.
Qed.

(** A request, a poll, a callback, or a change of what the database will do. *)
Inductive transfer_step : World -> World -> Prop :=
| step_deposit now u rail asset amount key w p : transfer_step w (RequestDeposit now u rail asset amount key w p).1.2
| step_withdrawal now u rail asset amount key w p : transfer_step w (RequestWithdrawal now u rail asset amount key w p).1.2
| step_poll now batch w p : transfer_step w (RunOnce now batch w p).1
| step_callback now i w : transfer_step w (ResolveTransfer now i w).2
| step_faults w fs : transfer_step w (mkWorld (w_tables w) (w_seqs w) fs).

Lemma transfer_step_ran w w' : transfer_step w w' -> ok_world w -> ran w w'.
Proof.
  intros [] Hw; [by apply RequestDeposit_ran | by apply RequestWithdrawal_ran | by apply RunOnce_ran | by apply resolve_ran | by apply ran_same].
Qed.

Lemma transfer_steps_ran w w' : rtc transfer_step w w' -> ok_world w -> ran w w'.
Proof.
  induction 1 as [w|w1 w2 w3 Hs _ IH]; intros Hw; [by apply ran_refl|]. eapply ran_trans; [by apply (transfer_step_ran w1 w2)|]. done.
Qed.
End TransferProofs.
