(* ===== verification/FailureStores.v ===== *)
(** * Failure records

    [service/failed_settlement_service.go], [failed_market_completion_service.go],
    [failed_order_cancellation_service.go] and their repositories: what could not
    be executed is written down, one row per trade or order, to be retried.

    The three tables have the same operations; [FailureTable] is one of them.  The
    text of an error is that of libraries and of the database: [ErrorTexts].
    Services and repositories are never nil in the running program. *)
From S2P Require Import Prelude Decimal Model Errors Fee Matching Database Ledger Sha256 OrderLedger Settlement SettlementBatch HoldCoordinator OrderService Transfers.
From Stdlib Require Import Lia Ascii.

Class ErrorTexts := error_text : error -> string.

(** [strings.Contains] *)
Fixpoint contains (sub s : string) : bool :=
  String.prefix sub s || match s with EmptyString => false | String _ s' => contains sub s' end.

Section FailureStores.
Context {DL : DecimalLib} {TX : ErrorTexts}.
Local Open Scope Z_scope.

(** ** One table *)

Record FailureTable (A : Type) := mkFailureTable {
  ft_name : string;
  ft_rows : Tables -> gmap N A;
  ft_put : gmap N A -> Tables -> Tables;
  ft_id : A -> N;
  ft_with_id : N -> A -> A;
  ft_key : A -> string;                 (* of the unique index *)
  ft_check : A -> option error;         (* column sizes and CHECK constraints *)
  ft_status : A -> FailedSettlementStatus;
  ft_occurred : A -> Z;
  ft_again : string -> A -> A;          (* ON CONFLICT DO UPDATE, with the new message *)
  ft_message : A -> string;
  ft_resolve : string -> string -> string -> A -> A }.
Arguments mkFailureTable {A}. Arguments ft_name {A}. Arguments ft_rows {A}. Arguments ft_put {A}. Arguments ft_id {A}.
Arguments ft_with_id {A}. Arguments ft_key {A}. Arguments ft_check {A}. Arguments ft_status {A}. Arguments ft_occurred {A}.
Arguments ft_again {A}. Arguments ft_message {A}. Arguments ft_resolve {A}.

Section Table.
Context {A : Type} (T : FailureTable A).

Definition all_rows (t : Tables) : list A := map snd (map_to_list (ft_rows T t)).
Definition row_by_key (t : Tables) (key : string) : option A := head (filter (fun r => ft_key T r = key) (all_rows t)).

Definition put_row (id : N) (row : A) (t : Tables) : Tables := ft_put T (<[id := row]> (ft_rows T t)) t.

(** One row of INSERT ... ON CONFLICT DO UPDATE. *)
Definition upsert (failure : A) : M unit :=
  id ← nextval (ft_name T);
  match ft_check T failure with
  | Some e => throw e
  | None =>
      modify_db (fun t => match row_by_key t (ft_key T failure) with
                          | None => put_row id (ft_with_id T id failure) t
                          | Some row => put_row (ft_id T row) (ft_again T (ft_message T failure) row) t
                          end)
  end.

(** One row of INSERT ... ON CONFLICT DO NOTHING. *)
Definition insert_new (failure : A) : M unit :=
  id ← nextval (ft_name T);
  match ft_check T failure with
  | Some e => throw e
  | None =>
      modify_db (fun t => match row_by_key t (ft_key T failure) with
                          | None => put_row id (ft_with_id T id failure) t
                          | Some _ => t
                          end)
  end.

Definition read_back (key : string) : M A :=
  row ← query (fun t => row_by_key t key);
  match row with Some row => mret row | None => throw ErrRecordNotFound end.

Definition record_row (failure : A) : M A := _ ← transaction (_ ← stmt; upsert failure); read_back (ft_key T failure).
Definition defer_row (failure : A) : M A := _ ← transaction (_ ← stmt; insert_new failure); read_back (ft_key T failure).

Definition older (x y : A) : Prop := lex_le Z.le N.le (ft_occurred T x, ft_id T x) (ft_occurred T y, ft_id T y).
#[export] Instance older_dec : RelDecision older.
Proof. intros x y. unfold older. apply _. Defined.

Definition open_rows (limit : Z) : M (list A) :=
  query (fun t => take (Z.to_nat limit) (merge_sort older (filter (fun r => ft_status T r = FailedSettlementStatusOpen) (all_rows t)))).

(** UPDATE ... WHERE id = ? AND status = 'OPEN'; whether a row was affected. *)
Definition update_resolved (id : N) (resolution resolvedBy notes : string) : M bool :=
  transaction (
    _ ← stmt;
    t ← get_db;
    match ft_rows T t !! id with
    | Some row =>
        if decide (ft_status T row = FailedSettlementStatusOpen) then
          _ ← put_db (put_row id (ft_resolve T resolution resolvedBy notes row) t); mret true
        else mret false
    | None => mret false
    end).
End Table.

Definition DefaultFailedSettlementListLimit : Z := 50.
Definition MaxFailedSettlementListLimit : Z := 200.
Definition NormalizeFailedSettlementListLimit (limit : Z) : Z :=
  if limit <=? 0 then DefaultFailedSettlementListLimit
  else if MaxFailedSettlementListLimit <? limit then MaxFailedSettlementListLimit else limit.

(** ** The tables *)

(** [length(btrim(s)) > 0]: not only spaces. *)
Fixpoint not_blank (s : string) : bool :=
  match s with EmptyString => false | String c s' => negb (bool_decide (c = " "%char)) || not_blank s' end.

Definition failed_settlement_check (f : FailedSettlement) : option error :=
  if too_long (fs_TradeIdempotencyKey f) 128 || too_long (fs_EngineEventID f) 128 then Some (DBError "22001")
  else if not_blank (fs_TradeIdempotencyKey f) && IsPositive (fs_Price f) && IsPositive (fs_Quantity f)
          && negb (IsNegative (fs_BuyerFee f)) && negb (IsNegative (fs_SellerFee f)) && negb (IsNegative (fs_FeeRate f))
          && not_blank (fs_ErrorMessage f) && (0 <? fs_RetryCount f)%N
  then None else Some (ConstraintViolation "ck_failed_settlements").

Definition failed_settlements : FailureTable FailedSettlement :=
  mkFailureTable "failed_settlements" tb_failed_settlements (fun rows t => t <| tb_failed_settlements := rows |>) fs_ID
    (fun id f => f <| fs_ID := id |>) fs_TradeIdempotencyKey failed_settlement_check fs_Status fs_OccurredAt
    (fun message f => f <| fs_ErrorMessage := message |> <| fs_Status := FailedSettlementStatusOpen |> <| fs_RetryCount := (fs_RetryCount f + 1)%N |>
                        <| fs_Resolution := "" |> <| fs_ResolvedBy := "" |> <| fs_Notes := "" |>)
    fs_ErrorMessage
    (fun resolution resolvedBy notes f => f <| fs_Status := FailedSettlementStatusResolved |> <| fs_Resolution := resolution |>
                        <| fs_ResolvedBy := resolvedBy |> <| fs_Notes := notes |>).

Definition failed_completion_check (f : FailedMarketCompletion) : option error :=
  if negb (IsNegative (fm_FilledAmount f)) && negb (IsNegative (fm_FilledQuoteAmount f)) && negb (IsNegative (fm_RemainingQuoteAmount f))
     && not_blank (fm_ErrorMessage f)
  then None else Some (ConstraintViolation "ck_failed_market_completions").

Definition failed_completions : FailureTable FailedMarketCompletion :=
  mkFailureTable "failed_market_completions" tb_failed_completions (fun rows t => t <| tb_failed_completions := rows |>) fm_ID
    (fun id f => f <| fm_ID := id |>) (fun f => pretty (fm_OrderID f)) failed_completion_check fm_Status fm_OccurredAt
    (fun message f => f <| fm_ErrorMessage := message |> <| fm_Status := FailedSettlementStatusOpen |> <| fm_RetryCount := (fm_RetryCount f + 1)%N |>
                        <| fm_Resolution := "" |>)
    fm_ErrorMessage
    (fun resolution _ _ f => f <| fm_Status := FailedSettlementStatusResolved |> <| fm_Resolution := resolution |>).

Definition failed_cancellation_check (f : FailedOrderCancellation) : option error :=
  if not_blank (fc_ErrorMessage f) then None else Some (ConstraintViolation "ck_failed_order_cancellations").

Definition failed_cancellations : FailureTable FailedOrderCancellation :=
  mkFailureTable "failed_order_cancellations" tb_failed_cancellations (fun rows t => t <| tb_failed_cancellations := rows |>) fc_ID
    (fun id f => f <| fc_ID := id |>) (fun f => pretty (fc_OrderID f)) failed_cancellation_check fc_Status fc_OccurredAt
    (fun message f => f <| fc_ErrorMessage := message |> <| fc_Status := FailedSettlementStatusOpen |> <| fc_RetryCount := (fc_RetryCount f + 1)%N |>
                        <| fc_Resolution := "" |>)
    fc_ErrorMessage
    (fun resolution _ _ f => f <| fc_Status := FailedSettlementStatusResolved |> <| fc_Resolution := resolution |>).

(** ** Messages and categories *)

Definition maxFailedSettlementErrorLength : nat := 2048.

(** [err] is [None] for a nil error. *)
Definition settlementErrorMessage (err : option error) : string :=
  let message := match err with None => "unknown settlement failure"%string | Some e => TrimSpace (error_text e) end in
  let message := if decide (message = "") then "unknown settlement failure"%string else message in
  let code := match err with None => ""%string | Some e => settlementErrorSQLState e end in
  let message := if decide (code = "") then message else ("[SQLSTATE " +:+ code +:+ "] " +:+ message)%string in
  if (maxFailedSettlementErrorLength <? String.length message)%nat then String.substring 0 maxFailedSettlementErrorLength message else message.

Inductive FailedSettlementCategory :=
| CategoryCancelledOrder | CategoryIdempotencyConflict | CategoryInsufficientLockedBalance | CategoryDeadlock
| CategorySerializationFailure | CategoryLockTimeout | CategoryStatementTimeout | CategoryUnknown.

Definition IsTransientFailedSettlementCategory (category : FailedSettlementCategory) : bool :=
  match category with
  | CategoryDeadlock | CategorySerializationFailure | CategoryLockTimeout | CategoryStatementTimeout => true
  | _ => false
  end.

Definition ClassifyFailedSettlement (failure : FailedSettlement) : FailedSettlementCategory :=
  let message := ToUpper (fs_ErrorMessage failure) in
  if contains "[SQLSTATE 40P01]" message then CategoryDeadlock
  else if contains "[SQLSTATE 40001]" message then CategorySerializationFailure
  else if contains "[SQLSTATE 55P03]" message then CategoryLockTimeout
  else if contains "[SQLSTATE 57014]" message then CategoryStatementTimeout
  else if contains "CANCELLED" message then CategoryCancelledOrder
  else if contains "IDEMPOTENCY KEY CONFLICT" message then CategoryIdempotencyConflict
  else if contains "INSUFFICIENT LOCKED" message then CategoryInsufficientLockedBalance
  else CategoryUnknown.

(** ** Failed settlements *)

(** [occurredAt] is the time of the call. *)
Definition failedSettlementFromTrade (trade : Trade) (settlementErr : option error) (occurredAt : Z) : result error FailedSettlement :=
  let coinSymbol := normalizeTradeCoinSymbol (t_CoinSymbol trade) in
  if decide (coinSymbol = "") then Err (Errorf "trade coin symbol is required" [])
  else if bool_decide (t_BuyOrderID trade = 0%N) || bool_decide (t_SellOrderID trade = 0%N)
  then Err (Errorf "trade buy_order_id and sell_order_id are required" [])
  else if negb (GreaterThan (t_Price trade) Zero) || negb (GreaterThan (t_Quantity trade) Zero)
  then Err (Errorf "trade price and quantity must be greater than zero" [])
  else
    let idempotencyKey := TrimSpace (t_IdempotencyKey trade) in
    let idempotencyKey := if decide (idempotencyKey = "") then tradeIdempotencyKey trade else idempotencyKey in
    Ok (mkFailedSettlement 0 idempotencyKey (t_EngineSequence trade) (TrimSpace (t_EngineEventID trade))
          (if decide (t_TradedAt trade = 0) then None else Some (t_TradedAt trade)) coinSymbol (t_BuyOrderID trade) (t_SellOrderID trade)
          (t_Price trade) (t_Quantity trade) (t_BuyerFee trade) (t_SellerFee trade) (t_FeeRate trade)
          (settlementErrorMessage settlementErr) FailedSettlementStatusOpen 1 occurredAt "" "" "").

Definition RecordFailure (now : Z) (trade : Trade) (settlementErr : option error) : M FailedSettlement :=
  failure ← lift (failedSettlementFromTrade trade settlementErr now);
  record_row failed_settlements failure.

Record SettlementFailureHandoff := mkHandoff { ho_Failure : FailedSettlement; ho_OutboxID : N }.

(** The input must not repeat an event or a trade. *)
Fixpoint check_handoffs (seenOutboxIDs : list N) (seenKeys : list string) (i : nat) (items : list SettlementFailureHandoff) : result error unit :=
  match items with
  | [] => Ok tt
  | item :: items =>
      if decide (ho_OutboxID item = 0%N) then Err (Errorf "items[%d].OutboxID is required" [pretty i])
      else if decide (ho_OutboxID item ∈ seenOutboxIDs) then Err (Errorf "duplicate outbox id %d" [pretty (ho_OutboxID item)])
      else if decide (fs_TradeIdempotencyKey (ho_Failure item) ∈ seenKeys)
      then Err (Errorf "duplicate trade idempotency key %q" [fs_TradeIdempotencyKey (ho_Failure item)])
      else check_handoffs (ho_OutboxID item :: seenOutboxIDs) (fs_TradeIdempotencyKey (ho_Failure item) :: seenKeys) (S i) items
  end.

(** Every row of the upsert is inserted or updated, so its count is right. *)
Definition handoff_body (items : list SettlementFailureHandoff) : M unit :=
  _ ← stmt;
  _ ← for_each (upsert failed_settlements) (map ho_Failure items);
  _ ← stmt;
  t ← get_db;
  let outboxIDs := map ho_OutboxID items in
  let present := filter (fun id => ob_Status <$> tb_outbox t !! id = Some OutboxPending) outboxIDs in
  _ ← put_db (t <| tb_outbox := mark_processed (tb_outbox t) present |>);
  if decide (length present <> length outboxIDs)
  then throw (Errorf "mark outbox processed affected %d rows, expected %d" [pretty (length present); pretty (length outboxIDs)])
  else mret tt.

Definition RecordFailuresAndMarkOutboxProcessed (items : list SettlementFailureHandoff) : M unit :=
  match items with
  | [] => throw (Errorf "items is required" [])
  | _ => _ ← lift (check_handoffs [] [] 0 items); transaction (handoff_body items)
  end.

Record TradeOutboxFailureItem := mkFailureItem { fi_Trade : Trade; fi_OutboxID : N }.

Fixpoint build_handoffs (now : Z) (settlementErr : option error) (i : nat) (items : list TradeOutboxFailureItem) : result error (list SettlementFailureHandoff) :=
  match items with
  | [] => Ok []
  | item :: items =>
      match failedSettlementFromTrade (fi_Trade item) settlementErr now with
      | Err e => Err (Wrapf ("items[" +:+ pretty i +:+ "]: %w") e)
      | Ok failure => rest ← build_handoffs now settlementErr (S i) items; Ok (mkHandoff failure (fi_OutboxID item) :: rest)
      end
  end.

Definition RecordBatchFailuresAndMarkOutboxProcessed (now : Z) (items : list TradeOutboxFailureItem) (settlementErr : option error) : M unit :=
  match items with
  | [] => throw (Errorf "items is required" [])
  | _ => handoffs ← lift (build_handoffs now settlementErr 0 items); RecordFailuresAndMarkOutboxProcessed handoffs
  end.

Definition ListOpenSettlementFailures (limit : Z) : M (list FailedSettlement) := open_rows failed_settlements (NormalizeFailedSettlementListLimit (NormalizeFailedSettlementListLimit limit)).

Definition open_failure_of (orderID : N) (f : FailedSettlement) : Prop :=
  fs_Status f = FailedSettlementStatusOpen /\ (fs_BuyOrderID f = orderID \/ fs_SellOrderID f = orderID).
Definition has_open_failure (t : Tables) (orderID : N) : bool := bool_decide (Exists (open_failure_of orderID) (all_rows failed_settlements t)).

Definition HasOpenFailureForOrder (orderID : N) : M bool :=
  if decide (orderID = 0%N) then throw (Errorf "order id is required" []) else query (fun t => has_open_failure t orderID).

Definition FindFailureByID (id : N) : M FailedSettlement :=
  if decide (id = 0%N) then throw (Errorf "failed settlement id is required" [])
  else
    row ← query (fun t => tb_failed_settlements t !! id);
    match row with Some f => mret f | None => throw ErrRecordNotFound end.

(** The CHECK constraint on an audited resolution is that of [validateResolveFailureInput]. *)
Definition MarkSettlementResolved (id : N) (resolution resolvedBy notes : string) : M unit :=
  if decide (id = 0%N) then throw (Errorf "failed settlement id is required" [])
  else
    existing ← FindFailureByID id;
    if decide (fs_Status existing = FailedSettlementStatusResolved) then mret tt
    else
      affected ← update_resolved failed_settlements id resolution resolvedBy notes;
      if (affected : bool) then mret tt else throw (Errorf "failed settlement resolve affected no rows" []).

Record ResolveFailureInput := mkResolveInput { rf_ID : N; rf_Resolution : string; rf_ResolvedBy : string; rf_Notes : string }.

Definition validateResolveFailureInput (input : ResolveFailureInput) : result error unit :=
  let resolution := TrimSpace (rf_Resolution input) in
  if decide (rf_ID input = 0%N) then Err (Errorf "failed settlement id is required" [])
  else if decide (resolution = "") then Err (Errorf "resolution is required" [])
  else if (512 <? String.length resolution)%nat then Err (Errorf "resolution must be at most %d characters" ["512"])
  else if (128 <? String.length (TrimSpace (rf_ResolvedBy input)))%nat then Err (Errorf "resolved_by must be at most %d characters" ["128"])
  else if (2048 <? String.length (TrimSpace (rf_Notes input)))%nat then Err (Errorf "notes must be at most %d characters" ["2048"])
  else Ok tt.

Definition ResolveFailure (input : ResolveFailureInput) : M FailedSettlement :=
  _ ← lift (validateResolveFailureInput input);
  _ ← MarkSettlementResolved (rf_ID input) (TrimSpace (rf_Resolution input)) (TrimSpace (rf_ResolvedBy input)) (TrimSpace (rf_Notes input));
  FindFailureByID (rf_ID input).

(** ** Failed completions of market orders *)

Definition decimal_max (a b : decimal) : decimal := if LessThan a b then b else a.

Definition failedMarketCompletionFrom (input : CompleteMarketOrderInput) (coinSymbol : string) (reason : option error) (occurredAt : Z) (retryCount : N)
    : result error FailedMarketCompletion :=
  if decide (cm_OrderID input = 0%N) then Err (Errorf "order_id is required" [])
  else Ok (mkFailedCompletion 0 (cm_OrderID input) (normalizeTradeCoinSymbol coinSymbol) (cm_FilledAmount input) (cm_FilledQuoteAmount input)
             (decimal_max Zero (cm_RemainingQuoteAmount input)) (settlementErrorMessage reason) FailedSettlementStatusOpen retryCount occurredAt "").

Definition RecordCompletionFailure (now : Z) (input : CompleteMarketOrderInput) (coinSymbol : string) (completionErr : option error) : M FailedMarketCompletion :=
  failure ← lift (failedMarketCompletionFrom input coinSymbol completionErr now 1);
  record_row failed_completions failure.
Definition DeferCompletion (now : Z) (input : CompleteMarketOrderInput) (coinSymbol : string) (reason : option error) : M FailedMarketCompletion :=
  failure ← lift (failedMarketCompletionFrom input coinSymbol reason now 0);
  defer_row failed_completions failure.
Definition ListOpenCompletionFailures (limit : Z) : M (list FailedMarketCompletion) := open_rows failed_completions (NormalizeFailedSettlementListLimit (NormalizeFailedSettlementListLimit limit)).

Definition ResolveCompletionFailure (id : N) (resolution : string) : M unit :=
  if decide (id = 0%N) then throw (Errorf "failed market completion id is required" [])
  else
    affected ← update_resolved failed_completions id resolution "" "";
    if (affected : bool) then mret tt else throw (Errorf "failed market completion %d resolve affected no rows" [pretty id]).

(** ** Failed cancellations *)

Definition failedOrderCancellationFrom (cancelled : OrderCancelled) (sourceOutboxID : N) (reason : option error) (occurredAt : Z) (retryCount : N)
    : result error FailedOrderCancellation :=
  if decide (c_OrderID cancelled = 0%N) then Err (Errorf "order_id is required" [])
  else Ok (mkFailedCancellation 0 (c_OrderID cancelled) sourceOutboxID (normalizeTradeCoinSymbol (c_CoinSymbol cancelled)) (c_Side cancelled)
             (c_EngineEventID cancelled) (settlementErrorMessage reason) FailedSettlementStatusOpen retryCount occurredAt "").

Definition RecordCancellationFailure (now : Z) (cancelled : OrderCancelled) (sourceOutboxID : N) (executionErr : option error) : M FailedOrderCancellation :=
  failure ← lift (failedOrderCancellationFrom cancelled sourceOutboxID executionErr now 1);
  record_row failed_cancellations failure.
Definition DeferCancellation (now : Z) (cancelled : OrderCancelled) (sourceOutboxID : N) (reason : option error) : M FailedOrderCancellation :=
  failure ← lift (failedOrderCancellationFrom cancelled sourceOutboxID reason now 0);
  defer_row failed_cancellations failure.
Definition ListOpenCancellationFailures (limit : Z) : M (list FailedOrderCancellation) := open_rows failed_cancellations (NormalizeFailedSettlementListLimit (NormalizeFailedSettlementListLimit limit)).

Definition ResolveCancellationFailure (id : N) (resolution : string) : M unit :=
  if decide (id = 0%N) then throw (Errorf "failed order cancellation id is required" [])
  else
    affected ← update_resolved failed_cancellations id resolution "" "";
    if (affected : bool) then mret tt else throw (Errorf "failed order cancellation %d resolve affected no rows" [pretty id]).
End FailureStores.
Arguments ft_name {_ A}. Arguments ft_rows {_ A}. Arguments ft_put {_ A}. Arguments ft_id {_ A}. Arguments ft_with_id {_ A}.
Arguments ft_key {_ A}. Arguments ft_check {_ A}. Arguments ft_status {_ A}. Arguments ft_occurred {_ A}. Arguments ft_again {_ A}.
Arguments ft_message {_ A}. Arguments ft_resolve {_ A}.
