(* ===== verification/Services.v ===== *)
(** * The services together

    Every state the services reach from an empty database, by any sequence of
    funding, creating (alone, in batches, or refused by a full coordinator), settling
    (alone or in batches), cancelling and completing, under any failures of the
    database, satisfies the invariant; and in such a state, as long as no open market
    buy has spent more than its budget, a trade between two open orders with room for
    it settles, whoever the users are.  A budget that was rounded up is not settled to
    its end unless the user has another hold. *)
From S2P Require Import Prelude Decimal Model Errors Fee MarketRules Database Ledger LedgerInv LedgerSpec LedgerTheorems Sha256 OrderLedger Queries Settlement TradePlan Store SettlementProofs SettlementBatch SettlementBatchProofs Idempotency HoldCoordinator OrderService Transfers TransferInv LockedFunds OrderProofs HoldBatchProofs TransferProofs.
From Stdlib Require Import Lia.

Section Services.
Context {DL : DecimalLib} {DLaws : DecimalLaws DL} {API : MatchingAPI} {ETP : ExternalTransferProcessor}.
Local Open Scope Q_scope.

Definition empty_world : World := mkWorld empty_tables ∅ [].

(** A trade as the engine reports it: without fees of its own, and within what
    the engine was given of a market buy's budget. *)
Definition engine_trade (trade0 : Trade) (t : Tables) : Prop :=
  IsPositive (t_FeeRate trade0) = false
  /\ forall trade buy, settlement_input trade0 = Ok trade -> tb_orders t !! t_BuyOrderID trade = Some buy -> leaves_budget trade buy.

(** The same of the trades of a batch, each when the ones before it are settled. *)
Fixpoint engine_batch (items : list TradeBatchItem) (t : Tables) : Prop :=
  match items with
  | [] => True
  | item :: items =>
      (forall trade0, ti_Trade item = Some trade0 -> engine_trade trade0 t)
      /\ forall p r t1, prepared_as item p -> settle_outcome (pr_Trade p) (pr_OutboxEventID p) t r t1 -> engine_batch items t1
  end.

(** One call, or a change of what the database will do next. *)
Inductive service_step : World -> World -> Prop :=
| step_fund u coin amount key w : service_step w (FundWallet u coin amount key w).2
| step_create place rules now input me w : place_ok place -> service_step w (CreateOrder (holdWithIdempotency place) rules now input w me).1.2
| step_hold_batch reqs w : Forall (fun req => new_order_ok (hq_order req)) reqs -> service_step w (processBatch reqs w).2
| step_submit_held row recordID now me w : new_order_ok row -> tb_orders (w_tables w) !! r_ID row = Some row -> service_step w (submit_held row recordID now w me).1.2
| step_settle trade0 outboxEventID w : engine_trade trade0 (w_tables w) -> service_step w (SettleTrade trade0 outboxEventID w).2
| step_settle_batch items w : engine_batch items (w_tables w) -> service_step w (SettleTradeBatch items w).2
| step_request_cancel u id w : service_step w (CancelOrder u id w).2
| step_cancel id w : service_step w (ProcessOrderCancellation id w).2
| step_complete input w :
    (forall o, tb_orders (w_tables w) !! cm_OrderID input = Some o -> r_Status o <> OrderStatusRejected) ->
    service_step w (CompleteMarketOrder input w).2
| step_transfer w w' : transfer_step w w' -> service_step w w'.

(** ** Every call keeps the invariant *)

Lemma empty_ok s fs : ok_world (mkWorld empty_tables s fs).
Proof.
  split; [|by split].
  split; [split; [apply ledger_ok_empty | by constructor | done | by constructor | by constructor] | done | done | done | by constructor | done | done | apply transfers_ok_empty].
Qed.

(** A journal that leaves locked accounts alone and is about neither an order nor a
    transfer. *)
Lemma sys_post i t s t' s' : sys_ok t s -> store_ok t' s' -> seq_le s s' -> same_rest t t' -> posted i t t' ->
  (forall u a, key_sum (key_user AccountUserLocked u a) (in_Postings i) == 0) ->
  (forall id reason, in_IdempotencyKey i <> order_release_key id reason) -> (forall id, in_IdempotencyKey i <> order_hold_key id) ->
  ~ transfer_key (in_IdempotencyKey i) -> sys_ok t' s'.
Proof.
  intros Hsys Hok Hs (_ & Ho & Ht & _ & _ & _ & Htr & _) Hpost Hz Hr Hh Hn. apply (sys_move t s); try done.
  - intros u a. unfold locked. rewrite (posted_balance _ _ _ _ Hpost), Hz, Htr. lra.
  - intros k Hf. apply (posted_find _ _ _ _ Hpost) in Hf as [Hf|E]; [by left|]. subst. by right.
  - apply (transfers_ok_frame t t' s s'); [done | done | | apply Hsys]. intros k Hf.
    apply (posted_find _ _ _ _ Hpost) in Hf as [Hf|E]; [by left|]. subst. by right.
Qed.

Lemma fund_key_not_transfer u coin amount key : ~ transfer_key (in_IdempotencyKey (fund_input u coin amount key)).
Proof.
  intros [[i E]|[ref E]]; [done|]. unfold confirm_keys in E. rewrite !elem_of_cons, elem_of_nil in E. by destruct E as [E|[E|[E|[]]]].
Qed.

Lemma idem_ok_same t t' s : tb_idempotency t' = tb_idempotency t -> idem_ok t s -> idem_ok t' s.
Proof. intros E [H1 H2]. split; by rewrite E. Qed.

Lemma fund_spec u coin amount key t s : sys_ok t s -> idem_ok t s ->
  wp (_ ← Record_ (fund_input u coin amount key); mret tt) (fun _ t' s' => sys_ok t' s' /\ idem_ok t' s') (fun _ => True) t s.
Proof.
  intros Hsys Hid. apply wp_bind. eapply wp_mono; [apply Record_store; [apply Hsys | done]| |done].
  intros [e c] t' s' Hs (Hok' & Hrest & Hdone & _). apply wp_ret. pose proof Hrest as (_ & Ho & Ht & _ & Hi & _ & Htr & _).
  split; [|eapply idem_ok_same; [exact Hi|]; by eapply idem_ok_seq]. unfold journal_done in Hdone. destruct c.
  - apply (sys_post (fund_input u coin amount key) t s); try done. apply fund_key_not_transfer.
  - destruct Hdone as [Hl _]. apply (sys_ok_same t); [done ..|]. by eapply sys_ok_seq.
Qed.

Lemma settle_outcome_keeps trade0 trade outboxEventID t s r t' s' : sys_ok t s -> idem_ok t s -> engine_trade trade0 t ->
  settlement_input trade0 = Ok trade -> seq_le s s' -> store_ok t' s' -> settle_outcome trade outboxEventID t r t' -> sys_ok t' s' /\ idem_ok t' s'.
Proof.
  intros Hsys Hid [Hrate Hbud] Hi Hs Hok' [_ Hout]. destruct (find_trade t _).
  - destruct Hout as (_ & (Hl & _ & Ho & Ht & Hk & _ & Htr & _) & _). split; [apply (sys_ok_same t); [done ..|]; by eapply sys_ok_seq|].
    eapply idem_ok_same; [exact Hk|]. by eapply idem_ok_seq.
  - destruct Hout as (id & _ & Htr & Hset). pose proof Hset as [? ? ? ? ? ? ? ? ? ? ? ? ? ? Hk ?].
    split; [|eapply idem_ok_same; [exact Hk|]; by eapply idem_ok_seq].
    apply (sys_settle t s t' s' (trade <| t_ID := id |>)); try done; [|intros b0 Hb0; exact (Hbud trade b0 Hi Hb0)].
    unfold settlement_input in Hi. destruct (prepareTradeForSettlement trade0) as [t1|] eqn:Ep; [|done]. cbn [mbind result_bind] in Hi.
    assert (Hr1 : t_FeeRate t1 = t_FeeRate trade0) by (by apply prepare_Ok in Ep as (_ & _ & _ & _ & _ & _ & ->)).
    apply applyTradeFeePolicy_Ok in Hi as (_ & _ & _ & Hfee). rewrite Hr1, Hrate in Hfee. destruct Hfee as (_ & Hb & _).
    cbn. rewrite Hb. unfold quote_of. rewrite dval_tradeQuoteAmount. cbn. ring.
Qed.

Lemma settle_spec trade0 trade outboxEventID t s : sys_ok t s -> idem_ok t s -> engine_trade trade0 t -> settlement_input trade0 = Ok trade ->
  wp (settle_body trade outboxEventID) (fun _ t' s' => sys_ok t' s' /\ idem_ok t' s') (fun _ => True) t s.
Proof.
  intros Hsys Hid Heng Hi. eapply wp_mono; [apply settle_body_spec; [apply Hsys | by eapply settlement_input_prepared]| |done].
  intros r t' s' Hs [Hok' Hout]. by eapply settle_outcome_keeps.
Qed.

Lemma settles_keeps items ps rs t t' s : Forall2 prepared_as items ps -> settles s ps rs t t' -> engine_batch items t ->
  sys_ok t s -> idem_ok t s -> sys_ok t' s /\ idem_ok t' s.
Proof.
  intros Hps. revert rs t. induction Hps as [|item p items ps Hp _ IH]; intros rs t Hset Heng Hsys Hid; inversion Hset as [|? ? ? ? ? t1 ? Hout Hok1 Hrest]; subst; [done|].
  destruct Heng as [He Hnext]. pose proof Hp as (trade0 & Ht0 & Hi & _).
  destruct (settle_outcome_keeps _ _ _ _ _ _ _ _ Hsys Hid (He _ Ht0) Hi (seq_le_refl s) Hok1 Hout) as [Hs1 Hi1].
  apply (IH _ t1 Hrest); [by eapply Hnext|done|done].
Qed.

Lemma settle_batch_ok items w : ok_world w -> engine_batch items (w_tables w) -> ok_world (SettleTradeBatch items w).2.
Proof.
  intros Hw Heng. unfold SettleTradeBatch. destruct items as [|item0 items0] eqn:Ei; [done|]. rewrite <- Ei in *. clear Ei.
  unfold mbind, M_bind, lift. destruct (prepare_items items) as [ps|e] eqn:Ep; [|done]. apply prepare_items_spec in Ep.
  apply transaction_ok_world; [done|]. destruct Hw as [Hsys Hid].
  eapply wp_mono; [apply settle_batch_spec; [apply Hsys|by eapply prepared_as_prepared]| |done]. intros rs t' s' Hs [_ Hset].
  eapply settles_keeps; [done|done|done|by eapply sys_ok_seq|by eapply idem_ok_seq].
Qed.

Lemma cancel_request_spec u id t s : sys_ok t s -> idem_ok t s ->
  wp (cancel_body u id) (fun _ t' s' => sys_ok t' s' /\ idem_ok t' s') (fun _ => True) t s.
Proof.
  intros Hsys Hid. apply wp_bind, FindByIDForUpdate_spec; [|done]. intros o Ho.
  destruct (negb _); [by apply wp_throw|]. destruct (negb _); [by apply wp_throw|]. case_decide; [by apply wp_throw|].
  apply wp_bind. unfold CreateOrGet. apply wp_bind, wp_stmt, wp_bind, wp_nextval. intros s1 Hs1 _ _. apply wp_bind, wp_get.
  pose proof (sys_ok_seq _ _ _ Hs1 Hsys) as Hsys1. pose proof (idem_ok_seq _ _ _ Hs1 Hid) as Hid1.
  destruct (command_of_order t _) eqn:Ec.
  - apply wp_bind, wp_query. rewrite Ec. by apply wp_ret, wp_ret.
  - apply wp_bind, wp_put, wp_ret, wp_ret. split; [by apply (sys_ok_same t) | by apply (idem_ok_same t)].
Qed.

Lemma map_err_world {A} f (m : M A) w : (map_err f m w).2 = (m w).2.
Proof. unfold map_err. by destruct (m w) as [[] ?]. Qed.
Lemma bind_world {A B} (m : M A) (g : A -> B) w : (a ← m; mret (g a)) w = (match (m w).1 with Ok a => Ok (g a) | Err e => Err e end, (m w).2).
Proof. unfold mbind, M_bind. by destruct (m w) as [[] ?]. Qed.

Lemma ok_world_then {A B} (m : M A) (k : A -> M B) w : ok_world (m w).2 -> (forall a, readonly (k a)) -> ok_world ((m ≫= k) w).2.
Proof.
  intros Hm Hk. unfold mbind, M_bind. destruct (m w) as [[a|e] w1]; [|done]. destruct (Hk a w1) as [E1 E2].
  unfold ok_world in *. cbn [snd] in *. by rewrite E1, E2.
Qed.

Lemma fund_ok u coin amount key w : ok_world w -> ok_world (FundWallet u coin amount key w).2.
Proof.
  intros Hw. unfold FundWallet, lift. unfold mbind at 1, M_bind. destruct (normalizeFundWalletInput _ _ _ _) as [[[[u' coin'] amount'] key']|]; [|done].
  apply (ok_world_then (transaction _)).
  - apply transaction_ok_world; [done|]. apply fund_spec; apply Hw.
  - intros ?. apply readonly_bind; [apply readonly_query|]. intros rows. by case_match; intros ?.
Qed.

Lemma ok_world_step w w' : service_step w w' -> ok_world w -> ok_world w'.
Proof.
  intros Hstep Hw. destruct Hstep as [u coin amount key w|place rules now input me w Hplace|reqs w Hreqs|row recordID now me w Hrow Hst|trade0 ob w Htr|items w Hit|u id w|id w|input w Hnr|w w' Ht].
  - by apply fund_ok.
  - pose proof (create_order_run place rules now input w me Hw Hplace) as H. destruct (CreateOrder _ _ _ _ _ _) as [[reply w'] me']. apply H.
  - destruct (process_batch_run reqs w Hw Hreqs) as (results & w' & -> & H & _). done.
  - pose proof (submit_run row recordID now w me Hw Hrow Hst) as H. destruct (submit_held _ _ _ _ _) as [[reply w'] me']. apply H.
  - rewrite SettleTrade_eq. destruct (settlement_input trade0) as [trade|e] eqn:Ei; [|done].
    apply transaction_ok_world; [done|]. by eapply settle_spec; [apply Hw | apply Hw | |].
  - by apply settle_batch_ok.
  - unfold CancelOrder. do 2 (case_decide; [done|]). rewrite bind_world, map_err_world. cbn [snd].
    apply transaction_ok_world; [done|]. apply cancel_request_spec; apply Hw.
  - unfold ProcessOrderCancellation. case_decide; [done|]. apply transaction_ok_world; [done|].
    eapply wp_mono; [apply cancellation_spec, Hw| |done]. intros v t' s' Hs (H1 & _ & (_ & _ & Hi & _)). split; [done|].
    eapply idem_ok_same; [exact Hi|]. eapply idem_ok_seq; [exact Hs | apply Hw].
  - unfold CompleteMarketOrder. case_decide; [done|]. apply transaction_ok_world; [done|].
    eapply wp_mono; [apply complete_spec; [apply Hw | done]| |done]. intros v t' s' Hs (H1 & _ & (_ & _ & Hi & _)). split; [done|].
    eapply idem_ok_same; [exact Hi|]. eapply idem_ok_seq; [exact Hs | apply Hw].
  - by apply (transfer_step_ran w w').
Qed.

Lemma reached_ok w0 w : rtc service_step w0 w -> ok_world w0 -> ok_world w.
Proof. induction 1 as [|w1 w2 w3 Hs _ IH]; [done|]. intros Hw. by apply IH, (ok_world_step w1). Qed.

(** What the services promise of any state they reach. *)
Record sound (t : Tables) : Prop := {
  sn_conserved : forall asset, total_balance t asset == 0;
  sn_nonnegative : forall u a ty, ty = AccountUserAvailable \/ ty = AccountUserLocked -> 0 <= balance_of t (key_user ty u a);
  sn_locked : forall u a, balance_of t (key_user AccountUserLocked u a) == map_sum (held u a) (tb_orders t) + map_sum (withheld u a) (tb_transfers t);
  sn_fills : map_Forall (fun id o =>
      dval (r_FilledAmount o) == tsum (of_order id) (fun tr => dval (t_Quantity tr)) (tb_trades t)
      /\ dval (r_FilledQuoteAmount o) == tsum (of_order id) quote_of (tb_trades t) /\ progress_of o <= limit_of o) (tb_orders t) }.

Lemma sys_sound t s : sys_ok t s -> sound t.
Proof.
  intros Hsys. pose proof (so_ledger _ _ (sy_store _ _ Hsys)) as Hl. split.
  - intros asset. by eapply total_balance_zero.
  - intros u a ty Hty. apply (balance_nonneg t s _ Hl). by destruct Hty as [-> | ->].
  - apply Hsys.
  - intros id o Ho. destruct (sy_fills _ _ Hsys id o Ho) as (H1 & H2 & _). split; [done|]. split; [done|].
    destruct (so_orders _ _ (sy_store _ _ Hsys) id o Ho) as (_ & _ & _ & _ & Hlim). unfold within_limit in Hlim. unfold progress_of, limit_of. by case_decide.
Qed.

(** C1 In every state the services reach from an empty database, by any sequence of
    calls and whatever the database does: the balances of each asset add up to zero
    over all accounts, no user balance is negative, what is locked for a user is
    exactly what the user's open orders still need (a market buy that has spent more
    than its budget counts negatively) plus what pending withdrawals will take, and every order has received exactly the sum of its trades and no more
    than it asked for. *)
Theorem services_sound w : rtc service_step empty_world w -> sound (w_tables w).
Proof. intros H. eapply sys_sound. apply (reached_ok empty_world w H), empty_ok. Qed.

(** C15 Whatever requests, polls, callbacks and database failures follow each other,
    and whatever the outside answers: every balance has changed by exactly what the
    transfer requests stand for by their statuses, so a transfer moves its money once
    and a refused withdrawal gives all of it back; a request keeps its user, asset
    and amount, goes from RECEIVED to PROCESSING to one final status and never
    leaves that; and no order or trade is touched. *)
Theorem transfers_move_once w0 w : rtc service_step empty_world w0 -> rtc transfer_step w0 w ->
  evolved (w_tables w0) (w_tables w).
Proof. intros H0 H. apply (transfer_steps_ran w0 w H). apply (reached_ok empty_world w0 H0), empty_ok. Qed.

(** ** Trades between open orders settle *)

(** No open market buy has spent more than its budget. *)
Definition budgets_kept (t : Tables) : Prop :=
  map_Forall (fun _ o => r_OrderType o = OrderTypeMarket -> r_Side o = OrderSideBuy -> open_status o -> 0 <= rest o) (tb_orders t).

Lemma held_nonneg t s u a : sys_ok t s -> budgets_kept t -> map_Forall (fun _ o => 0 <= held u a o) (tb_orders t).
Proof.
  intros Hsys Hb id o Ho. unfold held. case_decide; [|lra]. unfold outstanding. destruct (isCancellableOrderStatus _) eqn:Eo; [|lra].
  destruct (decide (r_OrderType o = OrderTypeMarket /\ r_Side o = OrderSideBuy)) as [[Hm Hs]|Hn].
  { apply (Hb id o Ho Hm Hs). by apply open_cancellable. }
  rewrite (rest_limit o Hn). destruct (so_orders _ _ (sy_store _ _ Hsys) id o Ho) as (_ & _ & _ & _ & Hlim). unfold within_limit in Hlim.
  rewrite decide_False in Hlim by done. pose proof (proj1 (ow_price o (sy_orders _ _ Hsys id o Ho))) as Hp. pose proof fee_rate_pos.
  apply Qmult_le_0_compat; [|lra]. case_decide; [apply Qmult_le_0_compat; lra | lra].
Qed.

(** The hold of an open order is there in full. *)
Lemma hold_available t s id o : sys_ok t s -> budgets_kept t -> tb_orders t !! id = Some o -> open_status o ->
  rest o <= balance_of t (key_user AccountUserLocked (r_UserID o) (orderHoldAsset o)).
Proof.
  intros Hsys Hb Ho Hop. fold (locked t (r_UserID o) (orderHoldAsset o)). rewrite (sy_locked _ _ Hsys).
  assert (Heq : held (r_UserID o) (orderHoldAsset o) o = rest o).
  { unfold held, outstanding. rewrite decide_True by done. by rewrite (proj1 (open_cancellable o) Hop). }
  assert (Hw : 0 <= map_sum (withheld (r_UserID o) (orderHoldAsset o)) (tb_transfers t)) by (eapply map_sum_nonneg, withheld_nonneg, Hsys).
  pose proof (map_sum_ge (held (r_UserID o) (orderHoldAsset o)) (tb_orders t) id o (held_nonneg _ _ _ _ Hsys Hb) Ho) as Hge. rewrite Heq in Hge. lra.
Qed.

(** The engine's limits: the price suits the buy order, and a market buy can pay
    the trade with its fee. *)
Definition affordable (trade : Trade) (buy : OrderRow) : Prop :=
  if decide (r_OrderType buy = OrderTypeMarket) then (1 + fee_rate) * quote_of trade <= rest buy
  else dval (t_Price trade) <= dval (r_Price buy).

Lemma taken_le_rest trade o : order_wf o -> 0 < dval (t_Quantity trade) -> has_room trade o ->
  (r_Side o = OrderSideBuy -> affordable trade o) -> taken trade o <= rest o.
Proof.
  intros Hwf Hq Hroom Haff. unfold taken, has_room, progress_of, step_of, limit_of, affordable in *. pose proof fee_rate_pos as Hf.
  destruct (decide (r_Side o = OrderSideBuy)) as [Hs|Hs].
  - specialize (Haff Hs). rewrite reserved_debit_value. destruct (decide (r_OrderType o = OrderTypeMarket)) as [Hm|Hm].
    + unfold quote_of in Haff. done.
    + rewrite (rest_limit o) by (by intros [? _]). rewrite decide_True by done. destruct (decide (_ /\ _)) as [[? _]|_]; [done|].
      rewrite <- Qmult_assoc. apply Qmult_le_l; [done|]. apply Qmult_le_l; [|lra]. apply (ow_price o Hwf). by destruct (ow_type o Hwf).
  - destruct (decide (_ /\ _)) as [[_ ?]|_]; [done|]. rewrite (rest_limit o) by (by intros [_ ?]). rewrite decide_False by done. lra.
Qed.

Lemma engine_fees trade0 trade : IsPositive (t_FeeRate trade0) = false -> settlement_input trade0 = Ok trade ->
  dval (t_BuyerFee trade) == fee_rate * quote_of trade /\ dval (t_SellerFee trade) == fee_rate * quote_of trade.
Proof.
  intros Hrate Hi. unfold settlement_input in Hi. destruct (prepareTradeForSettlement trade0) as [t1|] eqn:Ep; [|done]. cbn [mbind result_bind] in Hi.
  apply prepare_Ok in Ep as (_ & _ & _ & _ & _ & _ & Hr1). apply applyTradeFeePolicy_Ok in Hi as (_ & _ & _ & Hfee).
  rewrite Hr1, Hrate in Hfee. destruct Hfee as (_ & Hb & Hs & _). unfold quote_of. rewrite Hb, Hs, dval_tradeQuoteAmount. split; ring.
Qed.

Lemma open_orders_cover t s trade0 trade buy sell : sys_ok t s -> budgets_kept t ->
  IsPositive (t_FeeRate trade0) = false -> settlement_input trade0 = Ok trade ->
  tb_orders t !! t_BuyOrderID trade = Some buy -> tb_orders t !! t_SellOrderID trade = Some sell -> matched trade buy sell ->
  has_room trade buy -> has_room trade sell -> affordable trade buy -> covered trade buy sell t.
Proof.
  intros Hsys Hbk Hrate Hi Hbuy Hsell Hm Hrb Hrs Haff. destruct (engine_fees _ _ Hrate Hi) as [Hbf Hsf].
  destruct (settlement_input_prepared _ _ Hi) as (_ & _ & Hp & Hq). assert (Hv : 0 < quote_of trade) by (by apply Qmult_lt_0_compat).
  pose proof (sy_orders _ _ Hsys _ _ Hbuy) as Hwb. pose proof (sy_orders _ _ Hsys _ _ Hsell) as Hws.
  pose proof Hm as (Hbs & Hss & _ & Hsc & Hbo & Hso & _). pose proof fee_rate_pos as Hf.
  pose proof (hold_available t s _ buy Hsys Hbk Hbuy Hbo) as Hhb. pose proof (hold_available t s _ sell Hsys Hbk Hsell Hso) as Hhs.
  pose proof (taken_le_rest trade buy Hwb Hq Hrb (fun _ => Haff)) as Htb.
  pose proof (taken_le_rest trade sell Hws Hq Hrs) as Hts. rewrite Hss in Hts. specialize (Hts ltac:(done)).
  unfold taken in Htb, Hts. rewrite decide_True in Htb by done. rewrite decide_False in Hts by (by rewrite Hss).
  unfold orderHoldAsset in Hhb, Hhs. rewrite decide_True in Hhb by done. rewrite decide_False, Hsc in Hhs by (by rewrite Hss).
  split; try done.
  - rewrite reserved_debit_value. unfold execution_debit. rewrite Hbf. unfold affordable in Haff. unfold quote_of in *.
    destruct (decide (r_OrderType buy = OrderTypeMarket)); [lra|].
    assert (Hle : (1 + fee_rate) * (dval (t_Price trade) * dval (t_Quantity trade)) <= (1 + fee_rate) * (dval (r_Price buy) * dval (t_Quantity trade))).
    { apply Qmult_le_l; [done|]. by apply Qmult_le_r. }
    lra.
  - rewrite Hsf. unfold fee_rate. lra.
  - split; lra.
Qed.

(** C19 The services keep enough locked for every trade: in any reachable state in
    which no open market buy has spent more than its budget (the rounding of
    [marketBuyExecutableQuoteAmount] can break this when the user has another hold), and
    with a working database, a new trade of the engine between two open
    orders of different users, with room in both, at a price the buyer accepts and
    can pay, settles; no other order of the two users can have used up the funds. *)
Theorem open_trade_settles w trade0 trade outboxEventID buy sell : rtc service_step empty_world w -> budgets_kept (w_tables w) ->
  IsPositive (t_FeeRate trade0) = false -> settlement_input trade0 = Ok trade ->
  find_trade (w_tables w) (t_IdempotencyKey trade) = None -> trade_violation (w_tables w) trade = None ->
  tb_orders (w_tables w) !! t_BuyOrderID trade = Some buy -> tb_orders (w_tables w) !! t_SellOrderID trade = Some sell ->
  matched trade buy sell -> has_room trade buy -> has_room trade sell -> affordable trade buy ->
  exists res w', SettleTrade trade0 outboxEventID (mkWorld (w_tables w) (w_seqs w) []) = (Ok res, w') /\ sr_Applied res = true.
Proof.
  intros Hr Hbk Hrate Hi Hn Hv Hbuy Hsell Hm Hrb Hrs Haff. destruct (reached_ok _ _ Hr (empty_ok ∅ [])) as [Hsys _].
  eapply covered_settles; [apply Hsys | done | done | done |]. by eapply open_orders_cover.
Qed.

(** ** Trades beyond the budget *)

(** Nothing else of the order's user is locked in the asset of its hold: no other open
    order, no pending withdrawal. *)
Definition only_hold (t : Tables) (id : N) (o : OrderRow) : Prop :=
  map_Forall (fun id' o' => id' <> id -> held (r_UserID o) (orderHoldAsset o) o' == 0) (tb_orders t)
  /\ map_Forall (fun _ r => withheld (r_UserID o) (orderHoldAsset o) r == 0) (tb_transfers t).

Lemma only_hold_locked t s id o : sys_ok t s -> tb_orders t !! id = Some o -> open_status o -> only_hold t id o ->
  locked t (r_UserID o) (orderHoldAsset o) == rest o.
Proof.
  intros Hsys Ho Hop [H1 H2]. rewrite (sy_locked _ _ Hsys), (map_sum_delete _ _ _ _ Ho).
  rewrite (map_sum_none (held (r_UserID o) (orderHoldAsset o))), (map_sum_none (withheld (r_UserID o) (orderHoldAsset o))); [|done|].
  - unfold held, outstanding. rewrite decide_True by done. rewrite (proj1 (open_cancellable o) Hop). lra.
  - intros id' o' Ho'. apply lookup_delete_Some in Ho' as [Hne Ho']. by apply (H1 id').
Qed.

(** A settled trade was paid out of the buyer's locked KRW. *)
Lemma settled_was_locked trade t t' s' : store_ok t' s' -> trade_settled trade t t' ->
  exists buy sell, tb_orders t !! t_BuyOrderID trade = Some buy /\ matched trade buy sell
    /\ reserved_debit buy trade <= locked t (r_UserID buy) KRWAssetSymbol.
Proof.
  intros Hok [buy sell buy' sell' Hbuy Hsell Hm _ _ _ _ _ Hbal _ _ _]. exists buy, sell. split; [done|]. split; [done|].
  destruct Hm as (_ & _ & _ & _ & _ & _ & _ & _ & Hne).
  assert (Hk : 0 <= balance_of t' (key_user AccountUserLocked (r_UserID buy) KRWAssetSymbol)) by (eapply balance_nonneg; [apply Hok|done]).
  rewrite Hbal, locked_effect in Hk. unfold on in Hk. rewrite decide_True in Hk by done. rewrite decide_False in Hk by (unfold key_user; congruence). unfold locked. lra.
Qed.

(** C39 A budget that was rounded up cannot be spent: a market buy is submitted to the
    engine with its budget divided by one plus the fee rate.  When that quotient was
    rounded up, so that it costs more than the budget once the fee is added, and the user
    has nothing else locked in KRW, then the trade that spends the last of it, the first
    or after others, is refused by [SettleTrade] in any reachable state, whatever else
    the database does, and nothing changes. *)
Theorem full_budget_trade_refused w trade0 trade outboxEventID buy q : rtc service_step empty_world w ->
  settlement_input trade0 = Ok trade -> find_trade (w_tables w) (t_IdempotencyKey trade) = None ->
  tb_orders (w_tables w) !! t_BuyOrderID trade = Some buy -> r_OrderType buy = OrderTypeMarket -> only_hold (w_tables w) (t_BuyOrderID trade) buy ->
  matchingQuoteAmountForOrder buy = Ok q -> dval (r_QuoteAmount buy) < dval (quoteAmountWithTradingFee q) ->
  dval (r_FilledQuoteAmount buy) + quote_of trade == dval q ->
  exists e w', SettleTrade trade0 outboxEventID w = (Err e, w') /\ w_tables w' = w_tables w.
Proof.
  intros Hr Hi Hn Hbuy Hty Honly _ Hup Hq. destruct (reached_ok _ _ Hr (empty_ok ∅ [])) as [Hsys _].
  assert (Hno : forall res t' s', store_ok t' s' -> ~ settle_outcome trade outboxEventID (w_tables w) res t').
  { intros res t' s' Hok' [_ Ho]. rewrite Hn in Ho. destruct Ho as (id & _ & _ & Hset).
    destruct (settled_was_locked _ _ _ _ Hok' Hset) as (buy' & sell & Hb & (Hs & _ & _ & _ & Hop & _) & Hle). cbn in Hb. rewrite Hbuy in Hb. injection Hb as <-.
    pose proof (only_hold_locked _ _ _ _ Hsys Hbuy Hop Honly) as Hl. unfold orderHoldAsset in Hl. rewrite decide_True in Hl by done. rewrite Hl in Hle.
    rewrite reserved_debit_value, decide_True in Hle by done. cbn in Hle. unfold rest in Hle. rewrite decide_True in Hle by done.
    rewrite dval_quoteAmountWithTradingFee, <- Hq in Hup. unfold quote_of in Hup. lra. }
  pose proof (SettleTrade_run trade0 outboxEventID w (sy_store _ _ Hsys)) as Hrun. destruct (SettleTrade _ _ w) as [[res|e] w']; destruct Hrun as (_ & Hok' & Hrun).
  - destruct Hrun as (trade' & Hi' & Ho). rewrite Hi in Hi'. injection Hi' as <-. by destruct (Hno _ _ _ Hok' Ho).
  - exists e, w'. split; [done|]. destruct Hrun as [E|(_ & trade' & res & Hi' & Ho)]; [done|]. rewrite Hi in Hi'. injection Hi' as <-. by destruct (Hno _ _ _ Hok' Ho).
Qed.
End Services.
