(* ===== verification/TransferLive.v ===== *)
(** * Pending transfers can be closed

    In any state the services reach in which no open market buy has spent more than its
    budget, the first final outcome reported for a
    transfer that was submitted closes it: the journal is recorded, whatever
    else the user has on hold. *)
From S2P Require Import Prelude Decimal Model Errors Fee MarketRules Database Ledger LedgerInv LedgerSpec LedgerTheorems Sha256 OrderLedger Settlement TradePlan Store SettlementProofs Idempotency HoldCoordinator OrderService Transfers TransferInv LockedFunds OrderProofs TransferProofs Services.
From Stdlib Require Import Lia.

Section TransferLive.
Context {DL : DecimalLib} {DLaws : DecimalLaws DL} {API : MatchingAPI} {ETP : ExternalTransferProcessor}.
Local Open Scope Q_scope.

(** ** Confirmation journals are sound *)

Lemma outside_type r : externalAccountType r ∈ SystemAccountTypes /\ AllowsNegativeBalance (externalAccountType r) = true
  /\ account_checks (externalAccountType r) None = true.
Proof. unfold externalAccountType. case_decide; (split; [vm_compute; set_solver|done]). Qed.

Lemma user_type ty u : ty = AccountUserAvailable \/ ty = AccountUserLocked -> ty ∉ SystemAccountTypes /\ account_checks ty (Some u) = true.
Proof. destruct system_types as (? & ? & _). intros [-> | ->]; done. Qed.

Lemma confirmation_known r ref outcome i : confirmation_input r ref outcome = Ok (Some i) -> known_kinds i.
Proof.
  destruct (outside_type r) as (_ & _ & Hx). destruct (user_type AccountUserAvailable (tq_UserID r)) as [_ Ha]; [by left|].
  destruct (user_type AccountUserLocked (tq_UserID r)) as [_ Hl]; [by right|].
  unfold confirmation_input. destruct (tq_Direction r), outcome; intros; simplify_eq; (split; [vm_compute; set_solver|]; split; [vm_compute; set_solver|]; split; [done|]);
    cbn [deposit_settle_input withdraw_settle_input withdraw_refund_input in_Postings]; repeat (constructor; [done|]); try done.
  destruct (IsPositive _); [|done]. by constructor.
Qed.

Lemma confirmation_valid r ref outcome i : request_wf r -> confirmation_input r ref outcome = Ok (Some i) -> valid_journal i.
Proof.
  intros Hwf Hi. destruct (outside_type r) as (Hx & _). destruct (user_type AccountUserAvailable (tq_UserID r)) as [Ha _]; [by left|].
  destruct (user_type AccountUserLocked (tq_UserID r)) as [Hl _]; [by right|]. pose proof (rw_amount _ Hwf) as Hm. destruct (rw_fee _ Hwf) as [Hf Ef].
  pose proof (rw_asset _ Hwf) as Has. assert (Hp : ~ dval (Add (tq_Amount r) (tq_FeeAmount r)) == 0) by (rewrite dval_Add; lra).
  assert (Hn : ~ dval (Neg (Add (tq_Amount r) (tq_FeeAmount r))) == 0) by (rewrite dval_Neg, dval_Add; lra).
  assert (Hnm : ~ dval (Neg (tq_Amount r)) == 0) by (rewrite dval_Neg; lra). assert (Hm0 : ~ dval (tq_Amount r) == 0) by lra.
  assert (Hsys : forall x, ~ dval x == 0 -> posting_input_ok (mkPostingInput (externalAccountType r) None (tq_Asset r) x)) by (intros x E; by split_and!).
  unfold confirmation_input in Hi. destruct (tq_Direction r), outcome; simplify_eq; unfold valid_journal;
    cbn [deposit_settle_input withdraw_settle_input withdraw_refund_input in_Postings in_IdempotencyKey in_EventType in_ReferenceType in_ReversesJournalID];
    (split; [done|]; split; [done|]; split; [done|]; split; [cbn; lia|]; split; [split; [done | intros Hno; by destruct Hno]|]).
  - split; [rewrite !Forall_cons; split; [by apply Hsys|]; split; [by apply posting_user_ok | done]|].
    intros b. unfold asset_sum. rewrite !sum_where_cons, sum_where_nil. cbn [pi_Asset pi_Amount]. case_decide; [rewrite dval_Neg|]; lra.
  - split.
    + rewrite Forall_app, !Forall_cons. split; [split; [by apply posting_user_ok|]; split; [by apply Hsys | done]|].
      destruct (IsPositive _) eqn:E; [|done]. apply IsPositive_true in E. apply Forall_singleton. split; [cbn; congruence|]. split; [cbn; lra|]. split; [done|]. intros _. vm_compute. set_solver.
    + intros b. unfold asset_sum. rewrite sum_where_app, !sum_where_cons, sum_where_nil. cbn [pi_Asset pi_Amount].
      destruct (IsPositive _) eqn:E; [apply IsPositive_true in E; rewrite sum_where_cons|apply IsPositive_false in E]; rewrite sum_where_nil;
        cbn [pi_Asset pi_Amount]; rewrite ?Ef; case_decide; rewrite ?dval_Neg, ?dval_Add; lra.
  - split; [rewrite !Forall_cons; split; [by apply posting_user_ok|]; split; [by apply posting_user_ok | done]|].
    intros b. unfold asset_sum. rewrite !sum_where_cons, sum_where_nil. cbn [pi_Asset pi_Amount]. case_decide; [rewrite dval_Neg|]; lra.
Qed.

(** ** Nothing is overdrawn *)

Lemma withheld_available t s id r : sys_ok t s -> budgets_kept t -> tb_transfers t !! id = Some r -> pending_withdrawal r ->
  locked_amount r <= balance_of t (key_user AccountUserLocked (tq_UserID r) (tq_Asset r)).
Proof.
  intros Hsys Hb Hr Hp. fold (locked t (tq_UserID r) (tq_Asset r)). rewrite (sy_locked _ _ Hsys).
  assert (Heq : withheld (tq_UserID r) (tq_Asset r) r = locked_amount r) by (unfold withheld; by rewrite decide_True by done).
  pose proof (map_sum_nonneg _ _ (held_nonneg t s (tq_UserID r) (tq_Asset r) Hsys Hb)) as Hh.
  pose proof (map_sum_ge _ _ id r (withheld_nonneg t s (tq_UserID r) (tq_Asset r) (sy_transfers _ _ Hsys)) Hr) as Hge. rewrite Heq in Hge. lra.
Qed.

Lemma confirmation_covered t s id r ref outcome i : sys_ok t s -> budgets_kept t -> tb_transfers t !! id = Some r ->
  tq_Status r = TransferStatusProcessing -> confirmation_input r ref outcome = Ok (Some i) -> ~ overdraws t i.
Proof.
  intros Hsys Hb Hr Hst Hi (p & _ & Hneg & Hlt). set (k := posting_key p) in *.
  pose proof (tr_wf _ _ (sy_transfers _ _ Hsys) id r Hr) as Hwf. pose proof (rw_amount _ Hwf) as Hm. destruct (rw_fee _ Hwf) as [Hf _].
  assert (Hnn : 0 <= balance_of t k) by (apply (balance_nonneg t s _ (so_ledger _ _ (sy_store _ _ Hsys))); exact Hneg).
  assert (Hout : key_outside r <> k) by (intros E; unfold key_outside, k, posting_key, newAccountKey in E; injection E as E _ _; rewrite <- E in Hneg;
    by rewrite (proj1 (proj2 (outside_type r))) in Hneg).
  set (r' := r <| tq_Status := (if decide (outcome = TransferOutcomeSuccess) then TransferStatusCompleted else TransferStatusFailed) |>).
  assert (Hterm : IsTerminalOutcome outcome = true) by (unfold confirmation_input in Hi; by destruct (tq_Direction r), outcome).
  pose proof (confirm_effect r ref outcome _ r' k Hwf Hst ltac:(done) Hi (proj1 (terminal_matches outcome Hterm))) as He. cbn beta iota in He. rewrite He in Hlt.
  assert (Hlk : tq_Direction r = TransferDirectionWithdrawal -> on k (key_user AccountUserLocked (tq_UserID r) (tq_Asset r)) (locked_amount r) <= balance_of t k).
  { intros Hd. unfold on. case_decide as Ek; [|lra]. rewrite <- Ek. pose proof (withheld_available t s id r Hsys Hb Hr ltac:(split; [done | by right])). lra. }
  assert (Hav : forall x v, 0 <= v -> 0 <= on k x v) by (intros x v Hv; unfold on; case_decide; lra).
  assert (Hnv : forall x v, on k x (- v) == - on k x v) by (intros x v; unfold on; lra).
  pose proof (locked_amount_pos r Hwf) as Hlp. pose proof (Hav (key_user AccountUserAvailable (tq_UserID r) (tq_Asset r)) (locked_amount r) (Qlt_le_weak _ _ Hlp)).
  pose proof (Hav (key_user AccountUserAvailable (tq_UserID r) (tq_Asset r)) (dval (tq_Amount r)) (Qlt_le_weak _ _ Hm)).
  pose proof (Hav (newAccountKey AccountFeeIncome None (tq_FeeAsset r)) (dval (tq_FeeAmount r)) Hf).
  unfold transfer_effect in Hlt. change (key_outside r') with (key_outside r) in Hlt. change (locked_amount r') with (locked_amount r) in Hlt.
  change (tq_Direction r') with (tq_Direction r) in Hlt. change (tq_UserID r') with (tq_UserID r) in Hlt. change (tq_Asset r') with (tq_Asset r) in Hlt.
  change (tq_Amount r') with (tq_Amount r) in Hlt. change (tq_FeeAmount r') with (tq_FeeAmount r) in Hlt. change (tq_FeeAsset r') with (tq_FeeAsset r) in Hlt.
  rewrite Hst in Hlt. clear He. pose proof (proj1 (terminal_matches outcome Hterm)) as Hmt.
  change (if decide (outcome = TransferOutcomeSuccess) then TransferStatusCompleted else TransferStatusFailed) with (tq_Status r') in Hmt.
  generalize dependent (tq_Status r'). intros st Hlt Hmt.
  destruct (tq_Direction r), outcome, st; try discriminate Hterm; try discriminate Hmt; rewrite ?(on_zero_ne _ (key_outside r)), ?Hnv in Hlt by done;
    try specialize (Hlk eq_refl); lra.
Qed.

(** ** Every write goes through *)

Abbreviation never := (fun _ => False).

Lemma Record_covered i t s : store_ok t s -> key_ok i t -> valid_journal i -> known_kinds i -> find_journal t (in_IdempotencyKey i) = None ->
  ~ overdraws t i -> wp (Record_ i) (fun _ t' _ => same_rest t t') never t s.
Proof.
  intros Hok Hkey Hv Hk Hf Ho. eapply wp_mono; [by apply Record_store| |].
  - intros [e c] t' s' _ (_ & Hrest & _). done.
  - intros err [Hi|e' _ Hf' _|name _ _ Hj|_ _ Hb|_ _ Ho' _].
    + by rewrite (proj2 (validateJournalInput_Ok i) Hv) in Hi.
    + congruence.
    + by destruct (known_kinds_journal t i name Hv Hk).
    + by destruct (known_kinds_accounts i err Hk).
    + done.
Qed.

Lemma record_confirmation_live t s id r outcome : sys_ok t s -> budgets_kept t -> tb_transfers t !! id = Some r ->
  tq_Status r = TransferStatusProcessing -> IsTerminalOutcome outcome = true ->
  wp (recordConfirmationJournal r outcome)
    (fun jid t' _ => same_rest t t' /\ (jid = None -> tq_Direction r = TransferDirectionDeposit /\ outcome = TransferOutcomeFailure)) never t s.
Proof.
  intros Hsys Hb Hr Hst Ho. pose proof (tr_wf _ _ (sy_transfers _ _ Hsys) id r Hr) as Hwf. unfold recordConfirmationJournal.
  destruct (tq_ExternalRef r) as [ref|] eqn:Eref; [|rewrite (rw_ref _ Hwf), Hst in Eref; done]. apply wp_bind, wp_lift.
  destruct (confirmation_input r ref outcome) as [[i|]|] eqn:Ei.
  - pose proof (confirmation_key _ _ _ _ Ei) as Hk. apply wp_bind. eapply wp_mono; [apply Record_covered| |done].
    + apply Hsys.
    + exact (confirm_key_ok i ref t Hk).
    + exact (confirmation_valid r ref outcome i Hwf Ei).
    + exact (confirmation_known r ref outcome i Ei).
    + exact (confirm_key_new t s id r ref _ (sy_transfers _ _ Hsys) Hr Hst Eref Hk).
    + exact (confirmation_covered t s id r ref outcome i Hsys Hb Hr Hst Ei).
    + intros [e c] t' s' _ Hrest. by apply wp_ret.
  - apply wp_ret. split; [done|]. intros _. unfold confirmation_input in Ei. by destruct (tq_Direction r), outcome.
  - unfold confirmation_input in Ei. by destruct (tq_Direction r), outcome.
Qed.

Lemma ref_own t s id r r' : transfers_ok t s -> tb_transfers t !! id = Some r -> tq_ExternalRef r' = tq_ExternalRef r -> ref_taken t id r' = false.
Proof.
  intros Hok Hr E. unfold ref_taken. destruct (tq_ExternalRef r') as [ref|] eqn:Er; [|done]. apply bool_decide_eq_false. intros Hex.
  apply Exists_exists in Hex as (x & Hx & Hne & Ex). apply elem_of_transfers in Hx as [j Hj].
  assert (j = id) as -> by (by eapply (tr_refs _ _ Hok j id)). apply Hne. by rewrite (proj1 (tr_ids _ _ Hok id x Hj)).
Qed.

Lemma update_live op id guard f t s r (Q : unit -> Tables -> Seqs -> Prop) : tb_transfers t !! id = Some r -> guard r = true -> columns_ok (f r) ->
  ref_taken t id (f r) = false -> Q tt (t <| tb_transfers := <[id := f r]> (tb_transfers t) |>) s -> wp (update_request op id guard f) Q never t s.
Proof.
  intros Hr Hg [Hc Hl] Hf HQ. unfold update_request. apply wp_bind, wp_stmt, wp_bind, wp_get. rewrite Hr, Hg.
  destruct (tq_ExternalRef (f r)) eqn:E; rewrite ?Hl, Hc, Hf; by apply wp_put.
Qed.

(** The row of a confirmed transfer. *)
Definition confirmed (r : TransferRequest) (status : TransferStatus) (journalID : option N) (reason : string) : TransferRequest :=
  r <| tq_Status := status |> <| tq_ResolutionJournalID := journalID |> <| tq_ReviewRequiredAt := None |>
    <| tq_ReviewReason := None |> <| tq_NextCheckAt := None |> <| tq_FailureReason := reason |>.

Lemma confirmed_columns r status jid reason : request_wf r -> tq_Status r = TransferStatusProcessing -> IsTerminalStatus status = true ->
  (jid = None -> tq_Direction r = TransferDirectionDeposit /\ status = TransferStatusFailed) -> columns_ok (confirmed r status jid reason).
Proof.
  intros Hwf Hst Hs Hj. pose proof (rw_ref _ Hwf) as Href. destruct (rw_columns _ Hwf) as [Hc Hl]. split; [|done].
  unfold transfer_checks in *. rewrite !andb_true_iff in Hc. destruct Hc as ((((((((H1 & H2) & H3) & H4) & H5) & _) & _) & H8) & _).
  change (tq_Rail (confirmed r status jid reason)) with (tq_Rail r). change (tq_Amount (confirmed r status jid reason)) with (tq_Amount r).
  change (tq_FeeAmount (confirmed r status jid reason)) with (tq_FeeAmount r). change (tq_Asset (confirmed r status jid reason)) with (tq_Asset r).
  change (tq_Direction (confirmed r status jid reason)) with (tq_Direction r). change (tq_HoldJournalID (confirmed r status jid reason)) with (tq_HoldJournalID r).
  change (tq_ExternalRef (confirmed r status jid reason)) with (tq_ExternalRef r). change (tq_Status (confirmed r status jid reason)) with status.
  change (tq_ResolutionJournalID (confirmed r status jid reason)) with jid.
  change (tq_ReviewRequiredAt (confirmed r status jid reason)) with (@None Z). change (tq_ReviewReason (confirmed r status jid reason)) with (@None string).
  rewrite H1, H2, H3, H4, H5. cbn [andb].
  assert (Hr : bool_decide (tq_ExternalRef r <> None) = true) by (apply bool_decide_eq_true; rewrite Href, Hst; done). rewrite Hr, orb_true_r.
  destruct jid as [j|]; [|destruct (Hj eq_refl) as [-> ->]; done]. rewrite (bool_decide_eq_true_2 (Some j <> None)) by done. by rewrite !orb_true_r.
Qed.

Lemma confirm_live t s id r outcome payload : sys_ok t s -> budgets_kept t -> tb_transfers t !! id = Some r ->
  tq_Status r = TransferStatusProcessing -> IsTerminalOutcome outcome = true ->
  wp (confirmTerminal r outcome payload)
    (fun _ t' _ => exists r', tb_transfers t' !! id = Some r' /\ matchesTerminalOutcome (tq_Status r') outcome = true) never t s.
Proof.
  intros Hsys Hb Hr Hst Ho. pose proof (sy_transfers _ _ Hsys) as Htr. pose proof (tr_wf _ _ Htr id r Hr) as Hwf.
  unfold confirmTerminal. rewrite (proj1 (tr_ids _ _ Htr id r Hr)). apply wp_bind.
  eapply wp_mono; [by apply (record_confirmation_live t s id r)| |done]. intros jid t1 s1 _ [(_ & _ & _ & _ & _ & _ & Htf & _) Hj].
  set (status := if decide (outcome = TransferOutcomeSuccess) then TransferStatusCompleted else TransferStatusFailed).
  destruct (terminal_matches outcome Ho) as [Hm Hc]. fold status in Hm, Hc.
  assert (Hgen : forall reason, wp (repo_ConfirmTerminal id status jid reason)
    (fun _ t' _ => exists r', tb_transfers t' !! id = Some r' /\ matchesTerminalOutcome (tq_Status r') outcome = true) never t1 s1).
  { intros reason. apply (update_live _ _ _ _ _ _ r).
    - by rewrite Htf.
    - unfold has_status. by rewrite Hst.
    - apply confirmed_columns; try done. intros E. destruct (Hj E) as [Hd ->]. done.
    - transitivity (ref_taken t id (confirmed r status jid reason)); [|by apply (ref_own t s id r)].
      unfold ref_taken, transfers. rewrite Htf. reflexivity.
    - exists (confirmed r status jid reason). split; [apply lookup_insert_eq | exact Hm]. }
  unfold status in Hgen. destruct (decide _); apply Hgen.
Qed.

(** An event the database accepts and has not seen. *)
Definition new_event (t : Tables) (eventKey : string) : Prop :=
  eventKey <> "" /\ too_long eventKey 160 = false /\ Forall (fun e => te_EventKey e <> eventKey) (tb_transfer_events t).

Lemma resolve_live t s now i r : sys_ok t s -> budgets_kept t -> tb_transfers t !! ri_TransferRequestID i = Some r ->
  tq_Status r = TransferStatusProcessing -> IsTerminalOutcome (ri_Outcome i) = true -> new_event t (ri_EventKey i) ->
  wp (resolve_body now i)
    (fun _ t' _ => exists r', tb_transfers t' !! ri_TransferRequestID i = Some r' /\ matchesTerminalOutcome (tq_Status r') (ri_Outcome i) = true) never t s.
Proof.
  intros Hsys Hb Hr Hst Ho (_ & Hlen & Hnew). apply wp_bind. unfold LockByID. apply wp_bind, wp_query. rewrite Hr. apply wp_ret.
  apply wp_bind. unfold InsertEventIfAbsent. apply wp_bind, wp_stmt, wp_bind, wp_nextval. intros s' Hs _ _. apply wp_bind, wp_get.
  cbn [te_EventKey te_Outcome te_TransferRequestID resolve_event]. rewrite Hlen.
  assert (Hout : (match ri_Outcome i with TransferOutcomeOther _ => true | _ => false end) = false) by (by destruct (ri_Outcome i)). rewrite Hout.
  rewrite decide_False by (intros Hex; apply Exists_exists in Hex as (e & He & Ek); rewrite Forall_forall in Hnew; by apply (Hnew e)).
  rewrite Hr. apply wp_bind, wp_put, wp_ret. cbn [negb]. rewrite Hst. set (t1 := t <| tb_transfer_events := _ |>).
  apply (confirm_live t1 s' (ri_TransferRequestID i) r); try done. apply sys_events. by eapply sys_ok_seq.
Qed.

(** C20 In any reachable state in which no open market buy has spent more than its
    budget (the rounding of [marketBuyExecutableQuoteAmount] can break this when the user
    has another hold), the first final outcome that arrives for a submitted transfer
    closes it, if the database does its part: a withdrawal can be paid out or given back
    in full. *)
Theorem pending_transfer_closes w now i r : rtc service_step empty_world w -> budgets_kept (w_tables w) ->
  tb_transfers (w_tables w) !! ri_TransferRequestID i = Some r -> tq_Status r = TransferStatusProcessing ->
  IsTerminalOutcome (ri_Outcome i) = true -> new_event (w_tables w) (ri_EventKey i) ->
  exists w' r', ResolveTransfer now i (mkWorld (w_tables w) (w_seqs w) []) = (Ok tt, w')
    /\ tb_transfers (w_tables w') !! ri_TransferRequestID i = Some r' /\ matchesTerminalOutcome (tq_Status r') (ri_Outcome i) = true.
Proof.
  intros Hr0 Hb Hr Hst Ho Hev. destruct (reached_ok _ _ Hr0 (empty_ok ∅ [])) as [Hsys _].
  pose proof (tr_ids _ _ (sy_transfers _ _ Hsys) _ r Hr) as [_ Hid]. unfold ResolveTransfer. rewrite Ho. cbn [negb].
  rewrite decide_False by (intros [E|E]; [lia | by destruct Hev]).
  pose proof (transaction_wp _ _ _ (w_tables w) (w_seqs w) [] (resolve_live _ _ now i r Hsys Hb Hr Hst Ho Hev)) as Ht.
  destruct (transaction _ _) as [[[]|e] w']; destruct Ht as (_ & _ & Ht).
  - destruct Ht as (r' & H1 & H2). by exists w', r'.
  - by destruct Ht as [[_ [[_ Hn]|[]]]|(_ & Hn & _)].
Qed.
End TransferLive.
