(* ===== verification/ServiceFixtures.v ===== *)
(** * Concrete runs of the services

    The theorems of the service layer applied to small concrete histories: two
    funded users, a buy and a sell order, a trade between them. *)
From S2P Require Import Prelude Decimal Model Errors Fee MarketRules Database Ledger LedgerInv LedgerSpec LedgerTheorems Sha256 OrderLedger Queries Settlement TradePlan Store SettlementProofs SettlementBatch SettlementBatchProofs Idempotency HoldCoordinator OrderService Transfers TransferInv LockedFunds OrderProofs HoldBatchProofs TransferProofs Services TransferLive.
From Stdlib Require Import Lia.

Module ServiceFixtures.
Import FixedPoint.

(** An engine that takes every order. *)
#[export] Instance accepting : MatchingAPI := {|
  engine := list Order;
  api_IsIntakeAdmissible := fun _ _ => true;
  api_TrySubmitOrder := fun order e => (true, e ++ [order]) |}.

Definition idle : option (engine (MatchingAPI:=accepting)) := Some [].

Definition w0 : World := empty_world.

(** ** The ledger *)

Definition deposit : JournalInput :=
  mkJournalInput JournalEventDeposit "deposit:1" JournalReferenceTransfer 1 None
    [mkPostingInput AccountExternalBank None "KRW" (NewFromInt (-500)); mkPostingInput AccountUserAvailable (Some 1%N) "KRW" (NewFromInt 500)].

(** The acknowledgement of the first commit is lost, then a statement fails. *)
Definition schedules : list (list fault) :=
  [[Fine; Fine; Fine; Fine; Fine; Fine; Fine; Fine; Lost]; [Fine; Fails "40001"]; []].

Lemma record_exactly_once_witness :
  match (attempts (Record_ deposit) schedules w0).1 with
  | Some (e, _) => recorded deposit e (w_tables w0) (w_tables (attempts (Record_ deposit) schedules w0).2)
  | None => w_tables (attempts (Record_ deposit) schedules w0).2 = w_tables w0
            \/ exists e, recorded deposit e (w_tables w0) (w_tables (attempts (Record_ deposit) schedules w0).2)
  end.
Proof.
  apply (record_exactly_once deposit w0 schedules); [apply ledger_ok_empty | reflexivity | apply surjective_pairing].
Defined.

Example retried_once : length (tb_journals (w_tables (attempts (Record_ deposit) schedules w0).2)) = 1%nat.
Proof. vm_compute. reflexivity. Qed.

Definition w1 : World := (transaction (Record_ deposit) w0).2.

Lemma w1_ok : ledger_ok (w_tables w1) (w_seqs w1).
Proof.
  apply (transaction_keeps (Record_ deposit) ledger_ok w0); [intros; by eapply ledger_ok_seq | apply ledger_ok_empty|].
  eapply wp_mono; [apply Record_spec, ledger_ok_empty | by intros [e c] t' s' _ [? _] | done].
Qed.

(** The same key for another amount. *)
Definition other_deposit : JournalInput :=
  mkJournalInput JournalEventDeposit "deposit:1" JournalReferenceTransfer 1 None
    [mkPostingInput AccountExternalBank None "KRW" (NewFromInt (-600)); mkPostingInput AccountUserAvailable (Some 1%N) "KRW" (NewFromInt 600)].

Definition deposit_entry : JournalEntry := mkJournalEntry 1 JournalEventDeposit "deposit:1" JournalReferenceTransfer 1 None.

Lemma key_reuse_detected_witness :
  find_journal (w_tables w1) "deposit:1" = Some deposit_entry /\
  w_tables (transaction (Record_ other_deposit) w1).2 = w_tables w1 /\
  answered other_deposit deposit_entry (w_tables w1) (transaction (Record_ other_deposit) w1).1.
Proof.
  split; [vm_compute; reflexivity|]. apply (key_reuse_detected other_deposit deposit_entry w1).
  - apply w1_ok.
  - apply validateJournalInput_Ok. vm_compute. reflexivity.
  - vm_compute. reflexivity.
  - apply surjective_pairing.
Defined.

Example reused_key_conflicts : DomainErrorKind match (transaction (Record_ other_deposit) w1).1 with Err e => e | Ok _ => GoPanic end = Some ErrorKindConflict.
Proof. vm_compute. reflexivity. Qed.

Definition withdrawal : JournalInput :=
  mkJournalInput JournalEventWithdrawal "withdrawal:1" JournalReferenceTransfer 2 None
    [mkPostingInput AccountUserAvailable (Some 1%N) "KRW" (NewFromInt (-700)); mkPostingInput AccountExternalBank None "KRW" (NewFromInt 700)].

Lemma record_decides_witness :
  let '(r, w') := transaction (Record_ withdrawal) (mkWorld (w_tables w1) (w_seqs w1) []) in
  (~ overdraws (w_tables w1) withdrawal /\ exists e, r = Ok (e, true) /\ recorded withdrawal e (w_tables w1) (w_tables w') /\ ledger_ok (w_tables w') (w_seqs w'))
  \/ (overdraws (w_tables w1) withdrawal /\ w_tables w' = w_tables w1 /\ exists err, r = Err err /\ DomainErrorKind err = Some ErrorKindConflict).
Proof.
  apply (record_decides withdrawal (w_tables w1) (w_seqs w1)).
  - apply w1_ok.
  - apply validateJournalInput_Ok. vm_compute. reflexivity.
  - split; [vm_compute; set_solver|]. split; [vm_compute; set_solver|]. split; [reflexivity|]. repeat constructor.
  - vm_compute. reflexivity.
Defined.

Definition reversal_entry : JournalEntry := mkJournalEntry 2 JournalEventReversal "reversal:1" JournalReferenceTransfer 1 (Some 1%N).

Lemma reverse_cancels_witness :
  let w' := (transaction (Reverse 1) w1).2 in
  j_ReversesJournalID reversal_entry = Some 1%N
  /\ (forall a, a ∈ tb_accounts (w_tables w') -> (effect_on (w_tables w') 1 a + effect_on (w_tables w') (j_ID reversal_entry) a == 0)%Q)
  /\ ledger_ok (w_tables w') (w_seqs w')
  /\ (forall fs e2 w2, transaction (Reverse 1) (mkWorld (w_tables w') (w_seqs w') fs) = (Ok e2, w2) -> w_tables w2 = w_tables w').
Proof.
  apply (reverse_cancels 1 w1 reversal_entry); [apply w1_ok|].
  rewrite (surjective_pairing (transaction (Reverse 1) w1)) at 1. f_equal.
Defined.

(** ** Orders and trades *)

Definition buy_request : CreateOrderInput := mkCreateOrderInput 1 "btc" "buy" "limit" "10000" "1" "" "key-1".
Definition sell_request : CreateOrderInput := mkCreateOrderInput 2 "BTC" "SELL" "" "10000" "1.0" "" "key-2".
Definition run_create (input : CreateOrderInput) (w : World) : World :=
  (CreateOrder (holdWithIdempotency NoCoordinator) None 0 input w idle).1.2.

Definition funded1 : World := (FundWallet 1 "KRW" "20000" "a" w0).2.
Definition funded2 : World := (FundWallet 2 "BTC" "3" "b" funded1).2.
Definition ordered1 : World := run_create buy_request funded2.
Definition ordered2 : World := run_create sell_request ordered1.

Example both_orders : map (fun '(id, o) => (id, r_Status o, DString (r_Amount o))) (map_to_list (tb_orders (w_tables ordered2)))
  = [(2%N, OrderStatusPending, "1"%string); (1%N, OrderStatusPending, "1"%string)].
Proof. vm_compute. reflexivity. Qed.

Definition trade1 : Trade :=
  mkTrade 0 "" 7 "engine-1-1:1" "BTC" (NewFromInt 9000) (RequireFromString "0.5") Zero Zero "" Zero "" 0 1 2.
Definition trade1_in : Trade := match settlement_input trade1 with Ok t => t | Err _ => trade1 end.
Definition settled1 : World := (SettleTrade trade1 0 ordered2).2.

Example settled_balances : map (fun '(id, b) => (id, DString (b_Balance b))) (map_to_list (tb_balances (w_tables settled1)))
  = [(10%N, "0.5"%string); (6%N, "5002.5"%string); (12%N, "4497.75"%string); (8%N, "0.5"%string); (4%N, "2"%string);
     (2%N, "10495.25"%string); (9%N, "4.5"%string); (3%N, "-3"%string); (1%N, "-20000"%string)].
Proof. vm_compute. reflexivity. Qed.

(** The state after each call is reachable. *)
Lemma step_funded1 : service_step w0 funded1.
Proof. exact (step_fund 1 "KRW" "20000" "a" w0). Qed.
Lemma step_funded2 : service_step funded1 funded2.
Proof. exact (step_fund 2 "BTC" "3" "b" funded1). Qed.
Lemma step_ordered1 : service_step funded2 ordered1.
Proof. exact (step_create NoCoordinator None 0 buy_request idle funded2 (Forall_nil_2 _)). Qed.
Lemma step_ordered2 : service_step ordered1 ordered2.
Proof. exact (step_create NoCoordinator None 0 sell_request idle ordered1 (Forall_nil_2 _)). Qed.

Lemma reach_ordered2 : rtc service_step w0 ordered2.
Proof.
  eapply rtc_l; [exact step_funded1|]. eapply rtc_l; [exact step_funded2|]. eapply rtc_l; [exact step_ordered1|].
  eapply rtc_l; [exact step_ordered2 | apply rtc_refl].
Qed.

Lemma ok_ordered2 : ok_world ordered2.
Proof. exact (reached_ok w0 ordered2 reach_ordered2 (empty_ok ∅ [])). Qed.

Definition no_order : OrderRow := mkOrderRow 0 0 Zero Zero "" OrderSideBuy OrderStatusPending Zero Zero 0 OrderTypeLimit Zero.
Definition order_in (w : World) (id : N) : OrderRow := default no_order (tb_orders (w_tables w) !! id).
Definition buy1 : OrderRow := order_in ordered2 1.
Definition sell1 : OrderRow := order_in ordered2 2.

Lemma found_buy : tb_orders (w_tables ordered2) !! 1%N = Some buy1.
Proof. vm_cast_no_check (eq_refl (Some buy1)). Qed.
Lemma found_sell : tb_orders (w_tables ordered2) !! 2%N = Some sell1.
Proof. vm_cast_no_check (eq_refl (Some sell1)). Qed.
Lemma found_trade1 : settlement_input trade1 = Ok trade1_in.
Proof. vm_cast_no_check (eq_refl (settlement_input trade1)). Qed.

Lemma trade1_new : find_trade (w_tables ordered2) (t_IdempotencyKey trade1_in) = None.
Proof. vm_cast_no_check (eq_refl (None : option Trade)). Qed.
Lemma trade1_allowed : trade_violation (w_tables ordered2) trade1_in = None.
Proof. vm_compute. reflexivity. Qed.

Lemma trade1_matched : matched trade1_in buy1 sell1.
Proof. vm_compute. intuition (congruence || auto). Qed.

Lemma trade1_room : has_room trade1_in buy1 /\ has_room trade1_in sell1.
Proof. vm_compute. intuition congruence. Qed.

Lemma orders_of_ordered2 : map_to_list (tb_orders (w_tables ordered2)) = [(2%N, sell1); (1%N, buy1)].
Proof. vm_cast_no_check (eq_refl ([(2%N, sell1); (1%N, buy1)])). Qed.

Lemma ordered2_budgets : budgets_kept (w_tables ordered2).
Proof.
  intros id o Ho. apply elem_of_map_to_list in Ho. rewrite orders_of_ordered2 in Ho.
  assert (Hn : forall o', o' = sell1 \/ o' = buy1 -> r_OrderType o' <> OrderTypeMarket).
  { intros o' [-> | ->]; vm_compute; congruence. }
  intros Hm. destruct (Hn o); [|exact Hm]. apply elem_of_cons in Ho as [E|Ho]; [|apply list_elem_of_singleton in Ho as E].
  - left. exact (f_equal snd E).
  - right. exact (f_equal snd E).
Qed.

Lemma trade1_from_engine : engine_trade trade1 (w_tables ordered2).
Proof.
  split; [reflexivity|]. intros trade buy Ht Hb. rewrite found_trade1 in Ht. assert (trade = trade1_in) as -> by congruence. 
  assert (E : t_BuyOrderID trade1_in = 1%N) by (vm_compute; reflexivity). rewrite E, found_buy in Hb.
  assert (buy = buy1) as -> by congruence. vm_compute. congruence.
Qed.
Definition plan1 : tradeSettlementPlan :=
  match planTradeSettlement trade1_in buy1 (mkParticipants 1 2) with Ok plan => plan | Err _ => mkPlan [] Zero end.

Lemma trade_journal_valid_witness :
  validateJournalInput (trade_input trade1_in plan1) = Ok tt <-> (execution_debit trade1_in <= reserved_debit buy1 trade1_in)%Q.
Proof.
  apply (trade_journal_valid trade1_in buy1 (mkParticipants 1 2) plan1).
  - split; [vm_compute; congruence|]. vm_compute. intuition congruence.
  - vm_cast_no_check (eq_refl (planTradeSettlement trade1_in buy1 (mkParticipants 1 2))).
Defined.

Lemma settle_atomic_witness :
  let '(r, w') := SettleTrade trade1 0 ordered2 in
  store_ok (w_tables w') (w_seqs w') /\
  match r with
  | Ok res => exists trade, settlement_input trade1 = Ok trade
                /\ settle_outcome trade 0 (w_tables ordered2) res (w_tables w')
  | Err e => w_tables w' = w_tables ordered2
             \/ (e = DBError "" /\ exists trade res, settlement_input trade1 = Ok trade
                   /\ settle_outcome trade 0 (w_tables ordered2) res (w_tables w'))
  end.
Proof. exact (settle_atomic trade1 0 ordered2 (sy_store _ _ (proj1 ok_ordered2))). Defined.

Lemma trade1_covered : covered trade1_in buy1 sell1 (w_tables ordered2).
Proof.
  exact (open_orders_cover _ _ trade1 trade1_in buy1 sell1 (proj1 ok_ordered2) ordered2_budgets (proj1 trade1_from_engine) found_trade1
    found_buy found_sell trade1_matched (proj1 trade1_room) (proj2 trade1_room) ltac:(vm_compute; congruence)).
Qed.

Lemma covered_trade_settles_witness :
  exists res w', SettleTrade trade1 0 (mkWorld (w_tables ordered2) (w_seqs ordered2) []) = (Ok res, w') /\ sr_Applied res = true.
Proof.
  exact (covered_trade_settles trade1 trade1_in 0 buy1 sell1 _ _ (sy_store _ _ (proj1 ok_ordered2)) found_trade1 trade1_new trade1_allowed trade1_covered).
Defined.

(** The acknowledgement of the first commit is lost. *)
Definition trade_schedules : list (list fault) := [[Fine; Fails "40001"]; repeat Fine 40 ++ [Lost]; []].

Lemma trade1_prepared : prepared trade1_in.
Proof. vm_compute. intuition congruence. Qed.

Lemma settle_exactly_once_witness :
  let '(r, w') := attempts (settle_body trade1_in 0) trade_schedules ordered2 in
  (r = None /\ w_tables w' = w_tables ordered2)
  \/ exists id t1, tb_trades t1 = tb_trades (w_tables ordered2) ++ [trade1_in <| t_ID := id |>]
       /\ trade_settled (trade1_in <| t_ID := id |>) (w_tables ordered2) t1 /\ outbox_only t1 (w_tables w')
       /\ match r with Some res => sr_TradeID res = id | None => True end.
Proof.
  destruct (attempts (settle_body trade1_in 0) trade_schedules ordered2) as [r w'] eqn:E.
  exact (settle_exactly_once trade1_in 0 ordered2 trade_schedules r w' (sy_store _ _ (proj1 ok_ordered2)) trade1_prepared trade1_new E).
Defined.

Definition request_a : OrderFingerprintInput := mkFingerprintInput 1 "BTC" "BUY" "LIMIT" (RequireFromString "100.50") (NewFromInt 1) Zero.
Definition request_b : OrderFingerprintInput := mkFingerprintInput 1 "BTC" "BUY" "LIMIT" (RequireFromString "100.5") (NewFromInt 1) Zero.

Lemma fingerprint_identifies_witness : fingerprint_bytes request_a = fingerprint_bytes request_b <-> same_request request_a request_b.
Proof. apply (fingerprint_identifies request_a request_b); repeat constructor. Defined.

Lemma services_sound_witness : sound (w_tables settled1).
Proof.
  refine (services_sound settled1 (rtc_r _ _ _ reach_ordered2 _)). exact (step_settle trade1 0 ordered2 trade1_from_engine).
Defined.

Lemma open_trade_settles_witness :
  exists res w', SettleTrade trade1 7 (mkWorld (w_tables ordered2) (w_seqs ordered2) []) = (Ok res, w') /\ sr_Applied res = true.
Proof.
  exact (open_trade_settles ordered2 trade1 trade1_in 7 buy1 sell1 reach_ordered2 ordered2_budgets (proj1 trade1_from_engine) found_trade1
    trade1_new trade1_allowed found_buy found_sell trade1_matched (proj1 trade1_room) (proj2 trade1_room) ltac:(vm_compute; congruence)).
Defined.
(** The first request again, with another price. *)
Definition changed_request : CreateOrderInput := mkCreateOrderInput 1 "btc" "buy" "limit" "9000" "1" "" "key-1".
Definition no_key : OrderIdempotencyKey := mkIdempotencyKey 0 0 "" "" 0 None OutcomeRejected.
Definition key1 : OrderIdempotencyKey := default no_key (tb_idempotency (w_tables ordered1) !! 1%N).

Lemma found_key1 : tb_idempotency (w_tables ordered1) !! 1%N = Some key1.
Proof.
  assert (H : bool_decide (is_Some (tb_idempotency (w_tables ordered1) !! 1%N)) = true) by (vm_compute; reflexivity).
  apply bool_decide_eq_true in H as [k Hk]. unfold key1. rewrite Hk. reflexivity.
Qed.

Lemma known_key_creates_nothing_witness :
  match parse_request changed_request with
  | Ok (key, order, fp) =>
      let '(reply, w', me') := CreateOrder persistAndHoldIdempotent None 0 changed_request ordered1 idle in
      w_tables w' = w_tables ordered1 /\ me' = idle /\ known_reply key1 (fingerprint_input order) reply
  | Err _ => False
  end.
Proof.
  assert (Hok : is_ok (parse_request changed_request) = true) by (vm_compute; reflexivity).
  destruct (parse_request changed_request) as [[[key order] fp]|e] eqn:E; [|discriminate Hok].
  apply (known_key_creates_nothing None 0 changed_request ordered1 idle key order fp 1 key1
    (ok_world_step _ _ step_ordered1 (ok_world_step _ _ step_funded2 (ok_world_step _ _ step_funded1 (empty_ok ∅ [])))) E found_key1).
  assert (Hk : (default ("", no_order, "") (match parse_request changed_request with Ok r => Some r | Err _ => None end)).1.1 = "key-1")
    by (vm_compute; reflexivity).
  rewrite E in Hk. cbn in Hk. rewrite Hk. vm_compute. reflexivity.
Defined.

Example changed_request_conflicts :
  (rp_Err (CreateOrder persistAndHoldIdempotent None 0 changed_request ordered1 idle).1.1) ≫= DomainErrorKind = Some ErrorKindConflict.
Proof. vm_compute. reflexivity. Qed.
Definition listed (w : World) (userID : N) : list UserAssetBalance :=
  match ListUserBalances userID (mkWorld (w_tables w) (w_seqs w) []) with (Ok rows, _) => rows | _ => [] end.

Example listed_two : map (fun row => (ub_Asset row, DString (ub_Available row), DString (ub_Locked row))) (listed settled1 1)
  = [("BTC", "0.5", "0"); ("KRW", "10495.25", "5002.5")].
Proof. vm_compute. reflexivity. Qed.

Lemma listing_exact_witness :
  StronglySorted String.le (map ub_Asset (listed ordered2 1)) /\ NoDup (map ub_Asset (listed ordered2 1))
  /\ w_tables (ListUserBalances 1 (mkWorld (w_tables ordered2) (w_seqs ordered2) [])).2 = w_tables ordered2
  /\ (forall asset, asset ∈ map ub_Asset (listed ordered2 1) <->
        is_Some (find_account (w_tables ordered2) (wallet_key AccountUserAvailable 1 asset))
        \/ is_Some (find_account (w_tables ordered2) (wallet_key AccountUserLocked 1 asset)))
  /\ Forall (fun row => (dval (ub_Available row) == balance_of (w_tables ordered2) (wallet_key AccountUserAvailable 1 (ub_Asset row)))%Q
       /\ (dval (ub_Locked row) == balance_of (w_tables ordered2) (wallet_key AccountUserLocked 1 (ub_Asset row)))%Q) (listed ordered2 1).
Proof.
  exact (listing_exact (w_tables ordered2) (w_seqs ordered2) [] 1 (listed ordered2 1)
    (ListUserBalances 1 (mkWorld (w_tables ordered2) (w_seqs ordered2) [])).2 (so_ledger _ _ (sy_store _ _ (proj1 ok_ordered2))) eq_refl).
Defined.

(** ** A batch of the hold coordinator *)

Definition parsed (input : CreateOrderInput) : OrderRow := match parseOrderRequest input with Ok o => o | Err _ => new_order 1 "BTC" OrderSideBuy OrderTypeLimit Zero Zero Zero end.
Definition big_request : CreateOrderInput := mkCreateOrderInput 1 "btc" "buy" "limit" "10000" "3" "" "key-3".
Definition with_key (key print : string) : option idempotencyContext := Some (mkIdem key print 1).

(** A buy, the same again, another order under its key, a sell without a key, and a buy the user cannot pay. *)
Definition batch : list holdRequest :=
  [mkHoldRequest (parsed buy_request) (with_key "key-1" "f1"); mkHoldRequest (parsed buy_request) (with_key "key-1" "f1");
   mkHoldRequest (parsed big_request) (with_key "key-1" "f2"); mkHoldRequest (parsed sell_request) None; mkHoldRequest (parsed big_request) (with_key "key-3" "f3")].

Definition answers (r : result error (list holdResult)) : list (option N * option N * bool) :=
  match r with
  | Ok results => map (fun r => (r_ID <$> hr_Order r, r_ID <$> owner_of r, bool_decide (hr_Err r = None))) results
  | Err _ => []
  end.

Example batch_answers : answers (processBatch batch funded2).1
  = [(Some 1, Some 1, true); (Some 1, None, true); (None, None, false); (Some 2, Some 2, true); (None, None, false)]%N.
Proof. vm_compute. reflexivity. Qed.

(** The transaction of the batch fails; the requests are tried one by one. *)
Example batch_falls_back : answers (processBatch batch (mkWorld (w_tables funded2) (w_seqs funded2) [Fine; Fine; Fails "40001"])).1
  = [(Some 1, Some 1, true); (Some 1, None, true); (None, None, false); (Some 2, Some 2, true); (Some 0, None, false)]%N.
Proof. vm_compute. reflexivity. Qed.

Lemma parsed_new input : match parseOrderRequest input with Ok _ => true | Err _ => false end = true -> new_order_ok (parsed input).
Proof. unfold parsed. destruct (parseOrderRequest input) as [o|e] eqn:E; [|done]. intros _. by apply (parse_new_ok input o). Qed.

Lemma parsed_buy : new_order_ok (parsed buy_request).
Proof. apply parsed_new. vm_compute. reflexivity. Qed.
Lemma parsed_sell : new_order_ok (parsed sell_request).
Proof. apply parsed_new. vm_compute. reflexivity. Qed.
Lemma parsed_big : new_order_ok (parsed big_request).
Proof. apply parsed_new. vm_compute. reflexivity. Qed.

Lemma batch_new : Forall (fun req => new_order_ok (hq_order req)) batch.
Proof. unfold batch. rewrite !Forall_cons. cbn [hq_order]. pose proof parsed_buy. pose proof parsed_sell. pose proof parsed_big. intuition. Qed.

Lemma ok_funded2 : ok_world funded2.
Proof. exact (reached_ok w0 funded2 (rtc_l _ _ _ _ step_funded1 (rtc_once _ _ step_funded2)) (empty_ok ∅ [])). Qed.

Lemma batches_create_what_they_report_witness :
  exists results w', processBatch batch funded2 = (Ok results, w') /\ ok_world w' /\ handed_results batch results (w_tables funded2) (w_tables w')
    /\ exactly_handed results (w_tables funded2) (w_tables w').
Proof.
  destruct (proj1 (batches_create_what_they_report batch funded2 ok_funded2 batch_new)) as (results & w' & E & H1 & H2 & H3).
  exists results, w'. split; [exact E|]. split; [exact H1|]. split; [exact H2|]. apply H3. assert (Hf : w_faults funded2 = []) by (vm_compute; reflexivity). rewrite Hf. apply not_elem_of_nil.
Defined.

(** ** A request in a batch *)

(** Behind a sell order of the other user. *)
Definition behind_sell : hold_place := InBatch [mkHoldRequest (parsed sell_request) None] [].
Lemma behind_sell_ok : place_ok behind_sell.
Proof. apply Forall_singleton. exact parsed_sell. Qed.

Lemma create_order_truthful_witness :
  let '(reply, w', me') := CreateOrder (holdWithIdempotency behind_sell) None 0 buy_request funded2 idle in
  ok_world w' /\ create_outcome behind_sell 0 buy_request funded2 idle reply (w_tables w') me'
  /\ forall res, rp_Result reply = Some res -> co_Replay res = false -> co_Outcome res = OutcomeRejected -> Lost ∉ w_faults funded2 ->
       exists rows, Forall (fun row => exists req, req ∈ batch_mates behind_sell /\ numbered (hq_order req) row) rows /\ holds_posted rows (w_tables funded2) (w_tables w').
Proof. exact (create_order_truthful behind_sell None 0 buy_request funded2 idle ok_funded2 behind_sell_ok). Defined.

(** The same in a coordinator whose input is full. *)
Example full_coordinator_refuses : (rp_Err (CreateOrder (holdWithIdempotency InputFull) None 0 buy_request funded2 idle).1.1) ≫= DomainErrorKind = Some ErrorKindUnavailable.
Proof. vm_compute. reflexivity. Qed.

Example batch_place_accepted : let '(reply, w', me') := CreateOrder (holdWithIdempotency behind_sell) None 0 buy_request funded2 idle in
  (fun res => (r_ID (co_Order res), co_Replay res)) <$> rp_Result reply = Some (2%N, false) /\ size (tb_orders (w_tables w')) = 2%nat /\ length <$> me' = Some 1%nat.
Proof. vm_compute. split_and!; reflexivity. Qed.

(** The acknowledgement of the batch's commit is lost.  The coordinator takes the requests
    one by one, finds the key it has stored itself and answers that the request is a
    replay in progress; the order is stored and its assets are held, but the engine never
    gets it. *)
Definition alone : hold_place := InBatch [] [].
Definition unacknowledged : World := mkWorld (w_tables funded2) (w_seqs funded2) (replicate 15 Fine ++ [Lost]).

Example lost_batch_is_never_submitted : let '(reply, w', me') := CreateOrder (holdWithIdempotency alone) None 0 buy_request unacknowledged idle in
  (fun res => (r_ID (co_Order res), co_Replay res, co_Outcome res)) <$> rp_Result reply = Some (1%N, true, OutcomePending)
  /\ map (fun '(id, o) => (id, r_Status o)) (map_to_list (tb_orders (w_tables w'))) = [(1%N, OrderStatusPending)] /\ length <$> me' = Some 0%nat.
Proof. vm_compute. split_and!; reflexivity. Qed.

(** ** Market rules from a configuration *)

Definition small_config : MarketRulesConfig :=
  mkRulesConfig "5000" "0.0005" "ACTIVE" "0.0001" "0.0001" [(" eth ", mkMarketConfig "" "0.01" "")] [mkTickConfig "1000" "1"] "10".
Definition small_registry : MarketRulesRegistry :=
  match NewMarketRulesRegistryFromConfig small_config with Ok r => r | Err _ => defaultMarketRulesRegistry end.

Lemma registries_well_formed_witness : registry_ok small_registry.
Proof.
  apply (proj2 registries_well_formed small_config small_registry).
  vm_cast_no_check (eq_refl (NewMarketRulesRegistryFromConfig small_config)).
Defined.

(** ** A market buy for its whole budget *)

Definition market_request : CreateOrderInput := mkCreateOrderInput 1 "BTC" "BUY" "MARKET" "" "" "1000" "key-1".
Definition cheap_sell : CreateOrderInput := mkCreateOrderInput 2 "BTC" "SELL" "LIMIT" "1" "2000" "" "key-2".
Definition overrun_world : World :=
  run_create cheap_sell (run_create market_request (FundWallet 2 "BTC" "3000" "b" (FundWallet 1 "KRW" "1000" "a" w0).2).2).

(** What the engine may spend of the budget, spent at a price of 1. *)
Definition overrun_trade : Trade :=
  mkTrade 0 "" 7 "engine-1-1:1" "BTC" (NewFromInt 1) (RequireFromString "999.5002498750624688") Zero Zero "" Zero "" 0 1 2.

(** What the engine was given for the market buy. *)
Definition engine_budget : string :=
  match (CreateOrder (holdWithIdempotency NoCoordinator) None 0 market_request (FundWallet 1 "KRW" "1000" "a" w0).2 idle).2 with
  | Some [order] => DString (o_QuoteAmount order)
  | _ => ""
  end.

Example budget_is_rounded_up : engine_budget = "999.5002498750624688" /\ DString (tradeQuoteAmount overrun_trade) = "999.5002498750624688".
Proof. split; vm_compute; reflexivity. Qed.

Lemma reach_overrun : rtc service_step w0 overrun_world.
Proof.
  eapply rtc_l; [exact (step_fund 1 "KRW" "1000" "a" w0)|]. eapply rtc_l; [exact (step_fund 2 "BTC" "3000" "b" _)|].
  eapply rtc_l; [exact (step_create NoCoordinator None 0 market_request idle _ (Forall_nil_2 _))|].
  eapply rtc_l; [exact (step_create NoCoordinator None 0 cheap_sell idle _ (Forall_nil_2 _))|]. apply rtc_refl.
Qed.

Definition market_buy : OrderRow := order_in overrun_world 1.
Definition market_sell : OrderRow := order_in overrun_world 2.
Definition overrun_in : Trade := match settlement_input overrun_trade with Ok t => t | Err _ => overrun_trade end.
Definition overrun_quote : decimal := match matchingQuoteAmountForOrder market_buy with Ok q => q | Err _ => Zero end.

Lemma overrun_orders : map_to_list (tb_orders (w_tables overrun_world)) = [(2%N, market_sell); (1%N, market_buy)].
Proof. vm_cast_no_check (eq_refl ([(2%N, market_sell); (1%N, market_buy)])). Qed.
Lemma overrun_transfers : tb_transfers (w_tables overrun_world) = ∅.
Proof. apply map_to_list_empty_iff, length_zero_iff_nil. vm_compute. reflexivity. Qed.

Lemma overrun_only_hold : only_hold (w_tables overrun_world) 1 market_buy.
Proof.
  split; [|rewrite overrun_transfers; apply map_Forall_empty]. intros id o Ho Hne. apply elem_of_map_to_list in Ho. rewrite overrun_orders in Ho.
  apply elem_of_cons in Ho as [E|Ho]; [|apply list_elem_of_singleton in Ho as E; by destruct Hne; exact (f_equal fst E)].
  assert (o = market_sell) as -> by exact (f_equal snd E). unfold held. rewrite decide_False; [reflexivity|]. vm_compute. intuition congruence.
Qed.

(** The trade that spends what the engine was given is refused, and nothing changes. *)
Lemma full_budget_trade_refused_witness :
  exists e w', SettleTrade overrun_trade 0 overrun_world = (Err e, w') /\ w_tables w' = w_tables overrun_world.
Proof.
  apply (full_budget_trade_refused overrun_world overrun_trade overrun_in 0 market_buy overrun_quote reach_overrun).
  - vm_cast_no_check (eq_refl (settlement_input overrun_trade)).
  - vm_cast_no_check (eq_refl (None : option Trade)).
  - vm_cast_no_check (eq_refl (Some market_buy)).
  - vm_compute. reflexivity.
  - exact overrun_only_hold.
  - vm_cast_no_check (eq_refl (matchingQuoteAmountForOrder market_buy)).
  - vm_compute. reflexivity.
  - vm_compute. reflexivity.
Defined.

Example overrun_refused :
  (SettleTrade overrun_trade 0 overrun_world).1 = Err (NewConflictErrorf "account %d would go negative (%s)" ["6"; "-0.0000000000000000344"]).
Proof. vm_compute. reflexivity. Qed.

(** With another hold of the same user the same trade settles, and overdraws that hold: the
    limit buy's own trade is then refused although it has room and its price. *)
Definition small_buy : CreateOrderInput := mkCreateOrderInput 1 "BTC" "BUY" "LIMIT" "1" "500" "" "key-3".
Definition overdrawn_world : World :=
  (SettleTrade overrun_trade 0 (run_create small_buy (run_create cheap_sell (run_create market_request
     (FundWallet 2 "BTC" "3000" "b" (FundWallet 1 "KRW" "1600" "a" w0).2).2)))).2.
Definition small_trade : Trade :=
  mkTrade 0 "" 8 "engine-1-1:2" "BTC" (NewFromInt 1) (NewFromInt 500) Zero Zero "" Zero "" 0 3 2.

Example overdrawn_hold_refused : length (tb_trades (w_tables overdrawn_world)) = 1%nat
  /\ (SettleTrade small_trade 0 overdrawn_world).1 = Err (NewConflictErrorf "account %d would go negative (%s)" ["6"; "-0.0000000000000000344"]).
Proof. split; vm_compute; reflexivity. Qed.
End ServiceFixtures.

(** ** Concrete runs of transfers

    A user withdraws, the outside answers, and a callback arrives: the theorems on
    transfers applied to such histories. *)

Module TransferFixtures.
Import FixedPoint ServiceFixtures.

Abbreviation outside := (processor (ExternalTransferProcessor := FakeTransferProcessor)).
Definition quiet_outside : outside := (∅ : gmap string (TransferOutcome * Payload)).

(** User 1 holds 20000 KRW and withdraws 5000. *)
Definition withdrawing : result error TransferRequest * World * outside :=
  RequestWithdrawal 0 1 TransferRailBank "krw" "5000" "w-1" funded1 quiet_outside.
Definition withdrawn : World := withdrawing.1.2.

(** The outside reports success, which the poll twenty seconds later finds. *)
Definition succeeding : outside := SetResult "FAKE-BANK-transfer:1" TransferOutcomeSuccess ∅ withdrawing.2.
Definition polled : World := (RunOnce (20 * second) 0 withdrawn succeeding).1.

Definition shown (w : World) : list (N * string) := map (fun '(id, b) => (id, DString (b_Balance b))) (map_to_list (tb_balances (w_tables w))).
Definition statuses (w : World) : list (N * TransferStatus) := map (fun '(id, r) => (id, tq_Status r)) (map_to_list (tb_transfers (w_tables w))).

Example withdrawn_pending : statuses withdrawn = [(1%N, TransferStatusProcessing)].
Proof. vm_compute. reflexivity. Qed.
Example polled_done : statuses polled = [(1%N, TransferStatusCompleted)].
Proof. vm_compute. reflexivity. Qed.

Lemma reach_funded1 : rtc service_step w0 funded1.
Proof. apply rtc_once, step_funded1. Qed.
Lemma step_withdrawn : transfer_step funded1 withdrawn.
Proof. exact (step_withdrawal 0 1 TransferRailBank "krw" "5000" "w-1" funded1 quiet_outside). Qed.
Lemma step_polled : transfer_step withdrawn polled.
Proof. exact (step_poll (20 * second) 0 withdrawn succeeding). Qed.
Lemma reach_withdrawn : rtc service_step w0 withdrawn.
Proof. eapply rtc_r; [exact reach_funded1|]. apply step_transfer, step_withdrawn. Qed.

Lemma transfers_move_once_witness : evolved (w_tables funded1) (w_tables polled).
Proof.
  exact (transfers_move_once funded1 polled reach_funded1 (rtc_l _ _ _ _ step_withdrawn (rtc_once _ _ step_polled))).
Defined.

Definition no_request : TransferRequest := new_request 0 0 TransferDirectionDeposit TransferRailBank "" Zero "".
Definition request1 : TransferRequest := default no_request (tb_transfers (w_tables withdrawn) !! 1%N).

Lemma found_request1 : tb_transfers (w_tables withdrawn) !! 1%N = Some request1.
Proof.
  assert (H : bool_decide (is_Some (tb_transfers (w_tables withdrawn) !! 1%N)) = true) by (vm_compute; reflexivity).
  apply bool_decide_eq_true in H as [k Hk]. unfold request1. rewrite Hk. reflexivity.
Qed.

(** The callback of a bank that refused. *)
Definition refusal : ResolveInput := mkResolveInput 1 TransferEventSourceCallback "cb-1" TransferOutcomeFailure ∅.

Lemma withdrawn_no_orders : tb_orders (w_tables withdrawn) = ∅.
Proof. apply map_to_list_empty_iff, length_zero_iff_nil. vm_compute. reflexivity. Qed.
Lemma withdrawn_no_events : tb_transfer_events (w_tables withdrawn) = [].
Proof. apply length_zero_iff_nil. vm_compute. reflexivity. Qed.

Lemma pending_transfer_closes_witness :
  exists w' r', ResolveTransfer 0 refusal (mkWorld (w_tables withdrawn) (w_seqs withdrawn) []) = (Ok tt, w')
    /\ tb_transfers (w_tables w') !! 1%N = Some r' /\ matchesTerminalOutcome (tq_Status r') TransferOutcomeFailure = true.
Proof.
  apply (pending_transfer_closes withdrawn 0 refusal request1 reach_withdrawn).
  - unfold budgets_kept. rewrite withdrawn_no_orders. apply map_Forall_empty.
  - exact found_request1.
  - vm_compute. reflexivity.
  - reflexivity.
  - split; [done|]. split; [reflexivity|]. rewrite withdrawn_no_events. constructor.
Defined.

Example refused_gives_back : shown (ResolveTransfer 0 refusal withdrawn).2 = [(4%N, "0"%string); (2%N, "20000"%string); (1%N, "-20000"%string)].
Proof. vm_compute. reflexivity. Qed.

(** A market buy that spends its rounded-up budget overdraws a pending withdrawal of the
    same user: neither the success nor the failure of the withdrawal can be recorded. *)
Definition overdrawn_withdrawal : World :=
  (SettleTrade overrun_trade 0 (run_create cheap_sell (run_create market_request
     (RequestWithdrawal 0 1 TransferRailBank "krw" "500" "w-1" (FundWallet 2 "BTC" "3000" "b" (FundWallet 1 "KRW" "1500" "a" w0).2).2 quiet_outside).1.2))).2.

Example overdrawn_withdrawal_stuck : length (tb_trades (w_tables overdrawn_withdrawal)) = 1%nat
  /\ is_ok (ResolveTransfer 0 refusal overdrawn_withdrawal).1 = false
  /\ is_ok (ResolveTransfer 0 (mkResolveInput 1 TransferEventSourceCallback "cb-1" TransferOutcomeSuccess ∅) overdrawn_withdrawal).1 = false.
Proof. split_and!; vm_compute; reflexivity. Qed.
End TransferFixtures.

(** ** Concrete runs of the settlement pipeline

    The theorems about batches applied to the two orders of [ServiceFixtures]. *)

Module PipelineFixtures.
Import FixedPoint ServiceFixtures.

(** Two trades between the same orders; the second fills both. *)
Definition trade2 : Trade :=
  mkTrade 0 "" 8 "engine-1-1:2" "BTC" (NewFromInt 9000) (RequireFromString "0.5") Zero Zero "" Zero "" 0 1 2.
Definition batch1 : list TradeBatchItem := [mkTradeBatchItem (Some trade1) 0; mkTradeBatchItem (Some trade2) 0].

Example batch1_applied : (SettleTradeBatch batch1 ordered2).1 = Ok [mkSettlementResult true false 1; mkSettlementResult true false 2].
Proof. vm_compute. reflexivity. Qed.

Example batch1_fills : map (fun '(id, o) => (id, r_Status o)) (map_to_list (tb_orders (w_tables (SettleTradeBatch batch1 ordered2).2)))
  = [(2%N, OrderStatusFilled); (1%N, OrderStatusFilled)].
Proof. vm_compute. reflexivity. Qed.

(** The first of them settled before. *)
Example batch1_again : (SettleTradeBatch batch1 settled1).1 = Ok [mkSettlementResult false true 1; mkSettlementResult true false 2].
Proof. vm_compute. reflexivity. Qed.

(** The same trade twice in a batch: given up. *)
Example batch_twice : w_tables (SettleTradeBatch [mkTradeBatchItem (Some trade1) 0; mkTradeBatchItem (Some trade1) 0] ordered2).2 = w_tables ordered2.
Proof. vm_cast_no_check (eq_refl (w_tables ordered2)). Qed.

Lemma batch_is_its_trades_witness :
  let '(r, w') := SettleTradeBatch batch1 ordered2 in
  store_ok (w_tables w') (w_seqs w') /\
  match r with
  | Ok rs => batch_settled batch1 rs (w_tables ordered2) w'
  | Err e => w_tables w' = w_tables ordered2 \/ (e = DBError "" /\ exists rs, batch_settled batch1 rs (w_tables ordered2) w')
  end.
Proof. exact (batch_is_its_trades batch1 ordered2 (sy_store _ _ (proj1 ok_ordered2))). Defined.
End PipelineFixtures.
