(* ===== verification/HoldQueue.v ===== *)
(** * The goroutine of the hold coordinator: [service/hold_coordinator.go]

    Requests wait in a bounded channel; [Run] collects them into batches of at most
    [BatchSize], within the flush interval, and sends each its result.  A state holds the
    channel, what [Run] is doing, the results sent and the database; an event is a call, a
    receive of the goroutine, the flush timer, or the processing of a batch.  A request is
    named by its position among the accepted ones, which stands for its [resultCh]. *)
From S2P Require Import Prelude Decimal Model Errors Fee MarketRules Database Ledger LedgerInv LedgerSpec LedgerTheorems Sha256 OrderLedger Settlement TradePlan Store SettlementProofs SettlementBatch Idempotency HoldCoordinator OrderService Transfers TransferInv LockedFunds OrderProofs HoldBatchProofs TransferProofs Services ServiceFixtures.
From Stdlib Require Import Lia.

Section HoldQueue.
Context {DL : DecimalLib}.

Definition defaultHoldBatchSize : Z := 64.
Definition holdCoordinatorInputCap : nat := 1024.

Abbreviation queued := (nat * holdRequest)%type.

(** Where [Run] is: waiting for a first request, inside [collectBatch], inside
    [processBatch] (and whether the input was still open), or returned. *)
Inductive running := Waiting | Collecting (batch : list queued) | Processing (batch : list queued) (open : bool) | Returned.

Record coordinator := mkCoordinator {
  c_BatchSize : Z;
  c_input : list queued;
  c_closed : bool;
  c_run : running;
  c_accepted : list holdRequest;
  c_refused : nat;
  c_answers : list (nat * holdResult);
  c_panicked : bool;
  c_world : World }.
#[export] Instance eta_coordinator : Settable coordinator := fun c =>
  mkCoordinator (c_BatchSize c) (c_input c) (c_closed c) (c_run c) (c_accepted c) (c_refused c) (c_answers c) (c_panicked c) (c_world c).

Definition NewHoldCoordinator (batchSize : Z) (w : World) : coordinator :=
  mkCoordinator (if (batchSize <=? 0)%Z then defaultHoldBatchSize else batchSize) [] false Waiting [] 0 [] false w.

(** The send of [SubmitWithIdempotency]: refused when the channel is full; a send on the
    closed channel panics. *)
Definition SubmitWithIdempotency (req : holdRequest) (c : coordinator) : coordinator :=
  if c_closed c then c <| c_panicked := true |>
  else if decide (length (c_input c) < holdCoordinatorInputCap)%nat
  then c <| c_input := c_input c ++ [(length (c_accepted c), req)] |> <| c_accepted := c_accepted c ++ [req] |>
  else c <| c_refused := S (c_refused c) |>.

(** Closing the input twice panics. *)
Definition Shutdown (c : coordinator) : coordinator :=
  if c_closed c then c <| c_panicked := true |> else c <| c_closed := true |>.

(** The goroutine goes on with the input: [None] while it has to wait. *)
Definition receive (c : coordinator) : option coordinator :=
  match c_run c with
  | Waiting =>
      match c_input c with
      | first :: input => Some (c <| c_run := Collecting [first] |> <| c_input := input |>)
      | [] => if c_closed c then Some (c <| c_run := Returned |>) else None
      end
  | Collecting batch =>
      if (Z.of_nat (length batch) <? c_BatchSize c)%Z then
        match c_input c with
        | req :: input => Some (c <| c_run := Collecting (batch ++ [req]) |> <| c_input := input |>)
        | [] => if c_closed c then Some (c <| c_run := Processing batch false |>) else None
        end
      else Some (c <| c_run := Processing batch true |>)
  | _ => None
  end.

(** The flush interval is over. *)
Definition flush_timer (c : coordinator) : option coordinator :=
  match c_run c with
  | Collecting batch => if (Z.of_nat (length batch) <? c_BatchSize c)%Z then Some (c <| c_run := Processing batch true |>) else None
  | _ => None
  end.

(** The batch is processed and each request gets its result; [results[i]] of a result
    that is not there panics. *)
Definition process (c : coordinator) : option coordinator :=
  match c_run c with
  | Processing batch open =>
      match processBatch (map snd batch) (c_world c) with
      | (Ok results, w) =>
          let c := c <| c_world := w |> <| c_answers := c_answers c ++ zip (map fst batch) results |> <| c_run := if open then Waiting else Returned |> in
          Some (if decide (length results = length batch) then c else c <| c_panicked := true |>)
      | (Err _, w) => Some (c <| c_world := w |> <| c_panicked := true |>)
      end
  | _ => None
  end.

Definition InputLen (c : coordinator) : nat := length (c_input c).

Inductive queue_event := EvSubmit (req : holdRequest) | EvShutdown | EvReceive | EvFlush | EvProcess | EvOthers (w : World).

Definition coordinator_next (ev : queue_event) (c : coordinator) : option coordinator :=
  if c_panicked c then None else
  match ev with
  | EvSubmit req => Some (SubmitWithIdempotency req c)
  | EvShutdown => Some (Shutdown c)
  | EvReceive => receive c
  | EvFlush => flush_timer c
  | EvProcess => process c
  | EvOthers w => Some (c <| c_world := w |>)
  end.
End HoldQueue.

(** ** Every held request is answered

    The goroutine of the hold coordinator next to the other services: accepted requests
    are answered in the order of their acceptance, once each, after a bounded number of
    steps of the goroutine, and [Shutdown] waits for the last of them. *)

Section HoldQueueProofs.
Context {DL : DecimalLib} {DLaws : DecimalLaws DL} {API : MatchingAPI} {ETP : ExternalTransferProcessor}.

(** What the callers and the other services do: requests carry checked orders, nothing is
    submitted after [Shutdown] (the HTTP server has stopped by then), and the database
    changes by calls of the services. *)
Definition allowed (ev : queue_event) (c : coordinator) : Prop :=
  match ev with
  | EvSubmit req => c_closed c = false /\ new_order_ok (hq_order req)
  | EvShutdown => c_closed c = false
  | EvOthers w => service_step (c_world c) w
  | _ => True
  end.
Definition coordinator_step (ev : queue_event) (c c' : coordinator) : Prop := allowed ev c /\ coordinator_next ev c = Some c'.

Inductive coordinator_trace : coordinator -> list queue_event -> coordinator -> Prop :=
| trace_nil c : coordinator_trace c [] c
| trace_cons c ev c1 evs c2 : coordinator_step ev c c1 -> coordinator_trace c1 evs c2 -> coordinator_trace c (ev :: evs) c2.

Definition in_flight (c : coordinator) : list (nat * holdRequest) :=
  match c_run c with Collecting batch | Processing batch _ => batch | _ => [] end.

Record queue_ok (c : coordinator) : Prop := mkQueueOk {
  qo_order : map fst (c_answers c) ++ map fst (in_flight c ++ c_input c) = seq 0 (length (c_accepted c));
  qo_requests : Forall (fun q => new_order_ok (hq_order q.2) /\ c_accepted c !! q.1 = Some q.2) (in_flight c ++ c_input c);
  qo_size : (1 <= c_BatchSize c)%Z /\ (Z.of_nat (length (in_flight c)) <= c_BatchSize c)%Z;
  qo_batch : match c_run c with Collecting batch | Processing batch _ => batch <> [] | _ => True end;
  qo_cap : (length (c_input c) <= holdCoordinatorInputCap)%nat;
  qo_ended : match c_run c with Processing _ false | Returned => c_closed c = true /\ c_input c = [] | _ => True end;
  qo_world : ok_world (c_world c);
  qo_panic : c_panicked c = false }.

Lemma queue_new size w : ok_world w -> queue_ok (NewHoldCoordinator size w).
Proof.
  intros Hw. split; [done|constructor| |done|cbn; lia|done|done|done]. cbn. destruct (Z.leb_spec size 0); unfold defaultHoldBatchSize; lia.
Qed.

Lemma submit_ok req c : queue_ok c -> c_closed c = false -> new_order_ok (hq_order req) -> queue_ok (SubmitWithIdempotency req c).
Proof.
  intros [Ho Hr Hs Hb Hc He Hw Hp] Hcl Hnew. unfold SubmitWithIdempotency. rewrite Hcl. case_decide; [|by split]. split; cbn; try done.
  - change (in_flight _) with (in_flight c). rewrite length_app, seq_app, <- Ho. cbn. rewrite !map_app. cbn. by rewrite <- !app_assoc.
  - change (in_flight _) with (in_flight c). rewrite app_assoc. apply Forall_app. split.
    + eapply Forall_impl; [exact Hr|]. intros [i q] [H1 H2]. split; [done|]. by apply lookup_app_l_Some.
    + constructor; [|constructor]. split; [done|]. cbn. by apply list_lookup_middle.
  - rewrite length_app. cbn. lia.
  - destruct (c_run c) as [|b|b [|]|]; try done; by rewrite Hcl in He; destruct He.
Qed.

Lemma receive_ok c c' : queue_ok c -> receive c = Some c' -> queue_ok c'.
Proof.
  intros [Ho Hr Hs Hb Hc He Hw Hp]. unfold receive. destruct c as [size input closed run accepted refused answers panicked w]. unfold in_flight in *. cbn in *.
  destruct run as [|batch|batch o|]; [| |done|done].
  - destruct input as [|first input]; [destruct closed; [|done]|]; intros [= <-]; split; cbn in *; try done; lia.
  - destruct (Z.ltb_spec (Z.of_nat (length batch)) size).
    + destruct input as [|req input]; [destruct closed; [|done]|]; intros [= <-]; split; cbn in *; rewrite <- ?app_assoc; try done; rewrite ?length_app; cbn; try lia. by destruct batch.
    + intros [= <-]. by split.
Qed.

Lemma flush_ok c c' : queue_ok c -> flush_timer c = Some c' -> queue_ok c'.
Proof.
  intros [Ho Hr Hs Hb Hc He Hw Hp]. unfold flush_timer. destruct c as [size input closed run accepted refused answers panicked w]. unfold in_flight in *. cbn in *.
  destruct run as [|batch|batch o|]; try done. destruct (_ <? _)%Z; [|done]. intros [= <-]. by split.
Qed.

(** A processed batch: the results of [handed_results], one per request. *)
Definition batch_answered (batch : list (nat * holdRequest)) (c c' : coordinator) : Prop :=
  exists results, handed_results (map snd batch) results (w_tables (c_world c)) (w_tables (c_world c')) /\ c_answers c' = c_answers c ++ zip (map fst batch) results.

Lemma process_ok c c' : queue_ok c -> process c = Some c' -> queue_ok c' /\ batch_answered (in_flight c) c c'.
Proof.
  intros [Ho Hr Hs Hb Hc He Hw Hp]. unfold process, batch_answered. destruct c as [size input closed run accepted refused answers panicked w]. unfold in_flight in *. cbn in *.
  destruct run as [|batch|batch o|]; try done.
  assert (Hnew : Forall (fun req => new_order_ok (hq_order req)) (map snd batch)).
  { apply Forall_map. apply Forall_app in Hr as [Hr _]. eapply Forall_impl; [exact Hr|]. by intros [i q] [H _]. }
  destruct (process_batch_run (map snd batch) w Hw Hnew) as (results & w' & -> & Hw' & Hh & _). pose proof (hd_length _ _ _ _ Hh) as Hl. rewrite length_map in Hl.
  rewrite decide_True by done. intros [= <-]. cbn. split; [|by exists results]. apply Forall_app in Hr as [_ Hr]. split; cbn; try done.
  - rewrite map_app. change (map fst (zip (map fst batch) results)) with ((zip (map fst batch) results).*1). rewrite fst_zip by (rewrite length_map; lia).
    rewrite <- Ho, (map_app _ batch), app_assoc. by destruct o.
  - by destruct o.
  - split; [apply Hs|]. destruct o; cbn; lia.
  - by destruct o.
  - by destruct o.
Qed.

Lemma coordinator_step_ok ev c c' : coordinator_step ev c c' -> queue_ok c -> queue_ok c'.
Proof.
  intros [Hal Hn] Hok. unfold coordinator_next in Hn. rewrite (qo_panic _ Hok) in Hn. destruct ev as [req| | | | |w]; cbn in Hal.
  - injection Hn as <-. destruct Hal; by apply submit_ok.
  - injection Hn as <-. unfold Shutdown. rewrite Hal. destruct Hok as [Ho Hr Hs Hb Hc He Hw Hp]. split; try done.
    cbn. destruct (c_run c) as [|b|b [|]|]; try done; by destruct He.
  - by eapply receive_ok.
  - by eapply flush_ok.
  - by eapply process_ok.
  - injection Hn as <-. destruct Hok as [Ho Hr Hs Hb Hc He Hw Hp]. split; try done. by eapply ok_world_step.
Qed.

Lemma coordinator_trace_ok c evs c' : coordinator_trace c evs c' -> queue_ok c -> queue_ok c'.
Proof. induction 1 as [|c ev c1 evs c2 Hs _ IH]; [done|]. intros Hok. by eapply IH, coordinator_step_ok. Qed.

(** ** How long a request waits *)

Definition answered (i : nat) (c : coordinator) : Prop := i ∈ map fst (c_answers c).
#[export] Instance answered_dec i c : Decision (answered i c) := decide (i ∈ map fst (c_answers c)).
Definition own (ev : queue_event) : bool := match ev with EvReceive | EvFlush | EvProcess => true | _ => false end.

(** The requests of the channel up to the [i]-th accepted one. *)
Definition ahead (i : nat) (c : coordinator) : nat := length (filter (fun q => (q.1 <= i)%nat) (c_input c)).

(** Steps of the goroutine until the [i]-th accepted request is answered, at most. *)
Definition wait_bound (i : nat) (c : coordinator) : nat :=
  let size := Z.to_nat (c_BatchSize c) in
  ahead i c * (size + 3) + match c_run c with
                           | Collecting batch => (size - length batch) + 2
                           | Processing _ _ => 1
                           | _ => 0
                           end.

Lemma queued_ids c : queue_ok c -> exists a b, (a <= b <= length (c_accepted c))%nat /\ map fst (c_answers c) = seq 0 a
  /\ map fst (in_flight c) = seq a (b - a) /\ map fst (c_input c) = seq b (length (c_accepted c) - b).
Proof.
  intros Hok. pose proof (qo_order _ Hok) as Ho. rewrite map_app in Ho. set (n := length (c_accepted c)) in *.
  set (a := length (map fst (c_answers c))). set (b := (a + length (map fst (in_flight c)))%nat).
  assert (Hn : n = (b + length (map fst (c_input c)))%nat) by (rewrite <- (length_seq n 0), <- Ho, !length_app; unfold b, a; lia).
  exists a, b. split; [unfold b; lia|].
  assert (E : seq 0 n = seq 0 a ++ seq a (b - a) ++ seq b (n - b)).
  { replace (seq b (n - b)) with (seq (a + (b - a)) (n - b)) by (f_equal; unfold b; lia). rewrite <- seq_app. rewrite <- seq_app. f_equal. unfold b in *. lia. }
  rewrite E in Ho. apply app_inj_1 in Ho as [H1 Ho]; [|by rewrite length_seq]. apply app_inj_1 in Ho as [H2 H3]; [done|]. rewrite length_seq. unfold b. lia.
Qed.

Lemma unanswered_waits i c : queue_ok c -> (i < length (c_accepted c))%nat -> ~ answered i c -> i ∈ map fst (in_flight c ++ c_input c).
Proof.
  intros Hok Hi Hn. assert (Hin : i ∈ seq 0 (length (c_accepted c))) by (apply elem_of_seq; lia). rewrite <- (qo_order _ Hok) in Hin.
  by apply elem_of_app in Hin as [Hin|Hin].
Qed.

Lemma ahead_cons i q input : length (filter (fun q : nat * holdRequest => (q.1 <= i)%nat) (q :: input))
  = ((if decide (q.1 <= i)%nat then 1 else 0) + length (filter (fun q : nat * holdRequest => (q.1 <= i)%nat) input))%nat.
Proof. rewrite filter_cons. by case_decide. Qed.

(** Some step of the goroutine is possible while a request waits. *)
Lemma own_step_possible i c : queue_ok c -> (i < length (c_accepted c))%nat -> ~ answered i c -> exists ev c', own ev = true /\ coordinator_step ev c c'.
Proof.
  intros Hok Hi Hn. pose proof (unanswered_waits i c Hok Hi Hn) as Hin. unfold coordinator_step, coordinator_next. rewrite (qo_panic _ Hok).
  pose proof (qo_ended _ Hok) as He. unfold in_flight in Hin. destruct (c_run c) as [|batch|batch o|] eqn:Er.
  - exists EvReceive. unfold receive. rewrite Er. destruct (c_input c); [by apply elem_of_nil in Hin|]. by eexists.
  - destruct (Z.of_nat (length batch) <? c_BatchSize c)%Z eqn:Eb.
    + exists EvFlush. unfold flush_timer. rewrite Er, Eb. by eexists.
    + exists EvReceive. unfold receive. rewrite Er, Eb. by eexists.
  - exists EvProcess. unfold process. rewrite Er. destruct (processBatch _ _) as [[results|e] w]; by eexists.
  - destruct He as [_ He]. rewrite He in Hin. by apply elem_of_nil in Hin.
Qed.

(** Each of them brings its answer nearer. *)
Lemma own_step_shorter i ev c c' : queue_ok c -> (i < length (c_accepted c))%nat -> ~ answered i c -> own ev = true -> coordinator_step ev c c' ->
  (wait_bound i c' < wait_bound i c)%nat.
Proof.
  intros Hok Hi Hn How Hstep. pose proof (qo_panic _ (coordinator_step_ok _ _ _ Hstep Hok)) as Hpan. destruct Hstep as [_ Hnx]. unfold coordinator_next in Hnx. rewrite (qo_panic _ Hok) in Hnx. pose proof (qo_size _ Hok) as [Hs1 Hs2].
  destruct (queued_ids c Hok) as (a & b & Hab & Ha & Hf & Hin). unfold answered in Hn. rewrite Ha in Hn.
  assert (Hai : (a <= i)%nat) by (destruct (decide (a <= i)%nat); [done|]; destruct Hn; apply elem_of_seq; lia).
  destruct c as [size input closed run accepted refused answers panicked w]. unfold in_flight, wait_bound, ahead in *. cbn in *.
  destruct ev; try done; clear How; [unfold receive in Hnx|unfold flush_timer in Hnx|unfold process in Hnx]; cbn in Hnx; destruct run as [|batch|batch o|]; try done; cbn in Hs2.
  - destruct input as [|q input]; [exfalso; cbn in Hf, Hin; destruct (b - a)%nat eqn:E1; [|done]; destruct (length accepted - b)%nat eqn:E2; [lia|done]|].
    injection Hnx as <-. cbn [c_BatchSize c_input c_run]. rewrite ahead_cons.
    assert (Hq : (q.1 <= i)%nat). { cbn in Hf, Hin. destruct (b - a)%nat eqn:E1; [|done]. destruct (length accepted - b)%nat; [done|]. injection Hin as -> _. lia. }
    rewrite decide_True by done. cbn. nia.
  - destruct (Z.ltb_spec (Z.of_nat (length batch)) size) as [Hlt|_]; [|injection Hnx as <-; cbn; nia].
    destruct input as [|q input]; [destruct closed; [|done]; injection Hnx as <-; cbn; nia|]. injection Hnx as <-. rewrite ahead_cons. cbn -[filter]. rewrite length_app. cbn [length]. case_decide; nia.
  - destruct (Z.ltb_spec (Z.of_nat (length batch)) size) as [Hlt|_]; [|done]. injection Hnx as <-. cbn. nia.
  - destruct (processBatch _ _) as [[results|e] w'] eqn:E; [case_decide|]; injection Hnx as <-; cbn in Hpan |- *; [destruct o; lia|done|done].
Qed.

(** Callers and other services do not move it away. *)
Lemma other_step_waits i ev c c' : (i < length (c_accepted c))%nat -> own ev = false -> coordinator_step ev c c' ->
  wait_bound i c' = wait_bound i c /\ c_answers c' = c_answers c /\ (length (c_accepted c) <= length (c_accepted c'))%nat.
Proof.
  intros Hi How [Hal Hn]. unfold coordinator_next in Hn. destruct (c_panicked c); [done|]. destruct ev as [req| | | | |w]; try done; cbn in Hal; injection Hn as <-.
  - unfold SubmitWithIdempotency. destruct Hal as [-> _]. case_decide; [|done]. unfold wait_bound, ahead. cbn -[filter]. rewrite filter_app, length_app, length_app.
    rewrite (filter_cons_False _ _ []) by (cbn; lia). cbn. split; [lia|]. split; [done|lia].
  - unfold Shutdown. by rewrite Hal.
  - done.
Qed.

Lemma answers_grow ev c c' : coordinator_step ev c c' -> c_answers c `prefix_of` c_answers c' /\ c_accepted c `prefix_of` c_accepted c'.
Proof.
  intros [Hal Hn]. unfold coordinator_next in Hn. destruct (c_panicked c); [done|]. destruct ev as [req| | | | |w]; cbn in Hal.
  - injection Hn as <-. unfold SubmitWithIdempotency. destruct Hal as [-> _]. case_decide; [|done]. split; [done|]. cbn. by apply prefix_app_r.
  - injection Hn as <-. unfold Shutdown. by rewrite Hal.
  - unfold receive in Hn. repeat case_match; by simplify_eq.
  - unfold flush_timer in Hn. repeat case_match; by simplify_eq.
  - unfold process in Hn. repeat case_match; simplify_eq; (split; [|done]); try case_decide; cbn; try done; by apply prefix_app_r.
  - by injection Hn as <-.
Qed.

Lemma trace_prefix c evs c' : coordinator_trace c evs c' -> c_answers c `prefix_of` c_answers c' /\ c_accepted c `prefix_of` c_accepted c'.
Proof.
  induction 1 as [|c ev c1 evs c2 Hs _ [IH1 IH2]]; [done|]. destruct (answers_grow _ _ _ Hs) as [H1 H2]. split; by etrans.
Qed.

Lemma nothing_ahead i c : queue_ok c -> (i < length (c_accepted c))%nat -> wait_bound i c = 0%nat -> answered i c.
Proof.
  intros Hok Hi Hb. destruct (decide (answered i c)) as [|Hn]; [done|]. destruct (own_step_possible i c Hok Hi Hn) as (ev & c' & How & Hs).
  pose proof (own_step_shorter i ev c c' Hok Hi Hn How Hs). lia.
Qed.

Lemma trace_answers c evs c' : coordinator_trace c evs c' -> forall i, queue_ok c -> (i < length (c_accepted c))%nat ->
  (wait_bound i c <= length (filter (fun ev => own ev = true) evs))%nat -> answered i c'.
Proof.
  induction 1 as [c|c ev c1 evs c2 Hs Htr IH]; intros i Hok Hi Hb.
  - apply nothing_ahead; [done|done|]. cbn in Hb. lia.
  - destruct (decide (answered i c)) as [Ha|Hn].
    { destruct (answers_grow _ _ _ Hs) as [H1 _], (trace_prefix _ _ _ Htr) as [H2 _]. destruct (transitivity H1 H2) as [k Hk]. unfold answered in *. rewrite Hk, map_app. apply elem_of_app. by left. }
    pose proof (coordinator_step_ok _ _ _ Hs Hok) as Hok1. destruct (answers_grow _ _ _ Hs) as [_ Hacc]. apply prefix_length in Hacc. apply IH; [done|lia|].
    rewrite filter_cons in Hb. destruct (own ev) eqn:How.
    + rewrite decide_True in Hb by done. cbn in Hb. pose proof (own_step_shorter i ev c c1 Hok Hi Hn How Hs). lia.
    + rewrite decide_False in Hb by done. destruct (other_step_waits i ev c c1 Hi How Hs) as [-> _]. done.
Qed.

(** ** The theorems *)

(** The hold coordinator under any interleaving of callers, timer, shutdown and other
    services: it never panics, no batch exceeds the batch size, the requests answered are
    the first ones accepted, in this order and once each, and those in the batch and in
    the channel follow; when [Run] has returned (which [Shutdown] waits for) all are
    answered.  A processed batch gives each request the result of [handed_results]. *)
Theorem requests_answered_in_order size w evs c : ok_world w -> coordinator_trace (NewHoldCoordinator size w) evs c ->
  c_panicked c = false /\ ok_world (c_world c)
  /\ (Z.of_nat (length (in_flight c)) <= c_BatchSize c)%Z
  /\ map fst (c_answers c) ++ map fst (in_flight c) ++ map fst (c_input c) = seq 0 (length (c_accepted c))
  /\ (c_run c = Returned -> c_closed c = true /\ map fst (c_answers c) = seq 0 (length (c_accepted c)))
  /\ (forall c', process c = Some c' -> batch_answered (in_flight c) c c' /\ Forall (fun q => c_accepted c !! q.1 = Some q.2) (in_flight c)).
Proof.
  intros Hw Htr. pose proof (coordinator_trace_ok _ _ _ Htr (queue_new size w Hw)) as Hok. pose proof (qo_order _ Hok) as Ho. rewrite map_app in Ho.
  split; [apply Hok|]. split; [apply Hok|]. split; [apply Hok|]. split; [done|]. split.
  - intros Er. pose proof (qo_ended _ Hok) as He. rewrite Er in He. destruct He as [Hc Hin]. split; [done|]. unfold in_flight in Ho. rewrite Er, Hin in Ho. cbn in Ho. by rewrite app_nil_r in Ho.
  - intros c' Hp. split; [by apply process_ok|]. pose proof (qo_requests _ Hok) as Hr. apply Forall_app in Hr as [Hr _]. eapply Forall_impl; [exact Hr|]. by intros q [_ H].
Qed.

(** C32 No accepted request waits for ever: whatever the callers and the other services do
    meanwhile, and however many requests come after it, it is answered after at most
    [wait_bound] steps of the goroutine, and until then the goroutine (with its timer) can
    always go on. *)
Theorem accepted_requests_answered size w evs c evs' c' i : ok_world w -> coordinator_trace (NewHoldCoordinator size w) evs c ->
  (i < length (c_accepted c))%nat -> coordinator_trace c evs' c' ->
  (answered i c' \/ exists ev c2, own ev = true /\ coordinator_step ev c' c2)
  /\ ((wait_bound i c <= length (filter (fun ev => own ev = true) evs'))%nat -> answered i c')
  /\ (wait_bound i c <= S (length (c_input c)) * (Z.to_nat (c_BatchSize c) + 3))%nat.
Proof.
  intros Hw Htr Hi Htr'. pose proof (coordinator_trace_ok _ _ _ Htr (queue_new size w Hw)) as Hok. pose proof (coordinator_trace_ok _ _ _ Htr' Hok) as Hok'. split; [|split].
  - destruct (decide (answered i c')); [by left|]. right. eapply own_step_possible; [done| |done]. destruct (trace_prefix _ _ _ Htr') as [_ Hp]. apply prefix_length in Hp. lia.
  - by apply (trace_answers c evs' c').
  - unfold wait_bound, ahead. pose proof (length_filter (fun q : nat * holdRequest => (q.1 <= i)%nat) (c_input c)). destruct (c_run c); nia.
Qed.
End HoldQueueProofs.

Module HoldQueueExamples.
Import FixedPoint ServiceFixtures.

Definition buy : holdRequest := mkHoldRequest (parsed buy_request) (with_key "key-1" "f1").
Definition sell : holdRequest := mkHoldRequest (parsed sell_request) None.

(** Batches of two: both requests are taken and the batch is full. *)
Definition filling : list queue_event := [EvSubmit buy; EvReceive; EvSubmit sell; EvReceive; EvReceive].
Definition filled (w : World) : coordinator :=
  mkCoordinator 2 [] false (Processing [(0, buy); (1, sell)]%nat true) [buy; sell] 0 [] false w.
Definition answered_batch (w : World) : coordinator := default (filled w) (process (filled w)).

Lemma filling_trace w : coordinator_trace (NewHoldCoordinator 2 w) filling (filled w).
Proof.
  econstructor; [split; [split; [done|exact parsed_buy]|reflexivity]|]. econstructor; [split; [done|reflexivity]|].
  econstructor; [split; [split; [done|exact parsed_sell]|reflexivity]|]. econstructor; [split; [done|reflexivity]|].
  econstructor; [split; [done|reflexivity]|]. apply trace_nil.
Qed.

Lemma processing_trace w : coordinator_trace (filled w) [EvProcess] (answered_batch w).
Proof.
  econstructor; [|apply trace_nil]. split; [done|]. unfold answered_batch, coordinator_next. cbn [c_panicked filled].
  unfold process. cbn [c_run filled]. by destruct (processBatch _ _) as [[results|e] w'].
Qed.

Lemma requests_answered_in_order_witness : c_panicked (filled funded2) = false /\ ok_world (c_world (filled funded2)).
Proof.
  destruct (requests_answered_in_order 2 funded2 filling (filled funded2) ok_funded2 (filling_trace funded2)) as (H1 & H2 & _). exact (conj H1 H2).
Defined.

Lemma accepted_requests_answered_witness : answered 1 (answered_batch funded2).
Proof.
  destruct (accepted_requests_answered 2 funded2 filling (filled funded2) [EvProcess] (answered_batch funded2) 1 ok_funded2
    (filling_trace funded2) (le_n 2) (processing_trace funded2)) as (_ & H & _).
  exact (H (le_n 1)).
Defined.

Example answered_rows : map (fun '(i, r) => (i, r_ID <$> owner_of r)) (c_answers (answered_batch funded2)) = [(0%nat, Some 1%N); (1%nat, Some 2%N)].
Proof. vm_compute. reflexivity. Qed.
End HoldQueueExamples.
