(* ===== verification/Dispatcher.v ===== *)
(** * The settlement pipeline (cmd/settlement_pipeline.go, cmd/settlement_dependency.go)

    One dispatcher per partition reads committed events, groups trades into
    batches and hands batches and terminal events (a completed or cancelled
    order) to a pool of workers.  A terminal event waits until no batch that
    touches its order is outstanding.  Results come back on a channel; their
    messages are broadcast in the order of the batches.

    The dispatcher is one goroutine: [prepare] is what it does between two
    selects, [sent_job] and [completed] are branches of its select.  Producer and
    workers run beside it; [sys_step] is any step of any of them.  Receives inside [prepare]
    are non-blocking and stop at the first empty read, so what a producer adds
    meanwhile is as if it had been there before or came after. *)
From S2P Require Import Prelude Decimal Model Containers Matching.
From Stdlib Require Import Lia.

Section Dispatcher.
Context {DL : DecimalLib}.
Local Open Scope Z_scope.

(** [service.OutboxEvent] *)
Record OutboxEvent := mkOutboxEvent { oe_OutboxID : N; oe_Event : ExecutionEvent }.

(** ** The dependency tracker *)

Record dependencyTracker := mkTracker {
  inFlight : gmap N Z;            (* order: batches not retired *)
  dispatched : gmap N (list N);   (* job: the orders of its batch *)
  unsafeOrders : gset N;
  jobs : Z }.

#[export] Instance dependencyTracker_settable : Settable dependencyTracker := fun d =>
  mkTracker (inFlight d) (dispatched d) (unsafeOrders d) (jobs d).

Definition newDependencyTracker : dependencyTracker := mkTracker ∅ ∅ ∅ 0.

Definition add_seen (orders : list N) (id : N) : list N := if decide (id ∈ orders) then orders else orders ++ [id].

Definition touch (orders : list N) (event : OutboxEvent) : list N :=
  match oe_Event event with
  | EvTrade trade => add_seen (add_seen orders (t_BuyOrderID trade)) (t_SellOrderID trade)
  | _ => orders
  end.
Definition touchedOrderIDs (batch : list OutboxEvent) : list N := foldl touch [] batch.

Definition count_of (d : dependencyTracker) (id : N) : Z := default 0 (inFlight d !! id).

Definition incr (m : gmap N Z) (id : N) : gmap N Z := <[id := default 0 (m !! id) + 1]> m.
Definition decr (m : gmap N Z) (id : N) : gmap N Z :=
  let n := default 0 (m !! id) - 1 in if n <=? 0 then delete id m else <[id := n]> m.

Definition register (jobID : N) (orders : list N) (d : dependencyTracker) : dependencyTracker :=
  mkTracker (foldl incr (inFlight d) orders) (<[jobID := orders]> (dispatched d)) (unsafeOrders d) (jobs d + 1).

(** [None]: the completion of an unknown job. *)
Definition retire (jobID : N) (undurable : list N) (d : dependencyTracker) : option dependencyTracker :=
  match dispatched d !! jobID with
  | None => None
  | Some orders =>
      Some (mkTracker (foldl decr (inFlight d) orders) (delete jobID (dispatched d))
              (list_to_set undurable ∪ unsafeOrders d) (jobs d - 1))
  end.

Definition ready (orderID : N) (d : dependencyTracker) : bool := count_of d orderID =? 0.
Definition quarantined (orderID : N) (d : dependencyTracker) : bool := bool_decide (orderID ∈ unsafeOrders d).
Definition clearQuarantine (orderID : N) (d : dependencyTracker) : dependencyTracker :=
  d <| unsafeOrders := unsafeOrders d ∖ {[orderID]} |>.
Definition outstanding (d : dependencyTracker) : Z := jobs d.
Definition quarantinedCount (d : dependencyTracker) : Z := Z.of_nat (size (unsafeOrders d)).

(** ** Jobs and results *)

(** The payload is the JSON of trades. *)
Record broadcastMessage := mkMessage { bm_coinSymbol : string; bm_payload : list Trade }.

(** [settlementJob]; a terminal job has no sequence number. *)
Inductive settlementJob :=
| jobTrade (id seq : N) (batch : list OutboxEvent)
| jobTerminal (id : N) (event : OutboxEvent).
Definition job_id (j : settlementJob) : N := match j with jobTrade id _ _ => id | jobTerminal id _ => id end.

Record settlementResult := mkResult {
  sr_seq : option N;   (* of a trade job *)
  sr_id : N; sr_messages : list broadcastMessage; sr_undurableOrderIDs : list N }.

Record waitingTerminal := mkWaiting { wt_event : OutboxEvent; wt_orderID : N }.

(** The order of a terminal event; 0 never occurs for one. *)
Definition terminalOrderID (event : OutboxEvent) : N :=
  match oe_Event event with
  | EvOrderCancelled c => c_OrderID c
  | EvMarketOrderDone d => d_OrderID d
  | EvTrade _ => 0%N
  end.

Definition is_trade (event : OutboxEvent) : bool := match oe_Event event with EvTrade _ => true | _ => false end.

(** [collectTradeBatch]: what it takes from the queue, the event that ended the
    batch, and whether the queue is still open. *)
Fixpoint collect_more (room : nat) (queue : list OutboxEvent) (closed : bool)
    : list OutboxEvent * option OutboxEvent * bool * list OutboxEvent :=
  match room with
  | O => ([], None, true, queue)
  | S room =>
      match queue with
      | [] => ([], None, negb closed, [])
      | event :: queue =>
          if is_trade event then
            let '(batch, pending, open, queue) := collect_more room queue closed in (event :: batch, pending, open, queue)
          else ([], Some event, true, queue)
      end
  end.
Definition collectTradeBatch (first : OutboxEvent) (queue : list OutboxEvent) (closed : bool) (maxBatch : Z)
    : list OutboxEvent * option OutboxEvent * bool * list OutboxEvent :=
  let '(batch, pending, open, queue) := collect_more (Z.to_nat (maxBatch - 1)) queue closed in (first :: batch, pending, open, queue).

(** ** The dispatcher *)

Record dispatcher := mkDispatcher {
  dep : dependencyTracker;
  nextJobID : N; nextSeq : N; nextBroadcast : N;
  pending : gmap N settlementResult;
  waiting : list waitingTerminal;
  readyJob : option settlementJob;
  queueOpen : bool;
  carry : option OutboxEvent;
  (* what the counters SettlementTerminalDeferred and
     SettlementDuplicateTerminalTotal have counted *)
  m_deferred : list OutboxEvent;
  m_duplicate : list OutboxEvent }.

#[export] Instance dispatcher_settable : Settable dispatcher := fun d =>
  mkDispatcher (dep d) (nextJobID d) (nextSeq d) (nextBroadcast d) (pending d) (waiting d) (readyJob d) (queueOpen d) (carry d) (m_deferred d) (m_duplicate d).

Definition initial_dispatcher : dispatcher := mkDispatcher newDependencyTracker 1 1 1 ∅ [] None true None [] [].

(** The messages [flushBroadcasts] sends; every round removes a result. *)
Fixpoint flush (fuel : nat) (next : N) (pending : gmap N settlementResult) : list (list broadcastMessage) * N * gmap N settlementResult :=
  match fuel with
  | O => ([], next, pending)
  | S fuel =>
      match pending !! next with
      | None => ([], next, pending)
      | Some res => let '(sent, next', pending') := flush fuel (next + 1)%N (delete next pending) in (sr_messages res :: sent, next', pending')
      end
  end.
Definition flushBroadcasts (d : dispatcher) : list (list broadcastMessage) * dispatcher :=
  let '(sent, next, kept) := flush (size (pending d)) (nextBroadcast d) (pending d) in
  (sent, d <| nextBroadcast := next |> <| pending := kept |>).

(** The first waiting terminal whose order has no batch outstanding, and the rest. *)
Fixpoint first_ready (d : dependencyTracker) (l : list waitingTerminal) : option (waitingTerminal * list waitingTerminal) :=
  match l with
  | [] => None
  | w :: l => if ready (wt_orderID w) d then Some (w, l) else '(x, l') ← first_ready d l; Some (x, w :: l')
  end.

(** [takeReadyTerminal]: a quarantined one is taken out and not returned. *)
Definition takeReadyTerminal (d : dispatcher) : option waitingTerminal * dispatcher :=
  match first_ready (dep d) (waiting d) with
  | None => (None, d)
  | Some (w, rest) =>
      let d := d <| waiting := rest |> in
      if quarantined (wt_orderID w) (dep d) then 
        (None, d <| dep := clearQuarantine (wt_orderID w) (dep d) |> <| m_deferred := m_deferred d ++ [wt_event w] |>)
      else (Some w, d)
  end.

Definition appendWaiting (event : OutboxEvent) (d : dispatcher) : dispatcher :=
  let orderID := terminalOrderID event in
  if decide (Exists (fun w => wt_orderID w = orderID) (waiting d)) then d <| m_duplicate := m_duplicate d ++ [event] |>
  else d <| waiting := waiting d ++ [mkWaiting event orderID] |>.

(** ** One round of the loop *)

Variables concurrency maxBatch : Z.

Definition maxOutstanding : Z := 2 * Z.max 1 concurrency.

(** (1): a terminal that can run comes first. *)
Definition prepare_terminal (d : dispatcher) : dispatcher :=
  match readyJob d with
  | Some _ => d
  | None =>
      if outstanding (dep d) <? maxOutstanding then
        match takeReadyTerminal d with
        | (Some w, d) => d <| readyJob := Some (jobTerminal (nextJobID d) (wt_event w)) |> <| nextJobID := (nextJobID d + 1)%N |>
        | (None, d) => d
        end
      else d
  end.

(** The event (2) starts from: the one carried over, or one from the queue. *)
Definition next_event (d : dispatcher) (queue : list OutboxEvent) (closed : bool) : option OutboxEvent * dispatcher * list OutboxEvent :=
  match carry d with
  | Some event => (Some event, d <| carry := None |>, queue)
  | None =>
      if queueOpen d then
        match queue with
        | event :: queue => (Some event, d, queue)
        | [] => (None, if closed then d <| queueOpen := false |> else d, [])
        end
      else (None, d, queue)
  end.

(** (2): the next batch; [true] when the loop starts over. *)
Definition prepare_batch (d : dispatcher) (queue : list OutboxEvent) (closed : bool) : bool * dispatcher * list OutboxEvent :=
  match readyJob d with
  | Some _ => (false, d, queue)
  | None =>
      if outstanding (dep d) <? maxOutstanding then
        match next_event d queue closed with
        | (None, d, queue) => (false, d, queue)
        | (Some first, d, queue) =>
            if is_trade first then
              let '(batch, next, open, queue) := collectTradeBatch first queue closed maxBatch in
              let d := match next with Some event => d <| carry := Some event |> | None => d end in
              let d := if open then d else d <| queueOpen := false |> in
              (false, d <| readyJob := Some (jobTrade (nextJobID d) (nextSeq d) batch) |>
                        <| nextJobID := (nextJobID d + 1)%N |> <| nextSeq := (nextSeq d + 1)%N |>, queue)
            else (true, appendWaiting first d, queue)
        end
      else (false, d, queue)
  end.

(** (3): nothing is left to do. *)
Definition finished (d : dispatcher) : bool :=
  negb (queueOpen d) && bool_decide (readyJob d = None) && (outstanding (dep d) =? 0) && bool_decide (carry d = None)
  && bool_decide (waiting d = []).

(** Where the goroutine is. *)
Inductive control := AtLoop | AtSelect | Returned.

(** From the head of the loop to its select; with the messages sent. *)
Definition prepare (d : dispatcher) (queue : list OutboxEvent) (closed : bool)
    : control * list (list broadcastMessage) * dispatcher * list OutboxEvent :=
  let '(again, d, queue) := prepare_batch (prepare_terminal d) queue closed in
  if again then (AtLoop, [], d, queue)
  else if finished d then let '(sent, d) := flushBroadcasts d in (Returned, sent, d, queue)
  else (AtSelect, [], d, queue).

(** The branches of the select. *)
Definition sent_job (j : settlementJob) (d : dispatcher) : dispatcher :=
  let orders := match j with jobTrade _ _ batch => touchedOrderIDs batch | jobTerminal _ _ => [] end in
  d <| dep := register (job_id j) orders (dep d) |> <| readyJob := None |>.

Definition completed (res : settlementResult) (d : dispatcher) : list (list broadcastMessage) * dispatcher :=
  let d := match retire (sr_id res) (sr_undurableOrderIDs res) (dep d) with Some dep' => d <| dep := dep' |> | None => d end in
  match sr_seq res with
  | Some seq => flushBroadcasts (d <| pending := <[seq := res]> (pending d) |>)
  | None => ([], d)
  end.

Definition input_enabled (d : dispatcher) : bool :=
  queueOpen d && bool_decide (readyJob d = None) && bool_decide (carry d = None) && (outstanding (dep d) <? maxOutstanding).

(** ** The dispatcher among producer and workers *)

Record system := mkSystem {
  s_d : dispatcher;
  s_at : control;
  s_queue : list OutboxEvent;
  s_closed : bool;
  s_jobs : list settlementJob;           (* sent, with no worker yet *)
  s_running : list settlementJob;        (* with a worker *)
  s_completions : list settlementResult;
  (* the history: what was read from the queue, the jobs sent, the jobs worked off
     with their results, and what was broadcast, a batch at a time *)
  s_taken : list OutboxEvent;
  s_handed : list settlementJob;
  s_settled : list (settlementJob * settlementResult);
  s_sent : list (list broadcastMessage) }.

#[export] Instance system_settable : Settable system := fun s =>
  mkSystem (s_d s) (s_at s) (s_queue s) (s_closed s) (s_jobs s) (s_running s) (s_completions s) (s_taken s) (s_handed s)
    (s_settled s) (s_sent s).

Definition initial_system : system := mkSystem initial_dispatcher AtLoop [] false [] [] [] [] [] [] [].

(** The result a worker may return for a job: any messages, and orders of its
    batch; neither for a terminal. *)
Definition result_of (j : settlementJob) (res : settlementResult) : Prop :=
  sr_id res = job_id j
  /\ match j with
     | jobTrade _ seq batch => sr_seq res = Some seq /\ Forall (fun id => id ∈ touchedOrderIDs batch) (sr_undurableOrderIDs res)
     | jobTerminal _ _ => sr_seq res = None /\ sr_messages res = [] /\ sr_undurableOrderIDs res = []
     end.

(** The outbox writer hands out events in the order of their ids. *)
Definition id_before (x y : OutboxEvent) : Prop := (oe_OutboxID x < oe_OutboxID y)%N.

(** The producer. *)
Inductive feed_step : system -> system -> Prop :=
| produce event s : s_closed s = false -> Forall (fun x => id_before x event) (s_taken s ++ s_queue s) ->
    feed_step s (s <| s_queue := s_queue s ++ [event] |>)
| close_queue s : feed_step s (s <| s_closed := true |>).

(** The dispatcher and the workers. *)
Inductive run_step : system -> system -> Prop :=
| loop s c sent d queue : s_at s = AtLoop -> prepare (s_d s) (s_queue s) (s_closed s) = (c, sent, d, queue) ->
    run_step s (s <| s_d := d |> <| s_at := c |> <| s_queue := queue |> <| s_sent := s_sent s ++ sent |>
                  <| s_taken := s_taken s ++ take (length (s_queue s) - length queue) (s_queue s) |>)
| send_job s j : s_at s = AtSelect -> readyJob (s_d s) = Some j ->
    run_step s (s <| s_d := sent_job j (s_d s) |> <| s_at := AtLoop |> <| s_jobs := s_jobs s ++ [j] |> <| s_handed := s_handed s ++ [j] |>)
| receive_result s res l sent d : s_at s = AtSelect -> s_completions s = res :: l -> completed res (s_d s) = (sent, d) ->
    run_step s (s <| s_d := d |> <| s_at := AtLoop |> <| s_completions := l |> <| s_sent := s_sent s ++ sent |>)
| receive_event s event queue : s_at s = AtSelect -> input_enabled (s_d s) = true -> s_queue s = event :: queue ->
    run_step s (s <| s_d := (s_d s) <| carry := Some event |> |> <| s_at := AtLoop |> <| s_queue := queue |> <| s_taken := s_taken s ++ [event] |>)
| receive_close s : s_at s = AtSelect -> input_enabled (s_d s) = true -> s_queue s = [] -> s_closed s = true ->
    run_step s (s <| s_d := (s_d s) <| queueOpen := false |> |> <| s_at := AtLoop |>)
| start_job s j l : s_jobs s = j :: l -> run_step s (s <| s_jobs := l |> <| s_running := s_running s ++ [j] |>)
| finish_job s j l1 l2 res : s_running s = l1 ++ j :: l2 -> result_of j res -> Z.of_nat (length (s_completions s)) < maxOutstanding ->
    run_step s (s <| s_running := l1 ++ l2 |> <| s_completions := s_completions s ++ [res] |> <| s_settled := s_settled s ++ [(j, res)] |>).

Definition sys_step (s s' : system) : Prop := feed_step s s' \/ run_step s s'.

Definition reachable_system : system -> Prop := rtc sys_step initial_system.
End Dispatcher.
