(* ===== verification/DispatcherInv.v ===== *)
(** * The settlement pipeline: what holds in every interleaving

    Three invariants of a dispatcher among its producer and workers: the tracker
    counts exactly the jobs that are out ([tracker_inv]); every event read is in
    one place, and a terminal event is let through after the trades of its order
    ([events_inv], [fence_inv]); broadcasts follow the order of the batches
    ([broadcast_inv]).  They are preserved by each piece of the loop and by each
    branch of the select, hence by every step of the system. *)
From S2P Require Import Prelude Decimal Model Containers Matching Dispatcher.
From Stdlib Require Import Lia.

Section DispatcherInv.
Context {DL : DecimalLib}.
Local Open Scope Z_scope.
Variables concurrency maxBatch : Z.

Abbreviation limit := (maxOutstanding concurrency).

(** ** Jobs *)

Definition olist {A} (o : option A) : list A := match o with Some x => [x] | None => [] end.

Lemma elem_of_olist {A} (x : A) o : x ∈ olist o <-> o = Some x.
Proof. destruct o; cbn; [rewrite list_elem_of_singleton; split; [by intros ->|by intros [= ->]] | split; [by intros ?%elem_of_nil|done]]. Qed.

Definition batch_of (j : settlementJob) : list OutboxEvent := match j with jobTrade _ _ batch => batch | jobTerminal _ _ => [] end.
Definition orders_of (j : settlementJob) : list N := touchedOrderIDs (batch_of j).
Definition terminal_of (j : settlementJob) : list OutboxEvent := match j with jobTrade _ _ _ => [] | jobTerminal _ event => [event] end.
Definition seq_of (j : settlementJob) : list N := match j with jobTrade _ seq _ => [seq] | jobTerminal _ _ => [] end.

Definition batches (l : list settlementJob) : list OutboxEvent := l ≫= batch_of.
Definition terminals (l : list settlementJob) : list OutboxEvent := l ≫= terminal_of.

Definition order_touched (id : N) (event : OutboxEvent) : Prop :=
  match oe_Event event with EvTrade trade => id = t_BuyOrderID trade \/ id = t_SellOrderID trade | _ => False end.

Lemma add_seen_spec l x id : id ∈ add_seen l x <-> id ∈ l \/ id = x.
Proof. unfold add_seen. case_decide; [split; [by left|by intros [?| ->]] | rewrite elem_of_app, list_elem_of_singleton; done]. Qed.

Lemma add_seen_nodup l x : NoDup l -> NoDup (add_seen l x).
Proof.
  unfold add_seen. case_decide; [done|]. intros Hl. apply NoDup_app. split; [done|].
  split; [by intros y Hy ->%list_elem_of_singleton|apply NoDup_singleton].
Qed.

Lemma touched_from orders batch id : id ∈ foldl touch orders batch <-> id ∈ orders \/ Exists (order_touched id) batch.
Proof.
  revert orders. induction batch as [|e batch IH]; intros orders; cbn [foldl].
  - rewrite Exists_nil. tauto.
  - rewrite IH, Exists_cons. unfold touch, order_touched at 2. destruct (oe_Event e); rewrite ?add_seen_spec; tauto.
Qed.

Lemma touched_spec batch id : id ∈ touchedOrderIDs batch <-> Exists (order_touched id) batch.
Proof. unfold touchedOrderIDs. rewrite touched_from. split; [by intros [?%elem_of_nil|?]|by right]. Qed.

Lemma touched_nodup batch : NoDup (touchedOrderIDs batch).
Proof.
  unfold touchedOrderIDs. generalize (@NoDup_nil_2 N). generalize (@nil N). induction batch as [|e batch IH]; intros orders Ho; [done|].
  cbn [foldl]. apply IH. unfold touch. destruct (oe_Event e); auto using add_seen_nodup.
Qed.

(** ** The tracker counts the jobs that are out *)

Definition touching (id : N) (l : list settlementJob) : nat := length (filter (fun j => id ∈ orders_of j) l).

Lemma touching_cons id j l : touching id (j :: l) = ((if decide (id ∈ orders_of j) then 1 else 0) + touching id l)%nat.
Proof. unfold touching. rewrite filter_cons. case_decide; done. Qed.

Lemma touching_perm id l l' : l ≡ₚ l' -> touching id l = touching id l'.
Proof. intros H. unfold touching. by rewrite H. Qed.

Lemma touching_zero id l j : touching id l = 0%nat -> j ∈ l -> id ∉ orders_of j.
Proof. intros H Hj Hin. apply length_zero_iff_nil in H. apply (elem_of_nil (A := settlementJob) j). rewrite <- H. by apply list_elem_of_filter. Qed.

Definition mcount (m : gmap N Z) (id : N) : Z := default 0 (m !! id).

Lemma incr_count m x id : mcount (incr m x) id = mcount m id + (if decide (id = x) then 1 else 0).
Proof. unfold mcount, incr. case_decide; subst; [by rewrite lookup_insert_eq|rewrite lookup_insert_ne by done; lia]. Qed.

Lemma decr_count m x id : 1 <= mcount m x -> mcount (decr m x) id = mcount m id - (if decide (id = x) then 1 else 0).
Proof.
  unfold mcount, decr. intros Hx. destruct (Z.leb_spec (default 0 (m !! x) - 1) 0).
  - case_decide; subst; [rewrite lookup_delete_eq; cbn; lia|rewrite lookup_delete_ne by done; lia].
  - case_decide; subst; [by rewrite lookup_insert_eq|rewrite lookup_insert_ne by done; lia].
Qed.

Local Ltac split_cases := repeat case_decide; rewrite ?elem_of_cons in *; try lia; exfalso; subst; tauto.

Lemma incr_all orders m id : NoDup orders -> mcount (foldl incr m orders) id = mcount m id + (if decide (id ∈ orders) then 1 else 0).
Proof.
  revert m. induction orders as [|x orders IH]; intros m Hnd; cbn [foldl].
  - rewrite decide_False by apply not_elem_of_nil. lia.
  - apply NoDup_cons in Hnd as [Hx Hnd]. rewrite IH, incr_count by done. split_cases.
Qed.

Lemma decr_all orders m id : NoDup orders -> (forall x, x ∈ orders -> 1 <= mcount m x) ->
  mcount (foldl decr m orders) id = mcount m id - (if decide (id ∈ orders) then 1 else 0).
Proof.
  revert m. induction orders as [|x orders IH]; intros m Hnd Hpos; cbn [foldl].
  - rewrite decide_False by apply not_elem_of_nil. lia.
  - apply NoDup_cons in Hnd as [Hx Hnd]. assert (Hpx : 1 <= mcount m x) by (apply Hpos; left).
    rewrite IH, decr_count; [split_cases|done|done|].
    intros y Hy. rewrite decr_count by done. destruct (decide (y = x)) as [->|]; [done|]. enough (1 <= mcount m y) by lia. apply Hpos. by right.
Qed.

(** [out] are the jobs sent and not retired, in any order. *)
Record tracker_inv (d : dispatcher) (out : list settlementJob) : Prop := {
  tr_orders : forall j, j ∈ out -> dispatched (dep d) !! job_id j = Some (orders_of j);
  tr_count : forall id, count_of (dep d) id = Z.of_nat (touching id out);
  tr_jobs : jobs (dep d) = Z.of_nat (length out);
  tr_fresh : forall j, j ∈ out ++ olist (readyJob d) -> (job_id j < nextJobID d)%N;
  tr_distinct : NoDup (job_id <$> out ++ olist (readyJob d));
  tr_limit : Z.of_nat (length (out ++ olist (readyJob d))) <= limit }.

(** What the rest of a step may change. *)
Lemma tracker_same d d' out : dep d' = dep d -> readyJob d' = readyJob d -> nextJobID d' = nextJobID d -> tracker_inv d out -> tracker_inv d' out.
Proof. intros E1 E2 E3 [H1 H2 H3 H4 H5 H6]. split; rewrite ?E1, ?E2, ?E3; done. Qed.

Lemma tracker_perm d out out' : out ≡ₚ out' -> tracker_inv d out -> tracker_inv d out'.
Proof.
  intros Hp [H1 H2 H3 H4 H5 H6]. split; [| | |..]; try setoid_rewrite <- Hp; auto.
  intros id. by rewrite <- (touching_perm id _ _ Hp).
Qed.

Lemma tracker_initial : tracker_inv initial_dispatcher [].
Proof. split; try done; try (by intros ? ?%elem_of_nil); cbn; [apply NoDup_nil_2|unfold maxOutstanding; lia]. Qed.

(** A job prepared within the limit. *)
Lemma tracker_ready d d' out j : dep d' = dep d -> readyJob d = None -> readyJob d' = Some j -> job_id j = nextJobID d ->
  nextJobID d' = (nextJobID d + 1)%N -> outstanding (dep d) < limit -> tracker_inv d out -> tracker_inv d' out.
Proof.
  intros E1 E2 E3 E4 E5 Hlt [H1 H2 H3 H4 H5 H6]. rewrite E2 in *. cbn [olist] in *. rewrite app_nil_r in *.
  split; rewrite ?E1, ?E3, ?E5; try done; cbn [olist].
  - intros j'. rewrite elem_of_app, list_elem_of_singleton. intros [Hj| ->]; [specialize (H4 j' Hj); lia|lia].
  - rewrite fmap_app. apply NoDup_app. split; [done|]. split; [|apply NoDup_singleton].
    intros id [j' [-> Hj]]%list_elem_of_fmap Hid%list_elem_of_singleton. specialize (H4 j' Hj). lia.
  - unfold outstanding in Hlt. rewrite length_app. cbn. lia.
Qed.

Lemma tracker_sent d out j : readyJob d = Some j -> tracker_inv d out -> tracker_inv (sent_job j d) (out ++ [j]).
Proof.
  intros E [H1 H2 H3 H4 H5 H6]. rewrite E in *. cbn [olist] in *.
  assert (Ho : match j with jobTrade _ _ batch => touchedOrderIDs batch | jobTerminal _ _ => [] end = orders_of j) by by destruct j.
  split; cbn; rewrite ?app_nil_r, ?Ho; try done.
  - intros j'. rewrite elem_of_app, list_elem_of_singleton. intros [Hj| ->]; [|by rewrite lookup_insert_eq].
    rewrite lookup_insert_ne; [by apply H1|]. intros E'. rewrite fmap_app in H5. apply NoDup_app in H5 as (_ & H5 & _).
    apply (H5 (job_id j')); [by apply list_elem_of_fmap_2|]. apply list_elem_of_singleton. done.
  - intros id. unfold count_of. cbn. change (mcount (foldl incr (inFlight (dep d)) (orders_of j)) id = Z.of_nat (touching id (out ++ [j]))).
    rewrite incr_all by apply touched_nodup. change (mcount (inFlight (dep d)) id) with (count_of (dep d) id). rewrite H2.
    rewrite (touching_perm id (out ++ [j]) (j :: out)) by (by rewrite Permutation_app_comm). rewrite touching_cons. case_decide; lia.
  - rewrite length_app. cbn. lia.
Qed.

Lemma tracker_retired d out j undurable : tracker_inv d (j :: out) ->
  exists dep', retire (job_id j) undurable (dep d) = Some dep' /\ unsafeOrders dep' = list_to_set undurable ∪ unsafeOrders (dep d)
    /\ tracker_inv (d <| dep := dep' |>) out.
Proof.
  intros [H1 H2 H3 H4 H5 H6]. unfold retire. rewrite (H1 j) by left. eexists. split; [done|]. split; [done|].
  cbn in H5. apply NoDup_cons in H5 as [Hj H5]. split; cbn.
  - intros j' Hin. rewrite lookup_delete_ne; [apply H1; by right|]. intros E. apply Hj. rewrite E.
    apply list_elem_of_fmap_2. apply elem_of_app. by left.
  - intros id. unfold count_of. cbn. change (mcount (foldl decr (inFlight (dep d)) (orders_of j)) id = Z.of_nat (touching id out)).
    assert (Hc : forall x, mcount (inFlight (dep d)) x = Z.of_nat (touching x (j :: out))) by apply H2.
    rewrite decr_all, Hc, touching_cons; [case_decide; lia|apply touched_nodup|]. intros x Hx. rewrite Hc, touching_cons, decide_True by done. lia.
  - cbn in H3. lia.
  - intros j' Hin. apply H4. by right.
  - done.
  - cbn in H6. lia.
Qed.

(** Workers never wait to report a result: of the jobs that are out, those that
    are reported are fewer than the channel holds. *)
Lemma tracker_reported d unreported reported : tracker_inv d (reported ++ unreported) -> unreported <> [] -> Z.of_nat (length reported) < limit.
Proof. intros [_ _ _ _ _ H6] Hne. rewrite !length_app in H6. destruct unreported; [done|]. cbn in H6. lia. Qed.

(** ** Where the events are *)

Definition trades (l : list OutboxEvent) : list OutboxEvent := filter (fun e => is_trade e = true) l.
Definition others (l : list OutboxEvent) : list OutboxEvent := filter (fun e => is_trade e = false) l.

Definition prepared (d : dispatcher) (handed : list settlementJob) : list settlementJob := handed ++ olist (readyJob d).

Record events_inv (d : dispatcher) (taken queue : list OutboxEvent) (closed : bool) (handed : list settlementJob) : Prop := {
  ev_sorted : StronglySorted id_before (taken ++ queue);
  ev_trades : trades taken = batches (prepared d handed) ++ trades (olist (carry d));
  ev_terminals : (wt_event <$> waiting d) ++ m_deferred d ++ m_duplicate d ++ terminals (prepared d handed) ++ others (olist (carry d)) ≡ₚ others taken;
  ev_orders : forall w, w ∈ waiting d -> wt_orderID w = terminalOrderID (wt_event w);
  ev_closed : queueOpen d = false -> closed = true /\ queue = [] }.

(** [done] are the jobs whose result was received, with the result. *)
Record fence_inv (d : dispatcher) (taken : list OutboxEvent) (handed : list settlementJob) (retired : list (settlementJob * settlementResult)) : Prop := {
  fe_waiting : forall w e, w ∈ waiting d -> e ∈ trades taken -> id_before e (wt_event w) -> e ∈ batches handed;
  fe_passed : forall w e, w ∈ terminals (prepared d handed) -> e ∈ taken -> order_touched (terminalOrderID w) e -> id_before e w ->
    exists j res, (j, res) ∈ retired /\ e ∈ batch_of j
      /\ (terminalOrderID w ∈ sr_undurableOrderIDs res -> exists w', w' ∈ m_deferred d /\ terminalOrderID w' = terminalOrderID w);
  fe_unsafe : forall j res id, (j, res) ∈ retired -> id ∈ sr_undurableOrderIDs res ->
    id ∈ unsafeOrders (dep d) \/ exists w', w' ∈ m_deferred d /\ terminalOrderID w' = id }.

Lemma batches_app l l' : batches (l ++ l') = batches l ++ batches l'.
Proof. apply bind_app. Qed.
Lemma terminals_app l l' : terminals (l ++ l') = terminals l ++ terminals l'.
Proof. apply bind_app. Qed.
Lemma trades_app l l' : trades (l ++ l') = trades l ++ trades l'.
Proof. apply filter_app. Qed.
Lemma others_app l l' : others (l ++ l') = others l ++ others l'.
Proof. apply filter_app. Qed.

Lemma elem_of_batches e l : e ∈ batches l <-> exists j, e ∈ batch_of j /\ j ∈ l.
Proof. apply list_elem_of_bind. Qed.
Lemma elem_of_trades e l : e ∈ trades l <-> is_trade e = true /\ e ∈ l.
Proof. unfold trades. by rewrite list_elem_of_filter. Qed.
Lemma elem_of_others e l : e ∈ others l <-> is_trade e = false /\ e ∈ l.
Proof. unfold others. by rewrite list_elem_of_filter. Qed.

Lemma touched_is_trade id e : order_touched id e -> is_trade e = true.
Proof. unfold order_touched, is_trade. by destruct (oe_Event e). Qed.

Lemma touched_by_job id e j : order_touched id e -> e ∈ batch_of j -> id ∈ orders_of j.
Proof. intros H He. apply touched_spec, Exists_exists. exists e. by split. Qed.

Lemma sorted_before (l l' : list OutboxEvent) x y : StronglySorted id_before (l ++ l') -> x ∈ l -> y ∈ l' -> id_before x y.
Proof.
  induction l as [|z l IH]; [by intros _ ?%elem_of_nil|]. cbn. intros [Hs Hz]%StronglySorted_inv [->|Hx]%elem_of_cons Hy; [|auto].
  rewrite Forall_forall in Hz. apply Hz, elem_of_app. by right.
Qed.

(** Every terminal event in the dispatcher's hands was read. *)
Lemma waiting_taken d taken queue closed handed w : events_inv d taken queue closed handed -> w ∈ waiting d -> wt_event w ∈ taken.
Proof.
  intros H Hw. enough (wt_event w ∈ others taken) by (by apply elem_of_others in H0 as [_ ?]).
  rewrite <- (ev_terminals _ _ _ _ _ H). apply elem_of_app. left. by apply list_elem_of_fmap_2.
Qed.
Lemma passed_taken d taken queue closed handed w : events_inv d taken queue closed handed -> w ∈ terminals (prepared d handed) -> w ∈ taken.
Proof.
  intros H Hw. enough (w ∈ others taken) by (by apply elem_of_others in H0 as [_ ?]).
  rewrite <- (ev_terminals _ _ _ _ _ H), !elem_of_app. tauto.
Qed.

(** What is read later has a greater id. *)
Lemma fence_taken d taken queue closed handed retired c : StronglySorted id_before (taken ++ c) -> events_inv d taken queue closed handed ->
  fence_inv d taken handed retired -> fence_inv d (taken ++ c) handed retired.
Proof.
  intros Hs He [H1 H2 H3].
  assert (Hlate : forall w e, w ∈ taken -> e ∈ c -> ~ id_before e w).
  { intros w e Hw Hin Hb. pose proof (sorted_before _ _ _ _ Hs Hw Hin) as Hb'. unfold id_before in Hb, Hb'. lia. }
  split; [| |done].
  - intros w e Hw. rewrite trades_app, elem_of_app. intros [Hin|[_ Hin]%elem_of_trades] Hb; [by apply (H1 w)|].
    destruct (Hlate (wt_event w) e); [by apply (waiting_taken _ _ _ _ _ _ He)|done|done].
  - intros w e Hw. rewrite elem_of_app. intros [Hin|Hin] Ht Hb; [by apply H2|].
    destruct (Hlate w e); [by apply (passed_taken _ _ _ _ _ _ He)|done|done].
Qed.

Definition flow_inv d taken queue closed handed retired : Prop :=
  events_inv d taken queue closed handed /\ fence_inv d taken handed retired.

Lemma flow_initial queue closed : StronglySorted id_before queue -> flow_inv initial_dispatcher [] queue closed [] [].
Proof. intros Hs. split; split; cbn; try done; by intros ? ? ?%elem_of_nil || by intros ? ?%elem_of_nil || by intros ? ? ? ?%elem_of_nil. Qed.

(** An event is read. *)
Lemma flow_read d taken e queue closed handed retired : carry d = None -> flow_inv d taken (e :: queue) closed handed retired ->
  flow_inv (d <| carry := Some e |>) (taken ++ [e]) queue closed handed retired.
Proof.
  intros Ec [He Hf]. pose proof He as [H1 H2 H3 H4 H5]. rewrite Ec in *. cbn [olist] in *.
  assert (Hs : StronglySorted id_before ((taken ++ [e]) ++ queue)) by by rewrite <- app_assoc.
  split; [split|]; try done.
  - cbn [carry set_field const_to]. rewrite trades_app, H2. change (trades []) with (@nil OutboxEvent). by rewrite app_nil_r.
  - cbn. change (others []) with (@nil OutboxEvent) in H3. rewrite app_nil_r in H3. rewrite others_app, <- H3, <- !app_assoc. done.
  - cbn. intros Hq. by destruct (H5 Hq).
  - apply StronglySorted_app in Hs as (_ & Hs & _). destruct (fence_taken _ _ _ _ _ _ [e] Hs He Hf) as [F1 F2 F3]. by split.
Qed.

(** A terminal event is set aside. *)
Lemma flow_wait d taken queue closed handed retired e : readyJob d = None -> carry d = Some e -> is_trade e = false ->
  flow_inv d taken queue closed handed retired -> flow_inv (appendWaiting e (d <| carry := None |>)) taken queue closed handed retired.
Proof.
  intros Er Ec Et [[H1 H2 H3 H4 H5] [F1 F2 F3]]. unfold prepared in *. rewrite Er, Ec in *. cbn [olist] in *. rewrite app_nil_r in *.
  assert (Ho : others [e] = [e]) by (unfold others; by rewrite filter_cons, decide_True).
  assert (Htr : trades [e] = []) by (unfold trades; rewrite filter_cons, decide_False by congruence; done).
  rewrite Ho in H3. rewrite Htr, app_nil_r in H2.
  unfold appendWaiting. cbn [waiting set_field const_to]. case_decide as Hdup; (split; split; cbn; unfold prepared; cbn; rewrite ?Er; cbn [olist]; rewrite ?app_nil_r; try done).
  - rewrite <- H3, <- !app_assoc. do 3 (apply Permutation_app; [done|]). apply Permutation_app_comm.
  - rewrite fmap_app. cbn. rewrite <- H3, <- !app_assoc. apply Permutation_app; [done|]. by rewrite (Permutation_app_comm [e]), <- !app_assoc.
  - intros w [Hw| ->%list_elem_of_singleton]%elem_of_app; [by apply H4|done].
  - intros w x Hw Hx. rewrite <- H2. done.
Qed.

Lemma trades_all l : Forall (fun e => is_trade e = true) l -> trades l = l /\ others l = [].
Proof.
  intros H. induction H as [|e l He Hl [IH1 IH2]]; [done|]. unfold trades, others in *.
  rewrite !filter_cons, decide_True, decide_False by congruence. by rewrite IH1.
Qed.

Lemma others_all l : Forall (fun e => is_trade e = false) l -> others l = l /\ trades l = [].
Proof.
  intros H. induction H as [|e l He Hl [IH1 IH2]]; [done|]. unfold trades, others in *.
  rewrite !filter_cons, decide_True, decide_False by congruence. by rewrite IH1.
Qed.

Lemma collect_more_spec room queue closed batch next open queue' : collect_more room queue closed = (batch, next, open, queue') ->
  queue = batch ++ olist next ++ queue' /\ Forall (fun e => is_trade e = true) batch /\ Forall (fun e => is_trade e = false) (olist next)
  /\ (open = false -> closed = true /\ queue' = []).
Proof.
  revert queue batch. induction room as [|room IH]; intros queue batch; cbn [collect_more].
  { intros [= <- <- <- <-]. done. }
  destruct queue as [|e queue]; [intros [= <- <- <- <-]; by destruct closed|].
  destruct (is_trade e) eqn:Ee.
  - destruct (collect_more room queue closed) as [[[b n] o] q] eqn:E. intros [= <- <- <- <-].
    destruct (IH _ _ E) as (-> & Hb & Hn & Ho). by repeat split; [constructor| |apply Ho|apply Ho].
  - intros [= <- <- <- <-]. repeat split; [constructor|by constructor|done|done].
Qed.

(** A batch is prepared. *)
Lemma flow_batch d taken queue closed handed retired first id seq batch next open queue' d' :
  readyJob d = None -> carry d = Some first -> is_trade first = true ->
  collectTradeBatch first queue closed maxBatch = (batch, next, open, queue') ->
  dep d' = dep d -> waiting d' = waiting d -> m_deferred d' = m_deferred d -> m_duplicate d' = m_duplicate d ->
  readyJob d' = Some (jobTrade id seq batch) -> carry d' = next -> (queueOpen d' = false -> open = false \/ queueOpen d = false) ->
  flow_inv d taken queue closed handed retired ->
  exists c, queue = c ++ queue' /\ flow_inv d' (taken ++ c) queue' closed handed retired.
Proof.
  unfold collectTradeBatch. intros Er Ec Et Hc E1 E2 E3 E4 E5 E6 E7 [He Hf].
  destruct (collect_more _ queue closed) as [[[b n] o] q] eqn:E. simplify_eq.
  destruct (collect_more_spec _ _ _ _ _ _ _ E) as (Hq & Hb & Hn & Ho). exists (b ++ olist (carry d')).
  split; [by rewrite <- app_assoc|]. pose proof He as [H1 H2 H3 H4 H5].
  destruct (trades_all _ Hb) as [Tb Ob]. destruct (others_all _ Hn) as [On Tn].
  assert (Hs : StronglySorted id_before (((taken ++ b ++ olist (carry d'))) ++ queue')) by by rewrite <- app_assoc, <- (app_assoc b), <- Hq.
  unfold prepared in *. rewrite Er, Ec in *. cbn [olist] in *. rewrite app_nil_r in *.
  assert (Hf1 : trades [first] = [first] /\ others [first] = []) by (apply trades_all; by repeat constructor). destruct Hf1 as [Tf Of].
  split; [split|].
  - done.
  - unfold prepared. rewrite E5, !trades_app, Tb, Tn, H2, batches_app, Tf, <- !app_assoc. cbn. by rewrite !app_nil_r.
  - unfold prepared. rewrite E2, E3, E4, E5, !others_app, Ob, <- H3, terminals_app, Of, <- !app_assoc. cbn. done.
  - by rewrite E2.
  - intros Hopen. destruct (E7 Hopen) as [->|Hd]; [by apply Ho|]. destruct (H5 Hd) as [? ->].
    destruct b; [|done]. destruct (carry d'); [done|]. cbn in Hq. by split.
  - apply StronglySorted_app in Hs as (_ & Hs & _). destruct (fence_taken _ _ _ _ _ _ _ Hs He Hf) as [F1 F2 F3].
    unfold prepared in *. rewrite Er in F2. cbn [olist] in F2. rewrite app_nil_r in F2.
    split; unfold prepared; rewrite ?E1, ?E2, ?E3, ?E5; try done. rewrite terminals_app. cbn. by rewrite app_nil_r.
Qed.

(** ** The terminals that can run *)

Lemma first_ready_spec dep l w rest : first_ready dep l = Some (w, rest) ->
  ready (wt_orderID w) dep = true /\ w :: rest ≡ₚ l.
Proof.
  revert w rest. induction l as [|x l IH]; intros w rest; cbn [first_ready]; [done|]. destruct (ready (wt_orderID x) dep) eqn:E.
  - intros [= -> ->]. done.
  - destruct (first_ready dep l) as [[y l']|]; [|done]. intros [= <- <-]. destruct (IH _ _ eq_refl) as [Hy <-]. split; [done|apply perm_swap].
Qed.

Lemma first_ready_none dep l w : first_ready dep l = None -> w ∈ l -> ready (wt_orderID w) dep = false.
Proof.
  induction l as [|x l IH]; cbn [first_ready]; [by intros _ ?%elem_of_nil|]. destruct (ready (wt_orderID x) dep) eqn:E; [done|].
  destruct (first_ready dep l) as [[]|]; [done|]. intros _ [->|Hw]%elem_of_cons; [done|by apply IH].
Qed.

(** A terminal event leaves the waiting list to run. *)
Lemma flow_run d taken queue closed handed retired out w rest id next :
  readyJob d = None -> handed ≡ₚ retired.*1 ++ out -> tracker_inv d out -> first_ready (dep d) (waiting d) = Some (w, rest) ->
  quarantined (wt_orderID w) (dep d) = false -> flow_inv d taken queue closed handed retired ->
  flow_inv (d <| waiting := rest |> <| readyJob := Some (jobTerminal id (wt_event w)) |> <| nextJobID := next |>) taken queue closed handed retired.
Proof.
  intros Er Hh Ht Hr Hq [He [F1 F2 F3]]. pose proof He as [H1 H2 H3 H4 H5]. destruct (first_ready_spec _ _ _ _ Hr) as [Hw Hp].
  assert (Hin : w ∈ waiting d) by (rewrite <- Hp; left). pose proof (H4 w Hin) as Hid. unfold prepared in *. rewrite Er in *. cbn [olist] in *.
  rewrite app_nil_r in *. split; split; cbn; unfold prepared; cbn; try done.
  - rewrite batches_app. cbn. by rewrite app_nil_r.
  - rewrite terminals_app. cbn. rewrite <- H3, <- Hp. cbn. rewrite <- !app_assoc. cbn. symmetry. rewrite !app_assoc. apply Permutation_middle.
  - intros x Hx. apply H4. rewrite <- Hp. by right.
  - intros x e Hx. apply F1. rewrite <- Hp. by right.
  - intros x e. rewrite terminals_app, elem_of_app. cbn. rewrite list_elem_of_singleton. intros [Hx| ->] Hin' Hto Hb; [by apply F2|].
    assert (Hb' : e ∈ batches handed) by (apply (F1 w); [done| |done]; apply elem_of_trades; split; [by eapply touched_is_trade|done]).
    apply elem_of_batches in Hb' as (j & Hj & Hjh). rewrite Hh, elem_of_app in Hjh. destruct Hjh as [Hjh|Hjo].
    + apply list_elem_of_fmap in Hjh as ([j' res] & -> & Hd). exists j', res. split; [done|]. split; [done|]. intros Hu.
      destruct (F3 _ _ _ Hd Hu) as [Hun|?]; [|done]. unfold quarantined in Hq. rewrite Hid in Hq. by apply bool_decide_eq_false in Hq.
    + destruct (touching_zero (terminalOrderID (wt_event w)) out j); [|done|by eapply touched_by_job].
      unfold ready in Hw. apply Z.eqb_eq in Hw. rewrite (tr_count _ _ Ht), Hid in Hw. lia.
Qed.

(** A quarantined one is dropped. *)
Lemma flow_defer d taken queue closed handed retired w rest : first_ready (dep d) (waiting d) = Some (w, rest) ->
  flow_inv d taken queue closed handed retired ->
  flow_inv (d <| waiting := rest |> <| dep := clearQuarantine (wt_orderID w) (dep d) |> <| m_deferred := m_deferred d ++ [wt_event w] |>)
    taken queue closed handed retired.
Proof.
  intros Hr [He [F1 F2 F3]]. pose proof He as [H1 H2 H3 H4 H5]. destruct (first_ready_spec _ _ _ _ Hr) as [Hw Hp].
  assert (Hid : wt_orderID w = terminalOrderID (wt_event w)) by (apply H4; rewrite <- Hp; left).
  split; split; cbn; unfold prepared in *; cbn; try done.
  - rewrite <- H3, <- Hp. cbn. rewrite <- !app_assoc. cbn. symmetry. rewrite !app_assoc. rewrite <- Permutation_middle, <- !app_assoc. done.
  - intros x Hx. apply H4. rewrite <- Hp. by right.
  - intros x e Hx. apply F1. rewrite <- Hp. by right.
  - intros x e Hx Hin Hto Hb. destruct (F2 x e Hx Hin Hto Hb) as (j & res & Hd & Hj & Hu). exists j, res. split; [done|]. split; [done|].
    intros (w' & Hw' & E)%Hu. exists w'. by split; [apply elem_of_app; left|].
  - intros j res id Hd Hu. destruct (F3 j res id Hd Hu) as [Hun|(w' & Hw' & E)].
    + destruct (decide (id = wt_orderID w)) as [->|Hne]; [right; exists (wt_event w); by rewrite elem_of_app, list_elem_of_singleton; split; [right|]|].
      left. apply elem_of_difference. by rewrite elem_of_singleton.
    + right. exists w'. by split; [apply elem_of_app; left|].
Qed.

Lemma prepare_terminal_inv d taken queue closed handed retired out :
  handed ≡ₚ retired.*1 ++ out -> tracker_inv d out -> flow_inv d taken queue closed handed retired ->
  tracker_inv (prepare_terminal concurrency d) out /\ flow_inv (prepare_terminal concurrency d) taken queue closed handed retired.
Proof.
  intros Hh Ht Hf. unfold prepare_terminal. destruct (readyJob d) eqn:Er; [done|].
  destruct (Z.ltb_spec (outstanding (dep d)) limit) as [Hlt|]; [|done]. unfold takeReadyTerminal.
  destruct (first_ready (dep d) (waiting d)) as [[w rest]|] eqn:Hr; [|done].
  change (dep (d <| waiting := rest |>)) with (dep d). destruct (quarantined (wt_orderID w) (dep d)) eqn:Hq.
  - split; [|exact (flow_defer _ _ _ _ _ _ _ _ Hr Hf)]. destruct Ht as [T1 T2 T3 T4 T5 T6]. by split.
  - split; [|exact (flow_run _ _ _ _ _ _ _ _ _ _ _ Er Hh Ht Hr Hq Hf)].
    by apply (tracker_ready d _ out (jobTerminal (nextJobID d) (wt_event w))).
Qed.

(** ** Broadcasts follow the batches *)

Definition trade_jobs (l : list settlementJob) : list settlementJob := filter (fun j => seq_of j <> []) l.

Lemma trade_jobs_app l l' : trade_jobs (l ++ l') = trade_jobs l ++ trade_jobs l'.
Proof. apply filter_app. Qed.

Lemma elem_of_trade_jobs j l q : seq_of j = [q] -> j ∈ trade_jobs l <-> j ∈ l.
Proof. intros E. unfold trade_jobs. rewrite list_elem_of_filter, E. split; [by intros []|by split]. Qed.

(** The messages sent are those of the first results in the order of the batches,
    and what is kept is what follows them. *)
Record emitted (next : N) (kept : gmap N settlementResult) (retired : list (settlementJob * settlementResult)) (sent : list (list broadcastMessage)) : Prop := {
  em_next : next = N.of_nat (S (length sent));
  em_sent : forall i ms, sent !! i = Some ms -> exists j res, (j, res) ∈ retired /\ seq_of j = [N.of_nat (S i)] /\ sr_messages res = ms;
  em_from : forall q res, kept !! q = Some res -> exists j, (j, res) ∈ retired /\ seq_of j = [q];
  em_kept : forall j res q, (j, res) ∈ retired -> seq_of j = [q] -> (next <= q)%N -> kept !! q = Some res }.

Definition numbered (next : N) (l : list settlementJob) : Prop :=
  (forall i j, trade_jobs l !! i = Some j -> seq_of j = [N.of_nat (S i)]) /\ next = N.of_nat (S (length (trade_jobs l))).

Record broadcast_inv (d : dispatcher) (handed : list settlementJob) (retired : list (settlementJob * settlementResult)) (sent : list (list broadcastMessage)) : Prop := {
  bc_numbered : numbered (nextSeq d) (prepared d handed);
  bc_emitted : emitted (nextBroadcast d) (pending d) retired sent;
  bc_flushed : pending d !! nextBroadcast d = None }.

Lemma broadcast_initial : broadcast_inv initial_dispatcher [] [] [].
Proof. split; [done| |done]. split; try done. by intros ? ? ? ?%elem_of_nil. Qed.

Lemma broadcast_same d d' handed retired sent : readyJob d' = readyJob d -> nextSeq d' = nextSeq d -> nextBroadcast d' = nextBroadcast d ->
  pending d' = pending d -> broadcast_inv d handed retired sent -> broadcast_inv d' handed retired sent.
Proof. intros E1 E2 E3 E4 [H1 H2 H3]. split; unfold prepared in *; by rewrite ?E1, ?E2, ?E3, ?E4. Qed.

Lemma numbered_trade l next id batch : numbered next l -> numbered (next + 1) (l ++ [jobTrade id next batch]).
Proof.
  intros [H1 H2]. unfold numbered. rewrite trade_jobs_app. change (trade_jobs [jobTrade id next batch]) with [jobTrade id next batch].
  split; [|rewrite length_app; cbn; lia]. intros i j [Hi|[Hi Hj]]%lookup_app_Some; [by apply H1|]. apply list_lookup_singleton_Some in Hj as [Hi' <-].
  cbn. f_equal. lia.
Qed.

Lemma numbered_terminal l next id event : numbered next l -> numbered next (l ++ [jobTerminal id event]).
Proof. unfold numbered. rewrite trade_jobs_app. change (trade_jobs [jobTerminal id event]) with (@nil settlementJob). by rewrite app_nil_r. Qed.

Lemma numbered_prefix next d handed : numbered next (prepared d handed) -> exists n, numbered n handed.
Proof.
  intros [H _]. eexists. split; [|done]. intros i j Hi. apply H. unfold prepared. rewrite trade_jobs_app. by apply lookup_app_l_Some.
Qed.

(** Two jobs with the same number are one. *)
Lemma numbered_nodup next l : numbered next l -> NoDup (trade_jobs l).
Proof. intros [H _]. apply NoDup_alt. intros i i' j Hi Hi'. apply H in Hi, Hi'. rewrite Hi in Hi'. injection Hi'. lia. Qed.

Lemma numbered_unique next l j j' q : numbered next l -> j ∈ l -> j' ∈ l -> seq_of j = [q] -> seq_of j' = [q] -> j = j'.
Proof.
  intros [H _] Hj Hj' E E'. apply (elem_of_trade_jobs _ _ _ E) in Hj as [i Hi]%list_elem_of_lookup.
  apply (elem_of_trade_jobs _ _ _ E') in Hj' as [i' Hi']%list_elem_of_lookup.
  pose proof (H _ _ Hi). pose proof (H _ _ Hi'). assert (N.of_nat (S i) = N.of_nat (S i')) by congruence. assert (i = i') by lia. congruence.
Qed.

Lemma flush_inv fuel next kept retired sent sent' next' kept' : flush fuel next kept = (sent', next', kept') -> (size kept <= fuel)%nat ->
  emitted next kept retired sent -> emitted next' kept' retired (sent ++ sent') /\ kept' !! next' = None.
Proof.
  revert next kept sent sent'. induction fuel as [|fuel IH]; intros next kept sent sent'; cbn [flush].
  { intros [= <- <- <-] Hs He. rewrite app_nil_r. split; [done|]. assert (kept = ∅) as -> by (apply map_size_empty_inv; lia). apply lookup_empty. }
  destruct (kept !! next) as [res|] eqn:Hn.
  - destruct (flush fuel (next + 1) (delete next kept)) as [[s1 n1] k1] eqn:E. intros [= <- <- <-] Hs [E1 E2 E3 E4].
    rewrite cons_middle, app_assoc. apply (IH _ _ _ _ E); [rewrite map_size_delete, Hn; lia|]. split.
    + rewrite length_app. cbn. lia.
    + intros i ms [Hi|[Hi Hm]]%lookup_app_Some; [by apply E2|]. apply list_lookup_singleton_Some in Hm as [Hi' <-].
      destruct (E3 _ _ Hn) as (j & Hj & Hq). exists j, res. split; [done|]. split; [|done]. rewrite Hq. f_equal. lia.
    + intros q res' [_ Hq]%lookup_delete_Some. by apply E3.
    + intros j res' q Hj Hq Hle. rewrite lookup_delete_ne by lia. apply (E4 j); [done|done|lia].
  - intros [= <- <- <-] Hs He. by rewrite app_nil_r.
Qed.

Lemma flushBroadcasts_inv d handed retired sent sent' d' : flushBroadcasts d = (sent', d') -> numbered (nextSeq d) (prepared d handed) ->
  emitted (nextBroadcast d) (pending d) retired sent -> broadcast_inv d' handed retired (sent ++ sent') /\ d' = d <| nextBroadcast := nextBroadcast d' |> <| pending := pending d' |>.
Proof.
  unfold flushBroadcasts. destruct (flush _ _ _) as [[s1 n1] k1] eqn:E. intros [= <- <-] Hn He. split; [|done].
  destruct (flush_inv _ _ _ _ _ _ _ _ E (le_n _) He) as [He' Hk]. by split.
Qed.

(** ** A round of the loop *)

Lemma carry_none d : carry d = None -> d <| carry := None |> = d.
Proof. destruct d; cbn. by intros ->. Qed.
Lemma carry_back d e : carry d = None -> (d <| carry := Some e |>) <| carry := None |> = d.
Proof. destruct d; cbn. by intros ->. Qed.

(** The event [next_event] returns is as if it had been carried over. *)
Lemma next_event_spec d queue closed taken handed retired o d1 queue1 : next_event d queue closed = (o, d1, queue1) ->
  flow_inv d taken queue closed handed retired -> exists c, queue = c ++ queue1 /\
  match o with
  | Some e => exists d0, d1 = d0 <| carry := None |> /\ carry d0 = Some e /\ flow_inv d0 (taken ++ c) queue1 closed handed retired
      /\ dep d0 = dep d /\ readyJob d0 = readyJob d /\ nextJobID d0 = nextJobID d /\ nextSeq d0 = nextSeq d /\ nextBroadcast d0 = nextBroadcast d
      /\ pending d0 = pending d
  | None => flow_inv d1 (taken ++ c) queue1 closed handed retired /\ carry d = None /\ carry d1 = None /\ waiting d1 = waiting d
      /\ dep d1 = dep d /\ readyJob d1 = readyJob d /\ nextJobID d1 = nextJobID d /\ nextSeq d1 = nextSeq d /\ nextBroadcast d1 = nextBroadcast d
      /\ pending d1 = pending d
  end.
Proof.
  unfold next_event. intros E Hf. destruct (carry d) as [e|] eqn:Ec.
  { injection E as <- <- <-. exists []. split; [done|]. exists d. by rewrite (app_nil_r taken). }
  destruct (queueOpen d) eqn:Eo; [destruct queue as [|e queue]|].
  - injection E as <- <- <-. exists []. rewrite (app_nil_r taken). split; [done|]. destruct closed; [|done].
    destruct Hf as [[H1 H2 H3 H4 H5] [F1 F2 F3]]. split; [|done]. by split; split.
  - injection E as <- <- <-. exists [e]. split; [done|]. exists (d <| carry := Some e |>).
    rewrite carry_back by done. split; [done|]. split; [done|]. by split; [apply flow_read|].
  - injection E as <- <- <-. exists []. by rewrite (app_nil_r taken).
Qed.

(** All of it. *)
Record inv (d : dispatcher) (taken queue : list OutboxEvent) (closed : bool) (handed : list settlementJob)
    (retired : list (settlementJob * settlementResult)) (out : list settlementJob) (sent : list (list broadcastMessage)) : Prop := {
  i_handed : handed ≡ₚ retired.*1 ++ out;
  i_tracker : tracker_inv d out;
  i_flow : flow_inv d taken queue closed handed retired;
  i_broadcast : broadcast_inv d handed retired sent }.

Lemma inv_initial : inv initial_dispatcher [] [] false [] [] [] [].
Proof. split; [done|apply tracker_initial|apply flow_initial; constructor|apply broadcast_initial]. Qed.

Lemma prepared_none d handed : readyJob d = None -> prepared d handed = handed.
Proof. unfold prepared. intros ->. apply app_nil_r. Qed.

Lemma inv_terminal d taken queue closed handed retired out sent : inv d taken queue closed handed retired out sent ->
  inv (prepare_terminal concurrency d) taken queue closed handed retired out sent.
Proof.
  intros [H1 H2 H3 H4]. destruct (prepare_terminal_inv _ _ _ _ _ _ _ H1 H2 H3) as [H2' H3']. split; [done|done|done|]. clear - H4.
  unfold prepare_terminal. destruct (readyJob d) eqn:Er; [done|]. destruct (outstanding (dep d) <? limit); [|done]. unfold takeReadyTerminal.
  destruct (first_ready (dep d) (waiting d)) as [[w rest]|]; [|done]. change (dep (d <| waiting := rest |>)) with (dep d).
  destruct (quarantined (wt_orderID w) (dep d)); [by apply (broadcast_same d)|]. destruct H4 as [B1 B2 B3]. rewrite prepared_none in B1 by done.
  split; [|done|done]. by apply numbered_terminal.
Qed.

Lemma inv_batch d taken queue closed handed retired out sent again d' queue' : prepare_batch concurrency maxBatch d queue closed = (again, d', queue') ->
  inv d taken queue closed handed retired out sent -> exists c, queue = c ++ queue' /\ inv d' (taken ++ c) queue' closed handed retired out sent.
Proof.
  unfold prepare_batch. intros E [H1 H2 H3 H4].
  assert (Hid : exists c, queue = c ++ queue /\ inv d (taken ++ c) queue closed handed retired out sent) by (exists []; by rewrite (app_nil_r taken)).
  destruct (readyJob d) eqn:Er; [by simplify_eq|]. destruct (Z.ltb_spec (outstanding (dep d)) limit) as [Hlt|]; [|by simplify_eq]. clear Hid.
  destruct (next_event d queue closed) as [[o d1] queue1] eqn:En. destruct (next_event_spec _ _ _ _ _ _ _ _ _ En H3) as (c & Hq & Ho).
  destruct o as [first|].
  - destruct Ho as (d0 & -> & Ec & Hf & Ed & Ej & En1 & En2 & En3 & Ep). rewrite Er in Ej. destruct (is_trade first) eqn:Et.
    + destruct (collectTradeBatch first queue1 closed maxBatch) as [[[batch next] open] queue2] eqn:Eb. injection E as <- <- <-.
      match goal with |- exists c, _ /\ inv ?d _ _ _ _ _ _ _ => set (d2 := d) end.
      assert (Hd2 : exists id seq, dep d2 = dep d0 /\ waiting d2 = waiting d0 /\ m_deferred d2 = m_deferred d0 /\ m_duplicate d2 = m_duplicate d0
        /\ readyJob d2 = Some (jobTrade id seq batch) /\ carry d2 = next /\ (queueOpen d2 = false -> open = false \/ queueOpen d0 = false)
        /\ id = nextJobID d /\ seq = nextSeq d /\ nextJobID d2 = (nextJobID d + 1)%N /\ nextSeq d2 = (nextSeq d + 1)%N /\ nextBroadcast d2 = nextBroadcast d /\ pending d2 = pending d).
      { exists (nextJobID d0), (nextSeq d0). subst d2. rewrite <- En1, <- En2, <- En3, <- Ep. destruct open, next; cbn; split_and!; try done; solve [by left | by right]. }
      destruct Hd2 as (id & seq & E1 & E2 & E3 & E4 & E5 & E6 & E7 & -> & -> & E8 & E9 & E10 & E11).
      destruct (flow_batch _ _ _ _ _ _ _ _ _ _ _ _ _ _ Ej Ec Et Eb E1 E2 E3 E4 E5 E6 E7 Hf) as (c' & -> & Hf').
      exists (c ++ c'). rewrite !app_assoc in *. split; [done|]. split; [done| |done|].
      * by apply (tracker_ready d d2 out (jobTrade (nextJobID d) (nextSeq d) batch)); rewrite ?E1, ?Ed.
      * destruct H4 as [B1 B2 B3]. rewrite prepared_none in B1 by done. split; rewrite ?E9, ?E10, ?E11; try done.
        unfold prepared. rewrite E5. by apply numbered_trade.
    + injection E as <- <- <-. exists c. split; [done|].
      split; [done| |by apply flow_wait|].
      * apply (tracker_same d); [| | |done]; unfold appendWaiting; case_decide; cbn; congruence.
      * apply (broadcast_same d); [| | | |done]; unfold appendWaiting; case_decide; cbn; congruence.
  - destruct Ho as (Hf & _ & _ & _ & Ed & Ej & En1 & En2 & En3 & Ep). injection E as <- <- <-. exists c. split; [done|].
    split; [done|by apply (tracker_same d)|done|by apply (broadcast_same d)].
Qed.

(** What holds when the select is reached. *)
Definition select_ok (d : dispatcher) : Prop :=
  readyJob d = None -> outstanding (dep d) = 0 ->
  carry d = None /\ (m_deferred d = [] -> waiting d = [] /\ queueOpen d = true).

Lemma limit_positive : 0 < limit.
Proof. unfold maxOutstanding. lia. Qed.

Lemma nothing_waits d out : tracker_inv d out -> readyJob (prepare_terminal concurrency d) = None -> outstanding (dep (prepare_terminal concurrency d)) = 0 ->
  m_deferred (prepare_terminal concurrency d) = [] -> waiting (prepare_terminal concurrency d) = [].
Proof.
  intros Ht. pose proof limit_positive. unfold prepare_terminal. destruct (readyJob d) eqn:Er; [congruence|].
  destruct (Z.ltb_spec (outstanding (dep d)) limit); [|lia]. unfold takeReadyTerminal. destruct (first_ready _ _) as [[w rest]|] eqn:Hr.
  - destruct (quarantined _ _); [|done]. intros _ _ Hu. by apply app_nil in Hu as [_ ?].
  - intros _ Hout _. destruct (waiting d) as [|w l] eqn:Hw; [done|]. exfalso.
    assert (Hn : ready (wt_orderID w) (dep d) = false) by (apply (first_ready_none _ _ _ Hr); left).
    unfold ready in Hn. apply Z.eqb_neq in Hn. apply Hn. rewrite (tr_count _ _ Ht). pose proof (tr_jobs _ _ Ht) as T3.
    unfold outstanding in Hout. destruct out; [done|cbn in T3; lia].
Qed.

Lemma prepare_batch_stops d queue closed d' queue' : prepare_batch concurrency maxBatch d queue closed = (false, d', queue') -> readyJob d' = None ->
  outstanding (dep d') = 0 -> carry d' = None /\ waiting d' = waiting d /\ dep d' = dep d /\ m_deferred d' = m_deferred d /\ readyJob d = None.
Proof.
  pose proof limit_positive. unfold prepare_batch. destruct (readyJob d) eqn:Er; [intros [= <- <-]; congruence|].
  destruct (Z.ltb_spec (outstanding (dep d)) limit) as [Hlt|]; [|intros [= <- <-]; lia]. unfold next_event.
  destruct (carry d) eqn:Ec; [|destruct (queueOpen d), queue as [|e queue]]; try (intros [= <- <-]; by destruct closed || by intros);
    destruct (is_trade _); try done; destruct (collectTradeBatch _ _ _ _) as [[[? ?] []] ?]; by intros [= <- <-].
Qed.

Lemma inv_prepare d taken queue closed handed retired out sent c sent' d' queue' : prepare concurrency maxBatch d queue closed = (c, sent', d', queue') ->
  inv d taken queue closed handed retired out sent ->
  (exists r, queue = r ++ queue' /\ inv d' (taken ++ r) queue' closed handed retired out (sent ++ sent'))
  /\ (c = AtSelect -> select_ok d') /\ (c = Returned -> finished d' = true).
Proof.
  unfold prepare. intros E Hi. destruct (prepare_batch _ _ _ _ _) as [[again d1] queue1] eqn:Eb.
  destruct (inv_batch _ _ _ _ _ _ _ _ _ _ _ Eb (inv_terminal _ _ _ _ _ _ _ _ Hi)) as (r & -> & Hi').
  destruct again; [simplify_eq; split; [exists r; by rewrite app_nil_r|done]|].
  destruct (finished d1) eqn:Ef.
  - destruct (flushBroadcasts d1) as [s1 d2] eqn:El. simplify_eq. destruct Hi' as [H1 H2 H3 [B1 B2 B3]].
    destruct (flushBroadcasts_inv _ _ _ _ _ _ El B1 B2) as [B Ed]. split; [|split; [done|intros _; by rewrite Ed]].
    exists r. split; [done|]. split; [done| | |done]; rewrite Ed; [by apply (tracker_same d1)|]. destruct H3 as [[] []]. by split; split.
  - simplify_eq. split; [exists r; by rewrite app_nil_r|]. split; [|done]. intros _ Er Ho.
    destruct (prepare_batch_stops _ _ _ _ _ Eb Er Ho) as (Ec & Ew & Ed & Em & Er'). split; [done|]. intros Hu. rewrite Em in Hu.
    assert (Hw : waiting d' = []) by (rewrite Ew; rewrite Ed in Ho; exact (nothing_waits _ _ (i_tracker _ _ _ _ _ _ _ _ Hi) Er' Ho Hu)).
    split; [done|]. destruct (queueOpen d') eqn:Eo; [done|]. unfold finished in Ef. by rewrite Eo, Er, Ho, Ec, Hw in Ef.
Qed.

(** ** The branches of the select *)

Lemma inv_sent d taken queue closed handed retired out sent j : readyJob d = Some j -> inv d taken queue closed handed retired out sent ->
  inv (sent_job j d) taken queue closed (handed ++ [j]) retired (out ++ [j]) sent.
Proof.
  intros Er [H1 H2 [[E1 E2 E3 E4 E5] [F1 F2 F3]] [B1 B2 B3]].
  assert (Hp : prepared (sent_job j d) (handed ++ [j]) = prepared d handed) by (unfold prepared; rewrite Er; cbn; apply app_nil_r).
  split; [by rewrite H1, app_assoc|by apply tracker_sent| |].
  - split; split; rewrite ?Hp; try done. intros w e Hw Hx Hb. rewrite batches_app, elem_of_app. left. by apply (F1 w).
  - by split; rewrite ?Hp.
Qed.

Lemma fence_retired d dep' taken handed retired j res : unsafeOrders dep' = list_to_set (sr_undurableOrderIDs res) ∪ unsafeOrders (dep d) ->
  fence_inv d taken handed retired -> fence_inv (d <| dep := dep' |>) taken handed (retired ++ [(j, res)]).
Proof.
  intros Eu [F1 F2 F3]. split; cbn.
  - done.
  - intros w e Hw Hin Ht Hb. destruct (F2 w e Hw Hin Ht Hb) as (j' & res' & Hd & ?). exists j', res'. by split; [apply elem_of_app; left|].
  - intros j' res' id. rewrite Eu, elem_of_app, list_elem_of_singleton, elem_of_union, elem_of_list_to_set.
    intros [Hd|[= -> ->]] Hu; [destruct (F3 _ _ _ Hd Hu); auto|auto].
Qed.

(** The result of a batch is new. *)
Lemma emitted_retired next kept retired sent j res handed n out q : numbered n handed -> handed ≡ₚ retired.*1 ++ j :: out -> seq_of j = [q] ->
  emitted next kept retired sent -> emitted next (<[q := res]> kept) (retired ++ [(j, res)]) sent.
Proof.
  intros Hn Hh Hq [E1 E2 E3 E4].
  assert (Hnew : forall j' res', (j', res') ∈ retired -> seq_of j' <> [q]).
  { intros j' res' Hin E. assert (Hin' : j' ∈ retired.*1) by (by apply (list_elem_of_fmap_2' fst _ (j', res'))).
    assert (j' = j) as -> by (apply (numbered_unique n handed _ _ q); [done| | |done|done]; rewrite Hh, elem_of_app, elem_of_cons; tauto).
    pose proof (numbered_nodup _ _ Hn) as Hnd. unfold trade_jobs in Hnd. rewrite Hh, filter_app in Hnd. apply NoDup_app in Hnd as (_ & Hnd & _).
    apply (Hnd j); apply list_elem_of_filter; rewrite E; [done|]. by split; [|left]. }
  split; [done| | |].
  - intros i ms Hi. destruct (E2 i ms Hi) as (j' & res' & ? & ?). exists j', res'. by split; [apply elem_of_app; left|].
  - intros q' res' [[<- <-]|[Hne Hk]]%lookup_insert_Some; [exists j; split; [apply elem_of_app; right; by apply list_elem_of_singleton|done]|].
    destruct (E3 _ _ Hk) as (j' & Hj & ?). exists j'. by split; [apply elem_of_app; left|].
  - intros j' res' q' [Hin|[= -> ->]%list_elem_of_singleton]%elem_of_app Hs Hle.
    + rewrite lookup_insert_ne; [by apply (E4 j')|]. intros ->. by apply (Hnew j' res').
    + assert (q' = q) as -> by congruence. by rewrite lookup_insert_eq.
Qed.

Lemma emitted_terminal next kept retired sent j res : seq_of j = [] -> emitted next kept retired sent -> emitted next kept (retired ++ [(j, res)]) sent.
Proof.
  intros Hq [E1 E2 E3 E4]. split; [done| | |].
  - intros i ms Hi. destruct (E2 i ms Hi) as (j' & res' & ? & ?). exists j', res'. by split; [apply elem_of_app; left|].
  - intros q' res' Hk. destruct (E3 _ _ Hk) as (j' & Hj & ?). exists j'. by split; [apply elem_of_app; left|].
  - intros j' res' q' [Hin|[= -> ->]%list_elem_of_singleton]%elem_of_app Hs Hle; [by apply (E4 j')|congruence].
Qed.

Lemma inv_completed d taken queue closed handed retired out sent j res sent' d' : result_of j res -> completed res d = (sent', d') ->
  inv d taken queue closed handed retired (j :: out) sent -> inv d' taken queue closed handed (retired ++ [(j, res)]) out (sent ++ sent').
Proof.
  intros [Hid Hr] E [H1 H2 [[E1 E2 E3 E4 E5] Hf] [B1 B2 B3]]. unfold completed in E. rewrite Hid in E.
  destruct (tracker_retired d out j (sr_undurableOrderIDs res) H2) as (dep' & Er & Eu & Ht). rewrite Er in E.
  assert (Hh : handed ≡ₚ (retired ++ [(j, res)]).*1 ++ out) by (rewrite H1, fmap_app, <- app_assoc; done).
  assert (Hfl : flow_inv (d <| dep := dep' |>) taken queue closed handed (retired ++ [(j, res)])) by (split; [by split|by apply fence_retired]).
  destruct j as [id seq batch|id event].
  - destruct Hr as [Hs _]. rewrite Hs in E. destruct (numbered_prefix _ _ _ B1) as [n Hn].
    destruct (flushBroadcasts_inv _ handed (retired ++ [(jobTrade id seq batch, res)]) sent _ _ E) as [Hb Ed]; [done|by eapply emitted_retired|].
    split; [done| | |done]; rewrite Ed; [by apply (tracker_same (d <| dep := dep' |>))|]. destruct Hfl as [[] []]. by split; split.
  - destruct Hr as [Hs _]. rewrite Hs in E. injection E as <- <-. rewrite app_nil_r. split; [done|done|done|]. split; [done| |done].
    by apply emitted_terminal.
Qed.

(** ** The system *)

(** Results reported and not yet received are in the channel, in order. *)
Record sys_inv (s : system) (retired reported : list (settlementJob * settlementResult)) : Prop := {
  si_settled : s_settled s = retired ++ reported;
  si_reported : s_completions s = reported.*2;
  si_results : forall j res, (j, res) ∈ s_settled s -> result_of j res;
  si_inv : inv (s_d s) (s_taken s) (s_queue s) (s_closed s) (s_handed s) retired (reported.*1 ++ s_running s ++ s_jobs s) (s_sent s);
  si_select : s_at s = AtSelect -> select_ok (s_d s);
  si_returned : s_at s = Returned -> finished (s_d s) = true }.

Lemma inv_out d taken queue closed handed retired out out' sent : out ≡ₚ out' ->
  inv d taken queue closed handed retired out sent -> inv d taken queue closed handed retired out' sent.
Proof. intros Hp [H1 H2 H3 H4]. split; [by rewrite <- Hp|by eapply tracker_perm|done|done]. Qed.

Lemma taken_prefix (r queue : list OutboxEvent) : take (length (r ++ queue) - length queue) (r ++ queue) = r.
Proof. rewrite length_app. replace (length r + length queue - length queue)%nat with (length r) by lia. apply take_app_length. Qed.

Lemma input_enabled_spec d : input_enabled concurrency d = true -> queueOpen d = true /\ readyJob d = None /\ carry d = None.
Proof. unfold input_enabled. intros H. bool_to_prop. repeat match goal with H : bool_decide _ = true |- _ => apply bool_decide_eq_true in H end. done. Qed.

Lemma finished_spec d : finished d = true -> queueOpen d = false /\ readyJob d = None /\ outstanding (dep d) = 0 /\ carry d = None /\ waiting d = [].
Proof. unfold finished. intros H. bool_to_prop. repeat match goal with H : bool_decide _ = true |- _ => apply bool_decide_eq_true in H end. done. Qed.

Lemma feed_inv s s' retired reported : feed_step s s' -> sys_inv s retired reported -> sys_inv s' retired reported.
Proof.
  intros Hst [H1 H2 H3 [I1 I2 [[E1 E2 E3 E4 E5] Hf] I4] H5 H6]. destruct Hst as [event s Hc Hb|s]; split; cbn; try done; (split; [done|done| |done]); (split; [|done]); split; try done.
  - rewrite app_assoc. apply StronglySorted_app. split_and!; [|done|by repeat constructor]. intros x y Hx ->%list_elem_of_singleton. rewrite Forall_forall in Hb. by apply Hb.
  - intros Ho. destruct (E5 Ho). congruence.
  - intros Ho. by destruct (E5 Ho).
Qed.

Lemma run_inv s s' retired reported : run_step concurrency maxBatch s s' -> sys_inv s retired reported ->
  exists retired' reported', sys_inv s' retired' reported'.
Proof.
  intros Hst [H1 H2 H3 H4 H5 H6]. destruct Hst as [s c sent d queue Ea Ep|s j Ea Er|s res l sent d Ea Ec Ed|s event queue Ea Ei Eq|s Ea Ei Eq Ec|s j l Ej|s j l1 l2 res Er Hr Hl].
  - exists retired, reported. destruct (inv_prepare _ _ _ _ _ _ _ _ _ _ _ _ Ep H4) as ((r & Eq & Hi) & Hs & Hf).
    split; cbn; try done. rewrite Eq, taken_prefix. done.
  - exists retired, reported. split; cbn; try done. rewrite !app_assoc. rewrite app_assoc in H4. by apply inv_sent.
  - destruct reported as [|[j res'] reported]; [by rewrite H2 in Ec|]. rewrite H2 in Ec. cbn in Ec. simplify_eq.
    exists (retired ++ [(j, res)]), reported. split; cbn; try done; [by rewrite <- app_assoc|].
    eapply inv_completed; [|done|done]. apply H3. rewrite H1, elem_of_app, elem_of_cons. tauto.
  - exists retired, reported. split; cbn; try done. destruct H4 as [I1 I2 I3 I4]. rewrite Eq in I3. destruct (input_enabled_spec _ Ei) as (_ & _ & Ec).
    split; [done|by apply (tracker_same (s_d s))|by apply flow_read|by apply (broadcast_same (s_d s))].
  - exists retired, reported. split; cbn; try done. destruct H4 as [I1 I2 [[E1 E2 E3 E4 E5] []] I4].
    split; [done|by apply (tracker_same (s_d s))|by split; split|by apply (broadcast_same (s_d s))].
  - exists retired, reported. split; cbn; try done. rewrite Ej in H4. by rewrite <- (app_assoc (s_running s) [j] l).
  - exists retired, (reported ++ [(j, res)]). split; cbn; try done.
    + by rewrite H1, app_assoc.
    + by rewrite H2, fmap_app.
    + intros j' res' [?|[= -> ->]%list_elem_of_singleton]%elem_of_app; [by apply H3|done].
    + eapply inv_out, H4. rewrite Er, fmap_app, <- !app_assoc. cbn. apply Permutation_app; [done|]. by rewrite <- Permutation_middle.
Qed.

Lemma reachable_inv s : reachable_system concurrency maxBatch s -> exists retired reported, sys_inv s retired reported.
Proof.
  intros H. unfold reachable_system in H. apply rtc_ind_r with (P := fun s => exists retired reported, sys_inv s retired reported) in H; [done| |].
  - exists [], []. split; cbn; try done; [by intros ? ? ?%elem_of_nil|apply inv_initial].
  - intros s1 s2 _ [Hst|Hst] (retired & reported & Hi); [exists retired, reported; by eapply feed_inv|by eapply run_inv].
Qed.
End DispatcherInv.
