(* ===== verification/DispatcherProofs.v ===== *)
(** * The settlement pipeline: ordering, completeness, progress

    What the invariants of [DispatcherInv] give in every reachable state of the
    system: the fence between the trades of an order and its end, the order of
    broadcasts, room for every result, and the end of shutdown, with the run in
    which it does not come. *)
From S2P Require Import Prelude Decimal Model Containers Matching Dispatcher DispatcherInv.
From Stdlib Require Import Lia.

Section DispatcherProofs.
Context {DL : DecimalLib}.
Local Open Scope Z_scope.
Variables concurrency maxBatch : Z.

Abbreviation limit := (maxOutstanding concurrency).

(** ** The fence *)

(** The terminal events of different orders: what the engine promises. *)
Definition one_terminal_per_order (l : list OutboxEvent) : Prop := NoDup (terminalOrderID <$> others l).

Lemma passed_not_deferred d taken queue closed handed w w' : events_inv d taken queue closed handed -> one_terminal_per_order taken ->
  w ∈ terminals (prepared d handed) -> w' ∈ m_deferred d -> terminalOrderID w' <> terminalOrderID w.
Proof.
  intros [_ _ H _ _] Hnd Hw Hw' E. unfold one_terminal_per_order in Hnd. rewrite <- H, !fmap_app in Hnd.
  apply NoDup_app in Hnd as (_ & _ & Hnd). apply NoDup_app in Hnd as (_ & Hnd & _).
  apply (Hnd (terminalOrderID w')); [by apply list_elem_of_fmap_2|]. rewrite E, !elem_of_app. right. left. by apply list_elem_of_fmap_2.
Qed.

(** C5 A terminal event runs only after every earlier trade of its order: in a stream
    with at most one terminal event per order, as the engine emits it, when a
    completed or cancelled order has been handed to a worker, each trade of that
    order that was read before it is in a batch that a worker has worked off, and
    the batch did not report the order as one it could not settle durably. *)
Theorem terminal_follows_its_trades s id w e : reachable_system concurrency maxBatch s -> one_terminal_per_order (s_taken s) ->
  jobTerminal id w ∈ s_handed s -> e ∈ s_taken s -> order_touched (terminalOrderID w) e -> id_before e w ->
  exists j res, (j, res) ∈ s_settled s /\ e ∈ batch_of j /\ terminalOrderID w ∉ sr_undurableOrderIDs res.
Proof.
  intros Hr Hone Hw He Ht Hb. destruct (reachable_inv _ _ s Hr) as (retired & reported & [H1 H2 H3 [I1 I2 [Hev Hfe] I4] H5 H6]).
  assert (Hw' : w ∈ terminals (prepared (s_d s) (s_handed s))).
  { unfold prepared. rewrite terminals_app, elem_of_app. left. apply list_elem_of_bind. exists (jobTerminal id w). by split; [left|]. }
  destruct (fe_passed _ _ _ _ Hfe w e Hw' He Ht Hb) as (j & res & Hd & Hj & Hu). exists j, res. rewrite H1, elem_of_app. split; [by left|].
  split; [done|]. intros (w2 & Hw2 & E)%Hu. by apply (passed_not_deferred _ _ _ _ _ w w2 Hev Hone).
Qed.

(** ** Nothing is lost *)

Lemma dispatcher_idle s retired reported : sys_inv concurrency s retired reported -> s_at s = Returned -> reported = [] /\ s_handed s ≡ₚ retired.*1.
Proof.
  intros [H1 H2 H3 [I1 I2 _ _] H5 H6] Ha. destruct (finished_spec _ (H6 Ha)) as (_ & _ & Fn & _). pose proof (tr_jobs _ _ _ I2) as Hout.
  unfold outstanding in Fn. rewrite Fn in Hout. destruct reported as [|r reported]; [|by cbn in Hout; lia]. split; [done|].
  destruct (s_running s ++ s_jobs s) eqn:Eo; [|by cbn in Hout; lia]. cbn in I1. by rewrite app_nil_r in I1.
Qed.

(** When the dispatcher returns, its queue is closed and empty, the batches it
    handed out are the trades it read, in their order, every terminal event was
    handed out, put off for a quarantined order or rejected as a second one, and
    every job it handed out was worked off. *)
Theorem dispatcher_returns_complete s : reachable_system concurrency maxBatch s -> s_at s = Returned ->
  s_closed s = true /\ s_queue s = [] /\ batches (s_handed s) = trades (s_taken s)
  /\ m_deferred (s_d s) ++ m_duplicate (s_d s) ++ terminals (s_handed s) ≡ₚ others (s_taken s)
  /\ s_handed s ≡ₚ (s_settled s).*1 /\ s_completions s = [].
Proof.
  intros Hr Ha. destruct (reachable_inv _ _ s Hr) as (retired & reported & Hi). destruct (dispatcher_idle _ _ _ Hi Ha) as [-> Hh].
  destruct Hi as [H1 H2 H3 [I1 I2 [[E1 E2 E3 E4 E5] _] _] H5 H6]. destruct (finished_spec _ (H6 Ha)) as (Fo & Fr & Fn & Fc & Fw). unfold prepared in *. rewrite Fr, Fc, Fw in *. cbn [olist] in *. rewrite !app_nil_r in *.
  destruct (E5 Fo) as [Hc Hq]. rewrite H1, H2. done.
Qed.

(** ** Broadcasts *)

Lemma retired_handed s retired reported j res q : sys_inv concurrency s retired reported -> (j, res) ∈ retired -> seq_of j = [q] ->
  exists i, q = N.of_nat (S i) /\ trade_jobs (s_handed s) !! i = Some j.
Proof.
  intros [H1 H2 H3 [I1 I2 _ [Hn _ _]] H5 H6] Hin Hq. destruct (numbered_prefix _ _ _ Hn) as [n [Hn' _]].
  assert (Hj : j ∈ s_handed s) by (rewrite I1, elem_of_app; left; by apply (list_elem_of_fmap_2' fst _ (j, res))).
  apply (elem_of_trade_jobs _ _ _ Hq), list_elem_of_lookup in Hj as [i Hi]. exists i. split; [|done]. apply Hn' in Hi. congruence.
Qed.

(** Messages are broadcast a batch at a time in the order in which the batches
    were handed out, whatever the order in which workers finish them; when the
    dispatcher has returned, those of every batch were broadcast. *)
Theorem broadcasts_in_batch_order s : reachable_system concurrency maxBatch s ->
  (forall i messages, s_sent s !! i = Some messages ->
     exists j res, trade_jobs (s_handed s) !! i = Some j /\ (j, res) ∈ s_settled s /\ sr_messages res = messages)
  /\ (s_at s = Returned -> length (s_sent s) = length (trade_jobs (s_handed s))).
Proof.
  intros Hr. destruct (reachable_inv _ _ s Hr) as (retired & reported & Hi). pose proof Hi as [H1 H2 H3 [I1 I2 _ [Hn He Hf]] H5 H6]. pose proof He as [E1 E2 E3 E4].
  assert (Hsent : forall i ms, s_sent s !! i = Some ms -> exists j res, trade_jobs (s_handed s) !! i = Some j /\ (j, res) ∈ retired /\ sr_messages res = ms).
  { intros i ms Hs. destruct (E2 i ms Hs) as (j & res & Hd & Hq & Hm). destruct (retired_handed _ _ _ _ _ _ Hi Hd Hq) as (i' & Hii & Hj).
    assert (i' = i) as -> by lia. by exists j, res. }
  split.
  - intros i ms Hs. destruct (Hsent i ms Hs) as (j & res & Hj & Hd & Hm). exists j, res. rewrite H1, elem_of_app. auto.
  - intros Ha. destruct (dispatcher_idle _ _ _ Hi Ha) as [_ Hall]. destruct (Nat.lt_trichotomy (length (s_sent s)) (length (trade_jobs (s_handed s)))) as [Hlt|[?|Hlt]]; [|done|].
    + apply lookup_lt_is_Some in Hlt as [j Hj]. destruct (numbered_prefix _ _ _ Hn) as [n [Hn' _]]. pose proof (Hn' _ _ Hj) as Hq.
      assert (Hin : j ∈ retired.*1) by (rewrite <- Hall; apply (elem_of_trade_jobs _ _ _ Hq); by eapply list_elem_of_lookup_2).
      apply list_elem_of_fmap in Hin as ([j' res] & -> & Hin). rewrite E1, (E4 j' res _ Hin Hq) in Hf; [done|lia].
    + apply lookup_lt_is_Some in Hlt as [ms Hs]. destruct (Hsent _ _ Hs) as (j & _ & Hj & _). apply lookup_lt_Some in Hj. lia.
Qed.

(** ** Workers *)

(** A worker never blocks on reporting a result: while it runs a job, the
    channel of results has room.  The dispatcher has at most twice the number of
    workers outstanding, and counts exactly the jobs that are in a channel or
    with a worker. *)
Theorem workers_never_block s j : reachable_system concurrency maxBatch s -> j ∈ s_running s ->
  Z.of_nat (length (s_completions s)) < maxOutstanding concurrency
  /\ outstanding (dep (s_d s)) = Z.of_nat (length (s_jobs s) + length (s_running s) + length (s_completions s))
  /\ outstanding (dep (s_d s)) <= maxOutstanding concurrency.
Proof.
  intros Hr Hj. destruct (reachable_inv _ _ s Hr) as (retired & reported & [H1 H2 H3 [I1 I2 _ _] H5 H6]). rewrite H2, length_fmap.
  pose proof (tr_jobs _ _ _ I2) as Hn. pose proof (tr_limit _ _ _ I2) as Hl. rewrite !length_app in *. rewrite length_fmap in *. unfold outstanding.
  assert (0 < length (s_running s))%nat by (destruct (s_running s); [by apply elem_of_nil in Hj|cbn; lia]). lia.
Qed.

(** ** Progress *)

(** Every step brings an event or a job closer to its end. *)
Definition dispatcher_work (d : dispatcher) : nat :=
  (11 * length (olist (carry d)) + 10 * length (waiting d) + 8 * length (olist (readyJob d)) + (if queueOpen d then 2 else 0))%nat.
Definition control_work (c : control) : nat := match c with AtLoop => 1 | _ => 0 end.
Definition work (s : system) : nat :=
  (13 * length (s_queue s) + dispatcher_work (s_d s) + control_work (s_at s) + 6 * length (s_jobs s) + 5 * length (s_running s) + 4 * length (s_completions s))%nat.

Lemma terminal_work d : (dispatcher_work (prepare_terminal concurrency d) <= dispatcher_work d)%nat.
Proof.
  unfold prepare_terminal. destruct (readyJob d) eqn:Er; [done|]. destruct (outstanding (dep d) <? limit); [|done]. unfold takeReadyTerminal.
  destruct (first_ready (dep d) (waiting d)) as [[w rest]|] eqn:Hr; [|done]. destruct (first_ready_spec _ _ _ _ Hr) as [_ Hp].
  apply Permutation_length in Hp. unfold dispatcher_work. destruct (quarantined _ _); cbn; rewrite ?Er; cbn in *; lia.
Qed.

Lemma append_work e d : carry d = None -> readyJob d = None ->
  (dispatcher_work (appendWaiting e d) <= 10 + dispatcher_work d)%nat /\ carry (appendWaiting e d) = None.
Proof. intros Ec Er. unfold appendWaiting, dispatcher_work. case_decide; cbn; rewrite ?length_app; cbn; split; (done || lia). Qed.

Lemma collect_work first queue closed batch next open queue' : collectTradeBatch first queue closed maxBatch = (batch, next, open, queue') ->
  (length queue' + length (olist next) <= length queue)%nat.
Proof.
  unfold collectTradeBatch. destruct (collect_more _ _ _) as [[[b n] o] q] eqn:E. intros [= <- <- <- <-].
  apply collect_more_spec in E as (-> & _). rewrite !length_app. lia.
Qed.

Lemma next_event_work d queue closed o d1 queue1 : next_event d queue closed = (o, d1, queue1) ->
  readyJob d1 = readyJob d /\ match o with
  | Some _ => carry d1 = None /\ (13 * length queue1 + dispatcher_work d1 + 11 <= 13 * length queue + dispatcher_work d)%nat
  | None => (13 * length queue1 + dispatcher_work d1 <= 13 * length queue + dispatcher_work d)%nat
  end.
Proof.
  unfold next_event, dispatcher_work. destruct (carry d) eqn:Ec; [|destruct (queueOpen d) eqn:Eo, queue as [|e queue]]; intros [= <- <- <-]; cbn; rewrite ?Ec, ?Eo; cbn;
    (split; [by destruct closed|]); try (split; [done|]); try destruct closed; cbn; rewrite ?Ec, ?Eo; cbn; lia.
Qed.

Lemma batch_work d queue closed again d' queue' : prepare_batch concurrency maxBatch d queue closed = (again, d', queue') ->
  (13 * length queue' + dispatcher_work d' + (if again then 1 else 0) <= 13 * length queue + dispatcher_work d)%nat.
Proof.
  unfold prepare_batch. destruct (readyJob d) eqn:Er; [intros [= <- <- <-]; lia|]. destruct (outstanding (dep d) <? limit); [|intros [= <- <- <-]; lia].
  destruct (next_event d queue closed) as [[o d1] queue1] eqn:En. destruct (next_event_work _ _ _ _ _ _ En) as [Hr Ho]. rewrite Er in Hr.
  destruct o as [first|]; [|intros [= <- <- <-]; lia]. destruct Ho as [Hc Ho]. destruct (is_trade first).
  - destruct (collectTradeBatch _ _ _ _) as [[[b n] o] q] eqn:Eb. apply collect_work in Eb. intros [= <- <- <-].
    unfold dispatcher_work in *. destruct n, o; cbn in *; rewrite ?Hc, ?Hr in *; cbn in *; try destruct (queueOpen d1); cbn in *; lia.
  - intros [= <- <- <-]. destruct (append_work first d1 Hc Hr). lia.
Qed.

Lemma run_works s s' : run_step concurrency maxBatch s s' -> (work s' < work s)%nat.
Proof.
  destruct 1 as [s c sent d queue Ea Ep|s j Ea Er|s res l sent d Ea Ec Ed|s event queue Ea Ei Eq|s Ea Ei Eq Ec|s j l Ej|s j l1 l2 res Er Hr Hl]; unfold work; cbn -[Nat.mul dispatcher_work]; rewrite ?Ea.
  - unfold prepare in Ep. destruct (prepare_batch _ _ _ _ _) as [[again d1] queue1] eqn:Eb. apply batch_work in Eb. pose proof (terminal_work (s_d s)).
    destruct again; cbv iota in Eb; [simplify_eq; cbn [control_work]; lia|]. destruct (finished d1); [|simplify_eq; cbn [control_work]; lia].
    unfold flushBroadcasts in Ep. destruct (flush _ _ _) as [[? ?] ?]. simplify_eq. cbn. unfold dispatcher_work in *. cbn. lia.
  - unfold sent_job, dispatcher_work. cbn. rewrite Er, length_app. cbn. lia.
  - assert (Hd : dispatcher_work d = dispatcher_work (s_d s)).
    { unfold completed, flushBroadcasts in Ed. destruct (retire _ _ _), (sr_seq res); try destruct (flush _ _ _) as [[? ?] ?]; by simplify_eq. }
    rewrite Hd, Ec. cbn. lia.
  - destruct (input_enabled_spec _ _ Ei) as (Ho & Hr & Hc). unfold dispatcher_work. cbn. rewrite Hc, Eq. cbn. lia.
  - destruct (input_enabled_spec _ _ Ei) as (Ho & Hr & Hc). unfold dispatcher_work. cbn. rewrite Ho. lia.
  - rewrite Ej, length_app. cbn. lia.
  - rewrite Er, !length_app. cbn. lia.
Qed.

Lemma run_reachable s s' : reachable_system concurrency maxBatch s -> rtc (run_step concurrency maxBatch) s s' -> reachable_system concurrency maxBatch s'.
Proof. intros H Hr. unfold reachable_system in *. etrans; [exact H|]. eapply rtc_subrel, Hr. intros ? ? ?. by right. Qed.

Lemma run_closed s s' : rtc (run_step concurrency maxBatch) s s' -> s_closed s' = s_closed s.
Proof. induction 1 as [|s s1 s2 Hst _ IH]; [done|]. rewrite IH. by destruct Hst. Qed.

Lemma some_result j : exists res, result_of j res.
Proof. destruct j as [id seq batch|id event]; [exists (mkResult (Some seq) id [] [])|exists (mkResult None id [] [])]; by split. Qed.

(** A system that cannot move, its queue closed and no terminal ever put off, has returned. *)
Lemma stuck_returned s : reachable_system concurrency maxBatch s -> s_closed s = true -> nf (run_step concurrency maxBatch) s ->
  m_deferred (s_d s) = [] -> s_at s = Returned.
Proof.
  intros Hr Hc Hnf Hm. destruct (reachable_inv _ _ s Hr) as (retired & reported & [H1 H2 H3 [I1 I2 _ _] H5 H6]).
  assert (Hno : forall s', ~ run_step concurrency maxBatch s s') by (intros s' Hst; apply Hnf; by exists s'). clear Hnf.
  destruct (s_at s) eqn:Ea; [|exfalso|done].
  { destruct (prepare concurrency maxBatch (s_d s) (s_queue s) (s_closed s)) as [[[c sent] d] queue] eqn:Ep. destruct (Hno _ (loop _ _ _ _ _ _ _ Ea Ep)). }
  destruct (readyJob (s_d s)) as [j|] eqn:Er; [destruct (Hno _ (send_job _ _ _ _ Ea Er))|].
  destruct (s_completions s) as [|res l] eqn:Ec.
  2: { destruct (completed res (s_d s)) as [sent d] eqn:Ed. destruct (Hno _ (receive_result _ _ _ _ _ _ _ Ea Ec Ed)). }
  destruct (s_jobs s) as [|j l] eqn:Ej; [|destruct (Hno _ (start_job _ _ _ _ _ Ej))].
  destruct (s_running s) as [|j l] eqn:El.
  2: { destruct (some_result j) as [res Hres]. refine (Hno _ (finish_job _ _ _ j [] l res El Hres _)). rewrite Ec. apply limit_positive. }
  destruct reported; [|done]. pose proof (tr_jobs _ _ _ I2) as Hn. cbn in Hn.
  destruct (H5 eq_refl Er Hn) as [Hca Hw]. destruct (Hw Hm) as [_ Ho].
  assert (Ei : input_enabled concurrency (s_d s) = true).
  { unfold input_enabled. rewrite Ho, Er, Hca. unfold outstanding. rewrite Hn. apply Z.ltb_lt. apply limit_positive. }
  destruct (s_queue s) as [|event queue] eqn:Eq; [destruct (Hno _ (receive_close _ _ _ Ea Ei Eq Hc))|destruct (Hno _ (receive_event _ _ _ _ _ Ea Ei Eq))].
Qed.

(** C28 Shutdown ends: once the queue is closed, dispatcher and workers can only
    take finitely many steps, in any order, and when none is left the dispatcher
    has returned, unless it has put off a terminal of a quarantined order. *)
Theorem shutdown_ends s : reachable_system concurrency maxBatch s -> s_closed s = true ->
  sn (run_step concurrency maxBatch) s /\
  forall s', rtc (run_step concurrency maxBatch) s s' -> nf (run_step concurrency maxBatch) s' -> s_at s' = Returned \/ m_deferred (s_d s') <> [].
Proof.
  intros Hr Hc. split.
  - clear Hr Hc. induction s as [s IH] using (induction_ltof1 _ work). constructor. intros s' Hst. apply IH. by apply run_works.
  - intros s' Hrun Hnf. destruct (m_deferred (s_d s')) eqn:Em; [left|by right].
    apply stuck_returned; [by eapply run_reachable|by rewrite (run_closed _ _ Hrun)|done|done].
Qed.
End DispatcherProofs.

(** ** Runs *)

Section Runs.
Context {DL : DecimalLib}.
Local Open Scope Z_scope.
Variables concurrency maxBatch : Z.

Inductive action := Produce (event : OutboxEvent) | Close | Loop | Send | Receive | Start | Finish (i : nat) (messages : list broadcastMessage) (undurable : list N).

Definition result_for (j : settlementJob) (messages : list broadcastMessage) (undurable : list N) : settlementResult :=
  match j with jobTrade id seq _ => mkResult (Some seq) id messages undurable | jobTerminal id _ => mkResult None id [] [] end.

Definition act (s : system) (a : action) : option system :=
  match a with
  | Produce event =>
      if negb (s_closed s) && forallb (fun x => (oe_OutboxID x <? oe_OutboxID event)%N) (s_taken s ++ s_queue s) then Some (s <| s_queue := s_queue s ++ [event] |>) else None
  | Close => Some (s <| s_closed := true |>)
  | Loop =>
      match s_at s, prepare concurrency maxBatch (s_d s) (s_queue s) (s_closed s) with
      | AtLoop, (c, sent, d, queue) =>
          Some (s <| s_d := d |> <| s_at := c |> <| s_queue := queue |> <| s_sent := s_sent s ++ sent |>
                  <| s_taken := s_taken s ++ take (length (s_queue s) - length queue) (s_queue s) |>)
      | _, _ => None
      end
  | Send =>
      match s_at s, readyJob (s_d s) with
      | AtSelect, Some j => Some (s <| s_d := sent_job j (s_d s) |> <| s_at := AtLoop |> <| s_jobs := s_jobs s ++ [j] |> <| s_handed := s_handed s ++ [j] |>)
      | _, _ => None
      end
  | Receive =>
      match s_at s, s_completions s with
      | AtSelect, res :: l => let '(sent, d) := completed res (s_d s) in
          Some (s <| s_d := d |> <| s_at := AtLoop |> <| s_completions := l |> <| s_sent := s_sent s ++ sent |>)
      | _, _ => None
      end
  | Start => match s_jobs s with j :: l => Some (s <| s_jobs := l |> <| s_running := s_running s ++ [j] |>) | [] => None end
  | Finish i messages undurable =>
      match drop i (s_running s) with
      | j :: l =>
          if forallb (fun id => bool_decide (id ∈ orders_of j)) undurable && (Z.of_nat (length (s_completions s)) <? maxOutstanding concurrency) then
            let res := result_for j messages undurable in
            Some (s <| s_running := take i (s_running s) ++ l |> <| s_completions := s_completions s ++ [res] |> <| s_settled := s_settled s ++ [(j, res)] |>)
          else None
      | [] => None
      end
  end.

Lemma act_step s a s' : act s a = Some s' -> sys_step concurrency maxBatch s s'.
Proof.
  destruct a as [event| | | | | |i messages undurable]; cbn [act].
  - destruct (s_closed s) eqn:Ec; [done|]. destruct (forallb _ _) eqn:Ef; [|done]. intros [= <-]. left. constructor; [done|].
    rewrite forallb_forall in Ef. apply List.Forall_forall. intros x Hx. by apply N.ltb_lt, Ef.
  - intros [= <-]. left. constructor.
  - destruct (s_at s) eqn:Ea; try done. destruct (prepare _ _ _ _ _) as [[[c sent] d] queue] eqn:Ep. intros [= <-]. right. by eapply loop.
  - destruct (s_at s) eqn:Ea; try done. destruct (readyJob _) eqn:Er; [|done]. intros [= <-]. right. by eapply send_job.
  - destruct (s_at s) eqn:Ea; try done. destruct (s_completions s) eqn:Ec; [done|]. destruct (completed _ _) eqn:Ed. intros [= <-]. right. by eapply receive_result.
  - destruct (s_jobs s) eqn:Ej; [done|]. intros [= <-]. right. by eapply start_job.
  - destruct (drop i (s_running s)) as [|j l] eqn:Er; [done|]. destruct (forallb _ _) eqn:Ef; [|done]. cbn [andb]. destruct (Z.ltb_spec (Z.of_nat (length (s_completions s))) (maxOutstanding concurrency)); [|done].
    intros [= <-]. right. eapply (finish_job _ _ _ j); [rewrite <- Er; symmetry; apply take_drop| |done]. destruct j; split; try done. split; [done|].
    rewrite forallb_forall in Ef. apply List.Forall_forall. intros x Hx. pose proof (Ef x Hx) as Hb. by apply bool_decide_eq_true in Hb.
Qed.

Fixpoint acts (s : system) (l : list action) : option system := match l with [] => Some s | a :: l => s ← act s a; acts s l end.

Lemma acts_reachable l s : acts initial_system l = Some s -> reachable_system concurrency maxBatch s.
Proof.
  assert (H : forall l s s', acts s l = Some s' -> rtc (sys_step concurrency maxBatch) s s').
  { clear. induction l as [|a l IH]; intros s s'; cbn [acts]; [by intros [= ->]|]. destruct (act s a) as [s1|] eqn:Ea; [|done]. cbn.
    intros Hl. eapply rtc_l; [by eapply act_step|by apply IH]. }
  apply H.
Qed.
End Runs.

(** ** Sample runs *)

Section SampleRuns.
Context {DL : DecimalLib}.
Local Open Scope Z_scope.

Definition sample_trade (id buy sell : N) : OutboxEvent :=
  mkOutboxEvent id (EvTrade (mkTrade 0 "k" 1 "e" "BTC" Zero Zero Zero Zero "" Zero "" 0 buy sell)).
Definition sample_cancel (id order : N) : OutboxEvent := mkOutboxEvent id (EvOrderCancelled (mkCancelled 1 order "BTC" OrderSideBuy "e")).

Definition final_state (l : list action) : system := default initial_system (acts 1 10 initial_system l).

Definition completes (l : list action) : bool := match acts 1 10 initial_system l with Some _ => true | None => false end.

Lemma final_reachable l : completes l = true -> reachable_system 1 10 (final_state l).
Proof. unfold completes, final_state. destruct (acts 1 10 initial_system l) as [s|] eqn:Hs; [|done]. intros _. by apply (acts_reachable 1 10 l). Qed.

Lemma nothing_enabled concurrency maxBatch s : s_at s = AtSelect -> readyJob (s_d s) = None -> queueOpen (s_d s) = false ->
  s_jobs s = [] -> s_running s = [] -> s_completions s = [] -> nf (run_step concurrency maxBatch) s.
Proof.
  intros Ea Er Eo Ej El Ec [s' Hst]. destruct Hst; try congruence.
  - by destruct (input_enabled_spec _ _ H0) as [? _]; congruence.
  - by destruct (input_enabled_spec _ _ H0) as [? _]; congruence.
  - rewrite El in H. by destruct l1.
Qed.

(** One batch with two orders, whose ends follow; the batch could not record its
    failure for order 1. *)
Definition hanging_run : list action :=
  [Produce (sample_trade 1 1 2); Produce (sample_cancel 2 1); Produce (sample_cancel 3 2); Close; Loop; Send; Loop; Loop; Loop; Start; Finish 0 [] [1%N]; Receive; Loop].

(** C36 Shutdown can hang: [takeReadyTerminal] returns nothing when it drops the
    terminal of a quarantined order, and the loop goes on to its select though a
    terminal behind it could run.  Here the queue is closed, no job is out and no
    step is left, the dispatcher has not returned, and the terminal of order 2
    waits although it is ready and not quarantined. *)
Theorem shutdown_can_hang : exists s w, reachable_system 1 10 s /\ one_terminal_per_order (s_taken s) /\ s_closed s = true /\ s_at s = AtSelect
  /\ nf (run_step 1 10) s /\ waiting (s_d s) = [w] /\ ready (wt_orderID w) (dep (s_d s)) = true /\ quarantined (wt_orderID w) (dep (s_d s)) = false.
Proof.
  exists (final_state hanging_run), (mkWaiting (sample_cancel 3 2) 2). split; [apply final_reachable; by vm_compute|].
  split; [apply (bool_decide_unpack _); by vm_compute|]. split_and!; try by vm_compute. apply nothing_enabled; by vm_compute.
Qed.

(** Two batches, finished in reverse, then the end of order 1. *)
Definition fenced_run : list action :=
  [Produce (sample_trade 1 1 2); Loop; Send; Produce (sample_trade 2 1 3); Produce (sample_cancel 3 1); Close; Loop; Send; Start; Start; Loop;
   Finish 1 [mkMessage "BTC" []] []; Receive; Loop; Loop; Finish 0 [mkMessage "BTC" []] []; Receive; Loop; Send; Start; Loop;
   Finish 0 [] []; Receive; Loop].

Definition running_run : list action := [Produce (sample_trade 1 1 2); Loop; Send; Start].

End SampleRuns.

(** ** The runs with decimals of fixed point *)

Module PipelineRuns.
Import FixedPoint.
Local Open Scope Z_scope.

Lemma terminal_follows_its_trades_witness : exists j res, (j, res) ∈ s_settled (final_state fenced_run) /\ sample_trade 2 1 3 ∈ batch_of j /\ 1%N ∉ sr_undurableOrderIDs res.
Proof.
  apply (terminal_follows_its_trades 1 10 (final_state fenced_run) 3 (sample_cancel 3 1) (sample_trade 2 1 3)).
  - apply final_reachable. by vm_compute.
  - apply (bool_decide_unpack _); by vm_compute.
  - change (s_handed (final_state fenced_run)) with [jobTrade 1 1 [sample_trade 1 1 2]; jobTrade 2 2 [sample_trade 2 1 3]; jobTerminal 3 (sample_cancel 3 1)]. set_solver.
  - change (s_taken (final_state fenced_run)) with [sample_trade 1 1 2; sample_trade 2 1 3; sample_cancel 3 1]. set_solver.
  - by left.
  - done.
Defined.

Lemma dispatcher_returns_complete_witness : s_handed (final_state fenced_run) ≡ₚ (s_settled (final_state fenced_run)).*1.
Proof. apply (dispatcher_returns_complete 1 10); [apply final_reachable; by vm_compute|by vm_compute]. Defined.

Lemma broadcasts_in_batch_order_witness : length (s_sent (final_state fenced_run)) = 2%nat.
Proof.
  change 2%nat with (length (trade_jobs (s_handed (final_state fenced_run)))).
  apply (broadcasts_in_batch_order 1 10); [apply final_reachable; by vm_compute|by vm_compute].
Defined.

Lemma workers_never_block_witness : Z.of_nat (length (s_completions (final_state running_run))) < maxOutstanding 1.
Proof.
  apply (workers_never_block 1 10 (final_state running_run) (jobTrade 1 1 [sample_trade 1 1 2])); [apply final_reachable; by vm_compute|].
  change (s_running (final_state running_run)) with [jobTrade 1 1 [sample_trade 1 1 2]]. left.
Defined.

Lemma shutdown_ends_witness : sn (run_step 1 10) (final_state hanging_run).
Proof. apply (shutdown_ends 1 10); [apply final_reachable; by vm_compute|by vm_compute]. Defined.
End PipelineRuns.
