(* ===== verification/Processing.v ===== *)
(** * Processing committed events (cmd/main.go)

    What a worker of the pipeline, and the replay at start-up, does with an
    event: settle its trade or end its order, write down what failed, and mark
    the outbox row.  Everything here returns; an error of a service becomes a
    row or a [false].

    The services, the guard and the stores are never nil in the running program;
    metrics and log lines are left out.  Broadcasts are returned instead of sent.
    A struct that is settled again after a failed attempt carries the id of that
    attempt's row; the model draws a new one.  [now] is the clock. *)
From S2P Require Import Prelude Decimal Model Errors Fee Matching Database Ledger Sha256 OrderLedger Settlement SettlementBatch HoldCoordinator OrderService Transfers FailureStores Dispatcher.
From Stdlib Require Import Lia Ascii.

Section Processing.
Context {DL : DecimalLib} {TX : ErrorTexts}.
Local Open Scope Z_scope.

(** ** Attempts *)

(** The error of a call as a value. *)
Definition attempt {A} (m : M A) : M (result error A) := fun w => let '(r, w') := m w in (Ok r, w').

Definition is_ok {A} (r : result error A) : bool := match r with Ok _ => true | Err _ => false end.

(** [len(transientRetryDelays)] *)
Definition transientRetries : nat := 3.

(** A call, and again while its error is retryable, [n] times at most. *)
Fixpoint retry_while {A} (retryable : error -> bool) (n : nat) (m : M A) : M (result error A) :=
  r ← attempt m;
  match n, r with
  | S n, Err e => if retryable e then retry_while retryable n m else mret r
  | _, _ => mret r
  end.

Definition retryTransient {A} (m : M A) : M (result error A) := retry_while IsTransientSettlementError transientRetries m.

Definition isRetryableCompletionError (err : error) : bool :=
  IsTransientSettlementError err || bool_decide (DomainErrorKind err = Some ErrorKindConflict).

Definition errDependencyOpen : error := Errorf "terminal deferred: preceding settlement is still OPEN" [].

(** With a guard. *)
Definition dependencyBlocked (orderID : N) : M bool := HasOpenFailureForOrder orderID.

(** ** Queues of the workers *)

Definition executionEventCoinSymbol (event : ExecutionEvent) : string :=
  match event with
  | EvTrade trade => t_CoinSymbol trade
  | EvMarketOrderDone d => d_CoinSymbol d
  | EvOrderCancelled c => c_CoinSymbol c
  end.

(** [hash/fnv] New32a *)
Fixpoint fnv32a_from (hash : Z) (s : string) : Z :=
  match s with
  | EmptyString => hash
  | String c s' => fnv32a_from (Z.lxor hash (Z.of_N (N_of_ascii c)) * 16777619 mod 2 ^ 32) s'
  end.
Definition fnv32a (s : string) : Z := fnv32a_from 2166136261 s.

Definition settlementWorkerIndex (coinSymbol : string) (workerCount : Z) : Z :=
  if workerCount <=? 1 then 0 else fnv32a coinSymbol mod (workerCount mod 2 ^ 32).

(** ** Broadcasts *)

(** One message per symbol, symbols and trades in the order they come in. *)
Definition add_symbol (symbols : list string) (trade : Trade) : list string :=
  if decide (t_CoinSymbol trade ∈ symbols) then symbols else symbols ++ [t_CoinSymbol trade].
Definition broadcastSettledTrades (trades : list Trade) : list broadcastMessage :=
  map (fun symbol => mkMessage symbol (filter (fun trade => t_CoinSymbol trade = symbol) trades)) (foldl add_symbol [] trades).

(** ** One trade *)

(** What settling leaves in the caller's struct, but for the id. *)
Definition written_back (trade0 : Trade) : Trade :=
  match prepareTradeForSettlement trade0 with
  | Err _ => trade0 <| t_CoinSymbol := normalizeTradeCoinSymbol (t_CoinSymbol trade0) |>
  | Ok trade => match applyTradeFeePolicy trade with Err _ => trade | Ok trade => trade end
  end.

(** (handled, markedInTx) and what to broadcast. *)
Definition processTradeSettlement (now : Z) (trade : Trade) (outboxEventID : N) : M (bool * bool * list broadcastMessage) :=
  r ← retry_while IsTransientSettlementError transientRetries (SettleTrade trade outboxEventID);
  match r with
  | Err e =>
      recorded ← attempt (RecordFailure now (written_back trade) (Some e));
      mret (is_ok recorded, false, [])
  | Ok result =>
      let markedInTx := (0 <? outboxEventID)%N in
      mret (true, markedInTx, if sr_Applied result then broadcastSettledTrades [written_back trade] else [])
  end.

(** ** The end of an order *)

Definition completion_input (d : MarketOrderDone) : CompleteMarketOrderInput :=
  mkCompleteInput (d_OrderID d) (d_FilledAmount d) (d_FilledQuoteAmount d) (d_RemainingQuoteAmount d).

Definition deferMarketOrderDone (now : Z) (input : CompleteMarketOrderInput) (coinSymbol : string) (reason : error) : M bool :=
  r ← retryTransient (DeferCompletion now input coinSymbol (Some reason)); mret (is_ok r).

Definition processMarketOrderDone (now : Z) (d : MarketOrderDone) : M bool :=
  let input := completion_input d in
  blocked ← attempt (dependencyBlocked (d_OrderID d));
  match blocked with
  | Err depErr => deferMarketOrderDone now input (d_CoinSymbol d) depErr
  | Ok true => deferMarketOrderDone now input (d_CoinSymbol d) errDependencyOpen
  | Ok false =>
      r ← retry_while isRetryableCompletionError transientRetries (CompleteMarketOrder input);
      match r with
      | Ok _ => mret true
      | Err e =>
          recorded ← retryTransient (RecordCompletionFailure now input (d_CoinSymbol d) (Some e));
          mret (is_ok recorded)
      end
  end.

Definition deferCancellation (now : Z) (cancelled : OrderCancelled) (sourceOutboxID : N) (reason : error) : M bool :=
  r ← retryTransient (DeferCancellation now cancelled sourceOutboxID (Some reason)); mret (is_ok r).

Definition processOrderCancellationEvent (now : Z) (cancelled : OrderCancelled) (sourceOutboxID : N) : M bool :=
  blocked ← attempt (dependencyBlocked (c_OrderID cancelled));
  match blocked with
  | Err depErr => deferCancellation now cancelled sourceOutboxID depErr
  | Ok true => deferCancellation now cancelled sourceOutboxID errDependencyOpen
  | Ok false =>
      r ← retryTransient (ProcessOrderCancellation (c_OrderID cancelled));
      match r with
      | Ok _ => mret true
      | Err e =>
          recorded ← retryTransient (RecordCancellationFailure now cancelled sourceOutboxID (Some e));
          mret (is_ok recorded)
      end
  end.

(** ** One event *)

Definition processExecutionEvent (now : Z) (event : ExecutionEvent) (transactionalOutboxID sourceOutboxID : N)
    : M (bool * bool * list broadcastMessage) :=
  match event with
  | EvTrade trade => processTradeSettlement now trade transactionalOutboxID
  | EvMarketOrderDone d => handled ← processMarketOrderDone now d; mret (handled, false, [])
  | EvOrderCancelled c => handled ← processOrderCancellationEvent now c sourceOutboxID; mret (handled, false, [])
  end.

(** [TradeOutboxRepository.MarkProcessed] *)
Definition MarkProcessed (id : N) : M unit :=
  affected ← transaction (
    _ ← stmt;
    t ← get_db;
    match tb_outbox t !! id with
    | None => mret false
    | Some row => _ ← put_db (t <| tb_outbox := <[id := processed row]> (tb_outbox t) |>); mret true
    end);
  if (affected : bool) then mret tt else throw (Errorf "mark trade outbox event %d processed affected no rows" [pretty id]).

Definition processSingleOutboxEvent (now : Z) (event : OutboxEvent) : M (bool * list broadcastMessage) :=
  '(handled, markedInTx, messages) ← processExecutionEvent now (oe_Event event) (oe_OutboxID event) (oe_OutboxID event);
  if negb handled then mret (false, messages)
  else if (markedInTx : bool) then mret (true, messages)
  else _ ← attempt (MarkProcessed (oe_OutboxID event)); mret (true, messages).

(** ** A batch *)

Definition trade_of (event : OutboxEvent) : option Trade := match oe_Event event with EvTrade trade => Some trade | _ => None end.

(** Batches hold trades only. *)
Definition orders_of (event : OutboxEvent) : list N :=
  match oe_Event event with EvTrade trade => [t_BuyOrderID trade; t_SellOrderID trade] | _ => [] end.
Definition undurableOrderIDsFromTradeBatch (batch : list OutboxEvent) : list N := batch ≫= orders_of.

Definition handoff_items (batch : list OutboxEvent) : list TradeOutboxFailureItem :=
  omap (fun event => (fun trade => mkFailureItem (written_back trade) (oe_OutboxID event)) <$> trade_of event) batch.

Definition handoffStatementTimeoutBatch (now : Z) (batch : list OutboxEvent) (settlementErr : error) : M (list N) :=
  r ← attempt (RecordBatchFailuresAndMarkOutboxProcessed now (handoff_items batch) (Some settlementErr));
  mret (if is_ok r then [] else undurableOrderIDsFromTradeBatch batch).

(** The loop of the fallback: undurable orders and messages. *)
Fixpoint process_each (now : Z) (batch : list OutboxEvent) : M (list N * list broadcastMessage) :=
  match batch with
  | [] => mret ([], [])
  | event :: batch =>
      '(handled, messages) ← processSingleOutboxEvent now event;
      '(undurable, more) ← process_each now batch;
      mret (if (handled : bool) then undurable else orders_of event ++ undurable, messages ++ more)
  end.

Definition batch_items (batch : list OutboxEvent) : list TradeBatchItem :=
  map (fun event => mkTradeBatchItem (trade_of event) (oe_OutboxID event)) batch.

Fixpoint applied_trades (batch : list OutboxEvent) (results : list SettlementResult) : list Trade :=
  match batch, results with
  | event :: batch, result :: results =>
      match trade_of event with
      | Some trade => if sr_Applied result then written_back trade :: applied_trades batch results else applied_trades batch results
      | None => applied_trades batch results
      end
  | _, _ => []
  end.

Definition settleTradeBatchWithFallback (now : Z) (batch : list OutboxEvent) : M (list N * list broadcastMessage) :=
  r ← attempt (SettleTradeBatch (batch_items batch));
  match r with
  | Err e =>
      if decide (settlementErrorSQLState e = pgCodeQueryCanceled)
      then undurable ← handoffStatementTimeoutBatch now batch e; mret (undurable, [])
      else process_each now batch
  | Ok results => mret ([], broadcastSettledTrades (applied_trades batch results))
  end.
End Processing.
