(* ===== verification/FailureProofs.v ===== *)
(** * Failure records: what they keep

    The text of an error keeps its class; the key of a record is the key its
    trade settles under; a table of records keeps one row per key. *)
From S2P Require Import Prelude Decimal Model Errors Fee Matching Database Ledger LedgerInv Sha256 OrderLedger Settlement Store SettlementProofs SettlementBatch HoldCoordinator OrderService Transfers LockedFunds OrderProofs FailureStores Dispatcher Processing.
From Stdlib Require Import Lia Ascii.

(** ** Strings *)

Lemma prefix_app p s : String.prefix p (p +:+ s) = true.
Proof. induction p as [|c p IH]; [by destruct s|]. change (String c p +:+ s) with (String c (p +:+ s)). cbn. destruct (ascii_dec c c); [exact IH|done]. Qed.

Lemma contains_prefix p s : contains p (p +:+ s) = true.
Proof. destruct (p +:+ s) eqn:E; cbn [contains]; rewrite <- E, prefix_app; done. Qed.

Lemma ToUpper_app p s : ToUpper (p +:+ s) = ToUpper p +:+ ToUpper s.
Proof. induction p as [|c p IH]; [done|]. change (String c p +:+ s) with (String c (p +:+ s)). cbn [ToUpper]. by rewrite IH. Qed.

Lemma substring_app p s n : (String.length p <= n)%nat -> exists r, String.substring 0 n (p +:+ s) = p +:+ r.
Proof.
  revert n. induction p as [|c p IH]; intros n Hn; [by eexists|]. cbn in Hn. destruct n as [|n]; [lia|].
  destruct (IH n ltac:(lia)) as [r Hr]. exists r. change (String c p +:+ s) with (String c (p +:+ s)). cbn [String.substring]. by rewrite Hr.
Qed.

(** Strings that [TrimSpace] leaves alone. *)
Fixpoint no_spaces (s : string) : bool := match s with EmptyString => true | String c s' => negb (is_space c) && no_spaces s' end.

Lemma trim_right_no_spaces s : no_spaces s = true -> trim_right s = s.
Proof.
  induction s as [|c s IH]; [done|]. cbn [no_spaces]. intros H. apply andb_true_iff in H as [Hc Hs]. rewrite trim_right_cons, (IH Hs).
  destruct s; [by destruct (is_space c)|done].
Qed.

Lemma TrimSpace_no_spaces s : no_spaces s = true -> TrimSpace s = s.
Proof.
  intros H. unfold TrimSpace. destruct s as [|c s]; [done|]. assert (Hc : is_space c = false) by (cbn in H; by destruct (is_space c)).
  rewrite trim_left_fixed by done. by apply trim_right_no_spaces.
Qed.

Lemma trim_right_app p s : trim_right s = s -> s <> EmptyString -> trim_right (p +:+ s) = p +:+ s.
Proof.
  intros Hs Hne. induction p as [|c p IH]; [done|]. change (String c p +:+ s) with (String c (p +:+ s)). rewrite trim_right_cons, IH.
  destruct (p +:+ s) eqn:E; [|done]. by destruct p, s.
Qed.

Lemma TrimSpace_trimmed s : trim_right (TrimSpace s) = TrimSpace s.
Proof. apply trim_right_idem. Qed.

(** A digest is written with digits and letters only. *)
Lemma hex_digit_no_space d : (0 <= d < 16)%Z -> is_space (hex_digit d) = false.
Proof.
  intros H. assert (E : (forallb (fun n => negb (is_space (hex_digit (Z.of_nat n)))) (seq 0 16)) = true) by done.
  rewrite forallb_forall in E. specialize (E (Z.to_nat d)). rewrite Z2Nat.id in E by lia. apply negb_true_iff, E, in_seq. lia.
Qed.

Definition is_byte (b : Z) : Prop := (0 <= b < 256)%Z.

Lemma EncodeToString_no_spaces bs : Forall is_byte bs -> no_spaces (EncodeToString bs) = true.
Proof.
  induction 1 as [|b bs [Hb1 Hb2] _ IH]; [done|]. cbn [EncodeToString no_spaces]. rewrite IH, andb_true_r.
  rewrite !hex_digit_no_space; [done| |].
  - change 15%Z with (Z.ones 4). rewrite Z.land_ones by lia. apply Z.mod_pos_bound. lia.
  - rewrite Z.shiftr_div_pow2 by lia. split; [apply Z.div_pos; lia|apply Z.div_lt_upper_bound; lia].
Qed.

Lemma be_bytes_bytes n x : Forall is_byte (be_bytes n x).
Proof.
  unfold be_bytes. apply List.Forall_map, List.Forall_forall. intros i _. unfold is_byte. change 255%Z with (Z.ones 8).
  rewrite Z.land_ones by lia. apply Z.mod_pos_bound. lia.
Qed.

Lemma Sum256_bytes bs : Forall is_byte (Sum256 bs).
Proof.
  unfold Sum256. generalize (foldl compress sha_init (blocks (length (words (length (pad bs)) (pad bs))) (words (length (pad bs)) (pad bs)))).
  intros l. induction l as [|x l IH]; [constructor|]. cbn [map concat]. apply Forall_app. split; [apply be_bytes_bytes|done].
Qed.

Lemma sha256_hex_trimmed s : TrimSpace (sha256_hex s) = sha256_hex s.
Proof. apply TrimSpace_no_spaces, EncodeToString_no_spaces, Sum256_bytes. Qed.

Section FailureProofs.
Context {DL : DecimalLib} {DLaws : DecimalLaws DL} {TX : ErrorTexts}.
Local Open Scope Z_scope.

(** ** The class of an error *)

Lemma transient_code e : IsTransientSettlementError e = true -> settlementErrorSQLState e ∈ ["40001"; "40P01"; "55P03"; "57014"]%string.
Proof.
  unfold IsTransientSettlementError. induction e as [| |format e IH| |code| |]; cbn; try done. destruct (decide (code ∈ _)) as [H|]; [|done].
  intros _. exact H.
Qed.

(** The text of a message starts with the code that classifies it. *)
Lemma message_code e p : (String.length p <= 2048)%nat ->
  (forall x, "[SQLSTATE " +:+ settlementErrorSQLState e +:+ "] " +:+ x = p +:+ (" " +:+ x))%string -> settlementErrorSQLState e <> "" ->
  exists r, settlementErrorMessage (Some e) = (p +:+ r)%string.
Proof.
  intros Hl Hp Hne. unfold settlementErrorMessage. rewrite (decide_False _ _ Hne), Hp. set (text := if decide _ then _ else _).
  destruct (_ <? _)%nat; [by apply substring_app|by eexists].
Qed.

Lemma contains_upper p r : ToUpper p = p -> contains p (ToUpper (p +:+ r)) = true.
Proof. intros E. rewrite ToUpper_app, E. apply contains_prefix. Qed.

Ltac by_code E p :=
  match type of E with settlementErrorSQLState ?e = _ =>
    destruct (message_code e p) as [r ->]; [cbn; lia|by rewrite E|by rewrite E|]; eexists; split; [|by apply contains_upper]; set_solver
  end.

Lemma transient_message e failure : IsTransientSettlementError e = true -> fs_ErrorMessage failure = settlementErrorMessage (Some e) ->
  IsTransientFailedSettlementCategory (ClassifyFailedSettlement failure) = true.
Proof.
  intros Ht Hm. apply transient_code in Ht. unfold ClassifyFailedSettlement. rewrite Hm.
  assert (Hc : exists p, p ∈ ["[SQLSTATE 40P01]"; "[SQLSTATE 40001]"; "[SQLSTATE 55P03]"; "[SQLSTATE 57014]"]%string /\ contains p (ToUpper (settlementErrorMessage (Some e))) = true).
  { rewrite !elem_of_cons, elem_of_nil in Ht. destruct Ht as [E|[E|[E|[E|[]]]]].
    - by_code E "[SQLSTATE 40001]"%string.
    - by_code E "[SQLSTATE 40P01]"%string.
    - by_code E "[SQLSTATE 55P03]"%string.
    - by_code E "[SQLSTATE 57014]"%string. }
  destruct Hc as (p & Hp & Hc). rewrite !elem_of_cons, elem_of_nil in Hp.
  repeat (match goal with |- context [contains ?q ?m] => destruct (contains q m) eqn:?; [done|] end); destruct Hp as [->|[->|[->|[->|[]]]]]; congruence.
Qed.

(** ** The key of a trade *)

(** The idempotency key a trade settles under. *)
Definition trade_key (trade : Trade) : string :=
  let key := TrimSpace (t_IdempotencyKey trade) in if decide (key = "") then tradeIdempotencyKey trade else key.

Lemma engine_key_trimmed id : TrimSpace id <> "" -> TrimSpace ("engine:" +:+ TrimSpace id) = ("engine:" +:+ TrimSpace id)%string.
Proof.
  intros Hne. set (s := TrimSpace id) in *. unfold TrimSpace at 1. change ("engine:" +:+ s)%string with (String "e" ("ngine:" +:+ s)).
  rewrite trim_left_fixed by done. change (String "e" ("ngine:" +:+ s)) with ("engine:" +:+ s)%string. apply trim_right_app; [apply TrimSpace_trimmed|done].
Qed.

Lemma tradeIdempotencyKey_trimmed trade : TrimSpace (tradeIdempotencyKey trade) = tradeIdempotencyKey trade.
Proof. unfold tradeIdempotencyKey. case_decide; [apply sha256_hex_trimmed|by apply engine_key_trimmed]. Qed.

Lemma trade_key_trimmed trade : TrimSpace (trade_key trade) = trade_key trade.
Proof. unfold trade_key. case_decide; [apply tradeIdempotencyKey_trimmed|apply TrimSpace_idem]. Qed.

Lemma trade_key_nonempty trade : trade_key trade <> "".
Proof. unfold trade_key. case_decide; [apply tradeIdempotencyKey_nonempty|done]. Qed.

(** The key depends on these fields only, up to spaces and case of the symbol. *)
Lemma tradeIdempotencyKey_ext t t' : TrimSpace (t_EngineEventID t') = TrimSpace (t_EngineEventID t) ->
  normalizeTradeCoinSymbol (t_CoinSymbol t') = normalizeTradeCoinSymbol (t_CoinSymbol t) -> t_BuyOrderID t' = t_BuyOrderID t ->
  t_SellOrderID t' = t_SellOrderID t -> t_Price t' = t_Price t -> t_Quantity t' = t_Quantity t -> tradeIdempotencyKey t' = tradeIdempotencyKey t.
Proof. intros E1 E2 E3 E4 E5 E6. unfold tradeIdempotencyKey, deterministicTradeIdempotencyKey. by rewrite E1, E2, E3, E4, E5, E6. Qed.

Lemma prepare_key trade0 trade : prepareTradeForSettlement trade0 = Ok trade -> t_IdempotencyKey trade = trade_key trade0.
Proof.
  unfold prepareTradeForSettlement, trade_key. intros H. inv_ok H; cbn in *. destruct (decide (TrimSpace (t_IdempotencyKey trade0) = "")); cbn; [|reflexivity].
  apply tradeIdempotencyKey_ext; try done; cbn; [apply TrimSpace_idem|apply normalizeCoinSymbol_idem].
Qed.

Lemma settlement_input_key trade0 trade : settlement_input trade0 = Ok trade -> t_IdempotencyKey trade = trade_key trade0.
Proof.
  unfold settlement_input. destruct (prepareTradeForSettlement trade0) as [t1|] eqn:E1; [|done]. cbn. intros H.
  apply applyTradeFeePolicy_Ok in H as (_ & _ & (_ & -> & _) & _). by apply prepare_key.
Qed.

Lemma trade_key_of_trimmed trade : TrimSpace (t_IdempotencyKey trade) = t_IdempotencyKey trade -> t_IdempotencyKey trade <> "" ->
  trade_key trade = t_IdempotencyKey trade.
Proof. intros H Hne. unfold trade_key. rewrite H. by rewrite decide_False. Qed.

(** Settling leaves the key of the caller's struct what it was, up to how it is
    written. *)
Lemma written_back_key trade0 : trade_key (written_back trade0) = trade_key trade0.
Proof.
  unfold written_back. destruct (prepareTradeForSettlement trade0) as [t1|] eqn:E1.
  - pose proof (prepare_key _ _ E1) as Ek. assert (H1 : trade_key t1 = trade_key trade0).
    { rewrite <- Ek. apply trade_key_of_trimmed; rewrite Ek; [apply trade_key_trimmed|apply trade_key_nonempty]. }
    destruct (applyTradeFeePolicy t1) as [t2|] eqn:E2; [|done]. apply applyTradeFeePolicy_Ok in E2 as (_ & _ & (_ & Ek2 & _) & _).
    rewrite <- Ek, <- Ek2. apply trade_key_of_trimmed; rewrite Ek2, Ek; [apply trade_key_trimmed|apply trade_key_nonempty].
  - unfold trade_key. cbn -[TrimSpace]. destruct (decide (TrimSpace (t_IdempotencyKey trade0) = "")); [|reflexivity]. apply tradeIdempotencyKey_ext; try done. apply normalizeCoinSymbol_idem.
Qed.

Lemma failedSettlementFromTrade_Ok trade err now f : failedSettlementFromTrade trade err now = Ok f ->
  fs_TradeIdempotencyKey f = trade_key trade /\ fs_Status f = FailedSettlementStatusOpen /\ fs_RetryCount f = 1%N
  /\ fs_ErrorMessage f = settlementErrorMessage err /\ fs_BuyOrderID f = t_BuyOrderID trade /\ fs_SellOrderID f = t_SellOrderID trade.
Proof.
  unfold failedSettlementFromTrade, trade_key. intros H. inv_ok H. cbn. done.
Qed.

(** What settlement makes of a trade it has seen before. *)
Lemma settlement_input_again trade0 trade : settlement_input trade0 = Ok trade -> written_back trade0 = trade.
Proof.
  unfold settlement_input, written_back. destruct (prepareTradeForSettlement trade0) as [t1|]; [|done]. cbn. by intros ->.
Qed.

(** ** The tables *)

Class TableLaws {A} (T : FailureTable A) : Prop := {
  tl_get rows t : ft_rows T (ft_put T rows t) = rows;
  tl_put rows rows' t : ft_put T rows (ft_put T rows' t) = ft_put T rows t;
  tl_same t : ft_put T (ft_rows T t) t = t;
  tl_id_set id f : ft_id T (ft_with_id T id f) = id;
  tl_id_again m f : ft_id T (ft_again T m f) = ft_id T f;
  tl_id_resolve x y z f : ft_id T (ft_resolve T x y z f) = ft_id T f;
  tl_key_set id f : ft_key T (ft_with_id T id f) = ft_key T f;
  tl_key_again m f : ft_key T (ft_again T m f) = ft_key T f;
  tl_key_resolve x y z f : ft_key T (ft_resolve T x y z f) = ft_key T f;
  tl_status_set id f : ft_status T (ft_with_id T id f) = ft_status T f;
  tl_status_again m f : ft_status T (ft_again T m f) = FailedSettlementStatusOpen;
  tl_status_resolve x y z f : ft_status T (ft_resolve T x y z f) = FailedSettlementStatusResolved }.

#[export] Instance failed_settlements_laws : TableLaws failed_settlements.
Proof. split; by intros; try destruct t; try destruct f. Qed.
#[export] Instance failed_completions_laws : TableLaws failed_completions.
Proof. split; by intros; try destruct t; try destruct f. Qed.
#[export] Instance failed_cancellations_laws : TableLaws failed_cancellations.
Proof. split; by intros; try destruct t; try destruct f. Qed.

Section Table.
Context {A : Type} (T : FailureTable A) `{!TableLaws T}.

(** Rows sit under their ids, which the sequence gave, and keys are unique. *)
Record table_ok (t : Tables) (s : Seqs) : Prop := {
  to_ids : map_Forall (fun id r => ft_id T r = id /\ (id <= seq_value s (ft_name T))%N) (ft_rows T t);
  to_keys : forall i j x y, ft_rows T t !! i = Some x -> ft_rows T t !! j = Some y -> ft_key T x = ft_key T y -> i = j }.

Lemma table_ok_seq t s s' : seq_le s s' -> table_ok t s -> table_ok t s'.
Proof. intros Hs [H1 H2]. split; [|done]. intros i x Hi. destruct (H1 i x Hi). split; [done|]. specialize (Hs (ft_name T)). lia. Qed.

Lemma table_ok_same t t' s : ft_rows T t' = ft_rows T t -> table_ok t s -> table_ok t' s.
Proof. intros E [H1 H2]. split; rewrite E; done. Qed.

(** A row under a key, and an open one. *)
Definition on_record (t : Tables) (key : string) : Prop := exists id r, ft_rows T t !! id = Some r /\ ft_key T r = key.
Definition open_record (t : Tables) (key : string) : Prop :=
  exists id r, ft_rows T t !! id = Some r /\ ft_key T r = key /\ ft_status T r = FailedSettlementStatusOpen.

Lemma elem_of_all_rows t r : r ∈ all_rows T t <-> exists id, ft_rows T t !! id = Some r.
Proof.
  unfold all_rows. rewrite list_elem_of_fmap. split.
  - intros ([id x] & -> & H). exists id. by apply elem_of_map_to_list in H.
  - intros [id H]. exists (id, r). split; [done|]. by apply elem_of_map_to_list.
Qed.

Lemma row_by_key_Some t key r : row_by_key T t key = Some r -> ft_key T r = key /\ exists id, ft_rows T t !! id = Some r.
Proof.
  unfold row_by_key. intros H. assert (Hin : r ∈ filter (fun r => ft_key T r = key) (all_rows T t)).
  { destruct (filter _ _); [done|]. simplify_eq/=. by left. }
  apply list_elem_of_filter in Hin as [Hk Hin]. split; [done|]. by apply elem_of_all_rows.
Qed.

Lemma row_by_key_None t key : row_by_key T t key = None -> ~ on_record t key.
Proof.
  unfold row_by_key. intros H (id & r & Hr & Hk). assert (Hin : r ∈ filter (fun r => ft_key T r = key) (all_rows T t)).
  { apply list_elem_of_filter. split; [done|]. apply elem_of_all_rows. by exists id. }
  destruct (filter _ _); [by apply elem_of_nil in Hin|done].
Qed.

(** What writing a record does: this table only, no row and no open row lost. *)
Record noted (t t' : Tables) : Prop := {
  nt_put : t' = ft_put T (ft_rows T t') t;
  nt_ids id r : ft_rows T t !! id = Some r -> exists r', ft_rows T t' !! id = Some r' /\ ft_key T r' = ft_key T r;
  nt_open key : open_record t key -> open_record t' key }.

#[export] Instance noted_preorder : PreOrder noted.
Proof.
  split.
  - intros t. split; [by rewrite tl_same|by eauto|done].
  - intros t1 t2 t3 [H1 H2 H3] [H4 H5 H6]. split; [|intros id r Hr|by auto].
    + rewrite H4 at 1. rewrite H1 at 1. by rewrite tl_put.
    + destruct (H2 id r Hr) as (r2 & Hr2 & <-). by apply H5.
Qed.

Lemma nt_kept t t' key : noted t t' -> on_record t key -> on_record t' key.
Proof. intros [_ H _] (id & r & Hr & <-). destruct (H id r Hr) as (r' & Hr' & E). by exists id, r'. Qed.

Lemma put_row_rows id row t : ft_rows T (put_row T id row t) = <[id := row]> (ft_rows T t).
Proof. apply tl_get. Qed.

Lemma noted_put id row t : (forall old, ft_rows T t !! id = Some old -> ft_key T row = ft_key T old
    /\ (ft_status T old = FailedSettlementStatusOpen -> ft_status T row = FailedSettlementStatusOpen)) -> noted t (put_row T id row t).
Proof.
  intros Hold. split.
  - unfold put_row. by rewrite tl_get.
  - intros i r Hi. destruct (decide (i = id)) as [->|Hne].
    + exists row. rewrite put_row_rows, lookup_insert_eq. destruct (Hold _ Hi) as [-> _]. done.
    + exists r. by rewrite put_row_rows, lookup_insert_ne.
  - intros key (i & r & Hi & Hk & Ho). destruct (decide (i = id)) as [->|Hne].
    + exists id, row. rewrite put_row_rows, lookup_insert_eq. destruct (Hold _ Hi) as [-> Hs]. auto.
    + exists i, r. by rewrite put_row_rows, lookup_insert_ne.
Qed.

Lemma table_ok_put id row t s : table_ok t s -> ft_id T row = id -> (id <= seq_value s (ft_name T))%N ->
  (forall i x, ft_rows T t !! i = Some x -> ft_key T x = ft_key T row -> i = id) -> table_ok (put_row T id row t) s.
Proof.
  intros [H1 H2] Hid Hle Hk. split; rewrite put_row_rows.
  - apply map_Forall_insert_2; [done|]. intros i x Hi. by apply H1.
  - intros i j x y Hi Hj E. apply lookup_insert_Some in Hi as [[<- <-]|[Hni Hi]], Hj as [[<- <-]|[Hnj Hj]]; [done| | |by eapply H2].
    + symmetry. by eapply Hk.
    + by eapply Hk.
Qed.

Lemma fresh_row t s id : table_ok t s -> (seq_value s (ft_name T) < id)%N -> ft_rows T t !! id = None.
Proof. intros [H1 _] Hlt. destruct (ft_rows T t !! id) as [x|] eqn:E; [|done]. destruct (H1 id x E). lia. Qed.

(** A row that was not there, under a fresh id. *)
Lemma insert_fresh failure id t s s' : table_ok t s -> seq_le s s' -> seq_value s' (ft_name T) = id -> (seq_value s (ft_name T) < id)%N ->
  row_by_key T t (ft_key T failure) = None ->
  let t' := put_row T id (ft_with_id T id failure) t in
  table_ok t' s' /\ noted t t' /\ ft_rows T t' !! id = Some (ft_with_id T id failure).
Proof.
  intros Hok Hs Hv Hlt Hn t'. split; [|split].
  - apply table_ok_put; [by eapply table_ok_seq|apply tl_id_set|lia|]. intros i x Hi E. rewrite tl_key_set in E. destruct (row_by_key_None _ _ Hn). by exists i, x.
  - apply noted_put. intros old Ho. by rewrite (fresh_row t s) in Ho.
  - unfold t'. by rewrite put_row_rows, lookup_insert_eq.
Qed.

Lemma upsert_spec failure t s : table_ok t s -> ft_status T failure = FailedSettlementStatusOpen ->
  wp (upsert T failure) (fun _ t' s' => table_ok t' s' /\ noted t t' /\ open_record t' (ft_key T failure)) (fun e => ft_check T failure = Some e) t s.
Proof.
  intros Hok Hst. unfold upsert. apply wp_bind, wp_nextval. intros s' Hs _ Hv. destruct (ft_check T failure) as [e|] eqn:Ec; [by apply wp_throw|].
  apply wp_modify. destruct (row_by_key T t (ft_key T failure)) as [row|] eqn:Er.
  - destruct (row_by_key_Some _ _ _ Er) as [Hk [id Hid]]. destruct (to_ids t s Hok id row Hid) as [Eid Hle]. rewrite Eid.
    split; [|split].
    + apply table_ok_put; [by eapply table_ok_seq|by rewrite tl_id_again|specialize (Hs (ft_name T)); lia|].
      intros i x Hi E. rewrite tl_key_again in E. by eapply (to_keys t s Hok).
    + apply noted_put. intros old Ho. simplify_eq. by rewrite tl_key_again, tl_status_again.
    + exists id, (ft_again T (ft_message T failure) row). by rewrite put_row_rows, lookup_insert_eq, tl_key_again, tl_status_again.
  - destruct (insert_fresh failure _ t s s' Hok Hs Hv ltac:(lia) Er) as (H1 & H2 & H3). split; [done|]. split; [done|].
    eexists _, _. rewrite H3, tl_key_set, tl_status_set. done.
Qed.

Lemma insert_new_spec failure t s : table_ok t s ->
  wp (insert_new T failure) (fun _ t' s' => table_ok t' s' /\ noted t t' /\ on_record t' (ft_key T failure)) (fun e => ft_check T failure = Some e) t s.
Proof.
  intros Hok. unfold insert_new. apply wp_bind, wp_nextval. intros s' Hs _ Hv. destruct (ft_check T failure) as [e|] eqn:Ec; [by apply wp_throw|].
  apply wp_modify. destruct (row_by_key T t (ft_key T failure)) as [row|] eqn:Er.
  - destruct (row_by_key_Some _ _ _ Er) as [Hk [id Hid]]. split; [by eapply table_ok_seq|]. split; [done|]. by exists id, row.
  - destruct (insert_fresh failure _ t s s' Hok Hs Hv ltac:(lia) Er) as (H1 & H2 & H3). split; [done|]. split; [done|].
    eexists _, _. by rewrite H3, tl_key_set.
Qed.

(** A call that writes a record and may read it back, whatever fails. *)
Definition notes {X} (m : M X) (done_ : Tables -> Prop) : Prop := forall w, table_ok (w_tables w) (w_seqs w) ->
  let '(r, w') := m w in
  seq_le (w_seqs w) (w_seqs w') /\ table_ok (w_tables w') (w_seqs w') /\ noted (w_tables w) (w_tables w') /\ (is_ok r = true -> done_ (w_tables w')).

Lemma notes_transaction {X} (body : M X) P E : (forall t s, table_ok t s -> wp body (fun _ t' s' => table_ok t' s' /\ noted t t' /\ P t') E t s) ->
  notes (transaction body) P.
Proof.
  intros Hb [t s fs] Hok. cbn [w_tables w_seqs] in *. pose proof (transaction_wp body _ _ t s fs (Hb t s Hok)) as Ht.
  destruct (transaction body _) as [[x|e] w']; destruct Ht as (Hs & _ & Ht); (split; [done|]).
  - destruct Ht as (H1 & H2 & H3). done.
  - destruct Ht as [[-> _]|(_ & _ & x & H1 & H2 & H3)]; [|done]. split; [by eapply table_ok_seq|done].
Qed.

Lemma notes_then {X Y} (m : M X) (k : X -> M Y) P : notes m P -> (forall x, readonly (k x)) -> notes (m ≫= k) P.
Proof.
  intros Hm Hk w Hok. specialize (Hm w Hok). unfold mbind, M_bind. destruct (m w) as [[x|e] w1]; [|done].
  destruct Hm as (H1 & H2 & H3 & H4). destruct (Hk x w1) as [E1 E2]. destruct (k x w1) as [r w2]. cbn [snd] in *. rewrite E1, E2. by auto.
Qed.

Lemma readonly_read_back key : readonly (read_back T key).
Proof. apply readonly_bind; [apply readonly_query|]. intros [x|]; by intros w. Qed.

Lemma record_row_notes failure : ft_status T failure = FailedSettlementStatusOpen ->
  notes (record_row T failure) (fun t => open_record t (ft_key T failure)).
Proof.
  intros Hst. apply notes_then; [|intros x; apply readonly_read_back]. eapply notes_transaction. intros t s Hok.
  apply wp_bind, wp_stmt. by apply upsert_spec.
Qed.

Lemma defer_row_notes failure : notes (defer_row T failure) (fun t => on_record t (ft_key T failure)).
Proof.
  apply notes_then; [|intros x; apply readonly_read_back]. eapply notes_transaction. intros t s Hok. apply wp_bind, wp_stmt. by apply insert_new_spec.
Qed.

Lemma notes_lift {X Y} (r : result error X) (k : X -> M Y) P : (forall x, r = Ok x -> notes (k x) P) -> notes (lift r ≫= k) P.
Proof.
  intros H w Hok. unfold mbind, M_bind, lift. destruct r as [x|e]; [by apply H|]. split; [apply seq_le_refl|]. split; [done|]. split; [reflexivity|done].
Qed.

Lemma notes_throw {X} e P : notes (throw e : M X) P.
Proof. intros w Hok. split; [apply seq_le_refl|]. split; [done|]. split; [reflexivity|done]. Qed.

(** Attempts and retries. *)
Lemma notes_retry {X} retryable n (m : M X) P w : (forall t t', noted t t' -> P t -> P t') -> notes m P -> table_ok (w_tables w) (w_seqs w) ->
  exists r w', retry_while retryable n m w = (Ok r, w') /\ seq_le (w_seqs w) (w_seqs w') /\ table_ok (w_tables w') (w_seqs w')
    /\ noted (w_tables w) (w_tables w') /\ (is_ok r = true -> P (w_tables w')).
Proof.
  intros HP Hm. revert w. induction n as [|n IH]; intros w Hok; cbn [retry_while]; specialize (Hm w Hok) as Hm1;
    unfold mbind, M_bind, attempt; destruct (m w) as [r w1]; destruct Hm1 as (H1 & H2 & H3 & H4).
  - by exists r, w1.
  - destruct r as [x|e]; [by exists (Ok x), w1|]. destruct (retryable e); [|by exists (Err e), w1].
    destruct (IH w1 H2) as (r & w2 & -> & G1 & G2 & G3 & G4). exists r, w2. split; [done|]. split; [by eapply seq_le_trans|]. split; [done|].
    split; [by etrans|done].
Qed.

(** *** Which keys are on record *)

Lemma on_record_put id row t key : on_record (put_row T id row t) key -> on_record t key \/ key = ft_key T row.
Proof.
  intros (i & r & Hi & <-). rewrite put_row_rows in Hi. apply lookup_insert_Some in Hi as [[_ <-]|[_ Hi]]; [by right|left]. by exists i, r.
Qed.

Lemma upsert_keys failure t s : wp (upsert T failure) (fun _ t' _ => forall key, on_record t' key -> on_record t key \/ key = ft_key T failure) (fun _ => True) t s.
Proof.
  unfold upsert. apply wp_bind, wp_nextval. intros s' _ _ _. destruct (ft_check T failure); [by apply wp_throw|]. apply wp_modify.
  destruct (row_by_key T t _) as [row|] eqn:Er; intros key Hk; apply on_record_put in Hk as [Hk|Hk]; [by left| |by left|right].
  - rewrite tl_key_again in Hk. left. destruct (row_by_key_Some _ _ _ Er) as [_ [i Hi]]. by exists i, row.
  - by rewrite tl_key_set in Hk.
Qed.

Lemma record_row_keys failure w key : on_record (w_tables (record_row T failure w).2) key -> on_record (w_tables w) key \/ key = ft_key T failure.
Proof.
  unfold record_row. set (body := _ ← stmt; upsert T failure).
  assert (Hb : wp body (fun _ t' _ => forall key, on_record t' key -> on_record (w_tables w) key \/ key = ft_key T failure) (fun _ => True) (w_tables w) (w_seqs w)).
  { apply wp_bind, wp_stmt, upsert_keys. }
  pose proof (transaction_wp _ _ _ _ _ (w_faults w) Hb) as Ht. destruct w as [t s fs]. cbn [w_tables w_seqs w_faults] in Ht. unfold mbind, M_bind.
  destruct (transaction body _) as [[u|e] w1]; destruct Ht as (_ & _ & Ht); cbn [w_tables snd].
  - pose proof (readonly_read_back (ft_key T failure) w1) as [E _]. destruct (read_back T (ft_key T failure) w1) as [r w2]. cbn [snd] in *. rewrite E. apply Ht.
  - destruct Ht as [[-> _]|(_ & _ & u & Ht)]; [by left|apply Ht].
Qed.

(** *** Resolving *)

(** The row with this id is resolved, if anything happens. *)
Definition resolves (id : N) (t t' : Tables) : Prop :=
  t' = t \/ exists row x y z, ft_rows T t !! id = Some row /\ t' = put_row T id (ft_resolve T x y z row) t.

Lemma update_resolved_run id x y z w : let '(_, w') := update_resolved T id x y z w in
  seq_le (w_seqs w) (w_seqs w') /\ resolves id (w_tables w) (w_tables w').
Proof.
  unfold update_resolved. set (body := _ ← stmt; _).
  assert (Hb : wp body (fun _ t' _ => resolves id (w_tables w) t') (fun _ => True) (w_tables w) (w_seqs w)).
  { apply wp_bind, wp_stmt, wp_bind, wp_get. destruct (ft_rows T (w_tables w) !! id) as [row|] eqn:Er; [|apply wp_ret; by left].
    case_decide; [|apply wp_ret; by left]. apply wp_bind, wp_put, wp_ret. right. by exists row, x, y, z. }
  pose proof (transaction_wp _ _ _ _ _ (w_faults w) Hb) as Ht. destruct w as [t s fs]. cbn [w_tables w_seqs w_faults] in *.
  destruct (transaction body _) as [[u|e] w1]; destruct Ht as (Hs & _ & Ht); (split; [done|]); [done|].
  destruct Ht as [[-> _]|(_ & _ & u & Ht)]; [by left|done].
Qed.

Lemma resolves_ok id t t' s : resolves id t t' -> table_ok t s -> table_ok t' s.
Proof.
  intros [->|(row & x & y & z & Hr & ->)] Hok; [done|]. destruct (to_ids _ _ Hok id row Hr) as [Eid Hle].
  apply table_ok_put; [done|by rewrite tl_id_resolve|done|]. intros i r Hi E. rewrite tl_key_resolve in E. by eapply (to_keys _ _ Hok).
Qed.

Lemma resolves_open id t t' key : resolves id t t' -> open_record t key -> open_record t' key \/ exists row, ft_rows T t !! id = Some row /\ ft_key T row = key.
Proof.
  intros [->|(row & x & y & z & Hr & ->)] (i & r & Hi & Hk & Ho); [left; by exists i, r|]. destruct (decide (i = id)) as [->|Hne]; [right; by exists r|left].
  exists i, r. by rewrite put_row_rows, lookup_insert_ne.
Qed.

Lemma resolves_keys id t t' key : resolves id t t' -> on_record t' key -> on_record t key.
Proof.
  intros [->|(row & x & y & z & Hr & ->)] Hk; [done|]. apply on_record_put in Hk as [Hk|Hk]; [done|]. rewrite tl_key_resolve in Hk. by exists id, row.
Qed.

Lemma resolves_ids id t t' i r : resolves id t t' -> ft_rows T t !! i = Some r -> exists r', ft_rows T t' !! i = Some r' /\ ft_key T r' = ft_key T r.
Proof.
  intros [->|(row & x & y & z & Hr & ->)] Hi; [by eauto|]. rewrite put_row_rows. destruct (decide (i = id)) as [->|Hne]; [|rewrite lookup_insert_ne by done; by eauto].
  rewrite lookup_insert_eq. simplify_eq. eexists. split; [done|]. apply tl_key_resolve.
Qed.
End Table.
End FailureProofs.
