(* ===== verification/ProcessingProofs.v ===== *)
(** * No event is lost in processing

    A trade a worker was given is settled, or an open failure record waits to be
    retried, or its orders are reported; an outbox row is marked only in the first
    two cases.  The end of an order is not executed while a trade of it waits. *)
From S2P Require Import Prelude Decimal Model Errors Fee Matching Database Ledger LedgerInv LedgerSpec LedgerTheorems Sha256 OrderLedger Settlement TradePlan Store SettlementProofs SettlementBatch SettlementBatchProofs HoldCoordinator OrderService Transfers TransferInv LockedFunds OrderProofs FailureStores Dispatcher Processing FailureProofs.
From Stdlib Require Import Lia.

Section ProcessingProofs.
Context {DL : DecimalLib} {DLaws : DecimalLaws DL} {TX : ErrorTexts}.

(** ** What is accounted for *)

(** The trade is stored with this content. *)
Definition settled_as (t : Tables) (trade0 : Trade) : Prop :=
  exists trade existing, settlement_input trade0 = Ok trade /\ find_trade t (t_IdempotencyKey trade) = Some existing
    /\ validateIdempotentTradePayload existing trade = Ok tt.

Definition accounted (t : Tables) (trade0 : Trade) : Prop := settled_as t trade0 \/ open_record failed_settlements t (trade_key trade0).

(** Stored trades stay, and open failures stay open. *)
Record grows (t t' : Tables) : Prop := {
  gr_trades key trade : find_trade t key = Some trade -> find_trade t' key = Some trade;
  gr_open key : open_record failed_settlements t key -> open_record failed_settlements t' key }.

#[export] Instance grows_preorder : PreOrder grows.
Proof. split; [by split|]. intros t1 t2 t3 [H1 H2] [H3 H4]. split; auto. Qed.

Lemma accounted_grows t t' trade0 : grows t t' -> accounted t trade0 -> accounted t' trade0.
Proof.
  intros [H1 H2] [(trade & existing & E1 & E2 & E3)|H]; [left|right; by apply H2]. exists trade, existing. split; [done|]. split; [by apply H1|done].
Qed.

(** The only change of the outbox is marking rows whose ids satisfy [P]. *)
Definition marks (P : N -> Prop) (t t' : Tables) : Prop :=
  forall id, tb_outbox t' !! id = tb_outbox t !! id \/ (P id /\ tb_outbox t' !! id = processed <$> tb_outbox t !! id).

Lemma marks_same (P : N -> Prop) t t' : tb_outbox t' = tb_outbox t -> marks P t t'.
Proof. intros E id. left. by rewrite E. Qed.

Lemma marks_trans (P : N -> Prop) t1 t2 t3 : marks P t1 t2 -> marks P t2 t3 -> marks P t1 t3.
Proof.
  intros H1 H2 id. destruct (H2 id) as [->|[HP ->]]; [apply H1|]. right. split; [done|]. destruct (H1 id) as [->|[_ ->]]; [done|]. by destruct (tb_outbox t1 !! id).
Qed.

Lemma marks_mono (P Q : N -> Prop) t t' : (forall id, P id -> Q id) -> marks P t t' -> marks Q t t'.
Proof. intros HPQ H id. destruct (H id) as [?|[? ?]]; auto. Qed.

(** ** The state of the store and of the failure records *)

Definition kept (w : World) : Prop := store_ok (w_tables w) (w_seqs w) /\ table_ok failed_settlements (w_tables w) (w_seqs w).

Lemma grows_same t t' : tb_trades t' = tb_trades t -> tb_failed_settlements t' = tb_failed_settlements t -> grows t t'.
Proof.
  intros E1 E2. split.
  - intros key trade H. unfold find_trade in *. by rewrite E1.
  - intros key (id & r & Hr & H). exists id, r. split; [|done]. cbn in *. by rewrite E2.
Qed.

Lemma settle_outcome_accounts trade0 trade ob t r t' s' : settlement_input trade0 = Ok trade -> store_ok t' s' -> settle_outcome trade ob t r t' ->
  tb_failed_settlements t' = tb_failed_settlements t /\ grows t t' /\ settled_as t' trade0 /\ marks (fun id => id = ob) t t'.
Proof.
  intros Hi Hok [Hm Hout].
  assert (Hmk : marks (fun id => id = ob) t t').
  { intros id. unfold outbox_marked in Hm. rewrite Hm. destruct (decide (ob = 0%N)); [by left|]. destruct (tb_outbox t !! ob) as [row|] eqn:E; [|by left].
    destruct (decide (id = ob)) as [->|Hne]; [right|left; by rewrite lookup_insert_ne]. rewrite lookup_insert_eq, E. done. }
  destruct (find_trade t _) as [existing|] eqn:Ef.
  - destruct Hout as (_ & (_ & _ & _ & Et & _ & _ & _ & (_ & Efs & _)) & Hv). split; [done|]. assert (G : grows t t') by (by apply grows_same).
    split; [done|]. split; [|done]. exists trade, existing. split; [done|]. split; [by apply (gr_trades _ _ G)|done].
  - destruct Hout as (id & _ & Et & Hset). destruct Hset as [? ? ? ? _ _ _ _ _ _ _ _ _ _ _ (_ & _ & (_ & Efs & _))]. split; [done|].
    split; [|split; [|done]].
    + split.
      * intros key trade1 H. apply find_trade_app with (l := [trade <| t_ID := id |>]) in H. unfold find_trade in *. by rewrite Et.
      * intros key (i & x & Hx & H). exists i, x. split; [|done]. cbn in *. by rewrite Efs.
    + exists trade, (trade <| t_ID := id |>). split; [done|]. split; [|apply payload_same].
      set (row := trade <| t_ID := id |>) in *. assert (Hin : row ∈ tb_trades t') by (rewrite Et; apply elem_of_app; right; by left).
      exact (find_trade_unique t' s' row Hok Hin).
Qed.

(** What a step of processing guarantees, and to which trades when it reports them handled. *)
Record advances (P : N -> Prop) (w w' : World) : Prop := {
  ad_kept : kept w'; ad_seqs : seq_le (w_seqs w) (w_seqs w'); ad_grows : grows (w_tables w) (w_tables w'); ad_marks : marks P (w_tables w) (w_tables w') }.

Lemma advances_refl P w : kept w -> advances P w w.
Proof. intros H. split; [done|apply seq_le_refl|done|by apply marks_same]. Qed.

Lemma advances_trans (P : N -> Prop) w1 w2 w3 : advances P w1 w2 -> advances P w2 w3 -> advances P w1 w3.
Proof. intros [H1 H2 H3 H4] [H5 H6 H7 H8]. split; [done|by eapply seq_le_trans|by etrans|by eapply marks_trans]. Qed.

Lemma advances_mono (P Q : N -> Prop) w w' : (forall id, P id -> Q id) -> advances P w w' -> advances Q w w'.
Proof. intros HPQ [H1 H2 H3 H4]. split; [done|done|done|by eapply marks_mono]. Qed.

(** One call of the settlement service. *)
Lemma settle_advances trade0 ob w : kept w ->
  let '(r, w') := SettleTrade trade0 ob w in
  advances (fun id => id = ob /\ accounted (w_tables w') trade0) w w' /\ (is_ok r = true -> settled_as (w_tables w') trade0).
Proof.
  intros [Hok Htb]. pose proof (SettleTrade_run trade0 ob w Hok) as H. destruct (SettleTrade trade0 ob w) as [r w']. destruct H as (Hs & Hok' & H).
  assert (Hyes : forall trade res, settlement_input trade0 = Ok trade -> settle_outcome trade ob (w_tables w) res (w_tables w') ->
    advances (fun id => id = ob /\ accounted (w_tables w') trade0) w w' /\ settled_as (w_tables w') trade0).
  { intros trade res Hi Ho. destruct (settle_outcome_accounts _ _ _ _ _ _ _ Hi Hok' Ho) as (Ef & Hg & Hset & Hm). split; [|done].
    split; [|done|done|]; [split; [done|]|].
    - apply (table_ok_same failed_settlements (w_tables w)); [exact Ef|]. exact (table_ok_seq _ _ _ _ Hs Htb).
    - eapply marks_mono; [|done]. intros id ->. split; [done|by left]. }
  assert (Hno : w_tables w' = w_tables w -> advances (fun id => id = ob /\ accounted (w_tables w') trade0) w w').
  { intros E. split; [split; [done|]| | |]; rewrite ?E; [by eapply table_ok_seq|done|done|by apply marks_same]. }
  destruct r as [res|e].
  - destruct H as (trade & Hi & Ho). destruct (Hyes _ _ Hi Ho) as [H1 H2]. by split.
  - destruct H as [E|(_ & trade & res & Hi & Ho)]; [split; [by apply Hno|done]|]. destruct (Hyes _ _ Hi Ho) as [H1 H2]. by split.
Qed.

(** A call that only writes failure records of settlements. *)
Lemma notes_advances {X} (m : M X) Q P w : notes failed_settlements m Q -> kept w ->
  let '(r, w') := m w in advances P w w' /\ (is_ok r = true -> Q (w_tables w')).
Proof.
  intros Hm [Hok Htb]. specialize (Hm w Htb). destruct (m w) as [r w']. destruct Hm as (Hs & Htb' & [Hput _ Hopen] & HQ). split; [|done].
  cbn [ft_put ft_rows failed_settlements] in Hput. set (rows := tb_failed_settlements (w_tables w')) in *.
  split; [split; [|done]|done| |].
  - rewrite Hput. apply (store_ok_same (w_tables w)); [done ..|]. by eapply store_ok_seq.
  - split; [|done]. intros key trade H. by rewrite Hput.
  - apply marks_same. by rewrite Hput.
Qed.

Lemma RecordFailure_notes now trade err : notes failed_settlements (RecordFailure now trade err) (fun t => open_record failed_settlements t (trade_key trade)).
Proof.
  unfold RecordFailure. apply notes_lift; [apply _|]. intros f Hf. apply failedSettlementFromTrade_Ok in Hf as (<- & Hst & _).
  exact (record_row_notes failed_settlements f Hst).
Qed.

(** Settling again and again. *)
Lemma settle_retry_advances retryable n trade0 ob w : kept w ->
  exists r w', retry_while retryable n (SettleTrade trade0 ob) w = (Ok r, w')
    /\ advances (fun id => id = ob /\ accounted (w_tables w') trade0) w w' /\ (is_ok r = true -> settled_as (w_tables w') trade0).
Proof.
  revert w. induction n as [|n IH]; intros w Hw; cbn [retry_while]; pose proof (settle_advances trade0 ob w Hw) as H;
    unfold mbind, M_bind, attempt; destruct (SettleTrade trade0 ob w) as [r w1]; destruct H as [Ha Hs].
  - by exists r, w1.
  - destruct r as [x|e]; [by exists (Ok x), w1|]. destruct (retryable e); [|by exists (Err e), w1].
    destruct (IH w1 (ad_kept _ _ _ Ha)) as (r & w2 & -> & Ha2 & Hs2). exists r, w2. split; [done|]. split; [|done].
    eapply advances_trans; [|done]. eapply advances_mono; [|done]. intros id [-> Hacc]. split; [done|].
    by eapply accounted_grows; [apply Ha2|].
Qed.

(** One trade: handled when it is settled or an open record waits. *)
Lemma process_trade_advances now trade0 ob w : kept w ->
  exists handled marked messages w', processTradeSettlement now trade0 ob w = (Ok (handled, marked, messages), w')
    /\ advances (fun id => id = ob /\ accounted (w_tables w') trade0) w w' /\ (handled = true -> accounted (w_tables w') trade0).
Proof.
  intros Hw. unfold processTradeSettlement. unfold mbind at 1, M_bind at 1.
  destruct (settle_retry_advances IsTransientSettlementError transientRetries trade0 ob w Hw) as (r & w1 & -> & Ha & Hs).
  destruct r as [result|e].
  - eexists _, _, _, _. split; [reflexivity|]. split; [done|]. intros _. left. by apply Hs.
  - unfold mbind, M_bind, attempt.
    pose proof (notes_advances _ _ (fun id => id = ob /\ accounted (w_tables w1) trade0) w1 (RecordFailure_notes now (written_back trade0) (Some e)) (ad_kept _ _ _ Ha)) as H.
    destruct (RecordFailure now (written_back trade0) (Some e) w1) as [r w2]. destruct H as [Ha2 Hr]. eexists _, _, _, w2. split; [reflexivity|].
    rewrite written_back_key in Hr. split; [|intros Hh; right; by apply Hr].
    eapply advances_mono; [|by eapply advances_trans]. intros id [-> Hacc]. split; [done|]. by eapply accounted_grows; [apply Ha2|].
Qed.

(** *** Marking *)

(** Changes of the outbox only. *)
Lemma advances_outbox (P : N -> Prop) w t' s' fs : kept w -> seq_le (w_seqs w) s' -> (exists rows, t' = (w_tables w) <| tb_outbox := rows |>) ->
  marks P (w_tables w) t' -> advances P w (mkWorld t' s' fs).
Proof.
  intros [Hok Htb] Hs [rows ->] Hm. split; [split|done| |done]; cbn [w_tables w_seqs].
  - apply (store_ok_same (w_tables w)); [done ..|]. by eapply store_ok_seq.
  - apply (table_ok_same failed_settlements (w_tables w)); [done|]. by eapply table_ok_seq.
  - by apply grows_same.
Qed.

Lemma world_eta (w : World) : mkWorld (w_tables w) (w_seqs w) (w_faults w) = w.
Proof. by destruct w. Qed.

(** A transaction that writes the outbox only. *)
Lemma outbox_transaction {X} (body : M X) (P : N -> Prop) E w : kept w ->
  wp body (fun _ t' _ => (exists rows, t' = (w_tables w) <| tb_outbox := rows |>) /\ marks P (w_tables w) t') E (w_tables w) (w_seqs w) ->
  advances P w (transaction body w).2.
Proof.
  intros Hw Hb. pose proof (transaction_wp body _ _ _ _ (w_faults w) Hb) as Ht. rewrite world_eta in Ht.
  assert (Hsame : (exists rows, w_tables w = (w_tables w) <| tb_outbox := rows |>) /\ marks P (w_tables w) (w_tables w)).
  { split; [exists (tb_outbox (w_tables w)); by destruct (w_tables w)|by apply marks_same]. }
  destruct (transaction body w) as [[x|e] [t' s' fs]]; cbn [snd w_tables w_seqs] in *; destruct Ht as (Hs & _ & Ht).
  - destruct Ht as [H1 H2]. by apply advances_outbox.
  - destruct Ht as [[-> _]|(_ & _ & x & H1 & H2)]; [destruct Hsame as [H1 H2]|]; by apply advances_outbox.
Qed.

Lemma mark_advances id w : kept w -> advances (fun i => i = id) w (MarkProcessed id w).2.
Proof.
  intros Hw. unfold MarkProcessed. match goal with |- context [transaction ?b] => set (body := b) end.
  assert (Hb : advances (fun i => i = id) w (transaction body w).2).
  { eapply (outbox_transaction _ _ (fun _ => True)); [done|]. apply wp_bind, wp_stmt, wp_bind, wp_get. destruct (tb_outbox (w_tables w) !! id) as [row|] eqn:Er.
    - apply wp_bind, wp_put, wp_ret. split; [by eexists|]. intros i. cbn. destruct (decide (i = id)) as [->|Hne]; [|left; by rewrite lookup_insert_ne].
      right. by rewrite lookup_insert_eq, Er.
    - apply wp_ret. split; [exists (tb_outbox (w_tables w)); by destruct (w_tables w)|by apply marks_same]. }
  unfold mbind, M_bind. destruct (transaction body w) as [[[]|e] w']; done.
Qed.

(** *** One event, and one after the other *)

Lemma process_single_advances now event trade0 w : oe_Event event = EvTrade trade0 -> kept w ->
  exists handled messages w', processSingleOutboxEvent now event w = (Ok (handled, messages), w')
    /\ advances (fun id => id = oe_OutboxID event /\ accounted (w_tables w') trade0) w w' /\ (handled = true -> accounted (w_tables w') trade0).
Proof.
  intros He Hw. unfold processSingleOutboxEvent. rewrite He. cbn [processExecutionEvent]. unfold mbind at 1, M_bind at 1.
  destruct (process_trade_advances now trade0 (oe_OutboxID event) w Hw) as (handled & marked & messages & w1 & -> & Ha & Hacc).
  destruct handled; cbn [negb]; [|eexists _, _, w1; split; [reflexivity|]; by split]. specialize (Hacc eq_refl).
  destruct marked; [eexists _, _, w1; split; [reflexivity|]; by split|]. unfold mbind, M_bind, attempt.
  pose proof (mark_advances (oe_OutboxID event) w1 (ad_kept _ _ _ Ha)) as Hm. destruct (MarkProcessed (oe_OutboxID event) w1) as [r w2]. cbn [snd] in Hm.
  assert (Hacc2 : accounted (w_tables w2) trade0) by (by eapply accounted_grows; [apply Hm|]).
  eexists _, _, w2. split; [reflexivity|]. split; [|done].
  eapply advances_mono; [|eapply advances_trans; [|exact Hm]]; [intros id ->; by split|]. eapply advances_mono; [|exact Ha]. by intros id [-> _].
Qed.

(** Which rows a batch may mark. *)
Definition accounted_in (batch : list OutboxEvent) (t : Tables) (id : N) : Prop :=
  exists event trade, event ∈ batch /\ oe_OutboxID event = id /\ oe_Event event = EvTrade trade /\ accounted t trade.

Lemma accounted_in_grows batch batch' t t' id : (forall event, event ∈ batch -> event ∈ batch') -> grows t t' -> accounted_in batch t id -> accounted_in batch' t' id.
Proof.
  intros Hb Hg (event & trade & H1 & H2 & H3 & H4). exists event, trade. split; [by apply Hb|]. split; [done|]. split; [done|]. by eapply accounted_grows.
Qed.

(** Every trade of a batch is accounted for, or its orders are reported. *)
Definition reported (batch : list OutboxEvent) (undurable : list N) (t : Tables) : Prop :=
  forall event trade, event ∈ batch -> oe_Event event = EvTrade trade ->
    accounted t trade \/ (t_BuyOrderID trade ∈ undurable /\ t_SellOrderID trade ∈ undurable).

Lemma reported_all batch t : reported batch (undurableOrderIDsFromTradeBatch batch) t.
Proof.
  intros event trade Hin He. right. unfold undurableOrderIDsFromTradeBatch.
  split; apply list_elem_of_bind; exists event; (split; [|done]); unfold orders_of; rewrite He; set_solver.
Qed.

Lemma process_each_advances now batch w : Forall (fun event => is_trade event = true) batch -> kept w ->
  exists undurable messages w', process_each now batch w = (Ok (undurable, messages), w')
    /\ advances (accounted_in batch (w_tables w')) w w' /\ reported batch undurable (w_tables w').
Proof.
  intros Hb. revert w. induction Hb as [|event batch He _ IH]; intros w Hw; cbn [process_each].
  { eexists _, _, w. split; [reflexivity|]. split; [by apply advances_refl|]. intros ? ? Hin. by apply elem_of_nil in Hin. }
  unfold is_trade in He. destruct (oe_Event event) as [trade0| |] eqn:Et; try done.
  destruct (process_single_advances now event trade0 w Et Hw) as (handled & messages & w1 & Ep & Ha & Hacc).
  unfold mbind at 1, M_bind at 1. rewrite Ep. destruct (IH w1 (ad_kept _ _ _ Ha)) as (undurable & more & w2 & Eb & Hab & Hrep).
  unfold mbind, M_bind. rewrite Eb. eexists _, _, w2. split; [reflexivity|]. split.
  - eapply advances_trans; (eapply advances_mono; [|done]); intros id.
    + intros [-> H]. exists event, trade0. split; [by left|]. split; [done|]. split; [done|]. by eapply accounted_grows; [apply Hab|].
    + apply accounted_in_grows; [by right|done].
  - intros ev trade Hin Hev. apply elem_of_cons in Hin as [->|Hin].
    + rewrite Et in Hev. simplify_eq. destruct handled; [left; by eapply accounted_grows; [apply Hab|apply Hacc]|right].
      unfold orders_of. rewrite Et. set_solver.
    + destruct (Hrep ev trade Hin Hev) as [H|[H1 H2]]; [by left|right]. destruct handled; [done|]. set_solver.
Qed.

(** *** Handing a batch over to the failure records *)

Lemma upserts_spec failures t s : table_ok failed_settlements t s -> Forall (fun f => fs_Status f = FailedSettlementStatusOpen) failures ->
  wp (for_each (upsert failed_settlements) failures)
    (fun _ t' s' => table_ok failed_settlements t' s' /\ noted failed_settlements t t' /\ forall f, f ∈ failures -> open_record failed_settlements t' (fs_TradeIdempotencyKey f))
    (fun _ => True) t s.
Proof.
  intros Hok Hst. eapply wp_mono.
  - apply (wp_for_each _ (fun rest t' s' => table_ok failed_settlements t' s' /\ noted failed_settlements t t' /\ Forall (fun f => fs_Status f = FailedSettlementStatusOpen) rest
      /\ forall f, f ∈ failures -> f ∈ rest \/ open_record failed_settlements t' (fs_TradeIdempotencyKey f)) (fun _ => True)).
    + intros f rest t1 s1 (H1 & H2 & H3 & H4). apply Forall_cons in H3 as [Hf H3].
      eapply wp_mono; [by apply (upsert_spec failed_settlements f)| |done]. intros u t2 s2 _ (G1 & G2 & G3).
      split; [done|]. split; [by etrans|]. split; [done|]. intros f' Hf'. destruct (H4 f' Hf') as [Hin|Ho]; [|right; by apply (nt_open _ _ _ G2)].
      apply elem_of_cons in Hin as [->|Hin]; [by right|by left].
    + split; [done|]. split; [reflexivity|]. split; [done|]. by left.
  - intros u t' s' _ (H1 & H2 & _ & H4). split; [done|]. split; [done|]. intros f Hf. destruct (H4 f Hf) as [Hin|]; [by apply elem_of_nil in Hin|done].
  - done.
Qed.

(** What a committed hand-over leaves. *)
Definition handed_over (items : list SettlementFailureHandoff) (t t' : Tables) : Prop :=
  exists t1, noted failed_settlements t t1 /\ (exists rows, t' = t1 <| tb_outbox := rows |>)
    /\ marks (fun id => id ∈ map ho_OutboxID items) t1 t'
    /\ forall item, item ∈ items -> open_record failed_settlements t1 (fs_TradeIdempotencyKey (ho_Failure item)).

Lemma handoff_body_spec items t s : table_ok failed_settlements t s -> Forall (fun item => fs_Status (ho_Failure item) = FailedSettlementStatusOpen) items ->
  wp (handoff_body items) (fun _ t' s' => table_ok failed_settlements t' s' /\ handed_over items t t') (fun _ => True) t s.
Proof.
  intros Hok Hst. unfold handoff_body. apply wp_bind, wp_stmt, wp_bind. eapply wp_mono; [apply upserts_spec; [done|by apply List.Forall_map]| |done].
  intros u t1 s1 _ (H1 & H2 & H3). apply wp_bind, wp_stmt, wp_bind, wp_get, wp_bind, wp_put. case_decide; [by apply wp_throw|]. apply wp_ret.
  split; [by apply (table_ok_same failed_settlements t1)|]. exists t1. split; [done|]. split; [by eexists|]. split.
  - match goal with |- context [mark_processed (tb_outbox t1) ?l] => set (ids := l) end. intros id.
    match goal with |- tb_outbox ?x !! _ = _ \/ _ => change (tb_outbox x) with (mark_processed (tb_outbox t1) ids) end. rewrite mark_processed_lookup. destruct (decide (id ∈ ids)) as [Hin|]; [right|by left].
    apply list_elem_of_filter in Hin as [_ Hin]. by split.
  - intros item Hin. apply H3. by apply list_elem_of_fmap_2.
Qed.

Definition handoff_of (item : TradeOutboxFailureItem) (h : SettlementFailureHandoff) : Prop :=
  ho_OutboxID h = fi_OutboxID item /\ fs_TradeIdempotencyKey (ho_Failure h) = trade_key (fi_Trade item) /\ fs_Status (ho_Failure h) = FailedSettlementStatusOpen.

Lemma build_handoffs_Ok now err i items hs : build_handoffs now err i items = Ok hs -> Forall2 handoff_of items hs.
Proof.
  revert i hs. induction items as [|item items IH]; intros i hs; cbn [build_handoffs]; [by intros [= <-]|].
  destruct (failedSettlementFromTrade _ _ _) as [f|] eqn:Ef; [|done]. destruct (build_handoffs _ _ _ items) as [rest|] eqn:Er; [|done]. cbn. intros [= <-].
  apply failedSettlementFromTrade_Ok in Ef as (Hk & Hst & _). constructor; [done|by eapply IH].
Qed.

Lemma elem_of_handoff_items batch item : item ∈ handoff_items batch <->
  exists event trade, event ∈ batch /\ oe_Event event = EvTrade trade /\ item = mkFailureItem (written_back trade) (oe_OutboxID event).
Proof.
  unfold handoff_items. rewrite list_elem_of_omap. split.
  - intros (event & Hin & He). exists event. unfold trade_of in He. destruct (oe_Event event) as [trade| |]; try done. exists trade. cbn in He. by simplify_eq.
  - intros (event & trade & Hin & He & ->). exists event. split; [done|]. unfold trade_of. by rewrite He.
Qed.

Lemma handed_over_accounts batch hs t t' : Forall2 handoff_of (handoff_items batch) hs -> handed_over hs t t' ->
  (forall event trade, event ∈ batch -> oe_Event event = EvTrade trade -> accounted t' trade) /\ grows t t' /\ marks (accounted_in batch t') t t'.
Proof.
  intros Hf (t1 & [Hput _ Hopen] & [rows E] & Hm & Hrec). cbn [ft_put ft_rows failed_settlements] in Hput.
  assert (Hsame : forall key, open_record failed_settlements t1 key -> open_record failed_settlements t' key) by (intros key (i & r & Hi & H); exists i, r; by rewrite E).
  assert (Hacc : forall event trade, event ∈ batch -> oe_Event event = EvTrade trade -> accounted t' trade).
  { intros event trade Hin He. right. assert (Hi : mkFailureItem (written_back trade) (oe_OutboxID event) ∈ handoff_items batch) by (apply elem_of_handoff_items; eauto).
    apply list_elem_of_lookup in Hi as [n Hn]. destruct (Forall2_lookup_l _ _ _ _ _ Hf Hn) as (h & Hh & _ & Hk & _). cbn in Hk. rewrite written_back_key in Hk.
    rewrite <- Hk. apply Hsame, Hrec. by eapply list_elem_of_lookup_2. }
  split; [done|]. split.
  - split; [|by auto]. intros key trade H. rewrite E, Hput. exact H.
  - intros id. destruct (Hm id) as [->|[Hin ->]]; [left; by rewrite Hput|]. rewrite Hput. cbn. right. split; [|done].
    apply list_elem_of_fmap in Hin as (h & -> & Hh). apply list_elem_of_lookup in Hh as [n Hn].
    destruct (Forall2_lookup_r _ _ _ _ _ Hf Hn) as (item & Hi & Eid & _). apply list_elem_of_lookup_2, elem_of_handoff_items in Hi as (event & trade & H1 & H2 & ->).
    exists event, trade. rewrite Eid. split; [done|]. split; [done|]. split; [done|by eapply Hacc].
Qed.

Lemma handoff_advances now batch e w : kept w ->
  let '(r, w') := RecordBatchFailuresAndMarkOutboxProcessed now (handoff_items batch) (Some e) w in
  advances (accounted_in batch (w_tables w')) w w'
  /\ (is_ok r = true -> forall event trade, event ∈ batch -> oe_Event event = EvTrade trade -> accounted (w_tables w') trade).
Proof.
  intros Hw. unfold RecordBatchFailuresAndMarkOutboxProcessed. destruct (handoff_items batch) as [|item0 items0] eqn:Ei; [split; [by apply advances_refl|done]|].
  rewrite <- Ei. unfold mbind at 1, M_bind at 1, lift at 1. destruct (build_handoffs _ _ _ _) as [hs|] eqn:Eb; [|split; [by apply advances_refl|done]].
  apply build_handoffs_Ok in Eb. unfold RecordFailuresAndMarkOutboxProcessed. destruct hs as [|h0 hs0] eqn:Eh; [split; [by apply advances_refl|done]|].
  rewrite <- Eh in *. clear Eh. unfold mbind, M_bind, lift. destruct (check_handoffs _ _ _ hs); [|split; [by apply advances_refl|done]].
  destruct Hw as [Hok Htb]. assert (Hst : Forall (fun item => fs_Status (ho_Failure item) = FailedSettlementStatusOpen) hs).
  { apply Forall_forall. intros h Hh. apply list_elem_of_lookup in Hh as [n Hn]. by destruct (Forall2_lookup_r _ _ _ _ _ Eb Hn) as (item & _ & _ & _ & ?). }
  pose proof (transaction_wp _ _ _ _ _ (w_faults w) (handoff_body_spec hs _ _ Htb Hst)) as Ht. rewrite world_eta in Ht.
  destruct (transaction _ w) as [r w']. destruct Ht as (Hs & _ & Ht).
  assert (Hyes : table_ok failed_settlements (w_tables w') (w_seqs w') -> handed_over hs (w_tables w) (w_tables w') ->
    advances (accounted_in batch (w_tables w')) w w' /\ forall event trade, event ∈ batch -> oe_Event event = EvTrade trade -> accounted (w_tables w') trade).
  { intros Htb' Hh. destruct (handed_over_accounts batch hs _ _ Eb Hh) as (Hacc & Hg & Hm). split; [|done]. split; [split; [|done]|done|done|done].
    destruct Hh as (t1 & [Hput _ _] & [rows E] & _). rewrite E, Hput. apply (store_ok_same (w_tables w)); [done ..|]. by eapply store_ok_seq. }
  destruct r as [u|err].
  - destruct Ht as [H1 H2]. destruct (Hyes H1 H2). by split.
  - destruct Ht as [[E _]|(_ & _ & u & H1 & H2)]; [|destruct (Hyes H1 H2); by split]. split; [|done].
    split; [split|done| |]; rewrite E; [by eapply store_ok_seq|by eapply table_ok_seq|done|by apply marks_same].
Qed.

(** *** A settled batch *)

Lemma settles_accounts items ps s rs t t' : Forall2 prepared_as items ps -> settles s ps rs t t' ->
  tb_failed_settlements t' = tb_failed_settlements t /\ grows t t'
  /\ (forall item trade0, item ∈ items -> ti_Trade item = Some trade0 -> settled_as t' trade0)
  /\ marks (fun id => exists item, item ∈ items /\ ti_OutboxEventID item = id) t t'.
Proof.
  intros Hps. revert rs t. induction Hps as [|item p items ps (trade0 & Et & Hi & Ho) _ IH]; intros rs t Hset; inversion Hset as [|? ? ? ? ? t1 ? Hout Hok1 Hrest]; subst.
  { split; [done|]. split; [done|]. split; [intros ? ? Hin; by apply elem_of_nil in Hin|by apply marks_same]. }
  destruct (settle_outcome_accounts trade0 _ _ _ _ _ _ Hi Hok1 Hout) as (E1 & G1 & S1 & M1). destruct (IH _ _ Hrest) as (E2 & G2 & S2 & M2).
  split; [congruence|]. split; [by etrans|]. split.
  - intros it tr Hin Htr. apply elem_of_cons in Hin as [->|Hin]; [|by eapply S2]. rewrite Et in Htr. simplify_eq.
    destruct S1 as (trade & existing & F1 & F2 & F3). exists trade, existing. split; [done|]. split; [by apply (gr_trades _ _ G2)|done].
  - eapply marks_trans; (eapply marks_mono; [|done]).
    + intros id ->. exists item. split; [by left|done].
    + intros id (it & Hin & <-). exists it. split; [by right|done].
Qed.

Lemma batch_settled_advances batch rs w w' : Forall (fun event => is_trade event = true) batch -> kept w -> seq_le (w_seqs w) (w_seqs w') ->
  store_ok (w_tables w') (w_seqs w') -> batch_settled (batch_items batch) rs (w_tables w) w' ->
  advances (accounted_in batch (w_tables w')) w w' /\ reported batch [] (w_tables w').
Proof.
  intros Hb [Hok Htb] Hs Hok' (ps & Hps & Hset). destruct (settles_accounts _ _ _ _ _ _ Hps Hset) as (Ef & Hg & Hall & Hm).
  assert (Hacc : forall event trade, event ∈ batch -> oe_Event event = EvTrade trade -> accounted (w_tables w') trade).
  { intros event trade Hin He. left. apply (Hall (mkTradeBatchItem (trade_of event) (oe_OutboxID event))); [exact (list_elem_of_fmap_2 (fun event => mkTradeBatchItem (trade_of event) (oe_OutboxID event)) batch event Hin)|].
    cbn. unfold trade_of. by rewrite He. }
  split; [|intros event trade Hin He; left; by eapply Hacc]. split; [split; [done|]|done|done|].
  - apply (table_ok_same failed_settlements (w_tables w)); [exact Ef|]. exact (table_ok_seq _ _ _ _ Hs Htb).
  - eapply marks_mono; [|done]. intros id (item & Hin & <-). apply list_elem_of_fmap in Hin as (event & -> & Hin).
    rewrite Forall_forall in Hb. specialize (Hb event Hin). unfold is_trade in Hb. destruct (oe_Event event) as [trade| |] eqn:He; try done.
    exists event, trade. split; [done|]. split; [done|]. split; [done|by eapply Hacc].
Qed.

(** C2 No trade of a batch is lost, whatever the database does: a worker's call
    returns; then every trade of the batch is in the trades table with its
    content, or an OPEN failure record under its key waits to be retried, or both
    its orders are reported to the dispatcher; every outbox row that was marked
    PROCESSED belongs to a trade of the first two kinds; trades and open records
    that were there before still are, and the store's invariant holds.  This covers
    the batch transaction, the hand-over after a statement timeout, and the
    fallback to single settlements with its retries. *)
Theorem batch_never_lost now batch w : Forall (fun event => is_trade event = true) batch -> kept w ->
  exists undurable messages w', settleTradeBatchWithFallback now batch w = (Ok (undurable, messages), w')
    /\ advances (accounted_in batch (w_tables w')) w w' /\ reported batch undurable (w_tables w').
Proof.
  intros Hb Hw. unfold settleTradeBatchWithFallback. unfold mbind at 1, M_bind at 1, attempt. pose proof (SettleTradeBatch_run (batch_items batch) w (proj1 Hw)) as H.
  destruct (SettleTradeBatch (batch_items batch) w) as [[rs|e] w1]; destruct H as (Hs & Hok1 & H).
  { destruct (batch_settled_advances batch rs w w1 Hb Hw Hs Hok1 H) as [H1 H2]. by eexists _, _, w1. }
  assert (Ha : advances (accounted_in batch (w_tables w1)) w w1).
  { destruct H as [E|(_ & rs & Hset)]; [|by eapply batch_settled_advances].
    split; [split; [done|]|done| |]; rewrite E; [exact (table_ok_seq _ _ _ _ Hs (proj2 Hw))|done|by apply marks_same]. }
  assert (Hthen : forall w2, advances (accounted_in batch (w_tables w2)) w1 w2 -> advances (accounted_in batch (w_tables w2)) w w2).
  { intros w2 H2. eapply advances_trans; [|done]. eapply advances_mono; [|done]. intros id. by apply accounted_in_grows; [|apply H2]. }
  destruct (decide _) as [_|_].
  - unfold handoffStatementTimeoutBatch. unfold mbind, M_bind, attempt. pose proof (handoff_advances now batch e w1 (ad_kept _ _ _ Ha)) as Hh.
    destruct (RecordBatchFailuresAndMarkOutboxProcessed _ _ _ w1) as [r w2]. destruct Hh as [H1 H2]. eexists _, _, w2. split; [reflexivity|]. split; [by apply Hthen|].
    destruct r as [u|err]; [intros event trade Hin He; left; by eapply H2|apply reported_all].
  - destruct (process_each_advances now batch w1 Hb (ad_kept _ _ _ Ha)) as (undurable & messages & w2 & E & H1 & H2).
    exists undurable, messages, w2. split; [done|]. split; [by apply Hthen|done].
Qed.
End ProcessingProofs.
