(* ===== verification/TerminalProofs.v ===== *)
(** * Ending an order, as the store sees it

    What completing or cancelling an order leaves, from the store's invariant
    alone: the order is closed, or had nothing left to cancel; no other order and
    no record changes. *)
From S2P Require Import Prelude Decimal Model Matching Errors Fee Database Ledger LedgerInv LedgerSpec LedgerTheorems Sha256 OrderLedger Settlement TradePlan Store SettlementProofs SettlementBatch HoldCoordinator OrderService Transfers TransferInv LockedFunds OrderProofs FailureStores Dispatcher Processing FailureProofs ProcessingProofs.
From Stdlib Require Import Lia.

Section OrderEnds.
Context {DL : DecimalLib} {DLaws : DecimalLaws DL}.
Local Open Scope Q_scope.

Definition completed_order (id : N) (t : Tables) : Prop := exists o, tb_orders t !! id = Some o /\ ~ open_status o.
Definition cancelled_order (id : N) (t : Tables) : Prop :=
  exists o, tb_orders t !! id = Some o /\ ~ (open_status o /\ dval (r_FilledAmount o) < dval (r_Amount o)).

Definition only_order (id : N) (t t' : Tables) : Prop := (forall i, i <> id -> tb_orders t' !! i = tb_orders t !! i) /\ besides_orders t t'.

Lemma only_order_refl id t : only_order id t t.
Proof. by repeat split. Qed.

Lemma release_frame o amount reason t s : store_ok t s ->
  wp (releaseOrderAssets o amount reason) (fun _ t' s' => store_ok t' s' /\ tb_orders t' = tb_orders t /\ besides_orders t t') (fun _ => True) t s.
Proof.
  intros Hok. unfold releaseOrderAssets. do 2 (destruct (negb _); [by apply wp_throw|]). case_decide; [by apply wp_throw|].
  apply wp_bind. eapply wp_mono; [apply Record_store; [done|]| |done]; [by intros key|]. intros [e c] t' s' _ (Hok' & (_ & Ho & Ht & Hob & Hi & _ & _ & Hr) & _).
  apply wp_ret. split; [done|]. split; [done|]. by split_and!.
Qed.

Lemma update_frame id o fa fq st t s : store_ok t s -> tb_orders t !! id = Some o -> fa = r_FilledAmount o -> fq = r_FilledQuoteAmount o ->
  wp (UpdateOrderExecution (r_ID o) fa fq st) (fun _ t' s' => store_ok t' s' /\ only_order id t t' /\ tb_orders t' !! id = Some (with_execution o fa fq st)) (fun _ => True) t s.
Proof.
  intros Hok Ho -> ->. destruct (so_orders _ _ Hok id o Ho) as (Hid & Hseq & Hfa & Hfq & Hlim). rewrite Hid. apply (UpdateOrderExecution_spec _ _ _ _ _ _ _ _ o); [done|].
  split; [apply store_ok_update_order; [done|]; split; [done|]; split; [done|]; by split_and!|]. split; [split; [|done]; intros i Hne; cbn; by rewrite lookup_insert_ne|]. cbn. by rewrite lookup_insert_eq.
Qed.

(** Releasing and closing. *)
Lemma close_frame (release : M unit) id o st t s : store_ok t s -> tb_orders t !! id = Some o ->
  wp release (fun _ t' s' => store_ok t' s' /\ tb_orders t' = tb_orders t /\ besides_orders t t') (fun _ => True) t s ->
  wp (_ ← release; UpdateOrderExecution (r_ID o) (r_FilledAmount o) (r_FilledQuoteAmount o) st) (fun _ t' s' => store_ok t' s' /\ only_order id t t' /\ exists o', tb_orders t' !! id = Some o' /\ r_Status o' = st) (fun _ => True) t s.
Proof.
  intros Hok Ho Hr. apply wp_bind. eapply wp_mono; [exact Hr| |done]. intros u t1 s1 _ (Hok1 & Ho1 & Hb1).
  eapply wp_mono; [apply (update_frame id o); [done|by rewrite Ho1|done|done]| |done]. intros u' t2 s2 _ (Hok2 & [Hi2 Hb2] & Hrow). split; [done|]. split; [|by eexists]. split.
  - intros i Hne. by rewrite Hi2, Ho1.
  - destruct Hb1 as (A1 & A2 & A3 & A4), Hb2 as (B1 & B2 & B3 & B4). split; [congruence|]. split; [congruence|]. split; [congruence|by etrans].
Qed.

Lemma skip_frame t s : store_ok t s -> wp (mret tt : M unit) (fun _ t' s' => store_ok t' s' /\ tb_orders t' = tb_orders t /\ besides_orders t t') (fun _ => True) t s.
Proof. intros Hok. apply wp_ret. split; [done|]. by repeat split. Qed.

(** Closing with a status that is not open. *)
Lemma close_closed (release : M unit) id o st t s : store_ok t s -> tb_orders t !! id = Some o -> st = OrderStatusFilled \/ st = OrderStatusCancelled ->
  wp release (fun _ t' s' => store_ok t' s' /\ tb_orders t' = tb_orders t /\ besides_orders t t') (fun _ => True) t s ->
  wp (_ ← release; UpdateOrderExecution (r_ID o) (r_FilledAmount o) (r_FilledQuoteAmount o) st)
    (fun _ t' s' => store_ok t' s' /\ only_order id t t' /\ completed_order id t') (fun _ => True) t s.
Proof.
  intros Hok Ho Hst Hr. eapply wp_mono; [by apply (close_frame release id o st)| |done]. intros u t' s' _ (H1 & H2 & o' & Ho' & Es). split; [done|]. split; [done|].
  exists o'. split; [done|]. intros [E|E]; rewrite Es in E; destruct Hst; congruence.
Qed.

Lemma complete_frame input t s : store_ok t s ->
  wp (complete_body input) (fun _ t' s' => store_ok t' s' /\ only_order (cm_OrderID input) t t' /\ completed_order (cm_OrderID input) t') (fun _ => True) t s.
Proof.
  intros Hok. unfold complete_body. apply wp_bind, FindByIDForUpdate_spec; [|done]. intros o Ho. destruct (negb _); [by apply wp_throw|].
  destruct (bool_decide (r_Status o = OrderStatusFilled) || bool_decide (r_Status o = OrderStatusCancelled)) eqn:Es.
  { apply wp_ret. split; [done|]. split; [apply only_order_refl|]. exists o. split; [done|]. apply orb_true_iff in Es. rewrite !bool_decide_eq_true in Es.
    intros [E|E]; destruct Es; congruence. }
  destruct (LessThan _ _ || LessThan _ _); [by apply wp_throw|]. destruct (r_Side o); [| |by apply wp_throw].
  - unfold completeMarketBuyOrder, SumBuyerFeesByBuyOrderID. apply wp_bind, wp_query. destruct (GreaterThan _ _); [by apply wp_throw|].
    apply close_closed; [done|done|by destruct (negb _); auto|]. destruct (GreaterThan _ _); [by apply release_frame|by apply skip_frame].
  - unfold completeMarketSellOrder. apply wp_bind, wp_lift. destruct (remainingMarketSellQuantity o) as [remaining|]; [|done].
    apply close_closed; [done|done|by destruct (Equal _ _); auto|]. destruct (GreaterThan _ _); [by apply release_frame|by apply skip_frame].
Qed.

Lemma completed_cancelled id t : completed_order id t -> cancelled_order id t.
Proof. intros (o & Ho & Hn). exists o. split; [done|]. by intros [? _]. Qed.

Lemma cancellation_frame id t s : store_ok t s ->
  wp (cancellation_body id) (fun _ t' s' => store_ok t' s' /\ only_order id t t' /\ cancelled_order id t') (fun _ => True) t s.
Proof.
  intros Hok. unfold cancellation_body. apply wp_bind, FindByIDForUpdate_spec; [|done]. intros o Ho.
  destruct (isCancellableOrderStatus (r_Status o)) eqn:Hopen; cbn [negb].
  2: { apply wp_ret. split; [done|]. split; [apply only_order_refl|]. exists o. split; [done|]. intros [Hop _]. apply open_cancellable in Hop. congruence. }
  destruct (GreaterThan _ Zero) eqn:Eg; cbn [negb]; dec_prop.
  2: { apply wp_ret. split; [done|]. split; [apply only_order_refl|]. exists o. split; [done|]. intros [_ Hlt]. rewrite dval_Sub, dval_Zero in Eg. lra. }
  eapply wp_mono; [apply (close_closed (releaseOrderHold o _) id o OrderStatusCancelled); [done|done|by right|]| |done].
  - unfold releaseOrderHold. destruct (r_Side o); [by apply release_frame|by apply release_frame|by apply wp_throw].
  - intros u t' s' _ (H1 & H2 & H3). split; [done|]. split; [done|by apply completed_cancelled].
Qed.
End OrderEnds.

(** ** The end of an order in processing

    A completed market order or a cancelled order is executed, or what is left to
    do is on record; and it is not executed while a trade of the order waits in the
    failure records. *)

Section TerminalProofs.
Context {DL : DecimalLib} {DLaws : DecimalLaws DL} {TX : ErrorTexts}.
Local Open Scope Q_scope.

(** ** Calls and retries *)

(** A call that keeps [I], with [D] when it succeeds. *)
Definition runs {X} (m : M X) (I : World -> Prop) (D : Tables -> Prop) : Prop := forall w, I w ->
  let '(r, w') := m w in I w' /\ (is_ok r = true -> D (w_tables w')).

Lemma runs_retry {X} (m : M X) I D retryable n w : runs m I D -> I w ->
  exists r w', retry_while retryable n m w = (Ok r, w') /\ I w' /\ (is_ok r = true -> D (w_tables w')).
Proof.
  intros Hm. revert w. induction n as [|n IH]; intros w Hw; cbn [retry_while]; specialize (Hm w Hw) as Hm1;
    unfold mbind, M_bind, attempt; destruct (m w) as [r w1]; destruct Hm1 as [H1 H2].
  - by exists r, w1.
  - destruct r as [x|e]; [by exists (Ok x), w1|]. destruct (retryable e); [by apply IH|by exists (Err e), w1].
Qed.

(** ** The records of ends *)

(** Only the records of ends may differ. *)
Definition only_records (t t' : Tables) : Prop :=
  exists rows rows', t' = t <| tb_failed_completions := rows |> <| tb_failed_cancellations := rows' |>.

#[export] Instance only_records_preorder : PreOrder only_records.
Proof.
  split.
  - intros t. exists (tb_failed_completions t), (tb_failed_cancellations t). by destruct t.
  - intros t1 t2 t3 (r1 & r2 & ->) (r3 & r4 & ->). by exists r3, r4.
Qed.

Lemma noted_completions t t' : noted failed_completions t t' -> only_records t t'.
Proof. intros [H _ _]. exists (tb_failed_completions t'), (tb_failed_cancellations t). rewrite H at 1. cbn. by destruct t. Qed.
Lemma noted_cancellations t t' : noted failed_cancellations t t' -> only_records t t'.
Proof. intros [H _ _]. exists (tb_failed_completions t), (tb_failed_cancellations t'). rewrite H at 1. cbn. by destruct t. Qed.

Lemma completion_key input coin reason now n f : failedMarketCompletionFrom input coin reason now n = Ok f ->
  ft_key failed_completions f = pretty (cm_OrderID input) /\ ft_status failed_completions f = FailedSettlementStatusOpen.
Proof. unfold failedMarketCompletionFrom. case_decide; [done|]. by intros [= <-]. Qed.
Lemma cancellation_key c src reason now n f : failedOrderCancellationFrom c src reason now n = Ok f ->
  ft_key failed_cancellations f = pretty (c_OrderID c) /\ ft_status failed_cancellations f = FailedSettlementStatusOpen.
Proof. unfold failedOrderCancellationFrom. case_decide; [done|]. by intros [= <-]. Qed.

Lemma open_on_record {A} (T : FailureTable A) t key : open_record T t key -> on_record T t key.
Proof. intros (id & r & H1 & H2 & _). by exists id, r. Qed.

Lemma notes_mono {A X} (T : FailureTable A) (m : M X) (P Q : Tables -> Prop) : (forall t, P t -> Q t) -> notes T m P -> notes T m Q.
Proof. intros H Hm w Hok. specialize (Hm w Hok). destruct (m w). destruct Hm as (H1 & H2 & H3 & H4). split; [done|]. split; [done|]. split; [done|]. auto. Qed.

Lemma RecordCompletionFailure_notes now input coin err :
  notes failed_completions (RecordCompletionFailure now input coin err) (fun t => on_record failed_completions t (pretty (cm_OrderID input))).
Proof.
  unfold RecordCompletionFailure. apply notes_lift; [apply _|]. intros f Hf. destruct (completion_key _ _ _ _ _ _ Hf) as [<- Hst].
  eapply notes_mono; [|by apply record_row_notes; [apply _|]]. intros t. apply open_on_record.
Qed.
Lemma DeferCompletion_notes now input coin err :
  notes failed_completions (DeferCompletion now input coin err) (fun t => on_record failed_completions t (pretty (cm_OrderID input))).
Proof.
  unfold DeferCompletion. apply notes_lift; [apply _|]. intros f Hf. destruct (completion_key _ _ _ _ _ _ Hf) as [<- _]. apply defer_row_notes, _.
Qed.
Lemma RecordCancellationFailure_notes now c src err :
  notes failed_cancellations (RecordCancellationFailure now c src err) (fun t => on_record failed_cancellations t (pretty (c_OrderID c))).
Proof.
  unfold RecordCancellationFailure. apply notes_lift; [apply _|]. intros f Hf. destruct (cancellation_key _ _ _ _ _ _ Hf) as [<- Hst].
  eapply notes_mono; [|by apply record_row_notes; [apply _|]]. intros t. apply open_on_record.
Qed.
Lemma DeferCancellation_notes now c src err :
  notes failed_cancellations (DeferCancellation now c src err) (fun t => on_record failed_cancellations t (pretty (c_OrderID c))).
Proof.
  unfold DeferCancellation. apply notes_lift; [apply _|]. intros f Hf. destruct (cancellation_key _ _ _ _ _ _ Hf) as [<- _]. apply defer_row_notes, _.
Qed.

(** ** Processing the end of an order *)

Definition not_rejected (id : N) (w : World) : Prop := forall o, tb_orders (w_tables w) !! id = Some o -> r_Status o <> OrderStatusRejected.

Definition order_of_end (event : ExecutionEvent) : option N :=
  match event with EvTrade _ => None | EvMarketOrderDone d => Some (d_OrderID d) | EvOrderCancelled c => Some (c_OrderID c) end.

(** Executed, and on record. *)
Definition executed (event : ExecutionEvent) (t : Tables) : Prop :=
  match event with
  | EvTrade _ => False
  | EvMarketOrderDone d => completed_order (d_OrderID d) t
  | EvOrderCancelled c => cancelled_order (c_OrderID c) t
  end.
Definition recorded_end (event : ExecutionEvent) (t : Tables) : Prop :=
  match event with
  | EvTrade _ => False
  | EvMarketOrderDone d => on_record failed_completions t (pretty (d_OrderID d))
  | EvOrderCancelled c => on_record failed_cancellations t (pretty (c_OrderID c))
  end.

Lemma guard_run id w : let '(r, w') := dependencyBlocked id w in
  w_tables w' = w_tables w /\ w_seqs w' = w_seqs w /\ forall b, r = Ok b -> b = has_open_failure (w_tables w) id.
Proof.
  unfold dependencyBlocked, HasOpenFailureForOrder. case_decide; [done|]. unfold query, stmt, mbind, M_bind. destruct (w_faults w) as [|[] fs]; cbn; by split_and!; try intros ? [= <-].
Qed.

(** Both kinds have the same shape: ask the guard, execute or defer. *)
Definition process_end (now : Z) (event : ExecutionEvent) (source : N) : M bool :=
  match event with
  | EvTrade _ => mret false
  | EvMarketOrderDone d => processMarketOrderDone now d
  | EvOrderCancelled c => processOrderCancellationEvent now c source
  end.

Lemma process_end_event now event ob source id w : order_of_end event = Some id ->
  processExecutionEvent now event ob source w
  = (match (process_end now event source w).1 with Ok h => Ok (h, false, []) | Err e => Err e end, (process_end now event source w).2).
Proof.
  destruct event as [|d|c]; [done|..]; intros _; cbn [processExecutionEvent process_end]; unfold mbind, M_bind.
  - by destruct (processMarketOrderDone now d w) as [[]].
  - by destruct (processOrderCancellationEvent now c source w) as [[]].
Qed.


(** *** Under an invariant

    [J] is kept by writing records; what executing an end does to it is left to
    the instances below. *)

Section Steady.
Context (J : Tables -> Seqs -> Prop).
Context (Jseq : forall t s s', seq_le s s' -> J t s -> J t s') (Jrec : forall t t' s, only_records t t' -> J t s -> J t' s).

Definition steady (w : World) : Prop :=
  J (w_tables w) (w_seqs w) /\ table_ok failed_completions (w_tables w) (w_seqs w) /\ table_ok failed_cancellations (w_tables w) (w_seqs w).

Lemma steady_end w w' : steady w -> seq_le (w_seqs w) (w_seqs w') -> J (w_tables w') (w_seqs w') -> besides_orders (w_tables w) (w_tables w') -> steady w'.
Proof.
  intros [_ [Hc Hx]] Hs Hsys (_ & _ & _ & _ & _ & Ec & Ex). split; [done|split].
  - apply (table_ok_same failed_completions (w_tables w)); [exact Ec|]. exact (table_ok_seq _ _ _ _ Hs Hc).
  - apply (table_ok_same failed_cancellations (w_tables w)); [exact Ex|]. exact (table_ok_seq _ _ _ _ Hs Hx).
Qed.

Lemma steady_seq t s s' fs fs' : seq_le s s' -> steady (mkWorld t s fs) -> steady (mkWorld t s' fs').
Proof.
  intros Hs [HJ [Hc Hx]]. split; [|split]; cbn [w_tables w_seqs] in *; [by eapply Jseq|by eapply table_ok_seq|by eapply table_ok_seq].
Qed.

(** A transaction that ends an order: [Eff] is in place, or nothing. *)
Lemma end_run (body : M unit) (Eff : Tables -> Tables -> Prop) E w : steady w ->
  wp body (fun _ t' s' => J t' s' /\ Eff (w_tables w) t' /\ besides_orders (w_tables w) t') E (w_tables w) (w_seqs w) ->
  let '(r, w') := transaction body w in
  steady w' /\ (is_ok r = true -> Eff (w_tables w) (w_tables w')) /\ (w_tables w' = w_tables w \/ Eff (w_tables w) (w_tables w')).
Proof.
  intros Hw Hb. pose proof (transaction_wp _ _ _ _ _ (w_faults w) Hb) as Ht. rewrite world_eta in Ht.
  destruct (transaction body w) as [[u|e] w']; destruct Ht as (Hs & _ & Ht).
  - destruct Ht as (H1 & H2 & H3). split; [by eapply steady_end|]. auto.
  - destruct Ht as [[Et _]|(_ & _ & u & H1 & H2 & H3)]; [|split; [by eapply steady_end|]; by auto].
    split; [|split; [done|by left]]. destruct w as [t s fs], w' as [t' s' fs']. cbn [w_tables w_seqs] in *. subst. by eapply steady_seq.
Qed.

(** From [w0], records apart, in a steady state. *)
Definition beside (w0 w : World) : Prop := steady w /\ only_records (w_tables w0) (w_tables w).

Lemma beside_noted w0 w w' : beside w0 w -> seq_le (w_seqs w) (w_seqs w') -> only_records (w_tables w) (w_tables w') ->
  table_ok failed_completions (w_tables w') (w_seqs w') -> table_ok failed_cancellations (w_tables w') (w_seqs w') -> beside w0 w'.
Proof. intros [[HJ _] Ho] Hs Hn Hc Hx. split; [|by etrans]. split; [|done]. exact (Jrec _ _ _ Hn (Jseq _ _ _ Hs HJ)). Qed.

Lemma runs_completions {X} (m : M X) P w0 : notes failed_completions m P -> runs m (beside w0) P.
Proof.
  intros Hm w Hw. pose proof Hw as [[_ [Hc Hx]] _]. specialize (Hm w Hc). destruct (m w) as [r w']. destruct Hm as (Hs & Hc' & Hn & HP). split; [|done].
  apply (beside_noted w0 w); [done|done|by apply noted_completions|done|]. destruct Hn as [Hput _ _].
  apply (table_ok_same failed_cancellations (w_tables w)); [by rewrite Hput|]. exact (table_ok_seq _ _ _ _ Hs Hx).
Qed.

Lemma runs_cancellations {X} (m : M X) P w0 : notes failed_cancellations m P -> runs m (beside w0) P.
Proof.
  intros Hm w Hw. pose proof Hw as [[_ [Hc Hx]] _]. specialize (Hm w Hx). destruct (m w) as [r w']. destruct Hm as (Hs & Hx' & Hn & HP). split; [|done].
  apply (beside_noted w0 w); [done|done|by apply noted_cancellations| |done]. destruct Hn as [Hput _ _].
  apply (table_ok_same failed_completions (w_tables w)); [by rewrite Hput|]. exact (table_ok_seq _ _ _ _ Hs Hc).
Qed.

Lemma steady_same w w' : w_tables w' = w_tables w -> w_seqs w' = w_seqs w -> steady w -> steady w'.
Proof. intros E1 E2. unfold steady. by rewrite E1, E2. Qed.

(** The result of a step that writes a record. *)
Definition records (event : ExecutionEvent) (w0 : World) (r : result error bool) (w' : World) : Prop :=
  exists handled, r = Ok handled /\ beside w0 w' /\ (handled = true -> recorded_end event (w_tables w')).

Lemma record_step {X} retryable (m : M X) event w0 w : runs m (beside w0) (recorded_end event) -> beside w0 w ->
  let '(r, w') := (r ← retry_while retryable transientRetries m; mret (is_ok r)) w in records event w0 r w'.
Proof.
  intros Hm Hw. destruct (runs_retry m _ _ retryable transientRetries w Hm Hw) as (r & w' & E & H1 & H2). unfold mbind, M_bind. rewrite E.
  by exists (is_ok r).
Qed.

Lemma done_records now d w0 w reason : beside w0 w ->
  let '(r, w') := deferMarketOrderDone now (completion_input d) (d_CoinSymbol d) reason w in records (EvMarketOrderDone d) w0 r w'.
Proof. apply (record_step _ _ (EvMarketOrderDone d)), runs_completions, DeferCompletion_notes. Qed.

Lemma cancel_records now c src w0 w reason : beside w0 w ->
  let '(r, w') := deferCancellation now c src reason w in records (EvOrderCancelled c) w0 r w'.
Proof. apply (record_step _ _ (EvOrderCancelled c)), runs_cancellations, DeferCancellation_notes. Qed.

Lemma end_blocked now event source id w : order_of_end event = Some id -> steady w -> has_open_failure (w_tables w) id = true ->
  let '(r, w') := process_end now event source w in records event w r w'.
Proof.
  intros He Hw Hopen. pose proof (guard_run id w) as Hg.
  assert (Hb : forall w1, w_tables w1 = w_tables w -> w_seqs w1 = w_seqs w -> beside w w1) by (intros w1 E1 E2; split; [by eapply steady_same|by rewrite E1]).
  destruct event as [|d|c]; [done|..]; injection He as <-; cbn [process_end].
  - unfold processMarketOrderDone. unfold mbind at 1, M_bind at 1, attempt. destruct (dependencyBlocked _ w) as [r w1]. destruct Hg as (E1 & E2 & Hg).
    destruct r as [b|e]; [|by apply done_records, Hb]. rewrite (Hg b eq_refl), Hopen. by apply done_records, Hb.
  - unfold processOrderCancellationEvent. unfold mbind at 1, M_bind at 1, attempt. destruct (dependencyBlocked _ w) as [r w1]. destruct Hg as (E1 & E2 & Hg).
    destruct r as [b|e]; [|by apply cancel_records, Hb]. rewrite (Hg b eq_refl), Hopen. by apply cancel_records, Hb.
Qed.

Lemma beside_refl w : steady w -> beside w w.
Proof. intros H. by split. Qed.

(** Execute, and write the failure down. *)
Lemma execute_or_record {X Y} retryable again (m : M X) (note : error -> M Y) I event w : I w -> (forall w', I w' -> steady w') ->
  runs m I (executed event) -> (forall e w1, runs (note e) (beside w1) (recorded_end event)) ->
  let '(r, w') := (r ← retry_while retryable transientRetries m;
                   match r with Ok _ => mret true | Err e => r ← retry_while again transientRetries (note e); mret (is_ok r) end) w in
  exists handled, r = Ok handled /\ steady w' /\ (handled = true -> executed event (w_tables w') \/ recorded_end event (w_tables w')).
Proof.
  intros Hw HI Hm Hn. destruct (runs_retry m _ _ retryable transientRetries w Hm Hw) as (r & w1 & E & H1 & H2). unfold mbind at 1, M_bind at 1. rewrite E.
  destruct r as [x|e]; [exists true; split; [done|]; split; [by apply HI|]; intros _; left; by apply H2|].
  pose proof (record_step again (note e) event w1 w1 (Hn e w1) (beside_refl _ (HI _ H1))) as Hr.
  destruct ((r ← retry_while again transientRetries (note e); mret (is_ok r)) w1) as [r2 w2]. destruct Hr as (handled & -> & [Hs _] & Hh). exists handled.
  split; [done|]. split; [done|]. intros H. right. by apply Hh.
Qed.

(** Executing an end. *)
Definition execute (event : ExecutionEvent) : M unit :=
  match event with
  | EvTrade _ => mret tt
  | EvMarketOrderDone d => CompleteMarketOrder (completion_input d)
  | EvOrderCancelled c => ProcessOrderCancellation (c_OrderID c)
  end.

Lemma end_processed now event source id I w : order_of_end event = Some id -> I w -> (forall w', I w' -> steady w') ->
  (forall w w', w_tables w' = w_tables w -> w_seqs w' = w_seqs w -> I w -> I w') -> runs (execute event) I (executed event) ->
  has_open_failure (w_tables w) id = false ->
  let '(r, w') := process_end now event source w in
  exists handled, r = Ok handled /\ steady w' /\ (handled = true -> executed event (w_tables w') \/ recorded_end event (w_tables w')).
Proof.
  intros He Hw HI Hsame Hexec Hopen. pose proof (guard_run id w) as Hg.
  assert (Hweak : forall r w', records event w r w' -> exists handled, r = Ok handled /\ steady w' /\ (handled = true -> executed event (w_tables w') \/ recorded_end event (w_tables w'))).
  { intros r w' (handled & -> & [Hs _] & Hh). exists handled. split; [done|]. split; [done|]. intros H. right. by apply Hh. }
  assert (Hb : forall w1, w_tables w1 = w_tables w -> w_seqs w1 = w_seqs w -> beside w w1) by (intros w1 E1 E2; split; [eapply steady_same; [done|done|by apply HI]|by rewrite E1]).
  destruct event as [|d|c]; [done|..]; injection He as <-; cbn [process_end execute] in *.
  - unfold processMarketOrderDone. unfold mbind at 1, M_bind at 1, attempt. destruct (dependencyBlocked _ w) as [r w1]. destruct Hg as (E1 & E2 & Hg).
    destruct r as [b|e]; [rewrite (Hg b eq_refl), Hopen|].
    + apply (execute_or_record isRetryableCompletionError IsTransientSettlementError (CompleteMarketOrder (completion_input d))
        (fun e => RecordCompletionFailure now (completion_input d) (d_CoinSymbol d) (Some e)) I (EvMarketOrderDone d)); [by eapply Hsame|done|done|].
      intros e w'. apply runs_completions, RecordCompletionFailure_notes.
    + pose proof (done_records now d w w1 e (Hb _ E1 E2)) as H. destruct (deferMarketOrderDone _ _ _ _ w1) as [r w2]. by apply Hweak.
  - unfold processOrderCancellationEvent. unfold mbind at 1, M_bind at 1, attempt. destruct (dependencyBlocked _ w) as [r w1]. destruct Hg as (E1 & E2 & Hg).
    destruct r as [b|e]; [rewrite (Hg b eq_refl), Hopen|].
    + apply (execute_or_record IsTransientSettlementError IsTransientSettlementError (ProcessOrderCancellation (c_OrderID c))
        (fun e => RecordCancellationFailure now c source (Some e)) I (EvOrderCancelled c)); [by eapply Hsame|done|done|].
      intros e w'. apply runs_cancellations, RecordCancellationFailure_notes.
    + pose proof (cancel_records now c source w w1 e (Hb _ E1 E2)) as H. destruct (deferCancellation _ _ _ _ w1) as [r w2]. by apply Hweak.
Qed.

(** Blocked or not. *)
Lemma end_handled now event ob source id I w : order_of_end event = Some id -> I w -> (forall w', I w' -> steady w') ->
  (forall w w', w_tables w' = w_tables w -> w_seqs w' = w_seqs w -> I w -> I w') -> runs (execute event) I (executed event) ->
  exists handled w', processExecutionEvent now event ob source w = (Ok (handled, false, []), w') /\ steady w'
    /\ (handled = true -> executed event (w_tables w') \/ recorded_end event (w_tables w')).
Proof.
  intros He Hw HI Hsame Hexec. rewrite (process_end_event _ _ _ _ _ _ He). destruct (has_open_failure (w_tables w) id) eqn:Eo.
  - pose proof (end_blocked now event source id w He (HI _ Hw) Eo) as H. destruct (process_end now event source w) as [r w'].
    destruct H as (handled & -> & [H1 _] & H3). exists handled, w'. split; [done|]. split; [done|]. intros H. right. by apply H3.
  - pose proof (end_processed now event source id I w He Hw HI Hsame Hexec Eo) as H. destruct (process_end now event source w) as [r w'].
    destruct H as (handled & -> & H1 & H2). by exists handled, w'.
Qed.
End Steady.

(** *** The invariant of the services *)

Definition services_ok (t : Tables) (s : Seqs) : Prop := sys_ok t s /\ idem_ok t s.

Lemma services_ok_seq t s s' : seq_le s s' -> services_ok t s -> services_ok t s'.
Proof. intros Hs [H1 H2]. split; [by eapply sys_ok_seq|by eapply idem_ok_seq]. Qed.
Lemma services_ok_records t t' s : only_records t t' -> services_ok t s -> services_ok t' s.
Proof. intros (r1 & r2 & ->) [Hsys [H1 H2]]. split; [by apply (sys_ok_same t)|by split]. Qed.

Lemma complete_effect_done id t t' : complete_effect id t t' -> completed_order id t'.
Proof.
  intros (o & Ho & [(_ & st & Hst & Eo & _)|[Hn ->]]); [|by exists o]. eexists. rewrite Eo, lookup_insert_eq. split; [done|].
  intros [H|H]; cbn in H; subst; by destruct Hst.
Qed.

Lemma idem_ok_kept t t' s s' : seq_le s s' -> idem_ok t s -> besides_orders t t' -> idem_ok t' s'.
Proof. intros Hs Hid (_ & _ & Ei & _). destruct (idem_ok_seq _ _ _ Hs Hid) as [H1 H2]. split; by rewrite Ei. Qed.

(** Completing an order: its effect is in place, or nothing. *)
Lemma complete_transaction input w : steady services_ok w -> not_rejected (cm_OrderID input) w -> let '(r, w') := CompleteMarketOrder input w in
  steady services_ok w' /\ (is_ok r = true -> complete_effect (cm_OrderID input) (w_tables w) (w_tables w'))
  /\ (w_tables w' = w_tables w \/ complete_effect (cm_OrderID input) (w_tables w) (w_tables w')).
Proof.
  intros Hw Hnr. unfold CompleteMarketOrder. case_decide; [split; [done|split; [done|by left]]|]. destruct (proj1 Hw) as [Hsys Hid].
  assert (Hb : wp (complete_body input) (fun _ t' s' => services_ok t' s' /\ complete_effect (cm_OrderID input) (w_tables w) t' /\ besides_orders (w_tables w) t')
    (fun e => IsRecordNotFound e = true \/ DomainErrorKind e <> None) (w_tables w) (w_seqs w)).
  { eapply wp_mono; [by apply complete_spec| |done]. intros u t' s' Hs (H1 & H2 & H3). split; [|done]. split; [done|by eapply idem_ok_kept]. }
  exact (end_run services_ok services_ok_seq (complete_body input) (complete_effect (cm_OrderID input)) _ w Hw Hb).
Qed.

Lemma complete_run input : runs (CompleteMarketOrder input) (fun w => steady services_ok w /\ not_rejected (cm_OrderID input) w) (completed_order (cm_OrderID input)).
Proof.
  intros w [Hw Hnr]. pose proof (complete_transaction input w Hw Hnr) as H1.
  destruct (CompleteMarketOrder input w) as [r w']. destruct H1 as (H1 & H2 & H3). split; [split; [done|]|intros Hr; by apply (complete_effect_done _ (w_tables w)), H2].
  destruct H3 as [E|H3]; [intros o; rewrite E; apply Hnr|]. destruct H3 as (o0 & Ho0 & [(_ & st & Hst & Eo & _)|[_ E]]); [|intros o; rewrite E; apply Hnr].
  intros o. rewrite Eo, lookup_insert_eq. intros [= <-]. cbn. by destruct Hst as [-> | ->].
Qed.

Lemma cancel_run id : runs (ProcessOrderCancellation id) (steady services_ok) (cancelled_order id).
Proof.
  intros w Hw. unfold ProcessOrderCancellation. case_decide; [by split|]. destruct (proj1 Hw) as [Hsys Hid].
  assert (Hb : wp (cancellation_body id) (fun _ t' s' => services_ok t' s' /\ cancel_effect id (w_tables w) t' /\ besides_orders (w_tables w) t') (fun _ => True) (w_tables w) (w_seqs w)).
  { eapply wp_mono; [by apply cancellation_spec| |done]. intros u t' s' Hs (H1 & H2 & H3). split; [|done]. split; [done|by eapply idem_ok_kept]. }
  pose proof (end_run services_ok services_ok_seq (cancellation_body id) (cancel_effect id) _ w Hw Hb) as H1.
  destruct (transaction _ w) as [r w']. destruct H1 as (H1 & H2 & _). split; [done|]. intros Hr. destruct (H2 Hr) as (o & Ho & [(_ & _ & Eo & _)|[Hn ->]]); [|by exists o].
  eexists. rewrite Eo, lookup_insert_eq. split; [done|]. by intros [[?|?] _].
Qed.

(** C17 The end of an order waits for its trades: while an OPEN failed settlement of
    the order exists, processing its completion or cancellation executes nothing,
    whatever the database does; no table but the two that keep deferred ends
    changes, so the order, its hold and the ledger stay as they are; and the event
    counts as handled only when its deferral is on record.  An error of the check
    itself is treated the same way. *)
Theorem end_waits_for_failures now event ob source id w : order_of_end event = Some id -> steady services_ok w -> has_open_failure (w_tables w) id = true ->
  exists handled w', processExecutionEvent now event ob source w = (Ok (handled, false, []), w') /\ steady services_ok w'
    /\ only_records (w_tables w) (w_tables w') /\ (handled = true -> recorded_end event (w_tables w')).
Proof.
  intros He Hw Hopen. pose proof (end_blocked services_ok services_ok_seq services_ok_records now event source id w He Hw Hopen) as H. rewrite (process_end_event _ _ _ _ _ _ He).
  destruct (process_end now event source w) as [r w']. destruct H as (handled & -> & [H1 H2] & H3). by exists handled, w'.
Qed.

(** The end of an order is executed or on record: whatever the database does,
    processing a completion or a cancellation returns, and counts it as handled
    only when the order is closed (or has nothing left to cancel), or a row of the
    failure tables asks the retry worker to do it; the invariants of the services
    hold afterwards. *)
Theorem end_executed_or_recorded now event ob source id w : order_of_end event = Some id -> steady services_ok w -> not_rejected id w ->
  exists handled w', processExecutionEvent now event ob source w = (Ok (handled, false, []), w') /\ steady services_ok w'
    /\ (handled = true -> executed event (w_tables w') \/ recorded_end event (w_tables w')).
Proof.
  intros He Hw Hnr. destruct event as [|d|c]; [done|..]; injection He as <-.
  - apply (end_handled services_ok services_ok_seq services_ok_records now _ ob source (d_OrderID d) (fun w => steady services_ok w /\ not_rejected (d_OrderID d) w)); try done.
    + by intros w' [? _].
    + intros w1 w2 E1 E2 [H1 H2]. split; [by eapply steady_same|]. unfold not_rejected. by rewrite E1.
    + exact (complete_run (completion_input d)).
  - apply (end_handled services_ok services_ok_seq services_ok_records now _ ob source (c_OrderID c) (steady services_ok)); try done.
    + intros w1 w2 E1 E2 H1. by eapply steady_same.
    + apply cancel_run.
Qed.
End TerminalProofs.
