(* ===== verification/RetryWorker.v ===== *)
(** * The retry worker (service/settlement_retry_worker.go)

    Every ten seconds it goes through the open failure records: trades whose error
    may pass, then ended orders.  A statement timeout stops the run.  The stores
    and services are never nil in the running program; log lines and metrics are
    left out. *)
From S2P Require Import Prelude Decimal Model Errors Fee Matching Database Ledger Sha256 OrderLedger Settlement SettlementBatch HoldCoordinator OrderService Transfers FailureStores Dispatcher Processing.
From Stdlib Require Import Lia.

Section RetryWorker.
Context {DL : DecimalLib} {TX : ErrorTexts}.
Local Open Scope Z_scope.

Definition settlementRetryBatchLimit : Z := 50.
Definition defaultSettlementRetryMax : N := 5.
Definition maxRetryCount (configured : N) : N := if (0 <? configured)%N then configured else defaultSettlementRetryMax.

Definition isStatementTimeoutStopSignal (attemptErr : error) : bool := bool_decide (settlementErrorSQLState attemptErr = pgCodeQueryCanceled).

Definition tradeFromFailedSettlement (failure : FailedSettlement) : Trade :=
  mkTrade 0 (fs_TradeIdempotencyKey failure) (fs_EngineSequence failure) (fs_EngineEventID failure) (fs_CoinSymbol failure)
    (fs_Price failure) (fs_Quantity failure) (fs_FeeRate failure) (fs_BuyerFee failure) KRWAssetSymbol (fs_SellerFee failure) KRWAssetSymbol
    (match fs_TradedAt failure with Some at_ => if decide (at_ = 0) then fs_OccurredAt failure else at_ | None => fs_OccurredAt failure end)
    (fs_BuyOrderID failure) (fs_SellOrderID failure).

Definition orderCancelledFromFailure (failure : FailedOrderCancellation) : OrderCancelled :=
  mkCancelled 0 (fc_OrderID failure) (fc_CoinSymbol failure) (fc_Side failure) (fc_EngineEventID failure).

Definition settlement_resolution (id : N) : ResolveFailureInput :=
  mkResolveInput id "auto-retry: transient settlement error resolved" "settlement-retry-worker" "".

Definition retryable_settlement (max : N) (failure : FailedSettlement) : bool :=
  IsTransientFailedSettlementCategory (ClassifyFailedSettlement failure) && (fs_RetryCount failure <? max)%N.

(** The loops return whether the run must stop. *)
Fixpoint retry_settlements (now : Z) (max : N) (failures : list FailedSettlement) : M bool :=
  match failures with
  | [] => mret false
  | failure :: failures =>
      if retryable_settlement max failure then
        let trade := tradeFromFailedSettlement failure in
        r ← attempt (SettleTrade trade 0);
        match r with
        | Err e =>
            _ ← attempt (RecordFailure now (written_back trade) (Some e));
            if isStatementTimeoutStopSignal e then mret true else retry_settlements now max failures
        | Ok _ =>
            _ ← attempt (ResolveFailure (settlement_resolution (fs_ID failure)));
            retry_settlements now max failures
        end
      else retry_settlements now max failures
  end.

Definition retryFailedSettlements (now : Z) (max : N) : M bool :=
  failures ← attempt (ListOpenSettlementFailures settlementRetryBatchLimit);
  match failures with Err _ => mret false | Ok failures => retry_settlements now max failures end.

(** An end is tried unless a trade of its order waits; an error of that check
    ends the phase. *)
Fixpoint retry_completions (now : Z) (max : N) (failures : list FailedMarketCompletion) : M bool :=
  match failures with
  | [] => mret false
  | failure :: failures =>
      if (fm_RetryCount failure <? max)%N then
        hasOpen ← attempt (HasOpenFailureForOrder (fm_OrderID failure));
        match hasOpen with
        | Err _ => mret false
        | Ok true => retry_completions now max failures
        | Ok false =>
            let input := mkCompleteInput (fm_OrderID failure) (fm_FilledAmount failure) (fm_FilledQuoteAmount failure) (fm_RemainingQuoteAmount failure) in
            r ← attempt (CompleteMarketOrder input);
            match r with
            | Err e =>
                _ ← attempt (RecordCompletionFailure now input (fm_CoinSymbol failure) (Some e));
                if isStatementTimeoutStopSignal e then mret true else retry_completions now max failures
            | Ok _ =>
                _ ← attempt (ResolveCompletionFailure (fm_ID failure) "auto-retry: market order completion succeeded");
                retry_completions now max failures
            end
        end
      else retry_completions now max failures
  end.

Definition retryFailedCompletions (now : Z) (max : N) : M bool :=
  failures ← attempt (ListOpenCompletionFailures settlementRetryBatchLimit);
  match failures with Err _ => mret false | Ok failures => retry_completions now max failures end.

Fixpoint retry_cancellations (now : Z) (max : N) (failures : list FailedOrderCancellation) : M bool :=
  match failures with
  | [] => mret false
  | failure :: failures =>
      if (fc_RetryCount failure <? max)%N then
        hasOpen ← attempt (HasOpenFailureForOrder (fc_OrderID failure));
        match hasOpen with
        | Err _ => mret false
        | Ok true => retry_cancellations now max failures
        | Ok false =>
            let cancelled := orderCancelledFromFailure failure in
            r ← attempt (ProcessOrderCancellation (c_OrderID cancelled));
            match r with
            | Err e =>
                _ ← attempt (RecordCancellationFailure now cancelled (fc_OutboxEventID failure) (Some e));
                if isStatementTimeoutStopSignal e then mret true else retry_cancellations now max failures
            | Ok _ =>
                _ ← attempt (ResolveCancellationFailure (fc_ID failure) "auto-retry: order cancellation succeeded");
                retry_cancellations now max failures
            end
        end
      else retry_cancellations now max failures
  end.

Definition retryFailedCancellations (now : Z) (max : N) : M bool :=
  failures ← attempt (ListOpenCancellationFailures settlementRetryBatchLimit);
  match failures with Err _ => mret false | Ok failures => retry_cancellations now max failures end.

Definition RunOnce (now : Z) (configured : N) : M unit :=
  let max := maxRetryCount configured in
  stop ← retryFailedSettlements now max;
  if (stop : bool) then mret tt
  else
    stop ← retryFailedCompletions now max;
    if (stop : bool) then mret tt else _ ← retryFailedCancellations now max; mret tt.
End RetryWorker.
