(* ===== verification/RetryProofs.v ===== *)
(** * What the retry worker keeps

    A recorded trade is retried as the trade it was; a failure is resolved only
    when its trade is stored; the end of an order is not tried while a trade of it
    waits.  Fifty records that may not be retried keep all others from being retried. *)
From S2P Require Import Prelude Decimal Model Matching Errors Fee Database Ledger LedgerInv LedgerSpec LedgerTheorems Sha256 OrderLedger Settlement TradePlan Store SettlementProofs SettlementBatch HoldCoordinator OrderService Transfers TransferInv LockedFunds OrderProofs FailureStores Dispatcher Processing FailureProofs ProcessingProofs TerminalProofs RetryWorker.
From Stdlib Require Import Lia.

Section RetryProofs.
Context {DL : DecimalLib} {DLaws : DecimalLaws DL} {TX : ErrorTexts}.

(** ** The trade comes back *)

Lemma prepare_fixed trade0 trade : prepareTradeForSettlement trade0 = Ok trade ->
  normalizeTradeCoinSymbol (t_CoinSymbol trade) = t_CoinSymbol trade /\ TrimSpace (t_EngineEventID trade) = t_EngineEventID trade
  /\ TrimSpace (t_IdempotencyKey trade) = t_IdempotencyKey trade /\ (0 <= t_EngineSequence trade)%Z.
Proof.
  intros H. pose proof (prepare_key _ _ H) as Hk. unfold prepareTradeForSettlement in H. cbn -[tradeIdempotencyKey TrimSpace normalizeTradeCoinSymbol] in H. inv_ok H.
  split; [|split; [|split]]; cbn -[tradeIdempotencyKey TrimSpace normalizeTradeCoinSymbol] in *; [| |rewrite Hk; apply trade_key_trimmed|];
    (destruct (decide (TrimSpace (t_IdempotencyKey trade0) = "")); cbn -[tradeIdempotencyKey TrimSpace normalizeTradeCoinSymbol]);
    try apply normalizeCoinSymbol_idem; try apply TrimSpace_idem; bool_to_prop; lia.
Qed.

(** A trade that settlement has prepared is left as it is. *)
Lemma prepare_again trade : t_CoinSymbol trade <> "" -> t_BuyOrderID trade <> 0%N -> t_SellOrderID trade <> 0%N ->
  (0 < dval (t_Price trade))%Q -> (0 < dval (t_Quantity trade))%Q -> (0 <= t_EngineSequence trade)%Z -> t_IdempotencyKey trade <> "" ->
  normalizeTradeCoinSymbol (t_CoinSymbol trade) = t_CoinSymbol trade -> TrimSpace (t_EngineEventID trade) = t_EngineEventID trade ->
  TrimSpace (t_IdempotencyKey trade) = t_IdempotencyKey trade -> prepareTradeForSettlement trade = Ok trade.
Proof.
  intros Hc Hb Hs Hp Hq Hseq Hk E1 E2 E3. unfold prepareTradeForSettlement. cbn -[tradeIdempotencyKey TrimSpace normalizeTradeCoinSymbol]. rewrite E1.
  rewrite decide_False by done. rewrite !bool_decide_false by done. cbn [orb].
  rewrite !(proj2 (GreaterThan_true _ _)) by (by rewrite dval_Zero). cbn [negb orb].
  destruct (t_EngineSequence trade <? 0)%Z eqn:Es; [lia|]. rewrite E2, E3. rewrite decide_False by done. by destruct trade.
Qed.

(** What a struct looks like when it comes back from its record. *)
Definition came_back (now : Z) (trade : Trade) : Trade :=
  trade <| t_ID := 0%N |> <| t_TradedAt := if decide (t_TradedAt trade = 0%Z) then now else t_TradedAt trade |>.

(** A failed trade is retried as itself: when the engine's trade was prepared for
    settlement, failed and was recorded, what the worker reads back from the record
    passes settlement's checks again and is the same trade, with its key, symbol,
    orders, price, quantity and the fees of the first attempt (its time, if it had
    none, becomes that of the failure; its id is drawn anew). *)
Theorem retried_trade_is_the_trade trade0 trade err now f : IsPositive (t_FeeRate trade0) = false -> settlement_input trade0 = Ok trade ->
  failedSettlementFromTrade (written_back trade0) err now = Ok f -> settlement_input (tradeFromFailedSettlement f) = Ok (came_back now trade).
Proof.
  intros Hrate Hi Hf. pose proof (settlement_input_key _ _ Hi) as Hkey. rewrite (settlement_input_again _ _ Hi) in Hf.
  unfold settlement_input in Hi. destruct (prepareTradeForSettlement trade0) as [t1|] eqn:Ep; [|done]. cbn [mbind result_bind] in Hi.
  pose proof (prepare_fixed _ _ Ep) as (F1 & F2 & F3 & F4). assert (Hr1 : t_FeeRate t1 = t_FeeRate trade0) by (by apply prepare_Ok in Ep as (_ & _ & _ & _ & _ & _ & ->)).
  apply applyTradeFeePolicy_Ok in Hi as (Hq & Hp & (_ & E1 & E2 & E3 & E4 & E5 & E6 & _ & E7 & E8) & Hfee). rewrite Hr1, Hrate in Hfee. destruct Hfee as (Hfr & _ & _ & Ea & Eb).
  rewrite <- E4 in F1. rewrite <- E3 in F2. rewrite <- E1 in F3. rewrite <- E2 in F4.
  assert (Hne : t_IdempotencyKey trade <> "") by (rewrite Hkey; apply trade_key_nonempty).
  unfold failedSettlementFromTrade in Hf. rewrite F1, F2, F3 in Hf. rewrite (decide_False (P := t_IdempotencyKey trade = "")) in Hf by done. inv_ok Hf. bool_to_prop.
  assert (Et : tradeFromFailedSettlement (mkFailedSettlement 0 (t_IdempotencyKey trade) (t_EngineSequence trade) (t_EngineEventID trade)
    (if decide (t_TradedAt trade = 0%Z) then None else Some (t_TradedAt trade)) (t_CoinSymbol trade) (t_BuyOrderID trade) (t_SellOrderID trade) (t_Price trade) (t_Quantity trade)
    (t_BuyerFee trade) (t_SellerFee trade) (t_FeeRate trade) (settlementErrorMessage err) FailedSettlementStatusOpen 1 now "" "" "") = came_back now trade).
  { unfold tradeFromFailedSettlement, came_back. cbn. rewrite <- Ea, <- Eb at 1. destruct trade; cbn in *. subst. by repeat case_decide. }
  rewrite Et. unfold settlement_input. rewrite prepare_again; [cbn [mbind result_bind]|try done ..].
  - unfold applyTradeFeePolicy. cbn [came_back t_Quantity t_Price t_FeeRate].
    change (t_Quantity (came_back now trade)) with (t_Quantity trade). change (t_Price (came_back now trade)) with (t_Price trade). change (t_FeeRate (came_back now trade)) with (t_FeeRate trade).
    rewrite E5, E6, !(proj2 (GreaterThan_true _ _)) by (by rewrite dval_Zero). cbn [negb orb].
    rewrite (proj2 (IsPositive_true _)) by (rewrite Hfr; reflexivity). done.
  - by apply (bool_decide_eq_false_1 _ H1).
  - by apply (bool_decide_eq_false_1 _ H2).
  - change (t_Price (came_back now trade)) with (t_Price trade). by rewrite E5.
  - change (t_Quantity (came_back now trade)) with (t_Quantity trade). by rewrite E6.
Qed.

(** ** Retrying settlements *)

(** A key is on the account of the exchange: the trade is stored, or an open
    failure waits. *)
Definition owed (t : Tables) (key : string) : Prop := (exists trade, find_trade t key = Some trade) \/ open_record failed_settlements t key.

(** Keys of records are written as settlement writes them. *)
Definition clean_keys (t : Tables) : Prop := forall key, on_record failed_settlements t key -> TrimSpace key = key /\ key <> "".

Definition prompt (w : World) : Prop := kept w /\ clean_keys (w_tables w).

(** Nothing owed is forgotten, and rows keep their keys. *)
Record honours (t t' : Tables) : Prop := {
  hn_owed key : owed t key -> owed t' key;
  hn_ids id r : tb_failed_settlements t !! id = Some r -> exists r', tb_failed_settlements t' !! id = Some r' /\ fs_TradeIdempotencyKey r' = fs_TradeIdempotencyKey r }.

#[export] Instance honours_preorder : PreOrder honours.
Proof.
  split; [split; eauto|]. intros t1 t2 t3 [H1 H2] [H3 H4]. split; [auto|]. intros id r Hr. destruct (H2 id r Hr) as (r2 & Hr2 & <-). by apply H4.
Qed.

Lemma owed_grows t t' key : grows t t' -> owed t key -> owed t' key.
Proof. intros [H1 H2] [[trade H]|H]; [left; exists trade; by apply H1|right; by apply H2]. Qed.

Lemma settle_honours trade0 w : prompt w -> let '(r, w') := SettleTrade trade0 0 w in
  prompt w' /\ honours (w_tables w) (w_tables w') /\ (is_ok r = true -> exists trade, find_trade (w_tables w') (trade_key trade0) = Some trade).
Proof.
  intros [Hk Hc]. pose proof (settle_advances trade0 0 w Hk) as Ha. pose proof (SettleTrade_run trade0 0 w (proj1 Hk)) as Hr.
  destruct (SettleTrade trade0 0 w) as [r w']. destruct Ha as [Ha Hset]. destruct Hr as (_ & Hok' & Hr).
  assert (Ef : tb_failed_settlements (w_tables w') = tb_failed_settlements (w_tables w)).
  { destruct r as [res|e]; [destruct Hr as (trade & Hi & Ho); by eapply settle_outcome_accounts|].
    destruct Hr as [->|(_ & trade & res & Hi & Ho)]; [done|by eapply settle_outcome_accounts]. }
  split; [split; [apply Ha|]|split; [split|]].
  - intros key (i & x & Hx & E). cbn in Hx. rewrite Ef in Hx. apply Hc. by exists i, x.
  - intros key. by apply owed_grows, Ha.
  - intros id x Hx. exists x. by rewrite Ef.
  - intros Hok. destruct (Hset Hok) as (trade & existing & Hi & Hf & _). rewrite (settlement_input_key _ _ Hi) in Hf. by exists existing.
Qed.

Lemma record_honours now trade0 err w : prompt w -> let '(_, w') := RecordFailure now trade0 err w in prompt w' /\ honours (w_tables w) (w_tables w').
Proof.
  intros [Hk Hc]. pose proof (notes_advances _ _ (fun _ => True) w (RecordFailure_notes now trade0 err) Hk) as Ha. pose proof (RecordFailure_notes now trade0 err w (proj2 Hk)) as Hn.
  assert (Hkeys : forall key, on_record failed_settlements (w_tables (RecordFailure now trade0 err w).2) key -> on_record failed_settlements (w_tables w) key \/ key = trade_key trade0).
  { intros key. unfold RecordFailure, mbind, M_bind, lift. destruct (failedSettlementFromTrade trade0 err now) as [f|] eqn:Ef; [|by left].
    apply failedSettlementFromTrade_Ok in Ef as (<- & _). apply (record_row_keys failed_settlements). }
  destruct (RecordFailure now trade0 err w) as [r w']. destruct Ha as [Ha _]. destruct Hn as (_ & _ & Hn & _). cbn [snd] in Hkeys.
  split; [split; [apply Ha|]|split].
  - intros key H. destruct (Hkeys key H) as [H1| ->]; [by apply Hc|]. split; [apply trade_key_trimmed|apply trade_key_nonempty].
  - intros key. by apply owed_grows, Ha.
  - intros id x Hx. by apply (nt_ids _ _ _ Hn).
Qed.

Lemma resolve_run input w : let '(_, w') := ResolveFailure input w in seq_le (w_seqs w) (w_seqs w') /\ resolves failed_settlements (rf_ID input) (w_tables w) (w_tables w').
Proof.
  assert (Hfind : forall id, readonly (FindFailureByID id)).
  { intros id. unfold FindFailureByID. case_decide; [by intros ?|]. apply readonly_bind; [apply readonly_query|]. intros [f|]; by intros ?. }
  unfold ResolveFailure. unfold mbind at 1, M_bind at 1, lift. destruct (validateResolveFailureInput input); [|split; [apply seq_le_refl|by left]].
  assert (Hm : let '(_, w') := MarkSettlementResolved (rf_ID input) (TrimSpace (rf_Resolution input)) (TrimSpace (rf_ResolvedBy input)) (TrimSpace (rf_Notes input)) w in
    seq_le (w_seqs w) (w_seqs w') /\ resolves failed_settlements (rf_ID input) (w_tables w) (w_tables w')).
  { unfold MarkSettlementResolved. case_decide; [split; [apply seq_le_refl|by left]|]. unfold mbind at 1, M_bind at 1.
    destruct (Hfind (rf_ID input) w) as [E1 E2]. destruct (FindFailureByID (rf_ID input) w) as [[f|e] w1]; cbn [snd] in *; [|rewrite E1, E2; split; [apply seq_le_refl|by left]].
    case_decide; [cbn; rewrite E1, E2; split; [apply seq_le_refl|by left]|]. unfold mbind, M_bind.
    pose proof (update_resolved_run failed_settlements (rf_ID input) (TrimSpace (rf_Resolution input)) (TrimSpace (rf_ResolvedBy input)) (TrimSpace (rf_Notes input)) w1) as Hu.
    rewrite E1, E2 in Hu. destruct (update_resolved _ _ _ _ _ w1) as [[[]|e] w2]; exact Hu. }
  unfold mbind, M_bind. destruct (MarkSettlementResolved _ _ _ _ w) as [[u|e] w1]; [|done]. destruct (Hfind (rf_ID input) w1) as [E1 E2].
  destruct (FindFailureByID (rf_ID input) w1) as [r w2]. cbn [snd] in *. by rewrite E1, E2.
Qed.

Lemma resolve_honours input w : prompt w ->
  (forall row, tb_failed_settlements (w_tables w) !! rf_ID input = Some row -> exists trade, find_trade (w_tables w) (fs_TradeIdempotencyKey row) = Some trade) ->
  let '(_, w') := ResolveFailure input w in prompt w' /\ honours (w_tables w) (w_tables w').
Proof.
  intros [[Hok Htb] Hc] Hset. pose proof (resolve_run input w) as Hr. destruct (ResolveFailure input w) as [r w']. destruct Hr as [Hs Hr].
  assert (Hother : same_ledger (w_tables w) (w_tables w') /\ tb_orders (w_tables w') = tb_orders (w_tables w) /\ tb_trades (w_tables w') = tb_trades (w_tables w)).
  { destruct Hr as [->|(row & x & y & z & _ & ->)]; done. }
  destruct Hother as (Hl & Ho & Ht). split; [split; [split|]|split].
  - apply (store_ok_same (w_tables w)); [done|done|done|]. by eapply store_ok_seq.
  - eapply resolves_ok; [apply _|exact Hr|]. by eapply table_ok_seq.
  - intros key Hk. apply Hc. exact (resolves_keys failed_settlements _ _ _ key Hr Hk).
  - intros key [[trade H]|H]; [left; exists trade; unfold find_trade in *; by rewrite Ht|].
    destruct (resolves_open failed_settlements _ _ _ _ Hr H) as [H1|(row & Hrow & <-)]; [by right|left].
    destruct (Hset row Hrow) as [trade H1]. exists trade. unfold find_trade in *. by rewrite Ht.
  - intros id x Hx. by apply (resolves_ids failed_settlements _ _ _ _ _ Hr).
Qed.

Definition listed (t : Tables) (f : FailedSettlement) : Prop :=
  exists row, tb_failed_settlements t !! fs_ID f = Some row /\ fs_TradeIdempotencyKey row = fs_TradeIdempotencyKey f.

Lemma listed_honours t t' f : honours t t' -> listed t f -> listed t' f.
Proof. intros H (row & Hr & Ek). destruct (hn_ids _ _ H _ _ Hr) as (row1 & Hr1 & E). exists row1. by rewrite E. Qed.

Lemma listed_trade_key t f : clean_keys t -> listed t f -> trade_key (tradeFromFailedSettlement f) = fs_TradeIdempotencyKey f.
Proof.
  intros Hc (row & Hr & E). destruct (Hc (fs_TradeIdempotencyKey f)) as [H1 H2]; [by exists (fs_ID f), row|]. unfold trade_key. cbn -[TrimSpace tradeIdempotencyKey].
  rewrite H1. by rewrite decide_False.
Qed.

(** One record: settle and resolve, or note the error. *)
Lemma retry_one_honours now f w : prompt w -> listed (w_tables w) f ->
  exists r w1, SettleTrade (tradeFromFailedSettlement f) 0 w = (r, w1) /\ prompt w1 /\ honours (w_tables w) (w_tables w1)
    /\ match r with
       | Err e => let '(_, w2) := RecordFailure now (written_back (tradeFromFailedSettlement f)) (Some e) w1 in prompt w2 /\ honours (w_tables w) (w_tables w2)
       | Ok _ => let '(_, w2) := ResolveFailure (settlement_resolution (fs_ID f)) w1 in prompt w2 /\ honours (w_tables w) (w_tables w2)
       end.
Proof.
  intros Hp Hl. pose proof (settle_honours (tradeFromFailedSettlement f) w Hp) as Hs. destruct (SettleTrade _ 0 w) as [r w1]. destruct Hs as (Hp1 & Hh1 & Hs).
  exists r, w1. split; [done|]. split; [done|]. split; [done|]. destruct r as [res|e].
  - assert (Hset : forall row, tb_failed_settlements (w_tables w1) !! rf_ID (settlement_resolution (fs_ID f)) = Some row ->
      exists trade, find_trade (w_tables w1) (fs_TradeIdempotencyKey row) = Some trade).
    { intros row Hr. destruct (listed_honours _ _ f Hh1 Hl) as (row' & Hr' & E). cbn in Hr. rewrite Hr in Hr'. simplify_eq. rewrite E.
      rewrite <- (listed_trade_key _ f (proj2 Hp) Hl). by apply Hs. }
    pose proof (resolve_honours _ w1 Hp1 Hset) as Hr. destruct (ResolveFailure _ w1) as [r w2]. destruct Hr as [H1 H2]. split; [done|by etrans].
  - pose proof (record_honours now (written_back (tradeFromFailedSettlement f)) (Some e) w1 Hp1) as Hr. destruct (RecordFailure _ _ _ w1) as [r w2].
    destruct Hr as [H1 H2]. split; [done|by etrans].
Qed.

Lemma retry_settlements_honours now max failures w : prompt w -> Forall (listed (w_tables w)) failures ->
  exists stop w', retry_settlements now max failures w = (Ok stop, w') /\ prompt w' /\ honours (w_tables w) (w_tables w').
Proof.
  revert w. induction failures as [|f failures IH]; intros w Hp Hl; cbn [retry_settlements]; [by exists false, w|]. apply Forall_cons in Hl as [Hf Hl].
  destruct (retryable_settlement max f); [|by apply IH].
  destruct (retry_one_honours now f w Hp Hf) as (r & w1 & E & Hp1 & Hh1 & Hr). unfold mbind at 1, M_bind at 1, attempt at 1. rewrite E.
  assert (Hnext : forall w2, prompt w2 -> honours (w_tables w) (w_tables w2) ->
    exists stop w', retry_settlements now max failures w2 = (Ok stop, w') /\ prompt w' /\ honours (w_tables w) (w_tables w')).
  { intros w2 Hp2 Hh2. destruct (IH w2 Hp2) as (stop & w' & E2 & Hp' & Hh').
    - eapply Forall_impl; [exact Hl|]. intros x. by apply listed_honours.
    - exists stop, w'. split; [done|]. split; [done|by etrans]. }
  destruct r as [res|e]; unfold mbind, M_bind, attempt.
  - destruct (ResolveFailure _ w1) as [r w2]. destruct Hr as [Hp2 Hh2]. by apply Hnext.
  - destruct (RecordFailure _ _ _ w1) as [r w2]. destruct Hr as [Hp2 Hh2]. destruct (isStatementTimeoutStopSignal e); [by exists true, w2|by apply Hnext].
Qed.

Lemma open_rows_listed limit w : table_ok failed_settlements (w_tables w) (w_seqs w) ->
  let '(r, w') := open_rows failed_settlements limit w in
  w_tables w' = w_tables w /\ w_seqs w' = w_seqs w /\ forall l, r = Ok l -> Forall (listed (w_tables w)) l.
Proof.
  intros Hok. unfold open_rows. match goal with |- context [query ?g] => set (f := g) end. pose proof (readonly_query f w) as [E1 E2].
  assert (Hr : forall l, (query f w).1 = Ok l -> l = f (w_tables w)) by (intros l; unfold query, stmt, mbind, M_bind; destruct (w_faults w) as [|[] ?]; cbn; intros [= <-]; done).
  destruct (query f w) as [r w']. cbn [fst snd] in *. split; [done|]. split; [done|]. intros l Hl. rewrite (Hr l Hl). apply Forall_forall. intros x Hx.
  unfold f in Hx. apply elem_of_take in Hx as (n & Hn & _). apply list_elem_of_lookup_2 in Hn. rewrite merge_sort_Permutation in Hn.
  apply list_elem_of_filter in Hn as [_ Hn]. apply elem_of_all_rows in Hn as [id Hid]. exists x. split; [|done]. cbn in Hid.
  by destruct (to_ids _ _ _ Hok id x Hid) as [<- _].
Qed.

(** C18 The retry worker forgets nothing: whatever the database does, going through
    the failed settlements returns, and every trade that was stored or waited in an
    open record before is stored or waits in an open record afterwards; a record
    is closed only when its trade is in the trades table.  The store's invariant
    holds throughout. *)
Theorem retry_forgets_nothing now max w : prompt w ->
  exists stop w', retryFailedSettlements now max w = (Ok stop, w') /\ prompt w' /\ forall key, owed (w_tables w) key -> owed (w_tables w') key.
Proof.
  intros Hp. unfold retryFailedSettlements, ListOpenSettlementFailures. unfold mbind at 1, M_bind at 1, attempt.
  pose proof (open_rows_listed (NormalizeFailedSettlementListLimit (NormalizeFailedSettlementListLimit settlementRetryBatchLimit)) w (proj2 (proj1 Hp))) as Hl.
  destruct (open_rows _ _ w) as [r w1]. destruct Hl as (E1 & E2 & Hl). assert (Hp1 : prompt w1) by (unfold prompt, kept; by rewrite E1, E2).
  destruct r as [l|e]; [|exists false, w1; split; [done|]; split; [done|]; by rewrite E1].
  destruct (retry_settlements_honours now max l w1 Hp1) as (stop & w' & E & Hp' & Hh); [rewrite E1; by apply Hl|].
  exists stop, w'. split; [done|]. split; [done|]. intros key. rewrite <- E1. apply Hh.
Qed.

(** A passing error does not make a lost trade: when settling fails with a
    deadlock, a serialisation failure, a lock or a statement timeout, however
    wrapped and whatever its text, the record that is made of it is classified as
    transient from its stored message, so the worker's next run tries it. *)
Theorem transient_failure_is_retried trade e now configured f : IsTransientSettlementError e = true ->
  failedSettlementFromTrade trade (Some e) now = Ok f -> (configured <> 1)%N -> retryable_settlement (maxRetryCount configured) f = true.
Proof.
  intros He Hf Hc. apply failedSettlementFromTrade_Ok in Hf as (_ & _ & Hn & Hm & _). unfold retryable_settlement. rewrite (transient_message e f He Hm), Hn. cbn [andb].
  apply N.ltb_lt. unfold maxRetryCount, defaultSettlementRetryMax. destruct (0 <? configured)%N eqn:E; [apply N.ltb_lt in E; lia|done].
Qed.
End RetryProofs.

(** ** The retry worker and the ends of orders

    Completions and cancellations are tried again only when no trade of the order
    waits; an order with a waiting trade is left as it is by both phases. *)

Section RetryEnds.
Context {DL : DecimalLib} {DLaws : DecimalLaws DL} {TX : ErrorTexts}.

(** ** Around waiting orders *)

(** The store holds, the orders [P] are as in [w0], and so are the failed settlements. *)
Definition around (P : N -> Prop) (w0 w : World) : Prop :=
  store_ok (w_tables w) (w_seqs w) /\ table_ok failed_completions (w_tables w) (w_seqs w) /\ table_ok failed_cancellations (w_tables w) (w_seqs w)
  /\ (forall id, P id -> tb_orders (w_tables w) !! id = tb_orders (w_tables w0) !! id) /\ tb_failed_settlements (w_tables w) = tb_failed_settlements (w_tables w0).

(** A call leaves it so. *)
Definition spares (P : N -> Prop) {X} (m : M X) : Prop := forall w0 w, around P w0 w -> around P w0 (m w).2.

Lemma spares_end P j (body : M unit) (D : Tables -> Prop) : ~ P j ->
  (forall t s, store_ok t s -> wp body (fun _ t' s' => store_ok t' s' /\ only_order j t t' /\ D t') (fun _ => True) t s) -> spares P (transaction body).
Proof.
  intros Hne Hb w0 w (Hok & Hc & Hx & Ho & Hf). pose proof (transaction_wp _ _ _ _ _ (w_faults w) (Hb _ _ Hok)) as Ht. rewrite world_eta in Ht.
  assert (Hyes : forall w', seq_le (w_seqs w) (w_seqs w') -> store_ok (w_tables w') (w_seqs w') -> only_order j (w_tables w) (w_tables w') -> around P w0 w').
  { intros w' Hs Hok' [Hi (_ & _ & _ & (_ & Ef & Ec & Ex))]. split; [done|]. split; [|split; [|split]].
    - apply (table_ok_same failed_completions (w_tables w)); [exact Ec|]. exact (table_ok_seq _ _ _ _ Hs Hc).
    - apply (table_ok_same failed_cancellations (w_tables w)); [exact Ex|]. exact (table_ok_seq _ _ _ _ Hs Hx).
    - intros id Hid. rewrite Hi by congruence. by apply Ho.
    - congruence. }
  destruct (transaction body w) as [[u|e] w']; destruct Ht as (Hs & _ & Ht); cbn [snd].
  - destruct Ht as (H1 & H2 & _). by apply Hyes.
  - destruct Ht as [[E _]|(_ & _ & u & H1 & H2 & _)]; [|by apply Hyes]. apply Hyes; [done|rewrite E; by eapply store_ok_seq|rewrite E; apply only_order_refl].
Qed.

(** Only the records of ends change. *)
Lemma around_records P w0 w w' : around P w0 w -> seq_le (w_seqs w) (w_seqs w') -> only_records (w_tables w) (w_tables w') ->
  table_ok failed_completions (w_tables w') (w_seqs w') -> table_ok failed_cancellations (w_tables w') (w_seqs w') -> around P w0 w'.
Proof.
  intros (Hok & _ & _ & Ho & Hf) Hs (r1 & r2 & E) Hc Hx. split; [|split; [done|split; [done|]]]; rewrite E; [|by split].
  apply (store_ok_same (w_tables w)); [done ..|]. by eapply store_ok_seq.
Qed.

Lemma spares_completions P {X} (m : M X) D : notes failed_completions m D -> spares P m.
Proof.
  intros Hm w0 w Hw. pose proof Hw as (_ & Hc & Hx & _). specialize (Hm w Hc). destruct (m w) as [r w']. destruct Hm as (Hs & Hc' & Hn & _). cbn [snd].
  apply (around_records P w0 w); [done|done|by apply noted_completions|done|]. destruct Hn as [Hput _ _].
  apply (table_ok_same failed_cancellations (w_tables w)); [by rewrite Hput|]. exact (table_ok_seq _ _ _ _ Hs Hx).
Qed.
Lemma spares_cancellations P {X} (m : M X) D : notes failed_cancellations m D -> spares P m.
Proof.
  intros Hm w0 w Hw. pose proof Hw as (_ & Hc & Hx & _). specialize (Hm w Hx). destruct (m w) as [r w']. destruct Hm as (Hs & Hx' & Hn & _). cbn [snd].
  apply (around_records P w0 w); [done|done|by apply noted_cancellations| |done]. destruct Hn as [Hput _ _].
  apply (table_ok_same failed_completions (w_tables w)); [by rewrite Hput|]. exact (table_ok_seq _ _ _ _ Hs Hc).
Qed.

Lemma spares_resolve_completion P n x y z : spares P (update_resolved failed_completions n x y z).
Proof.
  intros w0 w Hw. pose proof Hw as (_ & Hc & Hx & _). pose proof (update_resolved_run failed_completions n x y z w) as Hr. destruct (update_resolved _ _ _ _ _ w) as [r w'].
  destruct Hr as [Hs Hr]. pose proof (resolves_ok failed_completions _ _ _ _ Hr (table_ok_seq _ _ _ _ Hs Hc)) as Hc'.
  cbn [snd]. apply (around_records P w0 w); [done|done| |done|]; destruct Hr as [E|(row & a & b & c & _ & E)]; rewrite E; try done.
  - exists (<[n := ft_resolve failed_completions a b c row]> (tb_failed_completions (w_tables w))), (tb_failed_cancellations (w_tables w)). by destruct (w_tables w).
  - exact (table_ok_seq _ _ _ _ Hs Hx).
  - apply (table_ok_same failed_cancellations (w_tables w)); [done|]. exact (table_ok_seq _ _ _ _ Hs Hx).
Qed.
Lemma spares_resolve_cancellation P n x y z : spares P (update_resolved failed_cancellations n x y z).
Proof.
  intros w0 w Hw. pose proof Hw as (_ & Hc & Hx & _). pose proof (update_resolved_run failed_cancellations n x y z w) as Hr. destruct (update_resolved _ _ _ _ _ w) as [r w'].
  destruct Hr as [Hs Hr]. pose proof (resolves_ok failed_cancellations _ _ _ _ Hr (table_ok_seq _ _ _ _ Hs Hx)) as Hx'.
  cbn [snd]. apply (around_records P w0 w); [done|done| | |done]; destruct Hr as [E|(row & a & b & c & _ & E)]; rewrite E; try done.
  - exists (tb_failed_completions (w_tables w)), (<[n := ft_resolve failed_cancellations a b c row]> (tb_failed_cancellations (w_tables w))). by destruct (w_tables w).
  - exact (table_ok_seq _ _ _ _ Hs Hc).
  - apply (table_ok_same failed_completions (w_tables w)); [done|]. exact (table_ok_seq _ _ _ _ Hs Hc).
Qed.

(** ** The two phases *)

Section Phase.
Context (P : N -> Prop) (w0 : World) (Hopen : forall id, P id -> has_open_failure (w_tables w0) id = true).

(** A call that returns, around the waiting orders. *)
Definition passes {X} (m : M X) : Prop := forall w, around P w0 w -> exists x w', m w = (Ok x, w') /\ around P w0 w'.

Lemma passes_ret {X} (x : X) : passes (mret x).
Proof. intros w Hw. by exists x, w. Qed.

Lemma passes_bind {X Y} (m : M X) (k : X -> M Y) : passes m -> (forall x, passes (k x)) -> passes (m ≫= k).
Proof. intros Hm Hk w Hw. destruct (Hm w Hw) as (x & w1 & E & H1). unfold mbind, M_bind. rewrite E. by apply Hk. Qed.

Lemma passes_attempt {X} (m : M X) : spares P m -> passes (attempt m).
Proof. intros Hm w Hw. specialize (Hm w0 w Hw). unfold attempt. destruct (m w) as [r w']. by exists r, w'. Qed.

Lemma spares_readonly {X} (m : M X) : readonly m -> spares P m.
Proof. intros Hm w1 w Hw. destruct (Hm w) as [E1 E2]. unfold around. by rewrite E1, E2. Qed.

Lemma around_open w id : around P w0 w -> P id -> has_open_failure (w_tables w) id = true.
Proof. intros (_ & _ & _ & _ & Ef) Hid. rewrite <- (Hopen id Hid). unfold has_open_failure, all_rows. cbn. by rewrite Ef. Qed.

(** The check before an end: nothing of a waiting order passes it. *)
Lemma passes_guard {Y} j (go : M Y) (skip stop : M Y) : passes skip -> passes stop -> (~ P j -> passes go) ->
  passes (hasOpen ← attempt (HasOpenFailureForOrder j); match hasOpen with Err _ => stop | Ok true => skip | Ok false => go end).
Proof.
  intros Hskip Hstop Hgo w Hw. pose proof (guard_run j w) as Hg. unfold dependencyBlocked in Hg. unfold mbind, M_bind, attempt.
  destruct (HasOpenFailureForOrder j w) as [r w1]. destruct Hg as (E1 & E2 & Hb). assert (Hw1 : around P w0 w1) by (unfold around; by rewrite E1, E2).
  destruct r as [[]|e]; [by apply Hskip| |by apply Hstop]. apply Hgo; [|done]. intros Hj. specialize (Hb false eq_refl). by rewrite (around_open w j Hw Hj) in Hb.
Qed.

Lemma passes_stop {X} (b : bool) (m n : M X) : passes m -> passes n -> passes (if b then m else n).
Proof. by destruct b. Qed.

Lemma spares_throw_zero {X} j e (m : M X) : spares P m -> spares P (if decide (j = 0%N) then throw e else m).
Proof. intros H. case_decide; [by intros w1 w|done]. Qed.

Lemma spares_then {X Y} (m : M X) (k : X -> M Y) : spares P m -> (forall x, readonly (k x)) -> spares P (m ≫= k).
Proof.
  intros Hm Hk w1 w Hw. specialize (Hm w1 w Hw). unfold mbind, M_bind. destruct (m w) as [[x|e] w2]; [|done]. by apply spares_readonly.
Qed.

Lemma retry_completions_pass now max failures : passes (retry_completions now max failures).
Proof.
  induction failures as [|f failures IH]; cbn [retry_completions]; [apply passes_ret|]. apply passes_stop; [|done].
  apply passes_guard; [done|apply passes_ret|]. intros Hne. apply passes_bind.
  - apply passes_attempt, spares_throw_zero. apply (spares_end P _ _ (completed_order (fm_OrderID f)) Hne), (complete_frame (mkCompleteInput _ _ _ _)).
  - intros [u|e]; apply passes_bind; [| |apply passes_attempt; eapply spares_completions, RecordCompletionFailure_notes|intros _; apply passes_stop; [apply passes_ret|done]]; [|done].
    apply passes_attempt, spares_throw_zero, spares_then; [apply spares_resolve_completion|]. by intros [] w.
Qed.

Lemma retry_cancellations_pass now max failures : passes (retry_cancellations now max failures).
Proof.
  induction failures as [|f failures IH]; cbn [retry_cancellations]; [apply passes_ret|]. apply passes_stop; [|done].
  apply passes_guard; [done|apply passes_ret|]. intros Hne. apply passes_bind.
  - apply passes_attempt, spares_throw_zero. apply (spares_end P _ _ (cancelled_order (fc_OrderID f)) Hne), cancellation_frame.
  - intros [u|e]; apply passes_bind; [| |apply passes_attempt; eapply spares_cancellations, RecordCancellationFailure_notes|intros _; apply passes_stop; [apply passes_ret|done]]; [|done].
    apply passes_attempt, spares_throw_zero, spares_then; [apply spares_resolve_cancellation|]. by intros [] w.
Qed.
End Phase.

Definition records_ok (w : World) : Prop :=
  store_ok (w_tables w) (w_seqs w) /\ table_ok failed_completions (w_tables w) (w_seqs w) /\ table_ok failed_cancellations (w_tables w) (w_seqs w).

(** The orders with an OPEN failed settlement. *)
Definition waits (w : World) (id : N) : Prop := has_open_failure (w_tables w) id = true.

Lemma completions_spare now max w : records_ok w -> exists stop w', retryFailedCompletions now max w = (Ok stop, w') /\ around (waits w) w w'.
Proof.
  intros (Hok & Hc & Hx). unfold retryFailedCompletions. apply (passes_bind (waits w) w); [apply passes_attempt, spares_readonly; apply readonly_query| |done].
  intros [l|e]; [by apply retry_completions_pass|apply passes_ret].
Qed.
Lemma cancellations_spare now max w : records_ok w -> exists stop w', retryFailedCancellations now max w = (Ok stop, w') /\ around (waits w) w w'.
Proof.
  intros (Hok & Hc & Hx). unfold retryFailedCancellations. apply (passes_bind (waits w) w); [apply passes_attempt, spares_readonly; apply readonly_query| |done].
  intros [l|e]; [by apply retry_cancellations_pass|apply passes_ret].
Qed.

(** The retry worker does not end an order whose trades wait: neither the completion
    nor the cancellation phase of a run changes an order of which an OPEN failed
    settlement exists, whatever failure rows there are and whatever the database does;
    both phases return, keep the store's invariant and leave the failed settlements as
    they are. *)
Theorem retry_spares_waiting_orders now max w : records_ok w ->
  (exists stop w', retryFailedCompletions now max w = (Ok stop, w') /\ around (waits w) w w')
  /\ (exists stop w', retryFailedCancellations now max w = (Ok stop, w') /\ around (waits w) w w').
Proof. intros Hw. split; [by apply completions_spare|by apply cancellations_spare]. Qed.

(** ** Records the worker passes over *)

(** What [ListOpenSettlementFailures] of a run returns: the fifty oldest OPEN records. *)
Definition oldest (t : Tables) : list FailedSettlement :=
  take (Z.to_nat settlementRetryBatchLimit) (merge_sort (older failed_settlements) (filter (fun r => fs_Status r = FailedSettlementStatusOpen) (all_rows failed_settlements t))).

Lemma retry_settlements_skip now max failures w : Forall (fun f => retryable_settlement max f = false) failures -> retry_settlements now max failures w = (Ok false, w).
Proof. induction 1 as [|f l Hf _ IH]; [done|]. cbn [retry_settlements]. by rewrite Hf. Qed.

Lemma settlements_skipped now max w : Forall (fun f => retryable_settlement max f = false) (oldest (w_tables w)) ->
  exists w', retryFailedSettlements now max w = (Ok false, w') /\ w_tables w' = w_tables w /\ w_seqs w' = w_seqs w.
Proof.
  intros Hskip. unfold retryFailedSettlements, ListOpenSettlementFailures, open_rows, mbind, M_bind, attempt.
  change (NormalizeFailedSettlementListLimit (NormalizeFailedSettlementListLimit settlementRetryBatchLimit)) with settlementRetryBatchLimit.
  match goal with |- context [query ?f w] => pose proof (query_run f w) as Hq; destruct (query f w) as [r w'] end. destruct Hq as (Et & Es & _ & Hr).
  exists w'. split; [|done]. destruct r as [l|e]; [|done]. rewrite Hr. by apply retry_settlements_skip.
Qed.
Lemma run_passes_over now configured w : records_ok w -> Forall (fun f => retryable_settlement (maxRetryCount configured) f = false) (oldest (w_tables w)) ->
  exists w', RunOnce now configured w = (Ok tt, w') /\ records_ok w' /\ tb_failed_settlements (w_tables w') = tb_failed_settlements (w_tables w).
Proof.
  intros Hw Hskip. destruct (settlements_skipped now _ _ Hskip) as (w1 & E1 & Et & Es). assert (H1 : records_ok w1) by (unfold records_ok; by rewrite Et, Es).
  destruct (completions_spare now (maxRetryCount configured) w1 H1) as (s2 & w2 & E2 & H2 & H2c & H2x & _ & Ef2).
  unfold RunOnce. cbv zeta. unfold mbind, M_bind. rewrite E1. cbv iota. rewrite E2. rewrite <- Et. destruct s2; [by exists w2|].
  destruct (cancellations_spare now (maxRetryCount configured) w2) as (s3 & w3 & E3 & H3 & H3c & H3x & _ & Ef3); [done|].
  rewrite E3. exists w3. split; [done|]. split; [done|congruence].
Qed.

(** A life of the store: runs of the worker, at any times, and anything else that keeps
    the invariant and the fifty records in front. *)
Inductive crowded_life (configured : N) (w0 : World) : World -> Prop :=
| crowded_start : crowded_life configured w0 w0
| crowded_run now w : crowded_life configured w0 w -> crowded_life configured w0 (RunOnce now configured w).2
| crowded_other w w' : crowded_life configured w0 w -> records_ok w' -> oldest (w_tables w') = oldest (w_tables w) -> crowded_life configured w0 w'.

(** C38 Old failures starve new ones: the worker lists the fifty oldest OPEN records before
    it skips those it does not retry, and skipping does not close them.  So when none of
    the fifty may be retried, because their errors do not pass or their attempts are used
    up, every later run leaves every failed settlement as it is, whatever the database
    does and however many runs there are, also when new records that could be retried
    come behind them and whatever else changes in the store, as long as the fifty stay
    in front. *)
Theorem old_failures_starve_new configured w0 w now : records_ok w0 ->
  Forall (fun f => retryable_settlement (maxRetryCount configured) f = false) (oldest (w_tables w0)) -> crowded_life configured w0 w ->
  exists w', RunOnce now configured w = (Ok tt, w') /\ oldest (w_tables w') = oldest (w_tables w0) /\ tb_failed_settlements (w_tables w') = tb_failed_settlements (w_tables w).
Proof.
  intros H0 Hskip Hlife. assert (Hw : records_ok w /\ oldest (w_tables w) = oldest (w_tables w0)).
  { induction Hlife as [|t w _ [IH1 IH2]|w w' _ [_ IH2] H1 H2]; [done| |split; [done|congruence]]. rewrite <- IH2 in Hskip.
    destruct (run_passes_over t configured w IH1 Hskip) as (w' & E & Hok & Ef). rewrite E. split; [done|]. rewrite <- IH2. unfold oldest, all_rows. cbn. by rewrite Ef. }
  destruct Hw as [Hw E]. rewrite <- E in Hskip |- *. destruct (run_passes_over now configured w Hw Hskip) as (w' & E' & _ & Ef). exists w'. split; [done|]. split; [|done].
  unfold oldest, all_rows. cbn. by rewrite Ef.
Qed.
End RetryEnds.
