(* ===== verification/ProcessingFixtures.v ===== *)
(** * Concrete runs of event processing and of the retry worker *)
From S2P Require Import Prelude Decimal Model Errors Fee Matching MarketRules Database Ledger LedgerInv LedgerSpec LedgerTheorems Sha256 OrderLedger Queries Settlement TradePlan Store SettlementProofs SettlementBatch SettlementBatchProofs HoldCoordinator OrderService Transfers TransferInv LockedFunds OrderProofs FailureStores Services ServiceFixtures Dispatcher Processing FailureProofs ProcessingProofs TerminalProofs RetryWorker RetryProofs.
From Stdlib Require Import Lia.

Module ProcessingFixtures.
Import FixedPoint ServiceFixtures PipelineFixtures.

#[export] Instance plain_texts : ErrorTexts := fun _ => "failed"%string.

Definition event1 : OutboxEvent := mkOutboxEvent 1 (EvTrade trade1).
Definition event2 : OutboxEvent := mkOutboxEvent 2 (EvTrade trade2).

(** No failure was recorded while the two orders were created. *)
Lemma no_failures : tb_failed_settlements (w_tables ordered2) = ∅.
Proof. vm_cast_no_check (eq_refl (∅ : gmap N FailedSettlement)). Qed.
Lemma no_failed_completions : tb_failed_completions (w_tables ordered2) = ∅.
Proof. vm_cast_no_check (eq_refl (∅ : gmap N FailedMarketCompletion)). Qed.
Lemma no_failed_cancellations : tb_failed_cancellations (w_tables ordered2) = ∅.
Proof. vm_cast_no_check (eq_refl (∅ : gmap N FailedOrderCancellation)). Qed.

Lemma empty_table {A} (T : FailureTable A) t s : ft_rows T t = ∅ -> table_ok T t s.
Proof. intros E. split; rewrite E; [by apply map_Forall_empty|]. intros i j x y H. by rewrite lookup_empty in H. Qed.

Lemma kept_ordered2 : kept ordered2.
Proof. split; [exact (sy_store _ _ (proj1 ok_ordered2))|]. apply empty_table. exact no_failures. Qed.

Lemma steady_ordered2 : steady services_ok ordered2.
Proof.
  split; [exact ok_ordered2|]. split; apply empty_table; [exact no_failed_completions|exact no_failed_cancellations].
Qed.

Lemma batch_never_lost_witness :
  exists undurable messages w', settleTradeBatchWithFallback 0 [event1; event2] ordered2 = (Ok (undurable, messages), w')
    /\ advances (accounted_in [event1; event2] (w_tables w')) ordered2 w' /\ reported [event1; event2] undurable (w_tables w').
Proof. apply (batch_never_lost 0 [event1; event2] ordered2); [repeat constructor|exact kept_ordered2]. Defined.

(** The database times out on the batch, then recovers: the trade waits in the
    failure records and its row is marked. *)
Definition slow : World :=
  mkWorld ((w_tables ordered2) <| tb_outbox := {[ 1%N := mkOutboxRow OutboxTrade "BTC" "engine-1-1:1" (Some (EvTrade trade1)) OutboxPending ]} |>)
    (w_seqs ordered2) [Fine; Fails "57014"].
Definition after_slow : World := (settleTradeBatchWithFallback 0 [event1] slow).2.

Example slow_batch_recorded : map (fun '(id, f) => (id, fs_Status f, ClassifyFailedSettlement f)) (map_to_list (tb_failed_settlements (w_tables after_slow)))
  = [(1%N, FailedSettlementStatusOpen, CategoryStatementTimeout)].
Proof. vm_compute. reflexivity. Qed.
Example slow_batch_marked : map (fun '(id, row) => (id, ob_Status row)) (map_to_list (tb_outbox (w_tables after_slow))) = [(1%N, OutboxProcessed)].
Proof. vm_compute. reflexivity. Qed.

(** The next run of the worker settles it. *)
Example slow_batch_retried : map (fun '(id, f) => (id, fs_Status f)) (map_to_list (tb_failed_settlements (w_tables (RunOnce 0 0 after_slow).2)))
    = [(1%N, FailedSettlementStatusResolved)]
  /\ map t_IdempotencyKey (tb_trades (w_tables (RunOnce 0 0 after_slow).2)) = ["engine:engine-1-1:1"%string].
Proof. split; vm_compute; reflexivity. Qed.

Definition cancel1 : ExecutionEvent := EvOrderCancelled (mkCancelled 0 1 "BTC" OrderSideBuy "engine-1-1:3").

Lemma not_rejected1 : not_rejected 1 ordered2.
Proof. intros o Ho. rewrite found_buy in Ho. assert (E : o = buy1) by congruence. rewrite E. vm_compute. congruence. Qed.

Lemma end_executed_or_recorded_witness : exists handled w', processExecutionEvent 0 cancel1 3 3 ordered2 = (Ok (handled, false, []), w') /\ steady services_ok w'
    /\ (handled = true -> executed cancel1 (w_tables w') \/ recorded_end cancel1 (w_tables w')).
Proof. apply (end_executed_or_recorded 0 cancel1 3 3 1 ordered2); [reflexivity|exact steady_ordered2|exact not_rejected1]. Defined.

(** ** A waiting trade *)

Definition waiting1 : FailedSettlement :=
  mkFailedSettlement 1 "engine:engine-1-1:1" 7 "engine-1-1:1" None "BTC" 1 2 (NewFromInt 9000) (RequireFromString "0.5")
    (RequireFromString "2.25") (RequireFromString "2.25") (RequireFromString "0.0005") "[SQLSTATE 40001] failed" FailedSettlementStatusOpen 1 0 "" "" "".
Definition waiting_tables : Tables := empty_tables <| tb_failed_settlements := {[ 1%N := waiting1 ]} |>.
Definition waiting : World := mkWorld waiting_tables {[ "failed_settlements"%string := 1%N ]} [].

Lemma steady_waiting : steady services_ok waiting.
Proof.
  destruct (empty_ok {[ "failed_settlements"%string := 1%N ]} []) as [H1 [H2 H3]].
  split; [split; [by apply (sys_ok_same empty_tables)|by split]|]. split; by apply empty_table.
Qed.

Lemma waiting_row i x : ft_rows failed_settlements waiting_tables !! i = Some x -> i = 1%N /\ x = waiting1.
Proof. intros H. change (({[ 1%N := waiting1 ]} : gmap N FailedSettlement) !! i = Some x) in H. by apply lookup_singleton_Some in H as [<- <-]. Qed.

Lemma waiting_table : table_ok failed_settlements waiting_tables {[ "failed_settlements"%string := 1%N ]}.
Proof.
  split.
  - intros i x Hi. apply waiting_row in Hi as [-> ->]. split; [done|]. vm_compute. congruence.
  - intros i j x y Hi Hj _. apply waiting_row in Hi as [-> _], Hj as [-> _]. done.
Qed.

Lemma waiting_open : has_open_failure waiting_tables 1 = true.
Proof. vm_compute. reflexivity. Qed.

Lemma end_waits_for_failures_witness : exists handled w', processExecutionEvent 0 cancel1 3 3 waiting = (Ok (handled, false, []), w') /\ steady services_ok w'
    /\ only_records waiting_tables (w_tables w') /\ (handled = true -> recorded_end cancel1 (w_tables w')).
Proof. apply (end_waits_for_failures 0 cancel1 3 3 1 waiting); [reflexivity|exact steady_waiting|exact waiting_open]. Defined.

Lemma prompt_waiting : prompt waiting.
Proof.
  split; [split; [exact (sy_store _ _ (proj1 (proj1 steady_waiting)))|exact waiting_table]|]. intros key (i & x & Hi & <-).
  apply waiting_row in Hi as [_ ->]. split; [reflexivity|]. vm_compute. congruence.
Qed.

Lemma retry_forgets_nothing_witness : exists stop w', retryFailedSettlements 0 5 waiting = (Ok stop, w') /\ prompt w'
    /\ forall key, owed waiting_tables key -> owed (w_tables w') key.
Proof. apply (retry_forgets_nothing 0 5 waiting). exact prompt_waiting. Defined.

Lemma retry_spares_waiting_orders_witness : waits waiting 1 /\
  (exists stop w', retryFailedCompletions 0 5 waiting = (Ok stop, w') /\ around (waits waiting) waiting w')
  /\ (exists stop w', retryFailedCancellations 0 5 waiting = (Ok stop, w') /\ around (waits waiting) waiting w').
Proof.
  split; [exact waiting_open|]. apply (retry_spares_waiting_orders 0 5 waiting).
  split; [exact (sy_store _ _ (proj1 (proj1 steady_waiting)))|]. exact (proj2 steady_waiting).
Defined.

Definition value {A} (r : result error A) (other : A) : A := match r with Ok a => a | Err _ => other end.
Lemma value_ok {A} (r : result error A) other : is_ok r = true -> r = Ok (value r other).
Proof. by destruct r. Qed.

Definition failed1 : FailedSettlement := value (failedSettlementFromTrade (written_back trade1) (Some (DBError "40001")) 5) waiting1.
Lemma recorded_trade1 : failedSettlementFromTrade (written_back trade1) (Some (DBError "40001")) 5 = Ok failed1.
Proof. unfold failed1. apply value_ok. vm_compute. reflexivity. Qed.

Lemma retried_trade_is_the_trade_witness : settlement_input (tradeFromFailedSettlement failed1) = Ok (came_back 5 trade1_in).
Proof. apply (retried_trade_is_the_trade trade1 trade1_in (Some (DBError "40001")) 5 failed1); [reflexivity|exact found_trade1|exact recorded_trade1]. Defined.

Lemma transient_failure_is_retried_witness : retryable_settlement (maxRetryCount 0) failed1 = true.
Proof. apply (transient_failure_is_retried (written_back trade1) (DBError "40001") 5 0 failed1); [reflexivity|exact recorded_trade1|discriminate]. Defined.

(** ** Old failures in front *)

(** Fifty older records the worker passes over, since their error does not pass, and
    one behind them that it should retry. *)
Definition passed_over (n : nat) : FailedSettlement :=
  waiting1 <| fs_ID := N.of_nat n |> <| fs_TradeIdempotencyKey := pretty n |> <| fs_ErrorMessage := "order is CANCELLED" |>.
Definition behind : FailedSettlement := waiting1 <| fs_ID := 51%N |> <| fs_OccurredAt := 1%Z |>.
Definition crowded_tables : Tables :=
  empty_tables <| tb_failed_settlements := <[51%N := behind]> (list_to_map (map (fun n => (N.of_nat n, passed_over n)) (seq 1 50))) |>.
Definition crowded : World := mkWorld crowded_tables {[ "failed_settlements"%string := 51%N ]} [].

Lemma forallb_not {A} (f : A -> bool) l : forallb (fun x => negb (f x)) l = true -> Forall (fun x => f x = false) l.
Proof. intros H. apply Forall_forall. intros x Hx. apply negb_true_iff. rewrite forallb_forall in H. by apply H, list_elem_of_In. Qed.

Lemma crowded_ok : records_ok crowded.
Proof.
  destruct (empty_ok {[ "failed_settlements"%string := 51%N ]} []) as [H1 _]. split; [apply (store_ok_same empty_tables); [done ..|]; apply H1|]. split; by apply empty_table.
Qed.

(** The record behind the fifty can be retried; a run, and the run after it, leave it. *)
Lemma old_failures_starve_new_witness : tb_failed_settlements (w_tables crowded) !! 51%N = Some behind
  /\ retryable_settlement (maxRetryCount 0) behind = true
  /\ exists w', RunOnce 20 0 (RunOnce 10 0 crowded).2 = (Ok tt, w') /\ oldest (w_tables w') = oldest (w_tables crowded)
       /\ tb_failed_settlements (w_tables w') = tb_failed_settlements (w_tables (RunOnce 10 0 crowded).2).
Proof.
  split; [vm_cast_no_check (eq_refl (Some behind))|]. split; [vm_compute; reflexivity|].
  apply (old_failures_starve_new 0 crowded (RunOnce 10 0 crowded).2 20); [exact crowded_ok| |apply crowded_run, crowded_start].
  apply forallb_not. vm_compute. reflexivity.
Defined.
End ProcessingFixtures.
