(* ===== verification/Outbox.v ===== *)
(** * The trade outbox (service/outbox_writer.go, service/outbox_replayer.go, repository/trade_outbox_repository.go)

    The writer commits the engine's events in batches before anything settles
    them, and marks the cancel commands they answer in the same transaction; it
    tries until a batch is committed.  At start-up the replayer processes what was
    committed and not finished, in the order of the ids.

    [tx.Create] writes the ids of new rows into the structs and leaves them there
    when the transaction is rolled back; a row with an id is inserted under it.
    Delays are left out; the number of attempts is the fuel of [flush_loop]. *)
From S2P Require Import Prelude Decimal Model Errors Fee Matching Database Ledger Sha256 OrderLedger Settlement SettlementBatch HoldCoordinator OrderService Transfers FailureStores Dispatcher Processing.
From Stdlib Require Import Lia.

Section Outbox.
Context {DL : DecimalLib} {TX : ErrorTexts}.

(** What an event's JSON reads back as. *)
Class PayloadJSON := reread : ExecutionEvent -> ExecutionEvent.
Context {PJ : PayloadJSON}.

(** ** Rows *)

Definition NewTradeOutboxEvent (event : ExecutionEvent) : TradeOutboxEvent :=
  match event with
  | EvTrade trade => mkOutboxRow OutboxTrade (t_CoinSymbol trade) (t_EngineEventID trade) (Some (reread event)) OutboxPending
  | EvMarketOrderDone d => mkOutboxRow OutboxMarketOrderDone (d_CoinSymbol d) "" (Some (reread event)) OutboxPending
  | EvOrderCancelled c => mkOutboxRow OutboxOrderCancelled (c_CoinSymbol c) (c_EngineEventID c) (Some (reread event)) OutboxPending
  end.

Definition ExecutionEventFromOutbox (id : N) (row : TradeOutboxEvent) : result error ExecutionEvent :=
  match ob_Payload row with
  | Some event => Ok event
  | None => Err (Errorf "unmarshal outbox payload %d" [pretty id])
  end.

(** ** The repository *)

(** A row that is to be inserted, with its id or 0. *)
Abbreviation new_row := (N * TradeOutboxEvent)%type.

Definition create_row (new : new_row) : M new_row :=
  id ← (if decide (new.1 = 0%N) then nextval "trade_outbox_events" else mret new.1);
  t ← get_db;
  match tb_outbox t !! id with
  | Some _ => throw (ConstraintViolation "trade_outbox_events_pkey")
  | None => _ ← put_db (t <| tb_outbox := <[id := new.2]> (tb_outbox t) |>); mret (id, new.2)
  end.

(** [tx.Create(&events)]: one INSERT of seven columns, and the id where it is given. *)
Definition outbox_parameters (events : list new_row) : Z := foldr (fun new n => (if decide (new.1 = 0%N) then 7 else 8) + n)%Z 0%Z events.
Definition create_rows (events : list new_row) : M (list new_row) := _ ← stmt_with (outbox_parameters events); map_each create_row events.

Definition dedupe (ids : list N) (value : N) : list N := if decide (value = 0%N \/ value ∈ ids) then ids else ids ++ [value].
Definition dedupeNonzeroUint64 (values : list N) : list N := foldl dedupe [] values.

Definition command_processed (c : CancelCommandRow) : CancelCommandRow :=
  mkCancelCommand (cmd_ID c) (cmd_OrderID c) (cmd_UserID c) (cmd_CoinSymbol c) (cmd_Side c) (cmd_Price c) CommandProcessed (cmd_AttemptCount c) (cmd_LastError c).

Definition pending_commands (t : Tables) (ids : list N) : list N := filter (fun id => cmd_Status <$> tb_commands t !! id = Some CommandPending) ids.

Definition mark_commands (ids : list N) : M unit :=
  _ ← stmt;
  t ← get_db;
  let affected := pending_commands t ids in
  _ ← put_db (t <| tb_commands := foldl (fun rows id => alter command_processed id rows) (tb_commands t) affected |>);
  if decide (length affected <> length ids)
  then throw (Errorf "mark cancel commands processed affected %d rows, expected %d" [pretty (length affected); pretty (length ids)])
  else mret tt.

Definition insert_body (events : list new_row) (ids : list N) : M unit :=
  _ ← create_rows events;
  match ids with [] => mret tt | _ => mark_commands ids end.

(** The structs after the call: with ids when the INSERT went through. *)
Definition assigned (events : list new_row) (w : World) : list new_row :=
  match (_ ← stmt; create_rows events) w with (Ok rows, _) => rows | (Err _, _) => events end.

Definition InsertBatchAndMarkCancelCommands (events : list new_row) (commandIDs : list N) (w : World) : result error unit * list new_row * World :=
  let ids := dedupeNonzeroUint64 commandIDs in
  match events, ids with
  | [], [] => (Ok tt, [], w)
  | [], _ => (Err (Errorf "refusing to mark %d cancel commands processed without outbox events" [pretty (length ids)]), [], w)
  | _, _ => let '(r, w') := transaction (insert_body events ids) w in (r, assigned events w, w')
  end.

Definition after (afterID : N) (t : Tables) : list N :=
  sort_ids (filter (fun id => (afterID < id)%N /\ ob_Status <$> tb_outbox t !! id = Some OutboxPending) (elements (dom (tb_outbox t)))).
Definition FindPendingAfter (afterID : N) (limit : nat) : M (list new_row) :=
  query (fun t => omap (fun id => (fun row => (id, row)) <$> tb_outbox t !! id) (take limit (after afterID t))).

(** ** The writer *)

Definition defaultOutboxBatchSize : nat := 512.

(** [collectBatch] after the first event: what arrives before the timer fires or
    the source is closed, up to the size of a batch. *)
Definition collectBatch (batchSize : nat) (batch arriving : list ExecutionEvent) (closed : bool) : list ExecutionEvent * bool :=
  let room := (batchSize - length batch)%nat in
  (batch ++ take room arriving, negb (closed && (length arriving <? room)%nat)).

(** The commands of the cancelled orders. *)
Definition command_ids (events : list ExecutionEvent) : list N :=
  omap (fun event => match event with EvOrderCancelled c => if decide (c_CommandID c = 0%N) then None else Some (c_CommandID c) | _ => None end) events.

Fixpoint flush_loop (fuel : nat) (rows : list new_row) (commandIDs : list N) (w : World) : option (list new_row) * World :=
  match fuel with
  | O => (None, w)
  | S fuel =>
      let '(r, rows, w) := InsertBatchAndMarkCancelCommands rows commandIDs w in
      match r with Ok _ => (Some rows, w) | Err _ => flush_loop fuel rows commandIDs w end
  end.

(** The events handed on; [None] while the batch is not committed. *)
Definition flushAndForward (fuel : nat) (events : list ExecutionEvent) (w : World) : option (list OutboxEvent) * World :=
  match events with
  | [] => (Some [], w)
  | _ =>
      let '(rows, w) := flush_loop fuel (map (fun event => (0%N, NewTradeOutboxEvent event)) events) (command_ids events) w in
      ((fun rows => zip_with (fun row event => mkOutboxEvent row.1 event) rows events) <$> rows, w)
  end.

(** ** The replayer *)

Record OutboxReplayResult := mkReplayResult { rr_Replayed : Z; rr_Deferred : Z; rr_Undurable : Z; rr_Corrupted : Z }.

Definition defaultOutboxReplayPageSize : nat := 500.

(** The rows of a page; the error that ends the replay, if any. *)
Fixpoint replay_rows (now : Z) (result : OutboxReplayResult) (rows : list new_row) : M (OutboxReplayResult * option error) :=
  match rows with
  | [] => mret (result, None)
  | (id, row) :: rows =>
      match ExecutionEventFromOutbox id row with
      | Err e =>
          mret (mkReplayResult (rr_Replayed result) (rr_Deferred result) (rr_Undurable result) (rr_Corrupted result + 1),
                Some (Wrapf ("corrupted outbox event " +:+ pretty id +:+ ": %w") e))
      | Ok event =>
          '(handled, _, _) ← processExecutionEvent now event 0 id;
          if negb handled then
            mret (mkReplayResult (rr_Replayed result) (rr_Deferred result) (rr_Undurable result + 1) (rr_Corrupted result),
                  Some (Errorf "outbox event %d not durably handled" [pretty id]))
          else
            marked ← attempt (MarkProcessed id);
            if is_ok marked
            then replay_rows now (mkReplayResult (rr_Replayed result + 1) (rr_Deferred result) (rr_Undurable result) (rr_Corrupted result)) rows
            else replay_rows now (mkReplayResult (rr_Replayed result) (rr_Deferred result + 1) (rr_Undurable result) (rr_Corrupted result)) rows
      end
  end.

Definition last_id (afterID : N) (rows : list new_row) : N := default afterID (fst <$> last rows).

(** The loop over the pages; [None] when the fuel does not suffice. *)
Fixpoint replay_pages (fuel : nat) (now : Z) (pageSize : nat) (afterID : N) (result : OutboxReplayResult) : M (option (OutboxReplayResult * option error)) :=
  match fuel with
  | O => mret None
  | S fuel =>
      page ← attempt (FindPendingAfter afterID pageSize);
      match page with
      | Err e => mret (Some (result, Some (Wrapf "load pending outbox events: %w" e)))
      | Ok [] => mret (Some (result, None))
      | Ok rows =>
          '(result, err) ← replay_rows now result rows;
          match err with
          | Some _ => mret (Some (result, err))
          | None => if (length rows <? pageSize)%nat then mret (Some (result, None)) else replay_pages fuel now pageSize (last_id afterID rows) result
          end
      end
  end.

(** A page has a row more than the last one reached. *)
Definition Replay (now : Z) (pageSize : nat) : M (option (OutboxReplayResult * option error)) := fun w =>
  replay_pages (S (size (tb_outbox (w_tables w)))) now pageSize 0 (mkReplayResult 0 0 0 0) w.
End Outbox.
