(* ===== verification/OutboxProofs.v ===== *)
(** * The outbox is written ahead *)
From S2P Require Import Prelude Decimal Model Errors Fee Matching Database Ledger LedgerInv Sha256 OrderLedger Settlement SettlementBatch HoldCoordinator OrderService Transfers FailureStores Dispatcher Processing Outbox.
From Stdlib Require Import Lia Sorted.

Section OutboxProofs.
Context {DL : DecimalLib} {TX : ErrorTexts} {PJ : PayloadJSON}.

Abbreviation new_row := (N * TradeOutboxEvent)%type.
Abbreviation outbox_seq := "trade_outbox_events"%string.

(** Ids come from the sequence. *)
Definition outbox_ok (t : Tables) (s : Seqs) : Prop := map_Forall (fun id _ => (0 < id <= seq_value s outbox_seq)%N) (tb_outbox t).

(** Rows that can be inserted: new, or with ids that an attempt drew and gave up. *)
Definition drawn (rows : list new_row) (t : Tables) (s : Seqs) : Prop :=
  StronglySorted N.lt (map fst rows) /\ Forall (fun new => (0 < new.1 <= seq_value s outbox_seq)%N /\ tb_outbox t !! new.1 = None) rows.
Definition assignable (rows : list new_row) (t : Tables) (s : Seqs) : Prop := Forall (fun new => new.1 = 0%N) rows \/ drawn rows t s.

Fixpoint add_rows (rows : list new_row) (m : gmap N TradeOutboxEvent) : gmap N TradeOutboxEvent :=
  match rows with [] => m | new :: rows => add_rows rows (<[new.1 := new.2]> m) end.

(** What inserting leaves. *)
Definition inserted (rows rows' : list new_row) (t t' : Tables) (s' : Seqs) : Prop :=
  map snd rows' = map snd rows /\ drawn rows' t s' /\ t' = t <| tb_outbox := add_rows rows' (tb_outbox t) |>.

Lemma bind_ok {A B} (m : M A) (k : A -> M B) w a w' : m w = (Ok a, w') -> (m ≫= k) w = k a w'.
Proof. intros E. unfold mbind, M_bind. by rewrite E. Qed.

Lemma create_row_drawn id row t s fs : id <> 0%N -> tb_outbox t !! id = None ->
  create_row (id, row) (mkWorld t s fs) = (Ok (id, row), mkWorld (t <| tb_outbox := <[id := row]> (tb_outbox t) |>) s fs).
Proof.
  intros Hne Hn. unfold create_row. cbn [fst snd]. destruct (decide (id = 0%N)); [done|]. unfold mbind, M_bind, get_db, put_db. cbn. by rewrite Hn.
Qed.

Lemma create_row_new row t s fs : outbox_ok t s -> let id := (seq_value s outbox_seq + 1)%N in
  create_row (0%N, row) (mkWorld t s fs) = (Ok (id, row), mkWorld (t <| tb_outbox := <[id := row]> (tb_outbox t) |>) (<[outbox_seq := id]> s) fs).
Proof.
  intros Hok id. unfold create_row. cbn [fst snd]. rewrite decide_True by done. unfold mbind, M_bind, get_db, put_db. cbn.
  destruct (tb_outbox t !! (seq_value s outbox_seq + 1)%N) eqn:E; [|done]. pose proof (Hok _ _ E) as Hid. cbv beta in Hid. lia.
Qed.

Lemma outbox_ok_insert t s id row : outbox_ok t s -> (0 < id <= seq_value s outbox_seq)%N -> outbox_ok (t <| tb_outbox := <[id := row]> (tb_outbox t) |>) s.
Proof. intros H Hid. by apply map_Forall_insert_2. Qed.

Lemma outbox_ok_seq t s s' : seq_le s s' -> outbox_ok t s -> outbox_ok t s'.
Proof. intros Hs H id row Hr. pose proof (H id row Hr) as Hid. cbv beta in Hid. specialize (Hs outbox_seq). lia. Qed.

Lemma seq_le_next s x : seq_le s (<[x := (seq_value s x + 1)%N]> s).
Proof. intros y. destruct (decide (x = y)) as [<-|Hne]; [rewrite seq_value_insert|rewrite seq_value_insert_ne by done]; lia. Qed.

Lemma create_drawn rows : forall t s fs, drawn rows t s ->
  map_each create_row rows (mkWorld t s fs) = (Ok rows, mkWorld (t <| tb_outbox := add_rows rows (tb_outbox t) |>) s fs).
Proof.
  induction rows as [|[id row] rows IH]; intros t s fs [Hsort Hall]; cbn [map_each]; [by destruct t|].
  apply Forall_cons in Hall as [[[Hpos Hle] Hn] Hall]. cbn [fst] in *. inversion Hsort as [|? ? Hsort' Hlt]; subst.
  rewrite (bind_ok _ _ _ _ _ (create_row_drawn id row t s fs ltac:(lia) Hn)). set (t1 := t <| tb_outbox := <[id := row]> (tb_outbox t) |>).
  assert (Hd : drawn rows t1 s); [|by rewrite (bind_ok _ _ _ _ _ (IH t1 s fs Hd))].
  split; [done|]. rewrite Forall_forall in Hall |- *. intros new Hin. destruct (Hall new Hin) as [H1 H2]. split; [done|]. cbn. rewrite lookup_insert_ne; [done|].
  rewrite List.Forall_forall in Hlt. specialize (Hlt new.1). rewrite <- list_elem_of_In in Hlt. intros ->. specialize (Hlt (list_elem_of_fmap_2 fst rows new Hin)). lia.
Qed.

Lemma create_new rows : forall t s fs, outbox_ok t s -> Forall (fun new => new.1 = 0%N) rows ->
  exists rows' s', map_each create_row rows (mkWorld t s fs) = (Ok rows', mkWorld (t <| tb_outbox := add_rows rows' (tb_outbox t) |>) s' fs)
    /\ seq_le s s' /\ map snd rows' = map snd rows /\ StronglySorted N.lt (map fst rows') /\ Forall (fun new => (seq_value s outbox_seq < new.1 <= seq_value s' outbox_seq)%N) rows'.
Proof.
  induction rows as [|[id row] rows IH]; intros t s fs Hok Hz; cbn [map_each].
  { exists [], s. split; [by destruct t|]. split; [apply seq_le_refl|]. split; [done|]. split; constructor. }
  apply Forall_cons in Hz as [Hid Hz]. cbn in Hid. subst id. rewrite (bind_ok _ _ _ _ _ (create_row_new row t s fs Hok)).
  set (id := (seq_value s outbox_seq + 1)%N) in *. set (t1 := t <| tb_outbox := <[id := row]> (tb_outbox t) |>). set (s1 := <[outbox_seq := id]> s).
  assert (Hs1 : seq_le s s1) by apply seq_le_next. assert (Hv1 : seq_value s1 outbox_seq = id) by apply seq_value_insert.
  destruct (IH t1 s1 fs) as (rows' & s' & E & Hs' & Hm & Hsort & Hall); [apply outbox_ok_insert; [by eapply outbox_ok_seq|lia]|done|].
  rewrite (bind_ok _ _ _ _ _ E). exists ((id, row) :: rows'), s'. split; [done|]. split; [by eapply seq_le_trans|]. split; [cbn; by rewrite Hm|].
  rewrite Hv1 in Hall. split; [|constructor].
  - constructor; [done|]. apply List.Forall_forall. intros x Hx. apply list_elem_of_In, list_elem_of_fmap in Hx as (new & -> & Hin). rewrite Forall_forall in Hall. by apply Hall.
  - cbn. specialize (Hs' outbox_seq). lia.
  - eapply Forall_impl; [exact Hall|]. cbn. lia.
Qed.

Lemma drawn_new rows t s s' : outbox_ok t s -> StronglySorted N.lt (map fst rows) ->
  Forall (fun new : new_row => (seq_value s outbox_seq < new.1 <= seq_value s' outbox_seq)%N) rows -> drawn rows t s'.
Proof.
  intros Hok Hsort Hall. split; [done|]. eapply Forall_impl; [exact Hall|]. cbn. intros new Hn. split; [lia|].
  destruct (tb_outbox t !! new.1) eqn:E; [|done]. pose proof (Hok _ _ E) as Hid. cbv beta in Hid. lia.
Qed.

Lemma create_rows_run rows t s fs : outbox_ok t s -> assignable rows t s ->
  exists rows' s', map_each create_row rows (mkWorld t s fs) = (Ok rows', mkWorld (t <| tb_outbox := add_rows rows' (tb_outbox t) |>) s' fs)
    /\ seq_le s s' /\ map snd rows' = map snd rows /\ drawn rows' t s'.
Proof.
  intros Hok [Hz|Hd].
  - destruct (create_new rows t s fs Hok Hz) as (rows' & s' & E & Hs & Hm & Hsort & Hall). exists rows', s'. split_and!; try done. by eapply drawn_new.
  - exists rows, s. split; [by apply create_drawn|]. split; [apply seq_le_refl|]. done.
Qed.

(** ** One attempt *)

(** Rows that one statement can carry, with ids or without. *)
Definition fits {A} (rows : list A) : Prop := (8 * Z.of_nat (length rows) <= maxStatementParameters)%Z.

Lemma parameters_bound (rows : list new_row) : (outbox_parameters rows <= 8 * Z.of_nat (length rows))%Z.
Proof. induction rows as [|new rows IH]; cbn [outbox_parameters foldr length]; [done|]. fold (outbox_parameters rows). case_decide; lia. Qed.
Lemma stmt_with_fits (rows : list new_row) : fits rows -> stmt_with (outbox_parameters rows) = stmt.
Proof. unfold fits, stmt_with. intros H. pose proof (parameters_bound rows). destruct (Z.ltb_spec maxStatementParameters (outbox_parameters rows)); [lia|done]. Qed.

(** The connection never drops between a commit and its acknowledgement. *)
Definition no_lost (fs : list fault) : Prop := Lost ∉ fs.

Inductive stmt_result (fs : list fault) : Prop :=
| StmtOk fs' : no_lost fs' -> (length fs' <= length fs)%nat -> (forall t s, stmt (mkWorld t s fs) = (Ok tt, mkWorld t s fs')) -> stmt_result fs
| StmtFails code fs' : no_lost fs' -> (length fs' < length fs)%nat -> (forall t s, stmt (mkWorld t s fs) = (Err (DBError code), mkWorld t s fs')) -> stmt_result fs.

Lemma stmt_cases fs : no_lost fs -> stmt_result fs.
Proof.
  unfold no_lost. intros H. destruct fs as [|[|code|] fs].
  - by eapply (StmtOk _ []).
  - apply not_elem_of_cons in H as [_ H]. eapply (StmtOk _ fs); [done|cbn; lia|done].
  - apply not_elem_of_cons in H as [_ H]. eapply (StmtFails _ code fs); [done|cbn; lia|done].
  - destruct H. by left.
Qed.

(** BEGIN fails, the body fails, or the commit decides. *)
Lemma transaction_begin_fails {A} (body : M A) t s fs fs' e : stmt (mkWorld t s fs) = (Err e, mkWorld t s fs') ->
  transaction body (mkWorld t s fs) = (Err e, mkWorld t s fs').
Proof. intros E. unfold transaction. by rewrite E. Qed.
Lemma transaction_body_fails {A} (body : M A) t s fs fs1 e w2 : stmt (mkWorld t s fs) = (Ok tt, mkWorld t s fs1) -> body (mkWorld t s fs1) = (Err e, w2) ->
  transaction body (mkWorld t s fs) = (Err e, mkWorld t (w_seqs w2) (w_faults w2)).
Proof. intros E1 E2. unfold transaction. by rewrite E1, E2. Qed.
Lemma transaction_commit {A} (body : M A) t s fs fs1 a t2 s2 fs2 : no_lost fs2 -> stmt (mkWorld t s fs) = (Ok tt, mkWorld t s fs1) ->
  body (mkWorld t s fs1) = (Ok a, mkWorld t2 s2 fs2) ->
  (exists fs3, transaction body (mkWorld t s fs) = (Ok a, mkWorld t2 s2 fs3) /\ no_lost fs3)
  \/ (exists e fs3, transaction body (mkWorld t s fs) = (Err e, mkWorld t s2 fs3) /\ no_lost fs3 /\ (length fs3 < length fs2)%nat).
Proof.
  intros Hn E1 E2. unfold transaction. rewrite E1, E2. cbn [w_faults w_tables w_seqs]. destruct fs2 as [|[|code|] fs3].
  - left. by exists [].
  - left. exists fs3. split; [done|]. by apply not_elem_of_cons in Hn as [_ Hn].
  - right. eexists _, fs3. split; [done|]. apply not_elem_of_cons in Hn as [_ Hn]. split; [done|cbn; lia].
  - destruct Hn. by left.
Qed.

Definition marked_commands (ids : list N) (t : Tables) : Tables :=
  t <| tb_commands := foldl (fun rows id => alter command_processed id rows) (tb_commands t) ids |>.

(** What a committed batch leaves. *)
Definition committed (rows : list new_row) (ids : list N) (t : Tables) : Tables := marked_commands ids (t <| tb_outbox := add_rows rows (tb_outbox t) |>).

Lemma marked_none t : marked_commands [] t = t.
Proof. by destruct t. Qed.

Definition attempt_ok (rows : list new_row) (ids : list N) (t : Tables) (s : Seqs) (fs : list fault) (res : result error unit * list new_row * World) : Prop :=
  let '(r, rows', w') := res in
  seq_le s (w_seqs w') /\ no_lost (w_faults w') /\ map snd rows' = map snd rows
  /\ match r with
     | Ok _ => drawn rows' t (w_seqs w') /\ w_tables w' = committed rows' ids t
     | Err _ => assignable rows' t (w_seqs w') /\ w_tables w' = t /\ (length (w_faults w') < length fs)%nat
     end.

Lemma mark_run ids t s fs : pending_commands t ids = ids -> no_lost fs ->
  (exists fs', mark_commands ids (mkWorld t s fs) = (Ok tt, mkWorld (marked_commands ids t) s fs') /\ no_lost fs' /\ (length fs' <= length fs)%nat)
  \/ (exists e fs', mark_commands ids (mkWorld t s fs) = (Err e, mkWorld t s fs') /\ no_lost fs' /\ (length fs' < length fs)%nat).
Proof.
  intros Hp Hn. unfold mark_commands. destruct (stmt_cases fs Hn) as [fs' Hn' Hl E|code fs' Hn' Hl E].
  - left. exists fs'. rewrite (bind_ok _ _ _ _ _ (E t s)). unfold mbind, M_bind, get_db, put_db. cbn [w_tables w_seqs w_faults]. rewrite Hp.
    destruct (decide _); [done|]. done.
  - right. exists (DBError code), fs'. unfold mbind at 1, M_bind at 1. rewrite (E t s). done.
Qed.

Lemma insert_body_run rows ids t s fs : fits rows -> outbox_ok t s -> assignable rows t s -> no_lost fs -> pending_commands t ids = ids ->
  (exists e fs', insert_body rows ids (mkWorld t s fs) = (Err e, mkWorld t s fs') /\ no_lost fs' /\ (length fs' < length fs)%nat
     /\ create_rows rows (mkWorld t s fs) = (Err e, mkWorld t s fs'))
  \/ exists rows' s' t1 fs1, create_rows rows (mkWorld t s fs) = (Ok rows', mkWorld t1 s' fs1) /\ seq_le s s' /\ map snd rows' = map snd rows /\ drawn rows' t s'
     /\ ((exists fs', insert_body rows ids (mkWorld t s fs) = (Ok tt, mkWorld (committed rows' ids t) s' fs') /\ no_lost fs' /\ (length fs' <= length fs)%nat)
         \/ (exists e t' fs', insert_body rows ids (mkWorld t s fs) = (Err e, mkWorld t' s' fs') /\ no_lost fs' /\ (length fs' < length fs)%nat)).
Proof.
  intros Hfit Hok Ha Hn Hp. unfold insert_body, create_rows. rewrite (stmt_with_fits rows Hfit). destruct (stmt_cases fs Hn) as [fs1 Hn1 Hl1 E1|code fs1 Hn1 Hl1 E1].
  2: { left. exists (DBError code), fs1. split_and!; try done; unfold mbind, M_bind; by rewrite (E1 t s). }
  right. destruct (create_rows_run rows t s fs1 Hok Ha) as (rows' & s' & E & Hs & Hm & Hd). set (t1 := t <| tb_outbox := _ |>) in E.
  assert (Ec : (_ ← stmt; map_each create_row rows) (mkWorld t s fs) = (Ok rows', mkWorld t1 s' fs1)) by (by rewrite (bind_ok _ _ _ _ _ (E1 t s))).
  exists rows', s', t1, fs1. split; [done|]. split; [done|]. split; [done|]. split; [done|]. rewrite (bind_ok _ _ _ _ _ Ec).
  destruct ids as [|id ids].
  - left. exists fs1. unfold committed. by rewrite marked_none.
  - destruct (mark_run (id :: ids) t1 s' fs1) as [(fs' & E2 & Hn2 & Hl2)|(e & fs' & E2 & Hn2 & Hl2)]; [done|done| |].
    + left. exists fs'. split; [exact E2|]. split; [done|lia].
    + right. eexists e, _, fs'. split; [exact E2|]. split; [done|lia].
Qed.

Lemma attempt_run rows ids t s fs : rows <> [] -> fits rows -> outbox_ok t s -> assignable rows t s -> no_lost fs -> pending_commands t ids = ids ->
  attempt_ok rows ids t s fs (let '(r, w') := transaction (insert_body rows ids) (mkWorld t s fs) in (r, assigned rows (mkWorld t s fs), w')).
Proof.
  intros Hne Hfit Hok Ha Hn Hp. unfold assigned. destruct (stmt_cases fs Hn) as [fs1 Hn1 Hl1 E1|code fs1 Hn1 Hl1 E1].
  2: { rewrite (transaction_begin_fails _ _ _ _ _ _ (E1 t s)). unfold mbind, M_bind. rewrite (E1 t s). split; [apply seq_le_refl|]. done. }
  rewrite (bind_ok _ _ _ _ _ (E1 t s)).
  destruct (insert_body_run rows ids t s fs1 Hfit Hok Ha Hn1 Hp) as [(e & fs' & E & Hn' & Hl & Ec)|(rows' & s' & t1 & fs2 & Ec & Hs & Hm & Hd & [(fs' & E & Hn' & Hl)|(e & t' & fs' & E & Hn' & Hl)])].
  - rewrite (transaction_body_fails _ _ _ _ _ _ _ (E1 t s) E), Ec. split; [apply seq_le_refl|]. cbn. split_and!; try done. lia.
  - rewrite Ec. destruct (transaction_commit _ _ _ _ _ _ _ _ _ Hn' (E1 t s) E) as [(fs3 & -> & Hn3)|(e & fs3 & -> & Hn3 & Hl3)].
    + split; [done|]. split; [done|]. split; [done|]. done.
    + split; [done|]. split; [done|]. split; [done|]. split; [by right|]. split; [done|cbn; lia].
  - rewrite Ec, (transaction_body_fails _ _ _ _ _ _ _ (E1 t s) E). split; [done|]. split; [done|]. split; [done|]. split; [by right|]. split; [done|cbn; lia].
Qed.

(** ** Attempts until the batch is committed *)

Lemma flush_loop_run commandIDs fuel : forall rows t s fs, (length fs < fuel)%nat -> rows <> [] -> fits rows -> outbox_ok t s -> assignable rows t s -> no_lost fs ->
  let ids := dedupeNonzeroUint64 commandIDs in pending_commands t ids = ids ->
  exists rows' w', flush_loop fuel rows commandIDs (mkWorld t s fs) = (Some rows', w') /\ map snd rows' = map snd rows
    /\ drawn rows' t (w_seqs w') /\ w_tables w' = committed rows' ids t.
Proof.
  induction fuel as [|fuel IH]; intros rows t s fs Hl Hne Hfit Hok Ha Hn ids Hp; [lia|]. cbn [flush_loop].
  assert (Ei : InsertBatchAndMarkCancelCommands rows commandIDs (mkWorld t s fs)
    = (let '(r, w') := transaction (insert_body rows ids) (mkWorld t s fs) in (r, assigned rows (mkWorld t s fs), w'))) by (by destruct rows).
  pose proof (attempt_run rows ids t s fs Hne Hfit Hok Ha Hn Hp) as H. rewrite Ei. destruct (transaction _ _) as [[u|e] [t' s' fs']]; destruct H as (Hs & Hn' & Hm & H); cbn [w_tables w_seqs w_faults] in *.
  - destruct H as [Hd Ht]. by eexists _, _.
  - destruct H as (Ha' & -> & Hl'). assert (Hne' : assigned rows (mkWorld t s fs) <> []) by (intros E; rewrite E in Hm; by destruct rows).
    assert (Hfit' : fits (assigned rows (mkWorld t s fs))) by (unfold fits; apply (f_equal length) in Hm; rewrite !length_map in Hm; by rewrite Hm).
    destruct (IH _ t s' fs' ltac:(lia) Hne' Hfit' (outbox_ok_seq _ _ _ Hs Hok) Ha' Hn' Hp) as (rows' & w' & E & Hm' & Hd & Ht). exists rows', w'.
    split; [exact E|]. split; [congruence|]. done.
Qed.

Lemma add_rows_other rows m id : id ∉ map fst rows -> add_rows rows m !! id = m !! id.
Proof.
  revert m. induction rows as [|new rows IH]; intros m Hid; [done|]. cbn in *. apply not_elem_of_cons in Hid as [H1 H2]. rewrite IH by done. by rewrite lookup_insert_ne.
Qed.

Lemma add_rows_in rows m new : StronglySorted N.lt (map fst rows) -> new ∈ rows -> add_rows rows m !! new.1 = Some new.2.
Proof.
  revert m. induction rows as [|x rows IH]; intros m Hs Hin; [by apply elem_of_nil in Hin|]. inversion Hs as [|? ? Hs' Hlt]; subst. cbn.
  apply elem_of_cons in Hin as [->|Hin]; [|by apply IH]. rewrite add_rows_other, lookup_insert_eq; [done|]. rewrite List.Forall_forall in Hlt.
  intros Hx. apply list_elem_of_In, Hlt in Hx. lia.
Qed.

Lemma marked_lookup ids (rows : gmap N CancelCommandRow) id c : rows !! id = Some c -> id ∈ ids \/ cmd_Status c = CommandProcessed ->
  cmd_Status <$> foldl (fun rows id => alter command_processed id rows) rows ids !! id = Some CommandProcessed.
Proof.
  revert rows c. induction ids as [|x ids IH]; intros rows c Hc Hor; cbn [foldl].
  - destruct Hor as [Hin|Hs]; [by apply elem_of_nil in Hin|]. rewrite Hc. cbn. by rewrite Hs.
  - destruct (decide (x = id)) as [->|Hne].
    + apply (IH _ (command_processed c)); [by rewrite lookup_alter_eq, Hc|by right].
    + apply (IH _ c); [by rewrite lookup_alter_ne|]. destruct Hor as [Hin|Hs]; [|by right]. apply elem_of_cons in Hin as [->|Hin]; [done|by left].
Qed.

Lemma dedupe_keeps values ids x : x ∈ ids \/ (x <> 0%N /\ x ∈ values) -> x ∈ foldl dedupe ids values.
Proof.
  revert ids. induction values as [|v values IH]; intros ids H; cbn [foldl]; [destruct H as [H|[_ H]]; [done|by apply elem_of_nil in H]|].
  apply IH. unfold dedupe. destruct H as [H|[Hx H]]; [left; case_decide; set_solver|]. apply elem_of_cons in H as [->|H]; [|by right]. left. case_decide as Hd; [destruct Hd as [|Hd]; [done|exact Hd]|]. apply elem_of_app. right. by left.
Qed.

Lemma command_ids_nonzero events id : id ∈ command_ids events -> id <> 0%N.
Proof. unfold command_ids. rewrite list_elem_of_omap. intros ([|d|c] & _ & H); try done. by case_decide; simplify_eq. Qed.

Lemma zip_events (rows : list new_row) (events : list ExecutionEvent) : length rows = length events ->
  map oe_Event (zip_with (fun row event => mkOutboxEvent row.1 event) rows events) = events
  /\ map oe_OutboxID (zip_with (fun row event => mkOutboxEvent row.1 event) rows events) = map fst rows.
Proof.
  revert events. induction rows as [|r rows IH]; intros [|e events] Hl; try done. cbn in *. destruct (IH events ltac:(lia)) as [-> ->]. done.
Qed.

(** Every forwarded event is in the outbox, under the id it is forwarded with. *)
Definition in_outbox (t t' : Tables) (forwarded : OutboxEvent) : Prop :=
  tb_outbox t !! oe_OutboxID forwarded = None /\ tb_outbox t' !! oe_OutboxID forwarded = Some (NewTradeOutboxEvent (oe_Event forwarded)).

(** C11 Events are written ahead.  For a batch that one INSERT can carry (at most 8,191
    events; the default batch size is 512) and whose cancel commands are PENDING:
    whatever statements fail, as long as no acknowledgement of a commit is lost, the
    writer needs at most one attempt more than there are failures, and when it hands events on, all of them are in the outbox,
    PENDING, each under the id it is handed on with; ids grow in the order the
    engine emitted the events; every cancel command they answer is PROCESSED,
    committed with them; no older row and no other table has changed. *)
Theorem write_ahead fuel events w : outbox_ok (w_tables w) (w_seqs w) -> no_lost (w_faults w) -> (length (w_faults w) < fuel)%nat -> fits events ->
  pending_commands (w_tables w) (dedupeNonzeroUint64 (command_ids events)) = dedupeNonzeroUint64 (command_ids events) ->
  exists forwarded w', flushAndForward fuel events w = (Some forwarded, w') /\ map oe_Event forwarded = events
    /\ StronglySorted N.lt (map oe_OutboxID forwarded) /\ Forall (in_outbox (w_tables w) (w_tables w')) forwarded
    /\ (forall id row, tb_outbox (w_tables w) !! id = Some row -> tb_outbox (w_tables w') !! id = Some row)
    /\ (forall id, id ∈ command_ids events -> cmd_Status <$> tb_commands (w_tables w') !! id = Some CommandProcessed)
    /\ w_tables w' = (w_tables w) <| tb_outbox := tb_outbox (w_tables w') |> <| tb_commands := tb_commands (w_tables w') |>.
Proof.
  intros Hok Hn Hl Hfit Hp. destruct w as [t s fs]. cbn [w_tables w_seqs w_faults] in *. unfold flushAndForward. destruct events as [|e0 events0] eqn:Ee.
  { eexists [], _. split; [reflexivity|]. split; [done|]. split; [constructor|]. split; [constructor|]. split; [done|]. split; [|by destruct t]. intros id Hid. by apply elem_of_nil in Hid. }
  rewrite <- Ee in *. set (rows := map (fun event => (0%N, NewTradeOutboxEvent event)) events).
  destruct (flush_loop_run (command_ids events) fuel rows t s fs) as (rows' & w' & E & Hm & Hd & Ht); try done.
  { unfold rows. by rewrite Ee. }
  { unfold fits, rows. by rewrite length_map. }
  { left. apply List.Forall_map, List.Forall_forall. done. }
  assert (Hms : map snd rows' = map NewTradeOutboxEvent events) by (rewrite Hm; unfold rows; rewrite map_map; done).
  assert (Hlen : length rows' = length events) by (apply (f_equal length) in Hms; by rewrite !length_map in Hms).
  rewrite E. destruct (zip_events rows' events Hlen) as [H1 H2]. destruct Hd as [Hsort Hall]. eexists _, w'. split; [reflexivity|]. split; [done|]. split; [by rewrite H2|].
  rewrite Ht. split; [|split; [|split; [|done]]].
  - apply Forall_forall. intros fw Hfw. apply list_elem_of_lookup in Hfw as [n Hfw]. apply lookup_zip_with_Some in Hfw as (new & event & -> & Hnew & Hev).
    assert (Esnd : new.2 = NewTradeOutboxEvent event).
    { apply (f_equal (.!! n)) in Hms. rewrite !list_lookup_fmap, Hnew, Hev in Hms. by injection Hms. }
    rewrite Forall_forall in Hall. apply list_elem_of_lookup_2 in Hnew. destruct (Hall new Hnew) as [_ Hno]. split; [done|]. cbn [oe_OutboxID oe_Event].
    rewrite <- Esnd. change (add_rows rows' (tb_outbox t) !! new.1 = Some new.2). by apply add_rows_in.
  - intros id row Hid. change (add_rows rows' (tb_outbox t) !! id = Some row). rewrite add_rows_other; [done|]. intros Hin.
    apply list_elem_of_fmap in Hin as (new & -> & Hin). rewrite Forall_forall in Hall. destruct (Hall new Hin) as [_ Hno]. congruence.
  - intros id Hid. pose proof (dedupe_keeps (command_ids events) [] id (or_intror (conj (command_ids_nonzero _ _ Hid) Hid))) as Hin.
    assert (Hpend : id ∈ pending_commands t (dedupeNonzeroUint64 (command_ids events))) by (by rewrite Hp). apply list_elem_of_filter in Hpend as [Hst _].
    destruct (tb_commands t !! id) as [c|] eqn:Ec; [|done]. by apply (marked_lookup _ _ _ c Ec); left.
Qed.

(** ** A lost acknowledgement *)

(** Rows that carry the ids of committed rows are refused for ever. *)
Lemma flush_stuck new rows commandIDs t s fuel : new.1 <> 0%N -> is_Some (tb_outbox t !! new.1) ->
  flush_loop fuel (new :: rows) commandIDs (mkWorld t s []) = (None, mkWorld t s []).
Proof.
  intros Hne [row Hrow]. induction fuel as [|fuel IH]; [done|]. cbn [flush_loop InsertBatchAndMarkCancelCommands].
  assert (Er : create_row new (mkWorld t s []) = (Err (ConstraintViolation "trade_outbox_events_pkey"), mkWorld t s [])).
  { unfold create_row. destruct (decide (new.1 = 0%N)); [done|]. unfold mbind, M_bind, get_db. cbn. by rewrite Hrow. }
  assert (Hc : exists e, create_rows (new :: rows) (mkWorld t s []) = (Err e, mkWorld t s [])).
  { unfold create_rows, stmt_with. destruct (_ <? _)%Z; [by eexists|]. cbn [map_each]. unfold mbind, M_bind, stmt. cbn. rewrite Er. by eexists. }
  destruct Hc as [err Ec].
  assert (Ea : assigned (new :: rows) (mkWorld t s []) = new :: rows).
  { unfold assigned. unfold mbind at 1, M_bind at 1, stmt at 1. cbn [w_faults]. by rewrite Ec. }
  assert (Eb : insert_body (new :: rows) (dedupeNonzeroUint64 commandIDs) (mkWorld t s []) = (Err err, mkWorld t s [])).
  { unfold insert_body. unfold mbind at 1, M_bind at 1. by rewrite Ec. }
  assert (E0 : stmt (mkWorld t s []) = (Ok tt, mkWorld t s [])) by done. rewrite (transaction_body_fails _ _ _ _ _ _ _ E0 Eb), Ea. exact IH.
Qed.

(** C37 A lost acknowledgement stops the writer: when the answer to the commit of a
    batch is lost, the batch is in the outbox, but every further attempt inserts the
    rows under the ids they were given and is refused as a duplicate; however
    often it tries, with the database in perfect order, the writer hands nothing on
    and takes no further event, although the batch it waits for is committed. *)
Theorem lost_commit_stops_writer fuel event w : outbox_ok (w_tables w) (w_seqs w) -> command_ids [event] = [] -> w_faults w = [Fine; Fine; Lost] ->
  exists w' id, flushAndForward (S fuel) [event] w = (None, w') /\ w_faults w' = [] /\ tb_outbox (w_tables w) !! id = None
    /\ tb_outbox (w_tables w') !! id = Some (NewTradeOutboxEvent event).
Proof.
  intros Hok Hc Hf. destruct w as [t s fs]. cbn [w_tables w_seqs w_faults] in *. subst fs. unfold flushAndForward. rewrite Hc.
  cbn [map flush_loop InsertBatchAndMarkCancelCommands]. set (new := (0%N, NewTradeOutboxEvent event)). set (id := (seq_value s outbox_seq + 1)%N).
  set (t1 := t <| tb_outbox := <[id := NewTradeOutboxEvent event]> (tb_outbox t) |>). set (s1 := <[outbox_seq := id]> s).
  assert (Hno : tb_outbox t !! id = None). { destruct (tb_outbox t !! id) eqn:E; [|done]. pose proof (Hok _ _ E) as Hid. cbv beta in Hid. unfold id in Hid. lia. }
  assert (Ec : create_rows [new] (mkWorld t s [Fine; Lost]) = (Ok [(id, NewTradeOutboxEvent event)], mkWorld t1 s1 [Lost])).
  { unfold create_rows, new. rewrite (stmt_with_fits [_]) by done. rewrite (bind_ok stmt _ (mkWorld t s [Fine; Lost]) tt (mkWorld t s [Lost]) eq_refl). cbn [map_each]. by rewrite (bind_ok _ _ _ _ _ (create_row_new (NewTradeOutboxEvent event) t s [Lost] Hok)). }
  assert (Eb : transaction (insert_body [new] (dedupeNonzeroUint64 [])) (mkWorld t s [Fine; Fine; Lost]) = (Err (DBError ""), mkWorld t1 s1 [])).
  { unfold transaction, stmt. cbn [w_faults w_tables w_seqs]. unfold insert_body. by rewrite (bind_ok _ _ _ _ _ Ec). }
  assert (Ea : assigned [new] (mkWorld t s [Fine; Fine; Lost]) = [(id, NewTradeOutboxEvent event)]).
  { unfold assigned. rewrite (bind_ok stmt _ (mkWorld t s [Fine; Fine; Lost]) tt (mkWorld t s [Fine; Lost]) eq_refl). by rewrite Ec. }
  rewrite Eb, Ea. assert (Hrow : tb_outbox t1 !! id = Some (NewTradeOutboxEvent event)) by (cbn; by rewrite lookup_insert_eq).
  rewrite (flush_stuck (id, NewTradeOutboxEvent event) [] [] t1 s1 fuel); [|unfold id; cbn; lia|by eexists].
  exists (mkWorld t1 s1 []), id. done.
Qed.
End OutboxProofs.
