(* ===== verification/ReplayProofs.v ===== *)
(** * Replaying the outbox at start-up

    A replay that ends without an error leaves no committed trade behind, and a
    replay always ends. *)
From S2P Require Import Prelude Decimal Model Matching Errors Fee MarketRules Database Ledger LedgerInv LedgerSpec LedgerTheorems Sha256 OrderLedger Queries Settlement TradePlan Store SettlementProofs SettlementBatch HoldCoordinator OrderService Transfers TransferInv LockedFunds OrderProofs FailureStores Services ServiceFixtures Dispatcher Processing FailureProofs ProcessingProofs TerminalProofs ProcessingFixtures Outbox OutboxProofs.
From Stdlib Require Import Lia Sorted.

Section ReplayProofs.
Context {DL : DecimalLib} {DLaws : DecimalLaws DL} {TX : ErrorTexts} {PJ : PayloadJSON}.

Abbreviation new_row := (N * TradeOutboxEvent)%type.

(** ** One event *)

Definition base (w : World) : Prop :=
  kept w /\ table_ok failed_completions (w_tables w) (w_seqs w) /\ table_ok failed_cancellations (w_tables w) (w_seqs w).

Lemma base_ends w w' : base w -> kept w' -> seq_le (w_seqs w) (w_seqs w') ->
  tb_failed_completions (w_tables w') = tb_failed_completions (w_tables w) -> tb_failed_cancellations (w_tables w') = tb_failed_cancellations (w_tables w) -> base w'.
Proof.
  intros [_ [Hc Hx]] Hk Hs Ec Ex. split; [done|]. split.
  - apply (table_ok_same failed_completions (w_tables w)); [exact Ec|]. exact (table_ok_seq _ _ _ _ Hs Hc).
  - apply (table_ok_same failed_cancellations (w_tables w)); [exact Ex|]. exact (table_ok_seq _ _ _ _ Hs Hx).
Qed.

Lemma settle_outcome_ends trade ob t r t' : settle_outcome trade ob t r t' -> same_records t t'.
Proof.
  intros [_ Hout]. destruct (find_trade t _); [by destruct Hout as (_ & (_ & _ & _ & _ & _ & _ & _ & Hr) & _)|].
  destruct Hout as (id & _ & _ & [? ? ? ? _ _ _ _ _ _ _ _ _ _ _ (_ & _ & Hr)]). done.
Qed.

Lemma settle_base trade0 ob : runs (SettleTrade trade0 ob) base (fun _ => True).
Proof.
  intros w Hw. pose proof (settle_advances trade0 ob w (proj1 Hw)) as Ha. pose proof (SettleTrade_run trade0 ob w (proj1 (proj1 Hw))) as Hr.
  destruct (SettleTrade trade0 ob w) as [r w']. destruct Ha as [Ha _]. destruct Hr as (Hs & _ & Hr). split; [|done].
  assert (Hsame : same_records (w_tables w) (w_tables w')).
  { destruct r as [res|e]; [destruct Hr as (trade & _ & Ho); by eapply settle_outcome_ends|].
    destruct Hr as [->|(_ & trade & res & _ & Ho)]; [done|by eapply settle_outcome_ends]. }
  destruct Hsame as (_ & _ & Ec & Ex). eapply base_ends; [done|apply Ha|done|done|done].
Qed.

Lemma noted_settlements_ends t t' : noted failed_settlements t t' -> tb_failed_completions t' = tb_failed_completions t /\ tb_failed_cancellations t' = tb_failed_cancellations t.
Proof. intros [Hput _ _]. rewrite Hput. done. Qed.

Lemma record_base now trade err w : base w -> base (RecordFailure now trade err w).2.
Proof.
  intros Hw. pose proof (notes_advances _ _ (fun _ => True) w (RecordFailure_notes now trade err) (proj1 Hw)) as Ha.
  pose proof (RecordFailure_notes now trade err w (proj2 (proj1 Hw))) as Hn. destruct (RecordFailure now trade err w) as [r w']. destruct Ha as [Ha _].
  destruct Hn as (Hs & _ & Hn & _). destruct (noted_settlements_ends _ _ Hn). cbn [snd]. eapply base_ends; [done|apply Ha|done|done|done].
Qed.

Lemma trade_base now trade0 ob w : base w -> base (processTradeSettlement now trade0 ob w).2.
Proof.
  intros Hw. unfold processTradeSettlement. destruct (runs_retry _ _ _ IsTransientSettlementError transientRetries w (settle_base trade0 ob) Hw) as (r & w1 & E & Hw1 & _).
  unfold mbind at 1, M_bind at 1. rewrite E. destruct r as [res|e]; [done|]. unfold mbind, M_bind, attempt.
  pose proof (record_base now (written_back trade0) (Some e) w1 Hw1) as H. destruct (RecordFailure _ _ _ w1) as [r w2]. exact H.
Qed.

Lemma mark_base id w : base w -> base (MarkProcessed id w).2.
Proof.
  intros Hw. pose proof (mark_advances id w (proj1 Hw)) as Ha. eapply base_ends; [done|apply Ha|apply Ha|..].
  all: unfold MarkProcessed; match goal with |- context [transaction ?b] => set (body := b) end.
  all: assert (Hb : wp body (fun _ t' _ => exists rows, t' = (w_tables w) <| tb_outbox := rows |>) (fun _ => True) (w_tables w) (w_seqs w)).
  1,3: apply wp_bind, wp_stmt, wp_bind, wp_get; destruct (tb_outbox (w_tables w) !! id); [apply wp_bind, wp_put, wp_ret; by eexists|apply wp_ret; exists (tb_outbox (w_tables w)); by destruct (w_tables w)].
  all: pose proof (transaction_wp _ _ _ _ _ (w_faults w) Hb) as Ht; rewrite world_eta in Ht; unfold mbind, M_bind; destruct (transaction body w) as [[[]|e] w']; destruct Ht as (_ & _ & Ht); cbn.
  all: first [destruct Ht as [rows ->]; done | destruct Ht as [[-> _]|(_ & _ & _ & rows & ->)]; done].
Qed.

(** *** The end of an order leaves trades, their failures and the outbox alone *)

Definition apart_from (w0 : World) (t : Tables) (s : Seqs) : Prop :=
  store_ok t s /\ table_ok failed_settlements t s /\ seq_le (w_seqs w0) s
  /\ tb_trades t = tb_trades (w_tables w0) /\ tb_failed_settlements t = tb_failed_settlements (w_tables w0) /\ tb_outbox t = tb_outbox (w_tables w0).

Lemma apart_seq w0 t s s' : seq_le s s' -> apart_from w0 t s -> apart_from w0 t s'.
Proof. intros Hs (H1 & H2 & H3 & H4). split; [by eapply store_ok_seq|]. split; [by eapply table_ok_seq|]. split; [by eapply seq_le_trans|done]. Qed.

Lemma apart_records w0 t t' s : only_records t t' -> apart_from w0 t s -> apart_from w0 t' s.
Proof.
  intros (r1 & r2 & ->) (H1 & H2 & H3 & H4). split; [by apply (store_ok_same t)|]. split; [by apply (table_ok_same failed_settlements t)|done].
Qed.

Lemma apart_end w0 (body : M unit) j (D : Tables -> Prop) w : steady (apart_from w0) w ->
  (forall t s, store_ok t s -> wp body (fun _ t' s' => store_ok t' s' /\ only_order j t t' /\ D t') (fun _ => True) t s) ->
  let '(r, w') := transaction body w in steady (apart_from w0) w' /\ (is_ok r = true -> D (w_tables w')).
Proof.
  intros Hw Hb. pose proof (proj1 Hw) as (Hok & Htb & Hsq & Et & Ef & Eo).
  assert (Hb' : wp body (fun _ t' s' => apart_from w0 t' s' /\ D t' /\ besides_orders (w_tables w) t') (fun _ => True) (w_tables w) (w_seqs w)).
  { eapply wp_mono; [by apply Hb| |done]. intros u t' s' Hs (H1 & [_ Hbe] & HD). split; [|done]. destruct Hbe as (E1 & E2 & _ & (_ & E3 & _)).
    split; [done|]. split; [apply (table_ok_same failed_settlements (w_tables w)); [exact E3|exact (table_ok_seq _ _ _ _ Hs Htb)]|]. split; [by eapply seq_le_trans|]. split_and!; congruence. }
  pose proof (end_run (apart_from w0) (apart_seq w0) body (fun _ t' => D t') _ w Hw Hb') as H. destruct (transaction body w) as [r w']. destruct H as (H1 & H2 & _). done.
Qed.

Lemma apart_execute w0 event id : order_of_end event = Some id -> runs (execute event) (steady (apart_from w0)) (executed event).
Proof.
  intros He w Hw. destruct event as [|d|c]; [done|..]; cbn [execute executed].
  - unfold CompleteMarketOrder. case_decide; [by split|]. apply (apart_end w0 _ (d_OrderID d)); [done|]. intros t s. apply (complete_frame (completion_input d)).
  - unfold ProcessOrderCancellation. case_decide; [by split|]. apply (apart_end w0 _ (c_OrderID c)); [done|]. apply cancellation_frame.
Qed.

Lemma end_base now event ob source id w : order_of_end event = Some id -> base w ->
  exists handled w', processExecutionEvent now event ob source w = (Ok (handled, false, []), w') /\ base w' /\ advances (fun _ => False) w w'
    /\ (handled = true -> executed event (w_tables w') \/ recorded_end event (w_tables w')).
Proof.
  intros He [[Hok Htb] Hends]. assert (Hw : steady (apart_from w) w) by (split; [|done]; split; [done|]; split; [done|]; split; [apply seq_le_refl|done]).
  destruct (end_handled (apart_from w) (apart_seq w) (apart_records w) now event ob source id (steady (apart_from w)) w) as (handled & w' & E & Hs & Hh); try done.
  - intros w1 w2 E1 E2. by apply steady_same.
  - by apply (apart_execute w event id).
  - exists handled, w'. split; [done|]. destruct Hs as [(H1 & H2 & H3 & H4 & H5 & H6) H7]. split; [by split|]. split; [|done].
    split; [by split|done|by apply grows_same|by apply marks_same].
Qed.

(** Any event of the outbox. *)
Definition event_accounted (t : Tables) (row : TradeOutboxEvent) : Prop := forall trade, ob_Payload row = Some (EvTrade trade) -> accounted t trade.

Lemma event_base now event source w : base w ->
  exists handled marked messages w', processExecutionEvent now event 0 source w = (Ok (handled, marked, messages), w') /\ base w' /\ advances (fun id => id = 0%N) w w'
    /\ (handled = true -> forall trade, event = EvTrade trade -> accounted (w_tables w') trade).
Proof.
  intros Hw. destruct (order_of_end event) as [id|] eqn:Ee.
  - destruct (end_base now event 0 source id w Ee Hw) as (handled & w' & E & H1 & H2 & _). exists handled, false, [], w'. split; [done|]. split; [done|].
    split; [eapply advances_mono; [|exact H2]; done|]. intros _ trade ->. done.
  - destruct event as [trade0| |]; try done. cbn [processExecutionEvent]. pose proof (trade_base now trade0 0 w Hw) as Hb.
    destruct (process_trade_advances now trade0 0 w (proj1 Hw)) as (handled & marked & messages & w' & E & Ha & Hacc). rewrite E in Hb |- *. cbn [snd] in Hb.
    exists handled, marked, messages, w'. split; [done|]. split; [done|]. split; [|intros H trade [= <-]; by apply Hacc].
    eapply advances_mono; [|done]. by intros id [-> _].
Qed.

(** ** The rows of a page *)

(** Which rows a replay may mark. *)
Definition replayed (rows : list new_row) (t : Tables) (id : N) : Prop := id = 0%N \/ exists row, (id, row) ∈ rows /\ event_accounted t row.

Lemma replayed_grows rows rows' t t' id : (forall x, x ∈ rows -> x ∈ rows') -> grows t t' -> replayed rows t id -> replayed rows' t' id.
Proof.
  intros Hr Hg [->|(row & Hin & Hacc)]; [by left|right]. exists row. split; [by apply Hr|]. intros trade Ht. by eapply accounted_grows; [|apply Hacc].
Qed.

Lemma replay_rows_run now rows : forall result w, base w ->
  exists result' err w', replay_rows now result rows w = (Ok (result', err), w') /\ base w' /\ advances (replayed rows (w_tables w')) w w'
    /\ (err = None -> forall id row, (id, row) ∈ rows -> event_accounted (w_tables w') row).
Proof.
  induction rows as [|[id row] rows IH]; intros result w Hw; cbn [replay_rows].
  { eexists result, None, w. split; [done|]. split; [done|]. split; [apply advances_refl, Hw|]. intros _ ? ? Hin. by apply elem_of_nil in Hin. }
  unfold ExecutionEventFromOutbox. destruct (ob_Payload row) as [event|] eqn:Ep.
  2: { eexists _, _, w. split; [reflexivity|]. split; [done|]. split; [apply advances_refl, Hw|done]. }
  destruct (event_base now event id w Hw) as (handled & marked & messages & w1 & E & Hw1 & Ha & Hacc). unfold mbind at 1, M_bind at 1. rewrite E.
  destruct handled; cbn [negb].
  2: { eexists _, _, w1. split; [reflexivity|]. split; [done|]. split; [|done]. eapply advances_mono; [|done]. by left. }
  unfold mbind, M_bind, attempt. pose proof (mark_base id w1 Hw1) as Hw2. pose proof (mark_advances id w1 (proj1 Hw1)) as Hm. destruct (MarkProcessed id w1) as [r w2]. cbn [snd] in *.
  assert (Hrow : event_accounted (w_tables w2) row). { intros trade Ht. eapply accounted_grows; [apply Hm|]. apply Hacc; congruence. }
  assert (Hnext : forall result, exists result' err w', replay_rows now result rows w2 = (Ok (result', err), w') /\ base w' /\ advances (replayed ((id, row) :: rows) (w_tables w')) w w'
    /\ (err = None -> forall id' row', (id', row') ∈ (id, row) :: rows -> event_accounted (w_tables w') row')).
  { intros result0. destruct (IH result0 w2 Hw2) as (result' & err & w' & E2 & Hw' & Ha' & Hall). exists result', err, w'. split; [done|]. split; [done|].
    assert (Hrow' : event_accounted (w_tables w') row) by (intros trade Ht; eapply accounted_grows; [apply Ha'|by apply Hrow]). split.
    - eapply advances_trans; [eapply advances_trans|]; (eapply advances_mono; [|done]).
      + by left.
      + intros x ->. right. exists row. split; [by left|done].
      + intros x. apply replayed_grows; [by right|done].
    - intros Hnone id' row' Hin. apply elem_of_cons in Hin as [[= -> ->]|Hin]; [done|by eapply Hall]. }
  by destruct r as [u|e]; cbn [is_ok]; apply Hnext.
Qed.

(** ** Pages *)

Lemma after_spec a t id : id ∈ after a t <-> (a < id)%N /\ ob_Status <$> tb_outbox t !! id = Some OutboxPending.
Proof.
  unfold after, sort_ids. rewrite merge_sort_Permutation, list_elem_of_filter, elem_of_elements. split; [by intros [? _]|]. intros [H1 H2]. split; [done|].
  apply elem_of_dom. destruct (tb_outbox t !! id); [by eexists|done].
Qed.

Lemma after_NoDup a t : NoDup (after a t).
Proof. unfold after, sort_ids. rewrite merge_sort_Permutation. apply NoDup_filter, NoDup_elements. Qed.

Lemma after_sorted a t : StronglySorted N.le (after a t).
Proof. apply (StronglySorted_merge_sort N.le). Qed.

(** What is not on a page of a sorted list comes after its last element. *)
Lemma beyond_page (l : list N) n x : StronglySorted N.le l -> NoDup l -> x ∈ l -> x ∉ take n l -> forall y, y ∈ take n l -> (y < x)%N.
Proof.
  intros Hs Hn Hx Hnot y Hy. rewrite <- (take_drop n l) in Hx, Hs. apply elem_of_app in Hx as [Hx|Hx]; [done|].
  assert (Hle : (y <= x)%N).
  { clear - Hs Hx Hy. induction (take n l) as [|z l1 IH]; [by apply elem_of_nil in Hy|]. cbn in Hs. inversion Hs as [|? ? Hs' Hall]; subst.
    apply elem_of_cons in Hy as [->|Hy]; [|by apply IH]. rewrite List.Forall_forall in Hall. apply Hall, list_elem_of_In, elem_of_app. by right. }
  assert (y <> x) by (intros ->; done). lia.
Qed.

Definition page_of (t : Tables) (ids : list N) : list new_row := omap (fun id => (fun row => (id, row)) <$> tb_outbox t !! id) ids.

Lemma page_ids t ids : (forall id, id ∈ ids -> is_Some (tb_outbox t !! id)) -> map fst (page_of t ids) = ids.
Proof.
  induction ids as [|id ids IH]; intros H; [done|]. destruct (H id) as [row Hr]; [by left|]. unfold page_of. cbn [omap list_omap]. rewrite Hr. cbn.
  f_equal. apply IH. intros x Hx. apply H. by right.
Qed.

Lemma page_row t ids id row : (id, row) ∈ page_of t ids <-> id ∈ ids /\ tb_outbox t !! id = Some row.
Proof.
  unfold page_of. rewrite list_elem_of_omap. split.
  - intros (x & Hx & E). destruct (tb_outbox t !! x) as [r|] eqn:Er; [|done]. cbn in E. by simplify_eq.
  - intros [H1 H2]. exists id. by rewrite H2.
Qed.

Lemma find_page a limit w : let '(r, w') := FindPendingAfter a limit w in
  w_tables w' = w_tables w /\ w_seqs w' = w_seqs w /\ forall rows, r = Ok rows -> rows = page_of (w_tables w) (take limit (after a (w_tables w))).
Proof.
  unfold FindPendingAfter, query, stmt, mbind, M_bind. destruct (w_faults w) as [|[] fs]; cbn; by split_and!; try intros ? [= <-].
Qed.

Lemma last_page a ids t x : map fst (page_of t ids) = ids -> (forall y, y ∈ ids -> (y < x)%N) -> (a < x)%N -> (last_id a (page_of t ids) < x)%N.
Proof.
  intros E Hlt Ha. unfold last_id. destruct (last (page_of t ids)) as [[y row]|] eqn:El; [|done]. cbn. apply Hlt. rewrite <- E. apply last_Some in El as [l El].
  apply (list_elem_of_fmap_2 fst _ (y, row)). rewrite El. apply elem_of_app. right. by left.
Qed.

(** Rows that were read, or will be, with what they carry. *)
Definition old_row (t t' : Tables) (id : N) : Prop := id = 0%N \/ exists row, tb_outbox t !! id = Some row /\ event_accounted t' row.

Lemma marks_row P t t' id row' : marks P t t' -> tb_outbox t' !! id = Some row' ->
  exists row, tb_outbox t !! id = Some row /\ ob_Payload row' = ob_Payload row.
Proof.
  intros Hm Hr. destruct (Hm id) as [E|[_ E]]; rewrite E in Hr; [by exists row'|]. destruct (tb_outbox t !! id) as [row|]; [|done]. cbn in Hr. simplify_eq. by exists row.
Qed.

Lemma replayed_old t ids t' id : replayed (page_of t ids) t' id -> old_row t t' id.
Proof. intros [->|(row & Hin & Hacc)]; [by left|]. apply page_row in Hin as [_ Hr]. right. by exists row. Qed.

Lemma old_row_before P t t1 t' id : marks P t t1 -> old_row t1 t' id -> old_row t t' id.
Proof.
  intros Hm [->|(row & Hr & Hacc)]; [by left|]. destruct (marks_row _ _ _ _ _ Hm Hr) as (row0 & Hr0 & E). right. exists row0. split; [done|]. intros trade. rewrite <- E. apply Hacc.
Qed.

Section Page.
Context (a : N) (limit : nat) (t t1 : Tables).
Context (ids := take limit (after a t)) (Hmarks : marks (fun id => id = 0%N \/ id ∈ ids) t t1).

Lemma ids_have_rows id : id ∈ ids -> is_Some (tb_outbox t !! id).
Proof. intros Hin. apply elem_of_take in Hin as (n & Hn & _). apply list_elem_of_lookup_2, after_spec in Hn as [_ H]. by destruct (tb_outbox t !! id). Qed.

(** What is pending beyond the page is what was. *)
Lemma next_page id : id ∈ after (last_id a (page_of t ids)) t1 -> id ∈ after a t /\ id ∉ ids.
Proof.
  intros Hin. apply after_spec in Hin as [Hlt Hst]. pose proof (page_ids t ids ids_have_rows) as Ep.
  assert (Hge : forall y, y ∈ ids -> (y <= last_id a (page_of t ids))%N).
  { intros y Hy. unfold last_id. destruct (last (page_of t ids)) as [[z row]|] eqn:El; [|apply last_None in El; rewrite El in Ep; cbn in Ep; rewrite <- Ep in Hy; by apply elem_of_nil in Hy].
    cbn. apply last_Some in El as [l El]. assert (Hs : StronglySorted N.le ids).
    { unfold ids. pose proof (after_sorted a t) as Hs. rewrite <- (take_drop limit (after a t)) in Hs. by apply StronglySorted_app_1_l in Hs. }
    rewrite <- Ep, El, map_app in Hs, Hy. cbn in Hs, Hy. apply elem_of_app in Hy as [Hy|Hy]; [|by apply list_elem_of_singleton in Hy as ->].
    clear - Hs Hy. induction (map fst l) as [|q l' IH]; [by apply elem_of_nil in Hy|]. inversion Hs as [|? ? Hs' Hall]; subst.
    apply elem_of_cons in Hy as [->|Hy]; [|by apply IH]. rewrite List.Forall_forall in Hall. apply Hall, list_elem_of_In, elem_of_app. right. by left. }
  assert (Hnot : id ∉ ids) by (intros Hy; specialize (Hge id Hy); lia).
  assert (Ha : (a <= last_id a (page_of t ids))%N).
  { unfold last_id. destruct (last (page_of t ids)) as [[z row]|] eqn:El; [|done]. cbn. apply last_Some in El as [l El].
    assert (Hz : z ∈ ids) by (rewrite <- Ep, El, map_app; apply elem_of_app; right; by left). apply elem_of_take in Hz as (n & Hn & _). apply list_elem_of_lookup_2, after_spec in Hn as [Hz _]. lia. }
  split; [|done]. apply after_spec. split; [lia|]. destruct (Hmarks id) as [E|[Hp E]]; [by rewrite <- E|]. destruct Hp as [->|Hp]; [lia|done].
Qed.

Lemma beyond id : id ∈ after a t -> id ∉ ids -> id ∈ after (last_id a (page_of t ids)) t1 /\ tb_outbox t1 !! id = tb_outbox t !! id.
Proof.
  intros Hin Hnot. pose proof Hin as Hin'. apply after_spec in Hin' as [Ha Hst].
  assert (E : tb_outbox t1 !! id = tb_outbox t !! id) by (destruct (Hmarks id) as [?|[[->|Hp] _]]; [done|lia|done]). split; [|done].
  apply after_spec. rewrite E. split; [|done]. apply last_page; [apply page_ids, ids_have_rows| |done].
  intros y Hy. exact (beyond_page (after a t) limit id (after_sorted a t) (after_NoDup a t) Hin Hnot y Hy).
Qed.

Lemma fewer_pages : (length (after (last_id a (page_of t ids)) t1) + length ids <= length (after a t))%nat.
Proof.
  rewrite <- length_app. apply submseteq_length, NoDup_submseteq.
  - apply NoDup_app. split; [apply after_NoDup|]. split; [|exact (sublist_NoDup _ _ (after_NoDup a t) (sublist_take _ _))]. intros x Hx. by apply next_page in Hx as [_ ?].
  - intros x Hx. apply elem_of_app in Hx as [Hx|Hx]; [by apply next_page|]. apply elem_of_take in Hx as (n & Hn & _). by eapply list_elem_of_lookup_2.
Qed.
End Page.

(** ** The whole replay *)

Lemma base_same w w1 : w_tables w1 = w_tables w -> w_seqs w1 = w_seqs w -> base w -> base w1.
Proof. unfold base, kept. intros -> ->. done. Qed.

Lemma advances_from P w w1 w' : w_tables w1 = w_tables w -> w_seqs w1 = w_seqs w -> advances P w1 w' -> advances P w w'.
Proof. intros Et Es [H1 H2 H3 H4]. rewrite Et in H3, H4. rewrite Es in H2. by split. Qed.

Lemma page_marks t ids t' id : replayed (page_of t ids) t' id -> id = 0%N \/ id ∈ ids.
Proof. intros [->|(row & Hin & _)]; [by left|]. right. by apply page_row in Hin as [? _]. Qed.

Lemma pages_run now pageSize : (0 < pageSize)%nat -> forall fuel a result w, base w -> (length (after a (w_tables w)) < fuel)%nat ->
  exists result' err w', replay_pages fuel now pageSize a result w = (Ok (Some (result', err)), w') /\ base w' /\ advances (old_row (w_tables w) (w_tables w')) w w'
    /\ (err = None -> forall id row, id ∈ after a (w_tables w) -> tb_outbox (w_tables w) !! id = Some row -> event_accounted (w_tables w') row).
Proof.
  intros Hpos. induction fuel as [|fuel IH]; intros a result w Hw Hlen; [lia|]. cbn [replay_pages]. pose proof (find_page a pageSize w) as Hp.
  unfold mbind at 1, M_bind at 1, attempt. destruct (FindPendingAfter a pageSize w) as [r w1]. destruct Hp as (Et & Es & Hp).
  pose proof (base_same _ _ Et Es Hw) as Hw1. assert (Hnone : forall P, advances P w w1) by (intros P; apply (advances_from _ _ w1 _ Et Es), advances_refl, Hw1).
  destruct r as [rows|e]; [|eexists _, _, w1; split; [reflexivity|]; by split_and!]. specialize (Hp rows eq_refl). set (t := w_tables w) in *. set (ids := take pageSize (after a t)) in *.
  destruct rows as [|row0 rows0].
  { eexists _, _, w1. split; [reflexivity|]. split_and!; try done. intros _ id row Hin Hrow. pose proof (page_ids t ids (ids_have_rows a pageSize t)) as Ep. rewrite <- Hp in Ep.
    unfold ids in Ep. destruct pageSize; [lia|]. by destruct (after a t); [apply elem_of_nil in Hin|]. }
  cbv beta match. set (rows := row0 :: rows0) in *. clearbody rows. clear row0 rows0. destruct (replay_rows_run now rows result w1 Hw1) as (result' & err & w2 & E & Hw2 & Ha & Hall).
  assert (Ha' : advances (replayed (page_of t ids) (w_tables w2)) w w2) by (apply (advances_from _ _ w1 _ Et Es); by rewrite <- Hp).
  assert (Hon : err = None -> forall id row, id ∈ ids -> tb_outbox t !! id = Some row -> event_accounted (w_tables w2) row).
  { intros Hn id row Hin Hrow. apply (Hall Hn id). rewrite Hp. by apply page_row. }
  assert (Elen : length rows = length ids) by (rewrite <- (page_ids t ids (ids_have_rows a pageSize t)), <- Hp; by rewrite length_map).
  assert (Hold : advances (old_row t (w_tables w2)) w w2) by (eapply advances_mono; [|exact Ha']; apply replayed_old).
  unfold mbind, M_bind. rewrite E. destruct err as [e|]; [eexists _, _, w2; split; [reflexivity|]; by split_and!|].
  destruct (Nat.ltb_spec (length rows) pageSize) as [Hlt|Hge].
  { eexists _, _, w2. split; [reflexivity|]. split_and!; [done..|]. intros _ id row Hin. apply (Hon eq_refl). unfold ids in *. rewrite length_take in Elen. rewrite take_ge; [done|lia]. }
  assert (Hmarks : marks (fun id => id = 0%N \/ id ∈ ids) t (w_tables w2)) by (eapply marks_mono; [|apply Ha']; apply page_marks).
  pose proof (fewer_pages a pageSize t (w_tables w2) Hmarks) as Hfew. cbv zeta in Hfew. fold ids in Hfew. rewrite <- Hp in Hfew.
  destruct (IH (last_id a rows) result' w2 Hw2) as (result3 & err & w3 & E3 & Hw3 & Ha3 & Hall3); [lia|].
  exists result3, err, w3. split; [done|]. split; [done|]. split.
  - eapply advances_trans; (eapply advances_mono; [|done]); intros x.
    + intros [->|(row & Hr & Hacc)]; [by left|right]. exists row. split; [done|]. intros trade Ht. by eapply accounted_grows; [apply Ha3|apply Hacc].
    + by apply (old_row_before _ _ _ _ _ Hmarks).
  - intros Hn id row Hin Hrow. destruct (decide (id ∈ ids)) as [Hi|Hi].
    + intros trade Ht. eapply accounted_grows; [apply Ha3|]. by apply (Hon eq_refl id row).
    + destruct (beyond a pageSize t (w_tables w2) Hmarks id Hin Hi) as [Hin2 Er]. cbv zeta in Hin2. fold ids in Hin2. rewrite <- Hp in Hin2. apply (Hall3 Hn id); [done|]. by rewrite Er.
Qed.

(** A pending event that is settled, or on record as failed. *)
Definition caught_up (t t' : Tables) : Prop :=
  forall id row trade, (0 < id)%N -> tb_outbox t !! id = Some row -> ob_Status row = OutboxPending -> ob_Payload row = Some (EvTrade trade) -> accounted t' trade.

(** Rows are marked, and nothing else about them changes. *)
Definition marked_only (t t' : Tables) : Prop :=
  forall id, tb_outbox t' !! id = tb_outbox t !! id
    \/ (exists row, tb_outbox t !! id = Some row /\ tb_outbox t' !! id = Some (processed row) /\ forall trade, (0 < id)%N -> ob_Payload row = Some (EvTrade trade) -> accounted t' trade).

(** C13 Recovery of the outbox: whatever statements fail, the replay of the pending
    rows at start-up ends within the fuel its number of rows gives, page by page;
    when it ends without an error every committed trade that was pending is settled
    or on record as failed, and whether it does or not, a row it has marked
    PROCESSED carries no trade that is neither: nothing is marked before it is
    accounted for, and no settled trade and no failure record is lost. *)
Theorem replay_accounts now pageSize w : (0 < pageSize)%nat -> base w ->
  exists result err w', Replay now pageSize w = (Ok (Some (result, err)), w') /\ base w' /\ grows (w_tables w) (w_tables w')
    /\ marked_only (w_tables w) (w_tables w') /\ (err = None -> caught_up (w_tables w) (w_tables w')).
Proof.
  intros Hpos Hw. unfold Replay. destruct (pages_run now pageSize Hpos (S (size (tb_outbox (w_tables w)))) 0 (mkReplayResult 0 0 0 0) w Hw) as (result & err & w' & E & Hw' & Ha & Hall).
  { apply Nat.lt_succ_r. rewrite <- size_dom. unfold size, set_size. cbn. unfold after, sort_ids. rewrite merge_sort_Permutation. apply length_filter. }
  exists result, err, w'. split; [done|]. split; [done|]. split; [apply Ha|]. split.
  - intros id. destruct (ad_marks _ _ _ Ha id) as [Hid|[Ho Hid]]; [by left|]. destruct (tb_outbox (w_tables w) !! id) as [row|] eqn:Er; [|by left].
    right. exists row. split; [done|]. split; [done|]. intros trade Hlt Hp. destruct Ho as [->|(row' & Hr & Hacc)]; [lia|]. simplify_eq. by apply Hacc.
  - intros Hn id row trade Hlt Hr Hst Hp. apply (Hall Hn id row); [|done|done]. apply after_spec. split; [lia|]. rewrite Hr. cbn. by rewrite Hst.
Qed.
End ReplayProofs.

(** ** Concrete runs of the outbox writer and of the replay *)

Module OutboxFixtures.
Import FixedPoint ServiceFixtures PipelineFixtures ProcessingFixtures.

(** The decimals of a payload read back as they were written. *)
#[export] Instance faithful_json : PayloadJSON := fun event => event.

(** ** The writer *)

Definition commanded : ExecutionEvent := EvOrderCancelled (mkCancelled 4 1 "BTC" OrderSideBuy "engine-1-1:3").
Definition command4 : CancelCommandRow := mkCancelCommand 4 1 7 "BTC" OrderSideBuy (NewFromInt 9000) CommandPending 0 "".
Definition commands : Tables := empty_tables <| tb_commands := {[ 4%N := command4 ]} |>.

(** The first INSERT fails, the second attempt commits. *)
Definition unsteady : World := mkWorld commands ∅ [Fine; Fails "40001"].

Lemma write_ahead_witness : exists forwarded w', flushAndForward 3 [EvTrade trade1; commanded] unsteady = (Some forwarded, w')
    /\ map oe_Event forwarded = [EvTrade trade1; commanded] /\ StronglySorted N.lt (map oe_OutboxID forwarded)
    /\ Forall (in_outbox commands (w_tables w')) forwarded
    /\ (forall id row, tb_outbox commands !! id = Some row -> tb_outbox (w_tables w') !! id = Some row)
    /\ (forall id, id ∈ command_ids [EvTrade trade1; commanded] -> cmd_Status <$> tb_commands (w_tables w') !! id = Some CommandProcessed)
    /\ w_tables w' = commands <| tb_outbox := tb_outbox (w_tables w') |> <| tb_commands := tb_commands (w_tables w') |>.
Proof.
  apply (write_ahead 3 [EvTrade trade1; commanded] unsteady).
  - exact (map_Forall_empty _).
  - intros H. by repeat (apply elem_of_cons in H as [H|H]; [discriminate|]); apply elem_of_nil in H.
  - cbn. lia.
  - unfold fits, maxStatementParameters. cbn. lia.
  - vm_compute. reflexivity.
Defined.

Example unsteady_ids : option_map (map oe_OutboxID) (flushAndForward 3 [EvTrade trade1; commanded] unsteady).1 = Some [1%N; 2%N].
Proof. vm_compute. reflexivity. Qed.

Definition unanswered : World := mkWorld empty_tables ∅ [Fine; Fine; Lost].

Lemma lost_commit_stops_writer_witness : exists w' id, flushAndForward 1000 [EvTrade trade1] unanswered = (None, w') /\ w_faults w' = []
    /\ tb_outbox empty_tables !! id = None /\ tb_outbox (w_tables w') !! id = Some (NewTradeOutboxEvent (EvTrade trade1)).
Proof.
  apply (lost_commit_stops_writer 999 (EvTrade trade1) unanswered); [exact (map_Forall_empty _)|reflexivity|reflexivity].
Defined.

(** ** The replay *)

Definition unfinished : World :=
  mkWorld ((w_tables ordered2) <| tb_outbox := {[ 1%N := NewTradeOutboxEvent (EvTrade trade1); 2%N := NewTradeOutboxEvent (EvTrade trade2) ]} |>) (w_seqs ordered2) [].

(** The rows of the outbox are not part of it. *)
Lemma base_outbox w rows fs : base w -> base (mkWorld ((w_tables w) <| tb_outbox := rows |>) (w_seqs w) fs).
Proof.
  intros [[Hok Htb] [Hc Hx]]. split; [split|split]; cbn [w_tables w_seqs].
  - by apply (store_ok_same (w_tables w)).
  - by apply (table_ok_same failed_settlements (w_tables w)).
  - by apply (table_ok_same failed_completions (w_tables w)).
  - by apply (table_ok_same failed_cancellations (w_tables w)).
Qed.

Lemma base_unfinished : base unfinished.
Proof.
  apply base_outbox. split; [exact kept_ordered2|]. split; apply empty_table; [exact no_failed_completions|exact no_failed_cancellations].
Qed.

Lemma replay_accounts_witness : exists result err w', Replay 0 1 unfinished = (Ok (Some (result, err)), w') /\ base w'
    /\ grows (w_tables unfinished) (w_tables w') /\ marked_only (w_tables unfinished) (w_tables w') /\ (err = None -> caught_up (w_tables unfinished) (w_tables w')).
Proof. apply (replay_accounts 0 1 unfinished); [lia|exact base_unfinished]. Defined.

(** Both rows are replayed, a page each. *)
Example replayed_rows : (Replay 0 1 unfinished).1 = Ok (Some (mkReplayResult 2 0 0 0, None)).
Proof. vm_compute. reflexivity. Qed.
End OutboxFixtures.
