(* ===== verification/Reconciliation.v ===== *)
(** * Reconciliation (service/reconciliation_worker.go, repository/ledger_reconciliation_repository.go, repository/reconciliation_repository.go)

    The worker adds the ledger up again: journals whose postings do not cancel,
    cached balances that differ from their postings, assets that do not add up to
    zero, accounts below zero that must not be, and market orders left open.  It
    only reports.  Three of the queries are read in pages; the loop over them takes
    as fuel the number of rows the query goes through and one, and returns [None]
    if that does not suffice.  Gauges and logs are left out. *)
From S2P Require Import Prelude Decimal Model Errors Database Ledger Queries Processing.
From Stdlib Require Import Lia Sorted.

Section Reconciliation.
Context {DL : DecimalLib}.

(** ** The queries *)

Record UnbalancedJournalRow := mkUnbalanced { uj_JournalID : N; uj_Asset : string; uj_Sum : decimal }.
Record BalanceDriftRow := mkDrift { dr_AccountID : N; dr_Cached : decimal; dr_Computed : decimal }.
Record AssetTotalRow := mkAssetTotal { at_Asset : string; at_Sum : decimal }.
Record NegativeAccountRow := mkNegative {
  na_AccountID : N; na_AccountType : string; na_OwnerUserID : option N; na_Asset : string; na_Balance : decimal }.
Record StaleMarketOrderRow := mkStale { so_OrderID : N; so_UserID : N; so_CoinSymbol : string; so_Status : OrderStatus; so_CreatedAt : Z }.

(** SUM(amount), 0 for no rows. *)
Definition sum_amounts (ps : list Posting) : decimal := foldr (fun p total => Add (p_Amount p) total) Zero ps.

(** GROUP BY asset HAVING SUM(amount) <> 0 ORDER BY asset *)
Definition assets_of (ps : list Posting) : list string := merge_sort String.le (remove_dups (map p_Asset ps)).
Definition unbalanced_assets (ps : list Posting) : list AssetTotalRow :=
  filter (fun row => IsZero (at_Sum row) = false)
    (map (fun asset => mkAssetTotal asset (sum_amounts (filter (fun p => p_Asset p = asset) ps))) (assets_of ps)).

Definition journal_rows (ps : list Posting) (journal : N) : list UnbalancedJournalRow :=
  map (fun row => mkUnbalanced journal (at_Asset row) (at_Sum row)) (unbalanced_assets (filter (fun p => p_JournalID p = journal) ps)).

(** The rows of a query by the key that its pages go by, in its order; a key has a
    row at least. *)
Definition keyed {A} (rows : N -> list A) (keys : list N) : list (N * list A) :=
  filter (fun group => group.2 <> []) (map (fun key => (key, rows key)) (sort_ids (remove_dups keys))).

(** The groups of the first [limit] keys after one. *)
Definition page_after {A} (after : N) (limit : nat) (groups : list (N * list A)) : list A :=
  concat (map snd (take limit (filter (fun group => (after < group.1)%N) groups))).

Definition unbalanced_groups (t : Tables) : list (N * list UnbalancedJournalRow) :=
  keyed (journal_rows (tb_postings t)) (map p_JournalID (tb_postings t)).
Definition CheckUnbalancedJournals (afterJournalID : N) (limit : nat) : M (list UnbalancedJournalRow) :=
  query (fun t => page_after afterJournalID limit (unbalanced_groups t)).

Definition accounts_with_id (t : Tables) (id : N) : list Account := filter (fun a => a_ID a = id) (tb_accounts t).

Definition drift_of (t : Tables) (a : Account) : option BalanceDriftRow :=
  let cached := default Zero (b_Balance <$> tb_balances t !! a_ID a) in
  let computed := sum_amounts (filter (fun p => p_AccountID p = a_ID a) (tb_postings t)) in
  if Equal cached computed then None else Some (mkDrift (a_ID a) cached computed).
Definition drift_groups (t : Tables) : list (N * list BalanceDriftRow) :=
  keyed (fun id => omap (drift_of t) (accounts_with_id t id)) (map a_ID (tb_accounts t)).
Definition CheckBalanceCacheDrift (afterAccountID : N) (limit : nat) : M (list BalanceDriftRow) :=
  query (fun t => page_after afterAccountID limit (drift_groups t)).

Definition CheckAssetTotals : M (list AssetTotalRow) := query (fun t => unbalanced_assets (tb_postings t)).

Definition negative_of (t : Tables) (a : Account) : option NegativeAccountRow :=
  match tb_balances t !! a_ID a with
  | Some b =>
      if negb (a_AllowsNegative a) && IsNegative (b_Balance b)
      then Some (mkNegative (a_ID a) (a_AccountType a) (a_OwnerUserID a) (a_Asset a) (b_Balance b)) else None
  | None => None
  end.
Definition negative_groups (t : Tables) : list (N * list NegativeAccountRow) :=
  keyed (fun id => omap (negative_of t) (accounts_with_id t id)) (map a_ID (tb_accounts t)).
Definition CheckNegativeAccounts (afterAccountID : N) (limit : nat) : M (list NegativeAccountRow) :=
  query (fun t => page_after afterAccountID limit (negative_groups t)).

Definition stale_row (limit : Z) (o : OrderRow) : Prop := r_OrderType o = OrderTypeMarket /\ open_row o /\ (r_CreatedAt o < limit)%Z.
#[export] Instance stale_row_dec limit o : Decision (stale_row limit o).
Proof. unfold stale_row. apply _. Defined.

(** Without ORDER BY: in the order of the table. *)
Definition CheckStaleMarketOrders (now staleAfter : Z) : M (list StaleMarketOrderRow) :=
  query (fun t => map (fun o => mkStale (r_ID o) (r_UserID o) (r_CoinSymbol o) (r_Status o) (r_CreatedAt o)) (filter (stale_row (now - staleAfter)) (all_orders t))).

Definition create_violation (v : ReconciliationViolation) : M unit :=
  id ← nextval "reconciliation_violations";
  modify_db (fun t => t <| tb_violations := tb_violations t ++ [mkViolation id (v_CheckName v) (v_SubjectKey v) (v_Detail v) (v_DetectedAt v)] |>).
(** One INSERT with four parameters per row. *)
Definition violation_parameters (violations : list ReconciliationViolation) : Z := 4 * Z.of_nat (length violations).
Definition CreateViolations (violations : list ReconciliationViolation) : M unit :=
  match violations with
  | [] => mret tt
  | _ => transaction (_ ← stmt_with (violation_parameters violations); for_each create_violation violations)
  end.

(** ** The worker *)

Definition reconciliationPageSize : nat := 500.
(** Five minutes, in nanoseconds. *)
Definition staleMarketOrderThreshold : Z := 300000000000.
Definition maxReconciliationDetailLength : nat := 2048.

Definition truncateReconciliationDetail (s : string) : string :=
  if (String.length s <=? maxReconciliationDetailLength)%nat then s else String.substring 0 maxReconciliationDetailLength s.

Definition violation (now : Z) (check subject detail : string) : ReconciliationViolation :=
  mkViolation 0 check subject (truncateReconciliationDetail detail) now.

(** The keys of a page, each counted once: rows of a key are next to each other. *)
Fixpoint count_keys {A} (key : A -> N) (last : option N) (rows : list A) : nat :=
  match rows with
  | [] => 0
  | row :: rows => (if decide (last = Some (key row)) then 0 else 1) + count_keys key (Some (key row)) rows
  end.

(** The loop over the pages of a check: the rows of all pages, or the error of the
    query that ends the check. *)
Fixpoint check_pages {A} (key : A -> N) (count : list A -> nat) (find : N -> nat -> M (list A)) (fuel : nat) (after : N) : M (option (list A)) :=
  match fuel with
  | O => mret None
  | S fuel =>
      rows ← find after reconciliationPageSize;
      match last rows with
      | None => mret (Some [])
      | Some row =>
          if (count rows <? reconciliationPageSize)%nat then mret (Some rows)
          else more ← check_pages key count find fuel (key row); mret (app rows <$> more)
      end
  end.

Definition persist (violations : list ReconciliationViolation) : M unit :=
  match violations with [] => mret tt | _ => _ ← attempt (CreateViolations violations); mret tt end.

(** What a check does with the rows it found. *)
Definition report {A} (describe : A -> ReconciliationViolation) (find : M (option (list A))) : M (option unit) :=
  rows ← attempt find;
  match rows with
  | Err _ => mret (Some tt)
  | Ok None => mret None
  | Ok (Some rows) => _ ← persist (map describe rows); mret (Some tt)
  end.

Definition unbalanced_violation (now : Z) (row : UnbalancedJournalRow) : ReconciliationViolation :=
  violation now "unbalanced_journal" ("journal:" +:+ pretty (uj_JournalID row))
    ("journal_id=" +:+ pretty (uj_JournalID row) +:+ " asset=" +:+ uj_Asset row +:+ " sum=" +:+ DString (uj_Sum row)).
Definition runUnbalancedJournalCheck (now : Z) : M (option unit) := fun w =>
  report (unbalanced_violation now) (check_pages uj_JournalID (count_keys uj_JournalID None) CheckUnbalancedJournals (S (length (tb_postings (w_tables w)))) 0) w.

Definition drift_violation (now : Z) (row : BalanceDriftRow) : ReconciliationViolation :=
  violation now "balance_cache_drift" ("account:" +:+ pretty (dr_AccountID row))
    ("account_id=" +:+ pretty (dr_AccountID row) +:+ " cached=" +:+ DString (dr_Cached row) +:+ " computed=" +:+ DString (dr_Computed row)).
Definition runBalanceCacheDriftCheck (now : Z) : M (option unit) := fun w =>
  report (drift_violation now) (check_pages dr_AccountID (@length _) CheckBalanceCacheDrift (S (length (tb_accounts (w_tables w)))) 0) w.

Definition asset_violation (now : Z) (row : AssetTotalRow) : ReconciliationViolation :=
  violation now "asset_totals" ("asset:" +:+ at_Asset row) ("asset=" +:+ at_Asset row +:+ " sum=" +:+ DString (at_Sum row)).
Definition runAssetTotalsCheck (now : Z) : M (option unit) :=
  report (asset_violation now) (rows ← CheckAssetTotals; mret (Some rows)).

Definition negative_violation (now : Z) (row : NegativeAccountRow) : ReconciliationViolation :=
  let owner := match na_OwnerUserID row with Some id => pretty id | None => "system" end in
  violation now "negative_account" ("account:" +:+ pretty (na_AccountID row))
    ("account_id=" +:+ pretty (na_AccountID row) +:+ " account_type=" +:+ na_AccountType row +:+ " owner=" +:+ owner
     +:+ " asset=" +:+ na_Asset row +:+ " balance=" +:+ DString (na_Balance row)).
Definition runNegativeAccountCheck (now : Z) : M (option unit) := fun w =>
  report (negative_violation now) (check_pages na_AccountID (@length _) CheckNegativeAccounts (S (length (tb_accounts (w_tables w)))) 0) w.

Definition status_text (status : OrderStatus) : string :=
  match status with
  | OrderStatusPending => "PENDING" | OrderStatusPartial => "PARTIAL" | OrderStatusFilled => "FILLED"
  | OrderStatusCancelled => "CANCELLED" | OrderStatusRejected => "REJECTED" | OrderStatusOther s => s
  end.

(** [Format(time.RFC3339)] in the time zone of the server. *)
Context (rfc3339 : Z -> string).
Definition staleMarketOrderViolationDetail (row : StaleMarketOrderRow) : string :=
  "order_id=" +:+ pretty (so_OrderID row) +:+ " user_id=" +:+ pretty (so_UserID row) +:+ " coin_symbol=" +:+ so_CoinSymbol row
  +:+ " status=" +:+ status_text (so_Status row) +:+ " created_at=" +:+ rfc3339 (so_CreatedAt row).
Definition stale_violation (now : Z) (row : StaleMarketOrderRow) : ReconciliationViolation :=
  violation now "stale_market_order" ("order:" +:+ pretty (so_OrderID row)) (staleMarketOrderViolationDetail row).
Definition runStaleMarketOrderCheck (now : Z) : M (option unit) :=
  report (stale_violation now) (rows ← CheckStaleMarketOrders now staleMarketOrderThreshold; mret (Some rows)).

Definition RunOnce (now : Z) : M unit :=
  _ ← runUnbalancedJournalCheck now;
  _ ← runBalanceCacheDriftCheck now;
  _ ← runAssetTotalsCheck now;
  _ ← runNegativeAccountCheck now;
  _ ← runStaleMarketOrderCheck now;
  mret tt.
End Reconciliation.
