(* ===== verification/ReconciliationProofs.v ===== *)
(** * Reconciliation finds what is broken, as far as one INSERT can carry it, and nothing in a sound ledger *)
From S2P Require Import Prelude Decimal Model Errors Fee Matching Database Ledger LedgerInv LedgerSpec LedgerTheorems Sha256 OrderLedger Queries Settlement TradePlan Store HoldCoordinator OrderService Transfers TransferInv LockedFunds OrderProofs Services ServiceFixtures Processing Reconciliation.
From Stdlib Require Import Lia Sorted QArith.

Section Pages.
Context {DL : DecimalLib} {A : Type} (key : A -> N) (count : list A -> nat).
Context (groups : Tables -> list (N * list A)).
Abbreviation group := (N * list A)%type.

(** What the pages rely on: keys grow, every key has rows, and counting works. *)
Record well_paged (gs : list group) : Prop := {
  wp_sorted : StronglySorted N.lt (map fst gs);
  wp_rows : Forall (fun g => g.2 <> [] /\ Forall (fun row => key row = g.1) g.2) gs }.

Lemma well_paged_sub gs gs' : sublist gs' gs -> well_paged gs -> well_paged gs'.
Proof.
  intros Hs [H1 H2]. split.
  - clear H2. induction Hs as [|g l k Hs IH|g l k Hs IH]; cbn in *; [done|..]; inversion H1 as [|? ? Hk Hall]; subst; [|by apply IH].
    constructor; [by apply IH|]. rewrite Forall_forall in Hall |- *. intros x Hx. apply Hall. apply list_elem_of_fmap in Hx as (y & -> & Hy).
    apply list_elem_of_fmap_2. by eapply elem_of_submseteq; [|apply sublist_submseteq].
  - rewrite Forall_forall in H2 |- *. intros g Hg. apply H2. by eapply elem_of_submseteq; [|apply sublist_submseteq].
Qed.

(** The groups after a key. *)
Definition beyond_key (after : N) (gs : list group) : list group := filter (fun g => (after < g.1)%N) gs.

Lemma beyond_all after (gs : list group) : Forall (fun g => (after < g.1)%N) gs -> beyond_key after gs = gs.
Proof. induction 1 as [|g gs Hg _ IH]; [done|]. unfold beyond_key. rewrite filter_cons_True by done. by f_equal. Qed.

Lemma beyond_beyond a b (gs : list group) : (a <= b)%N -> beyond_key b (beyond_key a gs) = beyond_key b gs.
Proof.
  intros Hab. unfold beyond_key. rewrite list_filter_filter. apply list_filter_iff. intros g. split; [tauto|]. intros H. split; [done|lia].
Qed.

Lemma beyond_last (gs : list group) n g : StronglySorted N.lt (map fst gs) -> last (take n gs) = Some g -> beyond_key g.1 gs = drop n gs.
Proof.
  revert n. induction gs as [|h gs IH]; intros n Hs Hl; [by destruct n|]. destruct n as [|n]; [done|]. cbn in Hs. inversion Hs as [|? ? Hs' Hall]; subst.
  cbn [take drop] in *. unfold beyond_key. destruct (take n gs) as [|k l] eqn:Et.
  - cbn in Hl. injection Hl as <-. rewrite filter_cons_False by lia. assert (drop n gs = gs) as ->.
    { destruct gs as [|x gs], n as [|n]; try done. } apply beyond_all. clear -Hall. induction gs as [|x gs IH]; [done|]. inversion Hall; subst. by constructor; [|apply IH].
  - rewrite last_cons_cons in Hl. rewrite <- Et in Hl. rewrite filter_cons_False; [by apply IH|].
    apply last_Some in Hl as [l' El]. assert (Hin : g ∈ take n gs) by (rewrite El; apply elem_of_app; right; by left).
    apply elem_of_take in Hin as (i & Hin & _). apply list_elem_of_lookup_2 in Hin.
    rewrite List.Forall_forall in Hall. assert (h.1 < g.1)%N; [|lia]. apply Hall, list_elem_of_In, list_elem_of_fmap_2, Hin.
Qed.

Lemma last_of_groups (gs : list group) row : well_paged gs -> last (concat (map snd gs)) = Some row -> exists g, last gs = Some g /\ key row = g.1.
Proof.
  induction gs as [|g gs IH]; intros Hw Hl; [done|]. destruct Hw as [Hs Hr]. inversion Hr as [|? ? [Hne Hk] Hr']; subst. cbn in Hl. inversion Hs; subst. 
  destruct gs as [|g' gs].
  - cbn in Hl. rewrite app_nil_r in Hl. exists g. split; [done|]. apply last_Some in Hl as [l El]. rewrite El in Hk. apply Forall_app in Hk as [_ Hk]. by inversion Hk.
  - rewrite last_app in Hl. destruct (last (concat (map snd (g' :: gs)))) as [row'|] eqn:El'.
    + injection Hl as ->. destruct IH as (h & Hh & E); [by split|done|]. exists h. by rewrite last_cons_cons.
    + apply last_None in El'. inversion Hr' as [|? ? [Hne' _] _]; subst. cbn in El'. apply app_eq_nil in El' as [? _]. done.
Qed.

Lemma no_groups (gs : list group) : well_paged gs -> concat (map snd gs) = [] -> gs = [].
Proof. intros [_ Hr] E. destruct gs as [|g gs]; [done|]. inversion Hr as [|? ? [Hne _] _]; subst. cbn in E. by apply app_eq_nil in E as [? _]. Qed.

Context (find : N -> nat -> M (list A)) (Hfind : find = fun after limit => query (fun t => page_after after limit (groups t))).

Lemma page_is after limit t : page_after after limit (groups t) = concat (map snd (take limit (beyond_key after (groups t)))).
Proof. done. Qed.

(** The pages together are all the rows after a key; the tables stay as they are,
    and without faults there is no error. *)
Definition reads_all (rows : list A) (r : result error (option (list A))) (w w' : World) : Prop :=
  w_tables w' = w_tables w /\ w_seqs w' = w_seqs w /\ (w_faults w = [] -> w' = w /\ r = Ok (Some rows))
  /\ match r with Ok (Some found) => found = rows | Ok None => False | Err _ => True end.

Lemma check_pages_run t : well_paged (groups t) ->
  (forall gs, sublist gs (groups t) -> count (concat (map snd gs)) = length gs) ->
  forall fuel after w, w_tables w = t -> (length (beyond_key after (groups t)) < fuel)%nat ->
  let '(r, w') := check_pages key count find fuel after w in reads_all (concat (map snd (beyond_key after (groups t)))) r w w'.
Proof.
  intros Hw Hc. induction fuel as [|fuel IH]; intros after w Ht Hlen; [lia|]. cbn [check_pages]. rewrite Hfind. set (G := beyond_key after (groups t)).
  assert (HG : sublist G (groups t)) by apply sublist_filter. assert (HwG : well_paged G) by (by eapply well_paged_sub).
  set (page := take reconciliationPageSize G). assert (Hsub : sublist page (groups t)) by (etrans; [apply sublist_take|done]).
  assert (Hwp : well_paged page) by (by eapply well_paged_sub).
  unfold mbind at 1, M_bind at 1. pose proof (query_run (fun t => page_after after reconciliationPageSize (groups t)) w) as Hq.
  destruct (query _ w) as [[rows|e] w1]; destruct Hq as (Et & Es & Hf & Hrows).
  2: { split_and!; try done. intros H. by destruct (Hf H). }
  rewrite Ht, page_is in Hrows. fold G page in Hrows. destruct (last rows) as [row|] eqn:El.
  2: { apply last_None in El. rewrite El in Hrows. symmetry in Hrows. pose proof (no_groups _ Hwp Hrows) as Ep.
       assert (EG : G = []) by (unfold page in Ep; unfold reconciliationPageSize in Ep; by destruct G). rewrite EG. split_and!; try done. intros H. by destruct (Hf H). }
  pose proof (Hc page Hsub) as Hcount. rewrite <- Hrows in Hcount.
  destruct (Nat.ltb_spec (count rows) reconciliationPageSize) as [Hlt|Hge].
  { assert (Ep : page = G) by (apply take_ge; unfold page in Hcount; rewrite length_take in Hcount; lia). rewrite Ep in Hrows. rewrite <- Hrows. split_and!; try done. intros H. by destruct (Hf H). }
  rewrite Hrows in El. destruct (last_of_groups _ _ Hwp El) as (g & Hg & Hk).
  assert (Hgt : (after < g.1)%N).
  { apply last_Some in Hg as [l Eg]. assert (Hin : g ∈ page) by (rewrite Eg; apply elem_of_app; right; by left). apply elem_of_take in Hin as (i & Hin & _).
    apply list_elem_of_lookup_2, list_elem_of_filter in Hin. tauto. }
  assert (Eb : beyond_key (key row) (groups t) = drop reconciliationPageSize G).
  { rewrite Hk, <- (beyond_beyond after g.1) by lia. apply (beyond_last G); [apply HwG|done]. }
  specialize (IH (key row) w1). rewrite Eb, Et in IH. unfold mbind, M_bind.
  assert (Hdrop : (length (drop reconciliationPageSize G) < fuel)%nat).
  { rewrite length_drop. unfold page in Hcount. rewrite length_take in Hcount. fold G in Hlen. unfold reconciliationPageSize in *. lia. }
  specialize (IH Ht Hdrop). rewrite Hfind in IH. destruct (check_pages _ _ _ _ _ w1) as [[[more|]|e] w2]; destruct IH as (E1 & E2 & E3 & E4); try done.
  - split; [by rewrite E1|]. split; [by rewrite E2|]. assert (Eall : rows ++ more = concat (map snd G)) by (rewrite Hrows, E4, <- concat_app, <- map_app; unfold page; by rewrite take_drop).
    split; [|done]. intros H. destruct (Hf H) as [-> _]. destruct (E3 H) as [-> _]. split; [done|]. cbn. by rewrite Eall.
  - split; [by rewrite E1|]. split; [by rewrite E2|]. split; [|done]. intros H. destruct (Hf H) as [-> _]. by destruct (E3 H).
Qed.
End Pages.

(** ** Groups of a query *)

Section Keyed.
Context {A : Type} (key : A -> N) (rows : N -> list A) (keys : list N).
Context (Hkey : forall k row, row ∈ rows k -> key row = k).

Lemma sorted_strict (l : list N) : StronglySorted N.le l -> NoDup l -> StronglySorted N.lt l.
Proof.
  induction 1 as [|x l Hs IH Hall]; intros Hnd; [constructor|]. apply NoDup_cons in Hnd as [Hx Hnd]. constructor; [by apply IH|].
  apply List.Forall_forall. intros y Hy. rewrite List.Forall_forall in Hall. specialize (Hall y Hy). apply list_elem_of_In in Hy. assert (x <> y) by (by intros ->). lia.
Qed.

Lemma ids_strict : StronglySorted N.lt (sort_ids (remove_dups keys)).
Proof.
  unfold sort_ids. apply sorted_strict; [apply (StronglySorted_merge_sort N.le)|]. rewrite merge_sort_Permutation. apply NoDup_remove_dups.
Qed.

Lemma keyed_paged : well_paged key (keyed rows keys).
Proof.
  assert (H : well_paged key (filter (fun g => g.2 <> []) (map (fun k => (k, rows k)) (sort_ids (remove_dups keys))))); [|done].
  pose proof ids_strict as Hs. induction (sort_ids (remove_dups keys)) as [|k l IH]; [split; constructor|]. inversion Hs as [|? ? Hs' Hall]; subst.
  destruct (IH Hs') as [H1 H2]. cbn [map]. rewrite filter_cons. case_decide as Hne; [|done]. split.
  - cbn. constructor; [done|]. rewrite List.Forall_forall in Hall |- *. intros x Hx. apply Hall. apply list_elem_of_In, list_elem_of_fmap in Hx as (g & -> & Hg).
    apply list_elem_of_filter in Hg as [_ Hg]. apply list_elem_of_fmap in Hg as (k' & -> & Hk'). by apply list_elem_of_In.
  - constructor; [|done]. split; [done|]. apply Forall_forall. intros row Hrow. by apply Hkey.
Qed.

Lemma keyed_length : (length (keyed rows keys) <= length keys)%nat.
Proof.
  unfold keyed. etrans; [apply length_filter|]. rewrite length_map. unfold sort_ids. rewrite merge_sort_Permutation. apply submseteq_length, NoDup_submseteq; [apply NoDup_remove_dups|]. intros x. by rewrite elem_of_remove_dups.
Qed.

Lemma elem_of_keyed row : row ∈ concat (map snd (keyed rows keys)) <-> exists k, k ∈ keys /\ row ∈ rows k.
Proof.
  rewrite list_elem_of_In, in_concat. split.
  - intros (l & Hl & Hrow). apply list_elem_of_In, list_elem_of_fmap in Hl as ([k l'] & -> & Hg). apply list_elem_of_filter in Hg as [_ Hg].
    apply list_elem_of_fmap in Hg as (k' & [= -> ->] & Hk). unfold sort_ids in Hk. rewrite merge_sort_Permutation, elem_of_remove_dups in Hk. exists k'. split; [done|]. by apply list_elem_of_In.
  - intros (k & Hk & Hrow). exists (rows k). split; [|by apply list_elem_of_In]. apply list_elem_of_In, (list_elem_of_fmap_2 snd _ (k, rows k)), list_elem_of_filter. split; [intros E; cbn in E; rewrite E in Hrow; by apply elem_of_nil in Hrow|].
    apply (list_elem_of_fmap_2 (fun k => (k, rows k))). unfold sort_ids. by rewrite merge_sort_Permutation, elem_of_remove_dups.
Qed.
End Keyed.

Lemma all_beyond_zero {A} (gs : list (N * list A)) : Forall (fun g => (0 < g.1)%N) gs -> beyond_key 0 gs = gs.
Proof. apply beyond_all. Qed.

(** *** Counting *)

Lemma count_keys_same {A} (key : A -> N) k l rest : Forall (fun row => key row = k) l -> count_keys key (Some k) (l ++ rest) = count_keys key (Some k) rest.
Proof. induction 1 as [|row l Hk _ IH]; [done|]. cbn [app count_keys]. rewrite Hk. destruct (decide (Some k = Some k)); [exact IH|done]. Qed.

Lemma count_groups {A} (key : A -> N) (gs : list (N * list A)) last : well_paged key gs ->
  (forall k, last = Some k -> Forall (fun g => (k < g.1)%N) gs) -> count_keys key last (concat (map snd gs)) = length gs.
Proof.
  revert last. induction gs as [|[k l] gs IH]; intros last [Hs Hr] Hlast; [done|]. cbn in Hs. inversion Hs as [|? ? Hs' Hall]; subst. inversion Hr as [|? ? [Hne Hk] Hr']; subst. cbn in Hne, Hk.
  destruct l as [|row l]; [done|]. inversion Hk as [|? ? Hrow Hk']; subst. cbn [map snd concat app count_keys length]. rewrite count_keys_same by done. destruct (decide _) as [E|_].
  - specialize (Hlast _ E). inversion Hlast; subst. cbn in *. lia.
  - rewrite IH; [done|by split|]. intros k [= <-]. clear -Hall. induction gs as [|g gs IH]; [done|]. inversion Hall; subst. by constructor; [|apply IH].
Qed.

Lemma count_singles {A} (gs : list (N * list A)) : Forall (fun g => length g.2 = 1%nat) gs -> length (concat (map snd gs)) = length gs.
Proof. induction 1 as [|g gs Hg _ IH]; [done|]. cbn. by rewrite length_app, Hg, IH. Qed.

(** ** Reports *)

Section Reports.
Context {DL : DecimalLib}.

(** A violation without the id it is given. *)
Definition content (v : ReconciliationViolation) : string * string * string * Z := (v_CheckName v, v_SubjectKey v, v_Detail v, v_DetectedAt v).

Definition filed (described : list ReconciliationViolation) (t t' : Tables) : Prop :=
  exists new, t' = t <| tb_violations := tb_violations t ++ new |> /\ map content new = map content described.

Lemma filed_nothing t : filed [] t t.
Proof. exists []. split; [|done]. rewrite app_nil_r. by destruct t. Qed.

Lemma filed_app l k t t1 t' : filed l t t1 -> filed k t1 t' -> filed (l ++ k) t t'.
Proof. intros (n1 & -> & E1) (n2 & -> & E2). exists (n1 ++ n2). split; [cbn; by rewrite app_assoc|]. by rewrite !map_app, E1, E2. Qed.

Lemma create_all l : forall t s fs, exists t' s', for_each create_violation l (mkWorld t s fs) = (Ok tt, mkWorld t' s' fs) /\ filed l t t'.
Proof.
  induction l as [|v l IH]; intros t s fs; [exists t, s; split; [done|apply filed_nothing]|].
  set (id := (seq_value s "reconciliation_violations" + 1)%N). set (row := mkViolation id (v_CheckName v) (v_SubjectKey v) (v_Detail v) (v_DetectedAt v)).
  destruct (IH (t <| tb_violations := tb_violations t ++ [row] |>) (<["reconciliation_violations" := id]> s) fs) as (t' & s' & E & Hf).
  exists t', s'. split; [exact E|]. apply (filed_app [v] l _ _ _ (ex_intro _ [row] (conj eq_refl eq_refl)) Hf).
Qed.

(** What a report leaves: all that was found, or nothing; all of it without faults. *)
Definition reported_as (described : list ReconciliationViolation) (w w' : World) : Prop :=
  (filed described (w_tables w) (w_tables w') \/ w_tables w' = w_tables w) /\ (w_faults w = [] -> w_faults w' = [] /\ filed described (w_tables w) (w_tables w')).

(** What fits into one statement is written. *)
Definition storable (l : list ReconciliationViolation) : list ReconciliationViolation :=
  if (maxStatementParameters <? violation_parameters l)%Z then [] else l.

Lemma stores_run l w : (maxStatementParameters <? violation_parameters l)%Z = false -> l <> [] ->
  exists r w', CreateViolations l w = (r, w') /\ reported_as l w w'.
Proof.
  intros Hfit Hne. destruct l as [|v l]; [done|]. unfold CreateViolations, stmt_with. rewrite Hfit. clear Hfit Hne.
  assert (Hs : forall w1, (_ ← stmt; for_each create_violation (v :: l)) w1 = match stmt w1 with (Ok _, w2) => for_each create_violation (v :: l) w2 | (Err e, w2) => (Err e, w2) end) by done.
  destruct (transaction _ w) as [r w'] eqn:E. exists r, w'. split; [done|]. revert E.
  unfold transaction. destruct w as [t s fs]. assert (Hst : forall fs, stmt (mkWorld t s fs) = match fs with [] => (Ok tt, mkWorld t s []) | Fine :: fs => (Ok tt, mkWorld t s fs)
    | Fails c :: fs => (Err (DBError c), mkWorld t s fs) | Lost :: fs => (Err (DBError ""), mkWorld t s fs) end) by (by intros [|[] ?]).
  assert (Hno : forall r' w0, w_tables w0 = t -> (fs = [] -> False) -> (r', w0) = (r, w') -> reported_as (v :: l) (mkWorld t s fs) w').
  { intros r' w0 E Hfs [= _ <-]. split; [by right|]. intros H. by destruct (Hfs H). }
  rewrite Hst. destruct fs as [|[|c|] fs]; try by apply Hno.
  - rewrite Hs, Hst. destruct (create_all (v :: l) t s []) as (t' & s' & -> & Hf). intros [= _ <-]. split; [by left|done].
  - rewrite Hs, Hst. destruct fs as [|[|c|] fs]; try by apply Hno.
    + destruct (create_all (v :: l) t s []) as (t' & s' & -> & Hf). cbn. intros [= _ <-]. split; [by left|done].
    + destruct (create_all (v :: l) t s fs) as (t' & s' & -> & Hf). destruct fs as [|[|c|] fs]; cbn; try (by apply Hno); intros [= _ <-]; (split; [by left|done]).
Qed.

Lemma persist_violations_run l w : exists w', persist l w = (Ok tt, w') /\ reported_as (storable l) w w'.
Proof.
  destruct l as [|v l]; [exists w; split; [done|]; split; [by right|]; intros H; split; [done|apply filed_nothing]|].
  unfold persist, storable. unfold mbind at 1, M_bind at 1, attempt. destruct (_ <? _)%Z eqn:Hfit.
  - unfold CreateViolations, stmt_with. rewrite Hfit. destruct w as [t s fs]. set (body := _ ≫= _).
    pose proof (transaction_wp body (fun _ _ _ => False) (fun _ => True) t s fs) as Ht.
    destruct (transaction _ _) as [r w']. exists w'. split; [done|]. destruct Ht as (_ & Hf & Ht); [by apply wp_bind, wp_throw|].
    assert (Et : w_tables w' = t) by (destruct r as [|e]; [done|]; by destruct Ht as [[E _]|(_ & _ & _ & ?)]).
    split; [by right|]. intros E. cbn in E. split; [by apply Hf|]. cbn. rewrite Et. apply filed_nothing.
  - destruct (stores_run (v :: l) w Hfit) as (r & w' & -> & H); [done|]. by exists w'.
Qed.

Lemma report_run {A} (describe : A -> ReconciliationViolation) find rows w : (let '(r, w') := find w in reads_all rows r w w') ->
  exists w', report describe find w = (Ok (Some tt), w') /\ reported_as (storable (map describe rows)) w w'.
Proof.
  intros H. unfold report. unfold mbind at 1, M_bind at 1, attempt. destruct (find w) as [r w1]. destruct H as (Et & Es & Hf & Hr).
  destruct r as [[found|]|e]; [|done|].
  - subst found. unfold mbind, M_bind. destruct (persist_violations_run (map describe rows) w1) as (w' & E & Hrep & Hok). rewrite E. exists w'. split; [done|].
    rewrite Et in Hrep, Hok. split; [done|]. intros H. destruct (Hf H) as [-> _]. by apply Hok.
  - exists w1. split; [done|]. split; [by right|]. intros H. by destruct (Hf H).
Qed.
End Reports.

(** ** What the checks look for *)

Section Checks.
Context {DL : DecimalLib} {DLaws : DecimalLaws DL}.
Local Open Scope Q_scope.

Definition cached_balance (t : Tables) (id : N) : Q := match tb_balances t !! id with Some b => dval (b_Balance b) | None => 0 end.
Definition asset_total (t : Tables) (asset : string) : Q := sum_where (fun p => p_Asset p = asset) p_Amount (tb_postings t).

(** The faults of a database by the check and the subject that report them. *)
Inductive broken (t : Tables) (now : Z) : string -> string -> Prop :=
| broken_journal j asset : ~ journal_sum (tb_postings t) j asset == 0 -> broken t now "unbalanced_journal" ("journal:" +:+ pretty j)
| broken_cache a : a ∈ tb_accounts t -> ~ cached_balance t (a_ID a) == account_sum (tb_postings t) (a_ID a) ->
    broken t now "balance_cache_drift" ("account:" +:+ pretty (a_ID a))
| broken_total asset : ~ asset_total t asset == 0 -> broken t now "asset_totals" ("asset:" +:+ asset)
| broken_sign a b : a ∈ tb_accounts t -> a_AllowsNegative a = false -> tb_balances t !! a_ID a = Some b -> dval (b_Balance b) < 0 ->
    broken t now "negative_account" ("account:" +:+ pretty (a_ID a))
| broken_order id o : tb_orders t !! id = Some o -> stale_row (now - staleMarketOrderThreshold) o ->
    broken t now "stale_market_order" ("order:" +:+ pretty (r_ID o)).

(** The primary keys: unique and drawn from sequences. *)
Record keys_ok (t : Tables) : Prop := {
  ko_accounts : NoDup (map a_ID (tb_accounts t));
  ko_positive : Forall (fun a => (0 < a_ID a)%N) (tb_accounts t);
  ko_journals : Forall (fun p => (0 < p_JournalID p)%N) (tb_postings t) }.

Lemma sum_amounts_where (P : Posting -> Prop) `{DP : !forall p, Decision (P p)} ps : dval (sum_amounts (filter P ps)) == sum_where P p_Amount ps.
Proof.
  unfold sum_where. induction (filter P ps) as [|p l IH]; cbn [sum_amounts foldr map]; [by rewrite dval_Zero|]. rewrite dval_Add, Qsum_cons. by rewrite <- IH.
Qed.

Lemma elem_of_unbalanced ps row : row ∈ unbalanced_assets ps <->
  row = mkAssetTotal (at_Asset row) (sum_amounts (filter (fun p => p_Asset p = at_Asset row) ps)) /\ ~ sum_where (fun p => p_Asset p = at_Asset row) p_Amount ps == 0.
Proof.
  unfold unbalanced_assets. rewrite list_elem_of_filter, list_elem_of_fmap, IsZero_false. split.
  - intros [Hz (asset & -> & _)]. cbn in *. by rewrite sum_amounts_where in Hz.
  - intros [E Hz]. split; [by rewrite E; cbn [at_Sum]; rewrite sum_amounts_where|]. exists (at_Asset row). split; [done|].
    unfold assets_of. rewrite merge_sort_Permutation, elem_of_remove_dups, list_elem_of_fmap.
    destruct (decide (Exists (fun p => p_Asset p = at_Asset row) ps)) as [He|Hn]; [apply Exists_exists in He as (p & Hp & <-); by exists p|].
    destruct Hz. apply sum_where_none. intros p Hp E'. apply Hn, Exists_exists. by exists p.
Qed.

(** *** Journals *)

Lemma journal_rows_key ps j row : row ∈ journal_rows ps j -> uj_JournalID row = j.
Proof. intros H. by apply list_elem_of_fmap in H as (r & -> & _). Qed.

Lemma journal_asset_sum ps j asset : sum_where (fun p => p_Asset p = asset) p_Amount (filter (fun p => p_JournalID p = j) ps) == journal_sum ps j asset.
Proof.
  unfold journal_sum. induction ps as [|p ps IH]; [done|]. rewrite filter_cons, sum_where_cons. destruct (decide (p_JournalID p = j)) as [E|E].
  - rewrite sum_where_cons, IH. destruct (decide (p_Asset p = asset)), (decide (p_JournalID p = j /\ p_Asset p = asset)); try tauto; reflexivity.
  - rewrite IH. destruct (decide (p_JournalID p = j /\ p_Asset p = asset)); [tauto|]. lra.
Qed.

Definition journals_found (t : Tables) : list UnbalancedJournalRow := concat (map snd (unbalanced_groups t)).

Lemma journals_found_spec t now subject : (exists row, row ∈ journals_found t /\ v_SubjectKey (unbalanced_violation now row) = subject) <->
  exists j asset, ~ journal_sum (tb_postings t) j asset == 0 /\ subject = "journal:" +:+ pretty j.
Proof.
  unfold journals_found, unbalanced_groups. setoid_rewrite elem_of_keyed. split.
  - intros (row & (j & Hj & Hrow) & <-). pose proof (journal_rows_key _ _ _ Hrow) as Ek. apply list_elem_of_fmap in Hrow as (r & -> & Hr).
    apply elem_of_unbalanced in Hr as [_ Hz]. rewrite journal_asset_sum in Hz. cbn. by exists j, (at_Asset r).
  - intros (j & asset & Hz & ->). exists (mkUnbalanced j asset (sum_amounts (filter (fun p => p_Asset p = asset) (filter (fun p => p_JournalID p = j) (tb_postings t))))).
    split; [|done]. exists j. split.
    + destruct (decide (j ∈ map p_JournalID (tb_postings t))) as [|Hn]; [done|]. destruct Hz. apply sum_where_none. intros p Hp [E _]. apply Hn. rewrite <- E. by apply list_elem_of_fmap_2.
    + unfold journal_rows. apply list_elem_of_fmap. exists (mkAssetTotal asset (sum_amounts (filter (fun p => p_Asset p = asset) (filter (fun p => p_JournalID p = j) (tb_postings t))))).
      split; [done|]. apply elem_of_unbalanced. split; [done|]. cbn. by rewrite journal_asset_sum.
Qed.

(** *** Accounts: both paged checks look at each account by itself *)

Section Accounts.
Context {A : Type} (key : A -> N) (f : Tables -> Account -> option A) (Hf : forall t a row, f t a = Some row -> key row = a_ID a).

Definition account_groups (t : Tables) : list (N * list A) := keyed (fun id => omap (f t) (accounts_with_id t id)) (map a_ID (tb_accounts t)).

Lemma account_rows_key t id row : row ∈ omap (f t) (accounts_with_id t id) -> key row = id.
Proof. intros H. apply list_elem_of_omap in H as (a & Ha & E). apply list_elem_of_filter in Ha as [<- _]. by apply (Hf t). Qed.

Lemma elem_of_account_groups t row : row ∈ concat (map snd (account_groups t)) <-> exists a, a ∈ tb_accounts t /\ f t a = Some row.
Proof.
  unfold account_groups. rewrite elem_of_keyed. split.
  - intros (id & _ & H). apply list_elem_of_omap in H as (a & Ha & E). apply list_elem_of_filter in Ha as [_ Ha]. by exists a.
  - intros (a & Ha & E). exists (a_ID a). split; [by apply list_elem_of_fmap_2|]. apply list_elem_of_omap. exists a. split; [by apply list_elem_of_filter|done].
Qed.

Lemma one_account t id : NoDup (map a_ID (tb_accounts t)) -> (length (accounts_with_id t id) <= 1)%nat.
Proof.
  unfold accounts_with_id. induction (tb_accounts t) as [|a l IH]; intros Hn; [cbn; lia|]. cbn in Hn. apply NoDup_cons in Hn as [Ha Hn]. rewrite filter_cons.
  case_decide as E; [|by apply IH]. cbn. destruct (filter (fun a => a_ID a = id) l) as [|x k] eqn:El; [done|]. destruct Ha. assert (Hx : x ∈ filter (fun a => a_ID a = id) l) by (rewrite El; by left). apply list_elem_of_filter in Hx as [Ex Hx]. rewrite E, <- Ex. by apply list_elem_of_fmap_2.
Qed.

Lemma account_groups_single t : NoDup (map a_ID (tb_accounts t)) -> Forall (fun g => length g.2 = 1%nat) (account_groups t).
Proof.
  intros Hn. apply Forall_forall. intros g Hg. apply list_elem_of_filter in Hg as [Hne Hg]. apply list_elem_of_fmap in Hg as (id & -> & _). cbn in *.
  pose proof (one_account t id Hn) as H1. assert (H2 : (length (omap (f t) (accounts_with_id t id)) <= length (accounts_with_id t id))%nat) by (clear; induction (accounts_with_id t id) as [|a l IH]; cbn; [lia|destruct (f t a); cbn; lia]).
  destruct (omap (f t) (accounts_with_id t id)) as [|x [|y l]]; cbn in *; [done|done|lia].
Qed.

Lemma account_pages find t w : find = (fun after limit => query (fun t => page_after after limit (account_groups t))) -> keys_ok t -> w_tables w = t ->
  let '(r, w') := check_pages key (@length _) find (S (length (tb_accounts t))) 0 w in reads_all (concat (map snd (account_groups t))) r w w'.
Proof.
  intros Ef Hk Ht. assert (Hw : well_paged key (account_groups t)) by (apply keyed_paged; apply account_rows_key).
  assert (Eb : beyond_key 0 (account_groups t) = account_groups t).
  { apply beyond_all, Forall_forall. intros g Hg. apply list_elem_of_filter in Hg as [Hne Hg]. apply list_elem_of_fmap in Hg as (id & -> & Hid). unfold sort_ids in Hid.
    rewrite merge_sort_Permutation, elem_of_remove_dups, list_elem_of_fmap in Hid. destruct Hid as (a & -> & Ha). pose proof (ko_positive _ Hk) as Hp. rewrite Forall_forall in Hp. by apply Hp. }
  pose proof (check_pages_run key (@length _) account_groups find Ef t Hw) as H. rewrite <- Eb. apply H; [|done|].
  - intros gs Hgs. apply count_singles. pose proof (account_groups_single t (ko_accounts _ Hk)) as Hs. rewrite Forall_forall in Hs |- *. intros g Hg. apply Hs.
    by eapply elem_of_submseteq; [|apply sublist_submseteq].
  - rewrite Eb. apply Nat.lt_succ_r. unfold account_groups. etrans; [apply keyed_length|]. by rewrite length_map.
Qed.
End Accounts.

Lemma drift_key t a row : drift_of t a = Some row -> dr_AccountID row = a_ID a.
Proof. unfold drift_of. by destruct (Equal _ _); intros [= <-]. Qed.
Lemma negative_key t a row : negative_of t a = Some row -> na_AccountID row = a_ID a.
Proof. unfold negative_of. destruct (tb_balances t !! a_ID a); [|done]. by destruct (_ && _); intros [= <-]. Qed.

Lemma drift_spec t a : is_Some (drift_of t a) <-> ~ cached_balance t (a_ID a) == account_sum (tb_postings t) (a_ID a).
Proof.
  unfold drift_of, cached_balance, account_sum. rewrite <- sum_amounts_where. set (c := sum_amounts _).
  assert (E : dval (default Zero (b_Balance <$> tb_balances t !! a_ID a)) == match tb_balances t !! a_ID a with Some b => dval (b_Balance b) | None => 0 end) by (destruct (tb_balances t !! a_ID a); [done|apply dval_Zero]).
  rewrite <- E. unfold Equal. rewrite Cmp_dval, Qeq_alt. destruct (dval _ ?= dval c); split; try done; try (by intros []); by eexists.
Qed.

Lemma negative_spec t a : is_Some (negative_of t a) <-> a_AllowsNegative a = false /\ exists b, tb_balances t !! a_ID a = Some b /\ dval (b_Balance b) < 0.
Proof.
  unfold negative_of. destruct (tb_balances t !! a_ID a) as [b|]; [|split; [by intros []|by intros (_ & b & ? & _)]].
  destruct (a_AllowsNegative a); cbn [negb andb]; [split; [by intros []|by intros [? _]]|]. destruct (IsNegative (b_Balance b)) eqn:E.
  - apply LessThan_true in E. rewrite dval_Zero in E. split; [intros _; split; [done|by exists b]|by eexists].
  - apply LessThan_false in E. rewrite dval_Zero in E. split; [by intros []|]. intros (_ & b' & [= <-] & Hlt). lra.
Qed.
End Checks.

(** ** A run *)

Section Runs.
Context {DL : DecimalLib} {DLaws : DecimalLaws DL} (rfc3339 : Z -> string) (now : Z).
Local Open Scope Q_scope.

(** What each check describes. *)
Definition journal_findings (t : Tables) := map (unbalanced_violation now) (journals_found t).
Definition drift_findings (t : Tables) := map (drift_violation now) (concat (map snd (drift_groups t))).
Definition total_findings (t : Tables) := map (asset_violation now) (unbalanced_assets (tb_postings t)).
Definition negative_findings (t : Tables) := map (negative_violation now) (concat (map snd (negative_groups t))).
Definition stale_findings (t : Tables) :=
  map (stale_violation rfc3339 now) (map (fun o => mkStale (r_ID o) (r_UserID o) (r_CoinSymbol o) (r_Status o) (r_CreatedAt o)) (filter (stale_row (now - staleMarketOrderThreshold)) (all_orders t))).
Definition all_findings (t : Tables) : list ReconciliationViolation :=
  journal_findings t ++ drift_findings t ++ total_findings t ++ negative_findings t ++ stale_findings t.
(** What is left of them when each check writes its own in one statement. *)
Definition stored_findings (t : Tables) : list ReconciliationViolation :=
  storable (journal_findings t) ++ storable (drift_findings t) ++ storable (total_findings t) ++ storable (negative_findings t) ++ storable (stale_findings t).


(** A check reports what it describes. *)
Definition checks (check : M (option unit)) (describes : Tables -> list ReconciliationViolation) : Prop :=
  forall w, keys_ok (w_tables w) -> exists w', check w = (Ok (Some tt), w') /\ reported_as (storable (describes (w_tables w))) w w'.

Lemma one_query {A} (f : Tables -> list A) w : let '(r, w') := (rows ← query f; mret (Some rows)) w in reads_all (f (w_tables w)) r w w'.
Proof.
  unfold mbind, M_bind. pose proof (query_run f w) as H. destruct (query f w) as [[b|e] w']; destruct H as (H1 & H2 & H3 & H4); split_and!; try done.
  - intros H. destruct (H3 H) as [-> [= ->]]. done.
  - intros H. by destruct (H3 H).
Qed.

Lemma journals_checked : checks (runUnbalancedJournalCheck now) journal_findings.
Proof.
  intros w Hk. unfold runUnbalancedJournalCheck. apply report_run. set (t := w_tables w).
  assert (Hw : well_paged uj_JournalID (unbalanced_groups t)) by (apply keyed_paged; apply journal_rows_key).
  assert (Eb : beyond_key 0 (unbalanced_groups t) = unbalanced_groups t).
  { apply beyond_all, Forall_forall. intros g Hg. apply list_elem_of_filter in Hg as [_ Hg]. apply list_elem_of_fmap in Hg as (j & -> & Hj). unfold sort_ids in Hj.
    rewrite merge_sort_Permutation, elem_of_remove_dups, list_elem_of_fmap in Hj. destruct Hj as (p & -> & Hp). pose proof (ko_journals _ Hk) as H. rewrite Forall_forall in H. by apply H. }
  pose proof (check_pages_run uj_JournalID (count_keys uj_JournalID None) unbalanced_groups CheckUnbalancedJournals eq_refl t Hw) as H. unfold journals_found. fold t. rewrite <- Eb. apply H; [|done|].
  - intros gs Hgs. apply count_groups; [by eapply well_paged_sub|done].
  - rewrite Eb. apply Nat.lt_succ_r. etrans; [apply keyed_length|]. by rewrite length_map.
Qed.

Lemma drift_checked : checks (runBalanceCacheDriftCheck now) drift_findings.
Proof. intros w Hk. apply report_run. by apply (account_pages dr_AccountID drift_of drift_key CheckBalanceCacheDrift (w_tables w) w). Qed.
Lemma totals_checked : checks (runAssetTotalsCheck now) total_findings.
Proof. intros w _. apply report_run. apply one_query. Qed.
Lemma negatives_checked : checks (runNegativeAccountCheck now) negative_findings.
Proof. intros w Hk. apply report_run. by apply (account_pages na_AccountID negative_of negative_key CheckNegativeAccounts (w_tables w) w). Qed.
Lemma stale_checked : checks (runStaleMarketOrderCheck rfc3339 now) stale_findings.
Proof. intros w _. apply report_run. apply one_query. Qed.

(** What a run has written after some of the checks. *)
Definition written (l : list ReconciliationViolation) (w w' : World) : Prop :=
  exists new, w_tables w' = (w_tables w) <| tb_violations := tb_violations (w_tables w) ++ new |>
    /\ (forall c, c ∈ map content new -> c ∈ map content l) /\ (w_faults w = [] -> w_faults w' = [] /\ map content new = map content l).

Lemma reported_written l w w' : reported_as l w w' -> written l w w'.
Proof.
  intros [H1 H2]. destruct (decide (w_faults w = [])) as [E|E].
  - destruct (H2 E) as [Ef (new & Et & Ec)]. exists new. split; [done|]. split; [|done]. intros c. by rewrite Ec.
  - destruct H1 as [(new & Et & Ec)|Et]; [exists new|exists []]; (split; [|split; [|done]]); try done.
    + intros c. by rewrite Ec.
    + rewrite app_nil_r, Et. by destruct (w_tables w).
    + intros c Hc. by apply elem_of_nil in Hc.
Qed.

Lemma written_trans l k w w1 w' : written l w w1 -> written k w1 w' -> written (l ++ k) w w'.
Proof.
  intros (n1 & E1 & I1 & F1) (n2 & E2 & I2 & F2). exists (n1 ++ n2). split; [rewrite E2, E1; cbn; by rewrite app_assoc|]. rewrite !map_app. split.
  - intros c. rewrite !elem_of_app. intros [H|H]; [left; by apply I1|right; by apply I2].
  - intros H. destruct (F1 H) as [H1 ->]. destruct (F2 H1) as [H2 ->]. done.
Qed.

Lemma run_check {B} check describes (k : M B) w w1 l : checks check describes -> keys_ok (w_tables w) -> written l w w1 ->
  (forall V, describes ((w_tables w) <| tb_violations := V |>) = describes (w_tables w)) ->
  exists w2, (_ ← check; k) w1 = k w2 /\ written (l ++ storable (describes (w_tables w))) w w2.
Proof.
  intros Hc Hk Hw Hd. assert (Hk1 : keys_ok (w_tables w1)) by (destruct Hw as (new & -> & _); by destruct Hk).
  destruct (Hc w1 Hk1) as (w2 & E & Hr). exists w2. unfold mbind, M_bind. rewrite E. split; [done|]. eapply written_trans; [done|].
  apply reported_written in Hr. destruct Hw as (new & Ew & _). by rewrite Ew, Hd in Hr.
Qed.

Lemma RunOnce_run w : keys_ok (w_tables w) -> exists w', RunOnce rfc3339 now w = (Ok tt, w') /\ written (stored_findings (w_tables w)) w w'.
Proof.
  intros Hk. assert (H0 : written [] w w).
  { exists []. split; [rewrite app_nil_r; by destruct (w_tables w)|]. split; [|done]. intros c Hc. by apply elem_of_nil in Hc. }
  unfold RunOnce.
  edestruct (run_check _ _ (_ ← runBalanceCacheDriftCheck now; _ ← runAssetTotalsCheck now; _ ← runNegativeAccountCheck now; _ ← runStaleMarketOrderCheck rfc3339 now; mret tt) _ _ _ journals_checked Hk H0) as (w1 & -> & H1); [done|].
  edestruct (run_check _ _ (_ ← runAssetTotalsCheck now; _ ← runNegativeAccountCheck now; _ ← runStaleMarketOrderCheck rfc3339 now; mret tt) _ _ _ drift_checked Hk H1) as (w2 & -> & H2); [done|].
  edestruct (run_check _ _ (_ ← runNegativeAccountCheck now; _ ← runStaleMarketOrderCheck rfc3339 now; mret tt) _ _ _ totals_checked Hk H2) as (w3 & -> & H3); [done|].
  edestruct (run_check _ _ (_ ← runStaleMarketOrderCheck rfc3339 now; mret tt) _ _ _ negatives_checked Hk H3) as (w4 & -> & H4); [done|].
  edestruct (run_check _ _ (mret tt) _ _ _ stale_checked Hk H4) as (w5 & -> & H5); [done|].
  exists w5. split; [done|]. unfold stored_findings. by rewrite !app_assoc.
Qed.

(** *** The descriptions are the faults *)

Lemma described {A} (describe : A -> ReconciliationViolation) check (rows : list A) c subject : (forall row, v_CheckName (describe row) = check) ->
  (exists v, v ∈ map describe rows /\ v_CheckName v = c /\ v_SubjectKey v = subject) <-> c = check /\ exists row, row ∈ rows /\ v_SubjectKey (describe row) = subject.
Proof.
  intros Hc. split.
  - intros (v & Hv & <- & <-). apply list_elem_of_fmap in Hv as (row & -> & Hrow). split; [apply Hc|by exists row].
  - intros (-> & row & Hrow & <-). exists (describe row). split; [by apply list_elem_of_fmap_2|]. by rewrite Hc.
Qed.

Lemma findings_broken t c subject : (exists v, v ∈ all_findings t /\ v_CheckName v = c /\ v_SubjectKey v = subject) <-> broken t now c subject.
Proof.
  unfold all_findings. setoid_rewrite elem_of_app. setoid_rewrite elem_of_app. setoid_rewrite elem_of_app. setoid_rewrite elem_of_app.
  transitivity ((exists v, v ∈ journal_findings t /\ v_CheckName v = c /\ v_SubjectKey v = subject) \/ (exists v, v ∈ drift_findings t /\ v_CheckName v = c /\ v_SubjectKey v = subject)
    \/ (exists v, v ∈ total_findings t /\ v_CheckName v = c /\ v_SubjectKey v = subject) \/ (exists v, v ∈ negative_findings t /\ v_CheckName v = c /\ v_SubjectKey v = subject)
    \/ (exists v, v ∈ stale_findings t /\ v_CheckName v = c /\ v_SubjectKey v = subject)); [naive_solver|].
  unfold journal_findings, drift_findings, total_findings, negative_findings, stale_findings.
  rewrite (described _ "unbalanced_journal"), (described _ "balance_cache_drift"), (described _ "asset_totals"), (described _ "negative_account"), (described _ "stale_market_order") by done.
  rewrite journals_found_spec. split.
  - intros [(-> & j & asset & Hj & ->)|[(-> & row & Hrow & <-)|[(-> & row & Hrow & <-)|[(-> & row & Hrow & <-)|(-> & row & Hrow & <-)]]]].
    + by econstructor.
    + apply (elem_of_account_groups drift_of) in Hrow as (a & Ha & E). cbn. rewrite (drift_key _ _ _ E). apply broken_cache; [done|]. apply drift_spec. by eexists.
    + apply elem_of_unbalanced in Hrow as [_ Hz]. by apply broken_total.
    + apply (elem_of_account_groups negative_of) in Hrow as (a & Ha & E). cbn. rewrite (negative_key _ _ _ E).
      destruct (proj1 (negative_spec t a)) as (H1 & b & H2 & H3); [by eexists|]. by eapply broken_sign.
    + apply list_elem_of_fmap in Hrow as (o & -> & Ho). apply list_elem_of_filter in Ho as [Hst Ho]. apply list_elem_of_fmap in Ho as ([id o'] & -> & Ho).
      apply elem_of_map_to_list in Ho. by eapply broken_order.
  - intros [j asset Hz|a Ha Hz|asset Hz|a b Ha Hn Hb Hlt|id o Ho Hst].
    + left. split; [done|]. by exists j, asset.
    + right; left. split; [done|]. apply drift_spec in Hz as [row E]. exists row. split; [apply (elem_of_account_groups drift_of); by exists a|]. cbn. by rewrite (drift_key _ _ _ E).
    + do 2 right; left. split; [done|]. exists (mkAssetTotal asset (sum_amounts (filter (fun p => p_Asset p = asset) (tb_postings t)))). split; [|done]. by apply elem_of_unbalanced.
    + do 3 right; left. split; [done|]. destruct (proj2 (negative_spec t a)) as [row E]; [split; [done|by exists b]|]. exists row.
      split; [apply (elem_of_account_groups negative_of); by exists a|]. cbn. by rewrite (negative_key _ _ _ E).
    + do 4 right. split; [done|]. eexists. split; [apply list_elem_of_fmap; exists o; split; [reflexivity|]; apply list_elem_of_filter; split; [done|]; by apply (list_elem_of_fmap_2 snd _ (id, o)), elem_of_map_to_list|done].
Qed.

(** The findings of one check. *)
Definition findings_of (t : Tables) (check : string) : list ReconciliationViolation := filter (fun v => v_CheckName v = check) (all_findings t).

Lemma check_filter {A} (describe : A -> ReconciliationViolation) name (rows : list A) check : (forall row, v_CheckName (describe row) = name) ->
  filter (fun v => v_CheckName v = check) (map describe rows) = if decide (name = check) then map describe rows else [].
Proof.
  intros Hn. induction rows as [|row rows IH]; [by case_decide|]. cbn [map]. rewrite filter_cons, Hn, IH. by repeat case_decide.
Qed.

Lemma findings_by_check t check : findings_of t check =
  (if decide ("unbalanced_journal" = check) then journal_findings t else []) ++ (if decide ("balance_cache_drift" = check) then drift_findings t else [])
  ++ (if decide ("asset_totals" = check) then total_findings t else []) ++ (if decide ("negative_account" = check) then negative_findings t else [])
  ++ (if decide ("stale_market_order" = check) then stale_findings t else []).
Proof.
  unfold findings_of, all_findings, journal_findings, drift_findings, total_findings, negative_findings, stale_findings. rewrite !filter_app.
  rewrite (check_filter _ "unbalanced_journal"), (check_filter _ "balance_cache_drift"), (check_filter _ "asset_totals"), (check_filter _ "negative_account"), (check_filter _ "stale_market_order"); done.
Qed.

Lemma storable_sub l v : v ∈ storable l -> v ∈ l.
Proof. unfold storable. destruct (_ <? _)%Z; [|done]. intros H. by apply elem_of_nil in H. Qed.
Lemma stored_all t x : x ∈ map content (stored_findings t) -> exists v, x = content v /\ v ∈ all_findings t.
Proof.
  intros H. apply list_elem_of_fmap in H as (v & -> & Hv). exists v. split; [done|]. unfold stored_findings in Hv. unfold all_findings. rewrite !elem_of_app in *.
  destruct Hv as [H|[H|[H|[H|H]]]]; apply storable_sub in H; by auto 6.
Qed.

Lemma stored_by_check t check : filter (fun v => v_CheckName v = check) (stored_findings t) = storable (findings_of t check).
Proof.
  assert (Hst : forall A (describe : A -> ReconciliationViolation) name rows, (forall row, v_CheckName (describe row) = name) ->
    filter (fun v => v_CheckName v = check) (storable (map describe rows)) = if decide (name = check) then storable (map describe rows) else []).
  { intros A describe name rows Hn. unfold storable. destruct (_ <? _)%Z; [by case_decide|]. by apply check_filter. }
  rewrite findings_by_check. unfold stored_findings. rewrite !filter_app. unfold journal_findings, drift_findings, total_findings, negative_findings, stale_findings.
  rewrite (Hst _ _ "unbalanced_journal"), (Hst _ _ "balance_cache_drift"), (Hst _ _ "asset_totals"), (Hst _ _ "negative_account"), (Hst _ _ "stale_market_order") by done.
  repeat case_decide; subst; try congruence; by rewrite ?app_nil_l, ?app_nil_r.
Qed.

Lemma storable_cases l : storable l = l /\ (violation_parameters l <= maxStatementParameters)%Z \/ storable l = [] /\ (maxStatementParameters < violation_parameters l)%Z.
Proof. unfold storable. destruct (Z.ltb_spec maxStatementParameters (violation_parameters l)); by auto. Qed.

(** C22 Reconciliation is exact: a run always ends, changes nothing but its own
    table, and reports only what is broken, whatever statements fail: journals that
    do not balance, cached balances that differ from their postings, assets that do
    not add up to zero, accounts below zero that must not be, market orders left
    open too long.  When no statement fails, a check with at most 16,383 findings, on
    however many pages, reports everything that is broken; a check with more, whose
    INSERT needs more than 65,535 parameters, reports nothing at all. *)
Theorem reconciliation_exact w : keys_ok (w_tables w) -> exists new w', RunOnce rfc3339 now w = (Ok tt, w')
  /\ w_tables w' = (w_tables w) <| tb_violations := tb_violations (w_tables w) ++ new |>
  /\ (forall v, v ∈ new -> broken (w_tables w) now (v_CheckName v) (v_SubjectKey v))
  /\ (w_faults w = [] -> forall c,
        ((violation_parameters (findings_of (w_tables w) c) <= maxStatementParameters)%Z ->
           forall subject, broken (w_tables w) now c subject -> exists v, v ∈ new /\ v_CheckName v = c /\ v_SubjectKey v = subject)
        /\ ((maxStatementParameters < violation_parameters (findings_of (w_tables w) c))%Z -> forall v, v ∈ new -> v_CheckName v <> c)).
Proof.
  intros Hk. destruct (RunOnce_run w Hk) as (w' & E & new & Et & Hin & Hall). exists new, w'. split; [done|]. split; [done|]. split.
  - intros v Hv. apply findings_broken. destruct (stored_all (w_tables w) (content v)) as (v' & Ec & Hv'); [apply Hin; by apply list_elem_of_fmap_2|]. exists v'. unfold content in Ec. by simplify_eq.
  - intros Hf c. destruct (Hall Hf) as [_ Ec]. pose proof (stored_by_check (w_tables w) c) as Hc. destruct (storable_cases (findings_of (w_tables w) c)) as [[Es Hle]|[Es Hgt]]; rewrite Es in Hc; (split; [|intros Hgt'; try lia]; [intros Hle'; try lia|..]).
    + intros subject Hb. apply findings_broken in Hb as (v' & Hv' & <- & <-).
      assert (Hs : v' ∈ stored_findings (w_tables w)) by (apply (list_elem_of_filter (fun v => v_CheckName v = v_CheckName v')); rewrite Hc; by apply list_elem_of_filter).
      assert (Hcc : content v' ∈ map content new) by (rewrite Ec; by apply list_elem_of_fmap_2). apply list_elem_of_fmap in Hcc as (v & E' & Hv). exists v. unfold content in E'. by simplify_eq.
    + intros v Hv Hn. assert (Hcc : content v ∈ map content (stored_findings (w_tables w))) by (rewrite <- Ec; by apply list_elem_of_fmap_2). apply list_elem_of_fmap in Hcc as (v' & E' & Hv').
      assert (Hx : v' ∈ filter (fun v => v_CheckName v = c) (stored_findings (w_tables w))) by (apply list_elem_of_filter; split; [|done]; unfold content in E'; by simplify_eq).
      rewrite Hc in Hx. by apply elem_of_nil in Hx.
Qed.

Lemma ledger_keys t s : ledger_ok t s -> keys_ok t.
Proof.
  intros Hl. destruct (lo_accounts _ _ Hl) as [H1 _ H3 _]. split; [done|..].
  - eapply Forall_impl; [exact H3|]. cbn. lia.
  - rewrite Forall_forall. intros p Hp. pose proof (lo_postings_journal _ _ Hl) as Hj. rewrite Forall_forall in Hj. specialize (Hj p Hp). cbn in Hj.
    apply list_elem_of_fmap in Hj as (e & -> & He). pose proof (jo_seq _ _ (lo_journals _ _ Hl)) as Hs. rewrite Forall_forall in Hs. specialize (Hs e He). cbn in Hs. lia.
Qed.

Lemma sound_unbroken t s c subject : ledger_ok t s -> broken t now c subject -> c = "stale_market_order".
Proof.
  intros Hl [j asset Hz|a Ha Hz|asset Hz|a b Ha Hn Hb Hlt|]; [..|done]; exfalso.
  - apply Hz, (lo_balanced _ _ Hl).
  - apply Hz. unfold cached_balance. destruct (proj2 (lo_rows _ _ Hl (a_ID a))) as [b Hb]; [by apply list_elem_of_fmap_2|]. rewrite Hb. by apply (lo_cache _ _ Hl).
  - apply Hz, (asset_postings_zero _ _ _ Hl).
  - pose proof (lo_nonnegative _ _ Hl a b Ha Hn Hb). lra.
Qed.
End Runs.

Section Services.
Context {DL : DecimalLib} {DLaws : DecimalLaws DL} {API : MatchingAPI} {ETP : ExternalTransferProcessor}.

(** The ledger reconciles: in every state the services reach from an empty
    database, by any calls and under any failures, a run of the reconciliation
    worker ends and finds nothing wrong with the ledger; all it may report are
    market orders left open, and it changes no other table. *)
Theorem reachable_ledger_reconciles rfc3339 now w : rtc service_step empty_world w ->
  exists new w', RunOnce rfc3339 now w = (Ok tt, w') /\ w_tables w' = (w_tables w) <| tb_violations := tb_violations (w_tables w) ++ new |>
    /\ Forall (fun v => v_CheckName v = "stale_market_order") new.
Proof.
  intros H. destruct (reached_ok empty_world w H (empty_ok _ _)) as [Hsys _]. pose proof (so_ledger _ _ (sy_store _ _ Hsys)) as Hl.
  destruct (RunOnce_run rfc3339 now w (ledger_keys _ _ Hl)) as (w' & E & new & Et & Hin & _). exists new, w'. split; [done|]. split; [done|].
  apply Forall_forall. intros v Hv. destruct (stored_all rfc3339 now (w_tables w) (content v)) as (v' & Ec & Hv'); [apply Hin; by apply list_elem_of_fmap_2|]. apply (sound_unbroken now (w_tables w) (w_seqs w) _ (v_SubjectKey v)); [done|]. apply (findings_broken rfc3339). exists v'. unfold content in Ec. by simplify_eq.
Qed.
End Services.

Module ReconciliationExamples.
Import FixedPoint.

(** An account that must not be negative, with a balance its postings do not
    explain. *)
Definition overdrawn : Tables :=
  empty_tables <| tb_accounts := [mkAccount 7 AccountUserAvailable (Some 1%N) "KRW" false] |>
    <| tb_balances := {[ 7%N := mkAccountBalance (Neg (NewFromInt 5)) 0 ]} |>.

Example overdrawn_reported : map (fun v => (v_ID v, v_CheckName v, v_SubjectKey v)) (tb_violations (w_tables (RunOnce (fun _ => "") 0 (mkWorld overdrawn ∅ [])).2))
  = [(1%N, "balance_cache_drift", "account:7"); (2%N, "negative_account", "account:7")].
Proof. vm_compute. reflexivity. Qed.

Lemma reconciliation_exact_witness : exists new w', RunOnce (fun _ => "") 0 (mkWorld overdrawn ∅ []) = (Ok tt, w')
  /\ w_tables w' = overdrawn <| tb_violations := tb_violations overdrawn ++ new |>
  /\ (forall v, v ∈ new -> broken overdrawn 0 (v_CheckName v) (v_SubjectKey v))
  /\ ([] = [] :> list fault -> forall c,
        ((violation_parameters (findings_of (fun _ => "") 0 overdrawn c) <= maxStatementParameters)%Z ->
           forall subject, broken overdrawn 0 c subject -> exists v, v ∈ new /\ v_CheckName v = c /\ v_SubjectKey v = subject)
        /\ ((maxStatementParameters < violation_parameters (findings_of (fun _ => "") 0 overdrawn c))%Z -> forall v, v ∈ new -> v_CheckName v <> c)).
Proof.
  apply (reconciliation_exact (fun _ => "") 0 (mkWorld overdrawn ∅ [])). split; cbn; [|by repeat constructor|by constructor].
  repeat constructor. by intros ?%elem_of_nil.
Defined.

Import ServiceFixtures.
Lemma reachable_ledger_reconciles_witness : exists new w', RunOnce (fun _ => "") 0 ordered2 = (Ok tt, w')
  /\ w_tables w' = (w_tables ordered2) <| tb_violations := tb_violations (w_tables ordered2) ++ new |> /\ Forall (fun v => v_CheckName v = "stale_market_order") new.
Proof. exact (reachable_ledger_reconciles (fun _ => "") 0 ordered2 reach_ordered2). Defined.
End ReconciliationExamples.
