(* ===== verification/CancelWorker.v ===== *)
(** * The cancel command worker (service/cancel_command_worker.go, repository/cancel_command_repository.go)

    A cancellation is stored as a command before it is tried.  The worker scans the
    PENDING commands, calls the engine for each in a goroutine of its own, and keeps
    a command in [inFlight] until its end is known: while the call runs, while the
    engine's event is on its way to the outbox, and while a failed attempt waits.
    The writer of the outbox marks a command PROCESSED in the transaction that
    stores its event ([Outbox]).

    The worker's loop is one goroutine; [result_iteration] and [tick_iteration] are
    its rounds, [now] the time one of them reads.  Engine, writer, users and settlement
    run beside it: [cancel_step] is any step of any of them.  Latencies, counters and
    logs are left out. *)
From S2P Require Import Prelude Decimal Model Containers Matching Engine Errors Fee Database Ledger Sha256 OrderLedger Settlement SettlementBatch HoldCoordinator OrderService Transfers FailureStores Dispatcher Processing Outbox.
From Stdlib Require Import Lia.

Section CancelWorker.
Context {DL : DecimalLib} {TX : ErrorTexts}.
Local Open Scope Z_scope.

(** ** The repository *)

(** The rows that satisfy a condition, ORDER BY id. *)
Definition commands_by_id (t : Tables) (p : N -> CancelCommandRow -> bool) : list CancelCommandRow :=
  omap (fun id => match tb_commands t !! id with Some c => if p id c then Some c else None | None => None end) (sort_ids (elements (dom (tb_commands t)))).

Definition FindPending (excluded : list N) (limit : Z) : M (list CancelCommandRow) :=
  query (fun t => take (Z.to_nat limit) (commands_by_id t (fun id c => bool_decide (cmd_Status c = CommandPending /\ id ∉ excluded)))).

Definition FindStatuses (ids : list N) : M (list CancelCommandRow) :=
  match ids with [] => mret [] | _ => query (fun t => commands_by_id t (fun id _ => bool_decide (id ∈ ids))) end.

(** UPDATE ... WHERE id = ? AND status = 'PENDING'; whether a row was affected. *)
Definition update_pending (id : N) (f : CancelCommandRow -> CancelCommandRow) : M bool :=
  transaction (
    _ ← stmt;
    t ← get_db;
    match tb_commands t !! id with
    | Some c => if decide (cmd_Status c = CommandPending)
                then _ ← put_db (t <| tb_commands := <[id := f c]> (tb_commands t) |>); mret true
                else mret false
    | None => mret false
    end).

Definition MarkNoop (id : N) : M (option CancelCommandRow) :=
  affected ← update_pending id (fun c => c <| cmd_Status := CommandNoop |>);
  if (affected : bool) then
    updated ← query (fun t => tb_commands t !! id);
    match updated with Some c => mret (Some c) | None => throw ErrRecordNotFound end
  else mret None.

Definition RecordAttempt (id : N) (message : string) : M unit :=
  _ ← update_pending id (fun c => c <| cmd_AttemptCount := cmd_AttemptCount c + 1 |> <| cmd_LastError := message |>); mret tt.

Definition CountPending : M nat := query (fun t => length (commands_by_id t (fun _ c => bool_decide (cmd_Status c = CommandPending)))).

(** [OrderRepository.FindByID] *)
Definition FindByID (orderID : N) : M OrderRow :=
  row ← query (fun t => tb_orders t !! orderID);
  match row with Some order => mret order | None => throw ErrRecordNotFound end.

(** ** Configuration *)

Record CancelWorkerConfig := mkCancelConfig { InitialBackoff : Z; MaxBackoff : Z; AwaitingWarnAfter : Z; MaxDispatch : Z; ScanLimit : Z }.
Variable config : CancelWorkerConfig.

Definition millisecond : Z := 1000000.
Definition defaultCancelCommandInitialBackoff : Z := 100 * millisecond.
Definition defaultCancelCommandMaxBackoff : Z := 5000 * millisecond.
Definition defaultCancelCommandAwaitingWarnAfter : Z := 5000 * millisecond.
Definition defaultCancelCommandMaxDispatch : Z := 8.
Definition defaultCancelCommandScanLimit : Z := 128.

Definition positive_or (value other : Z) : Z := if 0 <? value then value else other.
Definition initialBackoff : Z := positive_or (InitialBackoff config) defaultCancelCommandInitialBackoff.
Definition maxBackoff : Z := positive_or (MaxBackoff config) defaultCancelCommandMaxBackoff.
Definition awaitingWarnAfter : Z := positive_or (AwaitingWarnAfter config) defaultCancelCommandAwaitingWarnAfter.
Definition maxDispatch : Z := positive_or (MaxDispatch config) defaultCancelCommandMaxDispatch.
Definition scanLimit : Z := positive_or (ScanLimit config) defaultCancelCommandScanLimit.

(** ** The worker's own state *)

Inductive cancelCommandPhase := cancelCommandDispatching | cancelCommandAwaitingOutbox | cancelCommandBackoff.
#[export] Instance phase_eq_dec : EqDecision cancelCommandPhase.
Proof. solve_decision. Defined.

Record cancelCommandInFlight := mkInFlight {
  cf_phase : cancelCommandPhase; cf_nextAttemptAt : Z; cf_backoff : Z; cf_awaitingSince : Z; cf_warningEmitted : bool }.
#[export] Instance inFlight_settable : Settable cancelCommandInFlight := fun e =>
  mkInFlight (cf_phase e) (cf_nextAttemptAt e) (cf_backoff e) (cf_awaitingSince e) (cf_warningEmitted e).

Record cancelCommandResult := mkCommandResult { cq_commandID : N; cq_orderID : N; cq_result : CancelOrderResult }.

Abbreviation in_flight := (gmap N cancelCommandInFlight).

Definition nextBackoff (current : Z) : Z :=
  if current <=? 0 then initialBackoff else if maxBackoff <? current * 2 then maxBackoff else current * 2.

Definition awaiting_ids (f : in_flight) : list N := map fst (filter (fun x => cf_phase x.2 = cancelCommandAwaitingOutbox) (map_to_list f)).

Definition release (f : in_flight) (c : CancelCommandRow) : in_flight := if decide (cmd_Status c = CommandPending) then f else delete (cmd_ID c) f.

Definition releaseCompleted (f : in_flight) : M in_flight :=
  match awaiting_ids f with
  | [] => mret f
  | ids =>
      statuses ← attempt (FindStatuses ids);
      match statuses with Err _ => mret f | Ok statuses => mret (foldl release f statuses) end
  end.

Definition warnStaleAwaiting (now : Z) (f : in_flight) : in_flight :=
  (fun e => if decide (cf_phase e = cancelCommandAwaitingOutbox /\ cf_warningEmitted e = false /\ awaitingWarnAfter <= now - cf_awaitingSince e)
            then e <| cf_warningEmitted := true |> else e) <$> f.

Definition blockedIDs (now : Z) (f : in_flight) : list N :=
  map fst (filter (fun x => ~ (cf_phase x.2 = cancelCommandBackoff /\ cf_nextAttemptAt x.2 <= now)) (map_to_list f)).

Definition markDispatching (f : in_flight) (id : N) : cancelCommandInFlight :=
  (default (mkInFlight cancelCommandDispatching 0 0 0 false) (f !! id)) <| cf_phase := cancelCommandDispatching |>.

Definition mark_started (f : in_flight) (c : CancelCommandRow) : in_flight := <[cmd_ID c := markDispatching f (cmd_ID c)]> f.

(** The commands whose calls are started. *)
Definition dispatchReady (now : Z) (dispatching : Z) (f : in_flight) : M (in_flight * list CancelCommandRow) :=
  let free := maxDispatch - dispatching in
  if free <=? 0 then mret (f, [])
  else
    scanned ← attempt (FindPending (blockedIDs now f) scanLimit);
    match scanned with
    | Err _ => mret (f, [])
    | Ok rows => let started := take (Z.to_nat free) rows in mret (foldl mark_started f started, started)
    end.

Definition cancel_err_text (e : cancel_err) : string :=
  match e with
  | ErrCancelOrderNotFound => "matching order not found"
  | ErrCancelOrderInvalidCommand => "invalid matching cancel command"
  | ErrCancelOrderEngineUnavailable => "matching engine is unavailable"
  | ErrCancelOrderTimedOut => "matching cancel timed out"
  | ErrCancelOrderBackpressured => "matching cancel rejected: execution capacity or consecutive-cancel quota exhausted"
  end.

Definition scheduleRetry (now : Z) (id : N) (e : cancelCommandInFlight) (cause : string) (f : in_flight) : M in_flight :=
  _ ← attempt (RecordAttempt id cause);
  let backoff := nextBackoff (cf_backoff e) in
  mret (<[id := e <| cf_backoff := backoff |> <| cf_phase := cancelCommandBackoff |> <| cf_nextAttemptAt := now + backoff |>]> f).

Definition applyNotFound (now : Z) (r : cancelCommandResult) (e : cancelCommandInFlight) (f : in_flight) : M in_flight :=
  order ← attempt (FindByID (cq_orderID r));
  match order with
  | Err err => scheduleRetry now (cq_commandID r) e (error_text err) f
  | Ok order =>
      if isCancellableOrderStatus (r_Status order) then scheduleRetry now (cq_commandID r) e (cancel_err_text ErrCancelOrderNotFound) f
      else
        noop ← attempt (MarkNoop (cq_commandID r));
        match noop with
        | Err err => scheduleRetry now (cq_commandID r) e (error_text err) f
        | Ok _ => mret (delete (cq_commandID r) f)
        end
  end.

Definition applyResult (now : Z) (r : cancelCommandResult) (f : in_flight) : M in_flight :=
  match f !! cq_commandID r with
  | None => mret f
  | Some e =>
      match cr_Err (cq_result r) with
      | None => mret (<[cq_commandID r := e <| cf_phase := cancelCommandAwaitingOutbox |> <| cf_awaitingSince := now |> <| cf_warningEmitted := false |>]> f)
      | Some ErrCancelOrderNotFound => applyNotFound now r e f
      | Some err => scheduleRetry now (cq_commandID r) e (cancel_err_text err) f
      end
  end.

(** The end of a round of the loop. *)
Definition tick_iteration (now : Z) (dispatching : Z) (f : in_flight) : M (in_flight * list CancelCommandRow) :=
  f ← releaseCompleted f;
  dispatchReady now dispatching (warnStaleAwaiting now f).

(** A round that starts with a result. *)
Definition result_iteration (now : Z) (r : cancelCommandResult) (dispatching : Z) (f : in_flight) : M (in_flight * list CancelCommandRow) :=
  f ← applyResult now r f;
  tick_iteration now (dispatching - 1) f.

(** One poll of [WaitUntilDrained]: whether it returns. *)
Definition drain_poll : M bool := count ← CountPending; mret (count =? 0)%nat.

(** ** Beside the engine, the outbox writer, users and settlement *)

(** What [dispatch] asks the engine for. *)
Definition engine_command (c : CancelCommandRow) : CancelOrderCommand :=
  mkCommand (cmd_ID c) (cmd_CoinSymbol c) (cmd_OrderID c) (cmd_Side c) (cmd_Price c) 0 None.

Inductive worker_control := Running | Draining | WorkerReturned.

Record cancel_system := mkCancelSystem {
  k_world : World;
  k_inFlight : in_flight;
  k_dispatching : Z;
  k_at : worker_control;
  k_calls : list CancelOrderCommand;        (* of goroutines inside [dispatch] *)
  k_results : list cancelCommandResult;     (* sent, or about to be *)
  k_queue : list CancelOrderCommand;        (* accepted by the engine, not processed *)
  k_book : gset N;                          (* the orders that rest in the engine *)
  k_removed : gset N;                       (* the orders it has cancelled *)
  k_events : list OrderCancelled }.         (* of removed orders: emitted or about to be, not committed *)

#[export] Instance cancel_system_settable : Settable cancel_system := fun s =>
  mkCancelSystem (k_world s) (k_inFlight s) (k_dispatching s) (k_at s) (k_calls s) (k_results s) (k_queue s) (k_book s) (k_removed s) (k_events s).

Definition open_in (t : Tables) (id : N) : Prop := exists o, tb_orders t !! id = Some o /\ isCancellableOrderStatus (r_Status o) = true.

(** How a round of the worker ends: calls are started for the commands. *)
Definition after_round (w : World) (f : in_flight) (started : list CancelCommandRow) (dispatching : Z) (s : cancel_system) : cancel_system :=
  s <| k_world := w |> <| k_inFlight := f |> <| k_dispatching := dispatching + Z.of_nat (length started) |>
    <| k_calls := k_calls s ++ map engine_command started |>.

Definition return_result (c : CancelOrderCommand) (res : CancelOrderResult) : cancelCommandResult := mkCommandResult (cc_CommandID c) (cc_OrderID c) res.

(** The steps of the worker. *)
Inductive worker_step : cancel_system -> cancel_system -> Prop :=
| tick now s w f started : k_at s = Running -> tick_iteration now (k_dispatching s) (k_inFlight s) (k_world s) = (Ok (f, started), w) ->
    worker_step s (after_round w f started (k_dispatching s) s)
| take_result now s r l1 l2 w f started : k_at s = Running -> k_results s = l1 ++ r :: l2 ->
    result_iteration now r (k_dispatching s) (k_inFlight s) (k_world s) = (Ok (f, started), w) ->
    worker_step s ((after_round w f started (k_dispatching s - 1) s) <| k_results := l1 ++ l2 |>)
| last_result now s r l1 l2 w f : k_at s = Running -> k_results s = l1 ++ r :: l2 -> applyResult now r (k_inFlight s) (k_world s) = (Ok f, w) ->
    worker_step s ((after_round w f [] (k_dispatching s - 1) s) <| k_results := l1 ++ l2 |> <| k_at := Draining |>)
| stop_worker s : k_at s = Running -> worker_step s (s <| k_at := Draining |>)
| drain_result s r l1 l2 : k_at s = Draining -> 0 < k_dispatching s -> k_results s = l1 ++ r :: l2 ->
    worker_step s (s <| k_results := l1 ++ l2 |> <| k_dispatching := k_dispatching s - 1 |>)
| drained s : k_at s = Draining -> k_dispatching s <= 0 -> worker_step s (s <| k_at := WorkerReturned |>).

(** The steps of the engine: it refuses a call or takes it into its queue; the caller
    may give up waiting; a command from the queue removes its order and emits the
    event, or finds no order; the answer reaches a caller that still waits.
    Orders enter the book, but for those it has cancelled, and leave it when they are
    filled. *)
Inductive engine_step : cancel_system -> cancel_system -> Prop :=
| refuse_call s c l1 l2 err : k_calls s = l1 ++ c :: l2 -> err <> ErrCancelOrderNotFound ->
    engine_step s (s <| k_calls := l1 ++ l2 |> <| k_results := k_results s ++ [return_result c (mkCancelResult false (Some err))] |>)
| accept_call s c : c ∈ k_calls s -> engine_step s (s <| k_queue := k_queue s ++ [c] |>)
| remove_order s c q1 q2 l1 l2 answered eventID : k_queue s = q1 ++ c :: q2 -> cc_OrderID c ∈ k_book s -> k_calls s = l1 ++ answered ++ l2 -> (answered = [] \/ answered = [c]) ->
    engine_step s (s <| k_queue := q1 ++ q2 |> <| k_book := k_book s ∖ {[cc_OrderID c]} |> <| k_removed := {[cc_OrderID c]} ∪ k_removed s |> <| k_calls := l1 ++ l2 |>
      <| k_results := k_results s ++ map (fun c => return_result c (mkCancelResult true None)) answered |>
      <| k_events := k_events s ++ [mkCancelled (cc_CommandID c) (cc_OrderID c) (cc_CoinSymbol c) (cc_Side c) eventID] |>)
| find_nothing s c q1 q2 l1 l2 answered : k_queue s = q1 ++ c :: q2 -> k_calls s = l1 ++ answered ++ l2 -> (answered = [] \/ answered = [c]) ->
    engine_step s (s <| k_queue := q1 ++ q2 |> <| k_calls := l1 ++ l2 |>
      <| k_results := k_results s ++ map (fun c => return_result c (mkCancelResult false (Some ErrCancelOrderNotFound))) answered |>)
| enter_book s id : id ∉ k_removed s ->
    engine_step s (s <| k_book := {[id]} ∪ k_book s |>)
| leave_book s id : engine_step s (s <| k_book := k_book s ∖ {[id]} |>).

(** What settlement may do to orders: anything but remove one or change its id. *)
Definition orders_move (t t' : Tables) : Prop :=
  t' = t <| tb_orders := tb_orders t' |>
  /\ (forall id, is_Some (tb_orders t !! id) -> is_Some (tb_orders t' !! id))
  /\ (forall id o, tb_orders t' !! id = Some o -> r_ID o = id).

(** The steps of the others: a user cancels an order, the writer of the outbox
    commits some of the events (those of different engines merge in any order), settlement moves orders, the database's mood changes. *)
Inductive other_step : cancel_system -> cancel_system -> Prop :=
| request_cancel u id s : other_step s (s <| k_world := (CancelOrder u id (k_world s)).2 |>)
| commit_events s batch rest w : k_events s ≡ₚ batch ++ rest ->
    mark_commands (dedupeNonzeroUint64 (map c_CommandID batch)) (k_world s) = (Ok tt, w) -> other_step s (s <| k_world := w |> <| k_events := rest |>)
| settle_orders s t : orders_move (w_tables (k_world s)) t ->
    other_step s (s <| k_world := mkWorld t (w_seqs (k_world s)) (w_faults (k_world s)) |>)
| other_faults s fs : other_step s (s <| k_world := mkWorld (w_tables (k_world s)) (w_seqs (k_world s)) fs |>).

Definition cancel_step (s s' : cancel_system) : Prop := worker_step s s' \/ engine_step s s' \/ other_step s s'.
End CancelWorker.

Abbreviation in_flight := (gmap N cancelCommandInFlight).
