(* ===== verification/CancelProofs.v ===== *)
(** * The rounds of the cancel command worker: what they do to the store and to [inFlight] *)
From S2P Require Import Prelude Decimal Model Containers Matching Engine Errors Fee Database Ledger LedgerInv Sha256 OrderLedger Settlement SettlementBatch HoldCoordinator OrderService Transfers FailureStores Dispatcher Processing ProcessingProofs Outbox OutboxProofs ReconciliationProofs CancelWorker OrderProofs.
From Stdlib Require Import Lia Sorted.

Section Effects.
Context {DL : DecimalLib} {TX : ErrorTexts}.
Local Open Scope Z_scope.

(** ** What the worker does to the store *)

(** Attempts are counted, and PENDING commands of closed orders become NOOP. *)
Definition row_effect (t : Tables) (c c' : CancelCommandRow) : Prop :=
  cmd_ID c' = cmd_ID c /\ cmd_OrderID c' = cmd_OrderID c
  /\ (cmd_Status c' = cmd_Status c \/ (cmd_Status c = CommandPending /\ cmd_Status c' = CommandNoop /\ ~ open_in t (cmd_OrderID c))).
Definition worker_effect (t t' : Tables) : Prop :=
  exists m, t' = t <| tb_commands := m |> /\ forall id, match tb_commands t !! id, m !! id with
    | Some c, Some c' => row_effect t c c' | None, None => True | _, _ => False end.

Lemma effect_refl t : worker_effect t t.
Proof. exists (tb_commands t). split; [by destruct t|]. intros id. destruct (tb_commands t !! id); [|done]. by repeat split; try left. Qed.

Lemma effect_trans t1 t2 t3 : worker_effect t1 t2 -> worker_effect t2 t3 -> worker_effect t1 t3.
Proof.
  intros (m1 & -> & H1) (m2 & -> & H2). exists m2. split; [done|]. intros id. specialize (H1 id). specialize (H2 id). cbn in H2.
  destruct (tb_commands t1 !! id) as [c1|], (m1 !! id) as [c2|], (m2 !! id) as [c3|]; try done.
  destruct H1 as (E1 & E2 & H1), H2 as (E3 & E4 & H2). split; [congruence|]. split; [congruence|].
  destruct H2 as [E5|(E5 & E6 & H2)]; [rewrite E5; done|]. right. destruct H1 as [H1|(_ & H1 & _)]; [|congruence]. split; [congruence|]. split; [done|]. by rewrite <- E2.
Qed.

Lemma effect_row t t' id c : worker_effect t t' -> tb_commands t !! id = Some c -> exists c', tb_commands t' !! id = Some c' /\ row_effect t c c'.
Proof. intros (m & -> & H) Hc. specialize (H id). rewrite Hc in H. cbn. destruct (m !! id) as [c'|]; [by exists c'|done]. Qed.
Lemma effect_row_back t t' id c' : worker_effect t t' -> tb_commands t' !! id = Some c' -> exists c, tb_commands t !! id = Some c /\ row_effect t c c'.
Proof. intros (m & -> & H) Hc. specialize (H id). cbn in Hc. rewrite Hc in H. destruct (tb_commands t !! id) as [c|]; [by exists c|done]. Qed.
Lemma effect_open t t' id : worker_effect t t' -> open_in t' id <-> open_in t id.
Proof. by intros (m & -> & _). Qed.

(** One row. *)
Lemma effect_update t id c c' : tb_commands t !! id = Some c -> row_effect t c c' -> worker_effect t (t <| tb_commands := <[id := c']> (tb_commands t) |>).
Proof.
  intros Hc He. eexists. split; [reflexivity|]. intros j. destruct (decide (j = id)) as [->|Hne]; [by rewrite Hc, lookup_insert_eq|].
  rewrite lookup_insert_ne by done. destruct (tb_commands t !! j); [|done]. by repeat split; try left.
Qed.

Definition effects (w w' : World) : Prop := worker_effect (w_tables w) (w_tables w') /\ seq_le (w_seqs w) (w_seqs w').

Lemma effects_refl w : effects w w.
Proof. split; [apply effect_refl|apply seq_le_refl]. Qed.
Lemma effects_trans w1 w2 w3 : effects w1 w2 -> effects w2 w3 -> effects w1 w3.
Proof. intros [H1 H2] [H3 H4]. split; [by eapply effect_trans|by eapply seq_le_trans]. Qed.

Lemma update_pending_effects id f w : (forall c, tb_commands (w_tables w) !! id = Some c -> cmd_Status c = CommandPending -> row_effect (w_tables w) c (f c)) ->
  effects w (update_pending id f w).2.
Proof.
  intros Hf. unfold update_pending. match goal with |- context [transaction ?b] => set (body := b) end.
  assert (Hb : wp body (fun _ t' _ => worker_effect (w_tables w) t') (fun _ => True) (w_tables w) (w_seqs w)).
  { apply wp_bind, wp_stmt, wp_bind, wp_get. destruct (tb_commands (w_tables w) !! id) as [c|] eqn:Ec; [|apply wp_ret, effect_refl].
    case_decide; [|apply wp_ret, effect_refl]. apply wp_bind, wp_put, wp_ret. eapply effect_update; [done|]. by apply Hf. }
  pose proof (transaction_wp _ _ _ _ _ (w_faults w) Hb) as Ht. rewrite world_eta in Ht. destruct (transaction body w) as [[u|e] w']; destruct Ht as (Hs & _ & Ht); cbn [snd]; split; try done.
  destruct Ht as [[-> _]|(_ & _ & Ht)]; [apply effect_refl|]. destruct Ht as [a Ht]. exact Ht.
Qed.

(** A piece of the worker: what it returns, and that it has only those effects. *)
Definition does {A} (m : M A) (Q : A -> World -> Prop) (w : World) : Prop := effects w (m w).2 /\ forall a, (m w).1 = Ok a -> Q a (m w).2.

Lemma does_ret {A} (a : A) (Q : A -> World -> Prop) w : Q a w -> does (mret a) Q w.
Proof. intros H. split; [apply effects_refl|]. by intros ? [= <-]. Qed.

Lemma does_bind {A B} (m : M A) (k : A -> M B) P (Q : B -> World -> Prop) w : does m P w ->
  (forall a w', effects w w' -> P a w' -> does (k a) Q w') -> does (m ≫= k) Q w.
Proof.
  intros [He Hm] Hk. unfold does, mbind, M_bind in *. destruct (m w) as [[a|e] w']; cbn [fst snd] in *; [|by split].
  destruct (Hk a w' He (Hm a eq_refl)) as [He' HQ]. split; [by eapply effects_trans|done].
Qed.

Lemma does_attempt {A} (m : M A) (Q : result error A -> World -> Prop) w : does m (fun a => Q (Ok a)) w -> (forall e w', Q (Err e) w') -> does (attempt m) Q w.
Proof.
  intros [He Hm] Herr. unfold does, attempt in *. destruct (m w) as [[a|e] w']; cbn [fst snd] in *; (split; [done|]); intros ? [= <-]; auto.
Qed.

Lemma does_query {A} (f : Tables -> A) (Q : A -> World -> Prop) w : (forall w', w_tables w' = w_tables w -> Q (f (w_tables w)) w') -> does (query f) Q w.
Proof.
  intros H. unfold does. pose proof (query_run f w) as Hq. destruct (query f w) as [r w']. destruct Hq as (Et & Es & _ & Hr). cbn [fst snd]. split.
  - split; [rewrite Et; apply effect_refl|rewrite Es; apply seq_le_refl].
  - intros a ->. rewrite Hr. by apply H.
Qed.

Lemma does_throw {A} e (Q : A -> World -> Prop) w : does (throw e) Q w.
Proof. split; [apply effects_refl|done]. Qed.

(** ** One command *)

Lemma record_does id message (Q : unit -> World -> Prop) w : (forall w', Q tt w') -> does (RecordAttempt id message) Q w.
Proof.
  intros HQ. eapply (does_bind _ _ (fun _ _ => True)); [|intros; by apply does_ret]. split; [|done]. apply update_pending_effects. intros c _ Hs. by repeat split; try left.
Qed.

Lemma retry_does config now id e cause f (Q : in_flight -> World -> Prop) w :
  (forall b at_ w', Q (<[id := e <| cf_backoff := b |> <| cf_phase := cancelCommandBackoff |> <| cf_nextAttemptAt := at_ |>]> f) w') ->
  does (scheduleRetry config now id e cause f) Q w.
Proof.
  intros HQ. eapply (does_bind _ _ (fun _ _ => True)); [|intros; by apply does_ret]. by apply does_attempt; [apply record_does|].
Qed.

(** Commands carry their key, and the order of a command is that of its row. *)
Definition commands_keyed (t : Tables) : Prop := forall id c, tb_commands t !! id = Some c -> cmd_ID c = id.
Definition known (t : Tables) (id order : N) : Prop := exists c, tb_commands t !! id = Some c /\ cmd_OrderID c = order.

Lemma noop_does id order (Q : option CancelCommandRow -> World -> Prop) w : known (w_tables w) id order -> ~ open_in (w_tables w) order -> (forall a w', Q a w') ->
  does (MarkNoop id) Q w.
Proof.
  intros (c & Hc & <-) Hopen HQ. eapply (does_bind _ _ (fun _ _ => True)).
  - split; [|done]. apply update_pending_effects. intros c' Hc' Hp. rewrite Hc in Hc'. injection Hc' as <-. split_and!; [done|done|]. by right.
  - intros [] w' _ _; [|by apply does_ret]. eapply does_bind; [by apply (does_query _ (fun _ _ => True))|]. intros [row|] w2 _ _; [by apply does_ret|apply does_throw].
Qed.

(** What a result makes of its entry. *)
Definition phase_of (f : in_flight) (id : N) : option cancelCommandPhase := cf_phase <$> f !! id.
Definition answered_phase (res : CancelOrderResult) (p : option cancelCommandPhase) : Prop :=
  match cr_Err res with None => p = Some cancelCommandAwaitingOutbox | Some _ => p = Some cancelCommandBackoff \/ p = None end.
Definition result_applied (r : cancelCommandResult) (f f' : in_flight) : Prop :=
  answered_phase (cq_result r) (phase_of f' (cq_commandID r)) /\ forall id, id <> cq_commandID r -> f' !! id = f !! id.

Lemma applied_insert r f e : answered_phase (cq_result r) (Some (cf_phase e)) -> result_applied r f (<[cq_commandID r := e]> f).
Proof. intros H. split; [unfold phase_of; by rewrite lookup_insert_eq|]. intros id Hne. by rewrite lookup_insert_ne. Qed.

Lemma applied_delete r f : cr_Err (cq_result r) <> None -> result_applied r f (delete (cq_commandID r) f).
Proof.
  intros H. split; [|intros id Hne; by rewrite lookup_delete_ne]. unfold answered_phase, phase_of. rewrite lookup_delete_eq. destruct (cr_Err _); [by right|done].
Qed.

Lemma applyNotFound_does config now r e f w : known (w_tables w) (cq_commandID r) (cq_orderID r) -> cr_Err (cq_result r) <> None ->
  does (applyNotFound config now r e f) (fun f' _ => result_applied r f f') w.
Proof.
  intros Hk Herr. assert (Hback : answered_phase (cq_result r) (Some cancelCommandBackoff)) by (unfold answered_phase; destruct (cr_Err _); [by left|done]).
  unfold applyNotFound. eapply (does_bind _ _ (fun res _ => match res with Ok o => tb_orders (w_tables w) !! cq_orderID r = Some o | Err _ => True end)).
  { apply does_attempt; [|done]. unfold FindByID. eapply does_bind; [apply (does_query _ (fun row _ => row = tb_orders (w_tables w) !! cq_orderID r)); done|].
    intros [o|] w1 _ Ho; [by apply does_ret|apply does_throw]. }
  intros [o|e0] w1 He Ho; [|apply retry_does; intros; by apply applied_insert].
  destruct (isCancellableOrderStatus (r_Status o)) eqn:Est; [apply retry_does; intros; by apply applied_insert|].
  eapply (does_bind _ _ (fun _ _ => True)).
  - apply does_attempt; [|done]. destruct Hk as (c & Hc & Ho'). destruct (effect_row _ _ _ _ (proj1 He) Hc) as (c' & Hc' & _ & Eo & _).
    apply (noop_does _ (cq_orderID r)); [|rewrite (effect_open _ _ _ (proj1 He))|done]; [exists c'; split; [done|congruence]|].
    intros (o' & Ho2 & Hop). rewrite Ho in Ho2. injection Ho2 as <-. by rewrite Est in Hop.
  - intros [a|e0] w2 _ _; [by apply does_ret, applied_delete|apply retry_does; intros; by apply applied_insert].
Qed.

Lemma applyResult_does config now r f w : known (w_tables w) (cq_commandID r) (cq_orderID r) -> is_Some (f !! cq_commandID r) ->
  does (applyResult config now r f) (fun f' _ => result_applied r f f') w.
Proof.
  intros Hk [e He]. unfold applyResult. rewrite He. destruct (cr_Err (cq_result r)) as [err|] eqn:Er.
  - assert (Hback : answered_phase (cq_result r) (Some cancelCommandBackoff)) by (unfold answered_phase; rewrite Er; by left).
    destruct err; try (apply retry_does; intros; by apply applied_insert). apply applyNotFound_does; [done|by rewrite Er].
  - apply does_ret, applied_insert. unfold answered_phase. by rewrite Er.
Qed.
End Effects.

Section Rounds.
Context {DL : DecimalLib} {TX : ErrorTexts} (config : CancelWorkerConfig).
Local Open Scope Z_scope.

(** ** The scan *)

Lemma sort_ids_strict (ids : list N) : NoDup ids -> StronglySorted N.lt (sort_ids ids).
Proof. intros Hn. unfold sort_ids. apply sorted_strict; [apply (StronglySorted_merge_sort N.le)|by rewrite merge_sort_Permutation]. Qed.

Lemma by_id_elem t p c : commands_keyed t -> c ∈ commands_by_id t p <-> tb_commands t !! cmd_ID c = Some c /\ p (cmd_ID c) c = true.
Proof.
  intros Hk. unfold commands_by_id. rewrite list_elem_of_omap. split.
  - intros (id & _ & H). destruct (tb_commands t !! id) as [c'|] eqn:Ec; [|done]. destruct (p id c') eqn:Ep; [|done]. injection H as ->. by rewrite (Hk _ _ Ec).
  - intros [Hc Hp]. exists (cmd_ID c). rewrite Hc, Hp. split; [|done]. unfold sort_ids. rewrite merge_sort_Permutation. apply elem_of_elements, elem_of_dom. by eexists.
Qed.

Lemma by_id_sorted t p : commands_keyed t -> StronglySorted N.lt (map cmd_ID (commands_by_id t p)).
Proof.
  intros Hk. unfold commands_by_id. assert (Hs : StronglySorted N.lt (sort_ids (elements (dom (tb_commands t))))) by apply sort_ids_strict, NoDup_elements.
  revert Hs. generalize (sort_ids (elements (dom (tb_commands t)))). intros l. induction 1 as [|x l Hs IH Hx]; [constructor|]. cbn [omap list_omap].
  destruct (tb_commands t !! x) as [c|] eqn:Ec; [|done]. destruct (p x c); [|done]. constructor; [done|]. rewrite (Hk _ _ Ec). apply Forall_forall. intros y Hy.
  apply list_elem_of_fmap in Hy as (c' & -> & Hc'). apply list_elem_of_omap in Hc' as (id & Hid & Hc'). destruct (tb_commands t !! id) as [c2|] eqn:E2; [|done].
  destruct (p id c2); [|done]. injection Hc' as ->. rewrite (Hk _ _ E2). rewrite Forall_forall in Hx. by apply Hx.
Qed.

Lemma strict_NoDup (l : list N) : StronglySorted N.lt l -> NoDup l.
Proof. induction 1 as [|x l _ IH Hx]; constructor; [|done]. intros Hin. rewrite Forall_forall in Hx. specialize (Hx _ Hin). lia. Qed.

(** ** A round *)

Lemma awaiting_elem f id : id ∈ awaiting_ids f <-> phase_of f id = Some cancelCommandAwaitingOutbox.
Proof.
  unfold awaiting_ids, phase_of. rewrite list_elem_of_fmap. split.
  - intros ([k e] & -> & [Hp He%elem_of_map_to_list]%list_elem_of_filter). cbn in *. by rewrite He, <- Hp.
  - intros H. apply fmap_Some in H as (e & He & Hp). exists (id, e). split; [done|]. apply list_elem_of_filter. split; [done|]. by apply elem_of_map_to_list.
Qed.

Lemma blocked_elem now f id : id ∈ blockedIDs now f <-> exists e, f !! id = Some e /\ ~ (cf_phase e = cancelCommandBackoff /\ cf_nextAttemptAt e <= now).
Proof.
  unfold blockedIDs. rewrite list_elem_of_fmap. split.
  - intros ([k e] & -> & [Hp He%elem_of_map_to_list]%list_elem_of_filter). by exists e.
  - intros (e & He & Hp). exists (id, e). split; [done|]. apply list_elem_of_filter. split; [done|]. by apply elem_of_map_to_list.
Qed.

(** Entries leave only from the wait for the outbox; the others keep their phase and their time. *)
Definition settles (f f' : in_flight) : Prop := forall id,
  match f' !! id with
  | Some e' => exists e, f !! id = Some e /\ cf_phase e' = cf_phase e /\ cf_nextAttemptAt e' = cf_nextAttemptAt e
  | None => f !! id = None \/ phase_of f id = Some cancelCommandAwaitingOutbox
  end.

Lemma settles_refl f : settles f f.
Proof. intros id. destruct (f !! id) as [e|]; [by exists e|by left]. Qed.
Lemma settles_trans f1 f2 f3 : settles f1 f2 -> settles f2 f3 -> settles f1 f3.
Proof.
  intros H1 H2 id. specialize (H1 id). specialize (H2 id). unfold phase_of in *. destruct (f3 !! id) as [e3|].
  - destruct H2 as (e2 & E2 & P2 & T2). rewrite E2 in H1. destruct H1 as (e1 & E1 & P1 & T1). exists e1. split_and!; congruence.
  - destruct (f2 !! id) as [e2|]; [|done]. destruct H1 as (e1 & E1 & P1 & _). destruct H2 as [|[= P2]]; [done|]. right. rewrite E1. cbn. congruence.
Qed.

Lemma release_settles rows : forall f, Forall (fun c => phase_of f (cmd_ID c) = Some cancelCommandAwaitingOutbox \/ f !! cmd_ID c = None) rows -> settles f (foldl release f rows).
Proof.
  induction rows as [|c rows IH]; intros f Hf; [apply settles_refl|]. apply Forall_cons in Hf as [Hc Hf]. cbn [foldl].
  assert (H1 : settles f (release f c)).
  { unfold release. destruct (decide _); [apply settles_refl|]. intros id. destruct (decide (id = cmd_ID c)) as [->|Hne].
    - rewrite lookup_delete_eq. destruct Hc as [Hc|Hc]; auto.
    - rewrite lookup_delete_ne by done. apply settles_refl. }
  eapply settles_trans; [exact H1|]. apply IH. eapply Forall_impl; [exact Hf|]. intros d Hd. specialize (H1 (cmd_ID d)). unfold phase_of in *.
  destruct (release f c !! cmd_ID d) as [e|]; [|by right]. left. destruct H1 as (e1 & E1 & P1 & _). rewrite E1 in Hd. destruct Hd as [[= Hd]|]; [|done]. cbn. congruence.
Qed.

Lemma releaseCompleted_does f w : commands_keyed (w_tables w) -> does (releaseCompleted f) (fun f' _ => settles f f') w.
Proof.
  intros Hk. unfold releaseCompleted. destruct (awaiting_ids f) as [|a l] eqn:Ea; [apply does_ret, settles_refl|]. rewrite <- Ea.
  eapply (does_bind _ _ (fun res _ => match res with Ok rows => rows = commands_by_id (w_tables w) (fun id _ => bool_decide (id ∈ awaiting_ids f)) | Err _ => True end)).
  - apply does_attempt; [|done]. unfold FindStatuses. rewrite Ea. by apply does_query.
  - intros [rows|e] w' _ Hr; [|apply does_ret, settles_refl]. apply does_ret, release_settles. subst rows. apply Forall_forall. intros c Hc.
    apply by_id_elem in Hc as [_ Hc]; [|done]. apply bool_decide_eq_true, awaiting_elem in Hc. by left.
Qed.

Lemma warn_settles now f : settles f (warnStaleAwaiting config now f).
Proof.
  intros id. unfold warnStaleAwaiting. rewrite lookup_fmap. destruct (f !! id) as [e|] eqn:Ee; cbn; [|by left]. exists e. by destruct (decide _).
Qed.

(** Calls are started for the oldest PENDING commands that nothing blocks. *)
Definition ready_commands (now : Z) (f : in_flight) (t : Tables) : list CancelCommandRow :=
  commands_by_id t (fun id c => bool_decide (cmd_Status c = CommandPending /\ id ∉ blockedIDs now f)).
Definition starts (now dispatching : Z) (f : in_flight) (t : Tables) : list CancelCommandRow :=
  take (Z.to_nat (maxDispatch config - dispatching)) (take (Z.to_nat (scanLimit config)) (ready_commands now f t)).

Lemma started_entries started f : forall id, phase_of (foldl mark_started f started) id = (if decide (id ∈ map cmd_ID started) then Some cancelCommandDispatching else phase_of f id).
Proof.
  revert f. induction started as [|c started IH]; intros f id; cbn [foldl map]; [by destruct (decide (id ∈ [])) as [H%not_elem_of_nil|]|].
  rewrite IH. destruct (decide (id ∈ map cmd_ID started)) as [Hin|Hnin]; [by rewrite decide_True by (by right)|].
  unfold phase_of, mark_started. destruct (decide (id = cmd_ID c)) as [->|Hne].
  - rewrite lookup_insert_eq, decide_True by (by left). done.
  - rewrite lookup_insert_ne by done. by rewrite decide_False by (by intros [?|?]%elem_of_cons).
Qed.

Lemma dispatchReady_does now dispatching f w : does (dispatchReady config now dispatching f)
  (fun '(f', started) w' => f' = foldl mark_started f started /\ (started = [] \/ started = starts now dispatching f (w_tables w'))) w.
Proof.
  unfold dispatchReady. destruct (Z.leb_spec (maxDispatch config - dispatching) 0); [apply does_ret; by auto|].
  eapply (does_bind _ _ (fun res w' => match res with Ok rows => rows = take (Z.to_nat (scanLimit config)) (ready_commands now f (w_tables w')) | Err _ => True end)).
  - apply does_attempt; [|done]. apply does_query. intros w' ->. done.
  - intros [rows|e] w' _ Hr; apply does_ret; [|by auto]. subst rows. by auto.
Qed.

Lemma starts_spec now dispatching f t : commands_keyed t -> let started := starts now dispatching f t in
  NoDup (map cmd_ID started) /\ Z.of_nat (length started) <= Z.max 0 (maxDispatch config - dispatching)
  /\ forall c, c ∈ started -> tb_commands t !! cmd_ID c = Some c /\ cmd_Status c = CommandPending /\ (phase_of f (cmd_ID c) = Some cancelCommandBackoff \/ phase_of f (cmd_ID c) = None).
Proof.
  intros Hk. cbv zeta. unfold starts. set (rows := take (Z.to_nat (scanLimit config)) _). split_and!.
  - assert (Hn : NoDup (map cmd_ID (ready_commands now f t))) by (by apply strict_NoDup, by_id_sorted). eapply sublist_NoDup; [exact Hn|].
    apply fmap_sublist. unfold rows. etrans; apply sublist_take.
  - rewrite length_take. lia.
  - intros c Hc. apply elem_of_take in Hc as (i & Hc%list_elem_of_lookup_2 & _). apply elem_of_take in Hc as (j & Hc%list_elem_of_lookup_2 & _).
    apply by_id_elem in Hc as [Hc [Hs Hb]%bool_decide_eq_true]; [|done]. split_and!; [done|done|]. unfold phase_of. destruct (f !! cmd_ID c) as [e|] eqn:Ee; [left|by right].
    cbn. destruct (decide (cf_phase e = cancelCommandBackoff)) as [->|Hne]; [done|]. exfalso. apply Hb, blocked_elem. exists e. split; [done|]. by intros [? _].
Qed.

(** What a round leaves: entries released, calls started. *)
Definition round (now dispatching : Z) (f : in_flight) (res : in_flight * list CancelCommandRow) (w' : World) : Prop :=
  exists f1, settles f f1 /\ res.1 = foldl mark_started f1 res.2 /\ (res.2 = [] \/ res.2 = starts now dispatching f1 (w_tables w')).

Lemma effects_keyed w w' : effects w w' -> commands_keyed (w_tables w) -> commands_keyed (w_tables w').
Proof. intros [He _] Hk id c Hc. destruct (effect_row_back _ _ _ _ He Hc) as (c0 & Hc0 & E & _). rewrite E. by apply Hk. Qed.

Lemma tick_does now dispatching f w : commands_keyed (w_tables w) -> does (tick_iteration config now dispatching f) (round now dispatching f) w.
Proof.
  intros Hk. unfold tick_iteration. eapply does_bind; [by apply releaseCompleted_does|]. intros f1 w1 He1 Hs. destruct (dispatchReady_does now dispatching (warnStaleAwaiting config now f1) w1) as [He HQ].
  split; [done|]. intros [f' started] Ha. destruct (HQ _ Ha) as [E1 E2]. exists (warnStaleAwaiting config now f1). split; [|by split]. eapply settles_trans; [exact Hs|apply warn_settles].
Qed.

Lemma result_does now r dispatching f w : commands_keyed (w_tables w) -> known (w_tables w) (cq_commandID r) (cq_orderID r) -> is_Some (f !! cq_commandID r) ->
  does (result_iteration config now r dispatching f) (fun res w' => exists f1, result_applied r f f1 /\ round now (dispatching - 1) f1 res w') w.
Proof.
  intros Hk Hkn Hf. unfold result_iteration. eapply does_bind; [by apply applyResult_does|]. intros f1 w1 He Hr.
  destruct (tick_does now (dispatching - 1) f1 w1) as [He' HQ]; [by eapply effects_keyed|]. split; [done|]. intros res Hres. exists f1. split; [done|]. by apply HQ.
Qed.
End Rounds.
