(* ===== verification/CancelTheorems.v ===== *)
(** * Cancel commands: none is lost, none is called twice at a time, and the outbox accepts their events

    [commands_ok] relates the command rows to the orders, the engine's book and the
    events on their way to the outbox; [worker_ok] relates the worker's own state to
    the calls in progress.  Both hold in every state the steps of worker, engine,
    users, outbox writer and settlement lead to.  The worker may start with commands and
    orders in any state, and settlement may close an order at any time. *)
From S2P Require Import Prelude Decimal Model Containers Matching Engine Errors Fee Database Ledger LedgerInv Sha256 OrderLedger Settlement SettlementBatch HoldCoordinator OrderService Transfers FailureStores Services Dispatcher Processing ProcessingProofs Outbox OutboxProofs ReconciliationProofs TransferProofs CancelWorker CancelProofs.
From Stdlib Require Import Lia Sorted Relations.

Section Store.
Context {DL : DecimalLib} {TX : ErrorTexts}.
Local Open Scope Z_scope.

(** ** Commands, orders, book and events *)

Section Commands.
(** The commands that were finished when the worker started, and the orders the database
    has shown to be closed since. *)
Context (before : N -> Prop).

(** How a command that the worker has taken up may have ended. *)
Definition ended_well (seen : N -> Prop) (removed : gset N) (c : CancelCommandRow) : Prop :=
  (cmd_Status c = CommandProcessed /\ cmd_OrderID c ∈ removed) \/ (cmd_Status c = CommandNoop /\ seen (cmd_OrderID c)).

Record commands_ok (t : Tables) (sq : Seqs) (seen : N -> Prop) (book removed : gset N) (events : list OrderCancelled) : Prop := {
  co_rows : forall id c, tb_commands t !! id = Some c -> cmd_ID c = id /\ (0 < id <= seq_value sq "cancel_commands")%N /\ is_Some (tb_orders t !! cmd_OrderID c);
  co_unique : forall i j c d, tb_commands t !! i = Some c -> tb_commands t !! j = Some d -> cmd_OrderID c = cmd_OrderID d -> i = j;
  co_orders : forall id o, tb_orders t !! id = Some o -> r_ID o = id;
  co_ended : forall id c, tb_commands t !! id = Some c -> cmd_Status c = CommandPending \/ before id \/ ended_well seen removed c;
  co_book : forall id, id ∈ book -> id ∉ removed;
  co_events : forall ev, ev ∈ events -> c_OrderID ev ∈ removed /\ exists c, tb_commands t !! c_CommandID ev = Some c /\ cmd_OrderID c = c_OrderID ev
    /\ (cmd_Status c = CommandPending \/ (cmd_Status c = CommandNoop /\ seen (c_OrderID ev)));
  co_distinct : NoDup (map c_OrderID events) }.

(** Rows stay; a PENDING one may end, the others keep their status. *)
Definition evolves (seen : N -> Prop) (removed : gset N) (t t' : Tables) : Prop := forall id c, tb_commands t !! id = Some c ->
  exists c', tb_commands t' !! id = Some c' /\ cmd_OrderID c' = cmd_OrderID c /\ (cmd_Status c' = cmd_Status c \/ (cmd_Status c = CommandPending /\ ended_well seen removed c')).

Lemma evolves_same seen removed t t' : tb_commands t' = tb_commands t -> evolves seen removed t t'.
Proof. intros E id c Hc. exists c. rewrite E. by auto. Qed.

(** None becomes PENDING again. *)
Lemma evolves_pending seen removed t t' id c c' : evolves seen removed t t' -> tb_commands t !! id = Some c -> tb_commands t' !! id = Some c' ->
  cmd_Status c' = CommandPending -> cmd_Status c = CommandPending.
Proof. intros He Hc Hc' Hp. destruct (He id c Hc) as (c2 & Hc2 & _ & [E|[E _]]); [|done]. rewrite Hc' in Hc2. injection Hc2 as <-. congruence. Qed.

Lemma ended_mono (seen seen' : N -> Prop) (removed removed' : gset N) c c' : (forall o, seen o -> seen' o) -> removed ⊆ removed' -> cmd_OrderID c' = cmd_OrderID c -> cmd_Status c' = cmd_Status c ->
  ended_well seen removed c -> ended_well seen' removed' c'.
Proof. intros Hs Hr Eo Es [[H1 H2]|[H1 H2]]; [left|right]; rewrite Eo, Es; (split; [done|]); [by apply Hr|by apply Hs]. Qed.

Lemma commands_seen t sq (seen seen' : N -> Prop) book removed events : (forall o, seen o -> seen' o) -> commands_ok t sq seen book removed events -> commands_ok t sq seen' book removed events.
Proof.
  intros Hs [H1 H2 H3 H4 H5 H6 H7]. split; try done.
  - intros id c Hc. destruct (H4 id c Hc) as [?|[?|?]]; [by left|by right; left|]. right; right. by eapply ended_mono.
  - intros ev Hin. destruct (H6 ev Hin) as (Hr & c & Hc & Eo & Hst). split; [done|]. exists c. split_and!; try done. naive_solver.
Qed.

Lemma effect_evolves (seen : N -> Prop) removed t t' : (forall o, ~ open_in t o -> seen o) -> worker_effect t t' -> evolves seen removed t t'.
Proof.
  intros Hseen He id c Hc. destruct (effect_row _ _ _ _ He Hc) as (c' & Hc' & _ & Eo & Hs). exists c'. split_and!; [done|done|].
  destruct Hs as [E|(Hp & E & Hno)]; [by left|]. right. split; [done|]. right. rewrite Eo. split; [done|by apply Hseen].
Qed.

Lemma commands_effect w w' (seen : N -> Prop) book removed events : (forall o, ~ open_in (w_tables w) o -> seen o) -> effects w w' ->
  commands_ok (w_tables w) (w_seqs w) seen book removed events -> commands_ok (w_tables w') (w_seqs w') seen book removed events.
Proof.
  intros Hseen [He Hs] [Hrows Huniq Hords Hended Hbook Hev Hnd]. assert (Ho : tb_orders (w_tables w') = tb_orders (w_tables w)) by (by destruct He as (m & -> & _)).
  split; rewrite ?Ho; try done.
  - intros id c Hc. destruct (effect_row_back _ _ _ _ He Hc) as (c0 & Hc0 & Ei & Eo & _). destruct (Hrows _ _ Hc0) as (E & Hid & Hex). rewrite Ei, Eo. split_and!; try done; try lia.
    specialize (Hs "cancel_commands"). lia.
  - intros i j c d Hc Hd E. destruct (effect_row_back _ _ _ _ He Hc) as (c0 & Hc0 & _ & Eo & _). destruct (effect_row_back _ _ _ _ He Hd) as (d0 & Hd0 & _ & Eo' & _).
    apply (Huniq i j c0 d0); congruence.
  - intros id c Hc. destruct (effect_row_back _ _ _ _ He Hc) as (c0 & Hc0 & _ & Eo & Hst). destruct Hst as [Est|(_ & Est & Hno)].
    + destruct (Hended id c0 Hc0) as [H|[H|H]]; [left; congruence|by right; left|]. right; right. by eapply ended_mono.
    + right; right; right. rewrite Eo. split; [done|by apply Hseen].
  - intros ev Hin. destruct (Hev ev Hin) as (Hr & c & Hc & Eo & Est). split; [done|]. destruct (effect_row _ _ _ _ He Hc) as (c' & Hc' & _ & Eo' & Hst).
    exists c'. split_and!; [done|congruence|]. destruct Hst as [->|(_ & -> & Hno)]; [done|]. right. split; [done|]. rewrite Eo in Hno. by apply Hseen.
Qed.

(** ** A request of a user *)

Definition requested (t : Tables) (sq : Seqs) (t' : Tables) (sq' : Seqs) : Prop :=
  seq_le sq sq' /\ (t' = t \/ exists id c, t' = t <| tb_commands := <[id := c]> (tb_commands t) |> /\ cmd_ID c = id /\ cmd_Status c = CommandPending
    /\ (seq_value sq "cancel_commands" < id <= seq_value sq' "cancel_commands")%N
    /\ (exists o, tb_orders t !! cmd_OrderID c = Some o) /\ forall j d, tb_commands t !! j = Some d -> cmd_OrderID d <> cmd_OrderID c).

Lemma no_command t order : command_of_order t order = None -> forall j d, tb_commands t !! j = Some d -> cmd_OrderID d <> order.
Proof.
  unfold command_of_order. intros H j d Hd E. apply head_None in H. assert (Hin : d ∈ filter (fun c => cmd_OrderID c = order) (map snd (map_to_list (tb_commands t)))).
  { apply list_elem_of_filter. split; [done|]. apply list_elem_of_fmap. exists (j, d). split; [done|]. by apply elem_of_map_to_list. }
  rewrite H in Hin. by apply elem_of_nil in Hin.
Qed.

Lemma cancel_body_requested u id t sq : (forall id o, tb_orders t !! id = Some o -> r_ID o = id) ->
  wp (cancel_body u id) (fun _ t' sq' => requested t sq t' sq') (fun _ => True) t sq.
Proof.
  intros Hids. unfold cancel_body, FindByIDForUpdate. apply wp_bind, wp_bind, wp_query. destruct (tb_orders t !! id) as [o|] eqn:Eo; [|by apply wp_throw]. apply wp_ret.
  destruct (negb _); [by apply wp_throw|]. destruct (negb _); [by apply wp_throw|]. case_decide; [by apply wp_throw|].
  apply wp_bind. unfold CreateOrGet. apply wp_bind, wp_stmt, wp_bind, wp_nextval. intros s1 Hs1 _ Hnew. apply wp_bind, wp_get. destruct (command_of_order t _) as [c|] eqn:Ec.
  - apply wp_bind, wp_query. rewrite Ec. apply wp_ret, wp_ret. split; [done|by left].
  - apply wp_bind, wp_put, wp_ret, wp_ret. split; [done|right]. eexists _, _. split_and!; [reflexivity|done|done| | | |].
    + lia.
    + lia.
    + exists o. cbn. by rewrite (Hids _ _ Eo).
    + by apply no_command.
Qed.

Lemma CancelOrder_requested u id w : (forall id o, tb_orders (w_tables w) !! id = Some o -> r_ID o = id) ->
  requested (w_tables w) (w_seqs w) (w_tables (CancelOrder u id w).2) (w_seqs (CancelOrder u id w).2).
Proof.
  intros Hids. assert (Hsame : requested (w_tables w) (w_seqs w) (w_tables w) (w_seqs w)) by (split; [apply seq_le_refl|by left]).
  unfold CancelOrder. destruct (decide _); [done|]. destruct (decide _); [done|]. rewrite bind_world. cbn [snd]. rewrite map_err_world.
  pose proof (transaction_wp _ _ _ _ _ (w_faults w) (cancel_body_requested u id (w_tables w) (w_seqs w) Hids)) as Ht. rewrite world_eta in Ht.
  destruct (transaction (cancel_body u id) w) as [[a|e] w']; destruct Ht as (Hs & _ & Ht); cbn [snd]; [done|]. destruct Ht as [[-> _]|(_ & _ & a & Ht)]; [|done]. split; [done|by left].
Qed.

Lemma requested_evolves t sq t' sq' seen book removed events : commands_ok t sq seen book removed events -> requested t sq t' sq' -> evolves seen removed t t'.
Proof.
  intros Hok [_ [->|(id & c & -> & _ & _ & Hid & _)]]; [by apply evolves_same|]. intros j d Hd. exists d. split_and!; [|done|by left]. cbn. rewrite lookup_insert_ne; [done|].
  intros ->. destruct (co_rows _ _ _ _ _ _ Hok _ _ Hd) as (_ & ? & _). lia.
Qed.

Lemma commands_requested t sq t' sq' seen book removed events : requested t sq t' sq' -> commands_ok t sq seen book removed events -> commands_ok t' sq' seen book removed events.
Proof.
  intros [Hle Hreq] [Hrows Huniq Hords Hended Hbook Hev Hnd]. specialize (Hle "cancel_commands") as Hseq.
  destruct Hreq as [->|(id & c & -> & Eid & Est & Hid & [o Ho] & Hnew)].
  { split; try done. intros i d Hd. destruct (Hrows _ _ Hd) as (? & ? & ?). split_and!; try done; lia. }
  set (t' := t <| tb_commands := <[id := c]> (tb_commands t) |>).
  assert (Hlook : forall i d, tb_commands t' !! i = Some d -> (i = id /\ d = c) \/ (i <> id /\ tb_commands t !! i = Some d)).
  { intros i d Hd. unfold t' in Hd. cbn in Hd. destruct (decide (i = id)) as [->|Hne]; [rewrite lookup_insert_eq in Hd; injection Hd as ->; by left|]. rewrite lookup_insert_ne in Hd by done. by right. }
  split; try done.
  - intros i d [[-> ->]|[Hne Hd]]%Hlook; [split_and!; [done|lia|lia|by exists o]|]. destruct (Hrows _ _ Hd) as (? & ? & ?). split_and!; try done; lia.
  - intros i j a b [[-> ->]|[Hi Ha]]%Hlook [[-> ->]|[Hj Hb]]%Hlook E; [done| | |by apply (Huniq i j a b)]; exfalso; eapply Hnew; [exact Hb|done|exact Ha|done].
  - intros i d [[-> ->]|[Hne Hd]]%Hlook; [by left|]. by apply (Hended i d).
  - intros ev Hin. destruct (Hev ev Hin) as (Hr & d & Hd & Eo & Hst). split; [done|]. exists d. split_and!; try done. unfold t'. cbn. rewrite lookup_insert_ne; [done|].
    intros ->. destruct (Hrows _ _ Hd) as (_ & ? & _). lia.
Qed.

(** ** A commit of the outbox *)

Lemma filter_all {A} (P : A -> Prop) `{DP : !forall x, Decision (P x)} (l : list A) : (forall x, x ∈ l -> P x) -> filter P l = l.
Proof. induction l as [|x l IH]; intros Hp; [done|]. rewrite filter_cons_True by (apply Hp; by left). f_equal. apply IH. intros y Hy. apply Hp. by right. Qed.

Lemma marked_row ids (rows : gmap N CancelCommandRow) id : NoDup ids ->
  foldl (fun rows id => alter command_processed id rows) rows ids !! id = (if decide (id ∈ ids) then command_processed <$> rows !! id else rows !! id).
Proof.
  revert rows. induction ids as [|x ids IH]; intros rows Hnd; cbn [foldl]; [by destruct (decide (id ∈ [])) as [H%not_elem_of_nil|]|].
  apply NoDup_cons in Hnd as [Hx Hnd]. rewrite IH by done. destruct (decide (id = x)) as [->|Hne].
  - rewrite decide_False by done. rewrite lookup_alter_eq. by rewrite decide_True by (by left).
  - rewrite lookup_alter_ne by done. destruct (decide (id ∈ ids)); [by rewrite decide_True by (by right)|]. by rewrite decide_False by (by intros [?|?]%elem_of_cons).
Qed.

Lemma dedupe_same values : forall ids, NoDup (ids ++ values) -> Forall (fun id => id <> 0%N) values -> foldl dedupe ids values = ids ++ values.
Proof.
  induction values as [|v values IH]; intros ids Hnd Hz; cbn [foldl]; [by rewrite app_nil_r|]. apply Forall_cons in Hz as [Hv Hz].
  assert (Hnin : v ∉ ids) by (apply NoDup_app in Hnd as (_ & H & _); intros Hin; by apply (H v Hin); left).
  unfold dedupe at 2. rewrite decide_False by (by intros [?|?]). rewrite IH; [by rewrite <- app_assoc| |done]. by rewrite <- app_assoc.
Qed.

Lemma event_ids_distinct t sq seen book removed events : commands_ok t sq seen book removed events -> NoDup (map c_CommandID events).
Proof.
  intros Hok. pose proof (co_distinct _ _ _ _ _ _ Hok) as Hnd. pose proof (co_events _ _ _ _ _ _ Hok) as Hev. clear Hok. induction events as [|ev events IH]; [constructor|].
  cbn in *. apply NoDup_cons in Hnd as [Hn Hnd]. constructor; [|by apply IH; [|intros; apply Hev; by right]]. intros Hin. apply Hn. apply list_elem_of_fmap in Hin as (ev' & E & Hin).
  destruct (Hev ev) as (_ & c & Hc & Eo & _); [by left|]. destruct (Hev ev') as (_ & c' & Hc' & Eo' & _); [by right|]. rewrite E, Hc' in Hc. injection Hc as ->.
  rewrite <- Eo, Eo'. by apply (list_elem_of_fmap_2 c_OrderID).
Qed.

Lemma commands_perm t sq seen book removed events events' : events ≡ₚ events' -> commands_ok t sq seen book removed events -> commands_ok t sq seen book removed events'.
Proof. intros Hp [H1 H2 H3 H4 H5 H6 H7]. split; try done; [|by rewrite <- Hp]. intros ev Hin. apply H6. by rewrite Hp. Qed.

(** Every batch of events names stored commands, each once. *)
Lemma batch_distinct t sq seen book removed batch rest : commands_ok t sq seen book removed (batch ++ rest) ->
  NoDup (map c_CommandID batch) /\ dedupeNonzeroUint64 (map c_CommandID batch) = map c_CommandID batch.
Proof.
  intros Hok. pose proof (event_ids_distinct _ _ _ _ _ _ Hok) as Hnd. rewrite map_app in Hnd. apply NoDup_app in Hnd as (Hnd & _ & _). split; [done|].
  apply (dedupe_same _ []); [done|]. apply Forall_forall. intros id Hid. apply list_elem_of_fmap in Hid as (ev & -> & Hin).
  destruct (co_events _ _ _ _ _ _ Hok ev) as (_ & c & Hc & _); [apply elem_of_app; by left|]. destruct (co_rows _ _ _ _ _ _ Hok _ _ Hc) as (_ & ? & _). lia.
Qed.

(** The rows an UPDATE of PENDING commands affects. *)
Lemma pending_all t ids : (forall id, id ∈ ids -> exists c, tb_commands t !! id = Some c /\ cmd_Status c = CommandPending) -> pending_commands t ids = ids.
Proof. intros H. unfold pending_commands. apply filter_all. intros id Hid. destruct (H id Hid) as (c & -> & Est). cbn. by rewrite Est. Qed.

Lemma mark_ok_pending ids w w' : mark_commands ids w = (Ok tt, w') -> pending_commands (w_tables w) ids = ids.
Proof.
  intros H. unfold mark_commands, mbind, M_bind, stmt, get_db, put_db in H. assert (Hl : length (pending_commands (w_tables w) ids) = length ids).
  { destruct w as [t sq [|[] fs]]; cbn in H; try done; destruct (decide _) as [Hd|Hd] in H; try done; cbn; lia. }
  unfold pending_commands in *. clear H. induction ids as [|x ids IH]; [done|]. rewrite filter_cons in *. destruct (decide _); cbn in *; [f_equal; apply IH; lia|].
  pose proof (length_filter (fun id => cmd_Status <$> tb_commands (w_tables w) !! id = Some CommandPending) ids). lia.
Qed.

Lemma mark_result ids w w' : mark_commands ids w = (Ok tt, w') -> pending_commands (w_tables w) ids = ids ->
  w_tables w' = marked_commands ids (w_tables w) /\ w_seqs w' = w_seqs w.
Proof.
  intros H Hp. unfold mark_commands, mbind, M_bind, stmt, get_db, put_db in H. destruct w as [t sq [|[] fs]]; cbn in H, Hp; try done; rewrite Hp in H; destruct (decide _); try done; by injection H as <-.
Qed.

Definition committed_events (t : Tables) (batch : list OrderCancelled) : Tables := marked_commands (map c_CommandID batch) t.

Lemma marked_cases t batch id c' : NoDup (map c_CommandID batch) -> tb_commands (committed_events t batch) !! id = Some c' ->
  exists c, tb_commands t !! id = Some c /\ cmd_ID c' = cmd_ID c /\ cmd_OrderID c' = cmd_OrderID c
    /\ (if decide (id ∈ map c_CommandID batch) then cmd_Status c' = CommandProcessed else c' = c).
Proof.
  intros Hnd H. cbn in H. rewrite marked_row in H by done. destruct (decide _); [|by exists c']. apply fmap_Some in H as (c & Hc & ->). by exists c.
Qed.

Lemma marked_present t batch id c : NoDup (map c_CommandID batch) -> tb_commands t !! id = Some c ->
  tb_commands (committed_events t batch) !! id = Some (if decide (id ∈ map c_CommandID batch) then command_processed c else c).
Proof. intros Hnd Hc. cbn. rewrite marked_row by done. rewrite Hc. by destruct (decide _). Qed.

Lemma commit_evolves t sq seen book removed batch rest : commands_ok t sq seen book removed (batch ++ rest) -> pending_commands t (map c_CommandID batch) = map c_CommandID batch ->
  evolves seen removed t (committed_events t batch).
Proof.
  intros Hok Hp id c Hc. destruct (batch_distinct _ _ _ _ _ _ _ Hok) as [Hnd _]. eexists. split; [by apply marked_present|]. destruct (decide _) as [Hin|_]; [|by auto]. split; [done|]. right.
  assert (Hin' : id ∈ pending_commands t (map c_CommandID batch)) by (by rewrite Hp). apply list_elem_of_filter in Hin' as [Hst _]. rewrite Hc in Hst. injection Hst as Hst. split; [done|]. left. split; [done|].
  apply list_elem_of_fmap in Hin as (ev & -> & Hin). destruct (co_events _ _ _ _ _ _ Hok ev) as (Hr & c0 & Hc0 & Eo & _); [apply elem_of_app; by left|]. cbn. congruence.
Qed.

Lemma commands_commit t sq seen book removed batch rest : commands_ok t sq seen book removed (batch ++ rest) -> commands_ok (committed_events t batch) sq seen book removed rest.
Proof.
  intros Hok. pose proof (event_ids_distinct _ _ _ _ _ _ Hok) as Hids. rewrite map_app in Hids. apply NoDup_app in Hids as (Hb & Hbr & _).
  destruct Hok as [Hrows Huniq Hords Hended Hbook Hev Hnd]. split; try done.
  - intros id c' Hc'. destruct (marked_cases _ _ _ _ Hb Hc') as (c & Hc & Ei & Eo & _). rewrite Ei, Eo. by apply Hrows.
  - intros i j a b Ha Hb' E. destruct (marked_cases _ _ _ _ Hb Ha) as (a0 & Ha0 & _ & Eo & _). destruct (marked_cases _ _ _ _ Hb Hb') as (b0 & Hb0 & _ & Eo' & _). apply (Huniq i j a0 b0); congruence.
  - intros id c' Hc'. destruct (marked_cases _ _ _ _ Hb Hc') as (c & Hc & _ & Eo & Hst). destruct (decide _) as [Hin|_]; [|subst c'; by apply (Hended id c)].
    right; right; left. split; [done|]. rewrite Eo. apply list_elem_of_fmap in Hin as (ev & -> & Hin). destruct (Hev ev) as (Hr & c0 & Hc0 & Eo0 & _); [apply elem_of_app; by left|]. congruence.
  - intros ev Hin. destruct (Hev ev) as (Hr & c & Hc & Eo & Est); [apply elem_of_app; by right|]. split; [done|]. exists c. split_and!; try done.
    rewrite (marked_present _ _ _ _ Hb Hc), decide_False; [done|]. intros Hin'. apply (Hbr _ Hin'). by apply (list_elem_of_fmap_2 c_CommandID).
  - rewrite map_app in Hnd. by apply NoDup_app in Hnd as (_ & _ & ?).
Qed.

(** ** Settlement moves orders *)

Lemma commands_settle t t' sq seen book removed events : orders_move t t' -> commands_ok t sq seen book removed events -> commands_ok t' sq seen book removed events.
Proof.
  intros (Et & Hstay & Hkey) [Hrows Huniq Hords Hended Hbook Hev Hnd]. assert (Ec : tb_commands t' = tb_commands t) by (by rewrite Et). split; rewrite ?Ec; try done.
  intros id c Hc. destruct (Hrows id c Hc) as (E & Hid & Hex). split_and!; try done; try lia. by apply Hstay.
Qed.

(** ** The engine *)

(** A command the worker has called the engine for. *)
Definition called (t : Tables) (seen : N -> Prop) (removed : gset N) (id order : N) : Prop :=
  exists c, tb_commands t !! id = Some c /\ cmd_OrderID c = order /\ (cmd_Status c = CommandPending \/ ended_well seen removed c).

Lemma called_known t seen removed id order : called t seen removed id order -> known t id order.
Proof. intros (c & Hc & Eo & _). by exists c. Qed.

Lemma called_evolves t t' (seen seen' : N -> Prop) (removed removed' : gset N) id order : (forall o, seen o -> seen' o) -> removed ⊆ removed' -> evolves seen' removed' t t' ->
  called t seen removed id order -> called t' seen' removed' id order.
Proof.
  intros Hs Hr He (c & Hc & Eo & Hst). destruct (He id c Hc) as (c' & Hc' & Eo' & Hst'). exists c'. split_and!; [done|congruence|].
  destruct Hst' as [E|[_ H]]; [|by right]. destruct Hst as [Hst|Hst]; [left; congruence|right; by eapply ended_mono].
Qed.

Lemma commands_remove t sq seen book removed events id order ev : commands_ok t sq seen book removed events -> called t seen removed id order -> order ∈ book ->
  c_CommandID ev = id -> c_OrderID ev = order -> commands_ok t sq seen (book ∖ {[order]}) ({[order]} ∪ removed) (events ++ [ev]).
Proof.
  intros [Hrows Huniq Hords Hended Hbook Hev Hnd] (c & Hc & Eo & Hst) Hin Ei Eord. pose proof (Hbook _ Hin) as Hnr. split; try done.
  - intros i d Hd. destruct (Hended i d Hd) as [?|[?|?]]; [by left|by right; left|]. right; right. eapply ended_mono; [done| |done|done|done]. set_solver.
  - intros i Hi. apply elem_of_difference in Hi as [Hi Hne]. specialize (Hbook i Hi). set_solver.
  - intros e He. apply elem_of_app in He as [He|He%list_elem_of_singleton].
    + destruct (Hev e He) as (Hr & Hrest). split; [set_solver|done].
    + subst e. rewrite Ei, Eord. split; [set_solver|]. exists c. split_and!; try done. destruct Hst as [?|[[_ H]|[H1 H2]]]; [by left| |right; split; [done|congruence]]. rewrite Eo in H. done.
  - rewrite map_app. apply NoDup_app. split_and!; [done| |apply NoDup_singleton]. intros x Hx Hx'. apply list_elem_of_singleton in Hx'. subst x.
    apply list_elem_of_fmap in Hx as (e & E & He). destruct (Hev e He) as (Hr & _). rewrite <- E, Eord in Hr. done.
Qed.
End Commands.
End Store.

Section Worker.
Context {DL : DecimalLib} {TX : ErrorTexts} (config : CancelWorkerConfig) (before : N -> Prop).
Local Open Scope Z_scope.

(** ** The worker and its calls *)

(** A PENDING command whose event is on its way. *)
Definition underway (t : Tables) (events : list OrderCancelled) (id : N) : Prop :=
  forall c, tb_commands t !! id = Some c -> cmd_Status c = CommandPending -> id ∈ map c_CommandID events.

(** The commands the engine is being called for, or whose answer is not applied. *)
Definition active (calls : list CancelOrderCommand) (results : list cancelCommandResult) : list N := map cc_CommandID calls ++ map cq_commandID results.

Record known_parts (t : Tables) (seen : N -> Prop) (removed : gset N) (events : list OrderCancelled) (f : in_flight) (calls queue : list CancelOrderCommand) (results : list cancelCommandResult) : Prop := {
  kp_calls : forall c, c ∈ calls -> called t seen removed (cc_CommandID c) (cc_OrderID c);
  kp_queue : forall c, c ∈ queue -> called t seen removed (cc_CommandID c) (cc_OrderID c);
  kp_results : forall r, r ∈ results -> known t (cq_commandID r) (cq_orderID r) /\ (cr_Err (cq_result r) = None -> underway t events (cq_commandID r));
  kp_entries : forall id e, f !! id = Some e -> is_Some (tb_commands t !! id) /\ (cf_phase e = cancelCommandAwaitingOutbox -> underway t events id) }.

Record counted (at_ : worker_control) (f : in_flight) (dispatching : Z) (calls : list CancelOrderCommand) (results : list cancelCommandResult) : Prop := {
  ct_distinct : NoDup (active calls results);
  ct_count : dispatching = Z.of_nat (length (active calls results));
  ct_bound : dispatching <= maxDispatch config;
  ct_running : at_ = Running -> forall id, phase_of f id = Some cancelCommandDispatching <-> id ∈ active calls results;
  ct_returned : at_ = WorkerReturned -> dispatching = 0 }.

Definition cancel_ok (seen : N -> Prop) (s : cancel_system) : Prop :=
  let t := w_tables (k_world s) in
  commands_ok before t (w_seqs (k_world s)) seen (k_book s) (k_removed s) (k_events s)
  /\ known_parts t seen (k_removed s) (k_events s) (k_inFlight s) (k_calls s) (k_queue s) (k_results s)
  /\ counted (k_at s) (k_inFlight s) (k_dispatching s) (k_calls s) (k_results s).

Lemma known_evolves t t' seen removed id order : evolves seen removed t t' -> known t id order -> known t' id order.
Proof. intros He (c & Hc & Eo). destruct (He id c Hc) as (c' & Hc' & Eo' & _). exists c'. split; [done|congruence]. Qed.

Lemma underway_evolves t t' seen removed events events' id : evolves seen removed t t' -> is_Some (tb_commands t !! id) ->
  (forall c', tb_commands t' !! id = Some c' -> cmd_Status c' = CommandPending -> id ∈ map c_CommandID events -> id ∈ map c_CommandID events') ->
  underway t events id -> underway t' events' id.
Proof. intros He [c Hc] Hev Hu c' Hc' Hst. apply (Hev c' Hc' Hst). apply (Hu c Hc). by eapply evolves_pending. Qed.

(** The store moves on. *)
Lemma parts_evolve t t' (seen seen' : N -> Prop) (removed removed' : gset N) events events' f calls queue results :
  (forall o, seen o -> seen' o) -> removed ⊆ removed' -> evolves seen' removed' t t' ->
  (forall id c', tb_commands t' !! id = Some c' -> cmd_Status c' = CommandPending -> id ∈ map c_CommandID events -> id ∈ map c_CommandID events') ->
  known_parts t seen removed events f calls queue results -> known_parts t' seen' removed' events' f calls queue results.
Proof.
  intros Hs Hrm He Hev [Hc Hq Hr Hf]. split.
  - intros c Hin. eapply called_evolves; eauto.
  - intros c Hin. eapply called_evolves; eauto.
  - intros r Hin. destruct (Hr r Hin) as [Hk Hu]. split; [by eapply known_evolves|]. intros E. destruct Hk as (c & Hc0 & _). eapply underway_evolves; [done| |by apply Hev|by apply Hu]. by exists c.
  - intros id e Hid. destruct (Hf id e Hid) as [[c Hc0] Hu]. split; [destruct (He id c Hc0) as (c' & ? & _); by exists c'|]. intros E. eapply underway_evolves; [done| |by apply Hev|by apply Hu]. by exists c.
Qed.

Lemma active_app l1 l2 r1 r2 c : active (l1 ++ c :: l2) (r1 ++ r2) ≡ₚ cc_CommandID c :: active (l1 ++ l2) (r1 ++ r2).
Proof. unfold active. rewrite !map_app. cbn. by rewrite <- !Permutation_middle. Qed.

Lemma active_answer calls results l1 l2 c res : calls = l1 ++ c :: l2 -> active (l1 ++ l2) (results ++ [return_result c res]) ≡ₚ active calls results.
Proof. intros ->. unfold active. rewrite !map_app. cbn. rewrite <- (Permutation_middle (map cc_CommandID l1)). rewrite (app_assoc _ _ [_]), <- Permutation_cons_append. done. Qed.

Lemma active_take calls results l1 l2 r : results = l1 ++ r :: l2 -> active calls results ≡ₚ cq_commandID r :: active calls (l1 ++ l2).
Proof. intros ->. unfold active. rewrite !map_app. cbn. by rewrite <- !Permutation_middle. Qed.

Lemma counted_perm at_ f d calls results calls' results' : active calls' results' ≡ₚ active calls results -> counted at_ f d calls results -> counted at_ f d calls' results'.
Proof. intros Hp [H1 H2 H3 H4 H5]. split; rewrite ?Hp; try done. intros Hat id. rewrite Hp. by apply H4. Qed.

(** ** A round of the worker *)

Lemma settles_phase f f' id : settles f f' -> phase_of f' id = Some cancelCommandDispatching <-> phase_of f id = Some cancelCommandDispatching.
Proof.
  intros Hs. specialize (Hs id). unfold phase_of in *. destruct (f' !! id) as [e'|]; cbn.
  - destruct Hs as (e & -> & -> & _). done.
  - split; [done|]. intros Hd. destruct Hs as [E|E]; rewrite E in Hd; done.
Qed.

Lemma settles_parts t seen removed events f f' calls queue results : settles f f' -> known_parts t seen removed events f calls queue results -> known_parts t seen removed events f' calls queue results.
Proof.
  intros Hs [Hc Hq Hr Hf]. split; try done. intros id e' He'. specialize (Hs id). rewrite He' in Hs. destruct Hs as (e & He & Ep & _). destruct (Hf id e He) as [H1 H2]. split; [done|]. rewrite Ep. done.
Qed.

Lemma starts_parts now d f t seen removed events calls queue results started : commands_keyed t -> started = [] \/ started = starts config now d f t ->
  known_parts t seen removed events f calls queue results -> known_parts t seen removed events (foldl mark_started f started) (calls ++ map engine_command started) queue results.
Proof.
  intros Hk Hst [Hc Hq Hr Hf]. assert (Hrow : forall c, c ∈ started -> tb_commands t !! cmd_ID c = Some c /\ cmd_Status c = CommandPending).
  { intros c Hin. destruct Hst as [->| ->]; [by apply elem_of_nil in Hin|]. destruct (starts_spec config now d f t Hk) as (_ & _ & H). by destruct (H c Hin) as (? & ? & _). }
  split; try done.
  - intros c Hin. apply elem_of_app in Hin as [Hin|Hin]; [by apply Hc|]. apply list_elem_of_fmap in Hin as (row & -> & Hin). destruct (Hrow row Hin) as [H1 H2]. exists row. cbn. by auto.
  - intros id e He. pose proof (started_entries started f id) as Hp. unfold phase_of at 1 in Hp. rewrite He in Hp. destruct (decide _) as [Hin|Hin].
    + apply list_elem_of_fmap in Hin as (row & -> & Hin). split; [exists row; by apply Hrow|]. injection Hp as ->. done.
    + symmetry in Hp. unfold phase_of in Hp. apply fmap_Some in Hp as (e0 & He0 & Ep). destruct (Hf id e0 He0) as [H1 H2]. split; [done|]. rewrite Ep. done.
Qed.

Lemma starts_counted now d f t calls results started : commands_keyed t -> started = [] \/ started = starts config now d f t -> counted Running f d calls results ->
  counted Running (foldl mark_started f started) (d + Z.of_nat (length started)) (calls ++ map engine_command started) results.
Proof.
  intros Hk Hst [Hnd Hct Hb Hrun _]. assert (Hspec : NoDup (map cmd_ID started) /\ Z.of_nat (length started) <= Z.max 0 (maxDispatch config - d)
    /\ forall c, c ∈ started -> phase_of f (cmd_ID c) = Some cancelCommandBackoff \/ phase_of f (cmd_ID c) = None).
  { destruct Hst as [->| ->]; [split_and!; [constructor|cbn; lia|]; intros c Hc; by apply elem_of_nil in Hc|]. destruct (starts_spec config now d f t Hk) as (H1 & H2 & H3).
    split_and!; [done|lia|]. intros c Hc. by apply H3. }
  destruct Hspec as (Hnd' & Hlen & Hfree).
  assert (Hperm : active (calls ++ map engine_command started) results ≡ₚ map cmd_ID started ++ active calls results).
  { unfold active. rewrite map_app, map_map. cbn [engine_command cc_CommandID]. rewrite (Permutation_app_comm (map cc_CommandID calls)), <- app_assoc. done. }
  split; rewrite ?Hperm; try done.
  - apply NoDup_app. split_and!; [done| |done]. intros id Hid Hact. apply list_elem_of_fmap in Hid as (c & -> & Hc). apply (Hrun eq_refl) in Hact. destruct (Hfree c Hc); congruence.
  - rewrite length_app, length_map. lia.
  - lia.
  - intros _ id. rewrite Hperm, elem_of_app, started_entries. destruct (decide _) as [Hin|Hin]; [by split; [left|]|]. rewrite (Hrun eq_refl id). split; [by right|]. by intros [?|?].
Qed.

(** What a round needs of the worker, and what it leaves. *)
Definition worker_ok (t : Tables) (seen : N -> Prop) (removed : gset N) (events : list OrderCancelled) (f : in_flight) (d : Z) (calls queue : list CancelOrderCommand) (results : list cancelCommandResult) : Prop :=
  known_parts t seen removed events f calls queue results /\ counted Running f d calls results.

Lemma round_ok now t (seen : N -> Prop) removed events f d calls queue results res w' : (forall o, ~ open_in t o -> seen o) ->
  commands_keyed (w_tables w') -> worker_effect t (w_tables w') -> round config now d f res w' -> worker_ok t seen removed events f d calls queue results ->
  worker_ok (w_tables w') seen removed events res.1 (d + Z.of_nat (length res.2)) (calls ++ map engine_command res.2) queue results.
Proof.
  intros Hseen Hk He (f1 & Hs & -> & Hst) [Hp Hc].
  assert (Hp1 : known_parts (w_tables w') seen removed events f1 calls queue results) by (eapply settles_parts; [done|]; eapply parts_evolve; [done|done|by apply effect_evolves|done|done]).
  assert (Hc1 : counted Running f1 d calls results).
  { destruct Hc as [H1 H2 H3 H4 H5]. split; try done. intros _ id. rewrite (settles_phase _ _ _ Hs). by apply H4. }
  split; [by eapply starts_parts|by eapply starts_counted].
Qed.

Lemma applied_ok r t seen removed events f f' d calls queue l1 l2 : result_applied r f f' -> worker_ok t seen removed events f d calls queue (l1 ++ r :: l2) ->
  worker_ok t seen removed events f' (d - 1) calls queue (l1 ++ l2).
Proof.
  intros [Hr Hother] [[Hc Hq Hrs Hf] [Hnd Hct Hb Hrun _]]. pose proof (active_take calls _ l1 l2 r eq_refl) as Hperm. rewrite Hperm in Hnd. apply NoDup_cons in Hnd as [Hnew Hnd].
  assert (Hrin : r ∈ l1 ++ r :: l2) by (apply elem_of_app; right; by left). destruct (Hrs r Hrin) as [Hkn Hu]. split; split; try done.
  - intros r' Hin. apply Hrs. apply elem_of_app in Hin as [?|?]; apply elem_of_app; [by left|right; by right].
  - intros id e He. destruct (decide (id = cq_commandID r)) as [->|Hne]; [|apply (Hf id e); by rewrite <- Hother].
    split; [destruct Hkn as (c & Hc0 & _); by exists c|]. intros Ea. apply Hu. unfold answered_phase, phase_of in Hr. rewrite He in Hr. cbn in Hr.
    destruct (cr_Err (cq_result r)); [|done]. rewrite Ea in Hr. by destruct Hr.
  - rewrite Hct, Hperm. cbn. lia.
  - lia.
  - intros _ id. destruct (decide (id = cq_commandID r)) as [->|Hne].
    + split; [|done]. unfold answered_phase in Hr. intros E. rewrite E in Hr. destruct (cr_Err _); [by destruct Hr|done].
    + unfold phase_of. rewrite Hother by done. fold (phase_of f id). rewrite (Hrun eq_refl id), Hperm, elem_of_cons. split; [by intros [?|?]|by right].
Qed.

(** An answer: the worker knows its command, and has it marked. *)
Lemma result_ready r t seen removed events f d calls queue results : worker_ok t seen removed events f d calls queue results -> r ∈ results -> known t (cq_commandID r) (cq_orderID r) /\ is_Some (f !! cq_commandID r).
Proof.
  intros [[_ _ Hr _] [_ _ _ Hrun _]] Hin. split; [by apply Hr|]. assert (Ha : cq_commandID r ∈ active calls results) by (apply elem_of_app; right; by apply (list_elem_of_fmap_2 cq_commandID)).
  apply (Hrun eq_refl) in Ha. unfold phase_of in Ha. destruct (f !! _); [by eexists|done].
Qed.

(** ** Every step keeps the invariant *)

Lemma ok_keyed seen s : cancel_ok seen s -> commands_keyed (w_tables (k_world s)).
Proof. intros [Hok _] id c Hc. by apply (co_rows _ _ _ _ _ _ _ Hok). Qed.

(** More orders have been seen closed. *)
Lemma cancel_ok_seen (seen seen' : N -> Prop) s : (forall o, seen o -> seen' o) -> cancel_ok seen s -> cancel_ok seen' s.
Proof.
  intros Hs (Hok & Hp & Hc). split_and!; [by eapply commands_seen| |done]. eapply parts_evolve; [exact Hs|done|by apply evolves_same|done|exact Hp].
Qed.

(** The orders that are closed now have been seen. *)
Definition sees (seen : N -> Prop) (s : cancel_system) : Prop := forall o, ~ open_in (w_tables (k_world s)) o -> seen o.

Lemma cancel_ok_stop seen s at_ : cancel_ok seen s -> at_ <> Running -> (at_ = WorkerReturned -> k_dispatching s <= 0) -> cancel_ok seen (s <| k_at := at_ |>).
Proof.
  intros (Hok & Hp & [H1 H2 H3 H4 H5]) Hat Hret. split_and!; [done|done|]. split; try done. cbn. intros E. specialize (Hret E). lia.
Qed.

Lemma does_result {A} (m : M A) Q w a w' : does m Q w -> m w = (Ok a, w') -> effects w w' /\ Q a w'.
Proof. intros [He HQ] E. rewrite E in *. split; [done|by apply HQ]. Qed.

Lemma tick_ok seen now s w f started : sees seen s -> cancel_ok seen s -> k_at s = Running -> tick_iteration config now (k_dispatching s) (k_inFlight s) (k_world s) = (Ok (f, started), w) ->
  cancel_ok seen (after_round w f started (k_dispatching s) s).
Proof.
  intros Hsee Hs Hat E. pose proof (ok_keyed seen s Hs) as Hk. destruct Hs as (Hok & Hp & Hc). rewrite Hat in Hc.
  destruct (does_result _ _ _ _ _ (tick_does config now _ _ _ Hk) E) as [He Hr].
  destruct (round_ok now _ seen _ _ _ _ _ _ _ _ _ Hsee (effects_keyed _ _ He Hk) (proj1 He) Hr (conj Hp Hc)) as [Hp' Hc']. unfold cancel_ok. cbn. rewrite Hat. split_and!; [by eapply commands_effect|done|done].
Qed.

Lemma take_result_ok seen now s r l1 l2 w f started : sees seen s -> cancel_ok seen s -> k_at s = Running -> k_results s = l1 ++ r :: l2 ->
  result_iteration config now r (k_dispatching s) (k_inFlight s) (k_world s) = (Ok (f, started), w) ->
  cancel_ok seen ((after_round w f started (k_dispatching s - 1) s) <| k_results := l1 ++ l2 |>).
Proof.
  intros Hsee Hs Hat El E. pose proof (ok_keyed seen s Hs) as Hk. destruct Hs as (Hok & Hp & Hc). rewrite Hat in Hc.
  assert (Hin : r ∈ k_results s) by (rewrite El; apply elem_of_app; right; by left). destruct (result_ready r _ _ _ _ _ _ _ _ _ (conj Hp Hc) Hin) as [Hkn Hf].
  destruct (does_result _ _ _ _ _ (result_does config now r (k_dispatching s) _ _ Hk Hkn Hf) E) as [He (f1 & Ha & Hr)]. rewrite El in Hp, Hc.
  pose proof (applied_ok _ _ _ _ _ _ _ _ _ _ _ _ Ha (conj Hp Hc)) as Hw.
  destruct (round_ok now _ seen _ _ _ _ _ _ _ _ _ Hsee (effects_keyed _ _ He Hk) (proj1 He) Hr Hw) as [Hp' Hc']. unfold cancel_ok. cbn. rewrite Hat. split_and!; [by eapply commands_effect|done|done].
Qed.

Lemma last_result_ok seen now s r l1 l2 w f : sees seen s -> cancel_ok seen s -> k_at s = Running -> k_results s = l1 ++ r :: l2 ->
  applyResult config now r (k_inFlight s) (k_world s) = (Ok f, w) ->
  cancel_ok seen ((after_round w f [] (k_dispatching s - 1) s) <| k_results := l1 ++ l2 |> <| k_at := Draining |>).
Proof.
  intros Hsee (Hok & Hp & Hc) Hat El E. rewrite Hat in Hc.
  assert (Hin : r ∈ k_results s) by (rewrite El; apply elem_of_app; right; by left). destruct (result_ready r _ _ _ _ _ _ _ _ _ (conj Hp Hc) Hin) as [Hkn Hf].
  destruct (does_result _ _ _ _ _ (applyResult_does config now r _ _ Hkn Hf) E) as [He Ha]. rewrite El in Hp, Hc.
  destruct (applied_ok _ _ _ _ _ _ _ _ _ _ _ _ Ha (conj Hp Hc)) as [Hp' [H1 H2 H3 H4 H5]]. unfold cancel_ok. cbn. rewrite app_nil_r.
  split_and!; [by eapply commands_effect|eapply parts_evolve; [done|done|apply effect_evolves; [exact Hsee|apply He]|done|done]|]. split; try done; lia.
Qed.

Lemma worker_step_ok seen s s' : worker_step config s s' -> sees seen s -> cancel_ok seen s -> cancel_ok seen s'.
Proof.
  intros Hstep Hsee Hs. destruct Hstep as [now s w f started Hat E|now s r l1 l2 w f started Hat El E|now s r l1 l2 w f Hat El E|s Hat|s r l1 l2 Hat Hd El|s Hat Hd].
  - by eapply tick_ok.
  - by eapply take_result_ok.
  - by eapply last_result_ok.
  - by apply cancel_ok_stop.
  - destruct Hs as (Hok & [Hc Hq Hr Hf] & [H1 H2 H3 H4 H5]). pose proof (active_take (k_calls s) _ l1 l2 r El) as Hperm. rewrite Hperm in H1, H2. unfold cancel_ok. cbn in *. rewrite Hat. split_and!; [done| |].
    + split; try done. intros r' Hin. apply Hr. rewrite El. apply elem_of_app in Hin as [?|?]; apply elem_of_app; [by left|right; by right].
    + split; try done; [by apply NoDup_cons in H1 as [_ ?]|lia|lia].
  - by apply cancel_ok_stop.
Qed.

(** An answer reaches the caller, or nobody. *)
Lemma answer_ok t seen removed events f calls queue results at_ d l1 answered l2 c res : calls = l1 ++ answered ++ l2 -> (answered = [] \/ answered = [c]) ->
  (cr_Err res = None -> underway t events (cc_CommandID c)) -> known_parts t seen removed events f calls queue results -> counted at_ f d calls results ->
  known_parts t seen removed events f (l1 ++ l2) queue (results ++ map (fun c => return_result c res) answered) /\ counted at_ f d (l1 ++ l2) (results ++ map (fun c => return_result c res) answered).
Proof.
  intros El Ha Hu Hp Hc. destruct Ha as [-> | ->]; cbn [map app] in *; [subst calls; by rewrite app_nil_r|]. split; [|eapply counted_perm; [by apply active_answer|done]].
  destruct Hp as [Hcalls Hq Hr Hf]. split; try done.
  - intros d' Hin. apply Hcalls. rewrite El. apply elem_of_app in Hin as [?|?]; apply elem_of_app; [by left|right; by right].
  - intros r Hin. apply elem_of_app in Hin as [Hin|Hin%list_elem_of_singleton]; [by apply Hr|]. subst r. split; [|done]. eapply called_known, Hcalls. rewrite El. apply elem_of_app. right. by left.
Qed.

Lemma parts_queue t seen removed events f calls queue queue' results : (forall c, c ∈ queue' -> called t seen removed (cc_CommandID c) (cc_OrderID c)) ->
  known_parts t seen removed events f calls queue results -> known_parts t seen removed events f calls queue' results.
Proof. intros Hq [H1 _ H3 H4]. by split. Qed.

Lemma remaining_known {P : CancelOrderCommand -> Prop} q q1 c q2 : q = q1 ++ c :: q2 -> (forall x, x ∈ q -> P x) -> forall x, x ∈ q1 ++ q2 -> P x.
Proof. intros -> H x Hin. apply H. apply elem_of_app in Hin as [?|?]; apply elem_of_app; [by left|right; by right]. Qed.

Lemma engine_step_ok seen s s' : engine_step s s' -> cancel_ok seen s -> cancel_ok seen s'.
Proof.
  intros Hstep (Hok & Hp & Hc). destruct Hstep as [s c l1 l2 err El Hne|s c Hin|s c q1 q2 l1 l2 answered eid Eq Hb El Ha|s c q1 q2 l1 l2 answered Eq El Ha|s id Hr|s id]; unfold cancel_ok; cbn.
  - split; [done|]. apply (answer_ok _ _ _ _ _ (k_calls s) _ _ _ _ l1 [c] l2 c); try done. by right.
  - split_and!; try done. eapply parts_queue; [|done]. intros x Hx. apply elem_of_app in Hx as [Hx|Hx%list_elem_of_singleton]; [by apply (kp_queue _ _ _ _ _ _ _ _ Hp)|subst x; by apply (kp_calls _ _ _ _ _ _ _ _ Hp)].
  - assert (Hk : called (w_tables (k_world s)) seen (k_removed s) (cc_CommandID c) (cc_OrderID c)) by (apply (kp_queue _ _ _ _ _ _ _ _ Hp); rewrite Eq; apply elem_of_app; right; by left).
    set (ev := mkCancelled _ _ _ _ _). split; [by apply (commands_remove _ _ _ _ _ _ _ (cc_CommandID c))|].
    assert (Hp' : known_parts (w_tables (k_world s)) seen ({[cc_OrderID c]} ∪ k_removed s) (k_events s ++ [ev]) (k_inFlight s) (k_calls s) (q1 ++ q2) (k_results s)).
    { assert (Hp1 : known_parts (w_tables (k_world s)) seen ({[cc_OrderID c]} ∪ k_removed s) (k_events s ++ [ev]) (k_inFlight s) (k_calls s) (k_queue s) (k_results s)).
      { eapply (parts_evolve _ _ seen seen (k_removed s)); [done|set_solver|by apply evolves_same| |exact Hp]. intros id c' _ _ Hin. rewrite map_app. apply elem_of_app. by left. }
      eapply parts_queue; [|exact Hp1]. by apply (remaining_known _ _ _ _ Eq), (kp_queue _ _ _ _ _ _ _ _ Hp1). }
    apply (answer_ok _ _ _ _ _ (k_calls s) _ _ _ _ l1 answered l2 c); try done. intros _ c' _ _. rewrite map_app. apply elem_of_app. right. by left.
  - split; [done|]. apply (answer_ok _ _ _ _ _ (k_calls s) _ _ _ _ l1 answered l2 c); try done. eapply parts_queue; [|exact Hp]. by apply (remaining_known _ _ _ _ Eq), (kp_queue _ _ _ _ _ _ _ _ Hp).
  - split_and!; try done. destruct Hok as [H1 H2 H3 H4 H5 H6 H7]. split; try done. intros i Hi. apply elem_of_union in Hi as [Hi%elem_of_singleton|Hi]; [by subst i|by apply H5].
  - split_and!; try done. destruct Hok as [H1 H2 H3 H4 H5 H6 H7]. split; try done. intros i Hi. apply elem_of_difference in Hi as [Hi _]. by apply H5.
Qed.

Lemma committed_step seen s batch rest w : cancel_ok seen s -> k_events s ≡ₚ batch ++ rest ->
  mark_commands (dedupeNonzeroUint64 (map c_CommandID batch)) (k_world s) = (Ok tt, w) ->
  commands_ok before (w_tables (k_world s)) (w_seqs (k_world s)) seen (k_book s) (k_removed s) (batch ++ rest) /\ NoDup (map c_CommandID batch)
  /\ w_tables w = committed_events (w_tables (k_world s)) batch /\ w_seqs w = w_seqs (k_world s) /\ evolves seen (k_removed s) (w_tables (k_world s)) (w_tables w).
Proof.
  intros (Hok & _) Eb Hm. apply (commands_perm _ _ _ _ _ _ _ _ Eb) in Hok. destruct (batch_distinct _ _ _ _ _ _ _ _ Hok) as [Hnd Ed]. rewrite Ed in Hm. pose proof (mark_ok_pending _ _ _ Hm) as Ep.
  destruct (mark_result _ _ _ Hm Ep) as [Et Es]. split_and!; try done. rewrite Et. by eapply commit_evolves.
Qed.

Lemma other_step_ok seen s s' : other_step s s' -> cancel_ok seen s -> cancel_ok seen s'.
Proof.
  intros Hstep Hs. pose proof Hs as (Hok & Hp & Hc). destruct Hstep as [u id s|s batch rest w Eb Hm|s t Hmove|s fs]; unfold cancel_ok; cbn.
  - pose proof (CancelOrder_requested u id (k_world s) (co_orders _ _ _ _ _ _ _ Hok)) as Hreq. split_and!; [by eapply commands_requested| |done]. eapply parts_evolve; [done|done|by eapply requested_evolves|done|done].
  - destruct (committed_step seen s batch rest w Hs Eb Hm) as (Hok' & Hnd & Et & Es & He).
    split_and!; [rewrite Et, Es; by apply commands_commit| |done]. eapply parts_evolve; [done|done|exact He| |exact Hp].
    intros id c' Hc' Hst Hin. rewrite Eb, map_app in Hin. apply elem_of_app in Hin as [Hin|Hin]; [|done]. rewrite Et in Hc'. destruct (marked_cases _ _ _ _ Hnd Hc') as (c & _ & _ & _ & Hd). rewrite decide_True in Hd by done. congruence.
  - split_and!; [by eapply commands_settle| |done]. eapply parts_evolve; [done|done| |done|exact Hp]. apply evolves_same. by destruct Hmove as [-> _].
  - by split_and!.
Qed.
End Worker.

Section Runs.
Context {DL : DecimalLib} {TX : ErrorTexts} (config : CancelWorkerConfig).
Local Open Scope Z_scope.

(** A worker that starts: nothing in progress, the book to be filled; each order has at
    most one command, of any status. *)
Record fresh_start (s : cancel_system) : Prop := {
  fs_idle : k_inFlight s = ∅ /\ k_dispatching s = 0 /\ k_at s = Running /\ k_calls s = [] /\ k_results s = [] /\ k_queue s = [] /\ k_book s = ∅ /\ k_removed s = ∅ /\ k_events s = [];
  fs_rows : forall id c, tb_commands (w_tables (k_world s)) !! id = Some c -> cmd_ID c = id /\ (0 < id <= seq_value (w_seqs (k_world s)) "cancel_commands")%N
    /\ is_Some (tb_orders (w_tables (k_world s)) !! cmd_OrderID c);
  fs_unique : forall i j c d, tb_commands (w_tables (k_world s)) !! i = Some c -> tb_commands (w_tables (k_world s)) !! j = Some d -> cmd_OrderID c = cmd_OrderID d -> i = j;
  fs_orders : forall id o, tb_orders (w_tables (k_world s)) !! id = Some o -> r_ID o = id }.

(** The commands that are finished in a state. *)
Definition finished_before (s : cancel_system) (id : N) : Prop := exists c, tb_commands (w_tables (k_world s)) !! id = Some c /\ cmd_Status c <> CommandPending.

(** At some time of the run from [s] to [s'] the database showed the order as not open. *)
Definition was_closed (s s' : cancel_system) (order : N) : Prop :=
  exists s1, rtc (cancel_step config) s s1 /\ rtc (cancel_step config) s1 s' /\ ~ open_in (w_tables (k_world s1)) order.

Lemma maxDispatch_positive : 0 < maxDispatch config.
Proof. unfold maxDispatch, positive_or, defaultCancelCommandMaxDispatch. destruct (Z.ltb_spec 0 (MaxDispatch config)); lia. Qed.

Lemma fresh_ok s seen : fresh_start s -> cancel_ok config (finished_before s) seen s.
Proof.
  intros [(Ef & Ed & Ea & Ec & Er & Eq & Eb & Em & Ee) Hrows Huniq Hord]. unfold cancel_ok. rewrite Ef, Ed, Ea, Ec, Er, Eq, Eb, Em, Ee. split_and!.
  - split; [exact Hrows|exact Huniq|exact Hord| |intros id Hid; by apply elem_of_empty in Hid|intros ev Hev; by apply elem_of_nil in Hev|constructor].
    intros id c Hc. destruct (decide (cmd_Status c = CommandPending)); [by left|]. right; left. by exists c.
  - split; try (intros x Hx; by apply elem_of_nil in Hx). intros id e He. by rewrite lookup_empty in He.
  - pose proof maxDispatch_positive. split; try done; [constructor|lia|]. intros _ id. unfold phase_of. rewrite lookup_empty. split; [done|]. intros Hin. by apply elem_of_nil in Hin.
Qed.

Lemma step_ok before seen s s' : cancel_step config s s' -> sees seen s -> cancel_ok config before seen s -> cancel_ok config before seen s'.
Proof. intros [Hstep|[Hstep|Hstep]] Hsee Hs; [by eapply worker_step_ok|by eapply engine_step_ok|by eapply other_step_ok]. Qed.

Lemma reach_ok s s' : fresh_start s -> rtc (cancel_step config) s s' -> cancel_ok config (finished_before s) (was_closed s s') s'.
Proof.
  intros Hs Hr. revert s' Hr. refine (rtc_ind_r _ s _ _); [by apply fresh_ok|]. intros y z Hxy Hyz IH. eapply step_ok; [exact Hyz| |].
  - intros o Ho. exists y. split_and!; [done|by apply rtc_once|done].
  - eapply cancel_ok_seen; [|exact IH]. intros o (s1 & H1 & H2 & H3). exists s1. split_and!; [done|by eapply rtc_r|done].
Qed.
End Runs.

Section Theorems.
Context {DL : DecimalLib} {TX : ErrorTexts} (config : CancelWorkerConfig).
Local Open Scope Z_scope.

(** C12 What a cancellation hands to the writer of the outbox.  Whatever the order of the
    steps of worker, engine, users, settlement and writer, whatever fails in the database
    and whatever the commands were when the worker started: the events of cancelled
    orders that are on their way name stored commands, each of its order and each once,
    that are PENDING, or NOOP because the database showed the order as closed at some
    time of the run.  So when no command of a batch is NOOP, the UPDATE that marks the
    commands affects exactly as many rows as the writer expects, and with a working
    database it goes through; no command is marked twice or by another order's event. *)
Theorem cancel_events_accepted s s' batch rest : fresh_start s -> rtc (cancel_step config) s s' -> k_events s' ≡ₚ batch ++ rest ->
  let ids := dedupeNonzeroUint64 (map c_CommandID batch) in
  ids = map c_CommandID batch /\ NoDup ids
  /\ (forall ev, ev ∈ batch -> exists c, tb_commands (w_tables (k_world s')) !! c_CommandID ev = Some c /\ cmd_OrderID c = c_OrderID ev
        /\ (cmd_Status c = CommandPending \/ (cmd_Status c = CommandNoop /\ was_closed config s s' (c_OrderID ev))))
  /\ ((forall ev c, ev ∈ batch -> tb_commands (w_tables (k_world s')) !! c_CommandID ev = Some c -> cmd_Status c <> CommandNoop) ->
        pending_commands (w_tables (k_world s')) ids = ids /\ (w_faults (k_world s') = [] -> (mark_commands ids (k_world s')).1 = Ok tt)).
Proof.
  intros Hs Hr Eb. cbv zeta. destruct (reach_ok config s s' Hs Hr) as (Hok & _). apply (commands_perm _ _ _ _ _ _ _ _ Eb) in Hok.
  destruct (batch_distinct _ _ _ _ _ _ _ _ Hok) as [Hnd Ed]. rewrite Ed. assert (Hev : forall ev, ev ∈ batch -> ev ∈ batch ++ rest) by (intros ev Hin; apply elem_of_app; by left).
  split; [done|]. split; [done|]. split; [intros ev Hin; by apply (co_events _ _ _ _ _ _ _ Hok ev (Hev ev Hin))|]. intros Hnoop.
  assert (Ep : pending_commands (w_tables (k_world s')) (map c_CommandID batch) = map c_CommandID batch).
  { apply pending_all. intros id Hid. apply list_elem_of_fmap in Hid as (ev & -> & Hin). destruct (co_events _ _ _ _ _ _ _ Hok ev (Hev ev Hin)) as (_ & c & Hc & _ & Hst).
    exists c. split; [done|]. destruct Hst as [?|[Hst _]]; [done|]. by destruct (Hnoop ev c Hin Hc). }
  split; [done|]. intros Hf. unfold mark_commands, mbind, M_bind, stmt, get_db, put_db. rewrite Hf. rewrite Ep. by destruct (decide _).
Qed.

(** At most one call per command, and no more calls than allowed.  In every
    reachable state the commands inside the engine, or whose answer the worker has not
    applied, are distinct; the worker's counter is their number and within
    [maxDispatch]; and when [Run] has returned, no call is left behind. *)
Theorem one_call_per_command s s' : fresh_start s -> rtc (cancel_step config) s s' ->
  NoDup (map cc_CommandID (k_calls s') ++ map cq_commandID (k_results s'))
  /\ k_dispatching s' = Z.of_nat (length (k_calls s') + length (k_results s')) /\ k_dispatching s' <= maxDispatch config
  /\ (k_at s' = WorkerReturned -> k_calls s' = [] /\ k_results s' = []).
Proof.
  intros Hs Hr. destruct (reach_ok config s s' Hs Hr) as (_ & _ & [H1 H2 H3 H4 H5]).
  assert (Hn : k_dispatching s' = Z.of_nat (length (k_calls s') + length (k_results s'))) by (rewrite H2; unfold active; by rewrite length_app, !length_map).
  split_and!; try done. intros E. specialize (H5 E). rewrite Hn in H5. split; apply length_zero_iff_nil; lia.
Qed.

(** ** No command is forgotten *)

Lemma released_run f w : w_faults w = [] -> exists f1, releaseCompleted f w = (Ok f1, w).
Proof.
  intros Hf. unfold releaseCompleted. destruct (awaiting_ids f) as [|a l] eqn:Ea; [by eexists|]. unfold FindStatuses, query, attempt, mbind, M_bind, stmt, get_db, mret, M_ret. rewrite Hf. by eexists.
Qed.

Lemma dispatched_run now d f w : w_faults w = [] ->
  dispatchReady config now d f w = (Ok (foldl mark_started f (starts config now d f (w_tables w)), starts config now d f (w_tables w)), w).
Proof.
  intros Hf. unfold dispatchReady, starts. destruct (Z.leb_spec (maxDispatch config - d) 0) as [Hle|Hlt].
  - by replace (Z.to_nat (maxDispatch config - d)) with 0%nat by lia.
  - unfold FindPending, query, attempt, mbind, M_bind, stmt, get_db, mret, M_ret. rewrite Hf. done.
Qed.

Lemma mark_started_other started f id : id ∉ map cmd_ID started -> foldl mark_started f started !! id = f !! id.
Proof.
  revert f. induction started as [|c started IH]; intros f Hn; [done|]. cbn in *. apply not_elem_of_cons in Hn as [Hne Hn]. rewrite IH by done. unfold mark_started. by rewrite lookup_insert_ne.
Qed.

(** What is not among the first of a sorted list. *)
Lemma take_missing (l : list CancelCommandRow) c n : StronglySorted N.lt (map cmd_ID l) -> c ∈ l -> cmd_ID c ∉ map cmd_ID (take n l) ->
  length (take n l) = n /\ Forall (fun d => (cmd_ID d < cmd_ID c)%N) (take n l).
Proof.
  revert n. induction l as [|x l IH]; intros n Hs Hin Hn; [by apply elem_of_nil in Hin|]. destruct n as [|n]; [done|]. cbn in *. inversion Hs as [|? ? Hs' Hall]; subst.
  apply not_elem_of_cons in Hn as [Hne Hn]. apply elem_of_cons in Hin as [->|Hin]; [done|]. destruct (IH n Hs' Hin Hn) as [E H]. split; [by rewrite E|]. constructor; [|done].
  rewrite List.Forall_forall in Hall. apply Hall, list_elem_of_In. by apply (list_elem_of_fmap_2 cmd_ID).
Qed.

(** C16 No command is forgotten.  In a reachable state with a working database, the
    next round of the worker leaves every PENDING command in one of these places: its
    call is running or its answer is to be applied; its event is on its way to the
    outbox; it waits for a time that has not come; or the round has used up its limits,
    all the calls allowed at once or all the rows of a scan, and the calls it started
    itself were for older commands (those already running may be of newer ones). *)
Theorem no_command_forgotten s s' now : fresh_start s -> rtc (cancel_step config) s s' -> k_at s' = Running -> w_faults (k_world s') = [] ->
  exists f started, tick_iteration config now (k_dispatching s') (k_inFlight s') (k_world s') = (Ok (f, started), k_world s')
  /\ let s2 := after_round (k_world s') f started (k_dispatching s') s' in
     forall id c, tb_commands (w_tables (k_world s2)) !! id = Some c -> cmd_Status c = CommandPending ->
       id ∈ map cc_CommandID (k_calls s2) \/ id ∈ map cq_commandID (k_results s2) \/ id ∈ map c_CommandID (k_events s2)
       \/ (exists e, k_inFlight s2 !! id = Some e /\ cf_phase e = cancelCommandBackoff /\ now < cf_nextAttemptAt e)
       \/ ((k_dispatching s2 = maxDispatch config \/ Z.of_nat (length started) = scanLimit config) /\ Forall (fun c => (cmd_ID c < id)%N) started).
Proof.
  intros Hs Hr Hat Hf. pose proof (reach_ok config s s' Hs Hr) as Hok. pose proof (ok_keyed _ _ _ _ Hok) as Hk. destruct Hok as (_ & Hp & Hc). rewrite Hat in Hc.
  set (t := w_tables (k_world s')) in *. destruct (released_run (k_inFlight s') _ Hf) as [f1 E1]. set (f2 := warnStaleAwaiting config now f1). set (started := starts config now (k_dispatching s') f2 t).
  assert (Hset : settles (k_inFlight s') f2).
  { eapply settles_trans; [|apply warn_settles]. by apply (does_result _ _ _ _ _ (releaseCompleted_does _ _ Hk) E1). }
  exists (foldl mark_started f2 started), started. split.
  { unfold tick_iteration, mbind, M_bind. rewrite E1. by apply dispatched_run. }
  cbn. intros id c Hrow Hst. destruct (decide (id ∈ map cmd_ID started)) as [Hin|Hnin].
  { left. rewrite map_app, map_map. apply elem_of_app. by right. }
  destruct (decide (id ∈ blockedIDs now f2)) as [Hb|Hb].
  - apply blocked_elem in Hb as (e & He & Hb). pose proof (settles_parts _ _ _ _ _ _ _ _ _ Hset Hp) as Hp2. destruct (cf_phase e) eqn:Eph.
    + assert (Ha : id ∈ active (k_calls s') (k_results s')) by (apply (ct_running _ _ _ _ _ _ Hc eq_refl), (settles_phase _ _ _ Hset); unfold phase_of; rewrite He; cbn; by rewrite Eph).
      apply elem_of_app in Ha as [Ha|Ha]; [left|by right; left]. rewrite map_app. apply elem_of_app. by left.
    + right; right; left. by apply (proj2 (kp_entries _ _ _ _ _ _ _ _ Hp2 id e He) Eph c Hrow).
    + right; right; right; left. exists e. rewrite mark_started_other by done. split_and!; [done|done|]. destruct (decide (cf_nextAttemptAt e <= now)); [|lia]. by destruct Hb.
  - right; right; right; right. assert (Hr' : c ∈ ready_commands now f2 t). { pose proof (Hk _ _ Hrow) as Eid. apply by_id_elem; [done|]. rewrite Eid. split; [done|]. by apply bool_decide_eq_true. }
    unfold started, starts in Hnin |- *. rewrite take_take in *. set (n := (Z.to_nat _ `min` Z.to_nat _)%nat) in *.
    destruct (take_missing (ready_commands now f2 t) c n (by_id_sorted _ _ Hk) Hr') as [El Hlt]; [by rewrite (Hk _ _ Hrow)|]. rewrite (Hk _ _ Hrow) in Hlt. rewrite El. split; [|done]. unfold n. pose proof (ct_bound _ _ _ _ _ _ Hc). destruct (decide (Z.to_nat (maxDispatch config - k_dispatching s') <= Z.to_nat (scanLimit config))%nat); [left; lia|right].
    assert (0 < scanLimit config) by (unfold scanLimit, positive_or, defaultCancelCommandScanLimit; destruct (Z.ltb_spec 0 (ScanLimit config)); lia). lia.
Qed.

Lemma drained_none s w : commands_keyed (w_tables (k_world s)) -> drain_poll (k_world s) = (Ok true, w) ->
  forall id c, tb_commands (w_tables (k_world s)) !! id = Some c -> cmd_Status c <> CommandPending.
Proof.
  intros Hk Hd id c Hc Hst. unfold drain_poll, CountPending in Hd. unfold mbind at 1, M_bind at 1 in Hd. destruct (query _ (k_world s)) as [[n|e] w1] eqn:Eq; [|done].
  pose proof (query_ok _ (k_world s) n (f_equal fst Eq)) as En. assert (Hz : (n =? 0)%nat = true) by (unfold mret, M_ret in Hd; congruence). apply Nat.eqb_eq in Hz. rewrite <- En in Hz. apply length_zero_iff_nil in Hz.
  assert (Hin : c ∈ commands_by_id (w_tables (k_world s)) (fun _ c => bool_decide (cmd_Status c = CommandPending))) by (apply by_id_elem; [done|]; rewrite (Hk _ _ Hc); by rewrite bool_decide_eq_true).
  rewrite Hz in Hin. by apply elem_of_nil in Hin.
Qed.

(** C29 The barrier of start-up.  When a poll of [WaitUntilDrained] finds no PENDING command
    and returns, every command that was PENDING when the worker started, or was made
    since, has had its effect: it is PROCESSED, and the engine has removed its order in
    this run and does not have it in the book; or it is NOOP, and the database showed
    its order as closed at some time of the run.  An event that is then still on its way
    belongs to a command of the second kind.  (Commands that were finished before are
    not looked at: their orders may be in the book again.) *)
Theorem drained_means_cancelled s s' w : fresh_start s -> rtc (cancel_step config) s s' -> drain_poll (k_world s') = (Ok true, w) ->
  (forall id c, tb_commands (w_tables (k_world s')) !! id = Some c -> finished_before s id
     \/ (cmd_Status c = CommandProcessed /\ cmd_OrderID c ∈ k_removed s' /\ cmd_OrderID c ∉ k_book s')
     \/ (cmd_Status c = CommandNoop /\ was_closed config s s' (cmd_OrderID c)))
  /\ forall ev, ev ∈ k_events s' -> was_closed config s s' (c_OrderID ev)
       /\ exists c, tb_commands (w_tables (k_world s')) !! c_CommandID ev = Some c /\ cmd_OrderID c = c_OrderID ev /\ cmd_Status c = CommandNoop.
Proof.
  intros Hs Hr Hd. pose proof (reach_ok config s s' Hs Hr) as Hok. pose proof (drained_none _ _ (ok_keyed _ _ _ _ Hok) Hd) as Hnone. destruct Hok as (Hok & _). split.
  - intros id c Hc. destruct (co_ended _ _ _ _ _ _ _ Hok id c Hc) as [H|[H|[[H1 H2]|H]]]; [by destruct (Hnone id c Hc)|by left| |by right; right].
    right; left. split_and!; [done|done|]. intros Hb. by apply (co_book _ _ _ _ _ _ _ Hok _ Hb).
  - intros ev Hin. destruct (co_events _ _ _ _ _ _ _ Hok ev Hin) as (_ & c & Hc & Eo & [H|[H1 H2]]); [by destruct (Hnone _ c Hc)|]. split; [done|]. by exists c.
Qed.

(** ** An entry that stays *)

(** The wait of an attempt whose command is finished. *)
Definition leaked (s : cancel_system) (id : N) : Prop :=
  phase_of (k_inFlight s) id = Some cancelCommandBackoff /\ exists c, tb_commands (w_tables (k_world s)) !! id = Some c /\ cmd_Status c <> CommandPending.

Lemma finished_evolves t t' seen removed id : evolves seen removed t t' -> (exists c, tb_commands t !! id = Some c /\ cmd_Status c <> CommandPending) ->
  exists c, tb_commands t' !! id = Some c /\ cmd_Status c <> CommandPending.
Proof. intros He (c & Hc & Hn). destruct (He id c Hc) as (c' & Hc' & _). exists c'. split; [done|]. intros E. apply Hn. by eapply evolves_pending. Qed.

Lemma round_leaves now d f res w' id : commands_keyed (w_tables w') -> round config now d f res w' -> phase_of f id = Some cancelCommandBackoff ->
  (exists c, tb_commands (w_tables w') !! id = Some c /\ cmd_Status c <> CommandPending) -> phase_of res.1 id = Some cancelCommandBackoff.
Proof.
  intros Hk (f1 & Hs & -> & Hst) Hf (c & Hc & Hn). rewrite started_entries. destruct (decide _) as [Hin|_].
  - apply list_elem_of_fmap in Hin as (c' & -> & Hin). destruct Hst as [Hst|Hst]; rewrite Hst in Hin; [by apply elem_of_nil in Hin|].
    destruct (starts_spec config now d f1 _ Hk) as (_ & _ & H). destruct (H c' Hin) as (Hc' & Hp & _). congruence.
  - specialize (Hs id). unfold phase_of in *. destruct (f1 !! id) as [e'|]; [|destruct Hs as [E|E]; rewrite E in Hf; done]. destruct Hs as (e & E & Ep & _). rewrite E in Hf. cbn in *. congruence.
Qed.

Lemma other_result before seen s r l1 l2 id : cancel_ok config before seen s -> k_at s = Running -> k_results s = l1 ++ r :: l2 -> phase_of (k_inFlight s) id = Some cancelCommandBackoff -> id <> cq_commandID r.
Proof.
  intros (_ & _ & Hc) Hat El Hf ->. assert (Ha : cq_commandID r ∈ active (k_calls s) (k_results s)).
  { apply elem_of_app. right. apply (list_elem_of_fmap_2 cq_commandID). rewrite El. apply elem_of_app. right. by left. }
  apply (ct_running _ _ _ _ _ _ Hc Hat) in Ha. congruence.
Qed.

Lemma applied_leaves r f f' id p : result_applied r f f' -> id <> cq_commandID r -> phase_of f id = p -> phase_of f' id = p.
Proof. intros [_ H] Hne <-. unfold phase_of. by rewrite H. Qed.

Lemma worker_step_leaks before seen s s' id : sees seen s -> cancel_ok config before seen s -> worker_step config s s' -> leaked s id -> leaked s' id.
Proof.
  intros Hsee Hok Hstep [Hf Hfin]. pose proof (ok_keyed _ _ _ _ Hok) as Hk. pose proof Hok as (_ & Hp & Hc).
  assert (Hready : forall r l1 l2, k_at s = Running -> k_results s = l1 ++ r :: l2 -> known (w_tables (k_world s)) (cq_commandID r) (cq_orderID r) /\ is_Some (k_inFlight s !! cq_commandID r)).
  { intros r l1 l2 Hat El. rewrite Hat in Hc. apply (result_ready config r _ _ _ _ _ _ _ _ _ (conj Hp Hc)). rewrite El. apply elem_of_app. right. by left. }
  destruct Hstep as [now s w f started Hat E|now s r l1 l2 w f started Hat El E|now s r l1 l2 w f Hat El E|s Hat|s r l1 l2 Hat Hd El|s Hat Hd]; try (by split).
  - destruct (does_result _ _ _ _ _ (tick_does config now _ _ _ Hk) E) as [He Hr]. pose proof (finished_evolves _ _ _ _ _ (effect_evolves seen ∅ _ _ Hsee (proj1 He)) Hfin) as Hfin'.
    split; [|done]. by apply (round_leaves _ _ _ _ _ _ (effects_keyed _ _ He Hk) Hr).
  - destruct (Hready r l1 l2 Hat El) as [Hkn Hin]. pose proof (other_result _ _ _ _ _ _ _ Hok Hat El Hf) as Hne.
    destruct (does_result _ _ _ _ _ (result_does config now r (k_dispatching s) _ _ Hk Hkn Hin) E) as [He (f1 & Ha & Hr)]. pose proof (finished_evolves _ _ _ _ _ (effect_evolves seen ∅ _ _ Hsee (proj1 He)) Hfin) as Hfin'.
    split; [|done]. apply (round_leaves _ _ _ _ _ _ (effects_keyed _ _ He Hk) Hr); [|done]. by eapply applied_leaves.
  - destruct (Hready r l1 l2 Hat El) as [Hkn Hin]. pose proof (other_result _ _ _ _ _ _ _ Hok Hat El Hf) as Hne.
    destruct (does_result _ _ _ _ _ (applyResult_does config now r _ _ Hkn Hin) E) as [He Ha]. split; [by eapply applied_leaves|]. by eapply finished_evolves; [apply (effect_evolves seen ∅ _ _ Hsee), He|].
Qed.

(** A finished command can stay in [inFlight] for ever.  When a call times out
    and the engine removes the order afterwards, the command is PROCESSED while its
    entry waits for another attempt; [releaseCompleted] asks only for entries that wait
    for the outbox and the scan finds only PENDING commands, so no step of the system
    ever removes such an entry. *)
Theorem finished_backoff_never_released s0 s s' id : fresh_start s0 -> rtc (cancel_step config) s0 s -> leaked s id -> rtc (cancel_step config) s s' -> leaked s' id.
Proof.
  intros H0 Hr Hl Hr'. pose proof (cancel_ok_seen _ _ _ (fun _ => True) _ (fun _ _ => I) (reach_ok config s0 s H0 Hr)) as Hok. clear H0 Hr. induction Hr' as [|s1 s2 s3 Hstep _ IH]; [done|].
  assert (Hsee : sees (fun _ => True) s1) by done. apply IH; [|by eapply step_ok]. destruct Hstep as [Hstep|[Hstep|Hstep]]; [by eapply worker_step_leaks|by destruct Hstep|].
  pose proof Hl as [Hf Hfin]. destruct Hstep as [u i s|s batch rest w Eb Hm|s t Hmove|s fs]; (split; [done|]); cbn; [| | |done]; (eapply finished_evolves; [|exact Hfin]).
  - destruct Hok as (Hok & _). eapply requested_evolves; [exact Hok|]. apply CancelOrder_requested, (co_orders _ _ _ _ _ _ _ Hok).
  - by apply (committed_step config _ _ s batch rest w Hok Eb Hm).
  - apply (evolves_same (fun _ => True) ∅). by destruct Hmove as [-> _].
Qed.
End Theorems.

Module CancelExamples.
Import FixedPoint.
#[local] Instance no_texts : ErrorTexts := fun _ => "".

(** An open order whose cancellation a user has asked for, and a worker that starts. *)
Definition open_order : OrderRow := mkOrderRow 5 1 (NewFromInt 10) (NewFromInt 2) "BTC" OrderSideBuy OrderStatusPending Zero Zero 0 OrderTypeLimit Zero.
Definition recovered_command : CancelCommandRow := mkCancelCommand 3 5 1 "BTC" OrderSideBuy (NewFromInt 10) CommandPending 0 "".
Definition config : CancelWorkerConfig := mkCancelConfig 0 0 0 0 0.
Definition start : cancel_system :=
  mkCancelSystem (mkWorld (empty_tables <| tb_orders := {[ 5%N := open_order ]} |> <| tb_commands := {[ 3%N := recovered_command ]} |>) {[ "cancel_commands" := 3%N ]} [])
    ∅ 0 Running [] [] [] ∅ ∅ [].

Lemma start_fresh : fresh_start start.
Proof.
  assert (Hc : forall id c, tb_commands (w_tables (k_world start)) !! id = Some c -> 3%N = id /\ recovered_command = c) by (intros id c; apply (lookup_singleton_Some (M := gmap N))).
  assert (Ho : forall id o, tb_orders (w_tables (k_world start)) !! id = Some o -> 5%N = id /\ open_order = o) by (intros id o; apply (lookup_singleton_Some (M := gmap N))).
  split; [done| | |].
  - intros id c [<- <-]%Hc. split; [done|]. split; [done|]. by exists open_order.
  - by intros i j c d [<- <-]%Hc [<- <-]%Hc.
  - by intros id o [<- <-]%Ho.
Qed.

(** The order enters the book, the worker calls the engine, the engine takes the call
    and removes the order, the writer commits the event. *)
Definition loaded : cancel_system := start <| k_book := {[ 5%N ]} ∪ ∅ |>.
Definition calling : cancel_system :=
  match tick_iteration config 0 0 ∅ (k_world start) with (Ok (f, started), w) => after_round w f started 0 loaded | _ => loaded end.
Definition accepted : cancel_system := calling <| k_queue := [engine_command recovered_command] |>.
Definition event : OrderCancelled := mkCancelled 3 5 "BTC" OrderSideBuy "e1".
Definition removed : cancel_system := accepted <| k_queue := [] |> <| k_book := ({[ 5%N ]} ∪ ∅) ∖ {[ 5%N ]} |> <| k_removed := {[ 5%N ]} ∪ ∅ |> <| k_calls := [] |>
  <| k_results := [return_result (engine_command recovered_command) (mkCancelResult true None)] |> <| k_events := [event] |>.
Definition committed_batch : cancel_system := removed <| k_world := (mark_commands [3%N] (k_world removed)).2 |> <| k_events := [] |>.

Lemma reach_calling : rtc (cancel_step config) start calling.
Proof.
  apply (rtc_l _ _ loaded). { right. left. by apply (enter_book start 5). }
  apply rtc_once. left. exact (tick config 0 loaded _ _ _ eq_refl eq_refl).
Qed.

Lemma reach_removed : rtc (cancel_step config) start removed.
Proof.
  etransitivity; [apply reach_calling|]. apply (rtc_l _ _ accepted). { right. left. apply (accept_call calling (engine_command recovered_command)). by left. }
  apply rtc_once. right. left. apply (remove_order accepted (engine_command recovered_command) [] [] [] [] [engine_command recovered_command] "e1"); [done|change (5%N ∈ ({[ 5%N ]} ∪ ∅ : gset N)); by apply elem_of_union_l, elem_of_singleton|done|by right].
Qed.

Lemma cancel_events_accepted_witness : let ids := dedupeNonzeroUint64 (map c_CommandID [event]) in
  pending_commands (w_tables (k_world removed)) ids = ids /\ (w_faults (k_world removed) = [] -> (mark_commands ids (k_world removed)).1 = Ok tt).
Proof.
  refine (proj2 (proj2 (proj2 (cancel_events_accepted config start removed [event] [] start_fresh reach_removed (Permutation_refl _)))) _).
  intros ev c ->%list_elem_of_singleton Hc. assert (c = recovered_command) as -> by (apply (inj Some); rewrite <- Hc; vm_compute; reflexivity). done.
Defined.

Lemma one_call_per_command_witness : NoDup (map cc_CommandID (k_calls calling) ++ map cq_commandID (k_results calling))
  /\ k_dispatching calling = Z.of_nat (length (k_calls calling) + length (k_results calling)) /\ (k_dispatching calling <= maxDispatch config)%Z
  /\ (k_at calling = WorkerReturned -> k_calls calling = [] /\ k_results calling = []).
Proof. exact (one_call_per_command config start calling start_fresh reach_calling). Defined.

Example first_round : map cmd_ID (starts config 0 0 ∅ (w_tables (k_world start))) = [3%N].
Proof. vm_compute. reflexivity. Qed.

Lemma no_command_forgotten_witness : exists f started, tick_iteration config 0 (k_dispatching start) (k_inFlight start) (k_world start) = (Ok (f, started), k_world start)
  /\ let s2 := after_round (k_world start) f started (k_dispatching start) start in
     forall id c, tb_commands (w_tables (k_world s2)) !! id = Some c -> cmd_Status c = CommandPending ->
       id ∈ map cc_CommandID (k_calls s2) \/ id ∈ map cq_commandID (k_results s2) \/ id ∈ map c_CommandID (k_events s2)
       \/ (exists e, k_inFlight s2 !! id = Some e /\ cf_phase e = cancelCommandBackoff /\ (0 < cf_nextAttemptAt e)%Z)
       \/ ((k_dispatching s2 = maxDispatch config \/ Z.of_nat (length started) = scanLimit config) /\ Forall (fun c => (cmd_ID c < id)%N) started).
Proof. exact (no_command_forgotten config start start 0 start_fresh (rtc_refl _ _) eq_refl eq_refl). Defined.

Lemma reach_committed : rtc (cancel_step config) start committed_batch.
Proof.
  etransitivity; [apply reach_removed|]. apply rtc_once. right. right. exact (commit_events removed [event] [] _ (Permutation_refl _) eq_refl).
Qed.

Lemma drained_means_cancelled_witness : exists w, drain_poll (k_world committed_batch) = (Ok true, w)
  /\ (forall id c, tb_commands (w_tables (k_world committed_batch)) !! id = Some c -> finished_before start id
     \/ (cmd_Status c = CommandProcessed /\ cmd_OrderID c ∈ k_removed committed_batch /\ cmd_OrderID c ∉ k_book committed_batch)
     \/ (cmd_Status c = CommandNoop /\ was_closed config start committed_batch (cmd_OrderID c)))
  /\ forall ev, ev ∈ k_events committed_batch -> was_closed config start committed_batch (c_OrderID ev)
       /\ exists c, tb_commands (w_tables (k_world committed_batch)) !! c_CommandID ev = Some c /\ cmd_OrderID c = c_OrderID ev /\ cmd_Status c = CommandNoop.
Proof.
  eexists. split; [reflexivity|]. eapply (drained_means_cancelled config start committed_batch _ start_fresh reach_committed). reflexivity.
Defined.

(** The call times out, the answer is applied, then the engine removes the order and
    the event is committed. *)
Definition timed_out : cancelCommandResult := return_result (engine_command recovered_command) (mkCancelResult false (Some ErrCancelOrderTimedOut)).
Definition given_up : cancel_system := accepted <| k_calls := [] |> <| k_results := [timed_out] |>.
Definition backing_off : cancel_system :=
  match result_iteration config 0 timed_out 1 (k_inFlight given_up) (k_world given_up) with (Ok (f, started), w) => (after_round w f started 0 given_up) <| k_results := [] |> | _ => given_up end.
Definition removed_late : cancel_system := backing_off <| k_queue := [] |> <| k_book := ({[ 5%N ]} ∪ ∅) ∖ {[ 5%N ]} |> <| k_removed := {[ 5%N ]} ∪ ∅ |> <| k_calls := [] |> <| k_results := [] |> <| k_events := [event] |>.
Definition committed_late : cancel_system := removed_late <| k_world := (mark_commands [3%N] (k_world removed_late)).2 |> <| k_events := [] |>.

Lemma reach_late : rtc (cancel_step config) start committed_late.
Proof.
  etransitivity; [apply reach_calling|]. apply (rtc_l _ _ accepted). { right. left. apply (accept_call calling (engine_command recovered_command)). by left. }
  apply (rtc_l _ _ given_up). { right. left. exact (refuse_call accepted (engine_command recovered_command) [] [] ErrCancelOrderTimedOut eq_refl ltac:(done)). }
  apply (rtc_l _ _ backing_off). { left. exact (take_result config 0 given_up timed_out [] [] _ _ _ eq_refl eq_refl eq_refl). }
  apply (rtc_l _ _ removed_late).
  { right. left. apply (remove_order backing_off (engine_command recovered_command) [] [] [] [] [] "e1"); [done|change (5%N ∈ ({[ 5%N ]} ∪ ∅ : gset N)); by apply elem_of_union_l, elem_of_singleton|done|by left]. }
  apply rtc_once. right. right. exact (commit_events removed_late [event] [] _ (Permutation_refl _) eq_refl).
Qed.

Lemma late_leaks : leaked committed_late 3.
Proof. split; [reflexivity|]. eexists. split; [reflexivity|]. done. Qed.

Lemma finished_backoff_never_released_witness : leaked committed_late 3.
Proof. exact (finished_backoff_never_released config start committed_late committed_late 3 start_fresh reach_late late_leaks (rtc_refl _ _)). Defined.
End CancelExamples.
