(* ===== verification/Recovery.v ===== *)
(** * Recovery at start-up (service/matching_bootstrap_service.go, service/stale_market_order_finalizer.go, cmd/cancel_command_lifecycle.go)

    When the process starts, the replay of the outbox ([Outbox]) is followed by the
    finalizer, which ends the market orders left open, by the bootstrap, which hands
    the open limit orders to the engine again, and by the barrier, which starts the
    cancel worker and waits until no command is PENDING before requests are served.
    [cmd/main.go] stops the process when one of these fails. *)
From S2P Require Import Prelude Decimal Model Errors Fee Matching Database Ledger Sha256 OrderLedger Queries Settlement SettlementBatch HoldCoordinator OrderService FailureStores Dispatcher Processing.
From Stdlib Require Import Lia.

Section Recovery.
Context {DL : DecimalLib} {TX : ErrorTexts}.

(** ** The bootstrap of the book *)

Record MatchingBootstrapResult := mkBootstrapResult { br_Loaded : nat; br_Submitted : nat; br_Skipped : nat; br_StatusCounts : OrderStatus -> nat }.

(** The order to submit, if any. *)
Definition matchingOrderFromModelOrder (now : Z) (order : OrderRow) : result error (option Order) :=
  let remaining := Sub (r_Amount order) (r_FilledAmount order) in
  if negb (GreaterThan remaining Zero) then Ok None
  else if decide (r_ID order = 0%N) then Err (Errorf "order id is required" [])
  else if decide (r_UserID order = 0%N) then Err (Errorf "user_id is required" [])
  else
    let coinSymbol := normalizeCoinSymbol (r_CoinSymbol order) in
    if decide (coinSymbol = "") then Err (Errorf "coin_symbol is required" [])
    else
      match r_Status order with
      | OrderStatusPending | OrderStatusPartial =>
          if negb (bool_decide (r_Side order = OrderSideBuy \/ r_Side order = OrderSideSell))
          then Err (Errorf "invalid order side %q" [OrderSide_string (r_Side order)])
          else if negb (bool_decide (r_OrderType order = OrderTypeLimit))
          then Err (Errorf "unsupported order type %q" [OrderType_string (r_OrderType order)])
          else if negb (GreaterThanOrEqual (r_Price order) Zero) then Err (Errorf "price must be non-negative" [])
          else Ok (Some (mkOrder (r_ID order) (r_UserID order) remaining Zero coinSymbol (r_Side order) (r_FilledAmount order) Zero
                                 (r_CreatedAt order) now (r_OrderType order) (r_Price order)))
      | _ => Ok None
      end.

(** What the loop has done: the counters it returns, the orders [SubmitOrder] was
    called with, in order, and the error it ends with. *)
Record bootstrap_run := mkBootstrapRun { bs_result : MatchingBootstrapResult; bs_calls : list Order; bs_err : option error }.

Definition counted_status (r : MatchingBootstrapResult) (st : OrderStatus) : MatchingBootstrapResult :=
  mkBootstrapResult (br_Loaded r) (br_Submitted r) (br_Skipped r) (fun s => if decide (s = st) then S (br_StatusCounts r s) else br_StatusCounts r s).

(** [in_time n]: whether call [n] returns before the context is done. *)
Fixpoint bootstrap_loop (now : Z) (in_time : nat -> bool) (orders : list OrderRow) (r : MatchingBootstrapResult) (calls : list Order) : bootstrap_run :=
  match orders with
  | [] => mkBootstrapRun r calls None
  | order :: rest =>
      let r := counted_status r (r_Status order) in
      match matchingOrderFromModelOrder now order with
      | Err e => mkBootstrapRun r calls (Some (Wrapf "bootstrap order %d: %w" e))
      | Ok None => bootstrap_loop now in_time rest (mkBootstrapResult (br_Loaded r) (br_Submitted r) (S (br_Skipped r)) (br_StatusCounts r)) calls
      | Ok (Some o) =>
          if in_time (length calls)
          then bootstrap_loop now in_time rest (mkBootstrapResult (br_Loaded r) (S (br_Submitted r)) (br_Skipped r) (br_StatusCounts r)) (calls ++ [o])
          else mkBootstrapRun r (calls ++ [o])
                 (Some (Errorf "bootstrap open orders interrupted after %d/%d submissions: %w" [pretty (br_Submitted r); pretty (br_Loaded r)]))
      end
  end.

Definition BootstrapOpenOrders (now : Z) (in_time : nat -> bool) : M bootstrap_run :=
  orders ← FindOpenOrdersForBootstrap;
  mret (bootstrap_loop now in_time orders (mkBootstrapResult (length orders) 0 0 (fun _ => 0%nat)) []).

(** ** Market orders left open *)

Record StaleMarketOrderFinalizeResult := mkFinalizeResult { fz_Finalized : nat; fz_Failed : nat }.

Definition staleMarketOrderRemainingQuote (order : OrderRow) : decimal :=
  if negb (bool_decide (r_Side order = OrderSideBuy)) then Zero
  else
    let remaining := Sub (r_QuoteAmount order) (r_FilledQuoteAmount order) in
    if IsNegative remaining then Zero else remaining.

Definition stale_input (order : OrderRow) : CompleteMarketOrderInput :=
  mkCompleteInput (r_ID order) (r_FilledAmount order) (r_FilledQuoteAmount order) (staleMarketOrderRemainingQuote order).

Fixpoint finalize_orders (now : Z) (orders : list OrderRow) (r : StaleMarketOrderFinalizeResult) : M StaleMarketOrderFinalizeResult :=
  match orders with
  | [] => mret r
  | order :: rest =>
      completed ← attempt (CompleteMarketOrder (stale_input order));
      match completed with
      | Err e =>
          _ ← attempt (RecordCompletionFailure now (stale_input order) (r_CoinSymbol order) (Some e));
          finalize_orders now rest (mkFinalizeResult (fz_Finalized r) (S (fz_Failed r)))
      | Ok _ => finalize_orders now rest (mkFinalizeResult (S (fz_Finalized r)) (fz_Failed r))
      end
  end.

Definition FinalizeAll (now : Z) : M StaleMarketOrderFinalizeResult :=
  orders ← map_err (Wrapf "load open market orders: %w") FindOpenMarketOrders;
  finalize_orders now orders (mkFinalizeResult 0 0).

(** ** The barrier, and the end of the worker *)

Definition runCancelCommandStartupBarrier {A} (bootstrap : M A) (startWorker : M unit) (drain : M unit) : M unit :=
  _ ← map_err (Wrapf "matching bootstrap: %w") bootstrap;
  _ ← startWorker;
  map_err (Wrapf "recovered cancel command drain: %w") drain.

(** The barrier as [main] runs it, before it serves requests. *)
Definition startup_bootstrap (now : Z) (in_time : nat -> bool) : M bootstrap_run :=
  run ← BootstrapOpenOrders now in_time;
  match bs_err run with Some e => throw e | None => mret run end.

(** [within]: whether the worker is done before the timer fires. *)
Definition stopCancelCommandWorker (within : bool) : result error unit :=
  if within then Ok tt else Err (Errorf "cancel command worker did not stop within %s" []).

(** The waits one after the other: the warnings logged before the engine is stopped,
    or nothing while the worker has not ended. *)
Fixpoint stopCancelWorkerThenEngine (waits : list bool) : option nat :=
  match waits with
  | [] => None
  | within :: rest => match stopCancelCommandWorker within with Ok _ => Some 0%nat | Err _ => S <$> stopCancelWorkerThenEngine rest end
  end.
End Recovery.
