(* ===== verification/RecoveryProofs.v ===== *)
(** * Recovery: what the bootstrap submits, what the finalizer ends, and what is lost *)
From S2P Require Import Prelude Decimal Model Errors Fee Matching Database Ledger LedgerInv LedgerSpec LedgerTheorems Sha256 OrderLedger Queries Settlement TradePlan Store SettlementProofs SettlementBatch HoldCoordinator OrderService Transfers TransferInv LockedFunds OrderProofs FailureStores Services ServiceFixtures Dispatcher Processing FailureProofs ProcessingProofs TerminalProofs RetryWorker RetryProofs ProcessingFixtures Recovery.
From Stdlib Require Import Lia Lqa Sorted.

Section Bootstrap.
Context {DL : DecimalLib} {DLaws : DecimalLaws DL}.
Local Open Scope Q_scope.

(** ** The bootstrap *)

#[local] Instance oldest_first_trans : Transitive oldest_first.
Proof. intros x y z. unfold oldest_first. apply (transitivity (R := lex_le Z.le N.le)). Qed.
#[local] Instance oldest_first_total : Total oldest_first.
Proof. intros x y. unfold oldest_first. apply (total (lex_le Z.le N.le)). Qed.

(** The order the engine gets back: the row's, with what is left of its quantity. *)
Definition restores (row : OrderRow) (o : Order) : Prop :=
  o_ID o = r_ID row /\ o_UserID o = r_UserID row /\ o_CoinSymbol o = r_CoinSymbol row /\ o_Side o = r_Side row /\ o_Price o = r_Price row
  /\ o_OrderType o = OrderTypeLimit /\ o_CreatedAt o = r_CreatedAt row
  /\ dval (o_Amount o) == dval (r_Amount row) - dval (r_FilledAmount row) /\ 0 < dval (o_Amount o).

(** Rows as the order service writes them: ids from the sequence, symbols normalized. *)
Definition named (t : Tables) : Prop := forall id o, tb_orders t !! id = Some o -> id <> 0%N /\ normalizeCoinSymbol (r_CoinSymbol o) = r_CoinSymbol o.

Lemma restored now t s id row : sys_ok t s -> named t -> tb_orders t !! id = Some row -> bootstrap_row row ->
  exists o, matchingOrderFromModelOrder now row = Ok (Some o) /\ restores row o.
Proof.
  intros Hsys Hn Hrow (Hopen & Htype & Hgt). destruct (Hn id row Hrow) as [Hz Hsym]. pose proof (sy_orders _ _ Hsys id row Hrow) as Hwf. cbv beta in Hwf.
  destruct (so_orders _ _ (sy_store _ _ Hsys) id row Hrow) as (Hid & _). apply GreaterThan_true in Hgt.
  unfold matchingOrderFromModelOrder. assert (Hrem : GreaterThan (Sub (r_Amount row) (r_FilledAmount row)) Zero = true) by (apply GreaterThan_true; rewrite dval_Sub, dval_Zero; lra).
  rewrite Hrem, Hsym. cbn [negb]. rewrite !decide_False; [|apply (ow_coin _ Hwf)|apply (ow_user _ Hwf)|congruence].
  rewrite (bool_decide_eq_true_2 _ (ow_side _ Hwf)), (bool_decide_eq_true_2 _ Htype). cbn [negb].
  assert (Hp : GreaterThanOrEqual (r_Price row) Zero = true) by (apply GreaterThanOrEqual_true; rewrite dval_Zero; apply (ow_price _ Hwf)). rewrite Hp. cbn [negb].
  eexists. split; [destruct Hopen as [-> | ->]; reflexivity|]. unfold restores. cbn. rewrite Htype, dval_Sub. split_and!; try done. lra.
Qed.

(** The calls of the loop, one per row and in their order, until the context ends. *)
Lemma loop_calls now in_time rows : Forall (fun row => exists o, matchingOrderFromModelOrder now row = Ok (Some o) /\ restores row o) rows -> forall r calls, br_Submitted r = length calls ->
  let run := bootstrap_loop now in_time rows r calls in
  exists new, bs_calls run = calls ++ new /\ Forall2 restores (take (length new) rows) new /\ br_Skipped (bs_result run) = br_Skipped r /\ br_Loaded (bs_result run) = br_Loaded r
    /\ match bs_err run with
       | None => length new = length rows /\ br_Submitted (bs_result run) = length (bs_calls run)
       | Some _ => in_time (br_Submitted (bs_result run)) = false /\ length (bs_calls run) = S (br_Submitted (bs_result run)) /\ (length new <= length rows)%nat
       end.
Proof.
  induction 1 as [|row rows (o & Eo & Ho) _ IH]; intros r calls Hr; cbn [bootstrap_loop].
  { exists []. cbn. rewrite app_nil_r. split_and!; try done; constructor. }
  rewrite Eo. destruct (in_time (length calls)) eqn:Et.
  - destruct (IH (mkBootstrapResult (br_Loaded r) (S (br_Submitted r)) (br_Skipped r) (br_StatusCounts (counted_status r (r_Status row)))) (calls ++ [o])) as (new & E1 & E2 & E3 & E4 & E5).
    { cbn. rewrite length_app, Hr. cbn. lia. }
    exists (o :: new). cbn [br_Loaded br_Submitted br_Skipped counted_status br_StatusCounts] in *. split_and!; [by rewrite E1, <- app_assoc|by constructor|done|done|].
    destruct (bs_err _); [destruct E5 as (?&?&?); split_and!; try done; cbn; lia|]. destruct E5. split; [cbn; lia|done].
  - exists [o]. cbn. split_and!; try done; [constructor; [done|constructor]|by rewrite Hr| |lia]. rewrite length_app, Hr. cbn. lia.
Qed.

Lemma bootstrap_rows_spec t s : sys_ok t s -> let rows := merge_sort oldest_first (filter bootstrap_row (all_orders t)) in
  NoDup (map r_ID rows) /\ forall o, o ∈ rows <-> tb_orders t !! r_ID o = Some o /\ bootstrap_row o.
Proof.
  intros Hsys. cbv zeta. assert (Hid : forall id o, tb_orders t !! id = Some o -> r_ID o = id) by (intros id o Ho; by apply (so_orders _ _ (sy_store _ _ Hsys) id o Ho)).
  split.
  - rewrite merge_sort_Permutation. eapply sublist_NoDup; [|apply fmap_sublist, sublist_filter]. unfold all_orders. rewrite map_map.
    assert (E : map (fun x => r_ID x.2) (map_to_list (tb_orders t)) = map fst (map_to_list (tb_orders t))).
    { apply map_ext_in. intros [id o] Hin. apply list_elem_of_In, elem_of_map_to_list in Hin. by apply Hid. }
    change (NoDup (map (fun x => r_ID x.2) (map_to_list (tb_orders t)))). rewrite E. apply NoDup_fst_map_to_list.
  - intros o. rewrite merge_sort_Permutation, list_elem_of_filter. unfold all_orders. rewrite list_elem_of_fmap. split.
    + intros [Hb ([id o'] & E & Hin)]. cbn in E. subst o'. apply elem_of_map_to_list in Hin. by rewrite (Hid _ _ Hin).
    + intros [Ho Hb]. split; [done|]. exists (r_ID o, o). split; [done|]. by apply elem_of_map_to_list.
Qed.

Lemma bootstrap_submits now in_time w : sys_ok (w_tables w) (w_seqs w) -> named (w_tables w) -> w_faults w = [] ->
  exists run rows, BootstrapOpenOrders now in_time w = (Ok run, w)
    /\ NoDup (map r_ID rows) /\ StronglySorted oldest_first rows /\ (forall o, o ∈ rows <-> tb_orders (w_tables w) !! r_ID o = Some o /\ bootstrap_row o)
    /\ Forall2 restores (take (length (bs_calls run)) rows) (bs_calls run) /\ br_Loaded (bs_result run) = length rows /\ br_Skipped (bs_result run) = 0%nat
    /\ match bs_err run with
       | None => length (bs_calls run) = length rows /\ br_Submitted (bs_result run) = length rows
       | Some _ => in_time (br_Submitted (bs_result run)) = false /\ length (bs_calls run) = S (br_Submitted (bs_result run))
       end.
Proof.
  intros Hsys Hn Hf. set (t := w_tables w) in *. set (rows := merge_sort oldest_first (filter bootstrap_row (all_orders t))). destruct (bootstrap_rows_spec t _ Hsys) as [Hnd Hin]. fold rows in Hnd, Hin.
  assert (Hall : Forall (fun row => exists o, matchingOrderFromModelOrder now row = Ok (Some o) /\ restores row o) rows).
  { apply Forall_forall. intros row Hr. apply Hin in Hr as [Hr Hb]. by eapply restored. }
  destruct (loop_calls now in_time rows Hall (mkBootstrapResult (length rows) 0 0 (fun _ => 0%nat)) [] eq_refl) as (new & E1 & E2 & E3 & E4 & E5). cbn [app br_Loaded br_Skipped] in *.
  eexists _, rows. split.
  { unfold BootstrapOpenOrders, FindOpenOrdersForBootstrap, query, mbind, M_bind, stmt, get_db, mret, M_ret. rewrite Hf. fold t rows. reflexivity. }
  rewrite E1. split_and!; try done.
  - apply (StronglySorted_merge_sort oldest_first).
  - rewrite E1 in E5. destruct (bs_err _); destruct E5 as (H1 & H2); [by destruct H2|]. split; [done|congruence].
Qed.

(** C21 The book is rebuilt from the orders.  In a state the services keep, with a
    working database, the bootstrap calls the engine once for each limit order that is
    open and has a quantity left, oldest first, with that quantity, and with no other
    order; it skips none.  It returns without an error only when every call has
    returned; when the context ends first, the calls made are those of the oldest
    orders, and the last of them is not counted. *)
Theorem bootstrap_exact now in_time w : sys_ok (w_tables w) (w_seqs w) -> named (w_tables w) -> w_faults w = [] ->
  exists run rows, BootstrapOpenOrders now in_time w = (Ok run, w)
    /\ NoDup (map r_ID rows) /\ StronglySorted oldest_first rows /\ (forall o, o ∈ rows <-> tb_orders (w_tables w) !! r_ID o = Some o /\ bootstrap_row o)
    /\ Forall2 restores (take (length (bs_calls run)) rows) (bs_calls run) /\ br_Loaded (bs_result run) = length rows /\ br_Skipped (bs_result run) = 0%nat
    /\ match bs_err run with
       | None => length (bs_calls run) = length rows /\ br_Submitted (bs_result run) = length rows
       | Some _ => in_time (br_Submitted (bs_result run)) = false /\ length (bs_calls run) = S (br_Submitted (bs_result run))
       end.
Proof. apply bootstrap_submits. Qed.
End Bootstrap.

Section Finalizer.
Context {DL : DecimalLib} {DLaws : DecimalLaws DL} {TX : ErrorTexts}.

Lemma query_cases {A} (f : Tables -> A) w : let '(r, w') := query f w in
  w_tables w' = w_tables w /\ w_seqs w' = w_seqs w /\ match r with Ok a => a = f (w_tables w) | Err _ => w_faults w <> [] end.
Proof. unfold query, mbind, M_bind, stmt. destruct w as [t s [|[] fs]]; by cbn. Qed.

(** ** The finalizer *)

(** Orders other than the one completed stay; none is open that was not. *)
Lemma complete_effect_others id t t' : complete_effect id t t' -> forall j, j <> id -> tb_orders t' !! j = tb_orders t !! j.
Proof. intros (o & Ho & [(_ & st & _ & -> & _)|[_ ->]]) j Hne; [by rewrite lookup_insert_ne|done]. Qed.

Lemma complete_effect_keeps id t t' j : complete_effect id t t' -> completed_order j t -> completed_order j t'.
Proof.
  intros He Hj. destruct (decide (j = id)) as [->|Hne]; [by eapply complete_effect_done|]. destruct Hj as (o & Ho & Hn). exists o. by rewrite (complete_effect_others id t t' He).
Qed.

(** The orders still to be ended: none is rejected. *)
Definition endable (ids : list N) (w : World) : Prop := forall id, id ∈ ids -> not_rejected id w.

Lemma finalize_keeps {X} (m : M X) ids w : (w_tables (m w).2 = w_tables w \/ exists id, complete_effect id (w_tables w) (w_tables (m w).2)) -> endable ids w -> endable ids (m w).2.
Proof.
  intros H He id Hid o Ho. destruct H as [E|[i Hi]]; [rewrite E in Ho; by apply (He id)|]. destruct (decide (id = i)) as [->|Hne].
  - destruct (complete_effect_done _ _ _ Hi) as (o' & Ho' & _). destruct Hi as (o0 & Ho0 & [(_ & st & Hst & Eo & _)|[_ E]]); [|rewrite E in Ho; by apply (He i)].
    rewrite Eo, lookup_insert_eq in Ho. injection Ho as <-. cbn. by destruct Hst as [-> | ->].
  - rewrite (complete_effect_others _ _ _ Hi) in Ho by done. by apply (He id).
Qed.

Lemma record_completion_beside now input coin e w : steady services_ok w ->
  let '(r, w') := RecordCompletionFailure now input coin e w in
  steady services_ok w' /\ tb_orders (w_tables w') = tb_orders (w_tables w) /\ (is_ok r = true -> on_record failed_completions (w_tables w') (pretty (cm_OrderID input))).
Proof.
  intros Hw. pose proof (runs_completions services_ok services_ok_seq services_ok_records _ _ w (RecordCompletionFailure_notes now input coin e) w (beside_refl _ w Hw)) as H.
  destruct (RecordCompletionFailure now input coin e w) as [r w']. destruct H as [[Hs (r1 & r2 & Et)] Hr]. split; [done|]. split; [by rewrite Et|done].
Qed.

Definition closed_all (ids : list N) (t : Tables) : Prop := forall id, id ∈ ids -> completed_order id t.

Lemma closed_same ids t t' : tb_orders t' = tb_orders t -> closed_all ids t -> closed_all ids t'.
Proof. intros E H id Hid. unfold completed_order. rewrite E. by apply H. Qed.

Lemma finalize_run now orders : forall w r ids, steady services_ok w -> endable (map r_ID orders) w -> closed_all ids (w_tables w) ->
  let '(res, w') := finalize_orders now orders r w in
  steady services_ok w' /\ exists ended failed r', res = Ok r' /\ ended ++ failed ≡ₚ map r_ID orders
    /\ fz_Finalized r' = (fz_Finalized r + length ended)%nat /\ fz_Failed r' = (fz_Failed r + length failed)%nat /\ closed_all (ids ++ ended) (w_tables w').
Proof.
  induction orders as [|order orders IH]; intros w r ids Hw He Hc; cbn [finalize_orders].
  { split; [done|]. exists [], [], r. cbn. rewrite app_nil_r. split_and!; try done; lia. }
  assert (Hnr : not_rejected (cm_OrderID (stale_input order)) w) by (apply He; by left). pose proof (complete_transaction (stale_input order) w Hw Hnr) as H1.
  assert (He' : endable (map r_ID orders) w) by (intros i Hi; apply He; by right).
  unfold mbind at 1, M_bind at 1, attempt at 1. destruct (CompleteMarketOrder (stale_input order) w) as [res w1] eqn:E1. destruct H1 as (Hw1 & Hdone & Hor).
  assert (He1 : endable (map r_ID orders) w1).
  { pose proof (finalize_keeps (CompleteMarketOrder (stale_input order)) (map r_ID orders) w) as Hk. rewrite E1 in Hk. apply Hk; [|done]. destruct Hor; [by left|right; by eexists]. }
  assert (Hc1 : closed_all ids (w_tables w1)).
  { intros i Hi. destruct Hor as [E|Heff]; [rewrite E; by apply Hc|]. eapply complete_effect_keeps; [done|by apply Hc]. }
  destruct res as [u|e].
  - assert (Hc2 : closed_all (ids ++ [r_ID order]) (w_tables w1)).
    { intros i Hi. apply elem_of_app in Hi as [Hi|Hi%list_elem_of_singleton]; [by apply Hc1|]. subst i. exact (complete_effect_done _ _ _ (Hdone eq_refl)). }
    specialize (IH w1 (mkFinalizeResult (S (fz_Finalized r)) (fz_Failed r)) _ Hw1 He1 Hc2). destruct (finalize_orders now orders _ w1) as [res w']. destruct IH as (Hw' & ended & failed & r' & -> & Hp & H1 & H2 & H3).
    split; [done|]. exists (r_ID order :: ended), failed, r'. cbn in *. split_and!; try done; [by rewrite Hp|lia|]. by rewrite <- app_assoc in H3.
  - pose proof (record_completion_beside now (stale_input order) (r_CoinSymbol order) (Some e) w1 Hw1) as H2. unfold mbind at 1, M_bind at 1, attempt at 1.
    destruct (RecordCompletionFailure now (stale_input order) (r_CoinSymbol order) (Some e) w1) as [res w2]. destruct H2 as (Hw2 & Eo & _).
    assert (He2 : endable (map r_ID orders) w2) by (intros i Hi o Ho; rewrite Eo in Ho; by apply (He1 i Hi)).
    specialize (IH w2 (mkFinalizeResult (fz_Finalized r) (S (fz_Failed r))) ids Hw2 He2 (closed_same _ _ _ Eo Hc1)).
    destruct (finalize_orders now orders _ w2) as [res' w']. destruct IH as (Hw' & ended & failed & r' & -> & Hp & H1 & H2 & H3).
    split; [done|]. exists ended, (r_ID order :: failed), r'. cbn in *. split_and!; try done; [|lia]. rewrite <- Permutation_middle. by constructor.
Qed.

(** C30 Every market order left open is accounted for.  Whatever the database does
    after the orders are loaded, the finalizer returns, keeps the invariants of the
    services (funds conserved and covered), and each open market order is either
    closed and counted as finalized, or counted as failed.  It asks no question about
    the trades of these orders: one with an OPEN failed settlement is closed as well. *)
Theorem finalizer_accounts now w : steady services_ok w ->
  exists res w', FinalizeAll now w = (res, w') /\ steady services_ok w' /\ match res with
  | Ok r => exists ended failed, ended ++ failed ≡ₚ map r_ID (filter (fun o => open_row o /\ r_OrderType o = OrderTypeMarket) (all_orders (w_tables w)))
      /\ fz_Finalized r = length ended /\ fz_Failed r = length failed /\ forall id, id ∈ ended -> completed_order id (w_tables w')
  | Err _ => w_tables w' = w_tables w /\ w_faults w <> []
  end.
Proof.
  intros Hw. destruct (FinalizeAll now w) as [res0 w0] eqn:E0. exists res0, w0. split; [done|]. revert E0.
  unfold FinalizeAll, map_err, FindOpenMarketOrders, mbind at 1, M_bind at 1. set (f := fun t : Tables => merge_sort by_id _). pose proof (query_cases f w) as Hq. destruct (query f w) as [[orders|e] w1].
  - destruct Hq as (Et & Es & ->). assert (Hw1 : steady services_ok w1) by (by eapply steady_same).
    assert (He : endable (map r_ID (f (w_tables w))) w1).
    { intros id Hid o Ho Hr. apply list_elem_of_fmap in Hid as (o' & -> & Hin). unfold f in Hin. rewrite merge_sort_Permutation in Hin. apply list_elem_of_filter in Hin as [[Hopen _] Hin].
      apply list_elem_of_fmap in Hin as ([i o2] & E & Hin). cbn in E. subst o2. apply elem_of_map_to_list in Hin. rewrite <- Et in Hin.
      destruct (so_orders _ _ (sy_store _ _ (proj1 (proj1 Hw1))) i o' Hin) as (Hid & _). rewrite Hid, Hin in Ho. injection Ho as <-. destruct Hopen; congruence. }
    pose proof (finalize_run now (f (w_tables w)) w1 (mkFinalizeResult 0 0) [] Hw1 He ltac:(by intros i Hi%elem_of_nil)) as H. destruct (finalize_orders now _ _ w1) as [res w'].
    intros [= <- <-]. destruct H as (Hw' & ended & failed & r' & -> & Hp & H1 & H2 & H3). split; [done|]. exists ended, failed. split_and!; try done. rewrite Hp. unfold f. by rewrite merge_sort_Permutation.
  - intros [= <- <-]. destruct Hq as (Et & Es & Hne). split; [by eapply steady_same|done].
Qed.
End Finalizer.

Section LostCancellation.
Context {DL : DecimalLib} {DLaws : DecimalLaws DL} {TX : ErrorTexts}.

(** ** A cancellation the recovery forgets *)

(** A request for an order that has a command finds that command. *)
Lemma request_finds_command userID orderID o c w : tb_orders (w_tables w) !! orderID = Some o -> r_ID o = orderID -> r_UserID o = userID -> userID <> 0%N -> orderID <> 0%N ->
  isCancellableOrderStatus (r_Status o) = true -> r_OrderType o <> OrderTypeMarket -> command_of_order (w_tables w) orderID = Some c -> w_faults w = [] ->
  (CancelOrder userID orderID w).1 = Ok (mkCancelOrderReply (cmd_OrderID c) (cmd_ID c) CancelOrderAcceptedStatus) /\ w_tables (CancelOrder userID orderID w).2 = w_tables w.
Proof.
  intros Ho Hid Hu Hu0 Ho0 Hopen Htype Hc Hf. destruct w as [t s fs]. cbn [w_tables w_faults] in *. subst fs. unfold CancelOrder. rewrite !decide_False by done.
  assert (E : exists s', transaction (cancel_body userID orderID) (mkWorld t s []) = (Ok c, mkWorld t s' [])).
  { unfold transaction, cancel_body, FindByIDForUpdate, query, mbind, M_bind, stmt, get_db, mret, M_ret. cbn [w_faults w_tables]. rewrite Ho.
    rewrite (bool_decide_eq_true_2 _ Hu), Hopen. cbn [negb]. rewrite decide_False by done. unfold CreateOrGet, nextval, query, mbind, M_bind, stmt, get_db, mret, M_ret. cbn [w_faults w_tables w_seqs cmd_OrderID].
    rewrite Hid, Hc. cbn [w_tables w_faults]. rewrite Hc. by eexists. }
  destruct E as [s' E]. rewrite bind_world. unfold map_err. rewrite E. done.
Qed.

(** C40 A cancellation that waits for a retry is undone by a restart.  When the event
    of a cancelled order is committed, its command is PROCESSED; when the cancellation
    itself is deferred or fails, the order stays open until the retry worker ends it.
    After a restart the bootstrap puts such an order back into the book with all that
    is left of it, and the cancel worker does not take it out: a new request of its
    user is answered ACCEPTED with the PROCESSED command and changes nothing. *)
Theorem restart_undoes_cancellation now w o c : sys_ok (w_tables w) (w_seqs w) -> named (w_tables w) -> w_faults w = [] ->
  tb_orders (w_tables w) !! r_ID o = Some o -> bootstrap_row o -> command_of_order (w_tables w) (r_ID o) = Some c -> cmd_Status c = CommandProcessed ->
  (exists run order, BootstrapOpenOrders now (fun _ => true) w = (Ok run, w) /\ bs_err run = None /\ order ∈ bs_calls run /\ restores o order)
  /\ (CancelOrder (r_UserID o) (r_ID o) w).1 = Ok (mkCancelOrderReply (cmd_OrderID c) (cmd_ID c) CancelOrderAcceptedStatus)
  /\ w_tables (CancelOrder (r_UserID o) (r_ID o) w).2 = w_tables w.
Proof.
  intros Hsys Hn Hf Ho Hb Hc Hst. split.
  - destruct (bootstrap_submits now (fun _ => true) w Hsys Hn Hf) as (run & rows & E & _ & _ & Hin & Hall & _ & _ & Herr). exists run.
    destruct (bs_err run) eqn:Ee; [by destruct Herr|]. destruct Herr as [Hlen _]. rewrite take_ge in Hall by lia. assert (Hr : o ∈ rows) by (by apply Hin).
    apply list_elem_of_lookup in Hr as [i Hi]. destruct (Forall2_lookup_l _ _ _ _ _ Hall Hi) as (order & Hi' & Hres). exists order. split_and!; try done. by eapply list_elem_of_lookup_2.
  - pose proof (sy_orders _ _ Hsys _ o Ho) as Hwf. cbv beta in Hwf. destruct Hb as (Hopen & Htype & _).
    apply (request_finds_command _ _ o c); try done; [apply (ow_user _ Hwf)|by apply (Hn _ _ Ho)|by destruct Hopen as [-> | ->]|by rewrite Htype].
Qed.
End LostCancellation.

Module RecoveryExamples.
Import FixedPoint ServiceFixtures PipelineFixtures ProcessingFixtures.

(** The two orders of the fixtures; the first was cancelled, its event is committed,
    the cancellation waits for the retry worker. *)
Definition processed_command : CancelCommandRow := mkCancelCommand 1 1 1 "BTC" OrderSideBuy (NewFromInt 10000) CommandProcessed 0 "".
Definition deferred_cancellation : FailedOrderCancellation := mkFailedCancellation 1 1 4 "BTC" OrderSideBuy "engine-1-1:3" "failed" FailedSettlementStatusOpen 0 0 "".
Definition restart_tables (t : Tables) : Tables := t <| tb_commands := {[ 1%N := processed_command ]} |> <| tb_failed_cancellations := {[ 1%N := deferred_cancellation ]} |>.
Definition restart (w : World) : World := mkWorld (restart_tables (w_tables w)) (w_seqs w) [].

Lemma named_orders : named (w_tables ordered2).
Proof.
  assert (Hb : normalizeCoinSymbol (r_CoinSymbol buy1) = r_CoinSymbol buy1) by (vm_cast_no_check (eq_refl (r_CoinSymbol buy1))).
  assert (Hs : normalizeCoinSymbol (r_CoinSymbol sell1) = r_CoinSymbol sell1) by (vm_cast_no_check (eq_refl (r_CoinSymbol sell1))).
  intros id o Ho. apply elem_of_map_to_list in Ho. rewrite orders_of_ordered2 in Ho. apply elem_of_cons in Ho as [E|Ho%list_elem_of_singleton].
  - rewrite (f_equal fst E : id = 2%N), (f_equal snd E : o = sell1). split; [discriminate|exact Hs].
  - rewrite (f_equal fst Ho : id = 1%N), (f_equal snd Ho : o = buy1). split; [discriminate|exact Hb].
Qed.

Lemma sys_restart w : ok_world w -> sys_ok (w_tables (restart w)) (w_seqs (restart w)).
Proof. intros [H _]. by apply (sys_ok_same (w_tables w)). Qed.
Lemma named_restart w : named (w_tables w) -> named (w_tables (restart w)).
Proof. done. Qed.
Lemma found_restart w id o : tb_orders (w_tables w) !! id = Some o -> tb_orders (w_tables (restart w)) !! id = Some o.
Proof. done. Qed.
Lemma command_restart w : command_of_order (w_tables (restart w)) 1 = Some processed_command.
Proof. reflexivity. Qed.

Lemma buy1_id : r_ID buy1 = 1%N.
Proof. vm_cast_no_check (eq_refl 1%N). Qed.
Lemma buy1_open : r_Status buy1 = OrderStatusPending.
Proof. vm_cast_no_check (eq_refl OrderStatusPending). Qed.
Lemma buy1_limit : r_OrderType buy1 = OrderTypeLimit.
Proof. vm_cast_no_check (eq_refl OrderTypeLimit). Qed.
Lemma buy1_left : GreaterThan (r_Amount buy1) (r_FilledAmount buy1) = true.
Proof. vm_cast_no_check (eq_refl true). Qed.
Lemma buy1_loads : bootstrap_row buy1.
Proof. exact (conj (or_introl buy1_open) (conj buy1_limit buy1_left)). Qed.

Lemma bootstrap_exact_witness : exists run rows, BootstrapOpenOrders 0 (fun _ => true) (restart ordered2) = (Ok run, (restart ordered2))
    /\ NoDup (map r_ID rows) /\ StronglySorted oldest_first rows /\ (forall o, o ∈ rows <-> tb_orders (w_tables (restart ordered2)) !! r_ID o = Some o /\ bootstrap_row o)
    /\ Forall2 restores (take (length (bs_calls run)) rows) (bs_calls run) /\ br_Loaded (bs_result run) = length rows /\ br_Skipped (bs_result run) = 0%nat
    /\ match bs_err run with
       | None => length (bs_calls run) = length rows /\ br_Submitted (bs_result run) = length rows
       | Some _ => true = false /\ length (bs_calls run) = S (br_Submitted (bs_result run))
       end.
Proof. exact (bootstrap_exact 0 (fun _ => true) (restart ordered2) (sys_restart ordered2 ok_ordered2) (named_restart ordered2 named_orders) eq_refl). Defined.

Lemma restart_undoes_cancellation_witness :
  (exists run order, BootstrapOpenOrders 0 (fun _ => true) (restart ordered2) = (Ok run, (restart ordered2)) /\ bs_err run = None /\ order ∈ bs_calls run /\ restores buy1 order)
  /\ (CancelOrder (r_UserID buy1) (r_ID buy1) (restart ordered2)).1 = Ok (mkCancelOrderReply 1 1 CancelOrderAcceptedStatus)
  /\ w_tables (CancelOrder (r_UserID buy1) (r_ID buy1) (restart ordered2)).2 = w_tables (restart ordered2).
Proof.
  apply (restart_undoes_cancellation 0 (restart ordered2) buy1 processed_command (sys_restart ordered2 ok_ordered2) (named_restart ordered2 named_orders) eq_refl); [rewrite buy1_id; exact (found_restart _ _ _ found_buy)|exact buy1_loads|rewrite buy1_id; exact (command_restart ordered2)|reflexivity].
Defined.

Lemma finalizer_accounts_witness : exists res w', FinalizeAll 0 ordered2 = (res, w') /\ steady services_ok w' /\ match res with
  | Ok r => exists ended failed, ended ++ failed ≡ₚ map r_ID (filter (fun o => open_row o /\ r_OrderType o = OrderTypeMarket) (all_orders (w_tables ordered2)))
      /\ fz_Finalized r = length ended /\ fz_Failed r = length failed /\ forall id, id ∈ ended -> completed_order id (w_tables w')
  | Err _ => w_tables w' = w_tables ordered2 /\ w_faults ordered2 <> []
  end.
Proof. exact (finalizer_accounts 0 ordered2 steady_ordered2). Defined.
End RecoveryExamples.
