(* ===== verification/HttpApi.v ===== *)
(** * The HTTP interface (httpapi/response.go, handler/order_handler.go, transfer_handler.go, dev_handler.go)

    What a handler does with a request that has reached it: whose request it is, the
    decoded body or why it was refused, headers, path and query values are the fields
    of [Request]; what it writes is a [Response].  Decoding JSON, checking that
    required fields are present and encoding the answer are gin's. *)
From S2P Require Import Prelude Decimal Model Errors Fee MarketRules Database Ledger OrderLedger Queries Idempotency HoldCoordinator OrderService Transfers FailureStores Processing.
From Stdlib Require Import Lia Ascii.

Local Open Scope Z_scope.

(** ** Numbers in paths and queries *)

Definition digit (c : ascii) : option N := let n := N_of_ascii c in if ((48 <=? n) && (n <=? 57))%N then Some (n - 48)%N else None.

Fixpoint parse_digits (acc : N) (s : string) : option N :=
  match s with
  | EmptyString => Some acc
  | String c s' => match digit c with Some d => parse_digits (10 * acc + d)%N s' | None => None end
  end.

(** [strconv.ParseUint(s, 10, 64)] *)
Definition ParseUint64 (s : string) : option N :=
  if decide (s = "") then None else n ← parse_digits 0 s; if decide (n < 2 ^ 64)%N then Some n else None.

(** [strconv.Atoi] *)
Definition Atoi (s : string) : option Z :=
  let '(negative, digits) := match s with String "-" s' => (true, s') | String "+" s' => (false, s') | _ => (false, s) end in
  if decide (digits = "") then None
  else
    n ← parse_digits 0 digits;
    let z := if (negative : bool) then - Z.of_N n else Z.of_N n in
    if decide (- 2 ^ 63 <= z < 2 ^ 63) then Some z else None.

Definition lower_char (c : ascii) : ascii := let n := N_of_ascii c in if ((65 <=? n) && (n <=? 90))%N then ascii_of_N (n + 32) else c.
Fixpoint ToLower (s : string) : string := match s with EmptyString => EmptyString | String c s' => String (lower_char c) (ToLower s') end.

(** [strings.Split], by a separator of one byte *)
Fixpoint Split (sep : ascii) (s : string) : list string :=
  match s with
  | EmptyString => [""]
  | String c s' => if decide (c = sep) then "" :: Split sep s'
                   else match Split sep s' with part :: rest => String c part :: rest | [] => [String c ""] end
  end.

(** ** Codes and statuses *)

Definition StatusOK : Z := 200.
Definition StatusAccepted : Z := 202.
Definition StatusBadRequest : Z := 400.
Definition StatusUnauthorized : Z := 401.
Definition StatusForbidden : Z := 403.
Definition StatusNotFound : Z := 404.
Definition StatusConflict : Z := 409.
Definition StatusUnprocessableEntity : Z := 422.
Definition StatusInternalServerError : Z := 500.
Definition StatusServiceUnavailable : Z := 503.

Definition CodeAuthRequired : string := "AUTH_REQUIRED".
Definition CodeBadRequest : string := "BAD_REQUEST".
Definition CodeConflict : string := "CONFLICT".
Definition CodeForbidden : string := "FORBIDDEN".
Definition CodeInternal : string := "INTERNAL_ERROR".
Definition CodeNotFound : string := "NOT_FOUND".
Definition CodeValidation : string := "VALIDATION_ERROR".
Definition CodeUnavailable : string := "SERVICE_UNAVAILABLE".

Definition CodeForStatus (status : Z) : string :=
  if status =? StatusUnauthorized then CodeAuthRequired
  else if status =? StatusForbidden then CodeForbidden
  else if status =? StatusNotFound then CodeNotFound
  else if status =? StatusConflict then CodeConflict
  else if status =? StatusUnprocessableEntity then CodeValidation
  else if status =? StatusInternalServerError then CodeInternal
  else if status =? StatusServiceUnavailable then CodeUnavailable
  else CodeBadRequest.

Definition normalizeCode (code : string) : string := let code := TrimSpace code in if decide (code = "") then CodeBadRequest else code.
Definition normalizeMessage (message : string) : string := let message := TrimSpace message in if decide (message = "") then "request failed" else message.

(** ** Answers *)

Record OrderResponse := mkOrderResponse {
  os_ID : N; os_CoinSymbol : string; os_Side : OrderSide; os_OrderType : OrderType; os_Status : OrderStatus; os_Price : string; os_Amount : string;
  os_QuoteAmount : string; os_FilledAmount : string; os_FilledQuoteAmount : string; os_Remaining : string; os_CreatedAt : Z }.
Record WalletResponse := mkWalletResponse {
  ws_ID : N; ws_CoinSymbol : string; ws_AvailableBalance : string; ws_LockedBalance : string; ws_TotalBalance : string; ws_AvgBuyPrice : string }.
Record TradeResponse := mkTradeResponse {
  ts_ID : N; ts_IdempotencyKey : string; ts_EngineSequence : Z; ts_EngineEventID : string; ts_CoinSymbol : string; ts_Side : OrderSide; ts_Price : string;
  ts_Quantity : string; ts_FeeRate : string; ts_BuyerFee : string; ts_BuyerFeeAsset : string; ts_SellerFee : string; ts_SellerFeeAsset : string;
  ts_TradedAt : Z; ts_BuyOrderID : N; ts_SellOrderID : N }.
Record TransferResponse := mkTransferResponse {
  fr_ID : N; fr_Direction : string; fr_Rail : string; fr_Asset : string; fr_Amount : string; fr_FeeAmount : string; fr_Status : TransferStatus;
  fr_ExternalRef : option string; fr_Delayed : bool; fr_FailureReason : string; fr_CreatedAt : Z }.

Record MarketTickRuleResponse := mkTickRuleResponse { mk_UpperBound : option string; mk_TickSize : string }.
Record MarketRulesResponse := mkMarketRulesResponse {
  mr_CoinSymbol : string; mr_QuoteSymbol : string; mr_TradingEnabled : bool; mr_TradingStatus : string; mr_MinOrderNotional : string;
  mr_MinOrderQuantity : string; mr_BaseQuantityStep : string; mr_FeeRate : string; mr_TickRules : list MarketTickRuleResponse }.

(** The objects under data. *)
Inductive Data :=
| DataPong
| DataAuth (token : string) (id : N) (name email : string)
| DataMarketRules (rules : MarketRulesResponse)
| DataSnapshot (coinSymbol : string) (asks bids : list (string * string))
| DataOrderAccepted (order_id : N) (idempotent_replay : bool)
| DataOrderState (order_id : N) (status : string) (idempotent_replay : option bool)
| DataOrders (orders : list OrderResponse)
| DataOrder (order : OrderResponse)
| DataWallets (wallets : list WalletResponse)
| DataTrades (trades : list TradeResponse)
| DataCancellation (order_id command_id : N) (status : string)
| DataTransfer (transfer : TransferResponse)
| DataTransfers (transfers : list TransferResponse)
| DataCallbackAccepted
| DataFunded (wallet : WalletResponse).

Inductive Body := DataResponse (data : Data) | ErrorResponse (code message : string) | ErrorDetailResponse (code message : string) (data : Data).

Record Response := mkResponse { rs_Status : Z; rs_RetryAfter : option string; rs_Body : Body }.

Definition retryAfterForOverload (status : Z) : option string := if status =? StatusServiceUnavailable then Some "1" else None.
Definition WriteData (status : Z) (data : Data) : Response := mkResponse status None (DataResponse data).
Definition WriteError (status : Z) (code message : string) : Response :=
  mkResponse status (retryAfterForOverload status) (ErrorResponse (normalizeCode code) (normalizeMessage message)).
Definition WriteErrorWithData (status : Z) (code message : string) (data : Data) : Response :=
  mkResponse status (retryAfterForOverload status) (ErrorDetailResponse (normalizeCode code) (normalizeMessage message) data).

(** ** Requests *)

(** The value under the user's key of gin's context. *)
Inductive context_value := ContextUint (n : N) | ContextUint64 (n : N) | ContextInt (z : Z) | ContextOther.

Record CreateOrderRequest := mkCreateOrderRequest {
  cq_CoinSymbol : string; cq_Side : string; cq_OrderType : string; cq_Price : string; cq_Amount : string; cq_QuoteAmount : string }.
Record TransferRequestBody := mkTransferBody { tb_Rail : string; tb_Asset : string; tb_Amount : string; tb_ClientRequestKey : string }.
Record CallbackRequest := mkCallback { cb_ExternalRef : string; cb_EventID : string; cb_Outcome : string; cb_Payload : Payload }.
Record FundWalletRequest := mkFundRequest { fw_CoinSymbol : string; fw_Amount : string; fw_RequestKey : string }.

(** [rq_Body]: what [ShouldBindJSON] returns, the text of its error on the left. *)
Record Request (B : Type) := mkRequest {
  rq_User : option context_value; rq_Body : result string B; rq_IdempotencyKey : string; rq_ID : string;
  rq_QueryStatus : string; rq_QueryCoinSymbol : string; rq_QueryLimit : string }.
Arguments mkRequest {B}. Arguments rq_User {B}. Arguments rq_Body {B}. Arguments rq_IdempotencyKey {B}. Arguments rq_ID {B}.
Arguments rq_QueryStatus {B}. Arguments rq_QueryCoinSymbol {B}. Arguments rq_QueryLimit {B}.

Definition authenticatedUserID (value : option context_value) : option N :=
  match value with
  | Some (ContextUint n) | Some (ContextUint64 n) => if decide (n = 0%N) then None else Some n
  | Some (ContextInt z) => if z <=? 0 then None else Some (Z.to_N z)
  | Some ContextOther | None => None
  end.

Definition parseIDParam (value : string) : option N := match ParseUint64 value with Some n => if decide (n = 0%N) then None else Some n | None => None end.
Definition parseLimitQuery (value : string) : Z := if decide (value = "") then 0 else default 0 (Atoi value).

Definition OrderIdempotencyOutcome_string (outcome : OrderIdempotencyOutcome) : string :=
  match outcome with OutcomePending => "PENDING" | OutcomeAccepted => "ACCEPTED" | OutcomeRejected => "REJECTED" | OutcomeUnknown => "UNKNOWN" end.

(** [model.TransferRail(s)] and [model.TransferOutcome(s)] *)
Definition TransferRail_from (s : string) : TransferRail :=
  if decide (s = "BANK") then TransferRailBank else if decide (s = "CHAIN") then TransferRailChain else TransferRailOther s.
Definition TransferOutcome_from (s : string) : TransferOutcome :=
  if decide (s = "SUCCESS") then TransferOutcomeSuccess else if decide (s = "FAILURE") then TransferOutcomeFailure
  else if decide (s = "PENDING") then TransferOutcomePending else if decide (s = "UNKNOWN") then TransferOutcomeUnknown else TransferOutcomeOther s.

Section Handlers.
Context {DL : DecimalLib} {TX : ErrorTexts} {API : MatchingAPI} {ETP : ExternalTransferProcessor}.

(** ** Errors *)

Definition serviceErrorStatus (err : error) : Z :=
  if IsRecordNotFound err then StatusNotFound
  else match DomainErrorKind err with
  | Some ErrorKindValidation => StatusUnprocessableEntity
  | Some ErrorKindConflict => StatusConflict
  | Some ErrorKindForbidden => StatusForbidden
  | Some ErrorKindUnavailable => StatusServiceUnavailable
  | None =>
      let message := ToLower (error_text err) in
      if contains "does not belong" message then StatusForbidden
      else if contains "insufficient" message || contains "cannot be cancelled" message || contains "no remaining quantity" message || contains "already registered" message
      then StatusConflict
      else if contains "invalid" message || contains "required" message || contains "must be" message || contains "not supported" message
      then StatusUnprocessableEntity
      else StatusBadRequest
  end.

Definition writeServiceError (err : error) : Response :=
  let status := serviceErrorStatus err in
  WriteError status (CodeForStatus status) (if IsRecordNotFound err then "not found" else error_text err).
Definition writeBindingError (text : string) : Response := WriteError StatusUnprocessableEntity CodeValidation text.
Definition unauthorized : Response := WriteError StatusUnauthorized CodeAuthRequired "authenticated user is required".

Definition idempotencyFailureMessage (outcome : OrderIdempotencyOutcome) : string :=
  match outcome with
  | OutcomeRejected => "order was not accepted and the hold was released; use a new idempotency key to place a new order"
  | _ => "order state could not be finalized; check the order status before acting — retrying with the same key returns this same state"
  end.

(** ** Orders *)

(** The answer to what the service reported; it reports a result or an error. *)
Definition create_order_response (reply : CreateOrderReply) : Response :=
  match rp_Err reply, rp_Result reply with
  | Some err, Some result =>
      let status := serviceErrorStatus err in
      WriteErrorWithData status (CodeForStatus status) (idempotencyFailureMessage (co_Outcome result))
        (DataOrderState (r_ID (co_Order result)) (OrderIdempotencyOutcome_string (co_Outcome result)) None)
  | Some err, None => writeServiceError err
  | None, None => WriteError StatusInternalServerError CodeInternal "unknown idempotency outcome"
  | None, Some result =>
      match co_Outcome result with
      | OutcomeAccepted => WriteData StatusOK (DataOrderAccepted (r_ID (co_Order result)) (co_Replay result))
      | OutcomePending =>
          WriteData StatusAccepted (DataOrderState (r_ID (co_Order result)) (OrderIdempotencyOutcome_string (co_Outcome result)) (Some (co_Replay result)))
      | OutcomeRejected | OutcomeUnknown =>
          WriteErrorWithData StatusServiceUnavailable CodeUnavailable (idempotencyFailureMessage (co_Outcome result))
            (DataOrderState (r_ID (co_Order result)) (OrderIdempotencyOutcome_string (co_Outcome result)) None)
      end
  end.

Definition create_order_input (userID : N) (req : CreateOrderRequest) (key : string) : CreateOrderInput :=
  mkCreateOrderInput userID (cq_CoinSymbol req) (cq_Side req) (cq_OrderType req) (cq_Price req) (cq_Amount req) (cq_QuoteAmount req) key.

(** [hold], [rules] and [me] are the fields of the order service. *)
Definition handleCreateOrder (hold : holdRequest -> M holdResult) (rules : option MarketRulesRegistry) (now : Z) (c : Request CreateOrderRequest) (w : World) (me : option engine)
    : Response * World * option engine :=
  match authenticatedUserID (rq_User c) with
  | None => (unauthorized, w, me)
  | Some userID =>
      match rq_Body c with
      | Err text => (writeBindingError text, w, me)
      | Ok req =>
          if decide (TrimSpace (rq_IdempotencyKey c) = "") then (WriteError StatusBadRequest CodeBadRequest "Idempotency-Key header is required", w, me)
          else
            let '(reply, w, me) := CreateOrder hold rules now (create_order_input userID req (rq_IdempotencyKey c)) w me in
            (create_order_response reply, w, me)
      end
  end.

(** A handler that answers with what a service returned. *)
Definition respond {A} (m : M A) (answer : A -> Response) (w : World) : Response * World :=
  match m w with (Ok a, w) => (answer a, w) | (Err err, w) => (writeServiceError err, w) end.

Definition orderResponse (order : OrderRow) : OrderResponse :=
  let remaining := Sub (r_Amount order) (r_FilledAmount order) in
  let remaining := if IsNegative remaining then Zero else remaining in
  mkOrderResponse (r_ID order) (r_CoinSymbol order) (r_Side order) (r_OrderType order) (r_Status order) (DString (r_Price order)) (DString (r_Amount order))
    (DString (r_QuoteAmount order)) (DString (r_FilledAmount order)) (DString (r_FilledQuoteAmount order)) (DString remaining) (r_CreatedAt order).
Definition walletResponse (balance : UserAssetBalance) : WalletResponse :=
  mkWalletResponse (ub_AvailableAccountID balance) (ub_Asset balance) (DString (ub_Available balance)) (DString (ub_Locked balance))
    (DString (Add (ub_Available balance) (ub_Locked balance))) (DString (ub_AvgBuyPrice balance)).
Definition tradeResponse (trade : Trade * OrderSide) : TradeResponse :=
  let '(t, side) := trade in
  mkTradeResponse (t_ID t) (t_IdempotencyKey t) (t_EngineSequence t) (t_EngineEventID t) (t_CoinSymbol t) side (DString (t_Price t)) (DString (t_Quantity t))
    (DString (t_FeeRate t)) (DString (t_BuyerFee t)) (t_BuyerFeeAsset t) (DString (t_SellerFee t)) (t_SellerFeeAsset t) (t_TradedAt t) (t_BuyOrderID t) (t_SellOrderID t).

Definition handleListOrders (c : Request unit) (w : World) : Response * World :=
  match authenticatedUserID (rq_User c) with
  | None => (unauthorized, w)
  | Some userID =>
      respond (ListOrders userID (rq_QueryStatus c) (rq_QueryCoinSymbol c) (parseLimitQuery (rq_QueryLimit c)))
        (fun orders => WriteData StatusOK (DataOrders (map orderResponse orders))) w
  end.

Definition handleGetOrder (c : Request unit) (w : World) : Response * World :=
  match authenticatedUserID (rq_User c) with
  | None => (unauthorized, w)
  | Some userID =>
      match parseIDParam (rq_ID c) with
      | None => (WriteError StatusBadRequest CodeBadRequest "invalid order id", w)
      | Some orderID => respond (GetOrder userID orderID) (fun order => WriteData StatusOK (DataOrder (orderResponse order))) w
      end
  end.

Definition handleListWallets (c : Request unit) (w : World) : Response * World :=
  match authenticatedUserID (rq_User c) with
  | None => (unauthorized, w)
  | Some userID => respond (ListWallets userID) (fun wallets => WriteData StatusOK (DataWallets (map walletResponse wallets))) w
  end.

Definition handleListTrades (c : Request unit) (w : World) : Response * World :=
  match authenticatedUserID (rq_User c) with
  | None => (unauthorized, w)
  | Some userID =>
      respond (ListTrades userID (rq_QueryCoinSymbol c) (parseLimitQuery (rq_QueryLimit c))) (fun trades => WriteData StatusOK (DataTrades (map tradeResponse trades))) w
  end.

Definition handleCancelOrder (c : Request unit) (w : World) : Response * World :=
  match authenticatedUserID (rq_User c) with
  | None => (unauthorized, w)
  | Some userID =>
      match parseIDParam (rq_ID c) with
      | None => (WriteError StatusBadRequest CodeBadRequest "invalid order id", w)
      | Some orderID =>
          match CancelOrder userID orderID w with
          | (Err err, w) => let status := serviceErrorStatus err in (WriteError status (CodeForStatus status) (error_text err), w)
          | (Ok result, w) => (WriteData StatusAccepted (DataCancellation (ca_OrderID result) (ca_CommandID result) (ca_Status result)), w)
          end
      end
  end.

(** ** Transfers and development funds *)

Definition transferResponse (r : TransferRequest) : TransferResponse :=
  mkTransferResponse (tq_ID r) (TransferDirection_string (tq_Direction r)) (TransferRail_string (tq_Rail r)) (tq_Asset r) (DString (tq_Amount r)) (DString (tq_FeeAmount r))
    (tq_Status r) (tq_ExternalRef r) (bool_decide (tq_Status r = TransferStatusProcessing) && bool_decide (tq_ReviewRequiredAt r <> None)) (tq_FailureReason r) (tq_CreatedAt r).

Definition normalizeTransferQueryLimit (limit : Z) : Z :=
  if limit <=? 0 then DefaultQueryLimit else if MaxQueryLimit <? limit then MaxQueryLimit else limit.

(** Both kinds of request; [call] is the service's. *)
Definition handle_transfer (call : N -> TransferRail -> string -> string -> string -> World -> processor -> result error TransferRequest * World * processor)
    (c : Request TransferRequestBody) (w : World) (p : processor) : Response * World * processor :=
  match authenticatedUserID (rq_User c) with
  | None => (unauthorized, w, p)
  | Some userID =>
      match rq_Body c with
      | Err text => (writeBindingError text, w, p)
      | Ok req =>
          match call userID (TransferRail_from (tb_Rail req)) (tb_Asset req) (tb_Amount req) (tb_ClientRequestKey req) w p with
          | (Err err, w, p) => (writeServiceError err, w, p)
          | (Ok request, w, p) => (WriteData StatusOK (DataTransfer (transferResponse request)), w, p)
          end
      end
  end.
Definition handleRequestDeposit (now : Z) := handle_transfer (RequestDeposit now).
Definition handleRequestWithdrawal (now : Z) := handle_transfer (RequestWithdrawal now).

Definition handleListTransfers (c : Request unit) (w : World) : Response * World :=
  match authenticatedUserID (rq_User c) with
  | None => (unauthorized, w)
  | Some userID =>
      respond (ListByUser userID (normalizeTransferQueryLimit (parseLimitQuery (rq_QueryLimit c)))) (fun l => WriteData StatusOK (DataTransfers (map transferResponse l))) w
  end.

Definition handleReceiveCallback (now : Z) (c : Request CallbackRequest) (w : World) : Response * World :=
  match rq_Body c with
  | Err text => (writeBindingError text, w)
  | Ok req =>
      let outcome := TransferOutcome_from (cb_Outcome req) in
      if negb (IsTerminalOutcome outcome)
      then (WriteError StatusUnprocessableEntity CodeValidation "callback outcome must be SUCCESS or FAILURE", w)
      else
        respond (request ← FindByExternalRef (cb_ExternalRef req);
                 ResolveTransfer now (Transfers.mkResolveInput (tq_ID request) TransferEventSourceCallback
                                        ("callback:" +:+ TransferRail_string (tq_Rail request) +:+ ":" +:+ cb_EventID req) outcome (cb_Payload req)))
          (fun _ => WriteData StatusOK DataCallbackAccepted) w
  end.

Definition handleFundWallet (c : Request FundWalletRequest) (w : World) : Response * World :=
  match authenticatedUserID (rq_User c) with
  | None => (unauthorized, w)
  | Some userID =>
      match rq_Body c with
      | Err text => (writeBindingError text, w)
      | Ok req => respond (FundWallet userID (fw_CoinSymbol req) (fw_Amount req) (fw_RequestKey req)) (fun balance => WriteData StatusOK (DataFunded (walletResponse balance))) w
      end
  end.
End Handlers.
