(* ===== verification/HttpProofs.v ===== *)
(** * What the HTTP interface answers *)
From S2P Require Import Prelude Decimal Model Errors Fee Matching MarketRules Database Ledger LedgerInv LedgerSpec LedgerTheorems OrderLedger Queries Idempotency Settlement TradePlan Store SettlementProofs SettlementBatch SettlementBatchProofs HoldCoordinator OrderService Transfers TransferInv LockedFunds OrderProofs HoldBatchProofs TransferProofs FailureStores Services Dispatcher Processing ProcessingProofs TerminalProofs RetryWorker RetryProofs ServiceFixtures ProcessingFixtures Recovery RecoveryProofs HttpApi.
From Stdlib Require Import Lia Ascii.

Local Open Scope Z_scope.

(** ** Numbers *)

Lemma digit_pretty n : (n < 10)%N -> digit (pretty_N_char n) = Some n.
Proof. intros Hn. assert (Hc : (n ∈ [0; 1; 2; 3; 4; 5; 6; 7; 8; 9])%N) by (rewrite !elem_of_cons; lia). rewrite !elem_of_cons, elem_of_nil in Hc. by repeat (destruct Hc as [->|Hc]; [done|]). Qed.

Lemma parse_pretty_go n : forall s, parse_digits 0 (pretty_N_go n s) = parse_digits n s.
Proof.
  induction (N.lt_wf_0 n) as [n _ IH]; intros s. destruct (decide (n = 0%N)) as [->|Hn]; [by rewrite pretty_N_go_0|].
  rewrite pretty_N_go_step by lia. rewrite IH by (apply N.div_lt; lia). cbn [parse_digits].
  rewrite digit_pretty by (apply N.mod_upper_bound; lia). f_equal. rewrite <- N.div_mod; [done|lia].
Qed.

Lemma pretty_nonempty (n : N) : pretty n <> "".
Proof.
  intros E. assert (H : parse_digits 0 (pretty n) = Some n).
  { unfold pretty, pretty_N. destruct (decide (n = 0%N)) as [->|]; [done|]. by rewrite parse_pretty_go. }
  assert (Hn : n = 0%N) by (rewrite E in H; by injection H). by subst n.
Qed.

(** An identifier that an answer shows is read back as that identifier from the
    path of a later request. *)
Theorem id_param_roundtrip (id : N) : (0 < id < 2 ^ 64)%N -> parseIDParam (pretty id) = Some id.
Proof.
  intros [H0 H1]. unfold parseIDParam, ParseUint64. rewrite decide_False by apply pretty_nonempty.
  assert (E : parse_digits 0 (pretty id) = Some id) by (unfold pretty, pretty_N; rewrite decide_False by lia; by rewrite parse_pretty_go).
  rewrite E. cbn. rewrite decide_True by lia. by rewrite decide_False by lia.
Qed.

Section Responses.
Context {DL : DecimalLib} {DLaws : DecimalLaws DL} {TX : ErrorTexts} {API : MatchingAPI} {ETP : ExternalTransferProcessor}.

(** ** Errors *)

(** The status an error of each kind has. *)
Definition kind_status (kind : ErrorKind) : Z :=
  match kind with ErrorKindValidation => 422 | ErrorKindConflict => 409 | ErrorKindForbidden => 403 | ErrorKindUnavailable => 503 end.

Lemma error_status_range err : serviceErrorStatus err ∈ [400; 403; 404; 409; 422; 503].
Proof.
  unfold serviceErrorStatus. destruct (IsRecordNotFound err); [set_solver|]. destruct (DomainErrorKind err) as [[]|]; [set_solver..|]. cbv zeta.
  repeat (destruct (contains _ _); cbn [orb]); set_solver.
Qed.

Lemma error_status_high err : 400 <= serviceErrorStatus err.
Proof. pose proof (error_status_range err) as H. rewrite !elem_of_cons, elem_of_nil in H. lia. Qed.

Lemma code_stable status : normalizeCode (CodeForStatus status) = CodeForStatus status.
Proof. unfold CodeForStatus. by repeat (destruct (_ =? _); [done|]). Qed.

(** Errors are answered as errors.  Whatever a service fails with, the answer has
    one of the statuses 400, 403, 404, 409, 422 and 503, with the code of that status;
    a missing row is 404 and an error of a kind has the status of its kind; and the
    client is told when to try again exactly when the status is 503. *)
Theorem errors_answered_as_errors err :
  let response := writeServiceError err in
  rs_Status response ∈ [400; 403; 404; 409; 422; 503]
  /\ (exists message, rs_Body response = ErrorResponse (CodeForStatus (rs_Status response)) message /\ message <> "")
  /\ (IsRecordNotFound err = true -> rs_Status response = 404)
  /\ (forall kind, IsRecordNotFound err = false -> DomainErrorKind err = Some kind -> rs_Status response = kind_status kind)
  /\ (rs_RetryAfter response <> None <-> rs_Status response = 503).
Proof.
  unfold writeServiceError, WriteError. cbv zeta. cbn [rs_Status rs_Body rs_RetryAfter]. split_and!.
  - apply error_status_range.
  - rewrite code_stable. eexists. split; [done|]. unfold normalizeMessage. cbv zeta. by destruct (decide _).
  - intros H. unfold serviceErrorStatus. by rewrite H.
  - intros kind Hn Hk. unfold serviceErrorStatus. rewrite Hn, Hk. by destruct kind.
  - unfold retryAfterForOverload, StatusServiceUnavailable. destruct (Z.eqb_spec (serviceErrorStatus err) 503); done.
Qed.

(** ** Creating an order *)

(** A new order, stored with its hold, and taken by the engine. *)
Definition order_placed (now : Z) (input : CreateOrderInput) (id : N) (t : Tables) (me : option engine) (t' : Tables) (me' : option engine) : Prop :=
  exists order idem row t1 s1 e e' q, parseOrderRequest input = Ok order /\ sys_ok t1 s1 /\ handed_out (mkHoldRequest order (Some idem)) row t t1 /\ r_ID row = id /\ keys_only t1 t'
    /\ me = Some e /\ me' = Some e' /\ matchingQuoteAmountForOrder row = Ok q /\ api_TrySubmitOrder (engine_order row q now) e = (true, e').

(** The engine was given nothing, and, unless an acknowledgement was lost, what is new in
    the tables belongs to other requests of the batch. *)
Definition nothing_placed (place : hold_place) (w : World) (me : option engine) (t' : Tables) (me' : option engine) : Prop :=
  me' = me /\ tb_orders (w_tables w) ⊆ tb_orders t' /\ (Lost ∉ w_faults w -> all_accounted place [] (w_tables w) t').

(** The engine was not given an order, or has refused it. *)
Definition not_submitted (me me' : option engine) : Prop :=
  me' = me \/ exists o e e', me = Some e /\ me' = Some e' /\ api_TrySubmitOrder o e = (false, e').

Definition truthful (place : hold_place) (now : Z) (input : CreateOrderInput) (w : World) (me : option engine) (resp : Response) (t' : Tables) (me' : option engine) : Prop :=
  match rs_Body resp with
  | DataResponse (DataOrderAccepted id replay) => rs_Status resp = 200 /\ if (replay : bool) then nothing_placed place w me t' me' else order_placed now input id (w_tables w) me t' me'
  | DataResponse (DataOrderState _ status _) => rs_Status resp = 202 /\ status = "PENDING" /\ nothing_placed place w me t' me'
  | DataResponse _ => False
  | ErrorResponse _ _ | ErrorDetailResponse _ _ _ => 400 <= rs_Status resp /\ not_submitted me me'
  end.

Lemma reply_truthful place now input w me reply t' me' : create_outcome place now input w me reply t' me' -> truthful place now input w me (create_order_response reply) t' me'.
Proof.
  unfold create_outcome, create_order_response. destruct reply as [[res|] [err|]]; cbn [rp_Result rp_Err].
  - intros H. split; [apply error_status_high|]. destruct (co_Replay res); [left; apply H|].
    destruct H as (order & idem & row & t1 & s1 & e & e' & _ & _ & _ & _ & -> & -> & res' & E & _ & _ & q & submitted & _ & Hsub & Hcase). cbn in E. injection E as <-. cbn [rp_Err] in Hcase.
    right. eexists _, e, e'. split; [done|]. split; [done|]. destruct (co_Outcome res); destruct Hcase as (-> & Hcase & _); try exact Hsub. done.
  - destruct (co_Replay res) eqn:Er.
    + intros H. destruct (co_Outcome res); cbn; rewrite ?Er; (split; [done|]); try done; left; apply H.
    + intros (order & idem & row & t1 & s1 & e & e' & Hp & Hok & Hc & _ & -> & -> & res' & E & _ & <- & q & submitted & Hq & Hsub & Hcase). cbn in E. injection E as <-. cbn [rp_Err] in Hcase.
      destruct (co_Outcome res); destruct Hcase as (-> & Hn & Hk); try done. cbn. split; [done|]. by exists order, idem, (co_Order res), t1, s1, e, e', q.
  - intros [-> _]. split; [apply error_status_high|by left].
  - intros [-> _]. split; [done|by left].
Qed.

(** C25 What a client is told about its order is what happened, wherever the order is
    held (in a batch of the coordinator with any other requests, or not at all because
    the coordinator is full) and whatever the database does: "order accepted" with
    status 200 for a new request means that the order with the id in the answer is
    stored with its funds held, and the engine has taken it; the answer to a repeated
    request, and one with status 202, that this request gave the engine nothing, and,
    unless an acknowledgement of a commit was lost, that it stored and held nothing;
    and with any error the engine has no order from this request.  The invariants of
    the services hold after every request. *)
Theorem create_response_truthful place rules now c w me : ok_world w -> place_ok place ->
  exists resp w' me', handleCreateOrder (holdWithIdempotency place) rules now c w me = (resp, w', me') /\ ok_world w' /\ match authenticatedUserID (rq_User c), rq_Body c with
  | Some userID, Ok req => truthful place now (create_order_input userID req (rq_IdempotencyKey c)) w me resp (w_tables w') me'
  | _, _ => 400 <= rs_Status resp /\ w' = w /\ me' = me
  end.
Proof.
  intros Hw Hp. unfold handleCreateOrder. destruct (authenticatedUserID (rq_User c)) as [userID|]; [|by eexists _, w, me]. destruct (rq_Body c) as [req|text]; [|by eexists _, w, me].
  destruct (decide _); [eexists _, w, me; split; [done|]; split; [done|]; split; [done|by left]|].
  pose proof (create_order_run place rules now (create_order_input userID req (rq_IdempotencyKey c)) w me Hw Hp) as H. destruct (CreateOrder _ _ _ _ _ _) as [[reply w'] me']. destruct H as [Hw' Hout].
  eexists _, w', me'. split; [done|]. split; [done|]. by apply reply_truthful.
Qed.

(** ** Cancelling *)

Lemma cancel_body_durable u id t sq : (forall id o, tb_orders t !! id = Some o -> r_ID o = id) ->
  wp (cancel_body u id) (fun c t' _ => (exists k, tb_commands t' !! k = Some c) /\ cmd_OrderID c = id /\ exists o, tb_orders t' !! id = Some o /\ r_UserID o = u) (fun _ => True) t sq.
Proof.
  intros Hids. unfold cancel_body, FindByIDForUpdate. apply wp_bind, wp_bind, wp_query. destruct (tb_orders t !! id) as [o|] eqn:Eo; [|by apply wp_throw]. apply wp_ret.
  destruct (bool_decide (r_UserID o = u)) eqn:Eu; [|by apply wp_throw]. apply bool_decide_eq_true in Eu. cbn [negb]. destruct (negb _); [by apply wp_throw|]. case_decide; [by apply wp_throw|].
  apply wp_bind. unfold CreateOrGet. apply wp_bind, wp_stmt, wp_bind, wp_nextval. intros s1 Hs1 _ Hnew. apply wp_bind, wp_get. destruct (command_of_order t _) as [c|] eqn:Ec.
  - apply wp_bind, wp_query. rewrite Ec. apply wp_ret, wp_ret. unfold command_of_order in Ec. apply head_Some in Ec as [l El].
    assert (Hin : c ∈ filter (fun c => cmd_OrderID c = r_ID o) (map snd (map_to_list (tb_commands t)))) by (cbn in El; rewrite El; by left).
    apply list_elem_of_filter in Hin as [Ho Hin]. apply list_elem_of_fmap in Hin as ([k c'] & -> & Hin%elem_of_map_to_list). split; [by exists k|]. rewrite (Hids _ _ Eo) in Ho. split; [exact Ho|]. by exists o.
  - apply wp_bind, wp_put, wp_ret, wp_ret. split; [eexists; apply lookup_insert_eq|]. split; [by apply Hids|]. by exists o.
Qed.

(** An accepted cancellation is durable.  When the answer to a request to cancel
    is 202, then, whatever the database did, the command with the id in the answer is
    stored, for the order the request names, and that order is the user's; and the
    order itself is as it was. *)
Theorem cancel_response_durable c w resp w' : sys_ok (w_tables w) (w_seqs w) -> handleCancelOrder c w = (resp, w') -> rs_Status resp = 202 ->
  exists userID orderID command o, authenticatedUserID (rq_User c) = Some userID /\ parseIDParam (rq_ID c) = Some orderID
    /\ rs_Body resp = DataResponse (DataCancellation orderID (cmd_ID command) CancelOrderAcceptedStatus)
    /\ (exists k, tb_commands (w_tables w') !! k = Some command) /\ cmd_OrderID command = orderID
    /\ tb_orders (w_tables w') !! orderID = Some o /\ r_UserID o = userID.
Proof.
  intros Hsys E Hst. assert (Hids : forall id o, tb_orders (w_tables w) !! id = Some o -> r_ID o = id) by (intros id o Ho; by apply (so_orders _ _ (sy_store _ _ Hsys) id o Ho)).
  unfold handleCancelOrder in E. destruct (authenticatedUserID (rq_User c)) as [u|]; [|by injection E as <- _]. destruct (parseIDParam (rq_ID c)) as [id|]; [|by injection E as <- _].
  destruct (CancelOrder u id w) as [[reply|err] w1] eqn:Ec.
  2: { injection E as <- _. cbn in Hst. pose proof (error_status_high err). pose proof (error_status_range err) as Hr. rewrite Hst in Hr. rewrite !elem_of_cons, elem_of_nil in Hr. lia. }
  injection E as <- <-. unfold CancelOrder in Ec. destruct (decide _); [done|]. destruct (decide _); [done|]. rewrite bind_world in Ec. injection Ec as E1 E2. rewrite map_err_world in E2.
  pose proof (transaction_wp _ _ _ _ _ (w_faults w) (cancel_body_durable u id (w_tables w) (w_seqs w) Hids)) as Ht. rewrite ProcessingProofs.world_eta in Ht. unfold map_err in E1.
  destruct (transaction (cancel_body u id) w) as [[command|e] w2]; cbn [fst snd] in *; [|done]. subst w2. injection E1 as <-. destruct Ht as (_ & _ & Hk & Ho & o & Hrow & Hu).
  exists u, id, command, o. cbn. rewrite Ho. by split_and!.
Qed.

(** ** Every request is a call of the services *)

(** The steps requests take; reading requests change at most what the database has
    in store for the next statements. *)
Inductive http_step : World -> World -> Prop :=
| http_create place rules now c me w : place_ok place -> http_step w (handleCreateOrder (holdWithIdempotency place) rules now c w me).1.2
| http_cancel c w : http_step w (handleCancelOrder c w).2
| http_list_orders c w : http_step w (handleListOrders c w).2
| http_get_order c w : http_step w (handleGetOrder c w).2
| http_list_wallets c w : http_step w (handleListWallets c w).2
| http_list_trades c w : http_step w (handleListTrades c w).2
| http_deposit now c p w : http_step w (handleRequestDeposit now c w p).1.2
| http_withdrawal now c p w : http_step w (handleRequestWithdrawal now c w p).1.2
| http_list_transfers c w : http_step w (handleListTransfers c w).2
| http_callback now c w : http_step w (handleReceiveCallback now c w).2
| http_fund c w : http_step w (handleFundWallet c w).2.

Definition reads_only {A} (m : M A) : Prop := forall w, exists fs, (m w).2 = mkWorld (w_tables w) (w_seqs w) fs.

Lemma reads_query {A} (f : Tables -> A) : reads_only (query f).
Proof. intros [t s fs]. unfold query, mbind, M_bind, stmt, get_db, mret, M_ret. cbn. destruct fs as [|[] fs]; by eexists. Qed.
Lemma reads_ret {A} (a : A) : reads_only (mret a).
Proof. intros [t s fs]. by exists fs. Qed.
Lemma reads_throw {A} e : reads_only (throw e : M A).
Proof. intros [t s fs]. by exists fs. Qed.
Lemma reads_lift {A} (r : result error A) : reads_only (lift r).
Proof. intros [t s fs]. by exists fs. Qed.
Lemma reads_bind {A B} (m : M A) (k : A -> M B) : reads_only m -> (forall a, reads_only (k a)) -> reads_only (m ≫= k).
Proof.
  intros Hm Hk w. unfold mbind, M_bind. destruct (Hm w) as [fs E]. destruct (m w) as [[a|e] w']; cbn [snd] in *; subst w'; [|by exists fs]. exact (Hk a (mkWorld (w_tables w) (w_seqs w) fs)).
Qed.

Lemma respond_world {A} (m : M A) answer w : (respond m answer w).2 = (m w).2.
Proof. unfold respond. by destruct (m w) as [[]]. Qed.

Lemma reads_steps {A} (m : M A) w : reads_only m -> rtc service_step w (m w).2.
Proof. intros Hm. destruct (Hm w) as [fs ->]. apply rtc_once, step_transfer, step_faults. Qed.

Lemma reads_user_balances u : reads_only (ListWallets u).
Proof. unfold ListWallets. destruct (decide _); [apply reads_throw|apply reads_query]. Qed.
Lemma reads_orders u st coin limit : reads_only (ListOrders u st coin limit).
Proof.
  unfold ListOrders. destruct (decide _); [apply reads_throw|]. apply reads_bind; [|intros; apply reads_query].
  destruct (decide _); [|apply reads_ret]. apply reads_bind; [apply reads_lift|intros; apply reads_ret].
Qed.
Lemma reads_order u id : reads_only (GetOrder u id).
Proof.
  unfold GetOrder, FindByUserIDAndID. destruct (decide _); [apply reads_throw|]. destruct (decide _); [apply reads_throw|]. apply reads_bind; [apply reads_query|].
  intros [o|]; [destruct (decide _); [apply reads_ret|apply reads_throw]|apply reads_throw].
Qed.
Lemma reads_trades u coin limit : reads_only (ListTrades u coin limit).
Proof. unfold ListTrades. destruct (decide _); [apply reads_throw|apply reads_query]. Qed.
Lemma reads_ref ref : reads_only (FindByExternalRef ref).
Proof. unfold FindByExternalRef. apply reads_bind; [apply reads_query|]. intros [r|]; [apply reads_ret|apply reads_throw]. Qed.

(** A body or a user that is missing: nothing is called. *)
Lemma transfer_world call c w p : (forall u rail asset amount key, rtc service_step w (call u rail asset amount key w p).1.2) -> rtc service_step w (handle_transfer call c w p).1.2.
Proof.
  intros H. unfold handle_transfer. destruct (authenticatedUserID _) as [u|]; [|apply rtc_refl]. destruct (rq_Body c) as [req|]; [|apply rtc_refl].
  specialize (H u (TransferRail_from (tb_Rail req)) (tb_Asset req) (tb_Amount req) (tb_ClientRequestKey req)). by destruct (call _ _ _ _ _ _ _) as [[[] ?] ?].
Qed.

Lemma callback_steps now c w : rtc service_step w (handleReceiveCallback now c w).2.
Proof.
  unfold handleReceiveCallback. destruct (rq_Body c) as [req|]; [|apply rtc_refl]. destruct (negb _); [apply rtc_refl|]. rewrite respond_world. unfold mbind, M_bind.
  pose proof (reads_steps _ w (reads_ref (cb_ExternalRef req))) as Hr. destruct (FindByExternalRef _ w) as [[request|e] w1]; [|done]. eapply rtc_r; [exact Hr|]. apply step_transfer, step_callback.
Qed.

(** Every request is a call of the services.  Whatever a client sends, what a
    handler leaves in the database is what at most one call of a service, or a read,
    leaves; so everything that is proved of the services' reachable states holds after
    any sequence of requests. *)
Theorem requests_are_service_calls w w' : http_step w w' -> rtc service_step w w'.
Proof.
  intros [place rules now c me w1 Hp|c w1|c w1|c w1|c w1|c w1|now c p w1|now c p w1|c w1|now c w1|c w1].
  - unfold handleCreateOrder. destruct (authenticatedUserID _) as [u|]; [|apply rtc_refl]. destruct (rq_Body c) as [req|]; [|apply rtc_refl]. destruct (decide _); [apply rtc_refl|].
    pose proof (step_create place rules now (create_order_input u req (rq_IdempotencyKey c)) me w1 Hp) as Hs. destruct (CreateOrder _ _ _ _ _ _) as [[reply w2] me2]. by apply rtc_once.
  - unfold handleCancelOrder. destruct (authenticatedUserID _) as [u|]; [|apply rtc_refl]. destruct (parseIDParam _) as [id|]; [|apply rtc_refl].
    pose proof (step_request_cancel u id w1) as Hs. destruct (CancelOrder u id w1) as [[] w2]; by apply rtc_once.
  - unfold handleListOrders. destruct (authenticatedUserID _) as [u|]; [|apply rtc_refl]. rewrite respond_world. apply reads_steps, reads_orders.
  - unfold handleGetOrder. destruct (authenticatedUserID _) as [u|]; [|apply rtc_refl]. destruct (parseIDParam _) as [id|]; [|apply rtc_refl]. rewrite respond_world. apply reads_steps, reads_order.
  - unfold handleListWallets. destruct (authenticatedUserID _) as [u|]; [|apply rtc_refl]. rewrite respond_world. apply reads_steps, reads_user_balances.
  - unfold handleListTrades. destruct (authenticatedUserID _) as [u|]; [|apply rtc_refl]. rewrite respond_world. apply reads_steps, reads_trades.
  - apply transfer_world. intros. apply rtc_once, step_transfer, step_deposit.
  - apply transfer_world. intros. apply rtc_once, step_transfer, step_withdrawal.
  - unfold handleListTransfers. destruct (authenticatedUserID _) as [u|]; [|apply rtc_refl]. rewrite respond_world. apply reads_steps, reads_query.
  - apply callback_steps.
  - unfold handleFundWallet. destruct (authenticatedUserID _) as [u|]; [|apply rtc_refl]. destruct (rq_Body c) as [req|]; [|apply rtc_refl]. rewrite respond_world. apply rtc_once, step_fund.
Qed.
End Responses.

Module HttpExamples.
Import FixedPoint ServiceFixtures PipelineFixtures ProcessingFixtures RecoveryExamples.

Lemma id_param_roundtrip_witness : (0 < 7 < 2 ^ 64)%N /\ parseIDParam (pretty 7%N) = Some 7%N.
Proof. split; [lia|]. apply (id_param_roundtrip 7). lia. Defined.

Example refused_ids : map parseIDParam ["0"; ""; "-1"; "1x"; "18446744073709551616"; "18446744073709551615"] = [None; None; None; None; None; Some 18446744073709551615%N].
Proof. vm_compute. reflexivity. Qed.
Example read_limits : map parseLimitQuery [""; "20"; "+7"; "-3"; "many"; "9223372036854775808"] = [0; 20; 7; -3; 0; 0].
Proof. vm_compute. reflexivity. Qed.

(** An order over HTTP. *)
Definition order_request : Request CreateOrderRequest :=
  mkRequest (Some (ContextUint 1)) (Ok (mkCreateOrderRequest "btc" "buy" "limit" "10000" "1" "")) "key-1" "" "" "" "".

(** In a batch behind another user's order. *)
Lemma create_response_truthful_witness : exists resp w' me', handleCreateOrder (holdWithIdempotency behind_sell) None 0 order_request funded2 idle = (resp, w', me') /\ ok_world w'
  /\ truthful behind_sell 0 (create_order_input 1 (mkCreateOrderRequest "btc" "buy" "limit" "10000" "1" "") "key-1") funded2 idle resp (w_tables w') me'.
Proof. exact (create_response_truthful behind_sell None 0 order_request funded2 idle ok_funded2 behind_sell_ok). Defined.

(** A cancellation over HTTP, of an order that has a command. *)
Definition cancel_request : Request unit := mkRequest (Some (ContextUint 1)) (Ok tt) "" "1" "" "" "".

Lemma buy1_user : r_UserID buy1 = 1%N.
Proof. vm_cast_no_check (eq_refl 1%N). Qed.

Lemma cancel_runs w : (CancelOrder 1 1 w).1 = Ok (mkCancelOrderReply 1 1 CancelOrderAcceptedStatus) ->
  handleCancelOrder cancel_request w = (WriteData StatusAccepted (DataCancellation 1 1 CancelOrderAcceptedStatus), (CancelOrder 1 1 w).2).
Proof. intros E. unfold handleCancelOrder. cbn [rq_User cancel_request authenticatedUserID rq_ID]. change (parseIDParam "1") with (Some 1%N). cbv iota. destruct (decide _); [done|]. destruct (CancelOrder 1 1 w) as [r w']. cbn in E. by subst r. Qed.

Lemma known_cancel : (CancelOrder 1 1 (restart ordered2)).1 = Ok (mkCancelOrderReply 1 1 CancelOrderAcceptedStatus).
Proof.
  apply (request_finds_command 1 1 buy1 processed_command (restart ordered2)); [exact (found_restart _ _ _ found_buy)|exact buy1_id|exact buy1_user|done|done| | |exact (command_restart ordered2)|done].
  - by rewrite buy1_open.
  - by rewrite buy1_limit.
Qed.

Lemma cancel_response_durable_witness : exists resp w', handleCancelOrder cancel_request (restart ordered2) = (resp, w') /\ rs_Status resp = 202
  /\ exists userID orderID command o, authenticatedUserID (rq_User cancel_request) = Some userID /\ parseIDParam (rq_ID cancel_request) = Some orderID
    /\ rs_Body resp = DataResponse (DataCancellation orderID (cmd_ID command) CancelOrderAcceptedStatus)
    /\ (exists k, tb_commands (w_tables w') !! k = Some command) /\ cmd_OrderID command = orderID
    /\ tb_orders (w_tables w') !! orderID = Some o /\ r_UserID o = userID.
Proof.
  eexists _, _. split; [exact (cancel_runs (restart ordered2) known_cancel)|]. split; [reflexivity|].
  exact (cancel_response_durable cancel_request (restart ordered2) _ _ (sys_restart ordered2 ok_ordered2) (cancel_runs (restart ordered2) known_cancel) eq_refl).
Defined.

Lemma requests_are_service_calls_witness : rtc service_step w0 (handleCancelOrder cancel_request w0).2.
Proof. exact (requests_are_service_calls w0 (handleCancelOrder cancel_request w0).2 (http_cancel cancel_request w0)). Defined.
End HttpExamples.
