(* ===== verification/WebSocket.v ===== *)
(** * The websocket hub (ws/hub.go, ws/handler.go)

    One goroutine owns the hub: which clients are registered, what each of them has
    subscribed to.  A message is put into the channel of every client that is to have
    it; a client whose channel is full is dropped.  Clients are addresses into a
    store, since the hub and the pumps of a connection share them; sending on a closed
    channel and closing one twice panic.  [hub_step] is any step of hub, pumps and
    connections.  Reading and writing frames is the websocket package's. *)
From S2P Require Import Prelude Errors Matching HttpApi.
From Stdlib Require Import Lia Ascii.

(** ** Origins and commands (handler.go) *)

Definition defaultWSAllowedOrigins : list string := ["http://localhost:3000"; "http://localhost:5173"].
Definition parseAllowedOrigins (raw : string) : list string := filter (fun origin => origin <> "") (map TrimSpace (Split ","%char raw)).

(** [env]: the environment of the process. *)
Definition lookupTrimmedEnv (env : gmap string string) (key : string) : option string := TrimSpace <$> env !! key.
Definition allowedOriginsFromEnv (env : gmap string string) : list string :=
  match lookupTrimmedEnv env "GOEXCHANGE_WS_ALLOWED_ORIGINS", lookupTrimmedEnv env "WS_ALLOWED_ORIGINS" with
  | Some origins, _ | None, Some origins => parseAllowedOrigins origins
  | None, None => defaultWSAllowedOrigins
  end.
Definition parseBool (value : string) : bool := bool_decide (ToLower (TrimSpace value) ∈ ["1"; "t"; "true"; "y"; "yes"; "on"]).
Definition allowMissingOriginFromEnv (env : gmap string string) : bool :=
  match lookupTrimmedEnv env "GOEXCHANGE_WS_ALLOW_MISSING_ORIGIN", lookupTrimmedEnv env "WS_ALLOW_MISSING_ORIGIN" with
  | Some value, _ | None, Some value => parseBool value
  | None, None => false
  end.

Record OriginCheckerConfig := mkOriginConfig { oc_AllowedOrigins : list string; oc_AllowMissingOrigin : bool }.
Definition OriginCheckerConfigFromEnv (env : gmap string string) : OriginCheckerConfig := mkOriginConfig (allowedOriginsFromEnv env) (allowMissingOriginFromEnv env).

(** [r]: the Origin header of the request, empty when it has none; [None]: no request. *)
Definition NewOriginChecker (cfg : OriginCheckerConfig) (r : option string) : bool :=
  let allowedOrigins : gset string := list_to_set (filter (fun o => o <> "") (map TrimSpace (oc_AllowedOrigins cfg))) in
  match r with
  | None => false
  | Some header =>
      let origin := TrimSpace header in
      if decide (origin = "") then oc_AllowMissingOrigin cfg else bool_decide (origin ∈ allowedOrigins)
  end.
Definition NewOriginCheckerFromEnv (env : gmap string string) : option string -> bool := NewOriginChecker (OriginCheckerConfigFromEnv env).

Record clientCommand := mkClientCommand { wc_Action : string; wc_CoinSymbols : list string }.
Record SubscriptionUpdate := mkUpdate { su_Client : option N; su_CoinSymbols : list string; su_Unsubscribe : bool }.

(** [cmd]: what the message decodes to, if it does. *)
Definition parseSubscriptionCommand (client : N) (cmd : option clientCommand) : option SubscriptionUpdate :=
  match cmd with
  | None => None
  | Some cmd =>
      let action := ToLower (TrimSpace (wc_Action cmd)) in
      let symbols := filter (fun s => s <> "") (map (fun s => ToUpper (TrimSpace s)) (wc_CoinSymbols cmd)) in
      if decide (action = "subscribe") then Some (mkUpdate (Some client) symbols false)
      else if decide (action = "unsubscribe") then Some (mkUpdate (Some client) symbols true)
      else None
  end.

(** ** The hub *)

Record Message := mkMessage { ms_CoinSymbol : string; ms_Payload : string }.

(** A client and its channel. *)
Record Client := mkClient { cl_buffer : list string; cl_closed : bool; cl_subscriptions : gset string; cl_subscribed : bool }.
#[export] Instance Client_settable : Settable Client := fun c => mkClient (cl_buffer c) (cl_closed c) (cl_subscriptions c) (cl_subscribed c).

Definition sendCapacity : nat := 256.
Definition newClient : Client := mkClient [] false ∅ false.

Record Hub := mkHub { hb_Clients : gset N; hb_store : gmap N Client }.
Definition NewHub : Hub := mkHub ∅ ∅.

Definition registerClient (client : N) (h : Hub) : Hub := mkHub ({[client]} ∪ hb_Clients h) (hb_store h).

(** [close(client.Send)] *)
Definition close_send (client : N) (h : Hub) : outcome Hub :=
  match hb_store h !! client with
  | None => Panicked
  | Some c => if cl_closed c then Panicked else Ret (mkHub (hb_Clients h) (<[client := c <| cl_closed := true |>]> (hb_store h)))
  end.

Definition unregisterClient (client : N) (h : Hub) : outcome Hub :=
  if decide (client ∈ hb_Clients h) then close_send client (mkHub (hb_Clients h ∖ {[client]}) (hb_store h)) else Ret h.

Definition subscribe_symbol (unsubscribe : bool) (subscriptions : gset string) (coinSymbol : string) : gset string :=
  if decide (coinSymbol = "") then subscriptions
  else if unsubscribe then subscriptions ∖ {[coinSymbol]} else {[coinSymbol]} ∪ subscriptions.

Definition applySubscription (update : SubscriptionUpdate) (h : Hub) : Hub :=
  match su_Client update with
  | None => h
  | Some client =>
      if decide (client ∈ hb_Clients h) then
        mkHub (hb_Clients h) (alter (fun c => c <| cl_subscribed := true |>
                                               <| cl_subscriptions := foldl (subscribe_symbol (su_Unsubscribe update)) (cl_subscriptions c) (su_CoinSymbols update) |>)
                                    client (hb_store h))
      else h
  end.

Definition shouldReceive (c : Client) (msg : Message) : bool :=
  if decide (ms_CoinSymbol msg = "") then true else if negb (cl_subscribed c) then true else bool_decide (ms_CoinSymbol msg ∈ cl_subscriptions c).

(** The body of the loop for one client: [select { case client.Send <- payload: default: }] *)
Definition broadcast_one (msg : Message) (client : N) (h : Hub) : outcome Hub :=
  match hb_store h !! client with
  | None => Panicked
  | Some c =>
      if negb (shouldReceive c msg) then Ret h
      else if cl_closed c then Panicked
      else if (length (cl_buffer c) <? sendCapacity)%nat
      then Ret (mkHub (hb_Clients h) (<[client := c <| cl_buffer := cl_buffer c ++ [ms_Payload msg] |>]> (hb_store h)))
      else unregisterClient client h
  end.

(** [order]: how [range] visits the clients. *)
Fixpoint broadcast (msg : Message) (order : list N) (h : Hub) : outcome Hub :=
  match order with [] => Ret h | client :: rest => h ← broadcast_one msg client h; broadcast msg rest h end.

(** ** Hub, pumps and connections *)

(** Beside the hub: what each writer has taken from its channel, and what each client
    was to have since it registered. *)
Record hub_system := mkHubSystem { hs_hub : Hub; hs_delivered : gmap N (list string); hs_expected : gmap N (list string) }.

Definition expect (h : Hub) (msg : Message) (expected : gmap N (list string)) : gmap N (list string) :=
  map_imap (fun client l => Some (match hb_store h !! client with
    | Some c => if decide (client ∈ hb_Clients h /\ shouldReceive c msg = true) then l ++ [ms_Payload msg] else l
    | None => l
    end)) expected.

(** [ServeWs] registers a new client before its pumps start; each pump unregisters it
    when it ends; commands arrive as long as a connection is read; [writePump] takes
    the messages. *)
Inductive hub_step : hub_system -> outcome hub_system -> Prop :=
| step_connect client s : hb_store (hs_hub s) !! client = None ->
    hub_step s (Ret (mkHubSystem (registerClient client (mkHub (hb_Clients (hs_hub s)) (<[client := newClient]> (hb_store (hs_hub s)))))
                       (<[client := []]> (hs_delivered s)) (<[client := []]> (hs_expected s))))
| step_disconnect client s : is_Some (hb_store (hs_hub s) !! client) ->
    hub_step s (h ← unregisterClient client (hs_hub s); Ret (mkHubSystem h (hs_delivered s) (hs_expected s)))
| step_subscribe update s : hub_step s (Ret (mkHubSystem (applySubscription update (hs_hub s)) (hs_delivered s) (hs_expected s)))
| step_broadcast msg order s : order ≡ₚ elements (hb_Clients (hs_hub s)) ->
    hub_step s (h ← broadcast msg order (hs_hub s); Ret (mkHubSystem h (hs_delivered s) (expect (hs_hub s) msg (hs_expected s))))
| step_write client c payload rest s : hb_store (hs_hub s) !! client = Some c -> cl_buffer c = payload :: rest ->
    hub_step s (Ret (mkHubSystem (mkHub (hb_Clients (hs_hub s)) (<[client := c <| cl_buffer := rest |>]> (hb_store (hs_hub s))))
                       (alter (fun l => l ++ [payload]) client (hs_delivered s)) (hs_expected s))).

(** The steps that return. *)
Definition hub_moves (s s' : hub_system) : Prop := hub_step s (Ret s').
Definition hub_start : hub_system := mkHubSystem NewHub ∅ ∅.
