(* ===== verification/WebSocketProofs.v ===== *)
(** * The websocket hub: no panic, no gap *)
From S2P Require Import Prelude Errors Matching HttpApi WebSocket.
From Stdlib Require Import Lia.

(** The registered clients are those whose channel is open; channels stay within
    their capacity. *)
Record hub_ok (h : Hub) : Prop := mkHubOk {
  ho_open : forall client, client ∈ hb_Clients h <-> exists c, hb_store h !! client = Some c /\ cl_closed c = false;
  ho_capacity : forall client c, hb_store h !! client = Some c -> (length (cl_buffer c) <= sendCapacity)%nat }.

(** What has been taken from a channel and what is in it is the beginning of what its
    client was to have; all of it while the client is registered. *)
Definition flow_ok (s : hub_system) : Prop :=
  forall client c, hb_store (hs_hub s) !! client = Some c ->
    exists d e, hs_delivered s !! client = Some d /\ hs_expected s !! client = Some e /\
      (d ++ cl_buffer c) `prefix_of` e /\ (cl_closed c = false -> d ++ cl_buffer c = e).

Definition hub_inv (s : hub_system) : Prop := hub_ok (hs_hub s) /\ flow_ok s.

(** ** Effects of the operations *)

(** What a broadcast does to one client. *)
Definition served (msg : Message) (c : Client) : Client :=
  if negb (shouldReceive c msg) then c
  else if (length (cl_buffer c) <? sendCapacity)%nat then c <| cl_buffer := cl_buffer c ++ [ms_Payload msg] |>
  else c <| cl_closed := true |>.

(** Changing one client keeps the hub in order when the registration follows the
    channel. *)
Lemma hub_ok_change h client c members :
  hub_ok h -> (length (cl_buffer c) <= sendCapacity)%nat ->
  (forall other, other <> client -> other ∈ members <-> other ∈ hb_Clients h) -> (client ∈ members <-> cl_closed c = false) ->
  hub_ok (mkHub members (<[client := c]> (hb_store h))).
Proof.
  intros [Ho Hc] Hlen Hothers Hself. split; cbn.
  - intros other. destruct (decide (other = client)) as [->|Hne].
    + rewrite Hself, lookup_insert_eq. naive_solver.
    + rewrite Hothers, Ho, lookup_insert_ne by done. done.
  - intros other x. destruct (decide (other = client)) as [->|Hne].
    + rewrite lookup_insert_eq. naive_solver.
    + rewrite lookup_insert_ne by done. apply Hc.
Qed.

Lemma unregister_effect h client :
  hub_ok h -> exists h', unregisterClient client h = Ret h' /\ hub_ok h' /\ hb_store h' = alter (fun c => c <| cl_closed := true |>) client (hb_store h).
Proof.
  intros Hok. destruct Hok as [Ho Hc] eqn:E; clear E. unfold unregisterClient, close_send. case_decide as Hin; cbn.
  - destruct (proj1 (Ho client) Hin) as (c & Hs & Hopen). rewrite Hs, Hopen. eexists. split; [done|]. split.
    + apply hub_ok_change; cbn; [done|by eapply Hc| |]; intros; set_solver.
    + cbn. apply map_eq. intros k. destruct (decide (k = client)) as [->|Hne].
      * by rewrite lookup_insert_eq, lookup_alter_eq, Hs.
      * by rewrite lookup_insert_ne, lookup_alter_ne.
  - eexists. split; [done|]. split; [done|]. apply map_eq. intros k. destruct (decide (k = client)) as [->|Hne]; [|by rewrite lookup_alter_ne].
    rewrite lookup_alter_eq. destruct (hb_store h !! client) as [c|] eqn:Hs; [|done]. destruct (cl_closed c) eqn:Hcl.
    + cbn. f_equal. by destruct c; cbn in *; subst.
    + exfalso. apply Hin, Ho. eauto.
Qed.

Lemma broadcast_one_effect msg h client :
  hub_ok h -> client ∈ hb_Clients h ->
  exists h', broadcast_one msg client h = Ret h' /\ hub_ok h' /\ hb_store h' = alter (served msg) client (hb_store h).
Proof.
  intros Hok Hin. destruct (proj1 (ho_open h Hok client) Hin) as (c & Hs & Hopen). unfold broadcast_one. rewrite Hs, Hopen.
  assert (Halter : alter (served msg) client (hb_store h) = <[client := served msg c]> (hb_store h)).
  { apply map_eq. intros k. destruct (decide (k = client)) as [->|Hne].
    - by rewrite lookup_insert_eq, lookup_alter_eq, Hs.
    - by rewrite lookup_insert_ne, lookup_alter_ne. }
  rewrite Halter. unfold served. destruct (negb (shouldReceive c msg)); [|destruct (Nat.ltb_spec (length (cl_buffer c)) sendCapacity) as [Hl|Hl]].
  - exists h. repeat split; try apply Hok. by rewrite insert_id.
  - eexists. split; [done|]. split; [|done].
    apply hub_ok_change; cbn; [done|rewrite length_app; cbn; lia|done|by rewrite Hopen].
  - destruct (unregister_effect h client Hok) as (h' & Hr & Hok' & Hst). exists h'. repeat split; try apply Hok'; [done|].
    rewrite Hst. apply map_eq. intros k. destruct (decide (k = client)) as [->|Hne].
    + by rewrite lookup_insert_eq, lookup_alter_eq, Hs.
    + by rewrite lookup_insert_ne, lookup_alter_ne.
Qed.

(** Serving a client takes nobody else out of the hub. *)
Lemma others_stay msg h h' client other :
  hub_ok h -> hub_ok h' -> hb_store h' = alter (served msg) client (hb_store h) -> other <> client -> other ∈ hb_Clients h -> other ∈ hb_Clients h'.
Proof. intros Hok Hok' Hst Hne Hin. rewrite (ho_open h' Hok'), Hst, lookup_alter_ne by done. by apply (ho_open h Hok). Qed.

Lemma broadcast_effect msg order : forall h,
  hub_ok h -> NoDup order -> Forall (fun client => client ∈ hb_Clients h) order ->
  exists h', broadcast msg order h = Ret h' /\ hub_ok h' /\
    forall client, hb_store h' !! client = (if decide (client ∈ order) then served msg else id) <$> hb_store h !! client.
Proof.
  induction order as [|client rest IH]; intros h Hok Hnd Hall.
  - exists h. repeat split; try apply Hok. intros k. rewrite decide_False by (apply not_elem_of_nil). by destruct (hb_store h !! k).
  - apply NoDup_cons in Hnd as [Hnot Hnd]. apply Forall_cons in Hall as [Hin Hall].
    destruct (broadcast_one_effect msg h client Hok Hin) as (h1 & Hr1 & Hok1 & Hst1).
    destruct (IH h1 Hok1 Hnd) as (h' & Hr & Hok' & Hst).
    { rewrite Forall_forall in *. intros other Ho. eapply (others_stay msg h h1 client); eauto. by intros ->. }
    exists h'. cbn [broadcast]. rewrite Hr1. split; [exact Hr|]. split; [done|]. intros k. rewrite Hst, Hst1.
    destruct (decide (k = client)) as [->|Hne].
    + rewrite lookup_alter_eq, (decide_False (P := client ∈ rest)), (decide_True (P := client ∈ client :: rest)) by (done || left). by destruct (hb_store h !! client).
    + rewrite lookup_alter_ne by done. f_equal. apply decide_ext. rewrite elem_of_cons. naive_solver.
Qed.

Lemma subscription_effect update h client :
  hb_store (applySubscription update h) !! client = hb_store h !! client \/
  exists c subs, hb_store h !! client = Some c /\
    hb_store (applySubscription update h) !! client = Some (c <| cl_subscribed := true |> <| cl_subscriptions := subs |>).
Proof.
  unfold applySubscription. destruct (su_Client update) as [k|]; [|by left]. case_decide; [|by left]. cbn.
  destruct (decide (k = client)) as [->|Hne]; [|left; by rewrite lookup_alter_ne].
  rewrite lookup_alter_eq. destruct (hb_store h !! client) as [c|]; [right|by left]. do 2 eexists. split; [done|reflexivity].
Qed.

Lemma subscription_ok update h : hub_ok h -> hub_ok (applySubscription update h).
Proof.
  intros [Ho Hc]. assert (Hm : hb_Clients (applySubscription update h) = hb_Clients h) by (unfold applySubscription; repeat case_match; done).
  split; intros client.
  - rewrite Hm, Ho. destruct (subscription_effect update h client) as [->|(c & subs & -> & ->)]; [done|]. naive_solver.
  - intros c Hs. destruct (subscription_effect update h client) as [Heq|(c0 & subs & Hs0 & Heq)]; rewrite Heq in Hs; [by eapply Hc|].
    simplify_eq. cbn. by eapply Hc.
Qed.

(** ** Every step *)

Lemma expected_after h msg expected client e c :
  hub_ok h -> expected !! client = Some e -> hb_store h !! client = Some c ->
  expect h msg expected !! client = Some (if cl_closed c then e else if shouldReceive c msg then e ++ [ms_Payload msg] else e).
Proof.
  intros Hok He Hs. unfold expect. rewrite map_lookup_imap, He. cbn. rewrite Hs. f_equal.
  destruct (decide _) as [[Hin Hr]|Hn].
  - destruct (proj1 (ho_open h Hok client) Hin) as (c' & Hs' & Hopen). simplify_eq. by rewrite Hopen, Hr.
  - destruct (cl_closed c) eqn:Hcl; [done|]. destruct (shouldReceive c msg) eqn:Hr; [|done]. exfalso. apply Hn. split; [|done]. apply (ho_open h Hok). eauto.
Qed.

Lemma broadcast_flow s msg order h' :
  hub_inv s -> order ≡ₚ elements (hb_Clients (hs_hub s)) ->
  (forall client, hb_store h' !! client = (if decide (client ∈ order) then served msg else id) <$> hb_store (hs_hub s) !! client) ->
  flow_ok (mkHubSystem h' (hs_delivered s) (expect (hs_hub s) msg (hs_expected s))).
Proof.
  intros [Hok Hflow] Hord Hst client c' Hc'. cbn in *. rewrite Hst in Hc'. apply fmap_Some in Hc' as (c & Hs & ->).
  destruct (Hflow client c Hs) as (d & e & Hd & He & Hpre & Hall).
  pose proof (expected_after _ msg _ _ _ _ Hok He Hs) as He'. do 2 eexists. split; [exact Hd|]. split; [exact He'|].
  assert (Hin : client ∈ order <-> cl_closed c = false).
  { rewrite Hord, elem_of_elements, (ho_open _ Hok). rewrite Hs. naive_solver. }
  destruct (cl_closed c) eqn:Hcl.
  - rewrite decide_False by (rewrite Hin; done). cbn. by rewrite Hcl.
  - rewrite decide_True by by apply Hin. specialize (Hall eq_refl). subst e. unfold served.
    destruct (shouldReceive c msg); cbn [negb]; [|done]. destruct (length (cl_buffer c) <? sendCapacity)%nat; cbn.
    + by rewrite app_assoc.
    + split; [by apply prefix_app_r|done].
Qed.

Lemma disconnect_flow s client h' :
  flow_ok s -> hb_store h' = alter (fun c => c <| cl_closed := true |>) client (hb_store (hs_hub s)) -> flow_ok (mkHubSystem h' (hs_delivered s) (hs_expected s)).
Proof.
  intros Hflow Hst k c' Hc'. cbn in *. rewrite Hst in Hc'. destruct (decide (k = client)) as [->|Hne].
  - rewrite lookup_alter_eq in Hc'. apply fmap_Some in Hc' as (c & Hs & ->). destruct (Hflow client c Hs) as (d & e & Hd & He & Hpre & _). by exists d, e.
  - rewrite lookup_alter_ne in Hc' by done. by apply Hflow.
Qed.

Lemma connect_inv s client :
  hub_inv s -> hb_store (hs_hub s) !! client = None ->
  hub_inv (mkHubSystem (registerClient client (mkHub (hb_Clients (hs_hub s)) (<[client := newClient]> (hb_store (hs_hub s)))))
             (<[client := []]> (hs_delivered s)) (<[client := []]> (hs_expected s))).
Proof.
  intros [Hok Hflow] Hnone. split; cbn.
  - apply hub_ok_change; cbn; [done|unfold sendCapacity; lia| |]; intros; set_solver.
  - intros k c. cbn. destruct (decide (k = client)) as [->|Hne].
    + rewrite !lookup_insert_eq. intros [= <-]. by exists [], [].
    + rewrite !lookup_insert_ne by done. apply Hflow.
Qed.

Lemma write_inv s client c payload rest :
  hub_inv s -> hb_store (hs_hub s) !! client = Some c -> cl_buffer c = payload :: rest ->
  hub_inv (mkHubSystem (mkHub (hb_Clients (hs_hub s)) (<[client := c <| cl_buffer := rest |>]> (hb_store (hs_hub s))))
             (alter (fun l => l ++ [payload]) client (hs_delivered s)) (hs_expected s)).
Proof.
  intros [Hok Hflow] Hs Hb. split.
  - apply hub_ok_change; cbn; [done| |done|rewrite (ho_open _ Hok), Hs; naive_solver].
    pose proof (ho_capacity _ Hok _ _ Hs) as Hc. rewrite Hb in Hc. cbn in Hc. lia.
  - intros k c'. cbn. destruct (decide (k = client)) as [->|Hne].
    + rewrite lookup_insert_eq, lookup_alter_eq. intros [= <-]. destruct (Hflow _ _ Hs) as (d & e & Hd & He & Hpre & Hall).
      exists (d ++ [payload]), e. rewrite Hd. cbn. rewrite Hb in Hpre, Hall. rewrite <- app_assoc. by repeat split.
    + rewrite lookup_insert_ne, lookup_alter_ne by done. apply Hflow.
Qed.

Lemma subscription_flow s update : flow_ok s -> flow_ok (mkHubSystem (applySubscription update (hs_hub s)) (hs_delivered s) (hs_expected s)).
Proof.
  intros Hflow k c' Hc'. cbn in *. destruct (subscription_effect update (hs_hub s) k) as [Heq|(c & subs & Hs & Heq)]; rewrite Heq in Hc'; [by apply Hflow|].
  simplify_eq. exact (Hflow _ _ Hs).
Qed.

Lemma hub_step_inv s r : hub_inv s -> hub_step s r -> exists s', r = Ret s' /\ hub_inv s'.
Proof.
  intros Hinv Hstep. pose proof Hinv as [Hok Hflow]. destruct Hstep as [client s Hn|client s Hc|update s|msg order s Hord|client c payload rest s Hs Hb].
  - eexists. split; [done|]. by apply connect_inv.
  - destruct (unregister_effect _ client Hok) as (h' & -> & Hok' & Hst). eexists. split; [done|]. split; [done|]. by eapply disconnect_flow.
  - eexists. split; [done|]. split; [by apply subscription_ok|by apply subscription_flow].
  - destruct (broadcast_effect msg order _ Hok) as (h' & -> & Hok' & Hst).
    + rewrite Hord. apply NoDup_elements.
    + apply Forall_forall. intros x Hx. rewrite Hord in Hx. by apply elem_of_elements.
    + eexists. split; [done|]. split; [done|]. by eapply broadcast_flow.
  - eexists. split; [done|]. by apply write_inv.
Qed.

Lemma hub_start_inv : hub_inv hub_start.
Proof. split; [split|]; intros client; cbn; [set_solver|done|done]. Qed.

Lemma hub_reachable s : rtc hub_moves hub_start s -> hub_inv s.
Proof.
  intros Hr. remember hub_start as s0 eqn:E. assert (Hi : hub_inv s0) by (subst; apply hub_start_inv). clear E.
  induction Hr as [|a b c Hab Hbc IH]; [done|]. apply IH. destruct (hub_step_inv a _ Hi Hab) as (s' & [= ->] & ?). done.
Qed.

(** The hub never panics, whatever connections, pumps and publishers do and in
    whatever order: it never sends on a closed channel and never closes one twice, although
    both pumps of a connection unregister it and a slow client is dropped while the hub
    visits its clients. *)
Theorem hub_never_panics s r : rtc hub_moves hub_start s -> hub_step s r -> exists s', r = Ret s'.
Proof. intros Hr Hs. destruct (hub_step_inv s r (hub_reachable s Hr) Hs) as (s' & -> & _). by exists s'. Qed.

(** C27 A registered client misses nothing: what its writer has taken and what waits in
    its channel is exactly what was published for it since it registered, in that order.
    A client that was dropped or left has a beginning of it, without a gap.  No channel
    holds more than 256 messages. *)
Theorem registered_clients_miss_nothing s client c :
  rtc hub_moves hub_start s -> hb_store (hs_hub s) !! client = Some c ->
  exists d e, hs_delivered s !! client = Some d /\ hs_expected s !! client = Some e /\
    (client ∈ hb_Clients (hs_hub s) -> d ++ cl_buffer c = e) /\ (d ++ cl_buffer c) `prefix_of` e /\ (length (cl_buffer c) <= 256)%nat.
Proof.
  intros Hr Hs. destruct (hub_reachable s Hr) as [Hok Hflow]. destruct (Hflow client c Hs) as (d & e & Hd & He & Hpre & Hall).
  exists d, e. repeat split; [done|done| |done|by apply (ho_capacity _ Hok client)].
  intros Hin. apply Hall. destruct (proj1 (ho_open _ Hok client) Hin) as (c' & Hs' & Hopen). by simplify_eq.
Qed.

(** ** A connection *)

Module HubExamples.

Definition quote_btc : Message := mkMessage "BTC" "btc-1".
Definition quote_eth : Message := mkMessage "ETH" "eth-1".
Definition connected : hub_system := mkHubSystem (registerClient 7 (mkHub ∅ {[7%N := newClient]})) {[7%N := []]} {[7%N := []]}.
Definition legacy_feed : hub_system :=
  mkHubSystem (mkHub {[7%N]} {[7%N := mkClient ["btc-1"] false ∅ false]}) {[7%N := []]} {[7%N := ["btc-1"]]}.
Definition filtered : hub_system :=
  mkHubSystem (mkHub {[7%N]} {[7%N := mkClient ["btc-1"] false {["BTC"]} true]}) {[7%N := []]} {[7%N := ["btc-1"]]}.
Definition written : hub_system :=
  mkHubSystem (mkHub {[7%N]} {[7%N := mkClient [] false {["BTC"]} true]}) {[7%N := ["btc-1"]]} {[7%N := ["btc-1"]]}.

Lemma moves_by s s' r : hub_step s r -> r = Ret s' -> hub_moves s s'.
Proof. by intros Hs ->. Qed.

(** A client connects, gets a quote of the full feed, subscribes to BTC, its writer
    takes the quote, and a quote of ETH passes it by. *)
Lemma written_reachable : rtc hub_moves hub_start written.
Proof.
  eapply rtc_l; [eapply moves_by; [exact (step_connect 7%N hub_start eq_refl)|]; instantiate (1 := connected); by vm_compute|].
  eapply rtc_l; [eapply moves_by; [apply (step_broadcast quote_btc [7%N] connected), Permutation_refl'; vm_compute; reflexivity|]; instantiate (1 := legacy_feed); by vm_compute|].
  eapply rtc_l; [eapply moves_by; [exact (step_subscribe (mkUpdate (Some 7%N) ["BTC"] false) legacy_feed)|]; instantiate (1 := filtered); by vm_compute|].
  eapply rtc_l; [eapply moves_by; [exact (step_write 7%N (mkClient ["btc-1"] false {["BTC"]} true) "btc-1" [] filtered eq_refl eq_refl)|]; instantiate (1 := written); by vm_compute|].
  eapply rtc_l; [eapply moves_by; [apply (step_broadcast quote_eth [7%N] written), Permutation_refl'; vm_compute; reflexivity|]; instantiate (1 := written); by vm_compute|].
  apply rtc_refl.
Qed.

Lemma hub_never_panics_witness : exists s', (h ← unregisterClient 7%N (hs_hub written); Ret (mkHubSystem h (hs_delivered written) (hs_expected written))) = Ret s'.
Proof. apply (hub_never_panics written); [exact written_reachable|]. apply step_disconnect. eexists. reflexivity. Defined.

Lemma registered_clients_miss_nothing_witness :
  exists d e, hs_delivered written !! 7%N = Some d /\ hs_expected written !! 7%N = Some e /\
    (7%N ∈ hb_Clients (hs_hub written) -> d ++ [] = e) /\ (d ++ []) `prefix_of` e /\ (length (@nil string) <= 256)%nat.
Proof. apply (registered_clients_miss_nothing written 7%N (mkClient [] false {["BTC"]} true)); [exact written_reachable|]. by vm_compute. Defined.

End HubExamples.
