(* ===== verification/Tokens.v ===== *)
(** * Bearer tokens (auth/token.go)

    Tokens are JSON web tokens signed with HMAC-SHA256.  The MAC and the base64 of URLs are
    written out; reading JSON back is a parameter, with what is relied on in
    [TokenJSONLaws].  Times are nanoseconds since the epoch. *)
From S2P Require Import Prelude Errors Sha256 HttpApi.
From Stdlib Require Import Lia Ascii.

Local Open Scope Z_scope.

(** ** crypto/hmac, encoding/base64 *)

Fixpoint string_of_bytes (bs : list Z) : string :=
  match bs with [] => "" | b :: bs => String (ascii_of_N (Z.to_N b)) (string_of_bytes bs) end.

Definition hmac_key (key : list Z) : list Z :=
  let key := if decide (64 < length key)%nat then Sum256 key else key in key ++ repeat 0 (64 - length key).
Definition hmac_sha256 (key message : list Z) : list Z :=
  Sum256 (map (Z.lxor 92) (hmac_key key) ++ Sum256 (map (Z.lxor 54) (hmac_key key) ++ message)).

(** The alphabet of [base64.RawURLEncoding]. *)
Definition base64_char (i : Z) : ascii :=
  ascii_of_N (Z.to_N (if i <? 26 then i + 65 else if i <? 52 then i + 71 else if i <? 62 then i - 4 else if i =? 62 then 45 else 95)).
Definition base64_index (c : ascii) : option Z :=
  let n := Z.of_N (N_of_ascii c) in
  if (65 <=? n) && (n <=? 90) then Some (n - 65) else if (97 <=? n) && (n <=? 122) then Some (n - 71)
  else if (48 <=? n) && (n <=? 57) then Some (n + 4) else if n =? 45 then Some 62 else if n =? 95 then Some 63 else None.

Fixpoint base64_sextets (bs : list Z) : list Z :=
  match bs with
  | [] => []
  | [a] => [a / 4; a mod 4 * 16]
  | [a; b] => [a / 4; a mod 4 * 16 + b / 16; b mod 16 * 4]
  | a :: b :: c :: rest => a / 4 :: a mod 4 * 16 + b / 16 :: b mod 16 * 4 + c / 64 :: c mod 64 :: base64_sextets rest
  end.
(** The bits beyond the last whole byte are not looked at. *)
Fixpoint base64_bytes (l : list Z) : option (list Z) :=
  match l with
  | [] => Some []
  | [_] => None
  | [i; j] => Some [i * 4 + j / 16]
  | [i; j; k] => Some [i * 4 + j / 16; j mod 16 * 16 + k / 4]
  | i :: j :: k :: m :: rest => bs ← base64_bytes rest; Some (i * 4 + j / 16 :: j mod 16 * 16 + k / 4 :: k mod 4 * 64 + m :: bs)
  end.

Definition base64_encode (bs : list Z) : string := String.string_of_list_ascii (map base64_char (base64_sextets bs)).
(** Line ends are skipped. *)
Definition base64_decode (s : string) : option (list Z) :=
  sextets ← mapM base64_index (filter (fun c => c <> "010"%char /\ c <> "013"%char) (String.list_ascii_of_string s)); base64_bytes sextets.

(** ** Tokens *)

Record TokenManager := mkTokenManager { tm_secret : string; tm_ttl : Z }.
Record tokenHeader := mkTokenHeader { th_Algorithm : string; th_Type : string }.
Record Claims := mkClaims { ck_Subject : string; ck_ExpiresAt : Z; ck_IssuedAt : Z }.

Definition ErrMissingToken : error := Errorf "missing bearer token" [].
Definition ErrInvalidToken : error := Errorf "invalid token" [].
Definition ErrExpiredToken : error := Errorf "expired token" [].
Definition ErrInvalidJWTSecret : error := Errorf "jwt secret is required" [].

Definition NewTokenManager (secret : string) (ttl : Z) : result error TokenManager :=
  let secret := TrimSpace secret in
  if decide (secret = "") then Err ErrInvalidJWTSecret
  else Ok (mkTokenManager secret (if ttl <=? 0 then 24 * 3600 * 10 ^ 9 else ttl)).
Definition NewTokenManagerFromEnv (env : gmap string string) : result error TokenManager :=
  NewTokenManager (default "" (env !! "GOEXCHANGE_JWT_SECRET")) (24 * 3600 * 10 ^ 9).

(** [json.Marshal] of the two structs: no byte of these values is escaped. *)
Definition json_quote : string := String (ascii_of_N 34) "".
Definition json_text (s : string) : string := json_quote +:+ s +:+ json_quote.
Definition marshal_header (h : tokenHeader) : string :=
  "{" +:+ json_text "alg" +:+ ":" +:+ json_text (th_Algorithm h) +:+ "," +:+ json_text "typ" +:+ ":" +:+ json_text (th_Type h) +:+ "}".
Definition marshal_claims (c : Claims) : string :=
  "{" +:+ json_text "sub" +:+ ":" +:+ json_text (ck_Subject c) +:+ "," +:+ json_text "exp" +:+ ":" +:+ pretty (ck_ExpiresAt c) +:+ ","
      +:+ json_text "iat" +:+ ":" +:+ pretty (ck_IssuedAt c) +:+ "}".

(** [json.Unmarshal] into the two structs. *)
Class TokenJSON := { unmarshal_header : string -> option tokenHeader; unmarshal_claims : string -> option Claims }.
Definition signed_header : tokenHeader := mkTokenHeader "HS256" "JWT".
Class TokenJSONLaws (J : TokenJSON) : Prop := {
  header_reread : unmarshal_header (marshal_header signed_header) = Some signed_header;
  claims_reread (user : N) (expires issued : Z) : - 2 ^ 63 <= expires < 2 ^ 63 -> - 2 ^ 63 <= issued < 2 ^ 63 ->
    unmarshal_claims (marshal_claims (mkClaims (pretty user) expires issued)) = Some (mkClaims (pretty user) expires issued) }.

Definition encodeJSONSegment (json : string) : string := base64_encode (bytes_of json).
Definition decodeJSONSegment {A} (unmarshal : string -> option A) (segment : string) : option A :=
  raw ← base64_decode segment; unmarshal (string_of_bytes raw).

(** [Time.Unix]: seconds *)
Definition Unix (t : Z) : Z := t / 10 ^ 9.

Definition sign (tm : TokenManager) (signingInput : string) : string :=
  base64_encode (hmac_sha256 (bytes_of (tm_secret tm)) (bytes_of signingInput)).

Section TokenManager.
Context {J : TokenJSON}.

Definition Generate (tm : option TokenManager) (now : Z) (userID : N) : result error string :=
  match tm with
  | None => Err ErrInvalidJWTSecret
  | Some tm =>
      if decide (userID = 0%N) then Err (Errorf "user_id is required" [])
      else
        let claims := mkClaims (pretty userID) (Unix (now + tm_ttl tm)) (Unix now) in
        let signingInput := encodeJSONSegment (marshal_header signed_header) +:+ "." +:+ encodeJSONSegment (marshal_claims claims) in
        Ok (signingInput +:+ "." +:+ sign tm signingInput)
  end.

Definition Parse (tm : option TokenManager) (now : Z) (token : string) : result error N :=
  match tm with
  | None => Err ErrInvalidJWTSecret
  | Some tm =>
      match Split "."%char (TrimSpace token) with
      | [part0; part1; part2] =>
          if decide (sign tm (part0 +:+ "." +:+ part1) <> part2) then Err ErrInvalidToken
          else
            match decodeJSONSegment unmarshal_header part0 with
            | None => Err ErrInvalidToken
            | Some header =>
                if decide (th_Algorithm header <> "HS256" \/ th_Type header <> "JWT") then Err ErrInvalidToken
                else
                  match decodeJSONSegment unmarshal_claims part1 with
                  | None => Err ErrInvalidToken
                  | Some claims =>
                      if ck_ExpiresAt claims <=? Unix now then Err ErrExpiredToken
                      else match parseIDParam (ck_Subject claims) with None => Err ErrInvalidToken | Some userID => Ok userID end
                  end
            end
      | _ => Err ErrInvalidToken
      end
  end.
End TokenManager.

Definition bearer_prefix : string := "Bearer ".
(** [strings.TrimPrefix], with whether the prefix was there *)
Fixpoint CutPrefix (prefix s : string) : option string :=
  match prefix, s with
  | EmptyString, _ => Some s
  | String c prefix', String d s' => if decide (c = d) then CutPrefix prefix' s' else None
  | String _ _, EmptyString => None
  end.

Definition ExtractBearerToken (header : string) : result error string :=
  let header := TrimSpace header in
  if decide (header = "") then Err ErrMissingToken
  else
    match CutPrefix bearer_prefix header with
    | None => Err ErrMissingToken
    | Some rest => let token := TrimSpace rest in if decide (token = "") then Err ErrMissingToken else Ok token
    end.
