(* ===== verification/Accounts.v ===== *)
(** * Accounts of users (service/auth_service.go, repository/user_repository.go, model/user.go)

    Nothing but these functions touches the table of users, so it is a database of its
    own, with a schedule of faults as in [Database].  bcrypt and the grammar of mail
    addresses are parameters; the repository's connection is always given. *)
From S2P Require Import Prelude Errors Database HoldCoordinator HttpApi Tokens.
From Stdlib Require Import Lia Ascii.

Local Open Scope Z_scope.

(** ** The table *)

Record User := mkUser { us_ID : N; us_Name : string; us_Email : string; us_PasswordHash : string; us_CreatedAt : Z }.
#[export] Instance User_settable : Settable User := fun u => mkUser (us_ID u) (us_Name u) (us_Email u) (us_PasswordHash u) (us_CreatedAt u).

(** The rows by id, the sequence of ids, and what happens to the next statements. *)
Record UserDB := mkUserDB { ud_users : list User; ud_seq : N; ud_faults : list fault }.

Definition U (A : Type) : Type := UserDB -> result error A * UserDB.
#[export] Instance U_ret : MRet U := fun A a db => (Ok a, db).
#[export] Instance U_bind : MBind U := fun A B k m db => match m db with (Ok a, db) => k a db | (Err e, db) => (Err e, db) end.
Definition fail_with {A} (e : error) : U A := fun db => (Err e, db).

Definition user_stmt : U unit := fun db =>
  match ud_faults db with
  | [] => (Ok tt, db)
  | Fine :: fs => (Ok tt, mkUserDB (ud_users db) (ud_seq db) fs)
  | Fails code :: fs => (Err (DBError code), mkUserDB (ud_users db) (ud_seq db) fs)
  | Lost :: fs => (Err (DBError ""), mkUserDB (ud_users db) (ud_seq db) fs)
  end.
Definition user_query {A} (f : list User -> A) : U A := fun db =>
  match user_stmt db with (Ok _, db) => (Ok (f (ud_users db)), db) | (Err e, db) => (Err e, db) end.

(** The transaction around an insert. *)
Definition user_transaction {A} (body : U A) : U A := fun db =>
  match user_stmt db with
  | (Err e, db1) => (Err e, db1)
  | (Ok _, db1) =>
      match body db1 with
      | (Err e, db2) => (Err e, mkUserDB (ud_users db) (ud_seq db2) (ud_faults db2))
      | (Ok a, db2) =>
          match ud_faults db2 with
          | [] => (Ok a, db2)
          | Fine :: fs => (Ok a, mkUserDB (ud_users db2) (ud_seq db2) fs)
          | Fails code :: fs => (Err (DBError code), mkUserDB (ud_users db) (ud_seq db2) fs)
          | Lost :: fs => (Err (DBError ""), mkUserDB (ud_users db2) (ud_seq db2) fs)
          end
      end
  end.

(** The unique index on the lower-case address of rows that have one. *)
Definition email_taken (email : string) (users : list User) : bool :=
  negb (bool_decide (TrimSpace email = "")) && existsb (fun u => bool_decide (ToLower (us_Email u) = ToLower email)) users.

(** [Create] fills in the id and, with [now], the time of creation. *)
Definition insert_user (now : Z) (user : User) : U User := fun db =>
  let id := (ud_seq db + 1)%N in
  let row := mkUser id (us_Name user) (us_Email user) (us_PasswordHash user) now in
  if email_taken (us_Email user) (ud_users db) then (Err (ConstraintViolation "idx_users_email_non_empty"), mkUserDB (ud_users db) id (ud_faults db))
  else (Ok row, mkUserDB (ud_users db ++ [row]) id (ud_faults db)).
Definition Create (now : Z) (user : User) : U User := user_transaction (_ ← user_stmt; insert_user now user).

Definition FindByEmail (email : string) : U User :=
  found ← user_query (find (fun u => bool_decide (ToLower (us_Email u) = ToLower (TrimSpace email))));
  match found with Some u => mret u | None => fail_with ErrRecordNotFound end.

(** [UserRepository.FindByID] *)
Definition FindUserByID (id : N) : U User :=
  if decide (id = 0%N) then fail_with (Errorf "user id is required" [])
  else found ← user_query (find (fun u => bool_decide (us_ID u = id))); match found with Some u => mret u | None => fail_with ErrRecordNotFound end.

(** ** The service *)

(** [golang.org/x/crypto/bcrypt], with the randomness of the salt as an argument, and
    [net/mail.ParseAddress]. *)
Class Passwords := {
  GenerateFromPassword : N -> string -> result error string;
  CompareHashAndPassword : string -> string -> bool;
  ParseAddress : string -> bool }.
Class PasswordLaws (P : Passwords) : Prop := {
  generated_matches salt password hash : GenerateFromPassword salt password = Ok hash -> CompareHashAndPassword hash password = true }.

Definition minPasswordLength : nat := 8.
Definition maxNameLength : nat := 80.
Definition maxEmailLength : nat := 255.

Record AuthService := mkAuthService { sv_UserRepository : bool; sv_TokenManager : option TokenManager }.
Record RegisterInput := mkRegisterInput { ri_Name : string; ri_Email : string; ri_Password : string }.
Record LoginInput := mkLoginInput { li_Email : string; li_Password : string }.
Record AuthResult := mkAuthResult { ar_Token : string; ar_User : User }.

Section AuthService.
Context {J : TokenJSON} {P : Passwords}.

Definition normalizeEmail (email : string) : result error string :=
  let email := ToLower (TrimSpace email) in
  if decide (email = "") then Err (NewValidationErrorf "email is required" [])
  else if (maxEmailLength <? String.length email)%nat then Err (NewValidationErrorf "email must be at most %d characters" [pretty maxEmailLength])
  else if negb (ParseAddress email) then Err (NewValidationErrorf "email is invalid" [])
  else Ok email.

Definition validateRegisterInput (input : RegisterInput) : result error (string * string) :=
  let name := TrimSpace (ri_Name input) in
  if decide (name = "") then Err (NewValidationErrorf "name is required" [])
  else if (maxNameLength <? String.length name)%nat then Err (NewValidationErrorf "name must be at most %d characters" [pretty maxNameLength])
  else
    match normalizeEmail (ri_Email input) with
    | Err e => Err e
    | Ok email =>
        if (String.length (ri_Password input) <? minPasswordLength)%nat then Err (NewValidationErrorf "password must be at least %d characters" [pretty minPasswordLength])
        else Ok (name, email)
    end.

Definition publicUser (user : User) : User := user <| us_PasswordHash := "" |>.

(** [salt], [now]: the salt of the hash, the clock (one reading, for the row and the token). *)
Definition Register (s : option AuthService) (salt : N) (now : Z) (input : RegisterInput) : U AuthResult := fun db =>
  match s with
  | None | Some (mkAuthService false _) => (Err (Errorf "user repository is required" []), db)
  | Some (mkAuthService true None) => (Err (Errorf "token manager is required" []), db)
  | Some (mkAuthService true (Some tm)) =>
      match validateRegisterInput input with
      | Err e => (Err e, db)
      | Ok (name, email) =>
          match FindByEmail email db with
          | (found, db) =>
              let refused :=
                match found with
                | Ok existing => if decide (us_ID existing <> 0%N) then Some (NewConflictErrorf "email is already registered" []) else None
                | Err e => if IsRecordNotFound e then None else Some e
                end in
              match refused with
              | Some e => (Err e, db)
              | None =>
                  match GenerateFromPassword salt (ri_Password input) with
                  | Err e => (Err e, db)
                  | Ok hash =>
                      match Create now (mkUser 0 name email hash 0) db with
                      | (Err e, db) => (Err e, db)
                      | (Ok user, db) =>
                          match Generate (Some tm) now (us_ID user) with
                          | Err e => (Err e, db)
                          | Ok token => (Ok (mkAuthResult token (publicUser user)), db)
                          end
                      end
                  end
              end
          end
      end
  end.

Definition Login (s : option AuthService) (now : Z) (input : LoginInput) : U AuthResult := fun db =>
  match s with
  | None | Some (mkAuthService false _) => (Err (Errorf "user repository is required" []), db)
  | Some (mkAuthService true None) => (Err (Errorf "token manager is required" []), db)
  | Some (mkAuthService true (Some tm)) =>
      match normalizeEmail (li_Email input) with
      | Err e => (Err e, db)
      | Ok email =>
          match FindByEmail email db with
          | (Err e, db) =>
              if decide (settlementErrorSQLState e ∈ ["55P03"; pgCodeQueryCanceled]) then (Err (NewUnavailableErrorf "login is temporarily unavailable, please retry" []), db)
              else (Err (Errorf "invalid email or password" []), db)
          | (Ok user, db) =>
              if negb (CompareHashAndPassword (us_PasswordHash user) (li_Password input)) then (Err (Errorf "invalid email or password" []), db)
              else match Generate (Some tm) now (us_ID user) with Err e => (Err e, db) | Ok token => (Ok (mkAuthResult token (publicUser user)), db) end
          end
      end
  end.
End AuthService.
