(* ===== verification/TokenProofs.v ===== *)
(** * Tokens: what is accepted *)
From S2P Require Import Prelude Errors Sha256 HttpApi HttpProofs Tokens.
From Stdlib Require Import Lia Ascii.

Local Open Scope Z_scope.

(** ** Bytes and base64 *)

Definition byte (b : Z) : Prop := 0 <= b < 256.

Lemma string_of_bytes_of s : string_of_bytes (bytes_of s) = s.
Proof. induction s as [|c s IH]; [done|]. cbn. by rewrite N2Z.id, ascii_N_embedding, IH. Qed.

Lemma bytes_of_range s : Forall byte (bytes_of s).
Proof. induction s as [|c s IH]; constructor; [|done]. pose proof (N_ascii_bounded c). unfold byte. lia. Qed.

Lemma Sum256_range bs : Forall byte (Sum256 bs).
Proof.
  unfold Sum256. apply Forall_concat, Forall_map, Forall_forall. intros x _. cbn beta. unfold be_bytes. apply Forall_map, Forall_forall. intros i _. cbn beta. unfold byte.
  replace 255 with (Z.ones 8) by done. rewrite Z.land_ones by lia. apply Z.mod_pos_bound. lia.
Qed.

Lemma base64_chars : Forall (fun i => base64_index (base64_char i) = Some i /\ base64_char i <> "."%char /\ is_space (base64_char i) = false
  /\ base64_char i <> "010"%char /\ base64_char i <> "013"%char) (seqZ 0 64).
Proof. apply (bool_decide_unpack _). vm_compute. exact I. Qed.

Lemma base64_char_ok i : 0 <= i < 64 -> base64_index (base64_char i) = Some i /\ base64_char i <> "."%char /\ is_space (base64_char i) = false
  /\ base64_char i <> "010"%char /\ base64_char i <> "013"%char.
Proof. intros Hi. pose proof base64_chars as H. rewrite Forall_forall in H. apply H, elem_of_seqZ. lia. Qed.

(** Lists of bytes in groups of three. *)
Lemma triples_ind (P : list Z -> Prop) :
  P [] -> (forall a, P [a]) -> (forall a b, P [a; b]) -> (forall a b c l, P l -> P (a :: b :: c :: l)) -> forall l, P l.
Proof. intros H0 H1 H2 H3. fix IH 1. intros [|a [|b [|c l]]]; [exact H0|apply H1|apply H2|apply H3, IH]. Qed.

Ltac euclid := Z.to_euclidean_division_equations; lia.

Lemma sextets_range bs : Forall byte bs -> Forall (fun i => 0 <= i < 64) (base64_sextets bs).
Proof.
  unfold byte. induction bs as [|a|a b|a b c l IH] using triples_ind; cbn [base64_sextets]; rewrite ?Forall_cons; intros H; destruct_and?; repeat split; try done; try euclid. by apply IH.
Qed.

Lemma sextets_bytes bs : Forall byte bs -> base64_bytes (base64_sextets bs) = Some bs.
Proof.
  unfold byte. induction bs as [|a|a b|a b c l IH] using triples_ind; cbn [base64_sextets base64_bytes]; rewrite ?Forall_cons; intros H; destruct_and?; [done| | |].
  - do 2 f_equal. euclid.
  - do 2 f_equal; [euclid|]. f_equal. euclid.
  - rewrite IH by done. cbn. do 2 f_equal; [euclid|]. f_equal; [euclid|]. f_equal. euclid.
Qed.

Lemma base64_roundtrip bs : Forall byte bs -> base64_decode (base64_encode bs) = Some bs.
Proof.
  intros Hb. unfold base64_decode, base64_encode. rewrite String.list_ascii_of_string_of_list_ascii.
  pose proof (sextets_range bs Hb) as Hr. pose proof (sextets_bytes bs Hb) as Hd. set (l := base64_sextets bs) in *. clearbody l.
  assert (Hf : filter (fun c => c <> "010"%char /\ c <> "013"%char) (map base64_char l) = map base64_char l).
  { clear -Hr. induction Hr as [|i l Hi _ IH]; [done|]. apply base64_char_ok in Hi. cbn [map]. rewrite filter_cons_True by naive_solver. by rewrite IH. }
  rewrite Hf. assert (Hm : mapM base64_index (map base64_char l) = Some l).
  { apply mapM_Some, Forall2_fmap_l. clear -Hr. induction Hr as [|i l Hi _ IH]; constructor; [by apply base64_char_ok|done]. }
  by rewrite Hm.
Qed.

(** ** Parts of a token *)

Definition lacks (sep : ascii) (s : string) : Prop := Forall (fun c => c <> sep) (String.list_ascii_of_string s).

Lemma Split_app sep a rest : lacks sep a -> Split sep (a +:+ String sep rest) = a :: Split sep rest.
Proof.
  induction a as [|c a IH]; intros Ha; [change ("" +:+ String sep rest) with (String sep rest); cbn [Split]; by rewrite decide_True|]. apply Forall_cons in Ha as [Hc Ha].
  change (String c a +:+ String sep rest) with (String c (a +:+ String sep rest)). cbn [Split]. by rewrite decide_False, IH.
Qed.

Lemma Split_alone sep a : lacks sep a -> Split sep a = [a].
Proof. induction a as [|c a IH]; intros Ha; [done|]. apply Forall_cons in Ha as [Hc Ha]. cbn [Split]. by rewrite decide_False, IH. Qed.

Lemma Split_inv sep s : forall a l, Split sep s = a :: l ->
  lacks sep a /\ ((l = [] /\ s = a) \/ exists rest, s = a +:+ String sep rest /\ Split sep rest = l).
Proof.
  induction s as [|c s IH]; intros a l Hs; cbn [Split] in Hs.
  - simplify_eq. split; [constructor|]. by left.
  - destruct (decide (c = sep)) as [->|Hne].
    + simplify_eq. split; [constructor|]. right. by eexists.
    + destruct (Split sep s) as [|part rest] eqn:E; simplify_eq.
      * by destruct s as [|d s]; cbn in E; [|destruct (decide _); [|destruct (Split sep s)]].
      * destruct (IH _ _ eq_refl) as [Hl H]. split; [by constructor|]. destruct H as [[-> ->]|(r & -> & Hr)]; [by left|]. right. by exists r.
Qed.

Lemma Split_three sep s a b c : Split sep s = [a; b; c] <-> s = a +:+ String sep (b +:+ String sep c) /\ lacks sep a /\ lacks sep b /\ lacks sep c.
Proof.
  split.
  - intros H. apply Split_inv in H as [Ha [[? _]|(r & -> & H)]]; [done|]. apply Split_inv in H as [Hb [[? _]|(r' & -> & H)]]; [done|].
    apply Split_inv in H as [Hc [[_ ->]|(r'' & _ & H)]]; [done|]. destruct r''; cbn in H; [done|]. destruct (decide _); [done|]. by destruct (Split sep r'').
  - intros (-> & Ha & Hb & Hc). by rewrite !Split_app, Split_alone.
Qed.

Lemma encoded_lacks bs : Forall byte bs -> lacks "."%char (base64_encode bs).
Proof.
  intros Hb. unfold lacks, base64_encode. rewrite String.list_ascii_of_string_of_list_ascii. apply Forall_map.
  eapply Forall_impl; [exact (sextets_range bs Hb)|]. intros i Hi. cbn. by apply base64_char_ok in Hi as (_ & ? & _).
Qed.

(** *** Without white space *)

Definition solid (s : string) : Prop := Forall (fun c => is_space c = false) (String.list_ascii_of_string s).

Lemma ascii_app a b : String.list_ascii_of_string (a +:+ b) = String.list_ascii_of_string a ++ String.list_ascii_of_string b.
Proof. induction a as [|c a IH]; [done|]. change (String c a +:+ b) with (String c (a +:+ b)). cbn. by rewrite IH. Qed.

Lemma solid_app a b : solid a -> solid b -> solid (a +:+ b).
Proof. unfold solid. rewrite ascii_app, Forall_app. done. Qed.

Lemma solid_trim s : solid s -> TrimSpace s = s.
Proof.
  intros Hs. assert (Hr : trim_right s = s).
  { induction s as [|c s IH]; [done|]. apply Forall_cons in Hs as [Hc Hs]. rewrite trim_right_cons, IH by done. destruct s; [by rewrite Hc|done]. }
  unfold TrimSpace. destruct s as [|c s]; [done|]. apply Forall_cons in Hs as [Hc _]. by rewrite trim_left_fixed.
Qed.

Lemma encoded_solid bs : Forall byte bs -> solid (base64_encode bs).
Proof.
  intros Hb. unfold solid, base64_encode. rewrite String.list_ascii_of_string_of_list_ascii. apply Forall_map.
  eapply Forall_impl; [exact (sextets_range bs Hb)|]. intros i Hi. cbn. by apply base64_char_ok in Hi as (_ & _ & ? & _).
Qed.

Lemma segment_roundtrip {A} (unmarshal : string -> option A) json : decodeJSONSegment unmarshal (encodeJSONSegment json) = unmarshal json.
Proof. unfold decodeJSONSegment, encodeJSONSegment. rewrite base64_roundtrip by apply bytes_of_range. cbn. by rewrite string_of_bytes_of. Qed.

Lemma string_app_assoc (a b c : string) : (a +:+ b) +:+ c = a +:+ (b +:+ c).
Proof. induction a as [|x a IH]; [done|]. change (String x ((a +:+ b) +:+ c) = String x (a +:+ (b +:+ c))). by rewrite IH. Qed.

(** ** Accepting *)

Section Accepting.
Context {J : TokenJSON}.

(** A token that [Parse] accepts for a user. *)
Record accepted (tm : TokenManager) (now : Z) (token : string) (user : N) (header claims : string) (h : tokenHeader) (c : Claims) : Prop := mkAccepted {
  ac_parts : TrimSpace token = header +:+ "." +:+ claims +:+ "." +:+ sign tm (header +:+ "." +:+ claims);
  ac_header : lacks "."%char header; ac_claims : lacks "."%char claims;
  ac_algorithm : decodeJSONSegment unmarshal_header header = Some h /\ th_Algorithm h = "HS256" /\ th_Type h = "JWT";
  ac_subject : decodeJSONSegment unmarshal_claims claims = Some c /\ parseIDParam (ck_Subject c) = Some user;
  ac_expiry : Unix now < ck_ExpiresAt c }.

Lemma sign_bytes tm s : Forall byte (hmac_sha256 (bytes_of (tm_secret tm)) (bytes_of s)).
Proof. apply Sum256_range. Qed.

Lemma sign_lacks tm s : lacks "."%char (sign tm s).
Proof. apply encoded_lacks, sign_bytes. Qed.

(** Checking three parts. *)
Lemma parse_parts tm now token header claims signature :
  Split "."%char (TrimSpace token) = [header; claims; signature] ->
  Parse (Some tm) now token =
    if decide (sign tm (header +:+ "." +:+ claims) <> signature) then Err ErrInvalidToken
    else match decodeJSONSegment unmarshal_header header with
    | None => Err ErrInvalidToken
    | Some h =>
        if decide (th_Algorithm h <> "HS256" \/ th_Type h <> "JWT") then Err ErrInvalidToken
        else match decodeJSONSegment unmarshal_claims claims with
        | None => Err ErrInvalidToken
        | Some c => if ck_ExpiresAt c <=? Unix now then Err ErrExpiredToken
                    else match parseIDParam (ck_Subject c) with None => Err ErrInvalidToken | Some user => Ok user end
        end
    end.
Proof. intros E. unfold Parse. by rewrite E. Qed.

Lemma accepted_parse tm now token user header claims h c : accepted tm now token user header claims h c -> Parse (Some tm) now token = Ok user.
Proof.
  intros [Hp Hh Hc (Ea & Halg & Htyp) (Ec & Hs) Hexp]. rewrite (parse_parts _ _ _ header claims (sign tm (header +:+ "." +:+ claims))).
  - rewrite decide_False by naive_solver. rewrite Ea, decide_False by naive_solver. rewrite Ec, Hs. by rewrite (proj2 (Z.leb_gt _ _)).
  - apply Split_three. split; [exact Hp|]. repeat split; [done|done|apply sign_lacks].
Qed.

(** A token is accepted for a user exactly when it has three parts, the third is the
    MAC of the first two under the secret of the server, the header names HS256 and JWT
    and nothing else, its claims have not expired, and their subject is the decimal of
    the user's id; no other text is accepted for anybody. *)
Theorem token_accepted_iff tm now token user :
  Parse (Some tm) now token = Ok user <-> exists header claims h c, accepted tm now token user header claims h c.
Proof.
  split; [|by intros (? & ? & ? & ? & H); eapply accepted_parse].
  intros H. destruct (Split "."%char (TrimSpace token)) as [|header [|claims [|signature [|]]]] eqn:E; try by (unfold Parse in H; rewrite E in H).
  rewrite (parse_parts _ _ _ _ _ _ E) in H. apply Split_three in E as (Hp & Hh & Hc & _).
  destruct (decide (sign tm (header +:+ "." +:+ claims) <> signature)) as [|Hsig]; [done|]. apply dec_stable in Hsig. subst signature.
  destruct (decodeJSONSegment unmarshal_header header) as [h|] eqn:Ea; [|done]. destruct (decide _) as [|Hno]; [done|].
  destruct (decodeJSONSegment unmarshal_claims claims) as [c|] eqn:Ec; [|done]. destruct (Z.leb_spec (ck_ExpiresAt c) (Unix now)); [done|].
  destruct (parseIDParam (ck_Subject c)) as [u|] eqn:Es; simplify_eq. exists header, claims, h, c.
  apply Decidable.not_or in Hno as [Halg%dec_stable Htyp%dec_stable]. by constructor.
Qed.

Context {JL : TokenJSONLaws J}.

Definition token_of (tm : TokenManager) (now : Z) (user : N) : string :=
  let input := encodeJSONSegment (marshal_header signed_header) +:+ "." +:+ encodeJSONSegment (marshal_claims (mkClaims (pretty user) (Unix (now + tm_ttl tm)) (Unix now))) in
  input +:+ "." +:+ sign tm input.

Lemma generate_token tm now user : user <> 0%N -> Generate (Some tm) now user = Ok (token_of tm now user).
Proof. intros Hu. unfold Generate. by rewrite decide_False. Qed.

Lemma token_solid tm now user : solid (token_of tm now user).
Proof. unfold token_of. repeat apply solid_app; try (apply encoded_solid; first [apply bytes_of_range|apply sign_bytes]); by repeat constructor. Qed.

Lemma parse_generated tm now now' user :
  (0 < user < 2 ^ 64)%N -> - 2 ^ 63 <= Unix now < 2 ^ 63 -> - 2 ^ 63 <= Unix (now + tm_ttl tm) < 2 ^ 63 ->
  Parse (Some tm) now' (token_of tm now user) = if Unix (now + tm_ttl tm) <=? Unix now' then Err ErrExpiredToken else Ok user.
Proof.
  intros Hu Hi He. erewrite parse_parts; [|rewrite solid_trim by apply token_solid; apply Split_three; split; [unfold token_of; rewrite string_app_assoc; reflexivity|]].
  - rewrite decide_False by naive_solver. rewrite !segment_roundtrip, header_reread. rewrite decide_False by (cbn; naive_solver).
    rewrite claims_reread by done. cbn [ck_ExpiresAt ck_Subject]. destruct (_ <=? _); [done|]. by rewrite id_param_roundtrip.
  - repeat split; [apply encoded_lacks, bytes_of_range..|apply sign_lacks].
Qed.

Lemma cut_own_prefix prefix s : CutPrefix prefix (prefix +:+ s) = Some s.
Proof. induction prefix as [|c prefix IH]; [done|]. change (String c prefix +:+ s) with (String c (prefix +:+ s)). cbn [CutPrefix]. by rewrite decide_True. Qed.

Lemma trim_bearer s : solid s -> s <> "" -> TrimSpace (bearer_prefix +:+ s) = bearer_prefix +:+ s.
Proof.
  intros Hs Hne. unfold TrimSpace. change (trim_left (bearer_prefix +:+ s)) with (bearer_prefix +:+ s).
  assert (Hr : trim_right s = s) by (apply solid_trim in Hs as Ht; unfold TrimSpace in Ht; destruct s as [|c s]; [done|]; apply Forall_cons in Hs as [Hc _]; by rewrite trim_left_fixed in Ht).
  assert (Hg : forall p, trim_right (p +:+ s) = p +:+ s); [|apply Hg].
  intros p. induction p as [|c p IH]; [exact Hr|]. change (String c p +:+ s) with (String c (p +:+ s)). rewrite trim_right_cons, IH.
  destruct (p +:+ s) eqn:E; [|done]. destruct p; [|done]. by cbn in E.
Qed.

Lemma extract_bearer token : solid token -> token <> "" -> ExtractBearerToken (bearer_prefix +:+ token) = Ok token.
Proof.
  intros Hs Hne. unfold ExtractBearerToken. rewrite trim_bearer by done. rewrite decide_False by done.
  rewrite cut_own_prefix, solid_trim by done. by rewrite decide_False.
Qed.

Lemma token_nonempty tm now user : token_of tm now user <> "".
Proof. unfold token_of. rewrite string_app_assoc. destruct (encodeJSONSegment (marshal_header signed_header)) eqn:E; [by vm_compute in E|done]. Qed.

(** C31 Tokens round trip: the token made for a user, sent as a bearer token, is read
    back as this user until the life time of the token is over, to the second, and is
    refused as expired from then on. *)
Theorem token_roundtrip tm now now' user :
  (0 < user < 2 ^ 64)%N -> - 2 ^ 63 <= Unix now < 2 ^ 63 -> - 2 ^ 63 <= Unix (now + tm_ttl tm) < 2 ^ 63 ->
  exists token, Generate (Some tm) now user = Ok token /\ ExtractBearerToken ("Bearer " +:+ token) = Ok token /\
    Parse (Some tm) now' token = if Unix (now + tm_ttl tm) <=? Unix now' then Err ErrExpiredToken else Ok user.
Proof.
  intros Hu Hi He. exists (token_of tm now user). split; [apply generate_token; lia|]. split; [|by apply parse_generated].
  apply extract_bearer; [apply token_solid|apply token_nonempty].
Qed.
End Accepting.

(** ** Printed numbers *)

Definition is_digit (c : ascii) : Prop := is_Some (digit c).

Lemma pretty_go_digits n : forall s, Forall is_digit (String.list_ascii_of_string s) -> Forall is_digit (String.list_ascii_of_string (pretty_N_go n s)).
Proof.
  induction (N.lt_wf_0 n) as [n _ IH]; intros s Hs. destruct (decide (n = 0%N)) as [->|Hn]; [by rewrite pretty_N_go_0|].
  rewrite pretty_N_go_step by lia. apply IH; [apply N.div_lt; lia|]. constructor; [|done]. rewrite <- (N.mod_small (n `mod` 10) 10) by (apply N.mod_upper_bound; lia).
  unfold is_digit. rewrite digit_pretty; [done|]. apply N.mod_upper_bound. lia.
Qed.

Lemma pretty_digits (n : N) : Forall is_digit (String.list_ascii_of_string (pretty n)).
Proof. unfold pretty, pretty_N. destruct (decide (n = 0%N)); [|apply pretty_go_digits; constructor]. constructor; [by eexists|constructor]. Qed.

Lemma pretty_read (n : N) : parse_digits 0 (pretty n) = Some n.
Proof. unfold pretty, pretty_N. destruct (decide (n = 0%N)) as [->|]; [done|]. by rewrite parse_pretty_go. Qed.

Lemma pretty_pos (p : positive) : pretty (Zpos p) = pretty (Npos p) /\ pretty (Zneg p) = String "-" (pretty (Npos p)).
Proof. done. Qed.

(** [strconv.Atoi] reads what [strconv.Itoa] prints. *)
Lemma Atoi_pretty (z : Z) : - 2 ^ 63 <= z < 2 ^ 63 -> Atoi (pretty z) = Some z.
Proof.
  intros Hz. assert (Hn : forall n : N, exists c s, pretty n = String c s /\ c <> "-"%char /\ c <> "+"%char).
  { intros n. pose proof (pretty_digits n) as Hd. destruct (pretty n) as [|c s] eqn:E; [by apply pretty_nonempty in E|]. exists c, s.
    apply Forall_cons in Hd as [[x Hc] _]. split; [done|]. by split; intros ->. }
  assert (Hpos : forall n : N, Z.of_N n = z -> Atoi (pretty n) = Some z).
  { intros n Hnz. destruct (Hn n) as (c & s & E & Hm & Hp). pose proof (pretty_read n) as Hr. rewrite E in *. unfold Atoi.
    assert (Hsplit : (match String c s with String "-" s' => (true, s') | String "+" s' => (false, s') | _ => (false, String c s) end) = (false, String c s)).
    { destruct c as [[] [] [] [] [] [] [] []]; done. }
    rewrite Hsplit. rewrite decide_False by done. rewrite Hr. cbn [mbind option_bind]. rewrite Hnz. by rewrite decide_True. }
  destruct z as [|p|p]; [by apply (Hpos 0%N)|rewrite (proj1 (pretty_pos p)); by apply Hpos|]. rewrite (proj2 (pretty_pos p)). unfold Atoi.
  rewrite decide_False by apply pretty_nonempty. rewrite pretty_read. cbn [mbind option_bind]. by rewrite decide_True.
Qed.

Lemma digits_lack sep s : digit sep = None -> Forall is_digit (String.list_ascii_of_string s) -> lacks sep s.
Proof. intros Hsep Hs. eapply Forall_impl; [exact Hs|]. intros c [x Hc] ->. congruence. Qed.

Lemma pretty_Z_lacks sep (z : Z) : digit sep = None -> sep <> "-"%char -> lacks sep (pretty z).
Proof.
  intros Hsep Hm. destruct z as [|p|p].
  - apply digits_lack; [done|]. exact (pretty_digits 0).
  - rewrite (proj1 (pretty_pos p)). apply digits_lack; [done|apply pretty_digits].
  - rewrite (proj2 (pretty_pos p)). constructor; [done|]. apply (digits_lack sep); [done|apply pretty_digits].
Qed.

(** ** A token *)

Module TokenExamples.

Definition quote_char : ascii := ascii_of_N 34.

(** A reader of exactly the texts that are written. *)
Definition read_number (stop : ascii) (s : string) : option Z :=
  match s with String ":" s' => match Split stop s' with [number; ""] => Atoi number | _ => None end | _ => None end.
#[export] Instance plain_json : TokenJSON := {|
  unmarshal_header s := if decide (s = marshal_header signed_header) then Some signed_header else None;
  unmarshal_claims s :=
    match Split quote_char s with
    | ["{"; "sub"; ":"; subject; ","; "exp"; expires; "iat"; issued] =>
        e ← read_number ","%char expires; i ← read_number "}"%char issued; Some (mkClaims subject e i)
    | _ => None
    end |}.

Lemma read_printed stop (z : Z) : digit stop = None -> stop <> "-"%char -> - 2 ^ 63 <= z < 2 ^ 63 -> read_number stop (":" +:+ pretty z +:+ String stop "") = Some z.
Proof. intros Hs Hm Hz. change (read_number stop (":" +:+ pretty z +:+ String stop "")) with (match Split stop (pretty z +:+ String stop "") with [number; ""] => Atoi number | _ => None end).
  rewrite Split_app by by apply pretty_Z_lacks. cbn [Split]. by apply Atoi_pretty. Qed.

Lemma claims_parts (user : N) (e i : Z) : Split quote_char (marshal_claims (mkClaims (pretty user) e i)) =
  ["{"; "sub"; ":"; pretty user; ","; "exp"; ":" +:+ pretty e +:+ ","; "iat"; ":" +:+ pretty i +:+ "}"].
Proof.
  unfold marshal_claims, json_text, json_quote. cbn [ck_Subject ck_ExpiresAt ck_IssuedAt].
  set (q := quote_char). change (String (ascii_of_N 34) "") with (String q "").
  assert (Hq : forall a b, lacks q a -> Split q (a +:+ String q "" +:+ b) = a :: Split q b) by (intros a b Ha; exact (Split_app q a b Ha)).
  assert (Hu : lacks q (pretty user)) by (apply digits_lack; [done|apply pretty_digits]).
  assert (Hz : forall (z : Z) p t, lacks q p -> lacks q t -> lacks q (p +:+ pretty z +:+ t)).
  { intros z p t Hp Ht. unfold lacks. rewrite !ascii_app, !Forall_app. repeat split; [done|by apply pretty_Z_lacks|done]. }
  assert (Hl : forall s, bool_decide (lacks q s) = true -> lacks q s) by (intros s H; by apply bool_decide_eq_true in H).
  repeat rewrite string_app_assoc.
  rewrite (Hq "{") by by apply Hl. rewrite (Hq "sub") by by apply Hl. rewrite (Hq ":") by by apply Hl. rewrite (Hq (pretty user)) by done.
  rewrite (Hq ",") by by apply Hl. rewrite (Hq "exp") by by apply Hl.
  replace (":" +:+ (pretty e +:+ ("," +:+ (String q "" +:+ ("iat" +:+ (String q "" +:+ (":" +:+ (pretty i +:+ "}"))))))))
    with ((":" +:+ (pretty e +:+ ",")) +:+ (String q "" +:+ ("iat" +:+ (String q "" +:+ (":" +:+ (pretty i +:+ "}")))))) by by rewrite !string_app_assoc.
  rewrite Hq by (apply Hz; by apply Hl). rewrite (Hq "iat") by by apply Hl. rewrite Split_alone by (apply Hz; by apply Hl). done.
Qed.

#[export] Instance plain_json_laws : TokenJSONLaws plain_json.
Proof.
  split; [cbn; by rewrite decide_True|]. intros user e i He Hi. cbn [unmarshal_claims plain_json]. rewrite claims_parts. cbv iota.
  rewrite (read_printed ","%char e) by done. cbn [mbind option_bind]. by rewrite (read_printed "}"%char i).
Qed.

Definition manager : TokenManager := mkTokenManager "secret" (24 * 3600 * 10 ^ 9).
Definition issued : Z := 1700000000 * 10 ^ 9.

Lemma token_roundtrip_witness : exists token, Generate (Some manager) issued 7 = Ok token /\ ExtractBearerToken ("Bearer " +:+ token) = Ok token /\
    Parse (Some manager) (issued + 5) token = if Unix (issued + tm_ttl manager) <=? Unix (issued + 5) then Err ErrExpiredToken else Ok 7%N.
Proof. apply (token_roundtrip manager issued (issued + 5) 7); [lia|by vm_compute|by vm_compute]. Defined.

(** RFC 4231, test case 2. *)
Example hmac_jefe : EncodeToString (hmac_sha256 (bytes_of "Jefe") (bytes_of "what do ya want for nothing?")) = "5bdcc146bf60754e6a042426089575c75a003f089d2739839dec58b964ec3843".
Proof. vm_compute. reflexivity. Qed.
Example base64_words : map (fun s => base64_encode (bytes_of s)) ["Man"; "Ma"; "M"; "light?>"] = ["TWFu"; "TWE"; "TQ"; "bGlnaHQ_Pg"].
Proof. vm_compute. reflexivity. Qed.
Example refused_tokens : map (Parse (Some manager) issued) [""; "a.b"; "a.b.c"; "a.b.c.d"] = replicate 4 (Err ErrInvalidToken).
Proof. vm_compute. reflexivity. Qed.
End TokenExamples.
