(* ===== verification/AccountsProofs.v ===== *)
(** * Accounts: one per address, and what logging in gives *)
From S2P Require Import Prelude Errors Database HoldCoordinator HttpApi Sha256 HttpProofs Tokens Accounts TokenProofs.
From Stdlib Require Import Lia Ascii.

Local Open Scope Z_scope.

(** ** Addresses *)

Lemma lower_char_idem c : lower_char (lower_char c) = lower_char c.
Proof. by destruct c as [[] [] [] [] [] [] [] []]. Qed.
Lemma lower_char_space c : is_space (lower_char c) = is_space c.
Proof. by destruct c as [[] [] [] [] [] [] [] []]. Qed.
Lemma ToLower_idem s : ToLower (ToLower s) = ToLower s.
Proof. induction s as [|c s IH]; [done|]. cbn. by rewrite lower_char_idem, IH. Qed.
Lemma trim_left_ToLower s : trim_left (ToLower s) = ToLower (trim_left s).
Proof. induction s as [|c s IH]; [done|]. cbn. rewrite lower_char_space. by destruct (is_space c). Qed.
Lemma trim_right_ToLower s : trim_right (ToLower s) = ToLower (trim_right s).
Proof. induction s as [|c s IH]; [done|]. cbn. rewrite IH, lower_char_space. destruct (trim_right s); [by destruct (is_space c) | done]. Qed.
Lemma TrimSpace_ToLower s : TrimSpace (ToLower s) = ToLower (TrimSpace s).
Proof. unfold TrimSpace. by rewrite trim_left_ToLower, trim_right_ToLower. Qed.

(** An address as it is stored. *)
Definition normal (email : string) : Prop := email <> "" /\ TrimSpace email = email /\ ToLower email = email.

Section Accounts.
Context {J : TokenJSON} {P : Passwords}.

Lemma normalizeEmail_normal raw email : normalizeEmail raw = Ok email -> normal email /\ email = ToLower (TrimSpace raw).
Proof.
  unfold normalizeEmail. destruct (decide _) as [|Hne]; [done|]. destruct (_ <? _)%nat; [done|]. destruct (negb _); [done|]. intros [= <-].
  split; [|done]. repeat split; [done| |apply ToLower_idem]. by rewrite TrimSpace_ToLower, TrimSpace_idem.
Qed.

Lemma validate_email input name email : validateRegisterInput input = Ok (name, email) -> normalizeEmail (ri_Email input) = Ok email.
Proof. unfold validateRegisterInput. destruct (decide _); [done|]. destruct (_ <? _)%nat; [done|]. destruct (normalizeEmail _) as [e|]; [|done]. destruct (_ <? _)%nat; [done|]. by intros [= _ <-]. Qed.

(** ** The table under any requests *)

(** The statements of any number of requests, in any order: an insert comes from a
    request whose look-up may be long ago. *)
Inductive account_step : UserDB -> UserDB -> Prop :=
| step_find email db : account_step db (FindByEmail email db).2
| step_insert now name email hash created db : normal email -> account_step db (Create now (mkUser 0 name email hash created) db).2
| step_schedule fs db : account_step db (mkUserDB (ud_users db) (ud_seq db) fs).

Record users_ok (db : UserDB) : Prop := mkUsersOk {
  uo_email : Forall (fun u => normal (us_Email u)) (ud_users db);
  uo_unique : NoDup (map us_Email (ud_users db));
  uo_ids : NoDup (map us_ID (ud_users db));
  uo_seq : Forall (fun u => (0 < us_ID u <= ud_seq db)%N) (ud_users db) }.

(** What an insert leaves. *)
Definition inserted (now : Z) (user : User) (db : UserDB) : User := mkUser (ud_seq db + 1) (us_Name user) (us_Email user) (us_PasswordHash user) now.

Lemma stmt_users db r db' : user_stmt db = (r, db') -> ud_users db' = ud_users db /\ ud_seq db' = ud_seq db /\ (ud_faults db = [] -> r = Ok tt /\ db' = db).
Proof. unfold user_stmt. destruct db as [us sq [|[] fs]]; cbn; intros [= <- <-]; done. Qed.

Lemma insert_effect now user db1 r db2 : insert_user now user db1 = (r, db2) ->
  (ud_users db2 = ud_users db1 /\ (exists e, r = Err e) /\ ud_seq db2 = (ud_seq db1 + 1)%N /\ ud_faults db2 = ud_faults db1) \/
  (email_taken (us_Email user) (ud_users db1) = false /\ r = Ok (inserted now user db1) /\ ud_users db2 = ud_users db1 ++ [inserted now user db1] /\ ud_seq db2 = (ud_seq db1 + 1)%N /\ ud_faults db2 = ud_faults db1).
Proof. unfold insert_user. destruct (email_taken _ _) eqn:E; intros [= <- <-]; [left|right]; naive_solver. Qed.

Lemma create_effect now user db r db' : Create now user db = (r, db') ->
  (ud_users db' = ud_users db /\ (exists e, r = Err e) /\ (ud_seq db <= ud_seq db')%N) \/
  (email_taken (us_Email user) (ud_users db) = false /\ ud_users db' = ud_users db ++ [inserted now user db] /\ ud_seq db' = (ud_seq db + 1)%N /\
   (r = Ok (inserted now user db) \/ exists e, r = Err e)).
Proof.
  unfold Create, user_transaction. destruct (user_stmt db) as [[[]|e] db1] eqn:E1; destruct (stmt_users _ _ _ E1) as (Hu1 & Hs1 & _).
  2: { intros [= <- <-]. left. rewrite Hs1. split; [done|]. split; [by eexists|lia]. }
  unfold mbind, U_bind. destruct (user_stmt db1) as [[[]|e] db2] eqn:E2; destruct (stmt_users _ _ _ E2) as (Hu2 & Hs2 & _).
  2: { intros [= <- <-]. left. cbn. rewrite Hs2, Hs1. split; [done|]. split; [by eexists|lia]. }
  destruct (insert_user now user db2) as [r3 db3] eqn:E3. assert (Hin : inserted now user db2 = inserted now user db) by (unfold inserted; by rewrite Hs2, Hs1).
  destruct (insert_effect _ _ _ _ _ E3) as [(Hu3 & (e & ->) & Hs3 & _)|(Ht & -> & Hu3 & Hs3 & _)].
  { intros [= <- <-]. left. cbn. rewrite Hs3, Hs2, Hs1. split; [done|]. split; [by eexists|lia]. }
  rewrite Hin, Hu2, Hu1, Hs2, Hs1 in *.
  destruct (ud_faults db3) as [|[] fs]; intros [= <- <-]; cbn; [right|right|left|right]; rewrite ?Hu3, ?Hs3; repeat split; try done; eauto; lia.
Qed.

Lemma find_users email db r db' : FindByEmail email db = (r, db') -> ud_users db' = ud_users db /\ ud_seq db' = ud_seq db.
Proof.
  unfold FindByEmail, user_query, mbind, U_bind. destruct (user_stmt db) as [[[]|e] db1] eqn:E1; destruct (stmt_users _ _ _ E1) as (Hu1 & Hs1 & _).
  - destruct (find _ _); intros [= _ <-]; done.
  - by intros [= _ <-].
Qed.

Lemma taken_spec email users : normal email -> Forall (fun u => normal (us_Email u)) users -> email_taken email users = false -> email ∉ map us_Email users.
Proof.
  intros (Hne & Htrim & Hlow) Hall Ht Hin. unfold email_taken in Ht. rewrite Htrim, bool_decide_eq_false_2 in Ht by done. cbn in Ht.
  apply list_elem_of_fmap in Hin as (u & -> & Hu). rewrite Forall_forall in Hall. destruct (Hall u Hu) as (_ & _ & Hl).
  rewrite <- not_true_iff_false, existsb_exists in Ht. apply Ht. exists u. rewrite bool_decide_eq_true_2 by done. split; [by apply list_elem_of_In|done].
Qed.

Lemma account_step_ok db db' : users_ok db -> account_step db db' -> users_ok db' /\ ud_users db `prefix_of` ud_users db'.
Proof.
  intros Hok Hstep. pose proof Hok as [He Hu Hi Hs]. destruct Hstep as [email db|now name email hash created db Hn|fs db].
  - destruct (FindByEmail email db) as [r db'] eqn:E. destruct (find_users _ _ _ _ E) as [Hus Hsq]. cbn. rewrite Hus. split; [|done]. by split; rewrite ?Hus, ?Hsq.
  - destruct (Create _ _ db) as [r db'] eqn:E. cbn. destruct (create_effect _ _ _ _ _ E) as [(Hus & _ & Hsq)|(Ht & Hus & Hsq & _)].
    + rewrite Hus. split; [|done]. split; rewrite ?Hus; [done..|]. eapply Forall_impl; [exact Hs|]. cbn. lia.
    + rewrite Hus. split; [|by apply prefix_app_r]. cbn in Ht. pose proof (taken_spec _ _ Hn He Ht) as Hnew. split; rewrite Hus.
      * apply Forall_app. split; [done|]. by repeat constructor; destruct Hn as (? & ? & ?).
      * rewrite map_app. apply NoDup_app. split; [done|]. split; [|cbn; apply NoDup_singleton]. cbn. intros x Hx ->%list_elem_of_singleton. done.
      * rewrite map_app. apply NoDup_app. split; [done|]. split; [|cbn; apply NoDup_singleton]. cbn. intros x Hx ->%list_elem_of_singleton.
        apply list_elem_of_fmap in Hx as (u & Hid & Hx). rewrite Forall_forall in Hs. specialize (Hs u Hx). cbn in Hs. lia.
      * rewrite Hsq. apply Forall_app. split; [eapply Forall_impl; [exact Hs|]; cbn; lia|]. constructor; [cbn; lia|constructor].
  - cbn. split; [|done]. by split.
Qed.

Lemma account_steps_ok db db' : users_ok db -> rtc account_step db db' -> users_ok db' /\ ud_users db `prefix_of` ud_users db'.
Proof.
  intros Hok Hr. induction Hr as [|a b c Hab _ IH]; [done|]. destruct (account_step_ok a b Hok Hab) as [Hb Hp]. destruct (IH Hb) as [Hc Hp']. split; [done|]. by etrans.
Qed.

(** The requests take these steps. *)
Lemma register_steps s salt now input db : rtc account_step db (Register s salt now input db).2.
Proof.
  unfold Register. destruct s as [[[] [tm|]]|]; try apply rtc_refl. destruct (validateRegisterInput input) as [[name email]|] eqn:Ev; [|apply rtc_refl].
  apply validate_email, normalizeEmail_normal in Ev as [Hn _].
  pose proof (step_find email db) as Hf. destruct (FindByEmail email db) as [found db1]. cbn in Hf. eapply rtc_l; [exact Hf|].
  set (refused := match found with Ok _ => _ | Err _ => _ end). destruct refused; [apply rtc_refl|]. destruct (GenerateFromPassword _ _) as [hash|]; [|apply rtc_refl].
  pose proof (step_insert now name email hash 0 db1 Hn) as Hc. destruct (Create _ _ db1) as [[user|e] db2]; [|by apply rtc_once]. destruct (Generate _ _ _); by apply rtc_once.
Qed.

Lemma login_steps s now input db : rtc account_step db (Login s now input db).2.
Proof.
  unfold Login. destruct s as [[[] [tm|]]|]; try apply rtc_refl. destruct (normalizeEmail (li_Email input)) as [email|]; [|apply rtc_refl].
  pose proof (step_find email db) as Hf. destruct (FindByEmail email db) as [[user|e] db1].
  - destruct (negb _); [by apply rtc_once|]. destruct (Generate _ _ _); by apply rtc_once.
  - destruct (decide _); by apply rtc_once.
Qed.

(** An address has one account.  Whatever registrations and logins run, interleaved
    statement by statement and with any faults of the database, no two rows have the same
    address or id, every address is stored trimmed and in lower case, and a row that was
    written is never changed or removed. *)
Theorem one_account_per_address fs db db' :
  rtc account_step (mkUserDB [] 0 fs) db -> rtc account_step db db' ->
  NoDup (map us_Email (ud_users db')) /\ NoDup (map us_ID (ud_users db')) /\ Forall (fun u => normal (us_Email u) /\ us_ID u <> 0%N) (ud_users db')
  /\ ud_users db `prefix_of` ud_users db'.
Proof.
  intros H1 H2. assert (H0 : users_ok (mkUserDB [] 0 fs)) by (split; constructor).
  destruct (account_steps_ok _ _ H0 H1) as [Hok _]. destruct (account_steps_ok _ _ Hok H2) as [[He Hu Hi Hs] Hp]. repeat split; try done.
  apply Forall_forall. intros u Hin. rewrite Forall_forall in He, Hs. specialize (Hs u Hin). split; [by apply He|]. cbn in Hs. lia.
Qed.

(** ** Registering, then logging in *)

Lemma find_own db u : users_ok db -> u ∈ ud_users db -> ud_faults db = [] -> FindByEmail (us_Email u) db = (Ok u, db).
Proof.
  intros [He Hu _ _] Hin Hf. unfold FindByEmail, user_query, mbind, U_bind, user_stmt. rewrite Hf.
  assert (Hlow : forall x, x ∈ ud_users db -> ToLower (us_Email x) = us_Email x /\ TrimSpace (us_Email x) = us_Email x).
  { intros x Hx. rewrite Forall_forall in He. by destruct (He x Hx) as (_ & ? & ?). }
  rewrite (proj2 (Hlow u Hin)). rewrite (proj1 (Hlow u Hin)).
  assert (Hfind : find (fun x => bool_decide (ToLower (us_Email x) = us_Email u)) (ud_users db) = Some u); [|by rewrite Hfind].
  revert Hu Hin Hlow. generalize (ud_users db). clear. intros l. induction l as [|x l IH]; intros Hu Hin Hlow; [by apply elem_of_nil in Hin|].
  cbn in Hu. apply NoDup_cons in Hu as [Hx Hu]. cbn [find]. rewrite (proj1 (Hlow x ltac:(left))). destruct (decide (us_Email x = us_Email u)) as [E|E].
  - rewrite bool_decide_eq_true_2 by done. apply elem_of_cons in Hin as [->|Hin]; [done|]. exfalso. apply Hx. rewrite E. by apply list_elem_of_fmap_2.
  - rewrite bool_decide_eq_false_2 by done. apply elem_of_cons in Hin as [->|Hin]; [done|]. apply IH; [done|done|]. intros y Hy. apply Hlow. by right.
Qed.

Lemma registered tm salt now input db r db' :
  Register (Some (mkAuthService true (Some tm))) salt now input db = (Ok r, db') ->
  exists u email, u ∈ ud_users db' /\ normalizeEmail (ri_Email input) = Ok email /\ us_Email u = email /\ us_Name u = TrimSpace (ri_Name input) /\
    GenerateFromPassword salt (ri_Password input) = Ok (us_PasswordHash u) /\ ar_User r = publicUser u.
Proof.
  unfold Register. destruct (validateRegisterInput input) as [[name email]|] eqn:Ev; [|done]. pose proof (validate_email _ _ _ Ev) as Hem.
  assert (Hname : name = TrimSpace (ri_Name input)).
  { unfold validateRegisterInput in Ev. destruct (decide _); [done|]. destruct (_ <? _)%nat; [done|]. destruct (normalizeEmail _); [|done]. destruct (_ <? _)%nat; [done|]. by simplify_eq. }
  destruct (FindByEmail email db) as [found db1]. set (refused := match found with Ok _ => _ | Err _ => _ end). destruct refused; [done|].
  destruct (GenerateFromPassword _ _) as [hash|] eqn:Eh; [|done]. destruct (Create _ _ db1) as [[user|e] db2] eqn:Ec; [|done].
  destruct (create_effect _ _ _ _ _ Ec) as [(_ & (e & ?) & _)|(_ & Hus & _ & [Hr|(e & ?)])]; [done| |done].
  destruct (Generate _ _ _); [|done]. intros [= <- <-]. exists user, email. injection Hr as ->. rewrite Hus. repeat split; try done. apply elem_of_app. right. by apply list_elem_of_singleton.
Qed.

Context {JL : TokenJSONLaws J} {PL : PasswordLaws P}.

(** C26 Who registers can log in.  After a registration, and whatever other requests do
    in between, logging in with the same address, in any spelling, and the same password
    gives the same user, without the hash of the password, and a token that identifies
    this user until it expires; a password that does not match is refused like an unknown
    address. *)
Theorem registered_user_logs_in tm salt now input db r db1 db2 email now2 now3 password :
  users_ok db -> Register (Some (mkAuthService true (Some tm))) salt now input db = (Ok r, db1) ->
  rtc account_step db1 db2 -> ud_faults db2 = [] -> (ud_seq db2 < 2 ^ 64)%N -> normalizeEmail email = normalizeEmail (ri_Email input) ->
  - 2 ^ 63 <= Unix now2 < 2 ^ 63 -> - 2 ^ 63 <= Unix (now2 + tm_ttl tm) < 2 ^ 63 ->
  let login p := Login (Some (mkAuthService true (Some tm))) now2 (mkLoginInput email p) db2 in
  us_PasswordHash (ar_User r) = "" /\
  (exists token, login (ri_Password input) = (Ok (mkAuthResult token (ar_User r)), db2) /\
    Parse (Some tm) now3 token = if Unix (now2 + tm_ttl tm) <=? Unix now3 then Err ErrExpiredToken else Ok (us_ID (ar_User r))) /\
  ((forall hash, GenerateFromPassword salt (ri_Password input) = Ok hash -> CompareHashAndPassword hash password = false) ->
    login password = (Err (Errorf "invalid email or password" []), db2)).
Proof.
  intros Hok Hreg Hsteps Hf Hseq Hem Hi He login. pose proof (register_steps (Some (mkAuthService true (Some tm))) salt now input db) as Hr1. rewrite Hreg in Hr1.
  destruct (account_steps_ok _ _ Hok Hr1) as [Hok1 _]. destruct (account_steps_ok _ _ Hok1 Hsteps) as [Hok2 Hpre].
  destruct (registered _ _ _ _ _ _ _ Hreg) as (u & e & Hin & Hne & Hue & _ & Hhash & Hpub). assert (Hin2 : u ∈ ud_users db2) by by eapply elem_of_prefix.
  assert (Hids : (0 < us_ID u <= ud_seq db2)%N) by exact (proj1 (Forall_forall _ _) (uo_seq _ Hok2) u Hin2).
  assert (Hlogin : forall p, login p = if negb (CompareHashAndPassword (us_PasswordHash u) p) then (Err (Errorf "invalid email or password" []), db2)
                                       else (Ok (mkAuthResult (token_of tm now2 (us_ID u)) (publicUser u)), db2)).
  { intros p. unfold login, Login. cbn [li_Email li_Password]. rewrite Hem, Hne, <- Hue. rewrite (find_own db2 u Hok2 Hin2 Hf). rewrite generate_token by (intros E; rewrite E in Hids; lia). done. }
  rewrite Hpub. split; [done|]. split.
  - exists (token_of tm now2 (us_ID u)). rewrite Hlogin, (generated_matches _ _ _ Hhash). split; [done|]. change (us_ID (publicUser u)) with (us_ID u). apply parse_generated; [lia|done|done].
  - intros Hno. by rewrite Hlogin, (Hno _ Hhash).
Qed.
End Accounts.

(** ** A user *)

Module AccountExamples.
Import TokenExamples.

(** A stand-in for bcrypt that keeps what the laws ask for. *)
#[export] Instance plain_passwords : Passwords := {|
  GenerateFromPassword salt password := Ok (pretty salt +:+ "$" +:+ password);
  CompareHashAndPassword hash password := match Split "$"%char hash with _ :: rest => bool_decide (Split "$"%char password = rest) | [] => false end;
  ParseAddress email := bool_decide (length (Split "@"%char email) = 2%nat) |}.

#[export] Instance plain_password_laws : PasswordLaws plain_passwords.
Proof.
  split. intros salt password hash [= <-]. unfold CompareHashAndPassword, plain_passwords. change ("$" +:+ password) with (String "$"%char password).
  rewrite Split_app by (apply digits_lack; [done|apply pretty_digits]). by apply bool_decide_eq_true_2.
Qed.

Definition no_users : UserDB := mkUserDB [] 0 [].
Definition bob : RegisterInput := mkRegisterInput " Bob " "Bob@Example.com" "correct horse".
Definition bob_row : User := mkUser 1 "Bob" "bob@example.com" "5$correct horse" issued.
Definition auth : option AuthService := Some (mkAuthService true (Some manager)).
Definition with_bob : UserDB := mkUserDB [bob_row] 1 [].

Lemma bob_registers : Register auth 5 issued bob no_users = (Ok (mkAuthResult (token_of manager issued 1) (publicUser bob_row)), with_bob).
Proof. vm_compute. reflexivity. Qed.

Lemma no_users_ok : users_ok no_users.
Proof. split; constructor. Qed.

(** Bob registers and logs in with another spelling of his address. *)
Lemma registered_user_logs_in_witness :
  let login p := Login auth issued (mkLoginInput " BOB@example.com" p) with_bob in
  us_PasswordHash (publicUser bob_row) = "" /\
  (exists token, login "correct horse" = (Ok (mkAuthResult token (publicUser bob_row)), with_bob) /\
    Parse (Some manager) (issued + 7) token = if Unix (issued + tm_ttl manager) <=? Unix (issued + 7) then Err ErrExpiredToken else Ok 1%N) /\
  ((forall hash, GenerateFromPassword 5 "correct horse" = Ok hash -> CompareHashAndPassword hash "battery" = false) ->
    login "battery" = (Err (Errorf "invalid email or password" []), with_bob)).
Proof.
  exact (registered_user_logs_in manager 5 issued bob no_users _ with_bob with_bob " BOB@example.com" issued (issued + 7) "battery" no_users_ok bob_registers
    (rtc_refl _ _) eq_refl ltac:(by vm_compute) ltac:(by vm_compute) ltac:(by vm_compute) ltac:(by vm_compute)).
Defined.

Lemma one_account_per_address_witness :
  NoDup (map us_Email (ud_users with_bob)) /\ NoDup (map us_ID (ud_users with_bob)) /\ Forall (fun u => normal (us_Email u) /\ us_ID u <> 0%N) (ud_users with_bob)
  /\ ud_users with_bob `prefix_of` ud_users with_bob.
Proof.
  apply (one_account_per_address [] with_bob with_bob); [|apply rtc_refl].
  pose proof (register_steps auth 5 issued bob no_users) as H. rewrite bob_registers in H. exact H.
Defined.

(** A second registration of the address, and a password that is too short. *)
Example refused_registrations :
  (Register auth 6 issued (mkRegisterInput "Eve" "bob@EXAMPLE.com" "password") with_bob).1 = Err (NewConflictErrorf "email is already registered" []) /\
  (Register auth 6 issued (mkRegisterInput "Eve" "eve@example.com" "short") with_bob).1 = Err (NewValidationErrorf "password must be at least %d characters" ["8"]).
Proof. vm_compute. done. Qed.
End AccountExamples.
