(* ===== verification/Router.v ===== *)
(** * Routes, middleware and the public handlers

    cmd/router.go, middleware/auth.go, dev_tools.go and rate_limit.go, and
    handler/auth_handler.go, market_handler.go and orderbook_handler.go.  A request comes
    with the route that gin chose for it; CORS, metrics and the upgrade to a websocket
    are left out.  [golang.org/x/time/rate] is a parameter. *)
From S2P Require Import Prelude Decimal Containers Model Errors Fee MarketRules Database Ledger OrderLedger Queries Idempotency HoldCoordinator Engine OrderService Transfers FailureStores Processing HttpApi Tokens Accounts.
From Stdlib Require Import Lia Ascii.

Local Open Scope Z_scope.

Definition StatusCreated : Z := 201.
Definition StatusTooManyRequests : Z := 429.
Definition CodeAuthInvalidToken : string := "AUTH_INVALID_TOKEN".
Definition CodeAuthExpiredToken : string := "AUTH_EXPIRED_TOKEN".
Definition CodeAuthNotConfigured : string := "AUTH_NOT_CONFIGURED".
Definition CodeDevToolsDisabled : string := "DEV_TOOLS_DISABLED".
Definition CodeDevToolsForbidden : string := "DEV_TOOLS_FORBIDDEN".
Definition CodeInvalidCredentials : string := "INVALID_CREDENTIALS".
Definition CodeRateLimited : string := "RATE_LIMITED".

(** The request ends here: no later handler runs. *)
Definition AbortWithError (status : Z) (code message : string) : Response :=
  mkResponse status (retryAfterForOverload status) (ErrorResponse (normalizeCode code) (normalizeMessage message)).

(** ** The rate limiter *)

(** What is used of [rate.Limiter]: [ReserveN(now, 1)] with the delay it asks for, and
    taking the reservation back. *)
Class RateLib := {
  Limiter : Type; Reservation : Type;
  NewLimiter : Z -> Z -> Limiter;
  ReserveN : Z -> Limiter -> Reservation * Limiter;
  DelayFrom : Reservation -> Z -> Z;
  CancelAt : Reservation -> Z -> Limiter -> Limiter }.

Section RateLimiter.
Context {RL : RateLib}.

Record limiterEntry := mkLimiterEntry { le_limiter : Limiter; le_lastUsed : Z }.
Record RateLimiter := mkRateLimiter { rl_entries : gmap string limiterEntry; rl_rate : Z; rl_burst : Z }.
Definition NewRateLimiter (rps burst : Z) : RateLimiter := mkRateLimiter ∅ rps burst.

(** Seconds, rounded up, at least one. *)
Definition retry_seconds (delay : Z) : Z :=
  let seconds := Z.quot delay (10 ^ 9) in
  let seconds := if negb (Z.rem delay (10 ^ 9) =? 0) then seconds + 1 else seconds in
  if seconds <? 1 then 1 else seconds.

(** [None]: allowed; otherwise the seconds to wait. *)
Definition Allow (now : Z) (key : string) (rl : RateLimiter) : option Z * RateLimiter :=
  let limiter := match rl_entries rl !! key with Some entry => le_limiter entry | None => NewLimiter (rl_rate rl) (rl_burst rl) end in
  let '(reservation, reserved) := ReserveN now limiter in
  let delay := DelayFrom reservation now in
  let store l := mkRateLimiter (<[key := mkLimiterEntry l now]> (rl_entries rl)) (rl_rate rl) (rl_burst rl) in
  if delay <=? 0 then (None, store reserved) else (Some (retry_seconds delay), store (CancelAt reservation now reserved)).

Definition Cleanup (now idleAfter : Z) (rl : RateLimiter) : RateLimiter :=
  mkRateLimiter (filter (fun '(_, entry) => now - le_lastUsed entry < idleAfter) (rl_entries rl)) (rl_rate rl) (rl_burst rl).

Definition rejectRateLimited (seconds : Z) : Response :=
  mkResponse StatusTooManyRequests (Some (pretty seconds)) (rs_Body (AbortWithError StatusTooManyRequests CodeRateLimited "rate limit exceeded, retry later")).
End RateLimiter.

(** ** Requests and the state of the server *)

Record RegisterRequest := mkRegisterRequest { rr_Name : string; rr_Email : string; rr_Password : string }.
Record LoginRequest := mkLoginRequest { lr_Email : string; lr_Password : string }.

(** The bodies are what the request's body decodes to as each type. *)
Record HttpRequest := mkHttpRequest {
  hr_Authorization : string; hr_DevToken : string; hr_ClientIP : string; hr_IdempotencyKey : string; hr_ID : string;
  hr_QueryStatus : string; hr_QueryCoinSymbol : string; hr_QueryLimit : string; hr_QueryDepth : string;
  hr_CreateOrder : result string CreateOrderRequest; hr_Transfer : result string TransferRequestBody; hr_Callback : result string CallbackRequest;
  hr_Fund : result string FundWalletRequest; hr_Register : result string RegisterRequest; hr_Login : result string LoginRequest }.

Inductive limiter_name := AuthLimiter | OrderLimiter | TransferLimiter.

(** The routes of [newRouter]. *)
Inductive Route :=
| GetPing | PostRegister | PostLogin | GetMarketRules | GetOrderBook
| GetOrders | GetOneOrder | PostOrder | DeleteOrder | GetWallets | GetTrades | PostDeposit | PostWithdrawal | GetTransfers
| PostDevFund | PostDevCallback.

Section Router.
Context {DL : DecimalLib} {TX : ErrorTexts} {API : MatchingAPI} {ETP : ExternalTransferProcessor} {J : TokenJSON} {P : Passwords} {RL : RateLib}.

Record ServerState := mkServerState {
  st_world : World; st_engine : option engine; st_processor : processor; st_users : UserDB;
  st_limiters : limiter_name -> option RateLimiter }.

Record routerConfig := mkRouterConfig {
  rc_tokenManager : option TokenManager; rc_authService : option AuthService;
  rc_place : hold_place; rc_orderRules : option MarketRulesRegistry; rc_marketRules : option MarketRulesRegistry;
  rc_snapshots : option (string -> Z -> result error OrderBookSnapshot);
  rc_devToolsEnabled : bool; rc_devToolsToken : string }.

(** What runs for a request, with the value under the user's key of the context. *)
Definition Handler : Type := HttpRequest -> option context_value -> ServerState -> Response * ServerState.

Definition with_world (st : ServerState) (a : Response * World) : Response * ServerState :=
  (a.1, mkServerState a.2 (st_engine st) (st_processor st) (st_users st) (st_limiters st)).

(** ** Middleware *)

Definition AuthRequired (tokenManager : option TokenManager) (now : Z) (next : Handler) : Handler := fun r _ st =>
  match tokenManager with
  | None => (AbortWithError StatusInternalServerError CodeAuthNotConfigured "auth token manager is not configured", st)
  | Some tm =>
      match ExtractBearerToken (hr_Authorization r) with
      | Err _ => (AbortWithError StatusUnauthorized CodeAuthRequired "authorization bearer token is required", st)
      | Ok token =>
          match Parse (Some tm) now token with
          | Err err =>
              if decide (err = ErrExpiredToken) then (AbortWithError StatusUnauthorized CodeAuthExpiredToken "authorization token expired", st)
              else (AbortWithError StatusUnauthorized CodeAuthInvalidToken "invalid authorization token", st)
          | Ok userID => next r (Some (ContextUint userID)) st
          end
      end
  end.

Definition DevToolsRequired (expectedToken : string) (next : Handler) : Handler := fun r user st =>
  let expectedToken := TrimSpace expectedToken in
  if decide (expectedToken = "") then (AbortWithError StatusNotFound CodeDevToolsDisabled "development tools are disabled", st)
  else
    let providedToken := TrimSpace (hr_DevToken r) in
    if decide (providedToken = "" \/ providedToken <> expectedToken) then (AbortWithError StatusForbidden CodeDevToolsForbidden "development tool token is invalid", st)
    else next r user st.

Definition set_limiter (name : limiter_name) (rl : RateLimiter) (st : ServerState) : ServerState :=
  mkServerState (st_world st) (st_engine st) (st_processor st) (st_users st)
    (fun n => match name, n with AuthLimiter, AuthLimiter | OrderLimiter, OrderLimiter | TransferLimiter, TransferLimiter => Some rl | _, _ => st_limiters st n end).

Definition limited (name : limiter_name) (now : Z) (key : string) (rl : RateLimiter) (next : Handler) : Handler := fun r user st =>
  let '(verdict, rl) := Allow now key rl in
  match verdict with
  | Some seconds => (rejectRateLimited seconds, set_limiter name rl st)
  | None => next r user (set_limiter name rl st)
  end.
Definition RateLimitByIP (name : limiter_name) (bucketPrefix : string) (now : Z) (next : Handler) : Handler := fun r user st =>
  match st_limiters st name with
  | None => next r user st
  | Some rl => limited name now (bucketPrefix +:+ ":" +:+ hr_ClientIP r) rl next r user st
  end.
Definition RateLimitByUser (name : limiter_name) (now : Z) (next : Handler) : Handler := fun r user st =>
  match st_limiters st name, user with
  | Some rl, Some (ContextUint userID) => limited name now (pretty userID) rl next r user st
  | _, _ => next r user st
  end.

(** ** Handlers *)

Definition authResponse (result : AuthResult) : Data := DataAuth (ar_Token result) (us_ID (ar_User result)) (us_Name (ar_User result)) (us_Email (ar_User result)).

Definition handleRegister (s : option AuthService) (salt : N) (now : Z) : Handler := fun r _ st =>
  match hr_Register r with
  | Err text => (writeBindingError text, st)
  | Ok req =>
      let '(outcome, users) := Register s salt now (mkRegisterInput (rr_Name req) (rr_Email req) (rr_Password req)) (st_users st) in
      (match outcome with Err err => writeServiceError err | Ok result => WriteData StatusCreated (authResponse result) end,
       mkServerState (st_world st) (st_engine st) (st_processor st) users (st_limiters st))
  end.

Definition handleLogin (s : option AuthService) (now : Z) : Handler := fun r _ st =>
  match hr_Login r with
  | Err text => (writeBindingError text, st)
  | Ok req =>
      let '(outcome, users) := Login s now (mkLoginInput (lr_Email req) (lr_Password req)) (st_users st) in
      (match outcome with
       | Err err => if decide (DomainErrorKind err = Some ErrorKindUnavailable) then WriteError StatusServiceUnavailable CodeUnavailable (error_text err)
                    else WriteError StatusUnauthorized CodeInvalidCredentials (error_text err)
       | Ok result => WriteData StatusOK (authResponse result)
       end,
       mkServerState (st_world st) (st_engine st) (st_processor st) users (st_limiters st))
  end.

Definition marketRulesResponse (rules : MarketRules) : MarketRulesResponse :=
  mkMarketRulesResponse (m_CoinSymbol rules) (m_QuoteSymbol rules) (m_TradingEnabled rules) (MarketStatus_string (m_TradingStatus rules)) (DString (m_MinOrderNotional rules))
    (DString (m_MinOrderQuantity rules)) (DString (m_BaseQuantityStep rules)) (DString (m_FeeRate rules))
    (map (fun rule => mkTickRuleResponse (DString <$> mt_UpperBound rule) (DString (mt_TickSize rule))) (m_TickRules rules)).
Definition marketRulesRegistry (rules : option MarketRulesRegistry) : MarketRulesRegistry := default NewDefaultMarketRulesRegistry rules.
Definition handleGetRules (rules : option MarketRulesRegistry) : Handler := fun r _ st =>
  (match KRWMarketRules (marketRulesRegistry rules) (hr_QueryCoinSymbol r) with
   | Err err => writeServiceError err
   | Ok rules => WriteData StatusOK (DataMarketRules (marketRulesResponse rules))
   end, st).

Definition parseDepthQuery (value : string) : option Z :=
  let value := TrimSpace value in
  if decide (value = "") then Some DefaultSnapshotDepth
  else match Atoi value with Some depth => if depth <=? 0 then None else Some depth | None => None end.
Definition snapshot_data (s : OrderBookSnapshot) : Data :=
  let level l := (DString (pd_Price l), DString (pd_Quantity l)) in DataSnapshot (Engine.os_CoinSymbol s) (map level (os_Asks s)) (map level (os_Bids s)).
Definition handleGetSnapshot (provider : option (string -> Z -> result error OrderBookSnapshot)) : Handler := fun r _ st =>
  (let coinSymbol := ToUpper (TrimSpace (hr_QueryCoinSymbol r)) in
   if decide (coinSymbol = "") then WriteError StatusUnprocessableEntity CodeValidation "coin_symbol is required"
   else match provider with
   | None => WriteError StatusInternalServerError CodeInternal "orderbook snapshot provider is required"
   | Some provider =>
       match parseDepthQuery (hr_QueryDepth r) with
       | None => WriteError StatusUnprocessableEntity CodeValidation "depth must be a positive integer"
       | Some depth =>
           match provider coinSymbol depth with
           | Err err => WriteError StatusInternalServerError CodeInternal (error_text err)
           | Ok snapshot => WriteData StatusOK (snapshot_data snapshot)
           end
       end
   end, st).

(** The request as the handlers of [HttpApi] see it. *)
Definition context {B} (r : HttpRequest) (user : option context_value) (body : result string B) : Request B :=
  mkRequest user body (hr_IdempotencyKey r) (hr_ID r) (hr_QueryStatus r) (hr_QueryCoinSymbol r) (hr_QueryLimit r).

(** [salt], [now]: the randomness and the clock this request finds. *)
Definition newRouter (cfg : routerConfig) (salt : N) (now : Z) (route : Route) : option Handler :=
  let on_world (f : Request unit -> World -> Response * World) : Handler := fun r user st => with_world st (f (context r user (Ok tt)) (st_world st)) in
  let authenticated := AuthRequired (rc_tokenManager cfg) now in
  let dev (next : Handler) : option Handler :=
    if rc_devToolsEnabled cfg then Some (authenticated (DevToolsRequired (rc_devToolsToken cfg) next)) else None in
  let transfers f : Handler := fun r user st =>
    let '(resp, w, p) := f (context r user (hr_Transfer r)) (st_world st) (st_processor st) in (resp, mkServerState w (st_engine st) p (st_users st) (st_limiters st)) in
  match route with
  | GetPing => Some (fun _ _ st => (WriteData StatusOK DataPong, st))
  | PostRegister => Some (RateLimitByIP AuthLimiter "register" now (handleRegister (rc_authService cfg) salt now))
  | PostLogin => Some (RateLimitByIP AuthLimiter "login" now (handleLogin (rc_authService cfg) now))
  | GetMarketRules => Some (handleGetRules (rc_marketRules cfg))
  | GetOrderBook => Some (handleGetSnapshot (rc_snapshots cfg))
  | GetOrders => Some (authenticated (on_world handleListOrders))
  | GetOneOrder => Some (authenticated (on_world handleGetOrder))
  | PostOrder => Some (authenticated (RateLimitByUser OrderLimiter now (fun r user st =>
      let '(resp, w, me) := handleCreateOrder (holdWithIdempotency (rc_place cfg)) (rc_orderRules cfg) now (context r user (hr_CreateOrder r)) (st_world st) (st_engine st) in
      (resp, mkServerState w me (st_processor st) (st_users st) (st_limiters st)))))
  | DeleteOrder => Some (authenticated (RateLimitByUser OrderLimiter now (on_world handleCancelOrder)))
  | GetWallets => Some (authenticated (on_world handleListWallets))
  | GetTrades => Some (authenticated (on_world handleListTrades))
  | PostDeposit => Some (authenticated (RateLimitByUser TransferLimiter now (transfers (handleRequestDeposit now))))
  | PostWithdrawal => Some (authenticated (RateLimitByUser TransferLimiter now (transfers (handleRequestWithdrawal now))))
  | GetTransfers => Some (authenticated (on_world handleListTransfers))
  | PostDevFund => dev (fun r user st => with_world st (handleFundWallet (context r user (hr_Fund r)) (st_world st)))
  | PostDevCallback => dev (fun r user st => with_world st (handleReceiveCallback now (context r user (hr_Callback r)) (st_world st)))
  end.
End Router.
