(* ===== verification/RouterProofs.v ===== *)
(** * What a request may do *)
From S2P Require Import Prelude Decimal Containers Model Errors Fee Matching MarketRules Database Ledger LedgerInv LedgerSpec LedgerTheorems OrderLedger Queries Idempotency Settlement TradePlan Store SettlementProofs SettlementBatch SettlementBatchProofs HoldCoordinator Engine OrderService Transfers TransferInv LockedFunds OrderProofs HoldBatchProofs TransferProofs FailureStores Services Dispatcher Processing ServiceFixtures ProcessingFixtures HttpApi HttpProofs Tokens Accounts TokenProofs AccountsProofs Router.
From Stdlib Require Import Lia Ascii.

Local Open Scope Z_scope.

Definition protected (route : Route) : bool :=
  match route with GetPing | PostRegister | PostLogin | GetMarketRules | GetOrderBook => false | _ => true end.
Definition dev_route (route : Route) : bool := match route with PostDevFund | PostDevCallback => true | _ => false end.

Section Requests.
Context {DL : DecimalLib} {DLaws : DecimalLaws DL} {TX : ErrorTexts} {API : MatchingAPI} {ETP : ExternalTransferProcessor} {J : TokenJSON} {P : Passwords} {RL : RateLib}.

(** The user a request's bearer token stands for. *)
Definition bearer_user (cfg : routerConfig) (now : Z) (r : HttpRequest) : option N :=
  tm ← rc_tokenManager cfg;
  match ExtractBearerToken (hr_Authorization r) with Err _ => None | Ok token => match Parse (Some tm) now token with Err _ => None | Ok user => Some user end end.

Definition dev_allowed (cfg : routerConfig) (r : HttpRequest) : Prop :=
  rc_devToolsEnabled cfg = true /\ TrimSpace (rc_devToolsToken cfg) <> "" /\ TrimSpace (hr_DevToken r) = TrimSpace (rc_devToolsToken cfg).

(** Everything but the limiters. *)
Definition same_state (st st' : ServerState) : Prop :=
  st_world st' = st_world st /\ st_engine st' = st_engine st /\ st_processor st' = st_processor st /\ st_users st' = st_users st.
Definition steps (st st' : ServerState) : Prop := rtc service_step (st_world st) (st_world st') /\ rtc account_step (st_users st) (st_users st').
(** A handler that does what services do. *)
Definition serves (h : Handler) : Prop := forall r user st, steps st (h r user st).2.

Lemma same_steps st st' : same_state st st' -> steps st st'.
Proof. intros (Hw & _ & _ & Hu). unfold steps. rewrite Hw, Hu. split; apply rtc_refl. Qed.

Lemma auth_cases cfg now next r user st :
  (bearer_user cfg now r = None /\ exists resp, AuthRequired (rc_tokenManager cfg) now next r user st = (resp, st) /\ rs_Status resp ∈ [401; 500]) \/
  (exists u, bearer_user cfg now r = Some u /\ AuthRequired (rc_tokenManager cfg) now next r user st = next r (Some (ContextUint u)) st).
Proof.
  unfold bearer_user, AuthRequired. destruct (rc_tokenManager cfg) as [tm|]; cbn [mbind option_bind]; [|left; split; [done|]; eexists; split; [done|]; set_solver].
  destruct (ExtractBearerToken _) as [token|]; [|left; split; [done|]; eexists; split; [done|]; set_solver].
  destruct (Parse (Some tm) now token) as [u|e]; [right; by exists u|]. left. split; [done|]. destruct (decide _); eexists; (split; [done|]); set_solver.
Qed.

Lemma serves_auth cfg now next : serves next -> serves (AuthRequired (rc_tokenManager cfg) now next).
Proof. intros Hn r user st. destruct (auth_cases cfg now next r user st) as [(_ & resp & -> & _)|(u & _ & ->)]; [by apply same_steps|apply Hn]. Qed.

Lemma set_limiter_same name rl st : same_state st (set_limiter name rl st).
Proof. done. Qed.

Lemma serves_limited name now key rl next : serves next -> serves (limited name now key rl next).
Proof.
  intros Hn r user st. unfold limited. destruct (Allow now key rl) as [[seconds|] rl']; [by apply same_steps|]. exact (Hn r user (set_limiter name rl' st)).
Qed.
Lemma serves_ip name prefix now next : serves next -> serves (RateLimitByIP name prefix now next).
Proof. intros Hn r user st. unfold RateLimitByIP. destruct (st_limiters st name); [by apply serves_limited|apply Hn]. Qed.
Lemma serves_user name now next : serves next -> serves (RateLimitByUser name now next).
Proof. intros Hn r user st. unfold RateLimitByUser. destruct (st_limiters st name); [destruct user as [[]|]; try apply Hn; by apply serves_limited|apply Hn]. Qed.

Lemma dev_cases cfg next r user st : rc_devToolsEnabled cfg = true ->
  (~ dev_allowed cfg r /\ exists resp, DevToolsRequired (rc_devToolsToken cfg) next r user st = (resp, st)) \/
  (dev_allowed cfg r /\ DevToolsRequired (rc_devToolsToken cfg) next r user st = next r user st).
Proof.
  intros He. unfold DevToolsRequired, dev_allowed. destruct (decide (TrimSpace (rc_devToolsToken cfg) = "")); [left; split; [naive_solver|by eexists]|].
  destruct (decide (TrimSpace (hr_DevToken r) = "" \/ _)) as [H|H]; [left; split; [intuition congruence|by eexists]|]. right. split; [|done].
  repeat split; [done|done|]. apply dec_stable. intuition.
Qed.

Lemma serves_world {B} (body : HttpRequest -> result string B) (f : Request B -> World -> Response * World) :
  (forall c w, http_step w (f c w).2) -> serves (fun r user st => with_world st (f (context r user (body r)) (st_world st))).
Proof. intros Hf r user st. split; [apply requests_are_service_calls, Hf|apply rtc_refl]. Qed.

Lemma serves_register s salt now : serves (handleRegister s salt now).
Proof.
  intros r user st. unfold handleRegister. destruct (hr_Register r) as [req|]; [|by apply same_steps].
  pose proof (register_steps s salt now (mkRegisterInput (rr_Name req) (rr_Email req) (rr_Password req)) (st_users st)) as H.
  destruct (Register _ _ _ _ _) as [outcome users]. split; [apply rtc_refl|exact H].
Qed.
Lemma serves_login s now : serves (handleLogin s now).
Proof.
  intros r user st. unfold handleLogin. destruct (hr_Login r) as [req|]; [|by apply same_steps].
  pose proof (login_steps s now (mkLoginInput (lr_Email req) (lr_Password req)) (st_users st)) as H.
  destruct (Login _ _ _ _) as [outcome users]. split; [apply rtc_refl|exact H].
Qed.

Lemma serves_create cfg now : place_ok (rc_place cfg) -> serves (fun r user st =>
  let '(resp, w, me) := handleCreateOrder (holdWithIdempotency (rc_place cfg)) (rc_orderRules cfg) now (context r user (hr_CreateOrder r)) (st_world st) (st_engine st) in
  (resp, mkServerState w me (st_processor st) (st_users st) (st_limiters st))).
Proof.
  intros Hh r user st. pose proof (requests_are_service_calls _ _ (http_create (rc_place cfg) (rc_orderRules cfg) now (context r user (hr_CreateOrder r)) (st_engine st) (st_world st) Hh)) as H.
  destruct (handleCreateOrder _ _ _ _ _ _) as [[resp w] me]. split; [exact H|apply rtc_refl].
Qed.

Lemma serves_transfers (f : Request TransferRequestBody -> World -> processor -> Response * World * processor) :
  (forall c w p, rtc service_step w (f c w p).1.2) -> serves (fun r user st =>
    let '(resp, w, p) := f (context r user (hr_Transfer r)) (st_world st) (st_processor st) in (resp, mkServerState w (st_engine st) p (st_users st) (st_limiters st))).
Proof. intros Hf r user st. specialize (Hf (context r user (hr_Transfer r)) (st_world st) (st_processor st)). destruct (f _ _ _) as [[resp w] p]. split; [exact Hf|apply rtc_refl]. Qed.

Lemma routes_serve cfg salt now route h : place_ok (rc_place cfg) -> newRouter cfg salt now route = Some h -> serves h.
Proof.
  intros Hh. assert (Hdev : forall next, serves next -> rc_devToolsEnabled cfg = true -> serves (AuthRequired (rc_tokenManager cfg) now (DevToolsRequired (rc_devToolsToken cfg) next))).
  { intros next Hn He. apply serves_auth. intros r user st. destruct (dev_cases cfg next r user st He) as [(_ & resp & ->)|(_ & ->)]; [by apply same_steps|apply Hn]. }
  unfold newRouter. cbv zeta. destruct route; [..|destruct (rc_devToolsEnabled cfg) eqn:He|destruct (rc_devToolsEnabled cfg) eqn:He]; intros [= <-].
  - intros r user st. by apply same_steps.
  - apply serves_ip, serves_register.
  - apply serves_ip, serves_login.
  - intros r user st. by apply same_steps.
  - intros r user st. by apply same_steps.
  - apply serves_auth, (serves_world (fun _ => Ok tt)). apply http_list_orders.
  - apply serves_auth, (serves_world (fun _ => Ok tt)). apply http_get_order.
  - by apply serves_auth, serves_user, serves_create.
  - apply serves_auth, serves_user, (serves_world (fun _ => Ok tt)). apply http_cancel.
  - apply serves_auth, (serves_world (fun _ => Ok tt)). apply http_list_wallets.
  - apply serves_auth, (serves_world (fun _ => Ok tt)). apply http_list_trades.
  - apply serves_auth, serves_user, serves_transfers. intros. apply requests_are_service_calls, http_deposit.
  - apply serves_auth, serves_user, serves_transfers. intros. apply requests_are_service_calls, http_withdrawal.
  - apply serves_auth, (serves_world (fun _ => Ok tt)). apply http_list_transfers.
  - apply Hdev; [|done]. apply (serves_world hr_Fund). apply http_fund.
  - apply Hdev; [|done]. apply (serves_world hr_Callback). apply http_callback.
Qed.

(** Who sends no valid token, or no token of the development tools, does nothing. *)
Lemma auth_refuses cfg now next r st : bearer_user cfg now r = None -> exists resp, AuthRequired (rc_tokenManager cfg) now next r None st = (resp, st) /\ rs_Status resp ∈ [401; 500].
Proof. intros Hn. destruct (auth_cases cfg now next r None st) as [(_ & resp & E & Hs)|(u & E & _)]; [by exists resp|congruence]. Qed.

Lemma protected_handler cfg salt now route h : protected route = true -> newRouter cfg salt now route = Some h -> exists next, h = AuthRequired (rc_tokenManager cfg) now next.
Proof. intros Hp. unfold newRouter. cbv zeta. destruct route; try done; [..|destruct (rc_devToolsEnabled cfg)|destruct (rc_devToolsEnabled cfg)]; intros [= <-]; by eexists. Qed.

(** Public routes change the accounts of users at most. *)
Lemma public_frame cfg salt now route h r st : protected route = false -> newRouter cfg salt now route = Some h ->
  let st' := (h r None st).2 in st_world st' = st_world st /\ st_engine st' = st_engine st /\ st_processor st' = st_processor st.
Proof.
  intros Hp. unfold newRouter. destruct route; try done; intros [= <-]; cbv zeta; try done; unfold RateLimitByIP, limited; destruct (st_limiters st AuthLimiter) as [rl|].
  1, 3: destruct (Allow _ _ rl) as [[seconds|] rl']; [done|].
  - unfold handleRegister. destruct (hr_Register r); [|done]. by destruct (Register _ _ _ _ _).
  - unfold handleLogin. destruct (hr_Login r); [|done]. by destruct (Login _ _ _ _).
  - unfold handleRegister. destruct (hr_Register r); [|done]. by destruct (Register _ _ _ _ _).
  - unfold handleLogin. destruct (hr_Login r); [|done]. by destruct (Login _ _ _ _).
Qed.

Lemma dev_refuses cfg salt now route h r st : dev_route route = true -> ~ dev_allowed cfg r -> newRouter cfg salt now route = Some h -> (h r None st).2 = st.
Proof.
  intros Hd Hno. assert (H : forall next, rc_devToolsEnabled cfg = true -> (AuthRequired (rc_tokenManager cfg) now (DevToolsRequired (rc_devToolsToken cfg) next) r None st).2 = st).
  { intros next He. destruct (auth_cases cfg now (DevToolsRequired (rc_devToolsToken cfg) next) r None st) as [(_ & resp & -> & _)|(u & _ & ->)]; [done|].
    destruct (dev_cases cfg next r (Some (ContextUint u)) st He) as [(_ & resp & ->)|(? & _)]; done. }
  unfold newRouter. cbv zeta. destruct route; try done; destruct (rc_devToolsEnabled cfg) eqn:He; intros [= <-]; by apply H.
Qed.

(** What a limiter answers: a request is let through exactly when its bucket asks for no
    delay; otherwise the client is told the whole seconds that cover the delay; no other
    bucket changes. *)
Theorem limiter_answers now key rl verdict rl' : Allow now key rl = (verdict, rl') ->
  let limiter := match rl_entries rl !! key with Some entry => le_limiter entry | None => NewLimiter (rl_rate rl) (rl_burst rl) end in
  let delay := DelayFrom (ReserveN now limiter).1 now in
  (verdict = None <-> delay <= 0) /\ (forall seconds, verdict = Some seconds -> 1 <= seconds /\ (seconds - 1) * 10 ^ 9 < delay <= seconds * 10 ^ 9)
  /\ (forall other, other <> key -> rl_entries rl' !! other = rl_entries rl !! other).
Proof.
  unfold Allow. cbv zeta. set (limiter := match rl_entries rl !! key with Some _ => _ | None => _ end). destruct (ReserveN now limiter) as [reservation reserved]. cbn [fst].
  destruct (Z.leb_spec (DelayFrom reservation now) 0); intros [= <- <-]; cbn [rl_entries]; (split; [split; [done || lia|done || lia]|]); split; intros.
  - done.
  - by rewrite lookup_insert_ne.
  - simplify_eq. unfold retry_seconds. cbv zeta. set (d := DelayFrom reservation now) in *. clearbody d.
    destruct (Z.eqb_spec (Z.rem d (10 ^ 9)) 0); cbn [negb];
      match goal with |- context [?s <? 1] => destruct (Z.ltb_spec s 1) end; Z.to_euclidean_division_equations; lia.
  - by rewrite lookup_insert_ne.
Qed.

(** C10 Every request is authorised.  Whatever route is called, whatever is sent, and
    wherever the hold of a new order takes place (in any batch of the coordinator, refused
    by a full one, or without one): what is left in the database is what calls of the services leave, so all their invariants
    hold, and the accounts are changed only by registrations; without a valid token
    nothing of orders, funds, transfers and the engine changes, and a protected route
    answers 401, or 500 when no secret is configured, and changes nothing at all; without
    the token of the development tools their routes change nothing. *)
Theorem requests_are_authorised cfg salt now route h r st resp st' :
  newRouter cfg salt now route = Some h -> place_ok (rc_place cfg) -> h r None st = (resp, st') -> ok_world (st_world st) -> users_ok (st_users st) ->
  (rtc service_step (st_world st) (st_world st') /\ ok_world (st_world st') /\ users_ok (st_users st') /\ ud_users (st_users st) `prefix_of` ud_users (st_users st')) /\
  (bearer_user cfg now r = None -> st_world st' = st_world st /\ st_engine st' = st_engine st /\ st_processor st' = st_processor st /\
    (protected route = true -> st' = st /\ rs_Status resp ∈ [401; 500])) /\
  (dev_route route = true -> ~ dev_allowed cfg r -> st' = st).
Proof.
  intros Hr Hh Ha Hw Hu. assert (Est : st' = (h r None st).2) by by rewrite Ha.
  destruct (routes_serve cfg salt now route h Hh Hr r None st) as [H1 H2]. rewrite <- Est in H1, H2. destruct (account_steps_ok _ _ Hu H2) as [Hu' Hp].
  split; [|split].
  - split; [done|]. split; [by apply (reached_ok (st_world st))|done].
  - intros Hn. destruct (protected route) eqn:Hpro.
    + destruct (protected_handler _ _ _ _ _ Hpro Hr) as [next ->]. destruct (auth_refuses cfg now next r st Hn) as (resp' & E & Hs). rewrite E in Ha. by injection Ha as <- <-.
    + pose proof (public_frame cfg salt now route h r st Hpro Hr) as (? & ? & ?). by rewrite Est.
  - intros Hd Hno. rewrite Est. by eapply dev_refuses.
Qed.
End Requests.

(** ** A request without a token *)

Module RouterExamples.
Import FixedPoint ServiceFixtures TransferFixtures PipelineFixtures ProcessingFixtures TokenExamples AccountExamples.

(** A limiter that lets a number of requests through. *)
#[export] Instance counting_limiter : RateLib := {|
  Limiter := Z; Reservation := Z; NewLimiter _ burst := burst; ReserveN _ left_over := (left_over, left_over - 1);
  DelayFrom reservation _ := if reservation <=? 0 then 10 ^ 9 else 0; CancelAt _ _ left_over := left_over + 1 |}.

Definition cfg : routerConfig := mkRouterConfig (Some manager) auth behind_sell None None None true "dev".
Definition anonymous : HttpRequest :=
  mkHttpRequest "Bearer a.b.c" "" "10.0.0.1" "key-1" "1" "" "btc" "" "" (Ok (mkCreateOrderRequest "btc" "buy" "limit" "10000" "1" "")) (Err "") (Err "") (Err "") (Err "") (Err "").
Definition server : ServerState := mkServerState w0 idle quiet_outside no_users (fun _ => Some (NewRateLimiter 1 10)).

Lemma forged_refused next : AuthRequired (Some manager) issued next anonymous None server = (AbortWithError StatusUnauthorized CodeAuthInvalidToken "invalid authorization token", server).
Proof.
  unfold AuthRequired. assert (E1 : ExtractBearerToken (hr_Authorization anonymous) = Ok "a.b.c") by (vm_compute; reflexivity). rewrite E1.
  assert (E2 : Parse (Some manager) issued "a.b.c" = Err ErrInvalidToken) by (vm_compute; reflexivity). rewrite E2. by rewrite decide_False.
Qed.

Lemma requests_are_authorised_witness : exists h resp,
  newRouter cfg 0 issued PostOrder = Some h /\ h anonymous None server = (resp, server) /\ rs_Status resp = 401 /\
  (rtc service_step (st_world server) (st_world server) /\ ok_world (st_world server) /\ users_ok (st_users server) /\ ud_users (st_users server) `prefix_of` ud_users (st_users server)) /\
  (bearer_user cfg issued anonymous = None -> st_world server = st_world server /\ st_engine server = st_engine server /\ st_processor server = st_processor server /\
    (protected PostOrder = true -> server = server /\ rs_Status resp ∈ [401; 500])) /\
  (dev_route PostOrder = true -> ~ dev_allowed cfg anonymous -> server = server).
Proof.
  eexists _, (AbortWithError StatusUnauthorized CodeAuthInvalidToken "invalid authorization token"). split; [reflexivity|].
  split; [exact (forged_refused _)|]. split; [reflexivity|].
  exact (requests_are_authorised cfg 0 issued PostOrder _ anonymous server _ server eq_refl behind_sell_ok (forged_refused _) (empty_ok ∅ []) no_users_ok).
Defined.
End RouterExamples.
