(* ===== verification/Configuration.v ===== *)
(** * Configuration (config/env_file.go, runtime.go, database.go, database_profiles.go)

    The environment is a map; durations are nanoseconds.  [time.ParseDuration],
    [net.ParseCIDR] and what PostgreSQL shows of a setting are parameters.  Opening
    connections is left out. *)
From S2P Require Import Prelude Errors Quantum HttpApi Tokens.
From Stdlib Require Import Lia Ascii.

Local Open Scope Z_scope.

Abbreviation Env := (gmap string string).
(** [os.Getenv] *)
Definition Getenv (env : Env) (key : string) : string := default "" (env !! key).

Class ConfigLib := { ParseDuration : string -> option Z; ParseCIDR : string -> bool }.

Definition microsecond : Z := 10 ^ 3.
Definition millisecond : Z := 10 ^ 6.
Definition cfg_second : Z := 10 ^ 9.
Definition minute : Z := 60 * cfg_second.
Definition hour : Z := 60 * minute.

(** ** Environment files *)

(** [strings.SplitN(s, sep, 2)] with a separator of one byte: [None] without one. *)
Fixpoint Cut (sep : ascii) (s : string) : option (string * string) :=
  match s with
  | EmptyString => None
  | String c s' => if decide (c = sep) then Some ("", s') else match Cut sep s' with Some (a, b) => Some (String c a, b) | None => None end
  end.

(** [strings.Trim(s, cutset)], both quotes being the set *)
Definition is_quote (c : ascii) : bool := let n := N_of_ascii c in ((n =? 34) || (n =? 39))%N.
Fixpoint drop_quotes (s : string) : string := match s with String c s' => if is_quote c then drop_quotes s' else s | EmptyString => s end.
Fixpoint drop_end_quotes (s : string) : string :=
  match s with
  | EmptyString => EmptyString
  | String c s' => match drop_end_quotes s' with EmptyString => if is_quote c then EmptyString else String c EmptyString | r => String c r end
  end.
Definition trim_quotes (s : string) : string := drop_end_quotes (drop_quotes s).

(** [Ok None]: nothing on this line. *)
Definition parseEnvLine (line : string) : result error (option (string * string)) :=
  let line := TrimSpace line in
  if decide (line = "") then Ok None
  else if match line with String "#" _ => true | _ => false end then Ok None
  else
    let line := TrimSpace (default line (CutPrefix "export " line)) in
    match Cut "="%char line with
    | None => Err (Errorf "invalid env line" [])
    | Some (key, value) =>
        let key := TrimSpace key in
        if decide (key = "") then Err (Errorf "env key is required" []) else Ok (Some (key, trim_quotes (TrimSpace value)))
    end.

(** What [os.Setenv] refuses, beside an empty name and one with an equals sign. *)
Definition has_nul (s : string) : bool := existsb (fun c => bool_decide (c = "000"%char)) (String.list_ascii_of_string s).

(** A file: absent, unreadable, or its lines with the error its scanner ends with. *)
Inductive env_file := Missing | Unreadable (err : error) | Lines (lines : list string) (err : option error).

Fixpoint load_lines (path : string) (number : N) (lines : list string) (env : Env) : option error * Env :=
  match lines with
  | [] => (None, env)
  | line :: rest =>
      match parseEnvLine line with
      | Err err => (Some (Wrapf (path +:+ ":" +:+ pretty number +:+ ": %w") err), env)
      | Ok None => load_lines path (number + 1) rest env
      | Ok (Some (key, value)) =>
          match env !! key with
          | Some _ => load_lines path (number + 1) rest env
          | None =>
              if has_nul key || has_nul value then (Some (Wrapf (path +:+ ":" +:+ pretty number +:+ ": set " +:+ key +:+ ": %w") (Errorf "invalid argument" [])), env)
              else load_lines path (number + 1) rest (<[key := value]> env)
          end
      end
  end.
Definition loadEnvFileIfExists (path : string) (file : env_file) (env : Env) : option error * Env :=
  match file with
  | Missing => (None, env)
  | Unreadable err => (Some err, env)
  | Lines lines err => match load_lines path 1 lines env with (Some e, env) => (Some e, env) | (None, env) => (err, env) end
  end.
Definition defaultLocalEnvFiles : list string := [".env.local"; ".env"].
Fixpoint load_files (files : string -> env_file) (paths : list string) (env : Env) : option error * Env :=
  match paths with
  | [] => (None, env)
  | path :: rest => match loadEnvFileIfExists path (files path) env with (Some e, env) => (Some e, env) | (None, env) => load_files files rest env end
  end.
Definition LoadLocalEnvFiles (files : string -> env_file) (env : Env) : option error * Env := load_files files defaultLocalEnvFiles env.

(** ** Values *)

Definition strictPositiveEnv (env : Env) (key : string) (def : Z) : result error Z :=
  match env !! key with
  | None => Ok def
  | Some raw =>
      if decide (raw = "") then Err (Errorf "%s is set but empty" [key])
      else if decide (raw <> TrimSpace raw) then Err (Errorf "%s has surrounding whitespace: %q" [key; raw])
      else match Atoi raw with
      | None => Err (Errorf "%s is not a decimal integer: %q" [key; raw])
      | Some parsed =>
          if decide (pretty parsed <> raw) then Err (Errorf "%s is not in canonical decimal form: %q" [key; raw])
          else if parsed <? 1 then Err (Errorf "%s must be >= 1, got %d" [key; pretty parsed])
          else Ok parsed
      end
  end.

Definition parseCommaSeparatedList (raw : string) : list string := filter (fun value => value <> "") (map TrimSpace (Split ","%char raw)).
Definition parseBoolEnv (value : string) : bool := bool_decide (ToLower (TrimSpace value) ∈ ["1"; "t"; "true"; "y"; "yes"; "on"]).

Definition parsePositiveIntEnv (env : Env) (key : string) (fallback : Z) : Z :=
  let value := TrimSpace (Getenv env key) in
  if decide (value = "") then fallback
  else match Atoi value with Some parsed => if parsed <=? 0 then fallback else parsed | None => fallback end.

Definition envOrDefault (env : Env) (key fallback : string) : string :=
  let value := TrimSpace (Getenv env key) in if decide (value = "") then fallback else value.

Section Configuration.
Context {CF : ConfigLib}.

Definition strictPositiveDurationEnv (env : Env) (key : string) (def : Z) : result error Z :=
  match env !! key with
  | None => Ok def
  | Some raw =>
      if decide (raw = "") then Err (Errorf "%s is set but empty" [key])
      else if decide (raw <> TrimSpace raw) then Err (Errorf "%s has surrounding whitespace: %q" [key; raw])
      else match ParseDuration raw with
      | None => Err (Errorf "%s is not a valid duration: %q" [key; raw])
      | Some parsed => if parsed <=? 0 then Err (Errorf "%s must be > 0, got %s" [key; pretty parsed]) else Ok parsed
      end
  end.

(** *** The scheduler *)

Definition defaultMatchingMaxMatchesPerTurn : Z := 128.
Definition defaultMatchingMaxConsecutiveCancels : Z := 8.
Definition MatchingQuantumFromEnv (env : Env) : result error (Z * Z) :=
  match strictPositiveEnv env "GOEXCHANGE_MATCHING_MAX_MATCHES_PER_TURN" defaultMatchingMaxMatchesPerTurn with
  | Err err => Err err
  | Ok maxMatchesPerTurn =>
      match strictPositiveEnv env "GOEXCHANGE_MATCHING_MAX_CONSECUTIVE_CANCELS" defaultMatchingMaxConsecutiveCancels with
      | Err err => Err err
      | Ok maxConsecutiveCancels => Ok (maxMatchesPerTurn, maxConsecutiveCancels)
      end
  end.

(** *** Servers and limiters *)

Definition defaultHTTPReadHeaderTimeout : Z := 5 * cfg_second.
Definition defaultHTTPReadTimeout : Z := 15 * cfg_second.
Definition defaultHTTPWriteTimeout : Z := 20 * cfg_second.
Definition defaultHTTPIdleTimeout : Z := 60 * cfg_second.
Definition defaultHTTPMaxHeaderBytes : Z := 2 ^ 20.
Definition defaultAdminAddr : string := "127.0.0.1:9101".
Definition defaultAdminWriteTimeout : Z := 120 * cfg_second.
Definition defaultAuthRateLimitRPS : Z := 1.
Definition defaultAuthRateLimitBurst : Z := 10.
Definition defaultOrderRateLimitRPS : Z := 20.
Definition defaultOrderRateLimitBurst : Z := 40.
Definition defaultTransferRateLimitRPS : Z := 2.
Definition defaultTransferRateLimitBurst : Z := 5.
Definition defaultSettlementWorkers : Z := 10.
Definition defaultSettlementConcurrency : Z := 4.
Definition config_defaultOutboxBatchSize : Z := 512.
Definition defaultHoldBatchSize : Z := 64.
Definition HTTPReadHeaderTimeoutFromEnv (env : Env) : result error Z := strictPositiveDurationEnv env "GOEXCHANGE_HTTP_READ_HEADER_TIMEOUT" defaultHTTPReadHeaderTimeout.
Definition HTTPReadTimeoutFromEnv (env : Env) : result error Z := strictPositiveDurationEnv env "GOEXCHANGE_HTTP_READ_TIMEOUT" defaultHTTPReadTimeout.
Definition HTTPWriteTimeoutFromEnv (env : Env) : result error Z := strictPositiveDurationEnv env "GOEXCHANGE_HTTP_WRITE_TIMEOUT" defaultHTTPWriteTimeout.
Definition HTTPIdleTimeoutFromEnv (env : Env) : result error Z := strictPositiveDurationEnv env "GOEXCHANGE_HTTP_IDLE_TIMEOUT" defaultHTTPIdleTimeout.
Definition HTTPMaxHeaderBytesFromEnv (env : Env) : result error Z := strictPositiveEnv env "GOEXCHANGE_HTTP_MAX_HEADER_BYTES" defaultHTTPMaxHeaderBytes.
Definition AdminAddrFromEnv (env : Env) : string := envOrDefault env "GOEXCHANGE_ADMIN_ADDR" defaultAdminAddr.
Definition AdminWriteTimeoutFromEnv (env : Env) : result error Z := strictPositiveDurationEnv env "GOEXCHANGE_ADMIN_WRITE_TIMEOUT" defaultAdminWriteTimeout.
Definition AuthRateLimitRPSFromEnv (env : Env) : result error Z := strictPositiveEnv env "GOEXCHANGE_AUTH_RATE_LIMIT_RPS" defaultAuthRateLimitRPS.
Definition AuthRateLimitBurstFromEnv (env : Env) : result error Z := strictPositiveEnv env "GOEXCHANGE_AUTH_RATE_LIMIT_BURST" defaultAuthRateLimitBurst.
Definition OrderRateLimitRPSFromEnv (env : Env) : result error Z := strictPositiveEnv env "GOEXCHANGE_ORDER_RATE_LIMIT_RPS" defaultOrderRateLimitRPS.
Definition OrderRateLimitBurstFromEnv (env : Env) : result error Z := strictPositiveEnv env "GOEXCHANGE_ORDER_RATE_LIMIT_BURST" defaultOrderRateLimitBurst.
Definition TransferRateLimitRPSFromEnv (env : Env) : result error Z := strictPositiveEnv env "GOEXCHANGE_TRANSFER_RATE_LIMIT_RPS" defaultTransferRateLimitRPS.
Definition TransferRateLimitBurstFromEnv (env : Env) : result error Z := strictPositiveEnv env "GOEXCHANGE_TRANSFER_RATE_LIMIT_BURST" defaultTransferRateLimitBurst.
Definition SettlementWorkersFromEnv (env : Env) : Z := parsePositiveIntEnv env "GOEXCHANGE_SETTLEMENT_WORKERS" defaultSettlementWorkers.
Definition SettlementConcurrencyFromEnv (env : Env) : Z := parsePositiveIntEnv env "GOEXCHANGE_SETTLEMENT_CONCURRENCY" defaultSettlementConcurrency.
Definition EngineShardsFromEnv (env : Env) : Z := parsePositiveIntEnv env "GOEXCHANGE_ENGINE_SHARDS" 1.
Definition OutboxBatchSizeFromEnv (env : Env) : Z := parsePositiveIntEnv env "GOEXCHANGE_OUTBOX_BATCH_SIZE" config_defaultOutboxBatchSize.
Definition HoldBatchSizeFromEnv (env : Env) : Z := parsePositiveIntEnv env "GOEXCHANGE_HOLD_BATCH_SIZE" defaultHoldBatchSize.
Definition defaultReconciliationIntervalSeconds : Z := 3600.
Definition defaultAcceptanceTimeoutMs : Z := 100.
Definition ReconciliationIntervalFromEnv (env : Env) : Z := wrap64 (parsePositiveIntEnv env "GOEXCHANGE_RECONCILIATION_INTERVAL" defaultReconciliationIntervalSeconds * cfg_second).
Definition OrderAcceptanceTimeoutFromEnv (env : Env) : Z := wrap64 (parsePositiveIntEnv env "GOEXCHANGE_ACCEPTANCE_TIMEOUT_MS" defaultAcceptanceTimeoutMs * millisecond).

Definition RateLimitEnabledFromEnv (env : Env) : result error bool :=
  match env !! "GOEXCHANGE_RATE_LIMIT_ENABLED" with
  | None => Ok true
  | Some raw =>
      let value := ToLower raw in
      if decide (value ∈ ["1"; "t"; "true"; "y"; "yes"; "on"]) then Ok true
      else if decide (value ∈ ["0"; "f"; "false"; "n"; "no"; "off"]) then Ok false
      else Err (Errorf "%s is not a recognized boolean: %q" ["GOEXCHANGE_RATE_LIMIT_ENABLED"; raw])
  end.

Fixpoint proxies_of (parts : list string) : result error (list string) :=
  match parts with
  | [] => Ok []
  | part :: rest =>
      let cidr := TrimSpace part in
      if decide (cidr = "") then Err (Errorf "%s contains an empty entry" ["GOEXCHANGE_TRUSTED_PROXIES"])
      else if negb (ParseCIDR cidr) then Err (Errorf "%s contains invalid CIDR %q: %w" ["GOEXCHANGE_TRUSTED_PROXIES"; cidr])
      else match proxies_of rest with Err err => Err err | Ok proxies => Ok (cidr :: proxies) end
  end.
Definition TrustedProxiesFromEnv (env : Env) : result error (list string) :=
  match env !! "GOEXCHANGE_TRUSTED_PROXIES" with
  | None => Ok []
  | Some raw => if decide (TrimSpace raw = "") then Ok [] else proxies_of (Split ","%char raw)
  end.

Definition defaultCORSAllowedOrigins : list string := ["http://localhost:3000"; "http://127.0.0.1:3000"].
Definition CORSAllowedOriginsFromEnv (env : Env) : list string :=
  let origins := TrimSpace (Getenv env "GOEXCHANGE_CORS_ALLOWED_ORIGINS") in
  if decide (origins = "") then defaultCORSAllowedOrigins else parseCommaSeparatedList origins.
Definition DevToolsEnabledFromEnv (env : Env) : bool := parseBoolEnv (Getenv env "GOEXCHANGE_ENABLE_DEV_TOOLS").
Definition DevToolsTokenFromEnv (env : Env) : string := TrimSpace (Getenv env "GOEXCHANGE_DEV_TOOLS_TOKEN").
Definition UpbitEnabledFromEnv (env : Env) : bool := match env !! "GOEXCHANGE_ENABLE_UPBIT" with None => true | Some value => parseBoolEnv value end.
Definition PprofEnabledFromEnv (env : Env) : bool := parseBoolEnv (Getenv env "GOEXCHANGE_ENABLE_PPROF").

(** ** The database *)

Definition defaultDBMaxOpenConns : Z := 25.
Definition defaultDBMaxIdleConns : Z := 25.
Definition defaultMigrationStatementTimeout : Z := 10 * minute.
Definition defaultReconciliationStatementTimeout : Z := 5 * minute.
Definition defaultServiceStatementTimeout : Z := 15 * cfg_second.
Definition defaultServiceLockTimeout : Z := 3 * cfg_second.
Definition defaultServiceIdleInTransactionSessionTimeout : Z := 30 * cfg_second.
Definition defaultDBConnMaxLifetime : Z := 30 * minute.
Definition defaultMigrationLockTimeout : Z := 10 * cfg_second.
Definition defaultMigrationMaxOpenConns : Z := 2.
Definition defaultReconciliationLockTimeout : Z := 3 * cfg_second.
Definition defaultReconciliationMaxOpenConns : Z := 2.
Definition MaxOpenConnsFromEnv (env : Env) : Z := parsePositiveIntEnv env "GOEXCHANGE_DB_MAX_OPEN_CONNS" defaultDBMaxOpenConns.
Definition MaxIdleConnsFromEnv (env : Env) : Z := parsePositiveIntEnv env "GOEXCHANGE_DB_MAX_IDLE_CONNS" defaultDBMaxIdleConns.
Definition MigrationStatementTimeoutFromEnv (env : Env) : result error Z := strictPositiveDurationEnv env "GOEXCHANGE_MIGRATION_STATEMENT_TIMEOUT" defaultMigrationStatementTimeout.
Definition ReconciliationStatementTimeoutFromEnv (env : Env) : result error Z := strictPositiveDurationEnv env "GOEXCHANGE_RECONCILIATION_STATEMENT_TIMEOUT" defaultReconciliationStatementTimeout.
Definition DBStatementTimeoutFromEnv (env : Env) : result error Z := strictPositiveDurationEnv env "GOEXCHANGE_DB_STATEMENT_TIMEOUT" defaultServiceStatementTimeout.
Definition DBLockTimeoutFromEnv (env : Env) : result error Z := strictPositiveDurationEnv env "GOEXCHANGE_DB_LOCK_TIMEOUT" defaultServiceLockTimeout.
Definition DBIdleTxTimeoutFromEnv (env : Env) : result error Z := strictPositiveDurationEnv env "GOEXCHANGE_DB_IDLE_TX_TIMEOUT" defaultServiceIdleInTransactionSessionTimeout.
Definition ConnMaxLifetimeFromEnv (env : Env) : Z :=
  let value := TrimSpace (Getenv env "GOEXCHANGE_DB_CONN_MAX_LIFETIME") in
  if decide (value = "") then defaultDBConnMaxLifetime
  else match ParseDuration value with Some parsed => if parsed <=? 0 then defaultDBConnMaxLifetime else parsed | None => defaultDBConnMaxLifetime end.

Record DatabaseDSNConfig := mkDSNConfig { dc_Host : string; dc_User : string; dc_Password : string; dc_Name : string; dc_Port : string; dc_SSLMode : string; dc_Timeout : string }.
Definition BuildDatabaseDSN (cfg : DatabaseDSNConfig) : string :=
  let password := TrimSpace (dc_Password cfg) in
  let timeout := TrimSpace (dc_Timeout cfg) in
  String.concat " " (["host=" +:+ TrimSpace (dc_Host cfg); "user=" +:+ TrimSpace (dc_User cfg)]
    ++ (if decide (password = "") then [] else ["password=" +:+ password])
    ++ ["dbname=" +:+ TrimSpace (dc_Name cfg); "port=" +:+ TrimSpace (dc_Port cfg); "sslmode=" +:+ TrimSpace (dc_SSLMode cfg)]
    ++ (if decide (timeout = "") then [] else ["connect_timeout=" +:+ timeout])).
Definition DatabaseDSNFromEnv (env : Env) : string :=
  let dsn := TrimSpace (Getenv env "GOEXCHANGE_DATABASE_DSN") in
  if decide (dsn <> "") then dsn
  else BuildDatabaseDSN (mkDSNConfig (envOrDefault env "GOEXCHANGE_DB_HOST" "localhost") (envOrDefault env "GOEXCHANGE_DB_USER" "postgres")
         (TrimSpace (Getenv env "GOEXCHANGE_DB_PASSWORD")) (envOrDefault env "GOEXCHANGE_DB_NAME" "goexchange") (envOrDefault env "GOEXCHANGE_DB_PORT" "5432")
         (envOrDefault env "GOEXCHANGE_DB_SSLMODE" "disable") (envOrDefault env "GOEXCHANGE_DB_CONNECT_TIMEOUT" "5")).

Record DBTimeoutProfile := mkProfile {
  pf_Name : string; pf_StatementTimeout : Z; pf_LockTimeout : Z; pf_IdleInTransactionSessionTimeout : Z;
  pf_MaxOpenConns : Z; pf_MaxIdleConns : Z; pf_ConnMaxLifetime : Z; pf_Registerer : bool }.
Definition MigrationDBProfile (env : Env) : result error DBTimeoutProfile :=
  match MigrationStatementTimeoutFromEnv env with
  | Err err => Err err
  | Ok statementTimeout => Ok (mkProfile "migration" statementTimeout defaultMigrationLockTimeout 0 defaultMigrationMaxOpenConns defaultMigrationMaxOpenConns 0 false)
  end.
Definition ServiceDBProfile (registerer : bool) (env : Env) : result error DBTimeoutProfile :=
  match DBStatementTimeoutFromEnv env with
  | Err err => Err err
  | Ok statementTimeout =>
      match DBLockTimeoutFromEnv env with
      | Err err => Err err
      | Ok lockTimeout =>
          match DBIdleTxTimeoutFromEnv env with
          | Err err => Err err
          | Ok idleTxTimeout =>
              Ok (mkProfile "service" statementTimeout lockTimeout idleTxTimeout (MaxOpenConnsFromEnv env) (MaxIdleConnsFromEnv env) (ConnMaxLifetimeFromEnv env) registerer)
          end
      end
  end.
Definition ReconciliationDBProfile (registerer : bool) (env : Env) : result error DBTimeoutProfile :=
  match ReconciliationStatementTimeoutFromEnv env with
  | Err err => Err err
  | Ok statementTimeout =>
      Ok (mkProfile "reconciliation" statementTimeout defaultReconciliationLockTimeout 0 defaultReconciliationMaxOpenConns defaultReconciliationMaxOpenConns 0 registerer)
  end.

(** [strconv.FormatInt(d.Milliseconds(), 10)] *)
Definition milliseconds (d : Z) : string := pretty (Z.quot d millisecond).
Definition applyDBProfileRuntimeParams (params : gmap string string) (profile : DBTimeoutProfile) : gmap string string :=
  <["idle_in_transaction_session_timeout" := milliseconds (pf_IdleInTransactionSessionTimeout profile)]>
    (<["lock_timeout" := milliseconds (pf_LockTimeout profile)]> (<["statement_timeout" := milliseconds (pf_StatementTimeout profile)]> params)).

(** [strings.CutSuffix] *)
Fixpoint CutSuffix (suffix s : string) : option string :=
  if decide (s = suffix) then Some ""
  else match s with EmptyString => None | String c s' => String c <$> CutSuffix suffix s' end.

Definition postgresDurationUnits : list (string * Z) := [("min", minute); ("ms", millisecond); ("s", cfg_second); ("h", hour); ("d", 24 * hour)].
Fixpoint parse_units (units : list (string * Z)) (raw : string) : option Z :=
  match units with
  | [] => None
  | (suffix, unit) :: rest =>
      match CutSuffix suffix raw with
      | Some numPart => match Atoi numPart with Some n => Some (wrap64 (n * unit)) | None => parse_units rest raw end
      | None => parse_units rest raw
      end
  end.
Definition parsePostgresDuration (raw : string) : result error Z :=
  let raw := TrimSpace raw in
  if decide (raw = "0") then Ok 0
  else match parse_units postgresDurationUnits raw with Some d => Ok d | None => Err (Errorf "unrecognized postgres duration format: %q" [raw]) end.

(** [show]: the answer to SHOW of a setting. *)
Fixpoint check_settings (show : string -> result error string) (name : string) (checks : list (string * Z)) : option error :=
  match checks with
  | [] => None
  | (gucName, want) :: rest =>
      match show gucName with
      | Err err => Some (Wrapf ("show " +:+ gucName +:+ " (profile " +:+ name +:+ "): %w") err)
      | Ok raw =>
          match parsePostgresDuration raw with
          | Err err => Some (Wrapf ("parse " +:+ gucName +:+ " value (profile " +:+ name +:+ "): %w") err)
          | Ok got => if decide (got <> want) then Some (Errorf "%s mismatch (profile %s): got %s, want %s" [gucName; name; pretty got; pretty want]) else check_settings show name rest
          end
      end
  end.
Definition validateDBProfileRuntimeParams (show : string -> result error string) (profile : DBTimeoutProfile) : option error :=
  check_settings show (pf_Name profile)
    [("statement_timeout", pf_StatementTimeout profile); ("lock_timeout", pf_LockTimeout profile); ("idle_in_transaction_session_timeout", pf_IdleInTransactionSessionTimeout profile)].
End Configuration.
