(* ===== verification/ConfigurationProofs.v ===== *)
(** * What a configuration can be, and which limits of the scheduler the engine takes *)
From S2P Require Import Prelude Decimal Containers Errors Quantum Engine Sharded HttpApi HttpProofs Tokens TokenProofs Configuration.
From Stdlib Require Import Lia Ascii.

Local Open Scope Z_scope.

(** ** Strict integers *)

Section Strict.
Context {DL : DecimalLib} {CL : ContainerLib}.

Lemma pretty_Z_solid (z : Z) : solid (pretty z).
Proof.
  assert (Hd : forall n : N, solid (pretty n)).
  { intros n. eapply Forall_impl; [exact (pretty_digits n)|]. intros c [d Hc]. unfold digit in Hc. unfold is_space. cbv zeta in *. destruct (_ && _)%N eqn:E; [|done].
    apply andb_true_iff in E as [E1%N.leb_le E2%N.leb_le]. apply orb_false_iff. split; [apply andb_false_iff; right; apply N.leb_gt; lia|apply N.eqb_neq; lia]. }
  destruct z as [|p|p]; [exact (Hd 0%N)|rewrite (proj1 (pretty_pos p)); apply Hd|]. rewrite (proj2 (pretty_pos p)). constructor; [done|apply Hd].
Qed.

Lemma pretty_Z_nonempty (z : Z) : pretty z <> "".
Proof. destruct z as [|p|p]; [done|rewrite (proj1 (pretty_pos p)); apply pretty_nonempty|by rewrite (proj2 (pretty_pos p))]. Qed.

Lemma Atoi_range s z : Atoi s = Some z -> - 2 ^ 63 <= z < 2 ^ 63.
Proof.
  unfold Atoi. destruct (match s with String "-" s' => (true, s') | String "+" s' => (false, s') | _ => (false, s) end) as [negative digits].
  destruct (decide _); [done|]. destruct (parse_digits 0 digits) as [count|]; [|done]. cbn [mbind option_bind]. destruct (decide _) as [H|]; [|done]. intros [= <-]. exact H.
Qed.

Lemma strict_env_ok env key def v :
  strictPositiveEnv env key def = Ok v <-> (env !! key = None /\ v = def) \/ (1 <= v < 2 ^ 63 /\ env !! key = Some (pretty v)).
Proof.
  unfold strictPositiveEnv. destruct (env !! key) as [raw|]; [|naive_solver]. split.
  - destruct (decide _); [done|]. destruct (decide _); [done|]. destruct (Atoi raw) as [z|] eqn:E; [|done]. destruct (decide _) as [|Hc]; [done|]. apply dec_stable in Hc.
    destruct (Z.ltb_spec z 1); [done|]. intros [= <-]. right. apply Atoi_range in E. split; [lia|congruence].
  - intros [[? _]|[Hv [= ->]]]; [done|]. rewrite decide_False by apply pretty_Z_nonempty. rewrite solid_trim by apply pretty_Z_solid. rewrite decide_False by naive_solver.
    rewrite Atoi_pretty by lia. rewrite decide_False by naive_solver. destruct (Z.ltb_spec v 1); [lia|done].
Qed.

Lemma validate_shards_exact l cfg : Forall (fun shard => exec_cap shard = 1024) l -> l <> [] ->
  validate_shards l cfg = Ok tt <-> validateExecutionCapacity 1024 (MaxMatchesPerTurn cfg) (MaxConsecutiveCancels cfg) = Ok tt.
Proof.
  intros Hcap. induction Hcap as [|shard l Hs _ IH]; [done|]. intros _. cbn [validate_shards]. rewrite Hs.
  destruct (validateExecutionCapacity _ _ _) as [[]|]; cbn [mbind result_bind]; [|done]. destruct l; [done|]. by rewrite IH.
Qed.

(** The whole acceptance test of the sharded engine, for any number of shards. *)
Lemma new_sharded_exact shardCount ids fresh t cfg : Validate cfg = Ok tt -> int64 (MaxMatchesPerTurn cfg) -> int64 (MaxConsecutiveCancels cfg) ->
  is_ok (NewShardedEngineWithQuantum shardCount ids fresh t cfg) = true <-> MaxMatchesPerTurn cfg + 1 + MaxConsecutiveCancels cfg <= 1024.
Proof.
  intros HV Hm Hc. unfold NewShardedEngineWithQuantum. rewrite HV. cbn [mbind result_bind].
  rewrite <- (validateExecutionCapacity_spec 1024 cfg) by (done || (unfold int64; lia)).
  rewrite <- (validate_shards_exact (shards (NewShardedEngine shardCount ids fresh t)) cfg).
  - destruct (validate_shards _ _) as [[]|]; done.
  - apply Forall_forall. intros shard Hs. cbn [shards NewShardedEngine] in Hs. apply list_elem_of_fmap in Hs as (i & -> & _). done.
  - cbn [shards NewShardedEngine]. destruct (Z.ltb_spec shardCount 1) as [|H]; [done|]. destruct (Z.to_nat shardCount) eqn:E; [lia|done].
Qed.

(** C33 A strict setting is exact: the value read is the default of a variable that is
    not set, or the number whose decimal form, without sign, zeros in front, blanks or
    anything else, the variable holds, from 1 to the largest 64-bit integer; every other
    text stops the start.  The two limits of the scheduler read so pass [Validate], and the
    sharded engine of any number of shards accepts them if and only if a slice, its
    completion event and the reserved cancellations fit the 1024 places of a shard's
    execution channel, computed without overflow; larger limits stop the start as well.
    Without variables the limits are the defaults of the matching package, and they fit. *)
Theorem strict_settings_exact :
  (forall env key def v, strictPositiveEnv env key def = Ok v <-> (env !! key = None /\ v = def) \/ (1 <= v < 2 ^ 63 /\ env !! key = Some (pretty v))) /\
  (forall env m c, MatchingQuantumFromEnv env = Ok (m, c) -> Validate (mkQuantum m c) = Ok tt /\ int64 m /\ int64 c /\
     forall shardCount ids fresh t, is_ok (NewShardedEngineWithQuantum shardCount ids fresh t (mkQuantum m c)) = true <-> m + 1 + c <= 1024) /\
  MatchingQuantumFromEnv ∅ = Ok (defaultMaxMatchesPerTurn, defaultMaxConsecutiveCancels) /\
  defaultMaxMatchesPerTurn + 1 + defaultMaxConsecutiveCancels <= 1024.
Proof.
  split; [apply strict_env_ok|]. split; [|done]. intros env m c. unfold MatchingQuantumFromEnv.
  destruct (strictPositiveEnv env "GOEXCHANGE_MATCHING_MAX_MATCHES_PER_TURN" _) as [m'|] eqn:Em; [|done].
  destruct (strictPositiveEnv env "GOEXCHANGE_MATCHING_MAX_CONSECUTIVE_CANCELS" _) as [c'|] eqn:Ec; [|done]. intros [= -> ->].
  assert (Hm : 1 <= m < 2 ^ 63) by (apply strict_env_ok in Em as [[_ ->]|[? _]]; [done|lia]).
  assert (Hc : 1 <= c < 2 ^ 63) by (apply strict_env_ok in Ec as [[_ ->]|[? _]]; [done|lia]).
  assert (HV : Validate (mkQuantum m c) = Ok tt). { unfold Validate. cbn. destruct (Z.ltb_spec m 1), (Z.ltb_spec c 1); lia || done. }
  assert (Hm' : int64 m) by (unfold int64; lia). assert (Hc' : int64 c) by (unfold int64; lia). repeat split; [done|apply Hm'..|apply Hc'|apply Hc'| |]; by apply (new_sharded_exact _ _ _ _ (mkQuantum m c)).
Qed.

End Strict.

(** ** Environment files *)

(** The assignments of a file, in the order of its lines. *)
Definition assignments (lines : list string) : list (string * string) := omap (fun line => match parseEnvLine line with Ok (Some kv) => Some kv | _ => None end) lines.
Definition file_assignments (file : env_file) : list (string * string) := match file with Lines lines _ => assignments lines | _ => [] end.

Lemma load_lines_grows path lines : forall number env, env ⊆ (load_lines path number lines env).2.
Proof.
  induction lines as [|line lines IH]; intros number env; [done|]. cbn [load_lines]. destruct (parseEnvLine line) as [[[key value]|]|]; [|apply IH|done].
  destruct (env !! key) eqn:E; [apply IH|]. destruct (_ || _); [done|]. etrans; [|apply IH]. by apply insert_subseteq.
Qed.

Lemma load_lines_exact path lines : forall number env env', load_lines path number lines env = (None, env') -> env' = env ∪ list_to_map (assignments lines).
Proof.
  induction lines as [|line lines IH]; intros number env env' H; cbn [load_lines] in H.
  - injection H as <-. change (assignments []) with (@nil (string * string)). by rewrite list_to_map_nil, (right_id_L ∅ (∪)).
  - unfold assignments in *. cbn [omap list_omap]. destruct (parseEnvLine line) as [[[key value]|]|]; [|by eapply IH|done].
    destruct (env !! key) eqn:E.
    + rewrite (IH _ _ _ H), list_to_map_cons. apply map_eq. intros k. rewrite !lookup_union. destruct (decide (k = key)) as [->|]; [|by rewrite lookup_insert_ne]. by rewrite E, !union_Some_l.
    + destruct (_ || _); [done|]. rewrite (IH _ _ _ H), list_to_map_cons. rewrite <- insert_union_l. by rewrite insert_union_r.
Qed.

Lemma load_file_exact path file env env' : loadEnvFileIfExists path file env = (None, env') -> env' = env ∪ list_to_map (file_assignments file).
Proof.
  unfold loadEnvFileIfExists. destruct file as [|e|lines err]; cbn [file_assignments]; [intros [= <-]; by rewrite list_to_map_nil, (right_id_L ∅ (∪))|done|].
  destruct (load_lines path 1 lines env) as [[e|] env1] eqn:E; [done|]. intros [= -> <-]. by eapply load_lines_exact.
Qed.

Lemma load_file_grows path file env : env ⊆ (loadEnvFileIfExists path file env).2.
Proof.
  unfold loadEnvFileIfExists. destruct file as [|e|lines err]; [done..|]. pose proof (load_lines_grows path lines 1 env) as H. by destruct (load_lines path 1 lines env) as [[e|] env1].
Qed.

Lemma load_files_grows files paths : forall env, env ⊆ (load_files files paths env).2.
Proof.
  induction paths as [|path paths IH]; intros env; [done|]. cbn [load_files]. pose proof (load_file_grows path (files path) env) as H.
  destruct (loadEnvFileIfExists path (files path) env) as [[e|] env1]; [done|]. etrans; [exact H|apply IH].
Qed.

(** Environment files fill in and never override.  Whatever the files hold, a
    variable of the process keeps its value, also when loading stops with an error; when
    it succeeds, every other variable has the value of its first assignment, those of
    .env.local before those of .env, and no variable appears from elsewhere. *)
Theorem env_files_fill_in files env :
  env ⊆ (LoadLocalEnvFiles files env).2 /\
  (forall env', LoadLocalEnvFiles files env = (None, env') ->
    env' = env ∪ list_to_map (file_assignments (files ".env.local") ++ file_assignments (files ".env"))).
Proof.
  split; [apply load_files_grows|]. intros env'. unfold LoadLocalEnvFiles. cbn [load_files defaultLocalEnvFiles].
  destruct (loadEnvFileIfExists ".env.local" _ env) as [[e|] env1] eqn:E1; [done|]. destruct (loadEnvFileIfExists ".env" _ env1) as [[e|] env2] eqn:E2; [done|]. intros [= <-].
  rewrite (load_file_exact _ _ _ _ E2), (load_file_exact _ _ _ _ E1), list_to_map_app. by rewrite (assoc_L (∪)).
Qed.

(** ** Time limits of the database *)

(** What PostgreSQL shows of a time limit of a number of milliseconds: the number of one
    unit that divides it, and the unit. *)
Class ShowLib := show_ms : Z -> string.
Class ShowLaws (S : ShowLib) : Prop := {
  show_zero : show_ms 0 = "0";
  show_unit ms : 0 < ms < 2 ^ 31 -> exists q suffix unit, (suffix, unit) ∈ postgresDurationUnits /\ 0 < q /\ q * unit = ms * millisecond /\ show_ms ms = pretty q +:+ suffix }.

Definition session_show {S : ShowLib} (params : gmap string string) (name : string) : result error string :=
  match params !! name ≫= Atoi with Some ms => Ok (show_ms ms) | None => Err (DBError "42704") end.

Lemma CutSuffix_inv suffix s : forall y, CutSuffix suffix s = Some y -> s = y +:+ suffix.
Proof.
  induction s as [|c s IH]; intros y; cbn [CutSuffix]; destruct (decide _) as [E|]; [by intros [= <-]|done|by intros [= <-]|].
  destruct (CutSuffix suffix s) as [r|] eqn:E; [|done]. intros [= <-]. change (String c r +:+ suffix) with (String c (r +:+ suffix)). by rewrite <- (IH r).
Qed.

Lemma append_same a t : a +:+ t = t -> a = "".
Proof. intros E. apply (f_equal String.list_ascii_of_string) in E. rewrite ascii_app in E. apply (f_equal length) in E. rewrite length_app in E. destruct a; [done|]. cbn in E. lia. Qed.

Lemma CutSuffix_app a t : CutSuffix t (a +:+ t) = Some a.
Proof.
  induction a as [|c a IH].
  - change ("" +:+ t) with t. destruct t; cbn [CutSuffix]; by rewrite decide_True.
  - change (String c a +:+ t) with (String c (a +:+ t)). cbn [CutSuffix]. rewrite decide_False; [by rewrite IH|]. intros E. by apply (append_same (String c a)) in E.
Qed.

Lemma other_suffix suffix a t x y : last (String.list_ascii_of_string suffix) = Some x -> last (String.list_ascii_of_string t) = Some y -> x <> y -> CutSuffix suffix (a +:+ t) = None.
Proof.
  intros Hx Hy Hne. destruct (CutSuffix suffix (a +:+ t)) as [r|] eqn:E; [|done]. exfalso. apply CutSuffix_inv in E. apply (f_equal String.list_ascii_of_string), (f_equal last) in E.
  rewrite !ascii_app in E. destruct (String.list_ascii_of_string suffix) as [|x0 l]; [done|]. destruct (String.list_ascii_of_string t) as [|y0 k]; [done|].
  rewrite !last_app_cons in E. congruence.
Qed.

Lemma ms_after_digits (n : N) : CutSuffix "ms" (pretty n +:+ "s") = None.
Proof.
  destruct (CutSuffix "ms" (pretty n +:+ "s")) as [r|] eqn:E; [|done]. exfalso. apply CutSuffix_inv in E. apply (f_equal String.list_ascii_of_string) in E. rewrite !ascii_app in E.
  change (String.list_ascii_of_string "ms") with (["m"%char] ++ ["s"%char]) in E. change (String.list_ascii_of_string "s") with ["s"%char] in E. rewrite app_assoc in E. apply app_inj_tail in E as [E _].
  pose proof (pretty_digits n) as Hd. rewrite E, Forall_app in Hd. destruct Hd as [_ Hd]. by apply Forall_cons in Hd as [[d Hm] _].
Qed.

Lemma parse_units_shown (n : N) suffix unit : (suffix, unit) ∈ postgresDurationUnits -> (n < 2 ^ 63)%N ->
  parse_units postgresDurationUnits (pretty n +:+ suffix) = Some (wrap64 (Z.of_N n * unit)).
Proof.
  intros Hin Hn. assert (Ha : Atoi (pretty n) = Some (Z.of_N n)) by (destruct n as [|p]; [done|]; rewrite <- (proj1 (pretty_pos p)); apply Atoi_pretty; lia).
  unfold postgresDurationUnits in *. rewrite !elem_of_cons, elem_of_nil in Hin.
  destruct Hin as [[= -> ->]|[[= -> ->]|[[= -> ->]|[[= -> ->]|[[= -> ->]|[]]]]]]; cbn [parse_units]; rewrite ?ms_after_digits;
    repeat (erewrite other_suffix; [|vm_compute; reflexivity|vm_compute; reflexivity|done]); by rewrite CutSuffix_app, Ha.
Qed.

Section Sessions.
Context {S : ShowLib} {SL : ShowLaws S}.

Lemma parse_shown ms : 0 <= ms < 2 ^ 31 -> parsePostgresDuration (show_ms ms) = Ok (ms * millisecond).
Proof.
  intros Hms. destruct (decide (ms = 0)) as [->|]; [by rewrite show_zero|]. destruct (show_unit ms) as (q & suffix & unit & Hin & Hq & Hd & ->); [lia|].
  assert (Hs : solid suffix /\ suffix <> "" /\ millisecond <= unit).
  { unfold postgresDurationUnits in Hin. rewrite !elem_of_cons, elem_of_nil in Hin. by destruct Hin as [[= -> ->]|[[= -> ->]|[[= -> ->]|[[= -> ->]|[[= -> ->]|[]]]]]]; (split; [repeat constructor|]). }
  destruct Hs as (Hs & Hne & Hu). unfold millisecond in *. unfold parsePostgresDuration. rewrite solid_trim by (apply solid_app; [apply pretty_Z_solid|done]). rewrite decide_False.
  - destruct q as [|p|p]; [lia| |lia]. rewrite (proj1 (pretty_pos p)). rewrite (parse_units_shown (Npos p) suffix unit); [|done|nia]. do 2 f_equal. change (Z.of_N (Npos p)) with (Zpos p). rewrite wrap64_id; [done|]. unfold int64. lia.
  - intros E. pose proof (pretty_Z_nonempty q) as Hp. destruct (pretty q) as [|c r]; [done|]. change (String c r +:+ suffix) with (String c (r +:+ suffix)) in E. injection E as _ E. destruct r; [|done]. by destruct suffix.
Qed.

Lemma shown_iff d : 0 <= d < 2 ^ 31 * millisecond -> exists got, parsePostgresDuration (show_ms (Z.quot d millisecond)) = Ok got /\ (got = d <-> d mod millisecond = 0).
Proof. intros Hd. unfold millisecond in *. rewrite parse_shown by (Z.to_euclidean_division_equations; lia). eexists. split; [done|]. unfold millisecond. Z.to_euclidean_division_equations. lia. Qed.

Lemma session_reads params name d : 0 <= d < 2 ^ 31 * millisecond -> params !! name = Some (milliseconds d) -> session_show params name = Ok (show_ms (Z.quot d millisecond)).
Proof. intros Hd E. unfold session_show. rewrite E. cbn [mbind option_bind]. unfold milliseconds. rewrite Atoi_pretty; [done|]. unfold millisecond in *. Z.to_euclidean_division_equations. lia. Qed.

Lemma check_one params pname name d rest : 0 <= d < 2 ^ 31 * millisecond -> params !! name = Some (milliseconds d) ->
  check_settings (session_show params) pname ((name, d) :: rest) = None <-> d mod millisecond = 0 /\ check_settings (session_show params) pname rest = None.
Proof.
  intros Hd E. cbn [check_settings]. rewrite (session_reads _ _ d) by done. destruct (shown_iff d Hd) as (got & -> & Hg). destruct (decide (got <> d)) as [Hne|He]; [naive_solver|]. apply dec_stable in He. naive_solver.
Qed.

(** The check after connecting accepts a profile exactly when each of its three time
    limits is a whole number of milliseconds.  A session that was opened with the profile's
    parameters shows a limit in the largest unit that fits; what is read back from this is
    the limit, for all values the server takes, so the check never refuses such a profile
    and never lets a limit pass that the server has rounded. *)
Theorem profile_verified_iff params profile :
  let limits := [pf_StatementTimeout profile; pf_LockTimeout profile; pf_IdleInTransactionSessionTimeout profile] in
  Forall (fun d => 0 <= d < 2 ^ 31 * millisecond) limits ->
  validateDBProfileRuntimeParams (session_show (applyDBProfileRuntimeParams params profile)) profile = None <-> Forall (fun d => d mod millisecond = 0) limits.
Proof.
  intros limits Hl. unfold limits in *. rewrite !Forall_cons in *. destruct Hl as (H1 & H2 & H3 & _). unfold validateDBProfileRuntimeParams.
  rewrite (check_one _ _ "statement_timeout") by (done || (unfold applyDBProfileRuntimeParams; rewrite !lookup_insert_ne by done; by rewrite lookup_insert_eq)).
  rewrite (check_one _ _ "lock_timeout") by (done || (unfold applyDBProfileRuntimeParams; rewrite lookup_insert_ne by done; by rewrite lookup_insert_eq)).
  rewrite (check_one _ _ "idle_in_transaction_session_timeout") by (done || (unfold applyDBProfileRuntimeParams; by rewrite lookup_insert_eq)).
  cbn [check_settings]. rewrite Forall_nil. tauto.
Qed.
End Sessions.

(** ** Examples *)

Module ConfigurationExamples.

(** Milliseconds, seconds or minutes: one unit that divides. *)
#[export] Instance plain_show : ShowLib := fun ms =>
  if ms =? 0 then "0" else if ms mod 60000 =? 0 then pretty (ms / 60000) +:+ "min" else if ms mod 1000 =? 0 then pretty (ms / 1000) +:+ "s" else pretty ms +:+ "ms".
#[export] Instance plain_show_laws : ShowLaws plain_show.
Proof.
  split; [done|]. intros ms Hms. unfold show_ms, plain_show. destruct (Z.eqb_spec ms 0); [lia|].
  destruct (Z.eqb_spec (ms mod 60000) 0); [|destruct (Z.eqb_spec (ms mod 1000) 0)].
  - exists (ms / 60000), "min", minute. split; [left|]. unfold minute, cfg_second, millisecond. split; [|split; [|done]]; Z.to_euclidean_division_equations; lia.
  - exists (ms / 1000), "s", cfg_second. split; [right; right; left|]. unfold cfg_second, millisecond. split; [|split; [|done]]; Z.to_euclidean_division_equations; lia.
  - exists ms, "ms", millisecond. split; [right; left|]. split; [lia|done].
Qed.
#[export] Instance no_durations : ConfigLib := {| ParseDuration _ := None; ParseCIDR s := bool_decide (length (Split "/"%char s) = 2%nat) |}.

Definition service_profile : DBTimeoutProfile := mkProfile "service" (15 * cfg_second) (1500 * millisecond) (30 * cfg_second) 25 25 (30 * minute) true.

Lemma service_defaults : exists profile, ServiceDBProfile true ∅ = Ok profile /\ pf_LockTimeout profile = 3 * cfg_second.
Proof. by eexists. Qed.

Lemma profile_verified_iff_witness :
  validateDBProfileRuntimeParams (session_show (applyDBProfileRuntimeParams ∅ service_profile)) service_profile = None <->
  Forall (fun d => d mod millisecond = 0) [15 * cfg_second; 1500 * millisecond; 30 * cfg_second].
Proof. apply (profile_verified_iff ∅ service_profile). by repeat constructor. Defined.

(** A limit that the server rounds. *)
Example rounded_limit_refused :
  validateDBProfileRuntimeParams (session_show (applyDBProfileRuntimeParams ∅ (mkProfile "p" 1500000 0 0 1 1 0 false))) (mkProfile "p" 1500000 0 0 1 1 0 false) <> None.
Proof. by vm_compute. Qed.

Example strict_texts : map (fun raw => strictPositiveEnv {["K" := raw]} "K" 8) ["16"; "+16"; "016"; " 16"; ""; "0"; "9223372036854775808"] =
  [Ok 16; Err (Errorf "%s is not in canonical decimal form: %q" ["K"; "+16"]); Err (Errorf "%s is not in canonical decimal form: %q" ["K"; "016"]);
   Err (Errorf "%s has surrounding whitespace: %q" ["K"; " 16"]); Err (Errorf "%s is set but empty" ["K"]); Err (Errorf "%s must be >= 1, got %d" ["K"; "0"]);
   Err (Errorf "%s is not a decimal integer: %q" ["K"; "9223372036854775808"])].
Proof. vm_compute. reflexivity. Qed.

Example env_lines : map parseEnvLine ["export A = 'x y' "; "# note"; ""; "B=1=2"; "=3"; "C"] =
  [Ok (Some ("A", "x y")); Ok None; Ok None; Ok (Some ("B", "1=2")); Err (Errorf "env key is required" []); Err (Errorf "invalid env line" [])].
Proof. vm_compute. reflexivity. Qed.

(** Values are put into the connection string as they are: a password with a blank is
    read as another setting. *)
Lemma password_is_not_quoted :
  BuildDatabaseDSN (mkDSNConfig "db" "app" "a sslmode=require" "x" "5432" "disable" "5") = "host=db user=app password=a sslmode=require dbname=x port=5432 sslmode=disable connect_timeout=5".
Proof. vm_compute. reflexivity. Qed.
End ConfigurationExamples.
